(* ===== verification/_CoqProject ===== *)
-Q . S2P
Prelude.v
RlpSpec.v
RlpCommon.v
RlpEncoder.v
RlpDecoder.v
DecodeLogic.v
RlpTyped.v
RlpStreaming.v
EthObjects.v
EthMessages.v
EthStatus.v
ChainTracker.v
EventFilter.v
FinalityPolicy.v
AbiDecoder.v
DialScheduler.v
PeerQueue.v
BridgeEvent.v
RlpxMessages.v
FrameCipher.v
RlpxCrypto.v
RlpxAuth.v
RlpxSession.v
EthHandshake.v
WatchService.v
ParseUtility.v
JsonUtility.v
JsonRpc.v
ReceiptSource.v
Base64Url.v
Enr.v
Discv5Crawler.v
EnrTree.v
Discv4Packets.v
Discv4Client.v
Discv4Logic.v
Discv4Bond.v
RpcManager.v
RpcConfig.v
WatchRunner.v
ChainPeers.v
WatchDialer.v
WatchOrchestrator.v
Discv5Packets.v
Discv5Client.v
Discv5Sessions.v
RpcHttpTransport.v
ChainConfig.v
SocketTransport.v
Discv4Factory.v
WatchCli.v
