(* ===== verification/Prelude.v ===== *)
(** * evmrelay: a verification development

    evmrelay watches EVM chains over devp2p: it discovers peers, dials them,
    runs the encrypted RLPx transport and the ETH protocol on top of it, asks for
    the receipts of announced blocks and hands the decoded event logs to the
    application, which signs claims about them for a bridge.  The same events can
    be read from a JSON-RPC node.  This library models that code (C++, under
    [src/] and [include/]) as executable Rocq functions and proves the properties
    that make it correct, or that show where it is not.

    ** The parts of the program and the files that model them

    The encoding of everything on the wire ([src/rlp]):
    - [RlpSpec]: the RLP format itself, independent of the code;
    - [RlpCommon]: constants, errors, byte order ([endian.cpp]);
    - [RlpEncoder], [RlpDecoder], [RlpTyped]: [rlp_encoder], [rlp_decoder] and its
      typed entry points; the decoder is a view that shrinks, every access that C++
      leaves undefined is a [crash] of the model;
    - [RlpStreaming]: [rlp_streaming], both approaches;
    - [DecodeLogic]: rules for decoders ([eats], [consumes] for round trips, [safe]
      for arbitrary input) with their hint databases.

    The ETH protocol ([src/eth]):
    - [EthObjects], [EthMessages], [EthStatus]: [objects.cpp] and [messages.cpp];
    - [EthHandshake]: [eth_peer_session], [eth_handshake], [eth_handshake_guard] over
      the interface [EthChannel] that [eth_session_channel] implements;
    - [ChainTracker], [EventFilter], [AbiDecoder], [FinalityPolicy]: the parts the watch
      service composes;
    - [WatchService]: the session half of [eth_watch_service] on top of them;
    - [WatchRunner]: [eth_watch_runner], which joins a session channel, a watch service
      and the application; [WatchDialer]: the default dial function of
      [eth_watch_service]; [WatchOrchestrator]: its other half, which starts and stops
      chains with their schedulers, queues and discovery; [WatchCli]: [eth_watch_cli], the
      watches of the command line;
    - [PeerQueue] and [DialScheduler]: [eth_peer_queue], [dial_history], [dial_scheduler];
    - [BridgeEvent]: [bridge_event], [bridge_observation], [secp256k1_utility];
    - [ParseUtility], [JsonUtility], [JsonRpc], [ReceiptSource]: [parse_utility],
      [json_utility], [json_rpc], [rpc_receipt_source], and the bridge watch over any
      receipt source;
    - [RpcHttpTransport]: [rpc_http_transport], the transport of a receipt source;
    - [RpcManager], [RpcConfig]: [rpc_manager], [rpc_probe], [rpc_config_audit], and the
      JSON files they are configured from ([rpc_manager_config], [chainlist_provider]).

    The RLPx transport ([src/rlpx]):
    - [RlpxMessages], [FrameCipher], [RlpxCrypto], [RlpxAuth], [RlpxSession]: messages,
      framing, ECIES and key derivation, the handshake, and the session with its
      queues and loops; [SocketTransport]: [connect_with_timeout].

    Discovery ([src/discv4], [src/discv5]):
    - [Base64Url], [Enr]: [discv5_enr];
    - [Discv5Crawler]: [discv5_crawler];
    - [EnrTree]: [enr_tree];
    - [ChainPeers]: [chain_peers], the signed cache of chains and their nodes;
      [ChainConfig]: [bootstrap_peers] and [examples/chain_config.hpp], which find the
      cache and load a chain at start;
    - [Discv4Packets]: the packets and their envelope ([discv4_ping], [discv4_pong],
      [discv4_enr_request], [discv4_enr_response], [discv4_packet], [packet_factory]);
      [Discv4Factory]: the PING that [packet_factory] sends, and [discovery.hpp];
    - [Discv4Client]: [discv4_client], its coroutines as resumptions and the executor
      as a step relation; [Discv4Logic]: a rely/guarantee logic for the coroutines and
      the invariant of the reachable states; [Discv4Bond]: what an exchange of packets
      achieves, and what the client accepts unchecked;
    - [Discv5Packets]: the packets, keys and messages of [discv5_client.cpp] (its
      anonymous namespace); [Discv5Client]: the client, its coroutines cut where they
      send, and the exchange of two clients; [Discv5Sessions]: what the client keeps
      and accepts, by a triple for its computations.

    ** How the model corresponds to the code

    A byte is [Byte.byte], an unsigned integer is a [Z] with the wrap-around of its
    width written where the code can reach it ([u16], [u32], [u64]).  A fallible
    function returns an [outcome]: [success], [failure] with the error the code
    returns, or [crash] for what the code must not do (out-of-bounds access, an
    exception leaving a [noexcept] function, an endless loop, an uninitialised
    value, a destroyed object), so that its absence is a theorem.  A member function of a class is a
    computation [M S E A] on the record [S] of its members, which persist on the
    error path.  Calls out of a component (callbacks, messages handed to a
    transport, dials) are recorded in the state, in their order.  Coroutines are
    cut at their suspension points, and the theorems quantify over the order in
    which the pieces run; what runs under a mutex is one step.

    Code that is not under [src] is a parameter: Keccak, SHA-256, AES, HMAC,
    libsecp256k1, Snappy, the sockets, the text parser of Boost.JSON, the HTTP
    transport and the DNS lookup are fields of classes or arguments, and what the
    code relies on is stated in classes of laws ([FramePrimitivesLaws],
    [SnappyLaws], [CurveLaws], [Secp256k1Laws], ...); every theorem that uses laws
    has a witness at a concrete instance.  Where components meet there is an
    interface: [EthChannel] with [EthChannelLaws] between handshake and session,
    [ReceiptSourceLaws] between the bridge watch and its sources,
    [EnqueueInvariant] and [QueueInvariant] between the queue's operations and the
    properties they keep.

    ** What the theorems show

    - Codecs: the encoders produce the specified format, the decoders accept exactly
      it and invert the encoders (RLP, objects, messages, Status, Hello, ABI logs,
      bridge claims, ENR, JSON-RPC); on arbitrary input they return, do not read out
      of bounds, and yield well-formed values.
    - Transport: synchronised ciphers deliver every sequence of messages; two
      connected sessions deliver what is posted, in order; the queues are FIFO in
      every interleaving; the initiator's handshake agrees with an EIP-8 peer, the
      responder's never completes; negotiation picks the greatest common version.
    - Handshake: a completed Status handshake means that both Status messages passed
      validation, whatever the channel does within its laws.
    - Watching: set, ring buffer and head index of the tracker refine the history of
      accepted blocks; a block announced by a peer is asked for once and its logs
      reach exactly the matching callbacks, and, through the runner and both transports,
      the application; the backfill of a range from a truthful node is complete; a poll
      makes progress and ends.
    - RPC endpoints: a configuration is read back from its JSON document; the manager's
      pools are the ranked endpoints of the configuration, a pool always serves its best
      usable endpoint, and what a failure report does to an endpoint; a call over HTTPS
      sends its request only to a verified host.
    - Dialling: the slot counters equal the running dials in every interleaving, dials
      to one node are spaced, the queue's bounds hold, and peers can be stranded; a dial
      that connects leaves a runner with the configured watches, its counters form a
      funnel, and its slot is never given back.
    - Orchestration: a chain has at most one discovery and only one that its
      configuration permits, the service holds exactly its chains while it runs, peers
      of another fork are not dialled, and a dial outlives the configuration it was
      started for.
    - Peer cache: a configuration is read back from its document; a refresh writes only
      signed documents, but a document without its signature is accepted, and a bad
      recovery id ends the process; a program that starts with a signed download reads
      its chain from it.
    - Discovery: signed records round-trip; three ways in which the record parser
      accepts what was not signed or reads out of bounds; the walk of a DNS tree is
      complete; the crawler forwards every node once.  In discv4 a bond means an
      exchanged packet; in discv5 two strangers end with mirrored session keys, only a
      proven identity opens a session, and every handshake is accounted for, but a
      session is never renegotiated, requests to two nodes at one endpoint are mixed up,
      and any sender reaches the record parser's overrun.

    ** Bounds and fuel

    [while_above] runs a body at most once per byte of the view and once more, since
    every pass consumes a byte; so do the loops over pairs of a record
    ([read_pairs]), capabilities of a Hello and messages of the receive loop.  The
    scheduler's drain is structural in the queue, [spread_loop] runs once per peer,
    the key derivation loop has the 1001 passes its counter allows, the handshake
    loop one per message the peer still sends, [ranges_loop] one per range of blocks,
    and [tree_loop] the 8192 lookups the code allows.  Running out is the fault
    [Diverge], which the safety theorems exclude.  [fits] says that a buffer has less
    than 2^64 bytes.

    ** Not modelled
    The set-up of sockets, the logger, the command-line programs under [examples] (but for
    the configuration they load) and the class [discv4Discovery], which nothing uses: input
    and output.  [intx.hpp] is a vendored library of which only what the code calls is
    modelled.  Times are readings
    of a clock passed as arguments.  Threads other than the executor of a session do
    not appear, and user callbacks do not call back into the object that calls them. *)

From stdpp Require Export base list gmap strings.
From Stdlib Require Export ZArith Lia.
From Stdlib Require Export Strings.Byte.

#[global] Set Default Goal Selector "!".

Declare Scope relay_scope.
Delimit Scope relay_scope with relay.
Global Open Scope Z_scope.
Global Open Scope relay_scope.

(** ** Bytes and machine words *)

(** Length of a container as [size_t] arithmetic sees it. *)
Notation Zlen l := (Z.of_nat (length l)).

(** The numeric value of a [uint8_t]. *)
Definition u8 (b : byte) : Z := Z.of_N (Byte.to_N b).

(** [static_cast<uint8_t>(z)]. *)
Definition byte_of (z : Z) : byte := default x00 (Byte.of_N (Z.to_N (z mod 256))).

(** Wrap-around of unsigned arithmetic at the widths the sources use. *)
Definition u16 (z : Z) : Z := z mod 2 ^ 16.
Definition u32 (z : Z) : Z := z mod 2 ^ 32.
Definition u64 (z : Z) : Z := z mod 2 ^ 64.

(** A value that an unsigned integer type of [w] bits can hold. *)
Definition in_width (w : Z) (z : Z) : Prop := 0 <= z < 2 ^ w.

#[global] Instance in_width_dec w z : Decision (in_width w z).
Proof. unfold in_width. apply _. Defined.

#[global] Instance byte_eq_dec : EqDecision byte := Byte.byte_eq_dec.

#[global] Program Instance byte_countable : Countable byte :=
  inj_countable Byte.to_N Byte.of_N _.
Next Obligation. intros b. apply Byte.of_to_N. Qed.

Lemma u8_range b : 0 <= u8 b < 256.
Proof.
  unfold u8. pose proof (Byte.to_N_bounded b) as Hb. lia.
Qed.

Lemma u8_byte_of z : u8 (byte_of z) = z mod 256.
Proof.
  unfold u8, byte_of.
  pose proof (Z.mod_pos_bound z 256 ltac:(lia)) as Hr.
  destruct (Byte.of_N _) as [b|] eqn:E; simpl.
  - apply Byte.to_of_N in E. rewrite E. lia.
  - apply Byte.of_N_None_iff in E. lia.
Qed.

Lemma u8_inj b1 b2 : u8 b1 = u8 b2 -> b1 = b2.
Proof.
  unfold u8. intros H%N2Z.inj.
  pose proof (Byte.of_to_N b1) as E1. pose proof (Byte.of_to_N b2) as E2.
  rewrite H in E1. congruence.
Qed.

Lemma byte_of_u8 b : byte_of (u8 b) = b.
Proof.
  apply u8_inj. rewrite u8_byte_of. apply Z.mod_small, u8_range.
Qed.

Lemma u8_byte_of_small z : 0 <= z < 256 -> u8 (byte_of z) = z.
Proof. intros. rewrite u8_byte_of. by apply Z.mod_small. Qed.

Lemma u64_small z : 0 <= z < 2 ^ 64 -> u64 z = z.
Proof. apply Z.mod_small. Qed.

Lemma u64_range z : 0 <= u64 z < 2 ^ 64.
Proof. apply Z.mod_pos_bound. lia. Qed.

Lemma u32_small z : 0 <= z < 2 ^ 32 -> u32 z = z.
Proof. apply Z.mod_small. Qed.

Lemma u16_small z : 0 <= z < 2 ^ 16 -> u16 z = z.
Proof. apply Z.mod_small. Qed.

(** Adds the range of every [u8] term of the goal and the context. *)
Ltac pose_u8 :=
  repeat match goal with
  | |- context [u8 ?b] =>
      lazymatch goal with
      | _ : 0 <= u8 b < 256 |- _ => fail
      | _ => pose proof (u8_range b)
      end
  | _ : context [u8 ?b] |- _ =>
      lazymatch goal with
      | _ : 0 <= u8 b < 256 |- _ => fail
      | _ => pose proof (u8_range b)
      end
  end.

(** Turns boolean integer tests of the context and the goal into propositions. *)
Ltac zbool :=
  repeat match goal with
  | H : (_ && _)%bool = true |- _ => apply andb_prop in H as [? ?]
  | H : (_ =? _) = true |- _ => apply Z.eqb_eq in H
  | H : (_ =? _) = false |- _ => apply Z.eqb_neq in H
  | H : (_ <? _) = true |- _ => apply Z.ltb_lt in H
  | H : (_ <? _) = false |- _ => apply Z.ltb_ge in H
  | H : (_ <=? _) = true |- _ => apply Z.leb_le in H
  | H : (_ <=? _) = false |- _ => apply Z.leb_gt in H
  end.

(** Integer goals about bytes, lengths and boolean tests. *)
Ltac blia :=
  zbool; rewrite ?length_app, ?length_cons, ?length_nil in *; simpl length in *; pose_u8; lia.

(** ** Big-endian integers *)

(** Value of a big-endian byte string. *)
Definition be_val (l : list byte) : Z := foldl (fun acc b => acc * 256 + u8 b) 0 l.

(** The [k] low-order bytes of [n], most significant first. *)
Fixpoint be_bytes (k : nat) (n : Z) : list byte :=
  match k with
  | O => []
  | S k' => be_bytes k' (n / 256) ++ [byte_of n]
  end.

Lemma be_val_snoc l b : be_val (l ++ [b]) = be_val l * 256 + u8 b.
Proof. unfold be_val. by rewrite foldl_app. Qed.

Lemma be_val_nil : be_val [] = 0.
Proof. reflexivity. Qed.

Lemma length_be_bytes k n : length (be_bytes k n) = k.
Proof.
  revert n; induction k as [|k IH]; intros n; simpl; [done|].
  rewrite length_app, IH. simpl. lia.
Qed.

Lemma pow256_S k : 256 ^ Z.of_nat (S k) = 256 ^ Z.of_nat k * 256.
Proof. rewrite Nat2Z.inj_succ, Z.pow_succ_r by lia. lia. Qed.

Lemma pow256_pos k : 0 < 256 ^ Z.of_nat k.
Proof. apply Z.pow_pos_nonneg; lia. Qed.

Lemma be_val_range l : 0 <= be_val l < 256 ^ Zlen l.
Proof.
  induction l as [|b l IH] using rev_ind; [done|].
  rewrite be_val_snoc, length_app, Nat.add_1_r, pow256_S.
  pose proof (u8_range b). lia.
Qed.

Lemma be_val_be_bytes k n : be_val (be_bytes k n) = n mod 256 ^ Z.of_nat k.
Proof.
  revert n; induction k as [|k IH]; intros n.
  - simpl. by rewrite Z.mod_1_r.
  - simpl be_bytes. rewrite be_val_snoc, IH, u8_byte_of, pow256_S.
    pose proof (pow256_pos k). rewrite (Z.mul_comm (256 ^ _) 256), (Z.rem_mul_r n 256) by lia.
    lia.
Qed.

Lemma be_val_be_bytes_small k n :
  0 <= n < 256 ^ Z.of_nat k -> be_val (be_bytes k n) = n.
Proof. intros. rewrite be_val_be_bytes. by apply Z.mod_small. Qed.

Lemma be_bytes_be_val l : be_bytes (length l) (be_val l) = l.
Proof.
  induction l as [|b l IH] using rev_ind; [done|].
  rewrite length_app, Nat.add_1_r, be_val_snoc. simpl be_bytes.
  pose proof (u8_range b).
  rewrite Z.div_add_l, (Z.div_small (u8 b)), Z.add_0_r, IH by lia.
  do 2 f_equal. apply u8_inj. rewrite u8_byte_of.
  rewrite Z.add_comm, Z.mod_add by lia. apply Z.mod_small. lia.
Qed.

Lemma be_val_inj l1 l2 : length l1 = length l2 -> be_val l1 = be_val l2 -> l1 = l2.
Proof.
  intros Hl Hv. rewrite <- (be_bytes_be_val l1), <- (be_bytes_be_val l2). congruence.
Qed.

Lemma be_val_app l1 l2 : be_val (l1 ++ l2) = be_val l1 * 256 ^ Zlen l2 + be_val l2.
Proof.
  induction l2 as [|b l2 IH] using rev_ind.
  - rewrite app_nil_r. simpl. unfold be_val at 3. simpl. lia.
  - rewrite app_assoc, !be_val_snoc, IH, length_app, Nat.add_1_r, pow256_S. lia.
Qed.

Lemma be_val_zeros k : be_val (replicate k x00) = 0.
Proof.
  induction k as [|k IH]; [done|].
  rewrite replicate_S_end, be_val_snoc, IH. reflexivity.
Qed.

Lemma be_val_cons b l : be_val (b :: l) = u8 b * 256 ^ Zlen l + be_val l.
Proof.
  change (b :: l) with ([b] ++ l). rewrite be_val_app. unfold be_val at 1. simpl. lia.
Qed.

Lemma be_bytes_drop j k n :
  drop j (be_bytes (j + k) n) = be_bytes k n.
Proof.
  revert n; induction k as [|k IH]; intros n.
  - rewrite Nat.add_0_r. rewrite drop_ge; [done|]. rewrite length_be_bytes. lia.
  - rewrite Nat.add_succ_r. simpl. rewrite drop_app_le, IH; [done|].
    rewrite length_be_bytes. lia.
Qed.

Lemma be_bytes_S_cons k n :
  be_bytes (S k) n = byte_of (Z.shiftr n (8 * Z.of_nat k)) :: be_bytes k n.
Proof.
  revert n; induction k as [|k IH]; intros n.
  - simpl. by rewrite Z.shiftr_0_r.
  - change (be_bytes (S (S k)) n) with (be_bytes (S k) (n / 256) ++ [byte_of n]).
    rewrite IH. simpl app. do 2 f_equal.
    change 256 with (2 ^ 8). rewrite <- Z.shiftr_div_pow2, Z.shiftr_shiftr by lia.
    f_equal. lia.
Qed.

(** A byte or word put below the shifted bits. *)
Lemma lor_add a b k : 0 <= k -> 0 <= b < 2 ^ k -> Z.lor (a * 2 ^ k) b = a * 2 ^ k + b.
Proof.
  intros Hk Hb. assert (Z.land (a * 2 ^ k) b = 0) as Hl.
  { apply Z.bits_inj'. intros n Hn. rewrite Z.land_spec, Z.bits_0. destruct (decide (n < k)).
    - by rewrite Z.mul_pow2_bits_low.
    - rewrite <- (Z.mod_small b (2 ^ k)) by done. rewrite Z.mod_pow2_bits_high by lia. apply andb_false_r. }
  by rewrite <- Z.lxor_lor, <- Z.add_nocarry_lxor.
Qed.

(** ** Outcomes, and computations with a state and an error *)

(** What a C++ function can do beside returning: read or write outside its
    buffer, end the process (an exception that leaves a [noexcept] function),
    never return, use an object it has not initialised, or use one that is gone. *)
Inductive fault :=
  | OutOfBounds
  | Terminate
  | Diverge
  | Indeterminate
  | Dangling.

(** [outcome::result<A, E>]: a value or an error; [crash] records undefined
    behaviour, so that its absence is a theorem and not an assumption. *)
Inductive outcome (E A : Type) :=
  | success (a : A)
  | failure (e : E)
  | crash (f : fault).
Arguments success {E A} a.
Arguments failure {E A} e.
Arguments crash {E A} f.

#[global] Instance outcome_ret E : MRet (outcome E) := fun A a => success a.
#[global] Instance outcome_bind E : MBind (outcome E) := fun A B k m =>
  match m with
  | success a => k a
  | failure e => failure e
  | crash f => crash f
  end.

(** [if (!result) return e;] on a result that is not a member call. *)
Definition or_error {E E' A} (r : outcome E A) (e : E') : outcome E' A :=
  match r with success a => success a | failure _ => failure e | crash f => crash f end.

Definition is_success {E A} (r : outcome E A) : bool :=
  match r with success _ => true | _ => false end.

Definition no_crash {E A} (r : outcome E A) : Prop :=
  match r with crash _ => False | _ => True end.

(** A member function on an object of class [S]: the object persists on the
    error path too. *)
Definition M (S E A : Type) : Type := S -> outcome E A * S.

#[global] Instance M_ret S E : MRet (M S E) := fun A a s => (success a, s).
#[global] Instance M_bind S E : MBind (M S E) := fun A B k m s =>
  match m s with
  | (success a, s') => k a s'
  | (failure e, s') => (failure e, s')
  | (crash f, s') => (crash f, s')
  end.

Definition fail {S E A} (e : E) : M S E A := fun s => (failure e, s).
Definition crash_with {S E A} (f : fault) : M S E A := fun s => (crash f, s).
Definition get_state {S E} : M S E S := fun s => (success s, s).
Definition put_state {S E} (s : S) : M S E unit := fun _ => (success tt, s).
Definition lift {S E A} (r : outcome E A) : M S E A := fun s => (r, s).

(** [if (!call()) return e;]: the call's own error is replaced. *)
Definition or_fail {S E E' A} (m : M S E A) (e : E') : M S E' A := fun s =>
  match m s with
  | (success a, s') => (success a, s')
  | (failure _, s') => (failure e, s')
  | (crash f, s') => (crash f, s')
  end.

(** The result of a fallible call as a value, [auto r = call();]. *)
Definition attempt {S E E' A} (m : M S E A) : M S E' (option A) := fun s =>
  match m s with
  | (success a, s') => (success (Some a), s')
  | (failure _, s') => (success None, s')
  | (crash f, s') => (crash f, s')
  end.

(** [for (const auto& x : l) { f(x) }] with early return on error. *)
Fixpoint for_each {S E A} (f : A -> M S E unit) (l : list A) : M S E unit :=
  match l with
  | [] => mret tt
  | x :: l' => f x ;; for_each f l'
  end.

Lemma bind_success {S E A B} (m : M S E A) (k : A -> M S E B) s a s' :
  m s = (success a, s') -> (m ≫= k) s = k a s'.
Proof. unfold mbind, M_bind. by intros ->. Qed.

Lemma bind_failure {S E A B} (m : M S E A) (k : A -> M S E B) s e s' :
  m s = (failure e, s') -> (m ≫= k) s = (failure e, s').
Proof. unfold mbind, M_bind. by intros ->. Qed.

Lemma bind_success_inv {S E A B} (m : M S E A) (k : A -> M S E B) s b s' :
  (m ≫= k) s = (success b, s') ->
  exists a s1, m s = (success a, s1) /\ k a s1 = (success b, s').
Proof.
  unfold mbind, M_bind. destruct (m s) as [[a|e|f] s1] eqn:Em; intros; simplify_eq.
  eauto.
Qed.

Lemma or_fail_success {S E E' A} (m : M S E A) (e : E') s a s' :
  or_fail m e s = (success a, s') <-> m s = (success a, s').
Proof. unfold or_fail. destruct (m s) as [[]]; split; intros; simplify_eq; done. Qed.

(** ** Lists with integer lengths *)

Lemma take_app_Zlen {A} (l1 l2 : list A) : take (Z.to_nat (Zlen l1)) (l1 ++ l2) = l1.
Proof. rewrite Nat2Z.id. by rewrite take_app_length. Qed.

Lemma drop_app_Zlen {A} (l1 l2 : list A) : drop (Z.to_nat (Zlen l1)) (l1 ++ l2) = l2.
Proof. rewrite Nat2Z.id. by rewrite drop_app_length. Qed.

Lemma suffix_length_le {A} (l1 l2 : list A) : l1 `suffix_of` l2 -> (length l1 <= length l2)%nat.
Proof. apply suffix_length. Qed.

Lemma drop_suffix {A} n (l : list A) : drop n l `suffix_of` l.
Proof. exists (take n l). by rewrite take_drop. Qed.

Create HintDb relay discriminated.
#[export] Hint Resolve u8_range u64_range be_val_range : relay.
#[export] Hint Resolve drop_suffix : relay.
#[export] Hint Rewrite @length_app @length_cons @length_nil length_be_bytes
  @length_take @length_drop : len.
