(* ===== verification/RlpSpec.v ===== *)
(** * The RLP format, as a specification

    Recursive Length Prefix as the Ethereum Yellow Paper defines it, written
    without reference to the implementation: the minimal big-endian form of a
    length, the header of a string or list payload, the encoding of a byte
    string, of an unsigned integer and of a tree of items.  The encoder and the
    decoder of the library are proved against these functions. *)

From S2P Require Import Prelude.

(** Number of bytes of the shortest big-endian form of [n]. *)
Definition nbytes (n : Z) : nat :=
  if n =? 0 then O else Z.to_nat (Z.log2 n / 8 + 1).

(** The shortest big-endian form; empty for zero. *)
Definition be_min (n : Z) : list byte := be_bytes (nbytes n) n.

(** Prefix of a payload of [len] bytes; [off] is 0x80 for strings and 0xC0 for
    lists. *)
Definition rlp_header (off len : Z) : list byte :=
  if len <=? 55 then [byte_of (off + len)]
  else byte_of (off + 55 + Zlen (be_min len)) :: be_min len.

Definition rlp_string (bs : list byte) : list byte :=
  match bs with
  | [b] => if u8 b <? 128 then [b] else rlp_header 128 1 ++ [b]
  | _ => rlp_header 128 (Zlen bs) ++ bs
  end.

Definition rlp_list (payload : list byte) : list byte :=
  rlp_header 192 (Zlen payload) ++ payload.

Definition rlp_uint (n : Z) : list byte := rlp_string (be_min n).

Definition rlp_bool (b : bool) : list byte := rlp_uint (if b then 1 else 0).

(** A value of the format. *)
Inductive item :=
  | Str (bs : list byte)
  | Lst (l : list item).

Fixpoint rlp_encode (i : item) : list byte :=
  match i with
  | Str bs => rlp_string bs
  | Lst l => rlp_list (concat (map rlp_encode l))
  end.

(** Induction over items with the hypothesis on every member of a list. *)
Section item_rect.
Context (P : item -> Prop).
Context (HStr : forall bs, P (Str bs)).
Context (HLst : forall l, Forall P l -> P (Lst l)).

Fixpoint item_ind' (i : item) : P i :=
  match i with
  | Str bs => HStr bs
  | Lst l => HLst l ((fix go l : Forall P l :=
      match l with
      | [] => Forall_nil_2 P
      | x :: l' => Forall_cons_2 P x l' (item_ind' x) (go l')
      end) l)
  end.
End item_rect.

(** ** Minimal big-endian integers *)

Lemma nbytes_spec n :
  0 < n -> 256 ^ (Z.of_nat (nbytes n) - 1) <= n < 256 ^ Z.of_nat (nbytes n).
Proof.
  intros Hn. unfold nbytes. rewrite (proj2 (Z.eqb_neq n 0)) by lia.
  pose proof (Z.log2_nonneg n). pose proof (Z.log2_spec n Hn) as [Hlo Hhi].
  pose proof (Z.div_pos (Z.log2 n) 8 ltac:(lia) ltac:(lia)).
  rewrite Z2Nat.id by lia. change 256 with (2 ^ 8).
  rewrite <- !Z.pow_mul_r by lia.
  pose proof (Z.mul_div_le (Z.log2 n) 8 ltac:(lia)).
  pose proof (Z.mul_succ_div_gt (Z.log2 n) 8 ltac:(lia)). split.
  - etransitivity; [|apply Hlo]. apply Z.pow_le_mono_r; lia.
  - eapply Z.lt_le_trans; [apply Hhi|]. apply Z.pow_le_mono_r; lia.
Qed.

Lemma nbytes_0 : nbytes 0 = O.
Proof. reflexivity. Qed.

Lemma nbytes_pos n : 0 < n -> (0 < nbytes n)%nat.
Proof.
  intros Hn. unfold nbytes. rewrite (proj2 (Z.eqb_neq n 0)) by lia.
  pose proof (Z.log2_nonneg n).
  pose proof (Z.div_pos (Z.log2 n) 8 ltac:(lia) ltac:(lia)). lia.
Qed.

Lemma nbytes_bound n k : 0 <= n < 256 ^ Z.of_nat k -> (nbytes n <= k)%nat.
Proof.
  intros Hn. destruct (decide (n = 0)) as [->|]; [rewrite nbytes_0; lia|].
  pose proof (nbytes_spec n ltac:(lia)) as [Hlo _].
  destruct (decide (nbytes n <= k)%nat); [done|].
  assert (256 ^ Z.of_nat k <= 256 ^ (Z.of_nat (nbytes n) - 1)); [|lia].
  apply Z.pow_le_mono_r; lia.
Qed.

Lemma nbytes_unique n k :
  0 < n -> 256 ^ (Z.of_nat k - 1) <= n < 256 ^ Z.of_nat k -> nbytes n = k.
Proof.
  intros Hn [Hlo Hhi]. apply Nat.le_antisymm.
  - apply nbytes_bound. lia.
  - pose proof (nbytes_spec n Hn) as [_ Hhi'].
    destruct (decide (k <= nbytes n)%nat); [done|].
    assert (256 ^ Z.of_nat (nbytes n) <= 256 ^ (Z.of_nat k - 1)); [|lia].
    apply Z.pow_le_mono_r; lia.
Qed.

Lemma length_be_min n : length (be_min n) = nbytes n.
Proof. apply length_be_bytes. Qed.

Lemma be_val_be_min n : 0 <= n -> be_val (be_min n) = n.
Proof.
  intros Hn. unfold be_min. apply be_val_be_bytes_small. split; [done|].
  destruct (decide (n = 0)) as [->|]; [simpl; lia|]. apply nbytes_spec. lia.
Qed.

(** A byte string without a leading zero is the minimal form of its value. *)
Lemma be_min_be_val b l : u8 b <> 0 -> be_min (be_val (b :: l)) = b :: l.
Proof.
  intros Hb. unfold be_min.
  assert (nbytes (be_val (b :: l)) = length (b :: l)) as ->; [|apply be_bytes_be_val].
  pose proof (be_val_range (b :: l)) as Hr. pose proof (be_val_range l).
  pose proof (u8_range b).
  assert (256 ^ Zlen l <= be_val (b :: l)).
  { rewrite be_val_cons. nia. }
  pose proof (pow256_pos (length l)).
  apply nbytes_unique; [lia|]. split; [|lia].
  replace (Zlen (b :: l) - 1) with (Zlen l) by (simpl length; lia). lia.
Qed.

(** The first byte of a minimal form is not zero. *)
Lemma be_min_head n b l : 0 <= n -> be_min n = b :: l -> u8 b <> 0.
Proof.
  intros Hn E Hb. assert (0 < n) as Hpos.
  { destruct (decide (n = 0)) as [->|]; [done|lia]. }
  pose proof (be_val_be_min n Hn) as Hv. rewrite E, be_val_cons, Hb in Hv.
  pose proof (be_val_range l). pose proof (nbytes_spec n Hpos) as [Hlo _].
  rewrite <- length_be_min, E in Hlo.
  replace (Zlen (b :: l) - 1) with (Zlen l) in Hlo by (simpl length; lia). lia.
Qed.

Lemma be_min_nil n : 0 <= n -> be_min n = [] -> n = 0.
Proof. intros Hn E. rewrite <- (be_val_be_min n Hn), E. done. Qed.

Lemma be_min_single n b : 0 <= n -> be_min n = [b] -> n = u8 b.
Proof.
  intros Hn E. rewrite <- (be_val_be_min n Hn), E. unfold be_val. simpl. lia.
Qed.

Lemma be_min_small n : 0 < n < 256 -> be_min n = [byte_of n].
Proof.
  intros Hn. unfold be_min.
  rewrite (nbytes_unique n 1) by (simpl; lia). done.
Qed.

(** ** Sizes of the pieces *)

Lemma nbytes_u64 n : 0 <= n < 2 ^ 64 -> (nbytes n <= 8)%nat.
Proof. intros. by apply nbytes_bound. Qed.

Lemma nbytes_u256 n : 0 <= n < 2 ^ 256 -> (nbytes n <= 32)%nat.
Proof. intros. by apply nbytes_bound. Qed.

Lemma length_rlp_header off len :
  0 <= len < 2 ^ 64 ->
  (1 <= length (rlp_header off len) <= 9)%nat.
Proof.
  intros. unfold rlp_header. case_match; simpl; [lia|].
  rewrite length_be_min. pose proof (nbytes_u64 len). lia.
Qed.

Lemma rlp_header_nonnil off len : rlp_header off len <> [].
Proof. unfold rlp_header. by case_match. Qed.

(** Every encoding is longer than zero bytes. *)
Lemma rlp_string_pos bs : (0 < length (rlp_string bs))%nat.
Proof.
  pose proof (rlp_header_nonnil 128 1). pose proof (rlp_header_nonnil 128 (Zlen bs)).
  unfold rlp_string. destruct bs as [|b [|]]; [| case_match; [simpl; lia|] |];
    rewrite length_app; destruct (rlp_header _ _); simpl; try done; lia.
Qed.

Lemma rlp_list_pos p : (0 < length (rlp_list p))%nat.
Proof.
  unfold rlp_list. rewrite length_app. pose proof (rlp_header_nonnil 192 (Zlen p)).
  destruct (rlp_header _ _); simpl; [done|lia].
Qed.

Lemma rlp_encode_pos i : (0 < length (rlp_encode i))%nat.
Proof. destruct i; [apply rlp_string_pos|apply rlp_list_pos]. Qed.

(** A payload is shorter than its encoding. *)
Lemma rlp_list_length_ge p : (length p < length (rlp_list p))%nat.
Proof.
  unfold rlp_list. rewrite length_app. pose proof (rlp_header_nonnil 192 (Zlen p)).
  destruct (rlp_header _ _); simpl; [done|lia].
Qed.

Lemma rlp_string_length_ge bs : (length bs <= length (rlp_string bs))%nat.
Proof.
  unfold rlp_string. destruct bs as [|b [|]]; try case_match;
    rewrite ?length_app; simpl; lia.
Qed.

(** A header adds at most nine bytes. *)
Lemma rlp_string_length_le bs : Zlen bs < 2 ^ 64 -> (length (rlp_string bs) <= 9 + length bs)%nat.
Proof.
  intros Hl. unfold rlp_string. pose proof (length_rlp_header 128 (Zlen bs) ltac:(lia)).
  destruct bs as [|b [|c bs]]; [|case_match; [simpl; lia|]|]; rewrite length_app; simpl length in *; lia.
Qed.

Lemma rlp_list_length_le p : Zlen p < 2 ^ 64 -> (length (rlp_list p) <= 9 + length p)%nat.
Proof.
  intros Hl. unfold rlp_list. rewrite length_app. pose proof (length_rlp_header 192 (Zlen p) ltac:(lia)). lia.
Qed.
