(* ===== verification/RlpCommon.v ===== *)
(** * RLP constants, errors and byte order

    [include/rlp/constants.hpp], [include/rlp/errors.hpp], [src/rlp/common.cpp]
    and [src/rlp/endian.cpp], with the three functions of [intx.hpp] the byte
    order conversions call. *)

From S2P Require Import Prelude RlpSpec.

(** ** constants.hpp *)

Definition kEmptyStringCode : Z := 0x80.
Definition kEmptyListCode : Z := 0xC0.
Definition kMaxShortStringLen : Z := 55.
Definition kMaxShortListLen : Z := 55.
Definition kShortStringOffset : Z := 0x80.
Definition kLongStringOffset : Z := 0xB7.
Definition kShortListOffset : Z := 0xC0.
Definition kLongListOffset : Z := 0xF7.
Definition kRlpSingleByteThreshold : Z := 0x80.
Definition kLongPrefixByteSize : Z := 1.
Definition kSingleByteStringSize : Z := 2.

Record Header := mkHeader {
  is_list : bool;
  payload_size_bytes : Z;
  header_size_bytes : Z
}.

Inductive Leftover := kProhibit | kAllow.

(** ** errors.hpp *)

Inductive EncodingError :=
  | kPayloadTooLarge
  | kEmptyInput
  | kUnclosedList
  | kUnmatchedEndList.

Inductive DecodingError :=
  | kOverflow
  | kLeadingZero
  | kInputTooShort
  | kInputTooLong
  | kNonCanonicalSize
  | kUnexpectedList
  | kUnexpectedString
  | kUnexpectedLength
  | kUnexpectedListElements
  | kInvalidVrsValue
  | kListLengthMismatch
  | kNotInList
  | kMalformedHeader
  | kDecAlreadyFinalized
  | kDecNotFinalized
  | kDecInvalidChunkSize
  | kDecHeaderSizeExceeded.

Inductive StreamingError :=
  | kAlreadyFinalized
  | kNotFinalized
  | kInvalidChunkSize
  | kHeaderSizeExceeded.

#[global] Instance EncodingError_eq_dec : EqDecision EncodingError.
Proof. solve_decision. Defined.
#[global] Instance DecodingError_eq_dec : EqDecision DecodingError.
Proof. solve_decision. Defined.
#[global] Instance StreamingError_eq_dec : EqDecision StreamingError.
Proof. solve_decision. Defined.

(** ** common.cpp *)

Local Open Scope string_scope.

Definition encoding_error_to_string (err : EncodingError) : string :=
  match err with
  | kPayloadTooLarge => "RLP Encoding: Payload exceeds 64-bit limit"
  | kEmptyInput => "RLP Encoding: Empty input not allowed"
  | kUnclosedList => "RLP Encoding: Unclosed list"
  | kUnmatchedEndList => "RLP Encoding: EndList without matching BeginList"
  end.

Definition decoding_error_to_string (err : DecodingError) : string :=
  match err with
  | kOverflow => "RLP Overflow"
  | kLeadingZero => "RLP Leading Zero"
  | kInputTooShort => "RLP Input Too Short"
  | kInputTooLong => "RLP Input Too Long"
  | kNonCanonicalSize => "RLP Non-Canonical Size"
  | kUnexpectedList => "RLP Unexpected List"
  | kUnexpectedString => "RLP Unexpected String"
  | kUnexpectedListElements => "RLP Unexpected List Elements"
  | kInvalidVrsValue => "RLP Invalid VRS Value"
  | kListLengthMismatch => "RLP List Length Mismatch"
  | kNotInList => "RLP Operation requires being in a list context"
  | kMalformedHeader => "RLP Malformed Header"
  | kDecAlreadyFinalized => "RLP Already Finalized"
  | kDecNotFinalized => "RLP Not Finalized"
  | kDecInvalidChunkSize => "RLP Invalid Chunk Size"
  | kDecHeaderSizeExceeded => "RLP Header Size Exceeded"
  | _ => "RLP Unknown Error"
  end.

Definition streaming_error_to_string (err : StreamingError) : string :=
  match err with
  | kAlreadyFinalized => "RLP Streaming: Already finalized"
  | kNotFinalized => "RLP Streaming: Not finalized"
  | kInvalidChunkSize => "RLP Streaming: Invalid chunk size"
  | kHeaderSizeExceeded => "RLP Streaming: Header size exceeded"
  end.

(** One lower-case hexadecimal digit, as [std::hex] prints it. *)
Definition hex_digit (n : Z) : Ascii.ascii :=
  Ascii.ascii_of_N (Z.to_N (if n <? 10 then 48 + n else 87 + n)%Z).

(** [std::setw(2)] with fill ['0'] on every byte. *)
Fixpoint hexToString (bv : list byte) : string :=
  match bv with
  | [] => ""
  | b :: bv' =>
      String (hex_digit (u8 b / 16)%Z) (String (hex_digit (u8 b mod 16)%Z) (hexToString bv'))
  end.

Local Close Scope string_scope.

(** ** intx.hpp: what the conversions use *)

(** [clz(uint64_t)]: leading zero bits, 64 for zero. *)
Definition clz (x : Z) : Z := if x =? 0 then 64 else 63 - Z.log2 x.

(** Word [i] of a [uint256]. *)
Definition uint_word (x i : Z) : Z := u64 (Z.shiftr x (64 * i)).

(** The loop from the most significant word down. *)
Fixpoint count_words_from (i : nat) (x : Z) : Z :=
  match i with
  | O => 0
  | S i' => if uint_word x (Z.of_nat i') =? 0 then count_words_from i' x else Z.of_nat i
  end.

Definition count_significant_words (x : Z) : Z := count_words_from 4 x.

Definition count_significant_bytes_u64 (x : Z) : Z := (64 - clz x + 7) / 8.

Definition count_significant_bytes (x : Z) : Z :=
  let w := count_significant_words x in
  if w =? 0 then 0 else count_significant_bytes_u64 (uint_word x (w - 1)) + (w - 1) * 8.

(** [be::store] into a 32-byte buffer and [be::load] from one. *)
Definition be_store (x : Z) : list byte := be_bytes 32 x.
Definition be_load (buf : list byte) : Z := be_val buf.

(** ** endian.cpp *)

(** Both overloads: an integral argument is widened to [uint256] first. *)
Definition to_big_compact (n : Z) : list byte :=
  if n =? 0 then [] else
  let num_bytes := count_significant_bytes n in
  let temp_buffer := be_store n in
  take (Z.to_nat num_bytes) (drop (Z.to_nat (32 - num_bytes)) temp_buffer).

(** The zero-padded 32-byte buffer both overloads of [from_big_compact] fill. *)
Definition padded (bytes : list byte) : list byte :=
  replicate (32 - length bytes) x00 ++ bytes.

(** The template for [uint8_t] ... [uint64_t]; [max] is
    [std::numeric_limits<T>::max()]. *)
Definition from_big_compact (max : Z) (bytes : list byte) : outcome DecodingError Z :=
  match bytes with
  | [] => success 0
  | b0 :: _ =>
      if (u8 b0 =? 0) && (1 <? Zlen bytes) then failure kLeadingZero
      else if (Zlen bytes =? 1) && (u8 b0 =? 0) then success 0
      else if 32 <? Zlen bytes then failure kOverflow
      else
        let val := be_load (padded bytes) in
        if max <? val then failure kOverflow else success val
  end.

(** The [intx::uint256] overload. *)
Definition from_big_compact_u256 (bytes : list byte) : outcome DecodingError Z :=
  match bytes with
  | [] => success 0
  | b0 :: _ =>
      if (u8 b0 =? 0) && (1 <? Zlen bytes) then failure kLeadingZero
      else if (Zlen bytes =? 1) && (u8 b0 =? 0) then success 0
      else if 32 <? Zlen bytes then failure kOverflow
      else success (be_load (padded bytes))
  end.

(** The unsigned integral types the templates are instantiated with: 1, 2, 4
    and 8 bytes. *)
Definition is_sizeof (size : Z) : Prop := size = 1 \/ size = 2 \/ size = 4 \/ size = 8.

(** ** Lemmas *)

Lemma be_val_padded bytes : be_val (padded bytes) = be_val bytes.
Proof. unfold padded. rewrite be_val_app, be_val_zeros. lia. Qed.

Lemma count_u64_nbytes x :
  0 < x < 2 ^ 64 -> count_significant_bytes_u64 x = Z.of_nat (nbytes x).
Proof.
  intros Hx. unfold count_significant_bytes_u64, clz, nbytes.
  rewrite (proj2 (Z.eqb_neq x 0)) by lia.
  pose proof (Z.log2_nonneg x).
  pose proof (Z.div_pos (Z.log2 x) 8 ltac:(lia) ltac:(lia)).
  rewrite Z2Nat.id by lia.
  replace (64 - (63 - Z.log2 x) + 7) with (Z.log2 x + 1 * 8) by lia.
  rewrite Z.div_add by lia. lia.
Qed.

(** The words above [i] being zero, [count_words_from] finds the top one. *)
Lemma count_words_from_spec i x :
  0 <= x < 2 ^ (64 * Z.of_nat i) ->
  let w := count_words_from i x in
  0 <= w /\ x < 2 ^ (64 * w) /\ (0 < w -> 2 ^ (64 * (w - 1)) <= x).
Proof.
  revert x; induction i as [|i IH]; intros x Hx; cbn [count_words_from].
  - simpl in *. lia.
  - assert (uint_word x (Z.of_nat i) = x / 2 ^ (64 * Z.of_nat i)) as Hw.
    { unfold uint_word. rewrite Z.shiftr_div_pow2 by lia. apply u64_small.
      split; [apply Z.div_pos; lia|]. apply Z.div_lt_upper_bound; [lia|].
      rewrite <- Z.pow_add_r by lia. eapply Z.lt_le_trans; [apply Hx|].
      apply Z.pow_le_mono_r; lia. }
    rewrite Hw. destruct (Z.eqb_spec (x / 2 ^ (64 * Z.of_nat i)) 0) as [E|E].
    + apply IH. apply Z.div_small_iff in E; [|lia].
      assert (0 < 2 ^ (64 * Z.of_nat i)) by (apply Z.pow_pos_nonneg; lia). lia.
    + split; [lia|]. split; [lia|]. intros _.
      assert (0 < 2 ^ (64 * Z.of_nat i)) by (apply Z.pow_pos_nonneg; lia).
      replace (64 * (Z.of_nat (S i) - 1)) with (64 * Z.of_nat i) by lia.
      destruct (decide (2 ^ (64 * Z.of_nat i) <= x)); [done|].
      rewrite Z.div_small in E by lia. done.
Qed.

Lemma nbytes_shift x k :
  0 <= k -> 0 < x / 256 ^ k -> Z.of_nat (nbytes x) = Z.of_nat (nbytes (x / 256 ^ k)) + k.
Proof.
  intros Hk Hq. assert (0 < 256 ^ k) as Hp by (apply Z.pow_pos_nonneg; lia).
  pose proof (nbytes_spec _ Hq) as [Hlo Hhi]. pose proof (nbytes_pos _ Hq).
  assert (nbytes x = (nbytes (x / 256 ^ k) + Z.to_nat k)%nat) as ->; [|lia].
  set (q := x / 256 ^ k) in *. set (n := nbytes q) in *.
  assert (q * 256 ^ k <= x < (q + 1) * 256 ^ k) as [Hx1 Hx2].
  { unfold q. pose proof (Z.div_mod x (256 ^ k)).
    pose proof (Z.mod_pos_bound x (256 ^ k)). lia. }
  apply nbytes_unique; [nia|].
  replace (Z.of_nat (n + Z.to_nat k) - 1) with ((Z.of_nat n - 1) + k) by lia.
  replace (Z.of_nat (n + Z.to_nat k)) with (Z.of_nat n + k) by lia.
  rewrite !Z.pow_add_r by lia. nia.
Qed.

(** The word and leading-zero count of [intx] computes the length of the
    minimal big-endian form. *)
Lemma count_significant_bytes_nbytes n :
  0 <= n < 2 ^ 256 -> count_significant_bytes n = Z.of_nat (nbytes n).
Proof.
  intros Hn. unfold count_significant_bytes, count_significant_words.
  destruct (count_words_from_spec 4 n) as (Hw0 & Hhi & Hlo); [done|].
  set (w := count_words_from 4 n) in *.
  destruct (Z.eqb_spec w 0) as [E|E].
  - rewrite E in Hhi. simpl in Hhi. replace n with 0 by lia. done.
  - specialize (Hlo ltac:(lia)).
    assert (n / 256 ^ (8 * (w - 1)) = uint_word n (w - 1)) as Hq.
    { unfold uint_word. rewrite Z.shiftr_div_pow2 by lia.
      replace (256 ^ (8 * (w - 1))) with (2 ^ (64 * (w - 1))).
      { symmetry. apply u64_small. split; [apply Z.div_pos; lia|].
        apply Z.div_lt_upper_bound; [lia|]. rewrite <- Z.pow_add_r by lia.
        eapply Z.lt_le_trans; [apply Hhi|]. apply Z.pow_le_mono_r; lia. }
      change 256 with (2 ^ 8). rewrite <- Z.pow_mul_r by lia. f_equal. lia. }
    assert (0 < uint_word n (w - 1)) as Hpos.
    { rewrite <- Hq. apply Z.div_str_pos. split.
      { apply Z.pow_pos_nonneg; lia. }
      change 256 with (2 ^ 8). rewrite <- Z.pow_mul_r by lia.
      etransitivity; [|apply Hlo]. apply Z.pow_le_mono_r; lia. }
    rewrite (nbytes_shift n (8 * (w - 1))), Hq by (rewrite ?Hq; lia).
    rewrite count_u64_nbytes; [lia|]. split; [done|]. apply u64_range.
Qed.

Lemma to_big_compact_be_min n : 0 <= n < 2 ^ 256 -> to_big_compact n = be_min n.
Proof.
  intros Hn. unfold to_big_compact, be_store.
  destruct (Z.eqb_spec n 0) as [->|]; [done|].
  rewrite count_significant_bytes_nbytes by done.
  pose proof (nbytes_u256 n Hn). unfold be_min.
  replace (Z.to_nat (32 - Z.of_nat (nbytes n))) with (32 - nbytes n)%nat by lia.
  replace 32%nat with ((32 - nbytes n) + nbytes n)%nat at 2 by lia.
  rewrite be_bytes_drop, Nat2Z.id. apply take_ge. by rewrite length_be_bytes.
Qed.

(** [from_big_compact] accepts exactly the minimal forms, and the single byte
    [0x00]. *)
Lemma from_big_compact_spec max bytes n :
  0 <= max < 2 ^ 256 ->
  from_big_compact max bytes = success n <->
  0 <= n <= max /\ (bytes = be_min n \/ (n = 0 /\ bytes = [x00])).
Proof.
  intros Hmax. unfold from_big_compact, be_load. rewrite be_val_padded.
  destruct bytes as [|b l].
  - split.
    + intros [= <-]. split; [lia|]. by left.
    + intros [Hn [E| [_ ?]]]; [|done]. symmetry in E. apply be_min_nil in E; [|lia].
      by subst.
  - destruct (Z.eqb_spec (u8 b) 0) as [Hb|Hb]; simpl.
    + destruct l as [|b' l]; simpl.
      * assert (b = x00) as -> by (apply u8_inj; rewrite Hb; done). split.
        { intros [= <-]. split; [lia|]. by right. }
        intros [Hn [E|[-> _]]]; [|done]. symmetry in E.
        apply (be_min_head n) in E; [done|lia].
      * split; [case_match; [done|]; blia|].
        intros [Hn [E|[_ E]]]; [|done]. symmetry in E.
        apply (be_min_head n) in E; [done|lia].
    + rewrite andb_false_r. split.
      * case_match; [done|]. case_match; [done|]. intros [= <-].
        pose proof (be_val_range (b :: l)). split; [blia|]. left. by rewrite be_min_be_val.
      * intros [Hn [E|[_ E]]]; [|by simplify_eq].
        assert (Zlen (b :: l) = Z.of_nat (nbytes n)) by (by rewrite E, length_be_min).
        assert (be_val (b :: l) = n) as -> by (rewrite E; apply be_val_be_min; lia).
        pose proof (nbytes_u256 n ltac:(lia)).
        case_match; [simpl length in *; blia|]. case_match; [blia|done].
Qed.

Lemma from_big_compact_u256_eq bytes :
  from_big_compact_u256 bytes = from_big_compact (2 ^ 256 - 1) bytes.
Proof.
  unfold from_big_compact_u256, from_big_compact, be_load. destruct bytes as [|b l]; [done|].
  case_match; [done|]. case_match; [done|]. case_match; [done|].
  rewrite be_val_padded.
  pose proof (be_val_range (b :: l)) as [_ Hr].
  assert (256 ^ Zlen (b :: l) <= 256 ^ 32) by (apply Z.pow_le_mono_r; blia).
  rewrite (proj2 (Z.ltb_ge _ _)); [done|]. change (256 ^ 32) with (2 ^ 256) in *. lia.
Qed.

Lemma from_big_compact_no_crash max bytes : no_crash (from_big_compact max bytes).
Proof. unfold from_big_compact. by repeat case_match. Qed.
