(* ===== verification/RlpEncoder.v ===== *)
(** * RlpEncoder

    [src/rlp/rlp_encoder.cpp] and [include/rlp/rlp_encoder.hpp]: the growing
    buffer with its stack of open lists, every [add] overload, [BeginList] /
    [EndList] (which computes the payload length and inserts the header in front
    of it) and the accessors.  The theorems relate the buffer to the
    specification of [RlpSpec] and give the invariant of the open-list stack. *)

From Stdlib Require Import Sorted.
From S2P Require Import Prelude RlpSpec RlpCommon.

(** The object.  [list_start_positions_] is a vector used as a stack; the back
    of the vector is the head of the list. *)
Record RlpEncoder := mkEnc {
  buffer_ : list byte;
  list_start_positions_ : list Z
}.

Definition RlpEncoder_init : RlpEncoder := mkEnc [] [].

Notation Enc := (M RlpEncoder EncodingError).

(** [buffer_.append] and the [resize] + [memcpy] pair, which have the same effect. *)
Definition append (bs : list byte) : Enc unit := fun e =>
  (success tt, mkEnc (buffer_ e ++ bs) (list_start_positions_ e)).

Definition push_back (z : Z) : Enc unit := append [byte_of z].

Definition encode_header_bytes (is_lst : bool) (payload_size : Z) : outcome EncodingError (list byte) :=
  let short_offset := if is_lst then kShortListOffset else kShortStringOffset in
  let long_offset := if is_lst then kLongListOffset else kLongStringOffset in
  if payload_size <=? kMaxShortStringLen then
    success [byte_of (short_offset + payload_size)]
  else
    let len_be := to_big_compact (u64 payload_size) in
    if 8 <? Zlen len_be then failure kPayloadTooLarge
    else success (byte_of (long_offset + Zlen len_be) :: len_be).

(** [add(ByteView)]. *)
Definition add_bytes (bytes : list byte) : Enc unit :=
  match bytes with
  | [b] =>
      if u8 b <? kRlpSingleByteThreshold then append [b]
      else header ← lift (encode_header_bytes false 1); append header ;; append [b]
  | _ => header ← lift (encode_header_bytes false (Zlen bytes)); append header ;; append bytes
  end.

(** [AddRaw(ByteView)]. *)
Definition AddRaw (bytes : list byte) : Enc unit :=
  if decide (bytes = []) then fail kEmptyInput else append bytes.

(** [add(const intx::uint256&)]. *)
Definition add_u256 (n : Z) : Enc unit :=
  if n =? 0 then push_back kEmptyStringCode
  else if n <? kRlpSingleByteThreshold then push_back n
  else
    let be := to_big_compact n in
    header ← lift (encode_header_bytes false (Zlen be)); append header ;; append be.

(** A [bool] argument converts to [uint256]: the integral template excludes it. *)
Definition add_bool (b : bool) : Enc unit := add_u256 (if b then 1 else 0).

(** The right shifts the branch for [sizeof(T)] tests, most significant first. *)
Definition integral_shifts (size : Z) : list Z :=
  if size =? 1 then []
  else if size =? 2 then [8]
  else if size =? 4 then [24; 16; 8]
  else [56; 48; 40; 32; 24; 16; 8].

(** [buf[len++] = val >> s] for every shift with a non-zero result, then the
    low byte. *)
Definition integral_buf (shifts : list Z) (val : Z) : list byte :=
  flat_map (fun s => if Z.shiftr val s =? 0 then [] else [byte_of (Z.shiftr val s)]) shifts
  ++ [byte_of (Z.land val 0xFF)].

(** [add_integral<T>] with [sizeof(T) = size]. *)
Definition add_integral (size n : Z) : Enc unit :=
  if n =? 0 then push_back kEmptyStringCode
  else if n <? kRlpSingleByteThreshold then push_back n
  else if size =? 1 then
    push_back (kShortStringOffset + kLongPrefixByteSize) ;; push_back n
  else
    let buf := integral_buf (integral_shifts size) n in
    push_back (kShortStringOffset + Zlen buf) ;; append buf.

Definition BeginList : Enc unit := fun e =>
  (success tt, mkEnc (buffer_ e) (Zlen (buffer_ e) :: list_start_positions_ e)).

Definition EndList : Enc unit := fun e =>
  match list_start_positions_ e with
  | [] => (failure kUnmatchedEndList, e)
  | start_pos :: rest =>
      let e' := mkEnc (buffer_ e) rest in
      let payload_len := u64 (Zlen (buffer_ e) - start_pos) in
      match encode_header_bytes true payload_len with
      | failure err => (failure err, e')
      | crash f => (crash f, e')
      | success header =>
          if Zlen (buffer_ e) <? start_pos then (crash OutOfBounds, e')
          else
            let n := Z.to_nat start_pos in
            (success tt, mkEnc (take n (buffer_ e) ++ header ++ drop n (buffer_ e)) rest)
      end
  end.

(** [add(const std::vector<T>&)] and the span overload. *)
Definition add_vector {A} (add : A -> Enc unit) (vec : list A) : Enc unit :=
  BeginList ;; for_each add vec ;; EndList.

Definition GetBytes : Enc (list byte) := fun e =>
  match list_start_positions_ e with
  | [] => (success (buffer_ e), e)
  | _ => (failure kUnclosedList, e)
  end.

(** The moved-from [buffer_] is left empty. *)
Definition MoveBytes : Enc (list byte) := fun e =>
  match list_start_positions_ e with
  | [] => (success (buffer_ e), mkEnc [] [])
  | _ => (failure kUnclosedList, e)
  end.

Definition clear : Enc unit := fun _ => (success tt, mkEnc [] []).

(** An encoder driven by a whole item: what nested [add] calls on vectors of
    vectors perform. *)
Fixpoint encode_item (i : item) : Enc unit :=
  match i with
  | Str bs => add_bytes bs
  | Lst l => add_vector encode_item l
  end.

(** ** What a call appends *)

(** The call succeeds on every encoder, appends exactly [bs] and leaves the open
    lists alone; the error type is the caller's. *)
Definition appends {Er} (m : M RlpEncoder Er unit) (bs : list byte) : Prop :=
  forall e, m e = (success tt, mkEnc (buffer_ e ++ bs) (list_start_positions_ e)).

Create HintDb enc discriminated.

Section appends_rules.
Context {Er : Type}.
Implicit Types m : M RlpEncoder Er unit.

Lemma appends_ret : appends (Er := Er) (mret tt) [].
Proof. intros [b s]. by rewrite app_nil_r. Qed.

Lemma appends_seq m1 m2 b1 b2 :
  appends m1 b1 -> appends m2 b2 -> appends (m1 ;; m2) (b1 ++ b2).
Proof.
  intros H1 H2 e. erewrite bind_success by apply H1. rewrite H2. simpl.
  by rewrite app_assoc.
Qed.

Lemma appends_for_each {A} (f : A -> M RlpEncoder Er unit) (g : A -> list byte) l :
  (forall x, x ∈ l -> appends (f x) (g x)) -> appends (for_each f l) (concat (map g l)).
Proof.
  induction l as [|x l IH]; intros Hf; simpl; [apply appends_ret|].
  apply appends_seq; [apply Hf; left|]. apply IH. intros; apply Hf. by right.
Qed.

Lemma appends_or_fail {E'} m (e' : E') bs : appends m bs -> appends (or_fail m e') bs.
Proof. intros H e. unfold or_fail. by rewrite H. Qed.
End appends_rules.

(** ** Headers *)

Lemma encode_header_bytes_spec is_lst n :
  0 <= n < 2 ^ 64 ->
  encode_header_bytes is_lst n = success (rlp_header (if is_lst then 192 else 128) n).
Proof.
  intros Hn. unfold encode_header_bytes, rlp_header, kMaxShortStringLen.
  destruct (Z.leb_spec n 55); [by destruct is_lst|].
  rewrite u64_small, to_big_compact_be_min by lia.
  pose proof (nbytes_u64 n ltac:(lia)). rewrite length_be_min.
  rewrite (proj2 (Z.ltb_ge 8 _)) by lia. by destruct is_lst.
Qed.

Lemma appends_add_bytes bs : Zlen bs < 2 ^ 64 -> appends (add_bytes bs) (rlp_string bs).
Proof.
  intros Hl e. unfold add_bytes, rlp_string, kRlpSingleByteThreshold.
  destruct bs as [|b [|b' bs]]; [|case_match; [done|]|];
    (unfold mbind, M_bind, lift; rewrite encode_header_bytes_spec by (simpl length in *; lia);
     unfold append; simpl; by rewrite <- app_assoc).
Qed.

Lemma appends_AddRaw bs : bs <> [] -> appends (AddRaw bs) bs.
Proof. intros Hb e. unfold AddRaw. by rewrite decide_False. Qed.

(** ** Integers *)

Lemma rlp_uint_0 : rlp_uint 0 = [x80].
Proof. reflexivity. Qed.

Lemma rlp_uint_small n : 0 < n < 128 -> rlp_uint n = [byte_of n].
Proof.
  intros Hn. unfold rlp_uint. rewrite be_min_small by lia. simpl.
  rewrite u8_byte_of_small by lia. by rewrite (proj2 (Z.ltb_lt n 128)) by lia.
Qed.

(** At 128 and above the minimal form always has a header. *)
Lemma rlp_uint_big n :
  128 <= n -> rlp_uint n = rlp_header 128 (Zlen (be_min n)) ++ be_min n.
Proof.
  intros Hn. unfold rlp_uint, rlp_string. destruct (be_min n) as [|b [|]] eqn:E; [done| |done].
  apply be_min_single in E; [|lia]. by rewrite (proj2 (Z.ltb_ge _ 128)) by lia.
Qed.

Lemma appends_add_u256 n : 0 <= n < 2 ^ 256 -> appends (add_u256 n) (rlp_uint n).
Proof.
  intros Hn e. unfold add_u256, kRlpSingleByteThreshold.
  destruct (Z.eqb_spec n 0) as [->|]; [done|].
  destruct (Z.ltb_spec n 128).
  - by rewrite rlp_uint_small by lia.
  - rewrite to_big_compact_be_min, rlp_uint_big by lia.
    pose proof (nbytes_u256 n Hn).
    unfold mbind, M_bind, lift. rewrite encode_header_bytes_spec by (rewrite length_be_min; lia).
    unfold append. simpl. by rewrite app_assoc.
Qed.

(** Byte shifts from [8 * k] down to 8. *)
Fixpoint byte_shifts (k : nat) : list Z :=
  match k with
  | O => []
  | S k' => 8 * Z.of_nat k :: byte_shifts k'
  end.

Lemma integral_buf_low n : integral_buf [] n = be_bytes 1 n.
Proof.
  unfold integral_buf. simpl. f_equal. apply u8_inj. rewrite !u8_byte_of.
  change 255 with (Z.ones 8). rewrite Z.land_ones by lia.
  change (2 ^ 8) with 256. by rewrite Z.mod_mod by lia.
Qed.

(** All tested shifts are non-zero: the full-width bytes are produced. *)
Lemma integral_buf_full k n :
  256 ^ Z.of_nat k <= n -> integral_buf (byte_shifts k) n = be_bytes (S k) n.
Proof.
  induction k as [|k IH]; intros Hn; [apply integral_buf_low|].
  assert (Z.shiftr n (8 * Z.of_nat (S k)) <> 0) as Hne.
  { rewrite Z.shiftr_div_pow2 by lia. rewrite Z.pow_mul_r by lia. change (2 ^ 8) with 256.
    pose proof (pow256_pos (S k)).
    assert (0 < n / 256 ^ Z.of_nat (S k)); [apply Z.div_str_pos|]; lia. }
  rewrite be_bytes_S_cons. unfold integral_buf in *. cbn [byte_shifts flat_map].
  rewrite (proj2 (Z.eqb_neq _ 0)) by done. simpl app. f_equal. apply IH.
  rewrite pow256_S in Hn. pose proof (pow256_pos k). lia.
Qed.

(** The shift tests drop exactly the leading zero bytes. *)
Lemma integral_buf_be_min k n :
  0 < n < 256 ^ Z.of_nat (S k) -> integral_buf (byte_shifts k) n = be_min n.
Proof.
  induction k as [|k IH]; intros Hn.
  - rewrite integral_buf_low. symmetry. unfold be_min.
    by rewrite (nbytes_unique n 1) by (simpl in *; lia).
  - destruct (decide (256 ^ Z.of_nat (S k) <= n)).
    + rewrite integral_buf_full by done. unfold be_min. f_equal. symmetry.
      apply nbytes_unique; [lia|]. split; [|lia].
      by replace (Z.of_nat (S (S k)) - 1) with (Z.of_nat (S k)) by lia.
    + unfold integral_buf in *. cbn [byte_shifts flat_map].
      rewrite Z.shiftr_div_pow2, Z.pow_mul_r by lia. change (2 ^ 8) with 256.
      rewrite Z.div_small by lia. simpl app. apply IH. lia.
Qed.

Lemma appends_add_integral size n :
  is_sizeof size -> 0 <= n < 2 ^ (8 * size) -> appends (add_integral size n) (rlp_uint n).
Proof.
  intros Hs Hn e. unfold add_integral, kRlpSingleByteThreshold.
  destruct (Z.eqb_spec n 0) as [->|]; [done|].
  destruct (Z.ltb_spec n 128); [by rewrite rlp_uint_small by lia|].
  rewrite rlp_uint_big by lia.
  assert (integral_buf (integral_shifts size) n = be_min n) as Hbuf.
  { destruct Hs as [-> | [-> | [-> | ->]]];
      [apply (integral_buf_be_min 0) | apply (integral_buf_be_min 1)
      | apply (integral_buf_be_min 3) | apply (integral_buf_be_min 7)]; simpl; lia. }
  assert (nbytes n <= 8)%nat as Hlen.
  { apply nbytes_bound. split; [lia|]. eapply Z.lt_le_trans; [apply Hn|].
    change (256 ^ Z.of_nat 8) with (2 ^ 64). apply Z.pow_le_mono_r; unfold is_sizeof in Hs; lia. }
  destruct (Z.eqb_spec size 1) as [->|].
  - rewrite be_min_small by (simpl in Hn; lia). unfold push_back. unfold mbind, M_bind, append. simpl.
    by rewrite <- app_assoc.
  - rewrite Hbuf. unfold rlp_header. rewrite length_be_min.
    rewrite (proj2 (Z.leb_le _ 55)) by lia.
    unfold push_back, mbind, M_bind, append, kShortStringOffset. simpl. by rewrite <- app_assoc.
Qed.

Lemma appends_add_bool b : appends (add_bool b) (rlp_bool b).
Proof. apply appends_add_u256. destruct b; lia. Qed.

(** ** Lists *)

Lemma EndList_spec buf stk bs :
  Zlen bs < 2 ^ 64 ->
  EndList (mkEnc (buf ++ bs) (Zlen buf :: stk)) = (success tt, mkEnc (buf ++ rlp_list bs) stk).
Proof.
  intros Hl. unfold EndList. cbn [buffer_ list_start_positions_].
  replace (Zlen (buf ++ bs) - Zlen buf) with (Zlen bs) by (rewrite length_app; lia).
  rewrite u64_small, encode_header_bytes_spec by lia.
  rewrite (proj2 (Z.ltb_ge _ _)) by (rewrite length_app; lia).
  by rewrite take_app_Zlen, drop_app_Zlen.
Qed.

(** The body between [BeginList] and [EndList] becomes the payload of a list,
    whatever errors the caller would return for the two calls. *)
Lemma appends_list {Er} (m : M RlpEncoder Er unit) bs e1 e2 :
  Zlen bs < 2 ^ 64 -> appends m bs ->
  appends (or_fail BeginList e1 ;; m ;; or_fail EndList e2) (rlp_list bs).
Proof.
  intros Hl Hm [buf stk]. unfold mbind, M_bind, or_fail, BeginList.
  cbn [buffer_ list_start_positions_]. rewrite Hm. cbn [buffer_ list_start_positions_].
  by rewrite EndList_spec.
Qed.

(** [BOOST_OUTCOME_TRY] passes the error on unchanged. *)
Lemma appends_list_try (m : Enc unit) bs :
  Zlen bs < 2 ^ 64 -> appends m bs -> appends (BeginList ;; m ;; EndList) (rlp_list bs).
Proof.
  intros Hl Hm e.
  pose proof (appends_list m bs kUnclosedList kUnclosedList Hl Hm e) as H. revert H.
  unfold mbind, M_bind, or_fail. destruct (BeginList e) as [[[]| |] e1]; try done.
  destruct (m e1) as [[[]| |] e2]; try done. destruct (EndList e2) as [[[]| |] e3]; done.
Qed.

Lemma appends_add_vector {A} (add : A -> Enc unit) (g : A -> list byte) vec :
  Zlen (concat (map g vec)) < 2 ^ 64 ->
  (forall x, x ∈ vec -> appends (add x) (g x)) ->
  appends (add_vector add vec) (rlp_list (concat (map g vec))).
Proof. intros. apply appends_list_try; [done|]. by apply appends_for_each. Qed.

Lemma concat_map_member {A} (g : A -> list byte) l x :
  x ∈ l -> (length (g x) <= length (concat (map g l)))%nat.
Proof.
  induction 1 as [|x y l _ IH]; simpl; rewrite length_app; lia.
Qed.

Lemma appends_encode_item i :
  Zlen (rlp_encode i) < 2 ^ 64 -> appends (encode_item i) (rlp_encode i).
Proof.
  induction i as [bs|l IH] using item_ind'; intros Hl; simpl in *.
  - apply appends_add_bytes. pose proof (rlp_string_length_ge bs). lia.
  - pose proof (rlp_list_length_ge (concat (map rlp_encode l))).
    apply appends_add_vector; [lia|]. intros x Hx.
    rewrite Forall_forall in IH. apply IH; [done|].
    pose proof (concat_map_member rlp_encode l x Hx). lia.
Qed.

(** ** Encodings that fit the address space *)

(** [m] appends [bs], provided [bs] is short enough for a 64-bit length.  Every
    part of an encoding is shorter than the whole, so the rules have no side
    condition on sizes. *)
Definition emits {Er} (m : M RlpEncoder Er unit) (bs : list byte) : Prop :=
  Zlen bs < 2 ^ 64 -> appends m bs.

Section emits_rules.
Context {Er : Type}.
Implicit Types m : M RlpEncoder Er unit.

Lemma emits_ret : emits (Er := Er) (mret tt) [].
Proof. intros _. apply appends_ret. Qed.

Lemma emits_seq m1 m2 b1 b2 : emits m1 b1 -> emits m2 b2 -> emits (m1 ;; m2) (b1 ++ b2).
Proof.
  unfold emits. rewrite length_app. intros H1 H2 Hl. apply appends_seq; [apply H1|apply H2]; lia.
Qed.

Lemma emits_or_fail {E'} m (e' : E') bs : emits m bs -> emits (or_fail m e') bs.
Proof. intros H Hl. by apply appends_or_fail, H. Qed.

Lemma emits_for_each {A} (f : A -> M RlpEncoder Er unit) (g : A -> list byte) l :
  (forall x, x ∈ l -> emits (f x) (g x)) -> emits (for_each f l) (concat (map g l)).
Proof.
  intros Hf Hl. apply appends_for_each. intros x Hx. apply Hf; [done|].
  pose proof (concat_map_member g l x Hx). lia.
Qed.

Lemma emits_list m bs e1 e2 :
  emits m bs -> emits (or_fail BeginList e1 ;; m ;; or_fail EndList e2) (rlp_list bs).
Proof.
  intros Hm Hl. pose proof (rlp_list_length_ge bs). apply appends_list; [lia|]. apply Hm. lia.
Qed.
End emits_rules.

Lemma emits_add_bytes bs : emits (add_bytes bs) (rlp_string bs).
Proof. intros Hl. pose proof (rlp_string_length_ge bs). apply appends_add_bytes. lia. Qed.

Lemma emits_AddRaw bs : bs <> [] -> emits (AddRaw bs) bs.
Proof. intros Hb _. by apply appends_AddRaw. Qed.

Lemma emits_add_u256 n : 0 <= n < 2 ^ 256 -> emits (add_u256 n) (rlp_uint n).
Proof. intros Hn _. by apply appends_add_u256. Qed.

Lemma emits_add_integral size n :
  is_sizeof size -> 0 <= n < 2 ^ (8 * size) -> emits (add_integral size n) (rlp_uint n).
Proof. intros Hs Hn _. by apply appends_add_integral. Qed.

Lemma emits_add_bool b : emits (add_bool b) (rlp_bool b).
Proof. intros _. apply appends_add_bool. Qed.

#[export] Hint Resolve emits_add_bytes emits_add_u256 emits_add_integral emits_add_bool
  emits_or_fail : enc.
#[export] Hint Extern 0 (is_sizeof _) => unfold is_sizeof; lia : enc.

(** One call of an encoding proof. *)
Ltac emits_step :=
  first
    [ apply emits_list
    | apply emits_seq; [solve [eauto with enc]|]
    | solve [eauto with enc] ].

Ltac emits_steps := repeat emits_step.

(** An encoder of its own, and its buffer at the end ([finalize_encoding]). *)
Definition run_encoder (m : Enc unit) : outcome EncodingError (list byte) :=
  ((m ;; GetBytes) RlpEncoder_init).1.

Lemma run_encoder_emits m bs : Zlen bs < 2 ^ 64 -> emits m bs -> run_encoder m = success bs.
Proof.
  intros Hl Hm. unfold run_encoder. by rewrite (bind_success _ _ _ _ _ (Hm Hl RlpEncoder_init)).
Qed.

(** An encoder whose buffer is moved out at the end. *)
Definition finish_encoder (m : Enc unit) : outcome EncodingError (list byte) := ((m ;; MoveBytes) RlpEncoder_init).1.

Lemma finish_encoder_emits m bs : Zlen bs < 2 ^ 64 -> emits m bs -> finish_encoder m = success bs.
Proof. intros Hl Hm. unfold finish_encoder. by rewrite (bind_success _ _ _ _ _ (Hm Hl RlpEncoder_init)). Qed.

Lemma emits_list_try (m : Enc unit) bs : emits m bs -> emits (BeginList ;; m ;; EndList) (rlp_list bs).
Proof. intros Hm Hl. pose proof (rlp_list_length_ge bs). apply appends_list_try; [lia|]. apply Hm. lia. Qed.

(** ** The open-list stack *)

(** Every open list starts inside the buffer and inner lists start after the
    outer ones. *)
Definition enc_wf (e : RlpEncoder) : Prop :=
  Forall (fun p => 0 <= p <= Zlen (buffer_ e)) (list_start_positions_ e) /\
  StronglySorted Z.ge (list_start_positions_ e).

Inductive enc_op :=
  | OpBytes (bs : list byte)
  | OpRaw (bs : list byte)
  | OpU256 (n : Z)
  | OpIntegral (size n : Z)
  | OpBegin
  | OpEnd
  | OpMove
  | OpClear.

Definition run_op (op : enc_op) : Enc unit :=
  match op with
  | OpBytes bs => add_bytes bs
  | OpRaw bs => AddRaw bs
  | OpU256 n => add_u256 n
  | OpIntegral size n => add_integral size n
  | OpBegin => BeginList
  | OpEnd => EndList
  | OpMove => _ ← MoveBytes; mret tt
  | OpClear => clear
  end.

(** A step keeps the stack valid and never leaves the buffer. *)
Definition enc_preserves (m : Enc unit) : Prop :=
  forall e, enc_wf e -> no_crash (m e).1 /\ enc_wf (m e).2.

Lemma enc_wf_append e bs : enc_wf e -> enc_wf (mkEnc (buffer_ e ++ bs) (list_start_positions_ e)).
Proof.
  intros [Hf Hs]. split; [|done]. simpl. eapply Forall_impl; [apply Hf|].
  simpl. intros p Hp. rewrite length_app. lia.
Qed.

Lemma enc_preserves_append bs : enc_preserves (append bs).
Proof. intros e He. split; [done|]. by apply enc_wf_append. Qed.

Lemma encode_header_bytes_no_crash b n : no_crash (encode_header_bytes b n).
Proof. unfold encode_header_bytes. by repeat case_match. Qed.

Lemma enc_preserves_seq (m1 m2 : Enc unit) :
  enc_preserves m1 -> enc_preserves m2 -> enc_preserves (m1 ;; m2).
Proof.
  intros H1 H2 e He. unfold mbind, M_bind. specialize (H1 e He).
  destruct (m1 e) as [[[]|er|f] e1]; [apply H2; tauto|done|done].
Qed.

Lemma enc_preserves_header b n (k : list byte -> Enc unit) :
  (forall h, enc_preserves (k h)) ->
  enc_preserves (h ← lift (encode_header_bytes b n); k h).
Proof.
  intros Hk e He. unfold mbind, M_bind, lift.
  pose proof (encode_header_bytes_no_crash b n).
  destruct (encode_header_bytes b n); simpl in *; [by apply Hk|done|done].
Qed.

Lemma enc_preserves_EndList : enc_preserves EndList.
Proof.
  intros [buf stk] [Hf Hs]. unfold EndList. simpl in *.
  destruct stk as [|p stk]; [done|].
  apply Forall_cons in Hf as [Hp Hf]. apply StronglySorted_inv in Hs as [Hs Hge].
  assert (enc_wf (mkEnc buf stk)) by done.
  pose proof (encode_header_bytes_no_crash true (u64 (Zlen buf - p))).
  destruct (encode_header_bytes _ _) as [h|er|f]; simpl in *; [|done|done].
  rewrite (proj2 (Z.ltb_ge _ _)) by lia. split; [done|]. split; simpl; [|done].
  eapply Forall_impl; [apply Hf|]. simpl. intros q Hq.
  rewrite !length_app, length_take, length_drop. lia.
Qed.

Lemma enc_preserves_op op : enc_preserves (run_op op).
Proof.
  destruct op as [bs|bs|n|size n| | | |]; simpl.
  - unfold add_bytes. destruct bs as [|b [|]]; [|case_match|];
      eauto using enc_preserves_append, enc_preserves_header, enc_preserves_seq.
  - unfold AddRaw. case_decide; [by intros e He|apply enc_preserves_append].
  - unfold add_u256, push_back. repeat case_match;
      eauto using enc_preserves_append, enc_preserves_header, enc_preserves_seq.
  - unfold add_integral, push_back. repeat case_match;
      eauto using enc_preserves_append, enc_preserves_seq.
  - intros e [Hf Hs]. split; [done|]. split; simpl.
    + apply Forall_cons. split; [lia|done].
    + constructor; [done|]. eapply Forall_impl; [apply Hf|]. simpl. lia.
  - apply enc_preserves_EndList.
  - intros e He. unfold mbind, M_bind, MoveBytes. destruct (list_start_positions_ e); [|done].
    split; [done|]. split; constructor.
  - intros e He. split; [done|]. split; constructor.
Qed.

(** Runs calls one after the other, going on after an error. *)
Definition run_ops (ops : list enc_op) (e : RlpEncoder) : RlpEncoder :=
  foldl (fun e op => (run_op op e).2) e ops.


(** ** Theorems *)

(** C23: Encoding any tree of strings and lists through nested [add], [BeginList]
    and [EndList] calls yields exactly the canonical RLP encoding of the tree,
    as long as that encoding is shorter than 2^64 bytes. *)
Theorem encode_item_canonical (i : item) :
  Zlen (rlp_encode i) < 2 ^ 64 -> run_encoder (encode_item i) = success (rlp_encode i).
Proof.
  intros Hl. apply run_encoder_emits; [done|]. intros _. by apply appends_encode_item.
Qed.

Lemma encode_item_canonical_witness :
  run_encoder (encode_item (Lst [Str [x63; x61; x74]; Lst [Str []; Str [x7f]; Str [x80]]])) =
  success [xc9; x83; x63; x61; x74; xc4; x80; x7f; x81; x80].
Proof. by apply (encode_item_canonical (Lst [Str [x63; x61; x74]; Lst [Str []; Str [x7f]; Str [x80]]])). Defined.

(** Whatever sequence of public calls is made, errors included, every
    position on the open-list stack stays inside the buffer, inner lists start
    after outer ones, and no further call writes outside the buffer. *)
Theorem encoder_stack_invariant (ops : list enc_op) (op : enc_op) :
  enc_wf (run_ops ops RlpEncoder_init) /\ no_crash (run_op op (run_ops ops RlpEncoder_init)).1.
Proof.
  assert (enc_wf (run_ops ops RlpEncoder_init)) as Hwf; [|split; [done|by apply enc_preserves_op]].
  unfold run_ops. assert (enc_wf RlpEncoder_init) as H0 by (split; constructor).
  revert H0. generalize RlpEncoder_init. induction ops as [|o ops IH]; intros e He; simpl; [done|].
  apply IH. by apply enc_preserves_op.
Qed.

(** The shift-based fast path for 8-, 16-, 32- and 64-bit integers appends
    the same bytes as the 256-bit overload: the canonical integer encoding. *)
Theorem add_integral_agrees_u256 (size n : Z) (e : RlpEncoder) :
  is_sizeof size -> 0 <= n < 2 ^ (8 * size) ->
  add_integral size n e = add_u256 n e /\
  add_integral size n e = (success tt, mkEnc (buffer_ e ++ rlp_uint n) (list_start_positions_ e)).
Proof.
  intros Hs Hn. assert (0 <= n < 2 ^ 256) as Hn'.
  { split; [lia|]. eapply Z.lt_le_trans; [apply Hn|]. apply Z.pow_le_mono_r; unfold is_sizeof in Hs; lia. }
  by rewrite (appends_add_integral size n Hs Hn), (appends_add_u256 n Hn').
Qed.

Lemma add_integral_agrees_u256_witness :
  add_integral 8 0x400 RlpEncoder_init = add_u256 0x400 RlpEncoder_init /\
  add_integral 8 0x400 RlpEncoder_init = (success tt, mkEnc [x82; x04; x00] []).
Proof.
  apply (add_integral_agrees_u256 8 0x400 RlpEncoder_init); [by right; right; right|done].
Defined.
