(* ===== verification/RlpDecoder.v ===== *)
(** * RlpDecoder

    [src/rlp/rlp_decoder.cpp] and [include/rlp/rlp_decoder.hpp].  A decoder is a
    view that shrinks from the front; a member function is a computation on the
    view.  Accesses that are undefined outside the view ([operator[]],
    [remove_prefix]) or throw ([substr]) are modelled with their failure, so
    that the theorems show they never happen.

    [header_at] is the relation a header must satisfy; [decode_header_impl] is
    proved equivalent to it, and each reader is characterised exactly by the
    specification of [RlpSpec]. *)

From S2P Require Import Prelude RlpSpec RlpCommon.

Notation ByteView := (list byte).
Notation Dec := (M ByteView DecodingError).

(** ** Views *)

Definition view {Er} : M ByteView Er ByteView := get_state.

(** [remove_prefix(n)]: undefined when [n] exceeds the size. *)
Definition remove_prefix {Er} (n : Z) : M ByteView Er unit := fun v =>
  if Zlen v <? n then (crash OutOfBounds, v) else (success tt, drop (Z.to_nat n) v).

(** [v[i]]. *)
Definition byte_at {Er} (v : ByteView) (i : Z) : outcome Er byte :=
  match v !! Z.to_nat i with Some b => success b | None => crash OutOfBounds end.

(** [v.substr(pos, n)]: throws past the end, and the callers are [noexcept]. *)
Definition substr {Er} (v : ByteView) (pos n : Z) : outcome Er ByteView :=
  if Zlen v <? pos then crash Terminate
  else success (take (Z.to_nat (Z.min n (Zlen v - pos))) (drop (Z.to_nat pos) v)).

(** ** Headers *)

(** The long-string and long-list branches, which differ in the constants. *)
Definition decode_long_header (lst : bool) (b input_len long_offset max_short : Z) : Dec Header :=
  let header_size := 1 + (b - long_offset) in
  if input_len <? header_size then fail kInputTooShort else
  v ← view;
  len_bytes ← lift (substr v 1 (header_size - 1));
  len64 ← lift (from_big_compact (2 ^ 64 - 1) len_bytes);
  if len64 <=? max_short then fail kNonCanonicalSize else
  remove_prefix header_size ;;
  mret (mkHeader lst len64 header_size).

(** The short-string branch. *)
Definition decode_short_string_header (v : ByteView) (b input_len : Z) : Dec Header :=
  if input_len <? 1 then fail kInputTooShort else
  let payload := b - kShortStringOffset in
  (if payload =? 1 then
     if input_len <? kSingleByteStringSize then fail kInputTooShort else
     c ← lift (byte_at v 1);
     if u8 c <? kShortStringOffset then fail kNonCanonicalSize else mret tt
   else mret tt) ;;
  remove_prefix 1 ;;
  mret (mkHeader false payload 1).

(** [decode_header_impl(ByteView& v)]. *)
Definition decode_header_impl : Dec Header :=
  v ← view;
  match v with
  | [] => fail kInputTooShort
  | b0 :: _ =>
      let b := u8 b0 in
      let input_len := Zlen v in
      if (input_len =? 1) && (0xf9 <=? b) then fail kMalformedHeader else
      h ← (if b <? kShortStringOffset then mret (mkHeader false 1 0)
           else if b <=? kMaxShortStringLen + kShortStringOffset then
             decode_short_string_header v b input_len
           else if b <? kShortListOffset then
             decode_long_header false b input_len kLongStringOffset kMaxShortStringLen
           else if b <=? kMaxShortListLen + kShortListOffset then
             if input_len <? 1 then fail kInputTooShort else
             remove_prefix 1 ;; mret (mkHeader true (b - kShortListOffset) 1)
           else decode_long_header true b input_len kLongListOffset kMaxShortListLen);
      if kShortStringOffset <=? b then
        v' ← view;
        if Zlen v' <? payload_size_bytes h then fail kInputTooShort else mret h
      else if input_len <? 1 then fail kInputTooShort else mret h
  end.

(** [skip_header_internal]: the second reading of the prefix byte. *)
Definition skip_header_internal : Dec unit :=
  v ← view;
  match v with
  | [] => fail kInputTooShort
  | b0 :: _ =>
      let b := u8 b0 in
      let header_len :=
        if b <? kShortStringOffset then 0
        else if b <=? kMaxShortStringLen + kShortStringOffset then 1
        else if b <? kShortListOffset then 1 + (b - kLongStringOffset)
        else if b <=? kMaxShortListLen + kShortListOffset then 1
        else 1 + (b - kLongListOffset) in
      if Zlen v <? header_len then fail kInputTooShort else remove_prefix header_len
  end.

(** ** Queries *)

Definition IsFinished {Er} : M ByteView Er bool :=
  v ← view; mret (bool_decide (v = [])).

Definition IsList : Dec bool :=
  v ← view;
  match v with [] => fail kInputTooShort | b :: _ => mret (kShortListOffset <=? u8 b) end.

Definition IsString : Dec bool :=
  v ← view;
  match v with [] => fail kInputTooShort | b :: _ => mret (u8 b <? kShortListOffset) end.

(** Decodes from a copy of the view. *)
Definition PeekHeader : Dec Header := fun v => ((decode_header_impl v).1, v).

Definition PeekPayloadSizeBytes : Dec Z := h ← PeekHeader; mret (payload_size_bytes h).

Definition PeekPayload : Dec ByteView :=
  h ← PeekHeader;
  if is_list h then fail kUnexpectedList else
  v ← view;
  if Zlen v <? u64 (header_size_bytes h + payload_size_bytes h) then fail kInputTooShort else
  lift (substr v (header_size_bytes h) (payload_size_bytes h)).

(** ** Readers *)

(** [read(Bytes&)]. *)
Definition read_bytes : Dec (list byte) :=
  h ← PeekHeader;
  if is_list h then fail kUnexpectedList else
  skip_header_internal ;;
  v ← view;
  if Zlen v <? payload_size_bytes h then fail kInputTooShort else
  let out := take (Z.to_nat (payload_size_bytes h)) v in
  remove_prefix (payload_size_bytes h) ;;
  mret out.

(** [read_uint256]. *)
Definition read_uint256 : Dec Z :=
  h ← PeekHeader;
  if is_list h then fail kUnexpectedList else
  v ← view;
  payload_view ← lift (substr v (header_size_bytes h) (payload_size_bytes h));
  (if 1 <? payload_size_bytes h then
     c ← lift (byte_at payload_view 0);
     if u8 c =? 0 then fail kLeadingZero else mret tt
   else mret tt) ;;
  if 32 <? payload_size_bytes h then fail kOverflow else
  out ← lift (from_big_compact_u256 payload_view);
  if (payload_size_bytes h =? 1) && (out <? kRlpSingleByteThreshold) && (0 <? header_size_bytes h)
  then fail kNonCanonicalSize else
  if Zlen v <? u64 (header_size_bytes h + payload_size_bytes h) then fail kInputTooShort else
  remove_prefix (u64 (header_size_bytes h + payload_size_bytes h)) ;;
  mret out.

(** [read_integral<T>] with [sizeof(T) = size]. *)
Definition read_integral (size : Z) : Dec Z :=
  h ← PeekHeader;
  if is_list h then fail kUnexpectedList else
  v ← view;
  (if 1 <? payload_size_bytes h then
     payload_view ← lift (substr v (header_size_bytes h) (payload_size_bytes h));
     c ← lift (byte_at payload_view 0);
     if u8 c =? 0 then fail kLeadingZero else mret tt
   else mret tt) ;;
  if size <? payload_size_bytes h then fail kOverflow else
  (if (payload_size_bytes h =? 1) && (0 <? header_size_bytes h) then
     payload_view ← lift (substr v (header_size_bytes h) (payload_size_bytes h));
     c ← lift (byte_at payload_view 0);
     if u8 c <? kRlpSingleByteThreshold then fail kNonCanonicalSize else mret tt
   else mret tt) ;;
  if Zlen v <? u64 (header_size_bytes h + payload_size_bytes h) then fail kInputTooShort else
  payload_view ← lift (substr v (header_size_bytes h) (payload_size_bytes h));
  out ← lift (from_big_compact (2 ^ (8 * size) - 1) payload_view);
  remove_prefix (u64 (header_size_bytes h + payload_size_bytes h)) ;;
  mret out.

(** [read_bool]. *)
Definition read_bool : Dec bool :=
  h ← PeekHeader;
  if is_list h then fail kUnexpectedList else
  v ← view;
  if Zlen v <? u64 (header_size_bytes h + payload_size_bytes h) then fail kInputTooShort else
  out ← (if payload_size_bytes h =? 1 then
           payload_view ← lift (substr v (header_size_bytes h) (payload_size_bytes h));
           c ← lift (byte_at payload_view 0);
           if u8 c =? 1 then mret true
           else if u8 c =? 0 then mret false
           else fail kOverflow
         else if (payload_size_bytes h =? 0) && (header_size_bytes h =? 1) then
           c ← lift (byte_at v 0);
           if u8 c =? kEmptyStringCode then mret false else fail kOverflow
         else fail kOverflow);
  remove_prefix (u64 (header_size_bytes h + payload_size_bytes h)) ;;
  mret out.

(** [read<N>(span<uint8_t, N>)], which the array overloads call. *)
Definition read_array (N : Z) : Dec (list byte) :=
  h ← PeekHeader;
  if is_list h then fail kUnexpectedList else
  let single_byte_literal := (payload_size_bytes h =? 1) && (header_size_bytes h =? 0) in
  if negb (payload_size_bytes h =? N) && negb ((N =? 1) && single_byte_literal)
  then fail kUnexpectedLength else
  skip_header_internal ;;
  v ← view;
  if Zlen v <? N then fail kInputTooShort else
  remove_prefix N ;;
  mret (take (Z.to_nat N) v).

(** ** Lists and items *)

Definition ReadListHeaderBytes : Dec Z :=
  h ← PeekHeader;
  if negb (is_list h) then fail kUnexpectedString else
  skip_header_internal ;;
  mret (payload_size_bytes h).

Definition SkipItem : Dec unit :=
  h ← PeekHeader;
  skip_header_internal ;;
  v ← view;
  if Zlen v <? payload_size_bytes h then fail kInputTooShort else
  remove_prefix (payload_size_bytes h).

(** ** The header relation *)

(** First byte of the prefix family. *)
Definition hdr_off (lst : bool) : Z := if lst then 192 else 128.

(** [header_at v h w]: [v] starts with a canonical header [h] whose payload is
    inside [w], the view after the header. *)
Inductive header_at : ByteView -> Header -> ByteView -> Prop :=
  | at_literal b r :
      u8 b < 128 -> header_at (b :: r) (mkHeader false 1 0) (b :: r)
  | at_prefixed lst len w :
      0 <= len < 2 ^ 64 ->
      len <= Zlen w ->
      (lst = false -> len = 1 -> forall b r, w = b :: r -> 128 <= u8 b) ->
      header_at (rlp_header (hdr_off lst) len ++ w)
        (mkHeader lst len (Zlen (rlp_header (hdr_off lst) len))) w.

(** Runs a computation on a view step by step. *)
Ltac run :=
  unfold mbind, M_bind, mret, M_ret, lift, fail, view, get_state, crash_with in *;
  cbn beta iota delta [fst snd is_list payload_size_bytes header_size_bytes] in *.

Lemma substr_prefix {Er} (v1 v2 w : ByteView) pos n :
  pos = Zlen v1 -> n = Zlen v2 -> substr (Er := Er) (v1 ++ v2 ++ w) pos n = success v2.
Proof.
  intros -> ->. unfold substr.
  rewrite (proj2 (Z.ltb_ge _ _)) by (rewrite length_app; lia).
  rewrite drop_app_Zlen, !length_app.
  rewrite Z.min_l by lia. by rewrite take_app_Zlen.
Qed.

Lemma remove_prefix_app {Er} (v1 w : ByteView) n :
  n = Zlen v1 -> remove_prefix (Er := Er) n (v1 ++ w) = (success tt, w).
Proof.
  intros ->. unfold remove_prefix.
  rewrite (proj2 (Z.ltb_ge _ _)) by (rewrite length_app; lia). by rewrite drop_app_Zlen.
Qed.

Lemma remove_prefix_1 {Er} b (w : ByteView) : remove_prefix (Er := Er) 1 (b :: w) = (success tt, w).
Proof. by apply (remove_prefix_app [b]). Qed.

(** Shape of a header of more than 55 bytes of payload. *)
Lemma rlp_header_long off len :
  55 < len -> rlp_header off len = byte_of (off + 55 + Zlen (be_min len)) :: be_min len.
Proof. intros. unfold rlp_header. by rewrite (proj2 (Z.leb_gt len 55)) by lia. Qed.

Lemma rlp_header_short off len : len <= 55 -> rlp_header off len = [byte_of (off + len)].
Proof. intros. unfold rlp_header. by rewrite (proj2 (Z.leb_le len 55)) by lia. Qed.

Lemma decode_long_header_spec lst b0 r h w :
  hdr_off lst + 55 < u8 b0 <= hdr_off lst + 63 ->
  decode_long_header lst (u8 b0) (Zlen (b0 :: r)) (hdr_off lst + 55) 55 (b0 :: r) = (success h, w) <->
  exists len, 55 < len < 2 ^ 64 /\ h = mkHeader lst len (Zlen (rlp_header (hdr_off lst) len)) /\
    b0 :: r = rlp_header (hdr_off lst) len ++ w.
Proof.
  intros Hb. unfold decode_long_header. set (k := u8 b0 - (hdr_off lst + 55)).
  assert (0 < k <= 8) as Hk8 by (unfold k; lia).
  split.
  - destruct (Z.ltb_spec (Zlen (b0 :: r)) (1 + k)) as [|Hlen]; [done|]. run.
    unfold substr. rewrite (proj2 (Z.ltb_ge _ 1)) by (simpl length; lia).
    change (drop (Z.to_nat 1) (b0 :: r)) with r.
    replace (Z.to_nat (Z.min (1 + k - 1) (Zlen (b0 :: r) - 1))) with (Z.to_nat k)
      by (simpl length in *; lia).
    destruct (from_big_compact _ _) as [len| |] eqn:E; [|done|done].
    apply from_big_compact_spec in E as [Hr E]; [|lia].
    destruct (Z.leb_spec len 55) as [|Hlong]; [done|].
    destruct E as [E|[-> _]]; [|lia]. unfold remove_prefix.
    rewrite (proj2 (Z.ltb_ge _ _)) by lia. intros [= <- <-].
    assert (Zlen (be_min len) = k) as Hk.
    { rewrite <- E, length_take. simpl length in Hlen. lia. }
    exists len. rewrite rlp_header_long by done. split; [lia|].
    split; [f_equal; simpl length; lia|].
    rewrite Hk. simpl app. f_equal.
    + apply u8_inj. rewrite u8_byte_of_small; pose proof (u8_range b0); lia.
    + rewrite <- E. replace (Z.to_nat (1 + k)) with (S (Z.to_nat k)) by lia.
      rewrite skipn_cons. by rewrite take_drop.
  - intros (len & Hlen & -> & E). rewrite rlp_header_long in * by lia.
    injection E as Hb0 ->. pose proof (nbytes_u64 len ltac:(lia)) as Hn.
    assert (k = Zlen (be_min len)) as Hk.
    { unfold k. rewrite Hb0, u8_byte_of_small; [lia|].
      rewrite length_be_min. destruct lst; simpl; lia. }
    fold k. rewrite (proj2 (Z.ltb_ge _ _)) by (simpl length; rewrite length_app; lia). run.
    rewrite (substr_prefix [b0] (be_min len) w) by (simpl; lia).
    rewrite (proj2 (from_big_compact_spec (2 ^ 64 - 1) (be_min len) len ltac:(lia))) by
      (split; [lia|by left]).
    rewrite (proj2 (Z.leb_gt len 55)) by lia.
    change (b0 :: be_min len ++ w) with ((b0 :: be_min len) ++ w).
    rewrite remove_prefix_app by (simpl length; lia). do 3 f_equal. simpl length. lia.
Qed.

Lemma decode_short_string_header_spec b0 r h w :
  128 <= u8 b0 <= 183 ->
  decode_short_string_header (b0 :: r) (u8 b0) (Zlen (b0 :: r)) (b0 :: r) = (success h, w) <->
  w = r /\ h = mkHeader false (u8 b0 - 128) 1 /\
  (u8 b0 = 129 -> exists c r', r = c :: r' /\ 128 <= u8 c).
Proof.
  intros Hb. unfold decode_short_string_header, kShortStringOffset, kSingleByteStringSize.
  rewrite (proj2 (Z.ltb_ge _ 1)) by (simpl length; lia).
  destruct (Z.eqb_spec (u8 b0 - 128) 1) as [E1|E1].
  - destruct r as [|c r]; run; [split; [done|]; intros (_ & _ & H); destruct H as (? & ? & ? & _); [lia|done]|].
    rewrite (proj2 (Z.ltb_ge _ 2)) by (simpl length; lia). simpl.
    destruct (Z.ltb_spec (u8 c) 128).
    + split; [done|]. intros (_ & _ & H'). destruct H' as (? & ? & ? & ?); [lia|]. simplify_eq. lia.
    + rewrite remove_prefix_1. split; [intros [= <- <-]|intros (-> & -> & _); done].
      eauto 10.
  - run. rewrite remove_prefix_1. split.
    + intros [= <- <-]. split; [done|]. split; [done|]. lia.
    + by intros (-> & -> & _).
Qed.

(** A one-byte prefix. *)
Lemma header_at_short lst b0 r :
  hdr_off lst <= u8 b0 <= hdr_off lst + 55 ->
  u8 b0 - hdr_off lst <= Zlen r ->
  (lst = false -> u8 b0 = 129 -> forall c r', r = c :: r' -> 128 <= u8 c) ->
  header_at (b0 :: r) (mkHeader lst (u8 b0 - hdr_off lst) 1) r.
Proof.
  intros Hb Hl Hc.
  pose proof (at_prefixed lst (u8 b0 - hdr_off lst) r) as H.
  rewrite rlp_header_short in H by lia.
  replace (hdr_off lst + (u8 b0 - hdr_off lst)) with (u8 b0) in H by lia.
  rewrite byte_of_u8 in H. apply H; [lia|lia|]. intros -> ?. apply Hc; [done|]. simpl in *. lia.
Qed.



Lemma check_payload_length h (w : ByteView) r w' :
  (if Zlen w <? payload_size_bytes h then (fun s => (failure kInputTooShort, s))
   else (fun s => (success h, s))) w = (success r, w') <->
  r = h /\ w' = w /\ payload_size_bytes h <= Zlen w.
Proof.
  destruct (Z.ltb_spec (Zlen w) (payload_size_bytes h)); split; try done.
  - intros (_ & _ & ?). lia.
  - by intros [= <- <-].
  - by intros (-> & -> & _).
Qed.

(** Soundness: whatever [decode_header_impl] accepts is a canonical header with
    its payload present. *)
Lemma decode_header_impl_sound v h w : decode_header_impl v = (success h, w) -> header_at v h w.
Proof.
  unfold decode_header_impl. run. destruct v as [|b0 r]; [done|].
  unfold kShortStringOffset, kMaxShortStringLen, kShortListOffset, kMaxShortListLen,
    kLongStringOffset, kLongListOffset.
  pose proof (u8_range b0) as Hb. destruct (_ && _) eqn:Emal; [done|].
  rewrite (proj2 (Z.ltb_ge (Zlen (b0 :: r)) 1)) by (simpl length; lia).
  destruct (Z.ltb_spec (u8 b0) 128).
  { rewrite (proj2 (Z.leb_gt 128 _)) by lia. intros [= <- <-]. by constructor. }
  rewrite (proj2 (Z.leb_le 128 _)) by lia.
  destruct (Z.leb_spec (u8 b0) (55 + 128)).
  { destruct (decode_short_string_header _ _ _ _) as [[h'| |] w'] eqn:E; [|done|done].
    apply decode_short_string_header_spec in E as (-> & -> & Hc); [|lia].
    intros (-> & -> & Hl)%check_payload_length. apply (header_at_short false); simpl in *; [lia|lia|].
    intros _ Hb' c r' ->. destruct (Hc Hb') as (? & ? & ? & ?). by simplify_eq. }
  destruct (Z.ltb_spec (u8 b0) 192).
  { destruct (decode_long_header _ _ _ _ _ _) as [[h'| |] w'] eqn:E; [|done|done].
    apply (decode_long_header_spec false) in E as (len & Hlen & -> & ->); [|simpl; lia].
    intros (-> & -> & Hl)%check_payload_length. apply at_prefixed; simpl in *; lia. }
  destruct (Z.leb_spec (u8 b0) (55 + 192)).
  { rewrite remove_prefix_1.
    intros (-> & -> & Hl)%check_payload_length. by apply (header_at_short true); simpl in *; [lia|lia|]. }
  destruct (decode_long_header _ _ _ _ _ _) as [[h'| |] w'] eqn:E; [|done|done].
  apply (decode_long_header_spec true) in E as (len & Hlen & -> & ->); [|simpl; lia].
  intros (-> & -> & Hl)%check_payload_length. apply at_prefixed; simpl in *; lia.
Qed.

(** Completeness: a canonical header with its payload present is accepted. *)
Lemma decode_header_impl_complete v h w : header_at v h w -> decode_header_impl v = (success h, w).
Proof.
  unfold decode_header_impl. run.
  unfold kShortStringOffset, kMaxShortStringLen, kShortListOffset, kMaxShortListLen,
    kLongStringOffset, kLongListOffset.
  intros [b r Hb | lst len w' Hlen Hl Hc].
  { pose proof (u8_range b). rewrite (proj2 (Z.leb_gt 0xf9 _)), andb_false_r by lia.
    rewrite (proj2 (Z.ltb_lt _ 128)), (proj2 (Z.leb_gt 128 _)) by lia.
    by rewrite (proj2 (Z.ltb_ge _ 1)) by (simpl length; lia). }
  assert (128 <= hdr_off lst <= 192) as Ho by (destruct lst; simpl; lia).
  destruct (decide (len <= 55)).
  - rewrite rlp_header_short by done. cbn [app].
    set (b0 := byte_of (hdr_off lst + len)).
    assert (u8 b0 = hdr_off lst + len) as Hb0 by (apply u8_byte_of_small; destruct lst; simpl; lia).
    rewrite (proj2 (Z.leb_gt 0xf9 _)), andb_false_r by (destruct lst; simpl in *; lia).
    rewrite (proj2 (Z.ltb_ge (u8 b0) 128)), (proj2 (Z.leb_le 128 (u8 b0))) by lia.
    rewrite (proj2 (Z.ltb_ge (Zlen (b0 :: w')) 1)) by (simpl length; lia).
    destruct lst; simpl hdr_off in *.
    + rewrite (proj2 (Z.leb_gt (u8 b0) (55 + 128))), (proj2 (Z.ltb_ge (u8 b0) 192)),
        (proj2 (Z.leb_le (u8 b0) (55 + 192))) by lia.
      rewrite remove_prefix_1. apply check_payload_length. simpl.
      split; [f_equal; lia|]. split; [done|lia].
    + rewrite (proj2 (Z.leb_le (u8 b0) (55 + 128))) by lia.
      rewrite (proj2 (decode_short_string_header_spec b0 w' (mkHeader false len 1) w' ltac:(lia))).
      * apply check_payload_length. split; [done|]. split; [done|]. simpl. lia.
      * split; [done|]. split; [f_equal; lia|]. intros Hb1. destruct w' as [|c r']; [simpl in *; lia|].
        exists c, r'. split; [done|]. eapply Hc; [done|lia|done].
  - rewrite rlp_header_long by lia. pose proof (nbytes_u64 len ltac:(lia)).
    pose proof (nbytes_pos len ltac:(lia)).
    set (b0 := byte_of (hdr_off lst + 55 + Zlen (be_min len))).
    assert (u8 b0 = hdr_off lst + 55 + Z.of_nat (nbytes len)) as Hb0.
    { unfold b0. rewrite length_be_min. apply u8_byte_of_small; destruct lst; simpl; lia. }
    cbn [app].
    assert (Zlen (b0 :: be_min len ++ w') =? 1 = false) as ->.
    { apply Z.eqb_neq. rewrite length_cons, length_app, length_be_min. lia. }
    cbn [andb].
    assert (forall lst', lst' = lst ->
      decode_long_header lst' (u8 b0) (Zlen (b0 :: be_min len ++ w')) (hdr_off lst' + 55) 55
        (b0 :: be_min len ++ w')
      = (success (mkHeader lst len (Zlen (rlp_header (hdr_off lst) len))), w')) as Hlong.
    { intros ? ->. apply decode_long_header_spec; [lia|]. exists len. split; [lia|].
      split; [done|]. by rewrite rlp_header_long by lia. }
    rewrite (proj2 (Z.ltb_ge (u8 b0) 128)), (proj2 (Z.leb_le 128 (u8 b0))) by lia.
    rewrite rlp_header_long in Hlong by lia. fold b0 in Hlong.
    destruct lst; simpl hdr_off in *.
    + rewrite (proj2 (Z.leb_gt (u8 b0) (55 + 128))), (proj2 (Z.ltb_ge (u8 b0) 192)),
        (proj2 (Z.leb_gt (u8 b0) (55 + 192))) by lia.
      specialize (Hlong true eq_refl). simpl hdr_off in Hlong.
      change (192 + 55) with 0xF7 in Hlong. rewrite Hlong.
      by apply check_payload_length.
    + rewrite (proj2 (Z.leb_gt (u8 b0) (55 + 128))), (proj2 (Z.ltb_lt (u8 b0) 192)) by lia.
      specialize (Hlong false eq_refl). simpl hdr_off in Hlong.
      change (128 + 55) with 0xB7 in Hlong. rewrite Hlong.
      by apply check_payload_length.
Qed.

Lemma decode_header_impl_iff v h w : decode_header_impl v = (success h, w) <-> header_at v h w.
Proof. split; [apply decode_header_impl_sound|apply decode_header_impl_complete]. Qed.

Lemma decode_long_header_no_crash lst b0 r off max :
  0 <= u8 b0 - off -> no_crash (decode_long_header lst (u8 b0) (Zlen (b0 :: r)) off max (b0 :: r)).1.
Proof.
  intros Hb. unfold decode_long_header.
  destruct (Z.ltb_spec (Zlen (b0 :: r)) (1 + (u8 b0 - off))); [done|]. run.
  unfold substr. rewrite (proj2 (Z.ltb_ge _ 1)) by (simpl length; lia).
  pose proof (from_big_compact_no_crash (2 ^ 64 - 1)) as Hf.
  match goal with |- context [from_big_compact _ ?l] => specialize (Hf l) end.
  destruct (from_big_compact _ _); [|done|done]. case_match; [done|].
  unfold remove_prefix. by rewrite (proj2 (Z.ltb_ge _ _)) by lia.
Qed.

Lemma decode_short_string_header_no_crash b0 r :
  no_crash (decode_short_string_header (b0 :: r) (u8 b0) (Zlen (b0 :: r)) (b0 :: r)).1.
Proof.
  unfold decode_short_string_header, kSingleByteStringSize.
  rewrite (proj2 (Z.ltb_ge _ 1)) by (simpl length; lia). case_match.
  - destruct r as [|c r]; [done|]. rewrite (proj2 (Z.ltb_ge _ 2)) by (simpl length; lia).
    run. unfold byte_at. simpl. destruct (u8 c <? _); [done|]. by rewrite remove_prefix_1.
  - run. by rewrite remove_prefix_1.
Qed.

(** The header decoder never reads outside the view. *)
Lemma decode_header_impl_no_crash v : no_crash (decode_header_impl v).1.
Proof.
  unfold decode_header_impl. run. destruct v as [|b0 r]; [done|].
  unfold kShortStringOffset, kMaxShortStringLen, kShortListOffset, kMaxShortListLen,
    kLongStringOffset, kLongListOffset.
  case_match; [done|]. set (w := b0 :: r).
  assert (forall (p : outcome DecodingError Header * ByteView), no_crash p.1 ->
    no_crash (match p with
      | (success a, s') => (if 128 <=? u8 b0 then fun s => (if Zlen s <? payload_size_bytes a
          then fun s => (failure kInputTooShort, s) else fun s => (success a, s)) s
        else if Zlen w <? 1 then fun s => (failure kInputTooShort, s) else fun s => (success a, s)) s'
      | (failure e, s') => (failure e, s')
      | (crash f, s') => (crash f, s') end).1) as Hend.
  { intros [[]] Hp; [|done|done]. by repeat case_match. }
  apply Hend. destruct (Z.ltb_spec (u8 b0) 128); [done|].
  destruct (Z.leb_spec (u8 b0) (55 + 128)); [apply decode_short_string_header_no_crash|].
  destruct (Z.ltb_spec (u8 b0) 192); [apply decode_long_header_no_crash; lia|].
  destruct (Z.leb_spec (u8 b0) (55 + 192)).
  - destruct (Zlen w <? 1); [done|]. unfold w. by rewrite remove_prefix_1.
  - apply decode_long_header_no_crash; lia.
Qed.


(** ** Views that fit the address space *)

(** [size_t] is 64 bits: no view is longer. *)
Definition fits (v : ByteView) : Prop := Zlen v < 2 ^ 64.

Lemma fits_suffix v w : w `suffix_of` v -> fits v -> fits w.
Proof. intros H%suffix_length. unfold fits. lia. Qed.

(** ** The second reading of the prefix agrees with the first *)

Lemma skip_header_internal_spec v h w : header_at v h w -> skip_header_internal v = (success tt, w).
Proof.
  intros [b r Hb | lst len w' Hlen Hl Hc]; unfold skip_header_internal, kShortStringOffset,
    kMaxShortStringLen, kShortListOffset, kMaxShortListLen, kLongStringOffset, kLongListOffset; run.
  { rewrite (proj2 (Z.ltb_lt _ 128)) by done. rewrite (proj2 (Z.ltb_ge _ 0)) by lia.
    by apply (remove_prefix_app []). }
  set (hd := rlp_header _ _). assert (forall n, n = Zlen hd ->
    (if Zlen (hd ++ w') <? n then fun s => (failure kInputTooShort, s) else remove_prefix n) (hd ++ w')
    = (success tt, w')) as Hend.
  { intros n ->. rewrite (proj2 (Z.ltb_ge _ _)) by (rewrite length_app; lia).
    by apply remove_prefix_app. }
  destruct (decide (len <= 55)); unfold hd in *.
  - rewrite rlp_header_short in * by done. cbn [app] in *. apply Hend.
    rewrite u8_byte_of_small by (destruct lst; simpl; lia). destruct lst; simpl.
    + by rewrite (proj2 (Z.ltb_ge _ 128)), (proj2 (Z.leb_gt _ (55 + 128))), (proj2 (Z.ltb_ge _ 192)),
        (proj2 (Z.leb_le _ (55 + 192))) by lia.
    + by rewrite (proj2 (Z.ltb_ge _ 128)), (proj2 (Z.leb_le _ (55 + 128))) by lia.
  - rewrite rlp_header_long in * by lia. pose proof (nbytes_u64 len ltac:(lia)).
    pose proof (nbytes_pos len ltac:(lia)). cbn [app] in *. apply Hend.
    rewrite length_cons, length_be_min, u8_byte_of_small by (destruct lst; simpl; lia).
    destruct lst; simpl hdr_off.
    + rewrite (proj2 (Z.ltb_ge _ 128)), (proj2 (Z.leb_gt _ (55 + 128))), (proj2 (Z.ltb_ge _ 192)),
        (proj2 (Z.leb_gt _ (55 + 192))) by lia. lia.
    + rewrite (proj2 (Z.ltb_ge _ 128)), (proj2 (Z.leb_gt _ (55 + 128))), (proj2 (Z.ltb_lt _ 192)) by lia.
      lia.
Qed.

Lemma PeekHeader_at v h w : header_at v h w -> PeekHeader v = (success h, v).
Proof. intros H%decode_header_impl_iff. unfold PeekHeader. by rewrite H. Qed.

Lemma PeekHeader_cases v :
  (exists e, PeekHeader v = (failure e, v)) \/ (exists h w, header_at v h w).
Proof.
  unfold PeekHeader. pose proof (decode_header_impl_no_crash v).
  destruct (decode_header_impl v) as [[h|e|f] w] eqn:E; simpl in *; [|eauto|done].
  apply decode_header_impl_iff in E. eauto.
Qed.

(** ** String items *)

(** [v] is a string item with prefix [pre] and payload [p], followed by [rest]. *)
Record string_at (v pre p rest : ByteView) : Prop := {
  string_at_view : v = pre ++ p ++ rest;
  string_at_rlp : pre ++ p = rlp_string p;
  string_at_header : header_at v (mkHeader false (Zlen p) (Zlen pre)) (p ++ rest)
}.

Lemma rlp_string_prefixed p :
  (forall b, p = [b] -> 128 <= u8 b) -> rlp_string p = rlp_header 128 (Zlen p) ++ p.
Proof.
  intros Hc. unfold rlp_string. destruct p as [|b [|]]; [done| |done].
  by rewrite (proj2 (Z.ltb_ge _ 128)) by (by apply Hc).
Qed.

Lemma rlp_string_literal b : u8 b < 128 -> rlp_string [b] = [b].
Proof. intros. simpl. by rewrite (proj2 (Z.ltb_lt _ 128)). Qed.

Lemma literal_or_prefixed p :
  (exists b, p = [b] /\ u8 b < 128) \/ (forall b, p = [b] -> 128 <= u8 b).
Proof.
  destruct p as [|b [|]]; [by right| |by right].
  destruct (decide (u8 b < 128)); [left; eauto|right]. intros ? [= <-]. lia.
Qed.

(** Every encoded string is one. *)
Lemma string_at_rlp_string p rest :
  Zlen p < 2 ^ 64 -> exists pre, string_at (rlp_string p ++ rest) pre p rest.
Proof.
  intros Hp. destruct (literal_or_prefixed p) as [(b & -> & Hb)|Hc].
  - exists []. rewrite rlp_string_literal by done. split; [done|by rewrite rlp_string_literal|].
    by apply at_literal.
  - exists (rlp_header 128 (Zlen p)). rewrite rlp_string_prefixed, <- app_assoc by done.
    split; [done|by rewrite rlp_string_prefixed|].
    apply (at_prefixed false); [lia|rewrite length_app; lia|].
    intros _ Hl b r E. destruct p as [|c [|]]; simpl in Hl; [lia| |lia].
    simplify_eq/=. by apply Hc.
Qed.

(** A header that is not a list header starts one. *)
Lemma header_at_string v h w :
  header_at v h w -> is_list h = false ->
  exists pre p rest, string_at v pre p rest /\ h = mkHeader false (Zlen p) (Zlen pre).
Proof.
  intros Ha Hl. pose proof Ha as Ha'.
  destruct Ha as [b r Hb | lst len w Hlen Hw Hc]; simpl in Hl.
  - exists [], [b], r. split; [|done].
    split; [done| by rewrite rlp_string_literal |done].
  - subst lst. simpl hdr_off in *. set (p := take (Z.to_nat len) w).
    assert (Zlen p = len) as Hp by (unfold p; rewrite length_take; lia).
    exists (rlp_header 128 len), p, (drop (Z.to_nat len) w). unfold p at 1. rewrite Hp.
    split; [|done]. unfold p. split; rewrite ?take_drop; [done| |fold p; by rewrite Hp].
    fold p. rewrite <- Hp. symmetry. apply rlp_string_prefixed. intros b Hb.
    destruct w as [|c w]; [by destruct (Z.to_nat len)|]. apply (Hc eq_refl) with w.
    + by rewrite <- Hp, Hb.
    + unfold p in Hb. destruct (Z.to_nat len); simpl in Hb; by simplify_eq.
Qed.

Lemma PeekHeader_string_cases v :
  (exists e, PeekHeader v = (failure e, v)) \/
  (exists h, PeekHeader v = (success h, v) /\ is_list h = true) \/
  (exists pre p rest, string_at v pre p rest).
Proof.
  destruct (PeekHeader_cases v) as [|(h & w & H)]; [by left|right].
  destruct (is_list h) eqn:El; [left; eauto using PeekHeader_at|right].
  destruct (header_at_string v h w H El) as (pre & p & rest & ? & _). eauto.
Qed.

(** ** The readers on a string item *)

Section on_string.
Context (v pre p rest : ByteView) (Hs : string_at v pre p rest) (Hv : fits v).

Lemma on_string_peek : PeekHeader v = (success (mkHeader false (Zlen p) (Zlen pre)), v).
Proof. eapply PeekHeader_at, Hs. Qed.

Lemma on_string_skip : skip_header_internal v = (success tt, p ++ rest).
Proof. eapply skip_header_internal_spec, Hs. Qed.

Lemma on_string_u64 : u64 (Zlen pre + Zlen p) = Zlen pre + Zlen p.
Proof.
  apply u64_small. destruct Hs as [-> _ _]. unfold fits in Hv. rewrite !length_app in Hv. lia.
Qed.

Lemma on_string_long_enough : Zlen v <? Zlen pre + Zlen p = false.
Proof. apply Z.ltb_ge. destruct Hs as [-> _ _]. rewrite !length_app. lia. Qed.

Lemma on_string_substr {Er} : substr (Er := Er) v (Zlen pre) (Zlen p) = success p.
Proof. destruct Hs as [-> _ _]. by apply substr_prefix. Qed.

Lemma on_string_remove {Er} :
  remove_prefix (Er := Er) (Zlen pre + Zlen p) v = (success tt, rest).
Proof.
  destruct Hs as [-> _ _]. rewrite app_assoc. apply remove_prefix_app. rewrite length_app. lia.
Qed.

(** A one-byte payload behind a prefix is at least 128. *)
Lemma on_string_canonical b : p = [b] -> 0 < Zlen pre -> 128 <= u8 b.
Proof.
  intros Hp Hpre. destruct Hs as [_ Hr _]. rewrite Hp in Hr.
  destruct (decide (u8 b < 128)); [|lia]. rewrite rlp_string_literal in Hr by done.
  apply (f_equal length) in Hr. rewrite length_app in Hr. simpl in Hr. lia.
Qed.

Lemma on_string_literal_prefix b : p = [b] -> u8 b < 128 -> pre = [].
Proof.
  intros Hp Hb. destruct Hs as [_ Hr _]. rewrite Hp, rlp_string_literal in Hr by done.
  apply (f_equal length) in Hr. rewrite length_app in Hr. destruct pre; simpl in *; [done|lia].
Qed.

Lemma read_bytes_string : read_bytes v = (success p, rest).
Proof.
  unfold read_bytes. run. rewrite on_string_peek. run. rewrite on_string_skip.
  rewrite (proj2 (Z.ltb_ge _ _)) by (rewrite length_app; lia).
  by rewrite remove_prefix_app, take_app_Zlen by done.
Qed.

Lemma PeekPayload_string : PeekPayload v = (success p, v).
Proof.
  unfold PeekPayload. run. rewrite on_string_peek. run.
  by rewrite on_string_u64, on_string_long_enough, on_string_substr.
Qed.

Lemma SkipItem_string : SkipItem v = (success tt, rest).
Proof.
  unfold SkipItem. run. rewrite on_string_peek. run. rewrite on_string_skip.
  rewrite (proj2 (Z.ltb_ge _ _)) by (rewrite length_app; lia).
  by rewrite remove_prefix_app by done.
Qed.

Lemma byte_at_0 {Er} b l : byte_at (Er := Er) (b :: l) 0 = success b.
Proof. reflexivity. Qed.

(** The reader of a fixed-width integer returns what the big-endian conversion
    of the payload returns, error included. *)
Lemma read_integral_string size :
  is_sizeof size ->
  let r := from_big_compact (2 ^ (8 * size) - 1) p in
  read_integral size v = (r, match r with success _ => rest | _ => v end).
Proof.
  intros Hsize. unfold read_integral. run. rewrite on_string_peek. run.
  rewrite on_string_substr, on_string_u64, on_string_long_enough.
  pose proof (on_string_remove (Er := DecodingError)) as Hrem.
  pose proof on_string_canonical as Hcan.
  assert (0 < size <= 8) as Hs8 by (unfold is_sizeof in Hsize; lia).
  destruct p as [|b0 [|b1 l]] eqn:Ep; rewrite ?Ep in Hrem.
  - change (Zlen (@nil byte)) with 0 in *. rewrite (proj2 (Z.ltb_ge size 0)) by lia.
    change (1 <? 0) with false. change (0 =? 1) with false. cbn [andb]. cbv beta iota.
    by rewrite Hrem.
  - change (Zlen [b0]) with 1 in *. change (1 <? 1) with false. change (1 =? 1) with true. cbn [andb].
    rewrite (proj2 (Z.ltb_ge size 1)) by lia. rewrite byte_at_0.
    destruct (Z.ltb_spec 0 (Zlen pre)) as [Hpre|Hpre].
    + pose proof (Hcan b0 eq_refl Hpre).
      rewrite (proj2 (Z.ltb_ge _ _)) by (unfold kRlpSingleByteThreshold; lia).
      destruct (from_big_compact _ _); cbv beta iota; by rewrite ?Hrem.
    + destruct (from_big_compact _ _); cbv beta iota; by rewrite ?Hrem.
  - rewrite (proj2 (Z.ltb_lt 1 _)) by (simpl length; lia). rewrite byte_at_0.
    unfold from_big_compact. rewrite (proj2 (Z.ltb_lt 1 _)) by (simpl length; lia).
    destruct (Z.eqb_spec (u8 b0) 0) as [|Hb0]; [done|]. rewrite andb_false_r. cbn [andb].
    rewrite (proj2 (Z.eqb_neq _ 1)) by (simpl length; lia). cbn [andb].
    unfold be_load. rewrite be_val_padded.
    destruct (Z.ltb_spec size (Zlen (b0 :: b1 :: l))) as [Hov|Hov].
    + assert (2 ^ (8 * size) - 1 < be_val (b0 :: b1 :: l)) as Hbig.
      { rewrite be_val_cons. pose proof (be_val_range (b1 :: l)). pose proof (u8_range b0).
        assert (256 ^ size <= 256 ^ Zlen (b1 :: l)).
        { apply Z.pow_le_mono_r; [lia|]. simpl length in *. lia. }
        rewrite Z.pow_mul_r by lia. change (2 ^ 8) with 256. nia. }
      rewrite (proj2 (Z.ltb_lt _ (be_val _))) by done. by case_match.
    + rewrite Hrem. destruct (32 <? _); [done|]. by destruct (_ <? be_val _).
Qed.

Lemma read_uint256_string :
  let r := from_big_compact_u256 p in
  read_uint256 v = (r, match r with success _ => rest | _ => v end).
Proof.
  unfold read_uint256. run. rewrite on_string_peek. run.
  rewrite on_string_substr, on_string_u64, on_string_long_enough.
  pose proof (on_string_remove (Er := DecodingError)) as Hrem.
  pose proof on_string_canonical as Hcan.
  destruct p as [|b0 [|b1 l]] eqn:Ep; rewrite ?Ep in Hrem.
  - change (1 <? Zlen (@nil byte)) with false. change (Zlen (@nil byte) =? 1) with false.
    change (32 <? Zlen (@nil byte)) with false. cbn [andb from_big_compact_u256]. cbv beta iota.
    by rewrite Hrem.
  - change (Zlen [b0]) with 1 in *. change (1 <? 1) with false. change (1 =? 1) with true. cbn [andb].
    change (32 <? 1) with false. cbv iota.
    destruct (from_big_compact_u256 [b0]) as [n|e|f] eqn:E; [|done|done].
    destruct (Z.ltb_spec 0 (Zlen pre)) as [Hpre|Hpre]; [|rewrite andb_false_r; cbv beta iota; by rewrite Hrem].
    pose proof (Hcan b0 eq_refl Hpre).
    rewrite from_big_compact_u256_eq in E. apply from_big_compact_spec in E as [Hn [E|[_ E]]];
      [|simplify_eq; by change (u8 x00) with 0 in *|lia].
    symmetry in E. apply be_min_single in E; [|lia].
    rewrite (proj2 (Z.ltb_ge _ _)) by (unfold kRlpSingleByteThreshold; lia).
    cbn [andb]; cbv beta iota. by rewrite Hrem.
  - rewrite (proj2 (Z.ltb_lt 1 _)) by (simpl length; lia). rewrite byte_at_0.
    unfold from_big_compact_u256. rewrite (proj2 (Z.ltb_lt 1 _)) by (simpl length; lia).
    destruct (Z.eqb_spec (u8 b0) 0) as [|Hb0]; [done|]. rewrite andb_false_r. cbn [andb].
    rewrite (proj2 (Z.eqb_neq _ 1)) by (simpl length; lia). cbn [andb].
    case_match; cbv beta iota; by rewrite ?Hrem.
Qed.

Lemma read_bool_string :
  read_bool v = match p with
                | [] => (success false, rest)
                | [b] => if u8 b =? 1 then (success true, rest)
                         else if u8 b =? 0 then (success false, rest) else (failure kOverflow, v)
                | _ => (failure kOverflow, v)
                end.
Proof.
  unfold read_bool. run. rewrite on_string_peek. run.
  rewrite on_string_substr, on_string_u64, on_string_long_enough.
  pose proof (on_string_remove (Er := DecodingError)) as Hrem.
  pose proof on_string_canonical as Hcan.
  destruct p as [|b0 [|b1 l]] eqn:Ep; rewrite ?Ep in Hrem.
  - destruct Hs as [Ev Hr _]. rewrite app_nil_r in Hr. change (rlp_string []) with [x80] in Hr.
    assert (byte_at (Er := DecodingError) v 0 = success x80) as -> by (by rewrite Ev, Hr).
    assert (Zlen pre =? 1 = true) as -> by (by rewrite Hr).
    change (Zlen (@nil byte) =? 1) with false. change (Zlen (@nil byte) =? 0) with true.
    change (u8 x80 =? kEmptyStringCode) with true. cbn [andb]. cbv beta iota. by rewrite Hrem.
  - change (Zlen [b0] =? 1) with true. cbv iota. rewrite byte_at_0.
    destruct (u8 b0 =? 1); cbv beta iota; [by rewrite Hrem|].
    destruct (u8 b0 =? 0); cbv beta iota; [by rewrite Hrem|done].
  - rewrite (proj2 (Z.eqb_neq _ 1)) by (simpl length; lia).
    rewrite (proj2 (Z.eqb_neq (Zlen (b0 :: b1 :: l)) 0)) by (simpl length; lia). done.
Qed.

Lemma read_array_string N :
  read_array N v = if Zlen p =? N then (success p, rest) else (failure kUnexpectedLength, v).
Proof.
  unfold read_array. run. rewrite on_string_peek. run.
  destruct (Z.eqb_spec (Zlen p) N) as [E|E]; cbn [negb andb].
  - rewrite on_string_skip, <- E. rewrite (proj2 (Z.ltb_ge _ _)) by (rewrite length_app; lia).
    by rewrite remove_prefix_app, take_app_Zlen by done.
  - destruct (Z.eqb_spec N 1) as [->|]; [|done]. by rewrite (proj2 (Z.eqb_neq (Zlen p) 1)) by done.
Qed.
End on_string.

(** ** Exact behaviour of the readers *)

(** [m] reads a string item and returns [f] of its payload; an error leaves the
    view where it was. *)
Record string_reader {A} (m : Dec A) (f : list byte -> outcome DecodingError A) : Prop := {
  reader_other v : (exists e, m v = (failure e, v)) \/ (exists pre p rest, string_at v pre p rest);
  reader_string v pre p rest :
    fits v -> string_at v pre p rest ->
    m v = (f p, match f p with success _ => rest | _ => v end)
}.

Lemma string_reader_other {A} (k : Header -> Dec A) v :
  (exists e, (h ← PeekHeader; if is_list h then fail kUnexpectedList else k h) v = (failure e, v)) \/
  (exists pre p rest, string_at v pre p rest).
Proof.
  destruct (PeekHeader_string_cases v) as [[e E]|[(h & E & Hl)|?]]; [left..|by right].
  - exists e. by apply bind_failure.
  - exists kUnexpectedList. by rewrite (bind_success _ _ _ _ _ E), Hl.
Qed.

Lemma string_reader_iff {A} (m : Dec A) f v a w :
  string_reader m f -> fits v ->
  m v = (success a, w) <-> exists p, f p = success a /\ v = rlp_string p ++ w.
Proof.
  intros [Ho Hst] Hv. split.
  - intros E. destruct (Ho v) as [[e E']|(pre & p & rest & Hs)]; [by rewrite E in E'|].
    rewrite (Hst _ _ _ _ Hv Hs) in E. destruct (f p) eqn:Ef; simplify_eq.
    exists p. split; [done|]. destruct Hs as [-> <- _]. by rewrite app_assoc.
  - intros (p & Ef & ->). destruct (string_at_rlp_string p w) as [pre Hs].
    { unfold fits in Hv. rewrite length_app in Hv. pose proof (rlp_string_length_ge p). lia. }
    rewrite (Hst _ _ _ _ Hv Hs). by rewrite Ef.
Qed.

Definition array_payload (N : Z) (p : list byte) : outcome DecodingError (list byte) :=
  if Zlen p =? N then success p else failure kUnexpectedLength.

Definition bool_payload (p : list byte) : outcome DecodingError bool :=
  match p with
  | [] => success false
  | [b] => if u8 b =? 1 then success true
           else if u8 b =? 0 then success false else failure kOverflow
  | _ => failure kOverflow
  end.

Lemma read_bytes_reader : string_reader read_bytes success.
Proof.
  split; [apply string_reader_other|]. intros v pre p rest _ Hs. by apply read_bytes_string with pre.
Qed.

Lemma read_uint256_reader : string_reader read_uint256 from_big_compact_u256.
Proof.
  split; [apply string_reader_other|]. intros v pre p rest Hv Hs.
  by apply read_uint256_string with pre.
Qed.

Lemma read_integral_reader size :
  is_sizeof size -> string_reader (read_integral size) (from_big_compact (2 ^ (8 * size) - 1)).
Proof.
  intros Hz. split; [apply string_reader_other|]. intros v pre p rest Hv Hs.
  by apply read_integral_string with pre.
Qed.

Lemma read_array_reader N : string_reader (read_array N) (array_payload N).
Proof.
  split; [apply string_reader_other|]. intros v pre p rest _ Hs.
  rewrite (read_array_string _ _ _ _ Hs). unfold array_payload. by case_match.
Qed.

Lemma read_bool_reader : string_reader read_bool bool_payload.
Proof.
  split; [apply string_reader_other|]. intros v pre p rest Hv Hs.
  rewrite (read_bool_string _ _ _ _ Hs Hv). unfold bool_payload. by repeat case_match.
Qed.

Lemma read_bytes_iff v bs w :
  fits v -> read_bytes v = (success bs, w) <-> v = rlp_string bs ++ w.
Proof.
  intros Hv. rewrite (string_reader_iff _ _ _ _ _ read_bytes_reader Hv). split.
  - by intros (? & [= ->] & ->).
  - eauto.
Qed.

Lemma from_big_compact_rlp max v n w :
  0 <= max < 2 ^ 256 ->
  (exists p, from_big_compact max p = success n /\ v = rlp_string p ++ w) <->
  0 <= n <= max /\ (v = rlp_uint n ++ w \/ (n = 0 /\ v = x00 :: w)).
Proof.
  intros Hmax. split.
  - intros (p & Hp%from_big_compact_spec & ->); [|done].
    destruct Hp as [? [->|[-> ->]]]; [by auto|]. split; [done|]. by right.
  - intros [Hn [->|[-> ->]]].
    + exists (be_min n). split; [|done]. apply from_big_compact_spec; [done|]. auto.
    + exists [x00]. split; [|done]. apply from_big_compact_spec; [done|]. auto.
Qed.

Lemma read_integral_iff size v n w :
  is_sizeof size -> fits v ->
  read_integral size v = (success n, w) <->
  0 <= n < 2 ^ (8 * size) /\ (v = rlp_uint n ++ w \/ (n = 0 /\ v = x00 :: w)).
Proof.
  intros Hz Hv. rewrite (string_reader_iff _ _ _ _ _ (read_integral_reader size Hz) Hv).
  rewrite from_big_compact_rlp; [|by destruct Hz as [-> | [-> | [-> | ->]]]].
  split; intros [? ?]; (split; [lia|done]).
Qed.

Lemma read_uint256_iff v n w :
  fits v ->
  read_uint256 v = (success n, w) <->
  0 <= n < 2 ^ 256 /\ (v = rlp_uint n ++ w \/ (n = 0 /\ v = x00 :: w)).
Proof.
  intros Hv. rewrite (string_reader_iff _ _ _ _ _ read_uint256_reader Hv).
  setoid_rewrite from_big_compact_u256_eq. rewrite from_big_compact_rlp by lia.
  split; intros [? ?]; (split; [lia|done]).
Qed.

Lemma read_array_iff N v bs w :
  fits v -> read_array N v = (success bs, w) <-> Zlen bs = N /\ v = rlp_string bs ++ w.
Proof.
  intros Hv. rewrite (string_reader_iff _ _ _ _ _ (read_array_reader N) Hv). unfold array_payload. split.
  - intros (p & Hp & ->). destruct (Z.eqb_spec (Zlen p) N); by simplify_eq.
  - intros [<- ->]. exists bs. by rewrite Z.eqb_refl.
Qed.

Lemma read_bool_iff v b w :
  fits v ->
  read_bool v = (success b, w) <-> v = rlp_bool b ++ w \/ (b = false /\ v = x00 :: w).
Proof.
  intros Hv. rewrite (string_reader_iff _ _ _ _ _ read_bool_reader Hv). split.
  - intros (p & Hp & ->). destruct p as [|c [|]]; simpl in Hp; [simplify_eq; by left| |done].
    destruct (Z.eqb_spec (u8 c) 1) as [E|E]; [simplify_eq; left|].
    { by assert (c = x01) as -> by (by apply u8_inj). }
    destruct (Z.eqb_spec (u8 c) 0) as [E'|E']; [simplify_eq; right|done].
    by assert (c = x00) as -> by (by apply u8_inj).
  - intros [->|[-> ->]].
    + exists (if b then [x01] else []). by destruct b.
    + by exists [x00].
Qed.

(** ** Lists *)

Lemma header_at_list v h w :
  header_at v h w -> is_list h = true ->
  v = rlp_header 192 (payload_size_bytes h) ++ w /\ 0 <= payload_size_bytes h <= Zlen w.
Proof. intros [|lst len w' ? ? ?]; simpl; [done|]. intros ->. split; [done|lia]. Qed.

Lemma ReadListHeaderBytes_iff v n w :
  fits v ->
  ReadListHeaderBytes v = (success n, w) <-> v = rlp_header 192 n ++ w /\ 0 <= n <= Zlen w.
Proof.
  intros Hv. split.
  - unfold ReadListHeaderBytes. intros (h & v1 & E1 & E2)%bind_success_inv.
    destruct (PeekHeader_cases v) as [[e E]|(h' & w' & Ha)]; [by rewrite E in E1|].
    rewrite (PeekHeader_at _ _ _ Ha) in E1. simplify_eq.
    destruct (is_list h) eqn:El; [|done]. simpl in E2.
    rewrite (bind_success _ _ _ _ _ (skip_header_internal_spec _ _ _ Ha)) in E2.
    injection E2 as <- <-. by apply header_at_list.
  - intros [-> Hn]. assert (n < 2 ^ 64).
    { unfold fits in Hv. rewrite length_app in Hv. lia. }
    pose proof (at_prefixed true n w ltac:(lia) ltac:(lia) ltac:(done)) as Ha. simpl in Ha.
    unfold ReadListHeaderBytes. rewrite (bind_success _ _ _ _ _ (PeekHeader_at _ _ _ Ha)). simpl.
    by rewrite (bind_success _ _ _ _ _ (skip_header_internal_spec _ _ _ Ha)).
Qed.

Lemma list_header_at p w :
  fits (rlp_list p ++ w) ->
  header_at (rlp_list p ++ w) (mkHeader true (Zlen p) (Zlen (rlp_header 192 (Zlen p)))) (p ++ w).
Proof.
  unfold fits, rlp_list. rewrite <- app_assoc, !length_app. intros.
  apply (at_prefixed true); [lia|rewrite length_app; lia|done].
Qed.

Lemma SkipItem_list v h w :
  header_at v h w -> is_list h = true ->
  SkipItem v = (success tt, drop (Z.to_nat (payload_size_bytes h)) w).
Proof.
  intros Ha Hl. unfold SkipItem. rewrite (bind_success _ _ _ _ _ (PeekHeader_at _ _ _ Ha)).
  rewrite (bind_success _ _ _ _ _ (skip_header_internal_spec _ _ _ Ha)). run.
  destruct (header_at_list _ _ _ Ha Hl) as [_ Hn]. unfold remove_prefix.
  by rewrite !(proj2 (Z.ltb_ge _ _)) by lia.
Qed.

(** [SkipItem] drops exactly one item: a string or a list with its payload. *)
Lemma SkipItem_iff v w :
  fits v ->
  SkipItem v = (success tt, w) <->
  (exists bs, v = rlp_string bs ++ w) \/ (exists p, v = rlp_list p ++ w).
Proof.
  intros Hv. split.
  - intros E. destruct (PeekHeader_cases v) as [[e E']|(h & w' & Ha)].
    { unfold SkipItem in E. by rewrite (bind_failure _ _ _ _ _ E') in E. }
    destruct (is_list h) eqn:El; [right|left].
    + rewrite (SkipItem_list _ _ _ Ha El) in E. injection E as <-.
      destruct (header_at_list _ _ _ Ha El) as [-> Hn].
      exists (take (Z.to_nat (payload_size_bytes h)) w'). unfold rlp_list.
      rewrite <- app_assoc, take_drop, length_take. do 2 f_equal. lia.
    + destruct (header_at_string _ _ _ Ha El) as (pre & p & rest & Hs & _).
      rewrite (SkipItem_string _ _ _ _ Hs) in E. injection E as <-.
      exists p. destruct Hs as [-> <- _]. by rewrite app_assoc.
  - intros [[bs ->]|[p ->]].
    + destruct (string_at_rlp_string bs w) as [pre Hs]; [|by apply SkipItem_string with pre bs].
      unfold fits in Hv. rewrite length_app in Hv. pose proof (rlp_string_length_ge bs). lia.
    + rewrite (SkipItem_list _ _ _ (list_header_at p w Hv) eq_refl). simpl.
      by rewrite drop_app_Zlen.
Qed.

(** ** Theorems *)

(** C24: The header decoder accepts exactly the canonical headers whose payload
    lies inside the input (shortest length form, no leading zero, no prefix on a
    byte below 128), returns their fields and leaves the view behind the header;
    on no input does it read outside the view. *)
Theorem decode_header_exact (v : ByteView) :
  (forall h w, decode_header_impl v = (success h, w) <-> header_at v h w) /\
  no_crash (decode_header_impl v).1.
Proof. split; [intros; apply decode_header_impl_iff|apply decode_header_impl_no_crash]. Qed.

(** [read(Bytes&)] succeeds exactly on the canonical encoding of a string,
    returns that string and consumes exactly its encoding. *)
Theorem read_bytes_exact (v bs w : ByteView) :
  fits v -> read_bytes v = (success bs, w) <-> v = rlp_string bs ++ w.
Proof. apply read_bytes_iff. Qed.

Lemma read_bytes_exact_witness : read_bytes [x83; x63; x61; x74; x01] = (success [x63; x61; x74], [x01]).
Proof. by apply (read_bytes_exact [x83; x63; x61; x74; x01] [x63; x61; x74] [x01]). Defined.

(** Reading an unsigned integer of 8 to 64 bits, or of 256 bits, succeeds
    exactly on the canonical encoding of a value in range, and on the single
    byte 0x00, which it reads as zero. *)
Theorem read_uint_exact (size : Z) (v : ByteView) (n : Z) (w : ByteView) :
  is_sizeof size -> fits v ->
  (read_integral size v = (success n, w) <->
    0 <= n < 2 ^ (8 * size) /\ (v = rlp_uint n ++ w \/ (n = 0 /\ v = x00 :: w))) /\
  (read_uint256 v = (success n, w) <->
    0 <= n < 2 ^ 256 /\ (v = rlp_uint n ++ w \/ (n = 0 /\ v = x00 :: w))).
Proof. intros Hs Hv. split; [by apply read_integral_iff|by apply read_uint256_iff]. Qed.

Lemma read_uint_exact_witness :
  read_integral 2 [x82; x04; x00; x7f] = (success 0x400, [x7f]) /\
  read_uint256 [x82; x04; x00; x7f] = (success 0x400, [x7f]).
Proof.
  split.
  - apply (read_uint_exact 2 [x82; x04; x00; x7f] 0x400 [x7f]); [by right; left|done|].
    split; [done|by left].
  - apply (read_uint_exact 2 [x82; x04; x00; x7f] 0x400 [x7f]); [by right; left|done|].
    split; [done|by left].
Defined.

(** Reading into a fixed array of [N] bytes succeeds exactly on the encoding of
    a string of [N] bytes; reading a boolean exactly on the encoding of one, and
    on 0x00. *)
Theorem read_array_bool_exact (N : Z) (v bs w : ByteView) (b : bool) :
  fits v ->
  (read_array N v = (success bs, w) <-> Zlen bs = N /\ v = rlp_string bs ++ w) /\
  (read_bool v = (success b, w) <-> v = rlp_bool b ++ w \/ (b = false /\ v = x00 :: w)).
Proof. intros Hv. split; [by apply read_array_iff|by apply read_bool_iff]. Qed.

Lemma read_array_bool_exact_witness :
  read_array 4 [x84; x01; x02; x03; x04] = (success [x01; x02; x03; x04], []) /\
  read_bool [x01; x05] = (success true, [x05]).
Proof.
  split.
  - by apply (read_array_bool_exact 4 [x84; x01; x02; x03; x04] [x01; x02; x03; x04] [] true).
  - apply (read_array_bool_exact 4 [x01; x05] [] [x05] true); [done|by left].
Defined.

(** [ReadListHeaderBytes] succeeds exactly on a canonical list header whose
    payload is present, and [SkipItem] removes exactly one item: a string, or a
    list with its payload. *)
Theorem list_and_skip_exact (v w : ByteView) (n : Z) :
  fits v ->
  (ReadListHeaderBytes v = (success n, w) <-> v = rlp_header 192 n ++ w /\ 0 <= n <= Zlen w) /\
  (SkipItem v = (success tt, w) <->
    (exists bs, v = rlp_string bs ++ w) \/ (exists p, v = rlp_list p ++ w)).
Proof. intros Hv. split; [by apply ReadListHeaderBytes_iff|by apply SkipItem_iff]. Qed.

Lemma list_and_skip_exact_witness :
  ReadListHeaderBytes [xc2; x01; x02; x03] = (success 2, [x01; x02; x03]) /\
  SkipItem [xc2; x01; x02; x03] = (success tt, [x03]).
Proof.
  split.
  - by apply (list_and_skip_exact [xc2; x01; x02; x03] [x01; x02; x03] 2).
  - apply (list_and_skip_exact [xc2; x01; x02; x03] [x03] 2); [done|]. right. by exists [x01; x02].
Defined.
