(* ===== verification/DecodeLogic.v ===== *)
(** * A logic for decoders

    The message decoders of [src/eth] are straight-line programs over
    [RlpDecoder] with three idioms: a read whose error is replaced, a list
    header followed by the computation of the number of bytes that must remain
    after the payload, and a loop that runs until that number is reached.  This
    file gives the idioms a definition and two sets of rules:

    - [eats m bs a rest]: on [bs] followed by [rest], [m] returns [a] and leaves
      exactly [rest] (round trips are proved with these rules);
    - [safe m Q]: on every view [m] returns, never faults, leaves a suffix of
      the view, and a returned value satisfies [Q] (absence of undefined
      behaviour, termination and well-formedness of what was decoded). *)

From S2P Require Import Prelude RlpSpec RlpCommon RlpDecoder.

(** ** The idioms *)

(** [decoder.Remaining().size()]. *)
Definition remaining_size {Er} : M ByteView Er Z := v ← view; mret (Zlen v).

(** [while (decoder.Remaining().size() > target) { out.push_back(body()); }]
    with early return on an error.  One unit of fuel per iteration; running out
    of it is recorded as divergence. *)
Fixpoint while_fuel {Er A} (fuel : nat) (target : Z) (body : M ByteView Er A) : M ByteView Er (list A) :=
  match fuel with
  | O => crash_with Diverge
  | S fuel' =>
      r ← remaining_size;
      if target <? r then
        x ← body; xs ← while_fuel fuel' target body; mret (x :: xs)
      else mret []
  end.

(** Every iteration of a loop that makes progress consumes a byte, so one more
    unit than there are bytes is enough. *)
Definition while_above {Er A} (target : Z) (body : M ByteView Er A) : M ByteView Er (list A) :=
  v ← view; while_fuel (S (length v)) target body.

(** [if (decoder.Remaining().size() != target) return e;] *)
Definition expect_remaining {Er} (target : Z) (e : Er) : M ByteView Er unit :=
  r ← remaining_size; if r =? target then mret tt else fail e.

(** [if (!decoder.IsFinished()) return e;] *)
Definition expect_finished {Er} (e : Er) : M ByteView Er unit :=
  b ← IsFinished; if (b : bool) then mret tt else fail e.

(** The list header, and the number of bytes that remain after the payload. *)
Definition list_target : Dec Z :=
  payload_size ← ReadListHeaderBytes;
  start_remaining ← remaining_size;
  mret (u64 (start_remaining - payload_size)).

(** A whole list of items. *)
Definition list_of {A} (body : Dec A) : Dec (list A) :=
  target_remaining ← list_target;
  xs ← while_above target_remaining body;
  expect_remaining target_remaining kListLengthMismatch ;;
  mret xs.

Lemma remaining_size_eq {Er} v : remaining_size (Er := Er) v = (success (Zlen v), v).
Proof. done. Qed.

(** A decoder constructed on a view of its own. *)
Definition run_decoder {Er A} (m : M ByteView Er A) (data : ByteView) : outcome Er A := (m data).1.

(** ** Exact consumption *)

Definition eats {Er A} (m : M ByteView Er A) (bs : list byte) (a : A) (rest : ByteView) : Prop :=
  fits (bs ++ rest) -> m (bs ++ rest) = (success a, rest).

(** ... whatever follows. *)
Definition consumes {Er A} (m : M ByteView Er A) (bs : list byte) (a : A) : Prop :=
  forall rest, eats m bs a rest.

Lemma fits_app_r v w : fits (v ++ w) -> fits w.
Proof. apply fits_suffix. by exists v. Qed.

Lemma fits_app_l v w : fits (v ++ w) -> fits v.
Proof. unfold fits. rewrite length_app. lia. Qed.

Section eats_rules.
Context {Er : Type}.

Lemma eats_ret {A} (a : A) rest : eats (Er := Er) (mret a) [] a rest.
Proof. by intros _. Qed.

Lemma eats_bind {A B} (m : M ByteView Er A) (k : A -> M ByteView Er B) b1 b2 a c rest :
  eats m b1 a (b2 ++ rest) -> eats (k a) b2 c rest -> eats (m ≫= k) (b1 ++ b2) c rest.
Proof.
  unfold eats. rewrite <- app_assoc. intros H1 H2 Hf. rewrite (bind_success _ _ _ _ _ (H1 Hf)).
  apply H2. by eapply fits_app_r.
Qed.

(** A first step that consumes nothing. *)
Lemma eats_bind_0 {A B} (m : M ByteView Er A) (k : A -> M ByteView Er B) bs a c rest :
  eats m [] a (bs ++ rest) -> eats (k a) bs c rest -> eats (m ≫= k) bs c rest.
Proof. apply (eats_bind m k [] bs). Qed.

(** A last step. *)
Lemma eats_bind_last {A B} (m : M ByteView Er A) (k : A -> M ByteView Er B) bs a c rest :
  eats m bs a rest -> eats (k a) [] c rest -> eats (m ≫= k) bs c rest.
Proof. intros H1 H2. rewrite <- (app_nil_r bs). by eapply eats_bind. Qed.

Lemma eats_or_fail {E' A} (m : M ByteView E' A) (e : Er) bs a rest :
  eats m bs a rest -> eats (or_fail m e) bs a rest.
Proof. intros H Hf. unfold or_fail. by rewrite H. Qed.

Lemma eats_expect_remaining target (e : Er) rest :
  target = Zlen rest -> eats (expect_remaining target e) [] tt rest.
Proof.
  intros -> _. unfold expect_remaining, remaining_size. run. by rewrite Z.eqb_refl.
Qed.

Lemma eats_expect_finished (e : Er) : eats (expect_finished e) [] tt [].
Proof. by intros _. Qed.

(** A loop over the encodings of [l], the body making [val x] of [x]. *)
Lemma eats_while_fuel {A B} (body : M ByteView Er B) (enc : A -> list byte) (val : A -> B) l rest fuel :
  (forall x, x ∈ l -> consumes body (enc x) (val x) /\ enc x <> []) ->
  (length l < fuel)%nat ->
  eats (while_fuel fuel (Zlen rest) body) (concat (map enc l)) (map val l) rest.
Proof.
  revert fuel. induction l as [|x l IH]; intros fuel Hl Hfuel Hf; destruct fuel as [|fuel]; try lia;
    cbn [while_fuel map concat]; unfold remaining_size; run.
  - simpl. by rewrite (proj2 (Z.ltb_ge _ _)) by lia.
  - destruct (Hl x) as [Hx Hne]; [by left|].
    assert (enc x ++ concat (map enc l) ++ rest = (enc x ++ concat (map enc l)) ++ rest) as Ha
      by (by rewrite app_assoc).
    rewrite (proj2 (Z.ltb_lt _ _)).
    2: { rewrite !length_app. destruct (enc x); [done|]. simpl. lia. }
    cbn [map concat] in Hf. rewrite <- Ha in *. rewrite (Hx _ Hf).
    rewrite IH; [done|intros; apply Hl; by right|simpl in Hfuel; lia|by eapply fits_app_r].
Qed.

Lemma concat_map_length_ge {A} (enc : A -> list byte) l :
  (forall x, x ∈ l -> enc x <> []) -> (length l <= length (concat (map enc l)))%nat.
Proof.
  induction l as [|x l IH]; intros Hne; simpl; [lia|]. rewrite length_app.
  specialize (Hne x ltac:(by left)) as Hx. destruct (enc x); [done|].
  specialize (IH ltac:(intros; apply Hne; by right)). simpl. lia.
Qed.

Lemma eats_while_map {A B} (body : M ByteView Er B) (enc : A -> list byte) (val : A -> B) l target rest :
  target = Zlen rest ->
  (forall x, x ∈ l -> consumes body (enc x) (val x) /\ enc x <> []) ->
  eats (while_above target body) (concat (map enc l)) (map val l) rest.
Proof.
  intros -> Hl Hf. unfold while_above. run. apply (eats_while_fuel _ enc); [done| |done].
  rewrite length_app. pose proof (concat_map_length_ge enc l) as H.
  specialize (H ltac:(intros; by apply Hl)). lia.
Qed.

Lemma eats_while_above {A} (body : M ByteView Er A) (enc : A -> list byte) l target rest :
  target = Zlen rest ->
  (forall x, x ∈ l -> consumes body (enc x) x /\ enc x <> []) ->
  eats (while_above target body) (concat (map enc l)) l rest.
Proof. intros Ht Hl. rewrite <- (map_id l) at 2. by apply eats_while_map. Qed.
End eats_rules.

Lemma consumes_read_bytes bs : consumes read_bytes (rlp_string bs) bs.
Proof. intros rest Hf. by apply read_bytes_iff. Qed.

Lemma consumes_read_array N bs : Zlen bs = N -> consumes (read_array N) (rlp_string bs) bs.
Proof. intros Hl rest Hf. by apply read_array_iff. Qed.

Lemma consumes_read_integral size n :
  is_sizeof size -> 0 <= n < 2 ^ (8 * size) -> consumes (read_integral size) (rlp_uint n) n.
Proof. intros Hs Hn rest Hf. apply read_integral_iff; auto. Qed.

Lemma consumes_read_uint256 n : 0 <= n < 2 ^ 256 -> consumes read_uint256 (rlp_uint n) n.
Proof. intros Hn rest Hf. apply read_uint256_iff; auto. Qed.

Lemma consumes_read_bool b : consumes read_bool (rlp_bool b) b.
Proof. intros rest Hf. apply read_bool_iff; auto. Qed.

Lemma eats_ReadListHeaderBytes p rest :
  eats ReadListHeaderBytes (rlp_header 192 (Zlen p)) (Zlen p) (p ++ rest).
Proof.
  intros Hf. apply ReadListHeaderBytes_iff; [done|]. split; [done|]. rewrite length_app. lia.
Qed.

Lemma eats_list_target p rest : eats list_target (rlp_header 192 (Zlen p)) (Zlen rest) (p ++ rest).
Proof.
  intros Hf. unfold list_target. rewrite (bind_success _ _ _ _ _ (eats_ReadListHeaderBytes p rest Hf)).
  unfold remaining_size. run. do 2 f_equal. rewrite length_app.
  replace (Zlen p + Zlen rest) with (Zlen rest + Zlen p) by lia.
  rewrite Nat2Z.inj_add. replace (Zlen p + Zlen rest - Zlen p) with (Zlen rest) by lia.
  f_equal. apply u64_small. apply fits_app_r in Hf. unfold fits in Hf. rewrite length_app in Hf. lia.
Qed.

(** A list whose payload is handled by the continuation, which is told how many
    bytes follow it. *)
Lemma eats_list {A} (k : Z -> Dec A) p a rest :
  eats (k (Zlen rest)) p a rest -> eats (t ← list_target; k t) (rlp_list p) a rest.
Proof. intros H. unfold rlp_list. by eapply eats_bind; [apply eats_list_target|]. Qed.

(** A list whose header only is read. *)
Lemma eats_list_header {A} (k : Z -> Dec A) p a rest :
  eats (k (Zlen p)) p a rest -> eats (n ← ReadListHeaderBytes; k n) (rlp_list p) a rest.
Proof. intros H. unfold rlp_list. by eapply eats_bind; [apply eats_ReadListHeaderBytes|]. Qed.

Lemma consumes_list_of {A} (body : Dec A) (enc : A -> list byte) l :
  (forall x, x ∈ l -> consumes body (enc x) x /\ enc x <> []) ->
  consumes (list_of body) (rlp_list (concat (map enc l))) l.
Proof.
  intros Hl rest. apply eats_list. eapply eats_bind_last; [by apply (eats_while_above body enc)|].
  eapply eats_bind_0; [by apply eats_expect_remaining|]. apply eats_ret.
Qed.

Lemma eats_SkipItem_string bs rest : eats SkipItem (rlp_string bs) tt rest.
Proof. intros Hf. apply SkipItem_iff; eauto. Qed.

Lemma eats_SkipItem_list p rest : eats SkipItem (rlp_list p) tt rest.
Proof. intros Hf. apply SkipItem_iff; eauto. Qed.

Lemma consumes_SkipItem i : consumes SkipItem (rlp_encode i) tt.
Proof. intros rest. destruct i; [apply eats_SkipItem_string|apply eats_SkipItem_list]. Qed.

(** Skipping items up to the end of the view. *)
Lemma eats_skip_items l : eats (while_above 0 SkipItem) (concat (map rlp_encode l)) (map (fun _ => tt) l) [].
Proof.
  apply eats_while_map; [done|]. intros i _. split; [apply consumes_SkipItem|].
  intros E. pose proof (rlp_encode_pos i) as H. rewrite E in H. simpl in H. lia.
Qed.

(** Running a decoder on exactly the bytes it consumes. *)
Lemma run_decoder_eats {Er A} (m : M ByteView Er A) bs a :
  fits bs -> eats m bs a [] -> run_decoder m bs = success a.
Proof.
  unfold eats, run_decoder. rewrite app_nil_r. intros Hf H. by rewrite H.
Qed.

(** ** Safety *)

(** On every view [m] returns without a fault and leaves a suffix of the view;
    a successful call consumes at least [n] bytes and its value satisfies [Q]. *)
Definition safe {Er A} (n : nat) (m : M ByteView Er A) (Q : A -> Prop) : Prop :=
  forall v, fits v ->
  match m v with
  | (success a, w) => w `suffix_of` v /\ (n + length w <= length v)%nat /\ Q a
  | (failure _, w) => w `suffix_of` v
  | (crash _, _) => False
  end.

Section safe_rules.
Context {Er : Type}.

Lemma safe_weaken {A} n n' (m : M ByteView Er A) (Q Q' : A -> Prop) :
  safe n m Q -> (n' <= n)%nat -> (forall a, Q a -> Q' a) -> safe n' m Q'.
Proof.
  intros H Hn HQ v Hv. specialize (H v Hv). destruct (m v) as [[a|e|f] w]; [|done|done].
  destruct H as (? & ? & ?). split; [done|]. split; [lia|auto].
Qed.

Lemma safe_ret {A} (a : A) (Q : A -> Prop) : Q a -> safe (Er := Er) 0 (mret a) Q.
Proof. intros H v _. split; [done|]. split; [lia|done]. Qed.

Lemma safe_fail {A} n (e : Er) (Q : A -> Prop) : safe n (fail e) Q.
Proof. intros v _. by cbn. Qed.

Lemma safe_lift {A} (r : outcome Er A) (Q : A -> Prop) :
  no_crash r -> (forall a, r = success a -> Q a) -> safe 0 (lift r) Q.
Proof.
  intros Hr HQ v _. unfold lift. destruct r; [|done|done].
  split; [done|]. split; [lia|by apply HQ].
Qed.

Lemma safe_bind {A B} n1 n2 n (m : M ByteView Er A) (k : A -> M ByteView Er B) Q1 Q2 :
  safe n1 m Q1 -> (forall a, Q1 a -> safe n2 (k a) Q2) -> (n <= n1 + n2)%nat -> safe n (m ≫= k) Q2.
Proof.
  intros H1 H2 Hn v Hv. specialize (H1 v Hv). unfold mbind, M_bind.
  destruct (m v) as [[a|e|f] w]; [|done|done]. destruct H1 as (Hs & Hl & HQ).
  specialize (H2 a HQ w (fits_suffix _ _ Hs Hv)).
  destruct (k a w) as [[b|e|f] w']; [|by transitivity w|done].
  destruct H2 as (? & ? & ?). split; [by transitivity w|]. split; [lia|done].
Qed.

(** The first step consumes what is claimed, the rest need not consume. *)
Lemma safe_bind_l {A B} n (m : M ByteView Er A) (k : A -> M ByteView Er B) Q1 Q2 :
  safe n m Q1 -> (forall a, Q1 a -> safe 0 (k a) Q2) -> safe n (m ≫= k) Q2.
Proof. intros H1 H2. eapply safe_bind; [done|done|lia]. Qed.

(** The first step need not consume. *)
Lemma safe_bind_0 {A B} n (m : M ByteView Er A) (k : A -> M ByteView Er B) Q1 Q2 :
  safe 0 m Q1 -> (forall a, Q1 a -> safe n (k a) Q2) -> safe n (m ≫= k) Q2.
Proof. intros H1 H2. eapply safe_bind; [done|done|lia]. Qed.

Lemma safe_or_fail {E' A} n (m : M ByteView E' A) (e : Er) Q : safe n m Q -> safe n (or_fail m e) Q.
Proof. intros H v Hv. specialize (H v Hv). unfold or_fail. by destruct (m v) as [[]]. Qed.

Lemma safe_attempt {E' A} n (m : M ByteView E' A) Q :
  safe n m Q -> safe (Er := Er) 0 (attempt m) (fun o => match o with Some a => Q a | None => True end).
Proof.
  intros H v Hv. specialize (H v Hv). unfold attempt. destruct (m v) as [[a|e|f] w]; [| |done].
  - destruct H as (? & ? & ?). split; [done|]. split; [lia|done].
  - split; [done|]. split; [by apply suffix_length|done].
Qed.

Lemma safe_view : safe (Er := Er) 0 view fits.
Proof. intros v Hv. split; [done|]. split; [lia|done]. Qed.

Lemma safe_remaining_size : safe (Er := Er) 0 remaining_size (fun r => 0 <= r < 2 ^ 64).
Proof. intros v Hv. split; [done|]. split; [lia|]. unfold fits in Hv. lia. Qed.

Lemma safe_IsFinished : safe (Er := Er) 0 IsFinished (fun _ => True).
Proof. intros v Hv. split; [done|]. split; [lia|done]. Qed.

Lemma safe_expect_remaining t (e : Er) : safe 0 (expect_remaining t e) (fun _ => True).
Proof.
  eapply safe_bind_l; [apply safe_remaining_size|]. intros r _.
  case_match; [by apply safe_ret|apply safe_fail].
Qed.

Lemma safe_expect_finished (e : Er) : safe 0 (expect_finished e) (fun _ => True).
Proof.
  eapply safe_bind_l; [apply safe_IsFinished|]. intros [] _; [by apply safe_ret|apply safe_fail].
Qed.

(** A loop whose body consumes at least one byte ends. *)
Lemma safe_while_fuel {A} (body : M ByteView Er A) Q t fuel v :
  safe 1 body Q -> fits v -> (length v < fuel)%nat ->
  match while_fuel fuel t body v with
  | (success l, w) => w `suffix_of` v /\ (length w <= length v)%nat /\ Forall Q l
  | (failure _, w) => w `suffix_of` v
  | (crash _, _) => False
  end.
Proof.
  intros Hb. revert v. induction fuel as [|fuel IH]; intros v Hv Hfuel; [lia|].
  cbn [while_fuel]. unfold remaining_size. run. destruct (t <? Zlen v).
  - specialize (Hb v Hv). destruct (body v) as [[x|e|f] w]; [|done|done].
    destruct Hb as (Hs & Hl & Hx).
    specialize (IH w (fits_suffix _ _ Hs Hv) ltac:(lia)).
    destruct (while_fuel fuel t body w) as [[l|e|f] w']; [|by transitivity w|done].
    destruct IH as (? & ? & ?). split; [by transitivity w|]. split; [lia|by constructor].
  - done.
Qed.

Lemma safe_while_above {A} (body : M ByteView Er A) Q t :
  safe 1 body Q -> safe 0 (while_above t body) (Forall Q).
Proof. intros Hb v Hv. unfold while_above. run. apply safe_while_fuel; [done|done|lia]. Qed.
End safe_rules.

Lemma string_at_suffix v pre p rest : string_at v pre p rest -> rest `suffix_of` v.
Proof. intros [-> _ _]. exists (pre ++ p). by rewrite app_assoc. Qed.

Lemma string_at_length v pre p rest : string_at v pre p rest -> (1 + length rest <= length v)%nat.
Proof.
  intros [-> Hr _]. rewrite app_assoc, length_app, Hr. pose proof (rlp_string_pos p). lia.
Qed.

(** The readers consume at least one byte and return what the payload says. *)
Lemma safe_string_reader {A} (m : Dec A) f (Q : A -> Prop) :
  string_reader m f -> (forall p, no_crash (f p)) ->
  (forall p a, fits p -> f p = success a -> Q a) -> safe 1 m Q.
Proof.
  intros [Ho Hst] Hc HQ v Hv. destruct (Ho v) as [[e ->]|(pre & p & rest & Hs)]; [done|].
  rewrite (Hst _ _ _ _ Hv Hs). specialize (Hc p). destruct (f p) as [a|e|cr] eqn:Ef; [|done|done].
  split; [by eapply string_at_suffix|]. split; [by eapply string_at_length|].
  eapply HQ; [|done]. destruct Hs as [-> _ _].
  eapply fits_app_l, fits_app_r. exact Hv.
Qed.

Lemma safe_read_bytes : safe 1 read_bytes fits.
Proof. eapply safe_string_reader; [apply read_bytes_reader|done|]. by intros p a ? [= <-]. Qed.

Lemma safe_read_array N : safe 1 (read_array N) (fun bs => Zlen bs = N).
Proof.
  eapply safe_string_reader; [apply read_array_reader| |]; unfold array_payload.
  - intros p. by case_match.
  - intros p a _. destruct (Z.eqb_spec (Zlen p) N); by intros; simplify_eq.
Qed.

Lemma safe_read_integral size :
  is_sizeof size -> safe 1 (read_integral size) (fun n => 0 <= n < 2 ^ (8 * size)).
Proof.
  intros Hz. eapply safe_string_reader; [by apply read_integral_reader| |].
  - intros. apply from_big_compact_no_crash.
  - intros p a _ H%from_big_compact_spec; [lia|]. by destruct Hz as [-> | [-> | [-> | ->]]].
Qed.

Lemma safe_read_uint256 : safe 1 read_uint256 (fun n => 0 <= n < 2 ^ 256).
Proof.
  eapply safe_string_reader; [apply read_uint256_reader| |].
  - intros. rewrite from_big_compact_u256_eq. apply from_big_compact_no_crash.
  - intros p a _. rewrite from_big_compact_u256_eq. intros H%from_big_compact_spec; lia.
Qed.

Lemma safe_read_bool : safe 1 read_bool (fun _ => True).
Proof.
  eapply safe_string_reader; [apply read_bool_reader| |done].
  intros p. unfold bool_payload. by repeat case_match.
Qed.

Lemma safe_PeekHeader : safe 0 PeekHeader (fun _ => True).
Proof.
  intros v _. destruct (PeekHeader_cases v) as [[e ->]|(h & w & Ha)]; [done|].
  by rewrite (PeekHeader_at _ _ _ Ha).
Qed.

Lemma header_at_suffix v h w : header_at v h w -> w `suffix_of` v.
Proof. intros [|lst len w' ? ? ?]; [done|]. by eexists. Qed.

Lemma header_at_length v h w :
  header_at v h w -> (1 + length (drop (Z.to_nat (payload_size_bytes h)) w) <= length v)%nat.
Proof.
  intros [b r ?|lst len w' ? ? ?]; simpl; [rewrite drop_0; simpl; lia|].
  pose proof (length_rlp_header (hdr_off lst) len). rewrite length_app, length_drop. lia.
Qed.

Lemma safe_ReadListHeaderBytes : safe 1 ReadListHeaderBytes (fun n => 0 <= n < 2 ^ 64).
Proof.
  intros v Hv. destruct (ReadListHeaderBytes v) as [[n|e|f] w] eqn:E.
  - apply ReadListHeaderBytes_iff in E as [-> Hn]; [|done].
    assert (0 <= n < 2 ^ 64) as Hn'.
    { unfold fits in Hv. rewrite length_app in Hv. lia. }
    pose proof (length_rlp_header 192 n Hn').
    split; [by eexists|]. split; [rewrite length_app; lia|done].
  - revert E. unfold ReadListHeaderBytes.
    destruct (PeekHeader_cases v) as [[e' E']|(h & w' & Ha)].
    { rewrite (bind_failure _ _ _ _ _ E'). by intros [= <- <-]. }
    rewrite (bind_success _ _ _ _ _ (PeekHeader_at _ _ _ Ha)). case_match; [by intros [= <- <-]|].
    by rewrite (bind_success _ _ _ _ _ (skip_header_internal_spec _ _ _ Ha)).
  - revert E. unfold ReadListHeaderBytes.
    destruct (PeekHeader_cases v) as [[e' E']|(h & w' & Ha)].
    { by rewrite (bind_failure _ _ _ _ _ E'). }
    rewrite (bind_success _ _ _ _ _ (PeekHeader_at _ _ _ Ha)). case_match; [done|].
    by rewrite (bind_success _ _ _ _ _ (skip_header_internal_spec _ _ _ Ha)).
Qed.

Lemma safe_SkipItem : safe 1 SkipItem (fun _ => True).
Proof.
  intros v Hv. destruct (PeekHeader_cases v) as [[e E]|(h & w & Ha)].
  { unfold SkipItem. by rewrite (bind_failure _ _ _ _ _ E). }
  destruct (is_list h) eqn:El.
  - rewrite (SkipItem_list _ _ _ Ha El). split; [|split; [by apply header_at_length|done]].
    transitivity w; [apply drop_suffix|by eapply header_at_suffix].
  - destruct (header_at_string _ _ _ Ha El) as (pre & p & rest & Hs & _).
    rewrite (SkipItem_string _ _ _ _ Hs).
    split; [by eapply string_at_suffix|]. split; [by eapply string_at_length|done].
Qed.

Lemma safe_list_target : safe 1 list_target (fun _ => True).
Proof.
  eapply safe_bind_l; [apply safe_ReadListHeaderBytes|]. intros n _.
  eapply safe_bind_l; [apply safe_remaining_size|]. intros r _. by apply safe_ret.
Qed.

Lemma safe_list_of {A} (body : Dec A) Q : safe 1 body Q -> safe 1 (list_of body) (Forall Q).
Proof.
  intros Hb. eapply safe_bind_l; [apply safe_list_target|]. intros t _.
  eapply safe_bind_l; [by apply safe_while_above|]. intros l Hl.
  eapply safe_bind_l; [apply safe_expect_remaining|]. intros [] _. by apply safe_ret.
Qed.

(** A decoder that owns its view. *)
Lemma run_decoder_safe {Er A} n (m : M ByteView Er A) Q data :
  safe n m Q -> fits data -> no_crash (run_decoder m data).
Proof.
  intros H Hf. specialize (H data Hf). unfold run_decoder. by destruct (m data) as [[]].
Qed.

Lemma run_decoder_post {Er A} n (m : M ByteView Er A) Q data a :
  safe n m Q -> fits data -> run_decoder m data = success a -> Q a.
Proof.
  intros H Hf E. specialize (H data Hf). unfold run_decoder in E.
  destruct (m data) as [[]]; simplify_eq/=. tauto.
Qed.

(** ** Rejection *)

Definition fails {Er A} (m : M ByteView Er A) (v : ByteView) : Prop := exists e w, m v = (failure e, w).

Section fails_rules.
Context {Er : Type}.

Lemma fails_bind_l {A B} (m : M ByteView Er A) (k : A -> M ByteView Er B) v :
  fails m v -> fails (m ≫= k) v.
Proof. intros (e & w & E). exists e, w. by apply bind_failure. Qed.

Lemma fails_bind_r {A B} (m : M ByteView Er A) (k : A -> M ByteView Er B) v a w :
  m v = (success a, w) -> fails (k a) w -> fails (m ≫= k) v.
Proof. intros E (e & w' & E'). exists e, w'. by rewrite (bind_success _ _ _ _ _ E). Qed.

Lemma fails_or_fail {E' A} (m : M ByteView E' A) (e : Er) v : fails m v -> fails (or_fail m e) v.
Proof. intros (e' & w & E). exists e, w. unfold or_fail. by rewrite E. Qed.

Lemma fails_while_above {A} (body : M ByteView Er A) t v :
  t < Zlen v -> fails body v -> fails (while_above t body) v.
Proof.
  intros Ht (e & w & E). exists e, w. unfold while_above. run. cbn [while_fuel]. unfold remaining_size. run.
  rewrite (proj2 (Z.ltb_lt _ _)) by done. by rewrite E.
Qed.

Lemma run_decoder_fails {A} (m : M ByteView Er A) v :
  fails m v -> exists e, run_decoder m v = failure e.
Proof. intros (e & w & E). exists e. unfold run_decoder. by rewrite E. Qed.
End fails_rules.

(** A list header is not read from a string, nor from nothing. *)
Lemma fails_ReadListHeaderBytes b r : u8 b < 192 -> fits (b :: r) -> fails ReadListHeaderBytes (b :: r).
Proof.
  intros Hb Hf. pose proof (safe_ReadListHeaderBytes _ Hf) as Hs.
  destruct (ReadListHeaderBytes (b :: r)) as [[n|e|f] w] eqn:E; [|by exists e, w|done].
  apply ReadListHeaderBytes_iff in E as [E Hn]; [|done]. exfalso.
  assert (0 <= n < 2 ^ 64) as Hn'.
  { unfold fits in Hf. destruct Hs as (_ & _ & ?). lia. }
  destruct (decide (n <= 55)).
  - rewrite rlp_header_short in E by done. injection E as -> _. rewrite u8_byte_of_small in Hb; lia.
  - rewrite rlp_header_long in E by lia. injection E as -> _. pose proof (nbytes_u64 n ltac:(lia)).
    rewrite length_be_min in Hb. rewrite u8_byte_of_small in Hb; lia.
Qed.

Lemma rlp_string_head p : Zlen p < 2 ^ 64 -> exists b r, rlp_string p = b :: r /\ u8 b < 192.
Proof.
  intros Hp. destruct (literal_or_prefixed p) as [(b & -> & Hb)|Hc].
  - rewrite rlp_string_literal by done. exists b, []. split; [done|lia].
  - rewrite rlp_string_prefixed by done. destruct (decide (Zlen p <= 55)).
    + rewrite rlp_header_short by done. eexists _, _. split; [done|]. rewrite u8_byte_of_small; lia.
    + rewrite rlp_header_long by lia. pose proof (nbytes_u64 (Zlen p) ltac:(lia)).
      eexists _, _. split; [done|]. rewrite u8_byte_of_small; rewrite length_be_min; lia.
Qed.

Lemma fails_list_target_string p rest : fits (rlp_string p ++ rest) -> fails list_target (rlp_string p ++ rest).
Proof.
  intros Hf. apply fails_bind_l. destruct (rlp_string_head p) as (b & r & E & Hb).
  { unfold fits in Hf. rewrite length_app in Hf. pose proof (rlp_string_length_ge p). lia. }
  rewrite E in *. by apply fails_ReadListHeaderBytes.
Qed.

(** ** Automation *)

Lemma safe_bind_1 {Er A B} n (m : M ByteView Er A) (k : A -> M ByteView Er B) Q1 Q2 :
  safe 1 m Q1 -> (n <= 1)%nat -> (forall a, Q1 a -> safe 0 (k a) Q2) -> safe n (m ≫= k) Q2.
Proof. intros H1 Hn H2. eapply safe_bind; [done|done|lia]. Qed.

Create HintDb safe discriminated.
Create HintDb eats discriminated.
#[export] Hint Resolve safe_or_fail safe_attempt safe_view safe_remaining_size safe_IsFinished
  safe_expect_remaining safe_expect_finished safe_while_above safe_read_bytes safe_read_array
  safe_read_integral safe_read_uint256 safe_read_bool safe_PeekHeader safe_ReadListHeaderBytes
  safe_SkipItem safe_list_target safe_list_of : safe.
#[export] Hint Extern 0 (is_sizeof _) => unfold is_sizeof; lia : safe eats.

(** One step of a safety proof: a read, a branch or the end. *)
Ltac safe_step :=
  lazymatch goal with
  | |- safe _ (mbind _ _) _ =>
      first
        [ eapply safe_bind_1; [solve [eauto 6 with safe]|lia|intros ? ?]
        | eapply safe_bind_0; [solve [eauto 6 with safe]|intros ? ?] ]
  | |- safe _ (fail _) _ => apply safe_fail
  | |- safe 0 (mret _) _ => apply safe_ret
  | |- safe _ (if ?b then _ else _) _ => destruct b eqn:?
  end.

Ltac safe_steps := repeat safe_step.

Lemma eats_consumes {Er A} (m : M ByteView Er A) bs a rest : consumes m bs a -> eats m bs a rest.
Proof. intros H. apply H. Qed.

Lemma consumes_or_fail {Er E' A} (m : M ByteView E' A) (e : Er) bs a :
  consumes m bs a -> consumes (or_fail m e) bs a.
Proof. intros H rest. by apply eats_or_fail. Qed.

#[export] Hint Resolve consumes_or_fail consumes_read_bytes consumes_read_array consumes_read_integral
  consumes_read_uint256 consumes_read_bool : eats.

(** One read of a round-trip proof. *)
Ltac eats_step :=
  lazymatch goal with
  | |- eats (mbind _ (expect_remaining _ _)) [] _ _ =>
      eapply eats_bind_0; [by apply eats_expect_remaining|]
  | |- eats (mret _) [] _ _ => apply eats_ret
  | |- eats (mbind _ (expect_finished _)) [] _ [] =>
      eapply eats_bind_0; [apply eats_expect_finished|]
  | |- eats (mbind _ _) (_ ++ _) _ _ =>
      eapply eats_bind; [apply eats_consumes; solve [eauto with eats]|]
  | |- eats (mbind _ _) _ _ _ =>
      eapply eats_bind_last; [apply eats_consumes; solve [eauto with eats]|]
  end.

Ltac eats_steps := repeat eats_step.

Lemma fails_list_of {A} (body : Dec A) p rest :
  p <> [] -> fits (rlp_list p ++ rest) -> fails body (p ++ rest) -> fails (list_of body) (rlp_list p ++ rest).
Proof.
  intros Hp Hf Hb. unfold rlp_list in *. rewrite <- app_assoc in *.
  eapply fails_bind_r; [by apply eats_list_target|]. apply fails_bind_l, fails_while_above; [|done].
  rewrite length_app. destruct p; [done|]. simpl. lia.
Qed.

(** What the outer list header of a decoder leaves. *)
Lemma ReadListHeaderBytes_whole p :
  fits (rlp_list p) -> ReadListHeaderBytes (rlp_list p) = (success (Zlen p), p).
Proof.
  intros Hf. pose proof (eats_ReadListHeaderBytes p []) as H. rewrite app_nil_r in H. by apply H.
Qed.

(** What the first byte says. *)

(** First byte of a list. *)
Lemma rlp_list_head p : Zlen p < 2 ^ 64 -> exists b r, rlp_list p = b :: r /\ 192 <= u8 b.
Proof.
  intros Hp. unfold rlp_list. destruct (decide (Zlen p <= 55)).
  - rewrite rlp_header_short by done. eexists _, _. split; [done|]. rewrite u8_byte_of_small; lia.
  - rewrite rlp_header_long by lia. pose proof (nbytes_u64 (Zlen p) ltac:(lia)).
    eexists _, _. split; [done|]. rewrite u8_byte_of_small; rewrite length_be_min; lia.
Qed.

Lemma IsList_string p rest : fits (rlp_string p ++ rest) -> IsList (rlp_string p ++ rest) = (success false, rlp_string p ++ rest).
Proof.
  intros Hf. destruct (rlp_string_head p) as (b & r & -> & Hb).
  { unfold fits in Hf. rewrite length_app in Hf. pose proof (rlp_string_length_ge p). lia. }
  unfold IsList. run. simpl. do 2 f_equal. apply Z.leb_gt. unfold kShortListOffset. lia.
Qed.

Lemma IsList_list p rest : fits (rlp_list p ++ rest) -> IsList (rlp_list p ++ rest) = (success true, rlp_list p ++ rest).
Proof.
  intros Hf. destruct (rlp_list_head p) as (b & r & -> & Hb).
  { unfold fits in Hf. rewrite length_app in Hf. pose proof (rlp_list_length_ge p). lia. }
  unfold IsList. run. simpl. do 2 f_equal. apply Z.leb_le. unfold kShortListOffset. lia.
Qed.

Lemma attempt_success {S E E' A} (m : M S E A) s a s' :
  m s = (success a, s') -> attempt (E' := E') m s = (success (Some a), s').
Proof. unfold attempt. by intros ->. Qed.

Lemma ReadListHeaderBytes_list p rest :
  fits (rlp_list p ++ rest) -> ReadListHeaderBytes (rlp_list p ++ rest) = (success (Zlen p), p ++ rest).
Proof.
  intros Hf. unfold rlp_list in *. rewrite <- app_assoc in *. by apply eats_ReadListHeaderBytes.
Qed.

Lemma view_then {Er B} (k : ByteView -> M ByteView Er B) v : (view ≫= k) v = k v v.
Proof. done. Qed.

(** A call whose error is replaced, by cases on the call. *)
Lemma or_fail_bind {S E E' A B} (m : M S E A) (e' : E') (k : A -> M S E' B) s :
  (or_fail m e' ≫= k) s =
    match m s with
    | (success a, s') => k a s'
    | (failure _, s') => (failure e', s')
    | (crash f, s') => (crash f, s')
    end.
Proof. unfold mbind, M_bind, or_fail. by destruct (m s) as [[]]. Qed.

Lemma safe_IsList : safe 0 IsList (fun _ => True).
Proof. intros [|b v] _; unfold IsList; run; [done|]. split; [done|]. split; [lia|done]. Qed.

Lemma IsList_cases v : (exists e, IsList v = (failure e, v)) \/ (exists b, IsList v = (success b, v)).
Proof. destruct v; unfold IsList; run; eauto. Qed.

(** What a list header means for [IsList]. *)
Lemma IsList_true v n w : fits v -> ReadListHeaderBytes v = (success n, w) -> IsList v = (success true, v).
Proof.
  intros Hf E. destruct v as [|b v]; [done|]. unfold IsList. run. do 2 f_equal. apply Z.leb_le.
  destruct (Z_lt_ge_dec (u8 b) 192) as [Hb|]; [|unfold kShortListOffset; lia].
  destruct (fails_ReadListHeaderBytes b v Hb Hf) as (e & w' & E'). congruence.
Qed.
