(* ===== verification/RlpTyped.v ===== *)
(** * Typed entry points of RlpDecoder

    The templates of [include/rlp/rlp_decoder.hpp] that work on a view of the
    caller: [decode<T>], [read(ByteView&, T&, Leftover)] with its [check_payload],
    and [read_vector], which reads a list of integers element by element from a
    view of the payload. *)

From S2P Require Import Prelude RlpSpec RlpCommon RlpEncoder RlpDecoder DecodeLogic.

(** [static decode<T>(ByteView& data, Leftover)]: [data] is assigned after a
    successful read, also when the leftover check then fails. *)
Definition decode_static {A} (read : Dec A) (leftover : Leftover) : Dec A := fun data =>
  match read data with
  | (failure e, _) => (failure e, data)
  | (crash f, _) => (crash f, data)
  | (success value, rest) =>
      match leftover, rest with
      | kProhibit, _ :: _ => (failure kInputTooLong, rest)
      | _, _ => (success value, rest)
      end
  end.

(** [endian::from_big_compact] for [T] of [size] bytes; 32 is [uint256]. *)
Definition from_big_compact_T (size : Z) (bytes : list byte) : outcome DecodingError Z :=
  if size =? 32 then from_big_compact_u256 bytes else from_big_compact (2 ^ (8 * size) - 1) bytes.

(** [check_payload<T>] for an integer type of [size] bytes. *)
Definition check_payload (size : Z) (h : Header) (payload_view view : ByteView) : outcome DecodingError unit :=
  if is_list h then failure kUnexpectedList else
  first_is_zero ← (if 1 <=? payload_size_bytes h
                   then b ← byte_at payload_view 0; mret (u8 b =? 0) else mret false);
  if (1 <? payload_size_bytes h) && first_is_zero then failure kLeadingZero else
  if (payload_size_bytes h =? 1) && first_is_zero && (kRlpSingleByteThreshold <=? 0) then failure kLeadingZero else
  if size <? payload_size_bytes h then failure kOverflow else
  if Zlen view <? u64 (header_size_bytes h + payload_size_bytes h) then failure kInputTooShort else
  temp_out ← from_big_compact_T size payload_view;
  if (payload_size_bytes h =? 1) && (temp_out mod 256 <? kRlpSingleByteThreshold) && (0 <? header_size_bytes h)
  then failure kNonCanonicalSize else mret tt.

(** [read(ByteView& data, T& out, Leftover)] for an integer type. *)
Definition read_from (size : Z) (leftover : Leftover) : Dec Z := fun data =>
  match (h ← PeekHeader;
         payload_view ← lift (substr data (header_size_bytes h) (payload_size_bytes h));
         lift (check_payload size h payload_view data) ;;
         out ← lift (from_big_compact_T size payload_view);
         remove_prefix (u64 (header_size_bytes h + payload_size_bytes h)) ;;
         mret out) data with
  | (failure e, _) => (failure e, data)
  | (crash f, _) => (crash f, data)
  | (success out, rest) =>
      match leftover, rest with
      | kProhibit, _ :: _ => (failure kInputTooLong, rest)
      | _, _ => (success out, rest)
      end
  end.

(** [check_payload<bool>]: no conversion, and [sizeof(bool)] is 1. *)
Definition check_payload_bool (h : Header) (payload_view view : ByteView) : outcome DecodingError unit :=
  if is_list h then failure kUnexpectedList else
  first_is_zero ← (if 1 <=? payload_size_bytes h
                   then b ← byte_at payload_view 0; mret (u8 b =? 0) else mret false);
  if (1 <? payload_size_bytes h) && first_is_zero then failure kLeadingZero else
  if (payload_size_bytes h =? 1) && first_is_zero && (kRlpSingleByteThreshold <=? 0) then failure kLeadingZero else
  if 1 <? payload_size_bytes h then failure kOverflow else
  if Zlen view <? u64 (header_size_bytes h + payload_size_bytes h) then failure kInputTooShort else mret tt.

(** [read(ByteView& data, bool& out, Leftover)]: a refused payload is skipped in
    the temporary decoder only, so [data] is unchanged. *)
Definition read_from_bool (leftover : Leftover) : Dec bool :=
  decode_static
    (h ← PeekHeader;
     data ← view;
     payload_view ← lift (substr data (header_size_bytes h) (payload_size_bytes h));
     lift (check_payload_bool h payload_view data) ;;
     if payload_size_bytes h =? 1 then
       b ← lift (byte_at payload_view 0);
       if u8 b =? 1 then remove_prefix (u64 (header_size_bytes h + payload_size_bytes h)) ;; mret true
       else SkipItem ;; fail kOverflow
     else if payload_size_bytes h =? 0 then
       is_empty ← (if header_size_bytes h =? 1
                   then b ← lift (byte_at data 0); mret (u8 b =? kEmptyStringCode) else mret false);
       if is_empty : bool then remove_prefix 1 ;; mret false
       else SkipItem ;; fail kOverflow
     else SkipItem ;; fail kOverflow) leftover.

(** The element loop of [read_vector], on the view of the list payload. *)
Fixpoint read_elements (fuel : nat) (size : Z) (list_payload : ByteView) : outcome DecodingError (list Z) :=
  match fuel with
  | O => crash Diverge
  | S fuel' =>
      match list_payload with
      | [] => success []
      | _ =>
          match read_from size kAllow list_payload with
          | (failure e, _) => failure e
          | (crash f, _) => crash f
          | (success x, rest) => xs ← read_elements fuel' size rest; mret (x :: xs)
          end
      end
  end.

(** [read_vector]: one more unit of fuel than there are payload bytes. *)
Definition read_vector (size : Z) : Dec (list Z) :=
  payload_len ← ReadListHeaderBytes;
  v ← view;
  list_payload ← lift (substr v 0 payload_len);
  vec ← lift (read_elements (S (length list_payload)) size list_payload);
  if Zlen v <? payload_len then fail kInputTooShort else
  remove_prefix payload_len ;;
  mret vec.

(** ** Lemmas *)

Definition is_uint_size (size : Z) : Prop := is_sizeof size \/ size = 32.

Lemma from_big_compact_T_max size :
  is_uint_size size -> forall p, from_big_compact_T size p = from_big_compact (2 ^ (8 * size) - 1) p.
Proof.
  intros Hs p. unfold from_big_compact_T. destruct (Z.eqb_spec size 32) as [->|]; [|done].
  apply from_big_compact_u256_eq.
Qed.

(** On a string item every check of [check_payload] is subsumed by the
    conversion. *)
Lemma check_payload_string size v pre p rest :
  is_uint_size size -> fits v -> string_at v pre p rest ->
  check_payload size (mkHeader false (Zlen p) (Zlen pre)) p v =
    match from_big_compact_T size p with success _ => success tt | failure e => failure e | crash f => crash f end.
Proof.
  intros Hs Hv Hst. rewrite from_big_compact_T_max by done. unfold check_payload.
  cbn [is_list payload_size_bytes header_size_bytes].
  rewrite (on_string_u64 _ _ _ _ Hst Hv), (on_string_long_enough _ _ _ _ Hst), from_big_compact_T_max by done.
  assert (1 <= size <= 32) as Hsz by (unfold is_uint_size, is_sizeof in Hs; lia).
  destruct p as [|b0 [|b1 l]].
  - change (Zlen (@nil byte)) with 0. unfold mbind, outcome_bind, mret, outcome_ret.
    change (1 <=? 0) with false. change (1 <? 0) with false. change (0 =? 1) with false. cbn [andb].
    by rewrite (proj2 (Z.ltb_ge size 0)) by lia.
  - change (Zlen [b0]) with 1. rewrite byte_at_0.
    unfold mbind, outcome_bind, mret, outcome_ret.
    change (1 <? 1) with false. change (1 =? 1) with true. change (kRlpSingleByteThreshold <=? 0) with false.
    change (1 <=? 1) with true. cbv iota. rewrite andb_false_r, andb_false_l, (proj2 (Z.ltb_ge size 1)) by lia.
    destruct (from_big_compact (2 ^ (8 * size) - 1) [b0]) as [n|e|f] eqn:E; [|done|done].
    rewrite andb_true_l. apply from_big_compact_spec in E as [Hn E].
    2: { assert (0 < 2 ^ (8 * size) <= 2 ^ 256); [|lia].
         split; [apply Z.pow_pos_nonneg; lia|apply Z.pow_le_mono_r; lia]. }
    destruct (Z.ltb_spec 0 (Zlen pre)) as [Hpre|Hpre]; [|by rewrite andb_false_r].
    pose proof (on_string_canonical _ _ _ _ Hst b0 eq_refl Hpre).
    destruct E as [E|[-> E]]; [|simplify_eq; by change (u8 x00) with 0 in *].
    symmetry in E. apply be_min_single in E; [|lia]. subst n.
    by rewrite Z.mod_small, (proj2 (Z.ltb_ge _ _)) by (unfold kRlpSingleByteThreshold; pose_u8; lia).
  - rewrite (proj2 (Z.leb_le 1 _)) by (simpl length; lia). rewrite byte_at_0.
    unfold mbind, outcome_bind, mret, outcome_ret.
    rewrite (proj2 (Z.ltb_lt 1 _)), (proj2 (Z.eqb_neq _ 1)) by (simpl length; lia). cbn [andb].
    unfold from_big_compact. rewrite (proj2 (Z.ltb_lt 1 _)) by (simpl length; lia).
    rewrite (proj2 (Z.eqb_neq _ 1)) by (simpl length; lia). cbn [andb].
    destruct (Z.eqb_spec (u8 b0) 0) as [|Hb0]; [done|]. cbn [andb].
    unfold be_load. rewrite be_val_padded.
    destruct (Z.ltb_spec size (Zlen (b0 :: b1 :: l))) as [Hov|Hov]; [|by repeat case_match].
    assert (2 ^ (8 * size) - 1 < be_val (b0 :: b1 :: l)) as Hbig.
    { rewrite be_val_cons. pose proof (be_val_range (b1 :: l)). pose proof (u8_range b0).
      assert (256 ^ size <= 256 ^ Zlen (b1 :: l)).
      { apply Z.pow_le_mono_r; [lia|]. simpl length in *. lia. }
      rewrite Z.pow_mul_r by lia. change (2 ^ 8) with 256. nia. }
    rewrite (proj2 (Z.ltb_lt _ (be_val _))) by done. by destruct (32 <? _).
Qed.

(** [read_from] with leftovers allowed is the member reader. *)
Lemma read_from_string size v pre p rest :
  is_uint_size size -> fits v -> string_at v pre p rest ->
  let r := from_big_compact_T size p in
  read_from size kAllow v = (r, match r with success _ => rest | _ => v end).
Proof.
  intros Hs Hv Hst. unfold read_from. rewrite (bind_success _ _ _ _ _ (on_string_peek _ _ _ _ Hst)).
  cbn [payload_size_bytes header_size_bytes]. rewrite (on_string_substr _ _ _ _ Hst) by done. run.
  rewrite (check_payload_string _ _ _ _ _ Hs Hv Hst), (on_string_u64 _ _ _ _ Hst Hv).
  destruct (from_big_compact_T size p); [|done|done]. by rewrite (on_string_remove _ _ _ _ Hst) by done.
Qed.

Lemma read_from_other size v :
  (exists e, read_from size kAllow v = (failure e, v)) \/ (exists pre p rest, string_at v pre p rest).
Proof.
  destruct (PeekHeader_cases v) as [[e E]|(h & w & Ha)].
  { left. exists e. unfold read_from. by rewrite (bind_failure _ _ _ _ _ E). }
  destruct (is_list h) eqn:El.
  - left. exists kUnexpectedList. unfold read_from. rewrite (bind_success _ _ _ _ _ (PeekHeader_at _ _ _ Ha)).
    unfold check_payload. rewrite El. run. unfold substr.
    rewrite (proj2 (Z.ltb_ge _ _)); [done|]. destruct Ha; simpl; [lia|]. rewrite length_app. lia.
  - right. destruct (header_at_string _ _ _ Ha El) as (pre & p & rest & Hs & _). eauto.
Qed.

Lemma read_from_reader size : is_uint_size size -> string_reader (read_from size kAllow) (from_big_compact_T size).
Proof.
  intros Hs. split; [apply read_from_other|]. intros v pre p rest Hv Hst. by apply read_from_string with pre.
Qed.

Lemma consumes_read_from size n :
  is_uint_size size -> 0 <= n < 2 ^ (8 * size) -> consumes (read_from size kAllow) (rlp_uint n) n.
Proof.
  intros Hs Hn rest Hf. apply (string_reader_iff _ _ _ _ _ (read_from_reader size Hs) Hf).
  exists (be_min n). split; [|done]. rewrite from_big_compact_T_max by done.
  assert (1 <= size <= 32) as Hsz by (unfold is_uint_size, is_sizeof in Hs; lia).
  apply from_big_compact_spec; [|split; [lia|by left]].
  assert (0 < 2 ^ (8 * size) <= 2 ^ 256); [|lia].
  split; [apply Z.pow_pos_nonneg; lia|apply Z.pow_le_mono_r; lia].
Qed.

Lemma safe_read_from size :
  is_uint_size size -> safe 1 (read_from size kAllow) (fun n => 0 <= n < 2 ^ (8 * size)).
Proof.
  intros Hs. assert (1 <= size <= 32) as Hsz by (unfold is_uint_size, is_sizeof in Hs; lia).
  eapply safe_string_reader; [by apply read_from_reader| |].
  - intros p. rewrite from_big_compact_T_max by done. apply from_big_compact_no_crash.
  - intros p a _. rewrite from_big_compact_T_max by done. intros H%from_big_compact_spec; [lia|].
    assert (0 < 2 ^ (8 * size) <= 2 ^ 256); [|lia].
    split; [apply Z.pow_pos_nonneg; lia|apply Z.pow_le_mono_r; lia].
Qed.

Lemma read_elements_encoded size l fuel :
  is_uint_size size -> Forall (fun n => 0 <= n < 2 ^ (8 * size)) l ->
  fits (concat (map rlp_uint l)) -> (length l < fuel)%nat ->
  read_elements fuel size (concat (map rlp_uint l)) = success l.
Proof.
  intros Hs Hl. revert fuel. induction Hl as [|n l Hn Hl IH]; intros fuel Hf Hfuel;
    (destruct fuel as [|fuel]; [lia|]); [done|].
  cbn [map concat] in *. cbn [read_elements].
  destruct (rlp_uint n ++ concat (map rlp_uint l)) as [|b r] eqn:E.
  { pose proof (rlp_string_pos (be_min n)) as Hp. unfold rlp_uint in E.
    destruct (rlp_string (be_min n)); [simpl in Hp; lia|done]. }
  rewrite <- E in *. rewrite (consumes_read_from size n Hs Hn _ Hf).
  rewrite IH; [done|by eapply fits_app_r|simpl in Hfuel; lia].
Qed.

(** The element loop ends: every element consumes a byte. *)
Lemma read_elements_total size fuel v :
  is_uint_size size -> fits v -> (length v < fuel)%nat ->
  match read_elements fuel size v with
  | success l => Forall (fun n => 0 <= n < 2 ^ (8 * size)) l
  | failure _ => True
  | crash _ => False
  end.
Proof.
  intros Hs. revert v. induction fuel as [|fuel IH]; intros v Hv Hfuel; [lia|].
  cbn [read_elements]. destruct v as [|b r] eqn:E; [done|]. rewrite <- E in *.
  pose proof (safe_read_from size Hs v Hv) as Hr.
  destruct (read_from size kAllow v) as [[n|e|f] w]; [|done|done]. destruct Hr as (Hsuf & Hl & Hn).
  specialize (IH w (fits_suffix _ _ Hsuf Hv) ltac:(lia)).
  destruct (read_elements fuel size w); simpl; [by constructor|done|done].
Qed.

Lemma consumes_read_vector size l :
  is_uint_size size -> Forall (fun n => 0 <= n < 2 ^ (8 * size)) l ->
  consumes (read_vector size) (rlp_list (concat (map rlp_uint l))) l.
Proof.
  intros Hs Hl rest. apply eats_list_header. set (p := concat (map rlp_uint l)). intros Hf.
  rewrite (bind_success view _ _ _ _ eq_refl). rewrite (substr_prefix [] p rest) by done.
  assert (fits p) as Hp by (by eapply fits_app_l).
  assert (read_elements (S (length p)) size p = success l) as Hel.
  { apply read_elements_encoded; [done|done|done|].
    pose proof (concat_map_length_ge rlp_uint l) as H. fold p in H.
    specialize (H ltac:(intros x _ E; pose proof (rlp_string_pos (be_min x)) as Hx; unfold rlp_uint in E;
      rewrite E in Hx; simpl in Hx; lia)). lia. }
  unfold lift. run. rewrite Hel. rewrite (proj2 (Z.ltb_ge _ _)) by (rewrite length_app; lia).
  by rewrite remove_prefix_app.
Qed.

(** What the boolean reader makes of a payload: unlike [read_bool], it refuses a
    zero byte. *)
Definition strict_bool_payload (p : list byte) : outcome DecodingError bool :=
  match p with
  | [] => success false
  | [b] => if u8 b =? 1 then success true else failure kOverflow
  | b :: _ => if u8 b =? 0 then failure kLeadingZero else failure kOverflow
  end.

Lemma read_from_bool_reader : string_reader (read_from_bool kAllow) strict_bool_payload.
Proof.
  split.
  - intros v. destruct (PeekHeader_cases v) as [[e E]|(h & w & Ha)].
    { left. exists e. unfold read_from_bool, decode_static. by rewrite (bind_failure _ _ _ _ _ E). }
    destruct (is_list h) eqn:El.
    + left. exists kUnexpectedList. unfold read_from_bool, decode_static.
      rewrite (bind_success _ _ _ _ _ (PeekHeader_at _ _ _ Ha)), (bind_success view _ _ _ _ eq_refl).
      unfold check_payload_bool. rewrite El. run. unfold substr.
      rewrite (proj2 (Z.ltb_ge _ _)); [done|]. destruct Ha; simpl; [lia|]. rewrite length_app. lia.
    + right. destruct (header_at_string _ _ _ Ha El) as (pre & p & rest & Hs & _). eauto.
  - intros v pre p rest Hv Hs. unfold read_from_bool, decode_static.
    rewrite (bind_success _ _ _ _ _ (on_string_peek _ _ _ _ Hs)), (bind_success view _ _ _ _ eq_refl).
    cbn [payload_size_bytes header_size_bytes]. rewrite (on_string_substr _ _ _ _ Hs) by done.
    unfold check_payload_bool. cbn [is_list payload_size_bytes header_size_bytes].
    rewrite (on_string_u64 _ _ _ _ Hs Hv), (on_string_long_enough _ _ _ _ Hs) by done. run.
    destruct p as [|b0 [|b1 l]].
    + pose proof (on_string_remove _ _ _ _ Hs Hv (Er := DecodingError)) as Hrem.
      destruct Hs as [Ev Hr _]. rewrite app_nil_r in Hr. change (rlp_string []) with [x80] in Hr.
      rewrite Hr in *. change (Zlen [x80] + Zlen []) with 1 in Hrem.
      assert (byte_at (Er := DecodingError) v 0 = success x80) as Hb by (by rewrite Ev).
      change (Zlen (@nil byte)) with 0. change (Zlen [x80]) with 1. unfold outcome_bind, outcome_ret.
      cbn -[remove_prefix byte_at]. rewrite Hb. cbn -[remove_prefix]. by rewrite Hrem.
    + rewrite byte_at_0. change (1 <? Zlen [b0]) with false. change (Zlen [b0] =? 1) with true.
      change (kRlpSingleByteThreshold <=? 0) with false. change (1 <=? Zlen [b0]) with true. unfold outcome_bind, outcome_ret.
      cbv iota. rewrite andb_false_r, andb_false_l. cbn [strict_bool_payload].
      destruct (u8 b0 =? 1).
      * by rewrite (on_string_remove _ _ _ _ Hs) by done.
      * by rewrite (SkipItem_string _ _ _ _ Hs).
    + rewrite (proj2 (Z.leb_le 1 _)), byte_at_0 by (simpl length; lia). unfold outcome_bind, outcome_ret.
      rewrite (proj2 (Z.ltb_lt 1 _)), (proj2 (Z.eqb_neq _ 1)) by (simpl length; lia). cbn [andb strict_bool_payload].
      by destruct (u8 b0 =? 0).
Qed.

(** ** Theorems *)

(** The reader of booleans out of a view accepts exactly what [add(bool)]
    writes; the member [read_bool] also takes the byte 0x00 for false, which is
    an overflow here. *)
Theorem read_from_bool_exact (v w : ByteView) (b : bool) :
  fits v ->
  (read_from_bool kAllow v = (success b, w) <-> v = rlp_bool b ++ w) /\
  (forall r, v = x00 :: r -> read_from_bool kAllow v = (failure kOverflow, v) /\ read_bool v = (success false, r)).
Proof.
  intros Hv. split.
  - rewrite (string_reader_iff _ _ _ _ _ read_from_bool_reader Hv). split.
    + intros (p & Ep & ->). destruct p as [|b0 [|b1 l]]; simpl in Ep; repeat case_match; simplify_eq; [done|].
      assert (b0 = x01) as -> by (apply u8_inj; change (u8 x01) with 1; lia). done.
    + intros ->. by exists (if b then [x01] else []); destruct b.
  - intros r ->. assert (string_at (x00 :: r) [] [x00] r) as Hs by (split; [done|done|by apply at_literal]).
    by rewrite (reader_string _ _ read_from_bool_reader _ _ _ _ Hv Hs), (reader_string _ _ read_bool_reader _ _ _ _ Hv Hs).
Qed.

Lemma read_from_bool_exact_witness :
  read_from_bool kAllow [x80; x05] = (success false, [x05]) /\
  read_from_bool kAllow [x00; x05] = (failure kOverflow, [x00; x05]).
Proof.
  split.
  - assert (fits [x80; x05]) as Hf by done.
    by apply (proj1 (read_from_bool_exact [x80; x05] [x05] false Hf)).
  - assert (fits [x00; x05]) as Hf by done.
    by apply (proj2 (read_from_bool_exact [x00; x05] [x05] false Hf) [x05]).
Defined.

(** Reading a vector of integers of any supported width inverts adding it: the
    whole list is consumed and nothing after it; on arbitrary input the element
    loop ends, and every element read is in range. *)
Theorem read_vector_inverts_add (size : Z) (l : list Z) (rest v : ByteView) (fuel : nat) :
  is_uint_size size -> Forall (fun n => 0 <= n < 2 ^ (8 * size)) l ->
  fits (rlp_list (concat (map rlp_uint l)) ++ rest) -> fits v -> (length v < fuel)%nat ->
  run_encoder (add_vector add_u256 l) = success (rlp_list (concat (map rlp_uint l))) /\
  read_vector size (rlp_list (concat (map rlp_uint l)) ++ rest) = (success l, rest) /\
  match read_elements fuel size v with
  | success xs => Forall (fun n => 0 <= n < 2 ^ (8 * size)) xs
  | failure _ => True
  | crash _ => False
  end.
Proof.
  intros Hs Hl Hf Hv Hfuel. split_and!; [|by apply consumes_read_vector|by apply read_elements_total].
  apply fits_app_l in Hf. apply run_encoder_emits; [done|]. intros Hlen.
  apply appends_add_vector; [pose proof (rlp_list_length_ge (concat (map rlp_uint l))); lia|].
  intros n Hn. apply appends_add_u256. rewrite Forall_forall in Hl. specialize (Hl n Hn).
  assert (2 ^ (8 * size) <= 2 ^ 256); [|lia]. apply Z.pow_le_mono_r; unfold is_uint_size, is_sizeof in Hs; lia.
Qed.

Lemma read_vector_inverts_add_witness :
  read_vector 2 [xc5; x01; x80; x82; x04; x00; x07] = (success [1; 0; 0x400], [x07]).
Proof.
  apply (read_vector_inverts_add 2 [1; 0; 0x400] [x07] [] 1);
    [left; by right; left|repeat constructor; lia|done|done|simpl; lia].
Defined.
