(* ===== verification/RlpStreaming.v ===== *)
(** * Streaming encoders and decoders

    [include/rlp/rlp_streaming.hpp] and [src/rlp/rlp_streaming.cpp].  The
    encoders hold a reference to an [RlpEncoder] and write into its buffer, so
    their operations are computations on the pair of the two objects.  The
    decoders own a view.

    Approach A writes one string: nine bytes are reserved, chunks are appended
    and the header is patched in front of them.  Approach B writes a list of
    strings of at most [chunk_size] bytes. *)

From S2P Require Import Prelude RlpSpec RlpCommon RlpEncoder RlpDecoder DecodeLogic.

(** ** Approach A: RlpLargeStringEncoder *)

Record RlpLargeStringEncoder := mkLarge {
  header_start_ : Z;
  payload_start_ : Z;
  payload_size_ : Z;
  lse_finished_ : bool
}.

Notation Large := (M (RlpLargeStringEncoder * RlpEncoder) StreamingError).

Definition encode_string_header (payload_len : Z) : list byte :=
  if payload_len <=? kMaxShortStringLen then [byte_of (kShortStringOffset + payload_len)]
  else
    let len_be := to_big_compact (u64 payload_len) in
    if 8 <? Zlen len_be then []
    else byte_of (kLongStringOffset + Zlen len_be) :: len_be.

Definition kReservedHeader : Z := 9.

(** [create]: refuses an encoder with open lists, appends the reserved bytes. *)
Definition large_create (e : RlpEncoder) : outcome StreamingError (RlpLargeStringEncoder * RlpEncoder) :=
  match GetBytes e with
  | (success buffer, _) =>
      let e' := mkEnc (buffer ++ replicate 9 x00) (list_start_positions_ e) in
      let size := Zlen (buffer_ e') in
      success (mkLarge (size - kReservedHeader) size 0 false, e')
  | _ => failure kNotFinalized
  end.

Definition large_addChunk (chunk : list byte) : Large unit := fun '(s, e) =>
  if lse_finished_ s then (failure kAlreadyFinalized, (s, e)) else
  match GetBytes e with
  | (success buffer, _) =>
      (success tt,
        (mkLarge (header_start_ s) (payload_start_ s) (u64 (payload_size_ s + Zlen chunk)) false,
         mkEnc (buffer ++ chunk) (list_start_positions_ e)))
  | _ => (failure kNotFinalized, (s, e))
  end.

(** [memcpy] / [memmove] of [bs] to position [pos]. *)
Definition write_at (pos : Z) (bs buffer : list byte) : option (list byte) :=
  if (0 <=? pos) && (pos + Zlen bs <=? Zlen buffer)
  then Some (take (Z.to_nat pos) buffer ++ bs ++ drop (Z.to_nat pos + length bs) buffer) else None.

(** The source of [memmove]. *)
Definition read_at (pos n : Z) (buffer : list byte) : option (list byte) :=
  if (0 <=? pos) && (0 <=? n) && (pos + n <=? Zlen buffer)
  then Some (take (Z.to_nat n) (drop (Z.to_nat pos) buffer)) else None.

(** The part of [finish] that patches the buffer. *)
Definition patch_header (s : RlpLargeStringEncoder) (actual_header buffer : list byte) : option (list byte) :=
  let shift := kReservedHeader - Zlen actual_header in
  buffer1 ← write_at (header_start_ s) actual_header buffer;
  if 0 <? shift then
    payload ← read_at (payload_start_ s) (payload_size_ s) buffer1;
    buffer2 ← write_at (header_start_ s + Zlen actual_header) payload buffer1;
    Some (take (Z.to_nat (Zlen buffer2 - shift)) buffer2)
  else Some buffer1.

Definition large_finish : Large unit := fun '(s, e) =>
  if lse_finished_ s then (failure kAlreadyFinalized, (s, e)) else
  let s' := mkLarge (header_start_ s) (payload_start_ s) (payload_size_ s) true in
  let actual_header := encode_string_header (payload_size_ s) in
  if bool_decide (actual_header = []) && (kMaxShortStringLen <? payload_size_ s)
  then (failure kHeaderSizeExceeded, (s', e)) else
  match GetBytes e with
  | (success buffer, _) =>
      if Zlen actual_header <=? kReservedHeader then
        match patch_header s actual_header buffer with
        | Some buffer' => (success tt, (s', mkEnc buffer' (list_start_positions_ e)))
        | None => (crash OutOfBounds, (s', e))
        end
      else (failure kHeaderSizeExceeded, (s', e))
  | _ => (failure kNotFinalized, (s', e))
  end.

(** [encodeLargeString] with a generator that delivers [chunks]: calls after an
    error are skipped; the destructor finishes the stream. *)
Definition encodeLargeString (chunks : list (list byte)) : M RlpEncoder StreamingError unit := fun e =>
  match large_create e with
  | failure err => (failure err, e)
  | crash f => (crash f, e)
  | success se =>
      let '(result, se') := for_each large_addChunk chunks se in
      let '(fin, (_, e')) := (if lse_finished_ se'.1 then (success tt, se') else large_finish se') in
      match result, fin with
      | crash f, _ => (crash f, e')
      | _, crash f => (crash f, e')
      | r, _ => (r, e')
      end
  end.

(** ** Approach B: RlpChunkedListEncoder *)

Record RlpChunkedListEncoder := mkChunked {
  chunk_size_ : Z;
  cle_buffer_ : list byte;
  chunk_count_ : Z;
  total_bytes_ : Z;
  cle_finished_ : bool;
  list_started_ : bool
}.

Notation Chunked := (M (RlpChunkedListEncoder * RlpEncoder) StreamingError).

Definition chunked_create (chunk_size : Z) : outcome StreamingError RlpChunkedListEncoder :=
  if chunk_size =? 0 then failure kInvalidChunkSize
  else success (mkChunked chunk_size [] 0 0 false false).

(** The result of [add] is ignored, as in the code. *)
Definition flushBuffer (se : RlpChunkedListEncoder * RlpEncoder) : RlpChunkedListEncoder * RlpEncoder :=
  let '(s, e) := se in
  match cle_buffer_ s with
  | [] => se
  | _ =>
      let e' := (add_bytes (cle_buffer_ s) e).2 in
      (mkChunked (chunk_size_ s) [] (u64 (chunk_count_ s + 1)) (total_bytes_ s) (cle_finished_ s) (list_started_ s), e')
  end.

(** The copy loop of [addChunk]; [data] is what is left to copy.  One unit of
    fuel per iteration. *)
Fixpoint chunked_copy (fuel : nat) (data : list byte) (se : RlpChunkedListEncoder * RlpEncoder) :
    option (RlpChunkedListEncoder * RlpEncoder) :=
  match fuel, data with
  | _, [] => Some se
  | O, _ => None
  | S fuel', _ =>
      let '(s, e) := se in
      let space_left := u64 (chunk_size_ s - Zlen (cle_buffer_ s)) in
      let to_copy := Z.min space_left (Zlen data) in
      let s' := mkChunked (chunk_size_ s) (cle_buffer_ s ++ take (Z.to_nat to_copy) data) (chunk_count_ s)
                  (u64 (total_bytes_ s + to_copy)) (cle_finished_ s) (list_started_ s) in
      let se' := if chunk_size_ s <=? Zlen (cle_buffer_ s') then flushBuffer (s', e) else (s', e) in
      chunked_copy fuel' (drop (Z.to_nat to_copy) data) se'
  end.

Definition start_list (s : RlpChunkedListEncoder) : RlpChunkedListEncoder :=
  mkChunked (chunk_size_ s) (cle_buffer_ s) (chunk_count_ s) (total_bytes_ s) (cle_finished_ s) true.

Definition chunked_addChunk (data : list byte) : Chunked unit := fun '(s, e) =>
  if cle_finished_ s then (failure kAlreadyFinalized, (s, e)) else
  let '(s1, e1) := if list_started_ s then (s, e) else (start_list s, (BeginList e).2) in
  match chunked_copy (length data) data (s1, e1) with
  | Some se => (success tt, se)
  | None => (crash Diverge, (s1, e1))
  end.

Definition chunked_finish : Chunked unit := fun '(s, e) =>
  if cle_finished_ s then (failure kAlreadyFinalized, (s, e)) else
  let s0 := mkChunked (chunk_size_ s) (cle_buffer_ s) (chunk_count_ s) (total_bytes_ s) true (list_started_ s) in
  let '(s1, e1) := flushBuffer (s0, e) in
  if list_started_ s1 then
    match EndList e1 with
    | (success _, e2) => (success tt, (s1, e2))
    | (failure _, e2) => (failure kNotFinalized, (s1, e2))
    | (crash f, e2) => (crash f, (s1, e2))
    end
  else
    match (BeginList ;; EndList) e1 with
    | (success _, e2) => (success tt, (s1, e2))
    | (failure _, e2) => (failure kNotFinalized, (s1, e2))
    | (crash f, e2) => (crash f, (s1, e2))
    end.

Definition encodeChunkedList (chunk_size : Z) (chunks : list (list byte)) : M RlpEncoder StreamingError unit := fun e =>
  match chunked_create chunk_size with
  | failure err => (failure err, e)
  | crash f => (crash f, e)
  | success s =>
      let '(result, se') := for_each chunked_addChunk chunks (s, e) in
      let '(fin, (_, e')) := (if cle_finished_ se'.1 then (success tt, se') else chunked_finish se') in
      match result, fin with
      | crash f, _ => (crash f, e')
      | _, crash f => (crash f, e')
      | r, _ => (r, e')
      end
  end.

(** ** Approach A: RlpLargeStringDecoder *)

Record RlpLargeStringDecoder := mkLargeDec {
  lsd_view_ : ByteView;
  lsd_payload_size_ : Z;
  bytes_read_ : Z;
  lsd_initialized_ : bool
}.

Definition large_decoder (data : ByteView) : RlpLargeStringDecoder := mkLargeDec data 0 0 false.

Definition peekPayloadSize (d : RlpLargeStringDecoder) : outcome DecodingError Z :=
  match PeekHeader (lsd_view_ d) with
  | (failure e, _) => failure e
  | (crash f, _) => crash f
  | (success h, _) =>
      if is_list h then failure kUnexpectedList else
      if Zlen (lsd_view_ d) <? u64 (header_size_bytes h + payload_size_bytes h) then failure kInputTooShort
      else success (payload_size_bytes h)
  end.

(** The first read consumes the header. *)
Definition large_init : M RlpLargeStringDecoder DecodingError unit := fun d =>
  if lsd_initialized_ d then (success tt, d) else
  match PeekHeader (lsd_view_ d) with
  | (failure e, _) => (failure e, d)
  | (crash f, _) => (crash f, d)
  | (success h, _) =>
      if is_list h then (failure kUnexpectedList, d) else
      if Zlen (lsd_view_ d) <? u64 (header_size_bytes h + payload_size_bytes h) then (failure kInputTooShort, d) else
      match remove_prefix (header_size_bytes h) (lsd_view_ d) with
      | (success _, v) => (success tt, mkLargeDec v (payload_size_bytes h) (bytes_read_ d) true)
      | (failure e, _) => (failure e, d)
      | (crash f, _) => (crash f, d)
      end
  end.

(** [readChunk] after the initialisation. *)
Definition large_next (max_chunk_size : Z) : M RlpLargeStringDecoder DecodingError ByteView := fun d =>
    if lsd_payload_size_ d <=? bytes_read_ d then (success [], d) else
    let remaining := lsd_payload_size_ d - bytes_read_ d in
    let chunk_size := Z.min remaining max_chunk_size in
    let chunk := take (Z.to_nat chunk_size) (lsd_view_ d) in
    match remove_prefix chunk_size (lsd_view_ d) with
    | (success _, v) => (success chunk, mkLargeDec v (lsd_payload_size_ d) (u64 (bytes_read_ d + chunk_size)) true)
    | (failure e, _) => (failure e, d)
    | (crash f, _) => (crash f, d)
    end.

Definition large_readChunk (max_chunk_size : Z) : M RlpLargeStringDecoder DecodingError ByteView :=
  large_init ;; large_next max_chunk_size.

(** [decodeLargeString]: the chunks the callback receives. *)
Fixpoint decode_large_loop (fuel : nat) (read_chunk_size : Z) (d : RlpLargeStringDecoder) :
    outcome DecodingError (list ByteView) :=
  match fuel with
  | O => crash Diverge
  | S fuel' =>
      match large_readChunk read_chunk_size d with
      | (failure e, _) => failure e
      | (crash f, _) => crash f
      | (success [], _) => success []
      | (success chunk, d') => chunks ← decode_large_loop fuel' read_chunk_size d'; mret (chunk :: chunks)
      end
  end.

Definition decodeLargeString (read_chunk_size : Z) (view : ByteView) : outcome DecodingError (list ByteView) :=
  decode_large_loop (S (length view)) read_chunk_size (large_decoder view).

(** ** Approach B: RlpChunkedListDecoder *)

Record RlpChunkedListDecoder := mkChunkedDec {
  cld_view_ : ByteView;
  list_payload_ : ByteView;
  total_size_ : Z;
  total_chunks_ : Z;
  chunk_index_ : Z;
  cld_initialized_ : bool
}.

Definition chunked_decoder (data : ByteView) : RlpChunkedListDecoder := mkChunkedDec data [] 0 0 0 false.

(** The scan over the payload of [peekTotalSize] and of the first [readChunk]:
    (sum of the payload sizes, number of chunks). *)
Fixpoint scan_chunks (fuel : nat) (list_view : ByteView) (total chunks : Z) : outcome DecodingError (Z * Z) :=
  match fuel, list_view with
  | _, [] => success (total, chunks)
  | O, _ => crash Diverge
  | S fuel', _ =>
      match PeekHeader list_view with
      | (failure e, _) => failure e
      | (crash f, _) => crash f
      | (success h, _) =>
          if is_list h then failure kUnexpectedList else
          let chunk_total_size := u64 (header_size_bytes h + payload_size_bytes h) in
          if Zlen list_view <? chunk_total_size then failure kInputTooShort else
          scan_chunks fuel' (drop (Z.to_nat chunk_total_size) list_view)
            (u64 (total + payload_size_bytes h)) (u64 (chunks + 1))
      end
  end.

(** The list header of the own view, as both operations check it. *)
Definition peek_list_header (v : ByteView) : outcome DecodingError Header :=
  match PeekHeader v with
  | (failure e, _) => failure e
  | (crash f, _) => crash f
  | (success h, _) =>
      if negb (is_list h) then failure kUnexpectedString else
      if Zlen v <? u64 (header_size_bytes h + payload_size_bytes h) then failure kInputTooShort else success h
  end.

Definition peekTotalSize : M RlpChunkedListDecoder DecodingError Z := fun d =>
  if cld_initialized_ d && (0 <? total_size_ d) then (success (total_size_ d), d) else
  match (h ← peek_list_header (cld_view_ d);
         list_view ← substr (cld_view_ d) (header_size_bytes h) (payload_size_bytes h);
         scan_chunks (length list_view) list_view 0 0) with
  | success (total, chunks) =>
      (success total, mkChunkedDec (cld_view_ d) (list_payload_ d) total chunks (chunk_index_ d) (cld_initialized_ d))
  | failure e => (failure e, d)
  | crash f => (crash f, d)
  end.

Definition peekChunkCount : M RlpChunkedListDecoder DecodingError Z := fun d =>
  if cld_initialized_ d && (0 <? total_chunks_ d) then (success (total_chunks_ d), d) else
  match peekTotalSize d with
  | (success _, d') => (success (total_chunks_ d'), d')
  | (failure e, d') => (failure e, d')
  | (crash f, d') => (crash f, d')
  end.

(** The first read: the header is consumed, and the chunks are counted unless
    they were peeked at.  A failing count leaves the header consumed. *)
Definition chunked_init : M RlpChunkedListDecoder DecodingError unit := fun d =>
  if cld_initialized_ d then (success tt, d) else
  match peek_list_header (cld_view_ d) with
  | failure e => (failure e, d)
  | crash f => (crash f, d)
  | success h =>
      match remove_prefix (header_size_bytes h) (cld_view_ d) with
      | (failure e, _) => (failure e, d)
      | (crash f, _) => (crash f, d)
      | (success _, v) =>
          let list_payload := take (Z.to_nat (payload_size_bytes h)) v in
          let d' chunks init := mkChunkedDec v list_payload (total_size_ d) chunks (chunk_index_ d) init in
          if total_chunks_ d =? 0 then
            match scan_chunks (length list_payload) list_payload 0 0 with
            | success (_, chunks) => (success tt, d' chunks true)
            | failure e => (failure e, d' 0 false)
            | crash f => (crash f, d' 0 false)
            end
          else (success tt, d' (total_chunks_ d) true)
      end
  end.

(** [readChunk] after the initialisation. *)
Definition chunked_next : M RlpChunkedListDecoder DecodingError ByteView := fun d =>
    let with_view v p i := mkChunkedDec v p (total_size_ d) (total_chunks_ d) i true in
    if (total_chunks_ d <=? chunk_index_ d) || bool_decide (list_payload_ d = []) then
      match list_payload_ d with
      | [] => (success [], d)
      | _ =>
          match remove_prefix (Zlen (list_payload_ d)) (cld_view_ d) with
          | (success _, v) => (success [], with_view v [] (chunk_index_ d))
          | (failure e, _) => (failure e, d)
          | (crash f, _) => (crash f, d)
          end
      end
    else
      match PeekHeader (list_payload_ d) with
      | (failure e, _) => (failure e, d)
      | (crash f, _) => (crash f, d)
      | (success h, _) =>
          if is_list h then (failure kUnexpectedList, d) else
          let chunk_total_size := u64 (header_size_bytes h + payload_size_bytes h) in
          if Zlen (list_payload_ d) <? chunk_total_size then (failure kInputTooShort, d) else
          match substr (list_payload_ d) (header_size_bytes h) (payload_size_bytes h) with
          | failure e => (failure e, d)
          | crash f => (crash f, d)
          | success chunk_payload =>
              (success chunk_payload,
               with_view (cld_view_ d) (drop (Z.to_nat chunk_total_size) (list_payload_ d)) (u64 (chunk_index_ d + 1)))
          end
      end.

Definition chunked_readChunk : M RlpChunkedListDecoder DecodingError ByteView :=
  chunked_init ;; chunked_next.

(** [decodeChunkedList]: the chunks the callback receives. *)
Fixpoint decode_chunked_loop (fuel : nat) (d : RlpChunkedListDecoder) : outcome DecodingError (list ByteView) :=
  match fuel with
  | O => crash Diverge
  | S fuel' =>
      match chunked_readChunk d with
      | (failure e, _) => failure e
      | (crash f, _) => crash f
      | (success [], _) => success []
      | (success chunk, d') => chunks ← decode_chunked_loop fuel' d'; mret (chunk :: chunks)
      end
  end.

Definition decodeChunkedList (view : ByteView) : outcome DecodingError (list ByteView) :=
  decode_chunked_loop (S (length view)) (chunked_decoder view).

Definition decodeChunkedListFull (view : ByteView) : outcome DecodingError (list byte) :=
  chunks ← decodeChunkedList view; mret (concat chunks).

(** ** Approach A, encoding *)

Lemma encode_string_header_spec n : 0 <= n < 2 ^ 64 -> encode_string_header n = rlp_header 128 n.
Proof.
  intros Hn. pose proof (encode_header_bytes_spec false n Hn) as H.
  unfold encode_header_bytes in H. unfold encode_string_header. revert H. repeat case_match; by intros [= <-].
Qed.

Lemma write_at_app a m c bs :
  length m = length bs -> write_at (Zlen a) bs (a ++ m ++ c) = Some (a ++ bs ++ c).
Proof.
  intros Hl. unfold write_at. rewrite (proj2 (Z.leb_le 0 _)) by lia.
  rewrite (proj2 (Z.leb_le _ _)) by (rewrite !length_app; lia). cbn [andb].
  rewrite Nat2Z.id, take_app_length. do 3 f_equal.
  rewrite <- Hl. replace (length a + length m)%nat with (length (a ++ m)) by (rewrite length_app; lia).
  by rewrite app_assoc, drop_app_length.
Qed.

Lemma read_at_app a m c : read_at (Zlen a) (Zlen m) (a ++ m ++ c) = Some m.
Proof.
  unfold read_at. rewrite !(proj2 (Z.leb_le 0 _)) by lia.
  rewrite (proj2 (Z.leb_le _ _)) by (rewrite !length_app; lia). cbn [andb].
  by rewrite drop_app_Zlen, take_app_Zlen.
Qed.

(** Patching closes the gap between header and payload. *)
Lemma patch_header_spec pre hdr payload fin :
  (0 < length hdr <= 9)%nat ->
  patch_header (mkLarge (Zlen pre) (Zlen pre + 9) (Zlen payload) fin) hdr (pre ++ replicate 9 x00 ++ payload)
  = Some (pre ++ hdr ++ payload).
Proof.
  intros Hh. set (z1 := replicate (length hdr) x00). set (z2 := replicate (9 - length hdr) x00).
  assert (replicate 9 x00 = z1 ++ z2) as ->.
  { unfold z1, z2. rewrite <- replicate_add. f_equal. lia. }
  assert (length z1 = length hdr) as L1 by apply length_replicate.
  assert (length z2 = 9 - length hdr)%nat as L2 by apply length_replicate.
  unfold patch_header. cbn [header_start_ payload_start_ payload_size_]. unfold kReservedHeader.
  rewrite <- app_assoc, write_at_app by done. cbn [mbind option_bind].
  destruct (Z.ltb_spec 0 (9 - Zlen hdr)) as [Hs|Hs].
  - replace (Zlen pre + 9) with (Zlen (pre ++ hdr ++ z2)) by (rewrite !length_app; lia).
    replace (pre ++ hdr ++ z2 ++ payload) with ((pre ++ hdr ++ z2) ++ payload ++ [])
      by (by rewrite app_nil_r, <- !app_assoc).
    rewrite read_at_app. cbn [mbind option_bind].
    replace (Zlen pre + Zlen hdr) with (Zlen (pre ++ hdr)) by (rewrite length_app; lia).
    set (t := z2 ++ payload).
    replace ((pre ++ hdr ++ z2) ++ payload ++ []) with
      ((pre ++ hdr) ++ take (length payload) t ++ drop (length payload) t)
      by (rewrite take_drop; unfold t; by rewrite app_nil_r, <- !app_assoc).
    rewrite write_at_app by (rewrite length_take; unfold t; rewrite length_app; lia).
    cbn [mbind option_bind]. f_equal.
    set (gap := drop (length payload) t).
    assert (Zlen gap = 9 - Zlen hdr) as Hgap.
    { unfold gap. rewrite length_drop. unfold t. rewrite length_app. lia. }
    replace ((pre ++ hdr) ++ payload ++ gap) with ((pre ++ hdr ++ payload) ++ gap) by (by rewrite <- !app_assoc).
    replace (Zlen ((pre ++ hdr ++ payload) ++ gap) - (9 - Zlen hdr)) with (Zlen (pre ++ hdr ++ payload))
      by (rewrite (length_app _ gap); lia).
    apply take_app_Zlen.
  - assert (z2 = []) as -> by (apply nil_length_inv; lia). done.
Qed.

(** A stream in progress over an encoder that held [pre]: [payload] was added. *)
Definition streaming (pre payload : list byte) : RlpLargeStringEncoder * RlpEncoder :=
  (mkLarge (Zlen pre) (Zlen pre + 9) (Zlen payload) false, mkEnc (pre ++ replicate 9 x00 ++ payload) []).

Lemma large_create_spec pre : large_create (mkEnc pre []) = success (streaming pre []).
Proof.
  unfold large_create, GetBytes, streaming, kReservedHeader. cbn [list_start_positions_ buffer_].
  rewrite app_nil_r. do 3 f_equal; rewrite length_app, length_replicate; simpl; lia.
Qed.

Lemma large_addChunk_spec pre payload chunk :
  Zlen (payload ++ chunk) < 2 ^ 64 ->
  large_addChunk chunk (streaming pre payload) = (success tt, streaming pre (payload ++ chunk)).
Proof.
  intros Hl. unfold large_addChunk, streaming, GetBytes. cbn [lse_finished_ list_start_positions_ buffer_ payload_size_
    header_start_ payload_start_].
  rewrite u64_small by (rewrite length_app in Hl; lia). rewrite length_app, Nat2Z.inj_add. by rewrite <- !app_assoc.
Qed.

Lemma large_chunks_spec pre payload chunks :
  Zlen (payload ++ concat chunks) < 2 ^ 64 ->
  for_each large_addChunk chunks (streaming pre payload) = (success tt, streaming pre (payload ++ concat chunks)).
Proof.
  revert payload. induction chunks as [|c chunks IH]; intros payload Hl; simpl.
  - by rewrite app_nil_r.
  - simpl in Hl. rewrite app_assoc in Hl.
    erewrite bind_success; [|apply large_addChunk_spec; rewrite length_app in Hl; lia].
    rewrite IH by done. by rewrite <- app_assoc.
Qed.

Lemma large_finish_spec pre payload :
  Zlen payload < 2 ^ 64 ->
  exists s, large_finish (streaming pre payload) =
    (success tt, (s, mkEnc (pre ++ rlp_header 128 (Zlen payload) ++ payload) [])).
Proof.
  intros Hl. unfold large_finish, streaming, GetBytes.
  cbn [lse_finished_ list_start_positions_ buffer_ payload_size_ header_start_ payload_start_].
  rewrite encode_string_header_spec by lia. pose proof (length_rlp_header 128 (Zlen payload) ltac:(lia)).
  rewrite bool_decide_false by apply rlp_header_nonnil. cbn [andb].
  rewrite (proj2 (Z.leb_le _ _)) by (unfold kReservedHeader; lia).
  rewrite patch_header_spec by lia. eauto.
Qed.

Lemma encodeLargeString_spec pre chunks :
  Zlen (concat chunks) < 2 ^ 64 ->
  encodeLargeString chunks (mkEnc pre []) =
    (success tt, mkEnc (pre ++ rlp_header 128 (Zlen (concat chunks)) ++ concat chunks) []).
Proof.
  intros Hl. unfold encodeLargeString. rewrite large_create_spec, large_chunks_spec by done.
  rewrite app_nil_l. destruct (large_finish_spec pre (concat chunks) Hl) as [s E].
  change (lse_finished_ (streaming pre (concat chunks)).1) with false. cbv iota. by rewrite E.
Qed.

(** ** Approach B, encoding *)

(** The strings of a chunk list. *)
Definition rlp_chunks (cs : list (list byte)) : list byte := concat (map rlp_string cs).

(** A chunked stream over an encoder that held [pre] under the open lists [stk]:
    [full] chunks of exactly [k] bytes were written, [b] is buffered. *)
Record chunking (k : Z) (pre : list byte) (stk : list Z) (full : list (list byte)) (b : list byte)
    (s : RlpChunkedListEncoder) (e : RlpEncoder) : Prop := {
  ck_size : chunk_size_ s = k;
  ck_buffer : cle_buffer_ s = b;
  ck_open : cle_finished_ s = false;
  ck_started : list_started_ s = true;
  ck_encoder : e = mkEnc (pre ++ rlp_chunks full) (Zlen pre :: stk);
  ck_full : Forall (fun c => Zlen c = k) full;
  ck_partial : Zlen b < k
}.

Lemma rlp_chunks_snoc cs c : rlp_chunks (cs ++ [c]) = rlp_chunks cs ++ rlp_string c.
Proof. unfold rlp_chunks. by rewrite map_app, concat_app; simpl; rewrite app_nil_r. Qed.

Lemma chunked_copy_spec k pre stk fuel data : 
  0 < k < 2 ^ 64 -> (length data <= fuel)%nat -> forall full b s e,
  chunking k pre stk full b s e ->
  exists s' e' full' b', chunked_copy fuel data (s, e) = Some (s', e') /\
    chunking k pre stk full' b' s' e' /\ concat full' ++ b' = concat full ++ b ++ data.
Proof.
  intros Hk. revert data. induction fuel as [|fuel IH]; intros data Hfuel full b s e Hc.
  { destruct data; [|simpl in Hfuel; lia]. exists s, e, full, b. by rewrite app_nil_r. }
  destruct data as [|x data'] eqn:Ed; [exists s, e, full, b; by rewrite app_nil_r|].
  rewrite <- Ed in *. assert (0 < Zlen data) as Hd by (rewrite Ed; simpl; lia).
  destruct Hc as [Hsz Hb Hfin Hst He Hfull Hpart].
  assert (chunked_copy (S fuel) data (s, e) =
    let to_copy := Z.min (k - Zlen b) (Zlen data) in
    let s' := mkChunked k (b ++ take (Z.to_nat to_copy) data) (chunk_count_ s) (u64 (total_bytes_ s + to_copy)) false true in
    let se' := if k <=? Zlen (cle_buffer_ s') then flushBuffer (s', e) else (s', e) in
    chunked_copy fuel (drop (Z.to_nat to_copy) data) se') as ->.
  { rewrite Ed. cbn [chunked_copy]. rewrite Hsz, Hb, Hfin, Hst. rewrite u64_small by lia. done. }
  cbv zeta. cbn [cle_buffer_]. set (n := Z.min (k - Zlen b) (Zlen data)). set (c := take (Z.to_nat n) data).
  assert (Zlen c = n) as Hc by (unfold c; rewrite length_take; lia).
  destruct (Z.leb_spec k (Zlen (b ++ c))) as [Hge|Hlt]; rewrite length_app in *.
  - unfold flushBuffer. cbn [cle_buffer_].
    assert (exists y l, b ++ c = y :: l) as (y & l & Ey).
    { destruct (b ++ c) eqn:E; [|eauto]. apply (f_equal length) in E. rewrite length_app in E. simpl in E. lia. }
    rewrite Ey. rewrite <- Ey. rewrite He.
    rewrite (appends_add_bytes (b ++ c)) by (rewrite length_app; lia). cbn [snd buffer_ list_start_positions_].
    match goal with |- context [chunked_copy fuel _ (?s1, ?e1)] =>
      destruct (IH (drop (Z.to_nat n) data) ltac:(rewrite length_drop; lia) (full ++ [b ++ c]) [] s1 e1)
        as (s' & e' & full' & b' & E & Hc' & Hcat) end.
    + split; cbn [chunk_size_ cle_buffer_ cle_finished_ list_started_]; try done.
      * by rewrite rlp_chunks_snoc, app_assoc.
      * apply Forall_app. split; [done|]. constructor; [|done]. rewrite length_app. lia.
      * simpl. lia.
    + exists s', e', full', b'. split; [exact E|]. split; [done|]. rewrite Hcat, concat_app. simpl.
      rewrite app_nil_r, <- !app_assoc. unfold c. by rewrite take_drop.
  - match goal with |- context [chunked_copy fuel _ (?s1, ?e1)] =>
      destruct (IH (drop (Z.to_nat n) data) ltac:(rewrite length_drop; lia) full (b ++ c) s1 e1)
        as (s' & e' & full' & b' & E & Hc' & Hcat) end.
    + split; cbn [chunk_size_ cle_buffer_ cle_finished_ list_started_]; try done. rewrite length_app. lia.
    + exists s', e', full', b'. split; [exact E|]. split; [done|]. rewrite Hcat, <- app_assoc. unfold c.
      by rewrite take_drop.
Qed.

Lemma chunked_addChunk_spec k pre stk full b s e data :
  0 < k < 2 ^ 64 -> chunking k pre stk full b s e ->
  exists s' e' full' b', chunked_addChunk data (s, e) = (success tt, (s', e')) /\
    chunking k pre stk full' b' s' e' /\ concat full' ++ b' = concat full ++ b ++ data.
Proof.
  intros Hk Hc. unfold chunked_addChunk. rewrite (ck_open _ _ _ _ _ _ _ Hc), (ck_started _ _ _ _ _ _ _ Hc).
  destruct (chunked_copy_spec k pre stk (length data) data Hk (le_n _) full b s e Hc)
    as (s' & e' & full' & b' & E & ?). rewrite E. eauto 10.
Qed.

Lemma chunked_chunks_spec k pre stk chunks full b s e :
  0 < k < 2 ^ 64 -> chunking k pre stk full b s e ->
  exists s' e' full' b', for_each chunked_addChunk chunks (s, e) = (success tt, (s', e')) /\
    chunking k pre stk full' b' s' e' /\ concat full' ++ b' = concat full ++ b ++ concat chunks.
Proof.
  intros Hk. revert full b s e. induction chunks as [|c chunks IH]; intros full b s e Hc.
  - exists s, e, full, b. simpl. by rewrite app_nil_r.
  - destruct (chunked_addChunk_spec _ _ _ _ _ _ _ c Hk Hc) as (s1 & e1 & full1 & b1 & E1 & Hc1 & Hcat1).
    destruct (IH _ _ _ _ Hc1) as (s2 & e2 & full2 & b2 & E2 & Hc2 & Hcat2).
    exists s2, e2, full2, b2. cbn [for_each]. rewrite (bind_success _ _ _ _ _ E1). split; [done|]. split; [done|].
    rewrite Hcat2. simpl. rewrite app_assoc, Hcat1. by rewrite <- !app_assoc.
Qed.

(** The chunks of [data]: full ones, and a shorter non-empty last one. *)
Definition chunks_of (k : Z) (data : list byte) (cs : list (list byte)) : Prop :=
  exists full b, cs = full ++ (match b with [] => [] | _ => [b] end) /\
    Forall (fun c => Zlen c = k) full /\ Zlen b < k /\ concat cs = data.

Lemma rlp_chunks_length cs :
  Forall (fun c => 0 < Zlen c < 2 ^ 64) cs -> Zlen (rlp_chunks cs) <= 10 * Zlen (concat cs).
Proof.
  induction 1 as [|c cs Hc Hcs IH]; [done|]. unfold rlp_chunks in *. simpl. rewrite !length_app.
  pose proof (rlp_string_length_le c ltac:(lia)). lia.
Qed.

Lemma chunks_of_nonempty k data cs :
  0 < k < 2 ^ 64 -> chunks_of k data cs -> Forall (fun c => 0 < Zlen c < 2 ^ 64) cs.
Proof.
  intros Hk (full & b & -> & Hfull & Hb & _). apply Forall_app. split.
  - eapply Forall_impl; [apply Hfull|]. simpl. intros c ->. lia.
  - destruct b; [done|]. constructor; [|done]. simpl in *. lia.
Qed.

Lemma chunked_finish_spec k pre stk full b s e :
  0 < k < 2 ^ 64 -> Zlen (concat full ++ b) < 2 ^ 59 -> chunking k pre stk full b s e ->
  exists s' cs, chunked_finish (s, e) = (success tt, (s', mkEnc (pre ++ rlp_list (rlp_chunks cs)) stk)) /\
    chunks_of k (concat full ++ b) cs.
Proof.
  intros Hk Hl [Hsz Hb Hfin Hst He Hfull Hpart].
  set (cs := full ++ (match b with [] => [] | _ => [b] end)).
  assert (concat cs = concat full ++ b) as Hcat.
  { unfold cs. rewrite concat_app. f_equal. destruct b; simpl; [done|]. by rewrite app_nil_r. }
  assert (chunks_of k (concat full ++ b) cs) as Hcs by (exists full, b; done).
  pose proof (rlp_chunks_length cs (chunks_of_nonempty _ _ _ Hk Hcs)) as Hlen. rewrite Hcat in Hlen.
  unfold chunked_finish. rewrite Hfin. unfold flushBuffer. cbn [cle_buffer_]. rewrite Hb.
  destruct b as [|x b'] eqn:Eb.
  - cbn [list_started_]. rewrite Hst, He. unfold cs in *. rewrite app_nil_r in Hlen.
    rewrite EndList_spec by lia. eexists _, full. split; [done|]. exists full, []. split_and!; [by rewrite app_nil_r|done|done|].
    by rewrite app_nil_r.
  - rewrite <- Eb in *. cbn [list_started_]. rewrite Hst, He.
    rewrite (appends_add_bytes b) by lia. cbn [snd buffer_ list_start_positions_].
    assert (rlp_chunks cs = rlp_chunks full ++ rlp_string b) as Hch.
    { unfold cs. rewrite Eb. apply rlp_chunks_snoc. }
    rewrite <- app_assoc, <- Hch. rewrite EndList_spec by lia. eauto.
Qed.

Lemma encodeChunkedList_spec k chunks pre stk :
  0 < k < 2 ^ 64 -> Zlen (concat chunks) < 2 ^ 59 ->
  exists cs, encodeChunkedList k chunks (mkEnc pre stk) = (success tt, mkEnc (pre ++ rlp_list (rlp_chunks cs)) stk) /\
    chunks_of k (concat chunks) cs.
Proof.
  intros Hk Hl. unfold encodeChunkedList, chunked_create. rewrite (proj2 (Z.eqb_neq k 0)) by lia.
  set (s0 := mkChunked k [] 0 0 false false).
  destruct chunks as [|c chunks].
  { cbn [for_each mret M_ret fst]. cbn [cle_finished_ s0]. unfold chunked_finish. cbn [cle_finished_ s0 flushBuffer cle_buffer_ list_started_].
    exists []. split; [|exists [], []; split_and!; try done; simpl; lia].
    unfold mbind, M_bind, BeginList. cbn [buffer_ list_start_positions_].
    pose proof (EndList_spec pre stk [] ltac:(simpl; lia)) as E. rewrite app_nil_r in E. by rewrite E. }
  assert (chunking k pre stk [] [] (start_list s0) (mkEnc pre (Zlen pre :: stk))) as H0.
  { split; try done; [|simpl; lia]. unfold rlp_chunks. simpl. by rewrite app_nil_r. }
  assert (for_each chunked_addChunk (c :: chunks) (s0, mkEnc pre stk) =
    for_each chunked_addChunk (c :: chunks) (start_list s0, mkEnc pre (Zlen pre :: stk))) as -> by done.
  destruct (chunked_chunks_spec k pre stk (c :: chunks) [] [] _ _ Hk H0) as (s' & e' & full & b & E & Hc & Hcat).
  rewrite E. cbn [fst]. rewrite (ck_open _ _ _ _ _ _ _ Hc). simpl (concat [] ++ [] ++ _) in Hcat.
  destruct (chunked_finish_spec k pre stk full b s' e' Hk) as (s2 & cs & E2 & Hcs); [by rewrite Hcat|done|].
  rewrite E2. exists cs. by rewrite Hcat in Hcs.
Qed.

(** ** Approach A, decoding *)

(** A decoder past the header: [q] of the [n] payload bytes are left. *)
Definition reading (n : Z) (q rest : ByteView) : RlpLargeStringDecoder := mkLargeDec (q ++ rest) n (n - Zlen q) true.

Lemma large_init_spec v pre p rest :
  fits v -> string_at v pre p rest -> large_init (large_decoder v) = (success tt, reading (Zlen p) p rest).
Proof.
  intros Hv Hs. unfold large_init, large_decoder. cbn [lsd_initialized_ lsd_view_ bytes_read_].
  rewrite (on_string_peek _ _ _ _ Hs). cbn [is_list header_size_bytes payload_size_bytes].
  rewrite (on_string_u64 _ _ _ _ Hs Hv), (on_string_long_enough _ _ _ _ Hs) by done.
  pose proof (string_at_view _ _ _ _ Hs) as ->. rewrite remove_prefix_app by done.
  unfold reading. by rewrite Z.sub_diag.
Qed.

Lemma large_readChunk_reading c n q rest :
  large_readChunk c (reading n q rest) = large_next c (reading n q rest).
Proof. done. Qed.

Lemma large_next_spec c n q rest :
  0 < c -> q <> [] -> Zlen q <= n < 2 ^ 64 ->
  let k := Z.to_nat (Z.min (Zlen q) c) in
  large_next c (reading n q rest) = (success (take k q), reading n (drop k q) rest).
Proof.
  intros Hc Hq Hn k. assert (0 < Zlen q) by (destruct q; [done|simpl; lia]).
  unfold large_next, reading. cbn [lsd_payload_size_ bytes_read_ lsd_view_].
  rewrite (proj2 (Z.leb_gt _ _)) by lia. replace (n - (n - Zlen q)) with (Zlen q) by lia.
  set (m := Z.min (Zlen q) c). unfold remove_prefix.
  rewrite (proj2 (Z.ltb_ge _ _)) by (rewrite length_app; lia).
  fold k. rewrite take_app_le, drop_app_le by (unfold k, m; lia). do 3 f_equal.
  rewrite u64_small by lia. rewrite length_drop. unfold k, m. lia.
Qed.

Lemma decode_large_loop_spec c fuel n q rest :
  0 < c -> Zlen q <= n < 2 ^ 64 -> (length q < fuel)%nat ->
  exists cs, decode_large_loop fuel c (reading n q rest) = success cs /\ concat cs = q /\
    Forall (fun x => 0 < Zlen x <= c) cs.
Proof.
  intros Hc. revert q. induction fuel as [|fuel IH]; intros q Hn Hfuel; [lia|].
  cbn [decode_large_loop]. rewrite large_readChunk_reading. destruct q as [|b q'] eqn:Eq.
  - exists []. split; [|done]. unfold large_next, reading. cbn [lsd_payload_size_ bytes_read_].
    change (Zlen []) with 0. by rewrite Z.sub_0_r, Z.leb_refl.
  - rewrite <- Eq in *. assert (0 < Zlen q) as Hq by (rewrite Eq; simpl; lia).
    rewrite large_next_spec; [|done|by rewrite Eq|lia]. set (k := Z.to_nat (Z.min (Zlen q) c)).
    destruct (IH (drop k q)) as (cs & E & Hcat & Hlen); [rewrite length_drop; lia..|].
    assert (Zlen (take k q) = Z.of_nat k) as Hk by (rewrite length_take; unfold k; lia).
    destruct (take k q) as [|y l] eqn:Et; [simpl in Hk; unfold k in Hk; lia|]. rewrite <- Et in *.
    rewrite E. exists (take k q :: cs). split; [done|]. split; [simpl; by rewrite Hcat, take_drop|].
    constructor; [rewrite Hk; unfold k; lia|done].
Qed.

Lemma decodeLargeString_spec c p rest :
  0 < c -> fits (rlp_string p ++ rest) ->
  exists cs, decodeLargeString c (rlp_string p ++ rest) = success cs /\ concat cs = p /\
    Forall (fun x => 0 < Zlen x <= c) cs.
Proof.
  intros Hc Hf. assert (Zlen p < 2 ^ 64) as Hp.
  { unfold fits in Hf. rewrite length_app in Hf. pose proof (rlp_string_length_ge p). lia. }
  destruct (string_at_rlp_string p rest Hp) as [pre Hs]. unfold decodeLargeString.
  set (v := rlp_string p ++ rest) in *.
  assert (decode_large_loop (S (length v)) c (large_decoder v) =
          decode_large_loop (S (length v)) c (reading (Zlen p) p rest)) as ->.
  { cbn [decode_large_loop]. unfold large_readChunk.
    by rewrite (bind_success _ _ _ _ _ (large_init_spec _ _ _ _ Hf Hs)). }
  apply decode_large_loop_spec; [done|lia|]. unfold v. rewrite length_app.
  pose proof (rlp_string_length_ge p). lia.
Qed.

(** ** Approach B, decoding *)

(** What the callback loop delivers: it takes the first empty chunk for the end. *)
Fixpoint until_empty (cs : list (list byte)) : list (list byte) :=
  match cs with
  | [] => []
  | [] :: _ => []
  | c :: cs' => c :: until_empty cs'
  end.

Lemma rlp_chunks_cons c cs : rlp_chunks (c :: cs) = rlp_string c ++ rlp_chunks cs.
Proof. done. Qed.

(** Peeking at the first chunk of a payload. *)
Lemma chunk_at c cs :
  fits (rlp_chunks (c :: cs)) -> exists pre, string_at (rlp_chunks (c :: cs)) pre c (rlp_chunks cs).
Proof.
  intros Hf. rewrite rlp_chunks_cons in *. apply string_at_rlp_string.
  unfold fits in Hf. rewrite length_app in Hf. pose proof (rlp_string_length_ge c). lia.
Qed.

Lemma rlp_chunks_nonnil c cs : exists b r, rlp_chunks (c :: cs) = b :: r.
Proof.
  rewrite rlp_chunks_cons. pose proof (rlp_string_pos c). destruct (rlp_string c); [simpl in *; lia|]. eauto.
Qed.

Lemma string_at_drop v pre p rest :
  string_at v pre p rest -> drop (Z.to_nat (Zlen pre + Zlen p)) v = rest.
Proof.
  intros [-> _ _]. rewrite app_assoc. replace (Zlen pre + Zlen p) with (Zlen (pre ++ p)) by (rewrite length_app; lia).
  apply drop_app_Zlen.
Qed.

Lemma scan_chunks_spec fuel cs total chunks :
  fits (rlp_chunks cs) -> (length cs <= fuel)%nat -> 0 <= chunks -> chunks + Zlen cs < 2 ^ 64 ->
  exists t, scan_chunks fuel (rlp_chunks cs) total chunks = success (t, chunks + Zlen cs).
Proof.
  revert fuel total chunks. induction cs as [|c cs IH]; intros fuel total chunks Hf Hfuel Hc Hn.
  { exists total. rewrite Z.add_0_r. by destruct fuel. }
  destruct fuel as [|fuel]; [simpl in Hfuel; lia|]. destruct (chunk_at c cs Hf) as [pre Hs].
  cbn [scan_chunks]. destruct (rlp_chunks_nonnil c cs) as (b & r & Eb). rewrite Eb. rewrite <- Eb in *.
  rewrite (on_string_peek _ _ _ _ Hs). cbn [is_list header_size_bytes payload_size_bytes].
  rewrite (on_string_u64 _ _ _ _ Hs Hf), (on_string_long_enough _ _ _ _ Hs), (string_at_drop _ _ _ _ Hs) by done.
  destruct (IH fuel (u64 (total + Zlen c)) (u64 (chunks + 1))) as [t E].
  - rewrite rlp_chunks_cons in Hf. by eapply fits_app_r.
  - simpl in Hfuel. lia.
  - apply u64_range.
  - simpl length in Hn. rewrite u64_small; lia.
  - exists t. rewrite E. do 2 f_equal. simpl length in *. rewrite u64_small; lia.
Qed.

(** A decoder past the list header: the chunks [cs] are left, after [i] others. *)
Definition unchunking (i : Z) (cs : list (list byte)) (v : ByteView) (t : Z) : RlpChunkedListDecoder :=
  mkChunkedDec v (rlp_chunks cs) t (i + Zlen cs) i true.

Lemma chunks_count cs : (length cs <= length (rlp_chunks cs))%nat.
Proof.
  apply concat_map_length_ge. intros x _ E. pose proof (rlp_string_pos x) as H. rewrite E in H. simpl in H. lia.
Qed.

Lemma chunked_init_spec cs rest :
  fits (rlp_list (rlp_chunks cs) ++ rest) ->
  chunked_init (chunked_decoder (rlp_list (rlp_chunks cs) ++ rest)) =
    (success tt, unchunking 0 cs (rlp_chunks cs ++ rest) 0).
Proof.
  intros Hf. unfold chunked_init, chunked_decoder, peek_list_header.
  cbn [cld_initialized_ cld_view_ total_chunks_ total_size_ chunk_index_].
  pose proof (list_header_at _ _ Hf) as Ha. rewrite (PeekHeader_at _ _ _ Ha).
  cbn [is_list negb header_size_bytes payload_size_bytes]. set (p := rlp_chunks cs) in *.
  unfold rlp_list in *. rewrite <- app_assoc in *. set (h := rlp_header 192 (Zlen p)) in *.
  assert (u64 (Zlen h + Zlen p) = Zlen h + Zlen p) as Hu.
  { apply u64_small. unfold fits in Hf. rewrite !length_app in Hf. lia. }
  rewrite Hu, (proj2 (Z.ltb_ge _ _)) by (rewrite !length_app; lia).
  rewrite remove_prefix_app by done. cbn [payload_size_bytes]. rewrite take_app_Zlen. change (0 =? 0) with true. cbv iota.
  assert (fits p) as Hp by (apply fits_app_r in Hf; by eapply fits_app_l).
  pose proof (chunks_count cs) as Hcount. fold p in Hcount.
  destruct (scan_chunks_spec (length p) cs 0 0) as [t E];
    [done|done|lia|unfold fits in Hp; lia|]. fold p in E. rewrite E. done.
Qed.

Lemma chunked_next_spec i c cs v t :
  fits (rlp_chunks (c :: cs)) -> 0 <= i -> i + Zlen (c :: cs) < 2 ^ 64 ->
  chunked_next (unchunking i (c :: cs) v t) = (success c, unchunking (i + 1) cs v t).
Proof.
  intros Hf Hi Hn. unfold chunked_next, unchunking.
  cbn [total_chunks_ chunk_index_ list_payload_ cld_view_ total_size_].
  destruct (chunk_at c cs Hf) as [pre Hs]. destruct (rlp_chunks_nonnil c cs) as (b & r & Eb).
  rewrite (proj2 (Z.leb_gt _ _)) by (simpl length; lia). rewrite bool_decide_false by (by rewrite Eb). cbn [orb].
  rewrite (on_string_peek _ _ _ _ Hs). cbn [is_list header_size_bytes payload_size_bytes].
  rewrite (on_string_u64 _ _ _ _ Hs Hf), (on_string_long_enough _ _ _ _ Hs), (string_at_drop _ _ _ _ Hs) by done.
  rewrite (on_string_substr _ _ _ _ Hs) by done. simpl length in *. rewrite (u64_small (i + 1)) by lia.
  by replace (i + Z.of_nat (S (length cs))) with (i + 1 + Zlen cs) by lia.
Qed.

Lemma decode_chunked_loop_spec fuel i cs v t :
  fits (rlp_chunks cs) -> 0 <= i -> i + Zlen cs < 2 ^ 64 -> (length cs < fuel)%nat ->
  decode_chunked_loop fuel (unchunking i cs v t) = success (until_empty cs).
Proof.
  revert i cs. induction fuel as [|fuel IH]; intros i cs Hf Hi Hn Hfuel; [lia|].
  cbn [decode_chunked_loop].
  assert (chunked_readChunk (unchunking i cs v t) = chunked_next (unchunking i cs v t)) as -> by done.
  destruct cs as [|c cs].
  - unfold chunked_next, unchunking. cbn [total_chunks_ chunk_index_ list_payload_]. change (Zlen []) with 0.
    rewrite Z.add_0_r, Z.leb_refl. done.
  - rewrite chunked_next_spec by done. destruct c as [|b c]; [done|].
    rewrite IH; [done| |lia|simpl length in *; lia|simpl in Hfuel; lia].
    rewrite rlp_chunks_cons in Hf. by eapply fits_app_r.
Qed.

Lemma decodeChunkedList_spec cs rest :
  fits (rlp_list (rlp_chunks cs) ++ rest) ->
  decodeChunkedList (rlp_list (rlp_chunks cs) ++ rest) = success (until_empty cs).
Proof.
  intros Hf. unfold decodeChunkedList. set (v := rlp_list (rlp_chunks cs) ++ rest) in *.
  assert (decode_chunked_loop (S (length v)) (chunked_decoder v) =
          decode_chunked_loop (S (length v)) (unchunking 0 cs (rlp_chunks cs ++ rest) 0)) as ->.
  { cbn [decode_chunked_loop]. unfold chunked_readChunk. by rewrite (bind_success _ _ _ _ _ (chunked_init_spec cs rest Hf)). }
  pose proof (chunks_count cs). pose proof (rlp_list_length_ge (rlp_chunks cs)).
  assert (fits (rlp_chunks cs)) as Hc.
  { apply fits_app_l in Hf. unfold fits in *. lia. }
  apply decode_chunked_loop_spec; [done|lia|unfold fits in Hc; lia|].
  unfold v. rewrite length_app. lia.
Qed.

Lemma until_empty_id cs : Forall (fun c => 0 < Zlen c < 2 ^ 64) cs -> until_empty cs = cs.
Proof. induction 1 as [|c cs Hc _ IH]; [done|]. destruct c; [simpl in Hc; lia|]. simpl. by rewrite IH. Qed.

(** ** Theorems *)

(** Streaming a payload of any length in any chunks through
    [RlpLargeStringEncoder] appends the header of the payload's length and the
    payload, closing the reserved gap without writing outside the buffer; unless
    the payload is a single byte below 128 this is its canonical encoding, and
    the streaming decoder returns the payload in chunks of the requested size. *)
Theorem large_string_stream (pre : list byte) (chunks : list (list byte)) (c : Z) (rest : ByteView) :
  0 < c -> fits (rlp_string (concat chunks) ++ rest) -> (forall b, concat chunks = [b] -> 128 <= u8 b) ->
  encodeLargeString chunks (mkEnc pre []) = (success tt, mkEnc (pre ++ rlp_string (concat chunks)) []) /\
  exists cs, decodeLargeString c (rlp_string (concat chunks) ++ rest) = success cs /\
    concat cs = concat chunks /\ Forall (fun x => 0 < Zlen x <= c) cs.
Proof.
  intros Hc Hf Hb. split; [|by apply decodeLargeString_spec].
  rewrite rlp_string_prefixed by done. apply encodeLargeString_spec.
  unfold fits in Hf. rewrite length_app in Hf. pose proof (rlp_string_length_ge (concat chunks)). lia.
Qed.

Lemma large_string_stream_witness :
  encodeLargeString [[x01; x02]; []; [x03]] (mkEnc [xc0] []) = (success tt, mkEnc [xc0; x83; x01; x02; x03] []) /\
  exists cs, decodeLargeString 2 [x83; x01; x02; x03; xff] = success cs /\
    concat cs = [x01; x02; x03] /\ Forall (fun x => 0 < Zlen x <= 2) cs.
Proof. apply (large_string_stream [xc0] [[x01; x02]; []; [x03]] 2 [xff]); [done|done|done]. Defined.

(** A payload of one byte below 128 is streamed as 0x81 followed by the byte,
    which is not canonical: [RlpDecoder] refuses to read it back. *)
Theorem large_string_single_byte (pre : list byte) (b : byte) :
  u8 b < 128 ->
  encodeLargeString [[b]] (mkEnc pre []) = (success tt, mkEnc (pre ++ [x81; b]) []) /\
  read_bytes [x81; b] = (failure kNonCanonicalSize, [x81; b]).
Proof.
  intros Hb. split; [by apply (encodeLargeString_spec pre [[b]])|].
  unfold read_bytes. apply bind_failure. unfold PeekHeader, decode_header_impl. run. simpl.
  unfold decode_short_string_header. run. simpl. unfold kShortStringOffset.
  by rewrite (proj2 (Z.ltb_lt _ _)) by done.
Qed.

Lemma large_string_single_byte_witness :
  encodeLargeString [[x05]] (mkEnc [] []) = (success tt, mkEnc [x81; x05] []) /\
  read_bytes [x81; x05] = (failure kNonCanonicalSize, [x81; x05]).
Proof. by apply (large_string_single_byte [] x05). Defined.

(** [encodeChunkedList] cuts the concatenation of the generator's chunks into
    strings of exactly [chunk_size] bytes and a shorter last one, whatever the
    generator's own boundaries, and decoding the list gives the data back. *)
Theorem chunked_list_roundtrip (k : Z) (chunks : list (list byte)) :
  0 < k < 2 ^ 64 -> Zlen (concat chunks) < 2 ^ 59 ->
  exists cs, chunks_of k (concat chunks) cs /\
    encodeChunkedList k chunks RlpEncoder_init = (success tt, mkEnc (rlp_list (rlp_chunks cs)) []) /\
    decodeChunkedListFull (rlp_list (rlp_chunks cs)) = success (concat chunks).
Proof.
  intros Hk Hl. destruct (encodeChunkedList_spec k chunks [] [] Hk Hl) as (cs & E & Hcs).
  exists cs. split; [done|]. split; [done|]. pose proof (chunks_of_nonempty _ _ _ Hk Hcs) as Hne.
  pose proof Hcs as (full & b & _ & _ & _ & Hcat).
  pose proof (rlp_chunks_length cs Hne) as Hlen. rewrite Hcat in Hlen.
  pose proof (decodeChunkedList_spec cs []) as D. rewrite app_nil_r, until_empty_id in D by done.
  unfold decodeChunkedListFull. rewrite D; [by rewrite <- Hcat|].
  unfold fits, rlp_list. rewrite length_app.
  pose proof (length_rlp_header 192 (Zlen (rlp_chunks cs)) ltac:(lia)). lia.
Qed.

Lemma chunked_list_roundtrip_witness :
  exists cs, chunks_of 2 [x01; x02; x03; x04; x05] cs /\
    encodeChunkedList 2 [[x01]; [x02; x03; x04]; [x05]] RlpEncoder_init = (success tt, mkEnc (rlp_list (rlp_chunks cs)) []) /\
    decodeChunkedListFull (rlp_list (rlp_chunks cs)) = success [x01; x02; x03; x04; x05].
Proof. by apply (chunked_list_roundtrip 2 [[x01]; [x02; x03; x04]; [x05]]). Defined.

(** The callback decoders take an empty chunk for the end of the list: a valid
    list with an empty string in it is reported as decoded, without the chunks
    from that string on. *)
Theorem chunked_list_stops_at_empty (cs1 cs2 : list (list byte)) (rest : ByteView) :
  Forall (fun c => 0 < Zlen c < 2 ^ 64) cs1 -> fits (rlp_list (rlp_chunks (cs1 ++ [] :: cs2)) ++ rest) ->
  decodeChunkedListFull (rlp_list (rlp_chunks (cs1 ++ [] :: cs2)) ++ rest) = success (concat cs1).
Proof.
  intros Hne Hf. unfold decodeChunkedListFull. rewrite decodeChunkedList_spec by done.
  assert (until_empty (cs1 ++ [] :: cs2) = cs1) as ->; [|done].
  clear Hf. induction Hne as [|c cs Hc _ IH]; [done|]. destruct c; [simpl in Hc; lia|]. simpl. by rewrite IH.
Qed.

Lemma chunked_list_stops_at_empty_witness :
  decodeChunkedListFull [xc5; x01; x80; x82; x02; x03] = success [x01].
Proof. apply (chunked_list_stops_at_empty [[x01]] [[x02; x03]] []); [by repeat constructor|done]. Defined.
