(* ===== verification/EthObjects.v ===== *)
(** * Ethereum objects

    [include/eth/objects.hpp] and [src/eth/objects.cpp]: log entries, access
    lists, transactions (legacy, EIP-2930, EIP-1559, OP deposit), receipts and
    block headers, with their encoders and decoders.

    For each object [rlp_<object>] is its wire form, [wf_<object>] says that the
    fields are values of their C++ types.  The lemmas show that the encoder
    produces the wire form, that the decoder inverts it, and that on any input
    the decoder returns without a fault and yields a well-formed object. *)

From S2P Require Import Prelude RlpSpec RlpCommon RlpEncoder RlpDecoder DecodeLogic.

(** ** eth_constants.hpp *)

Definition kRlpListPrefixMin : Z := 0xC0.
Definition kTypedTxPrefixSize : Z := 1.
Definition kDefaultChainId : Z := 1.

(** ** objects.hpp *)

Record LogEntry := mkLogEntry {
  le_address : list byte;
  le_topics : list (list byte);
  le_data : list byte
}.

Inductive TransactionType := kLegacy | kAccessList | kDynamicFee | kOpDeposit.

(** The value of the enumerator as a [uint8_t]. *)
Definition type_byte (t : TransactionType) : Z :=
  match t with kLegacy => 0x00 | kAccessList => 0x01 | kDynamicFee => 0x02 | kOpDeposit => 0x7e end.

Record AccessListEntry := mkAccessListEntry {
  al_address : list byte;
  al_storage_keys : list (list byte)
}.

Record Transaction := mkTransaction {
  tx_type : TransactionType;
  tx_nonce : Z;
  tx_gas_limit : Z;
  tx_to : option (list byte);
  tx_value : Z;
  tx_data : list byte;
  tx_gas_price : option Z;
  tx_max_priority_fee_per_gas : option Z;
  tx_max_fee_per_gas : option Z;
  tx_access_list : list AccessListEntry;
  tx_chain_id : option Z;
  tx_v : Z;
  tx_r : Z;
  tx_s : Z
}.

Record Receipt := mkReceipt {
  rc_state_root : option (list byte);
  rc_status : option bool;
  rc_cumulative_gas_used : Z;
  rc_bloom : list byte;
  rc_logs : list LogEntry
}.

Record BlockHeader := mkBlockHeader {
  bh_parent_hash : list byte;
  bh_ommers_hash : list byte;
  bh_beneficiary : list byte;
  bh_state_root : list byte;
  bh_transactions_root : list byte;
  bh_receipts_root : list byte;
  bh_logs_bloom : list byte;
  bh_difficulty : Z;
  bh_number : Z;
  bh_gas_limit : Z;
  bh_gas_used : Z;
  bh_timestamp : Z;
  bh_extra_data : list byte;
  bh_mix_hash : list byte;
  bh_nonce : list byte;
  bh_base_fee_per_gas : option Z
}.

#[global] Instance TransactionType_eq_dec : EqDecision TransactionType.
Proof. solve_decision. Defined.

(** ** Encoders *)

(** [BeginList] ... [EndList] with the errors the callers return. *)
Definition in_list (m : Enc unit) : Enc unit :=
  or_fail BeginList kUnclosedList ;; m ;; or_fail EndList kUnclosedList.

Definition put_bytes (bs : list byte) : Enc unit := or_fail (add_bytes bs) kPayloadTooLarge.
Definition put_u256 (n : Z) : Enc unit := or_fail (add_u256 n) kPayloadTooLarge.
Definition put_u64 (n : Z) : Enc unit := or_fail (add_integral 8 n) kPayloadTooLarge.
Definition put_u32 (n : Z) : Enc unit := or_fail (add_integral 4 n) kPayloadTooLarge.
Definition put_u8 (n : Z) : Enc unit := or_fail (add_integral 1 n) kPayloadTooLarge.
Definition put_bool (b : bool) : Enc unit := or_fail (add_bool b) kPayloadTooLarge.
Definition put_raw (bs : list byte) : Enc unit := or_fail (AddRaw bs) kPayloadTooLarge.

Definition encode_access_list_entry_to_encoder (entry : AccessListEntry) : Enc unit :=
  in_list (put_bytes (al_address entry) ;; in_list (for_each put_bytes (al_storage_keys entry))).

Definition encode_access_list (access_list : list AccessListEntry) : Enc unit :=
  in_list (for_each encode_access_list_entry_to_encoder access_list).

(** The calls between the outer [BeginList] and [EndList], which [encode_receipt]
    repeats inline. *)
Definition encode_log_to_encoder (entry : LogEntry) : Enc unit :=
  in_list (put_bytes (le_address entry) ;;
           in_list (for_each put_bytes (le_topics entry)) ;;
           put_bytes (le_data entry)).

Definition encode_log_entry (entry : LogEntry) : outcome EncodingError (list byte) :=
  run_encoder (encode_log_to_encoder entry).

Definition encode_access_list_entry (entry : AccessListEntry) : outcome EncodingError (list byte) :=
  run_encoder (encode_access_list_entry_to_encoder entry).

(** [to]: the address, or the empty string for contract creation. *)
Definition put_to (to : option (list byte)) : Enc unit :=
  match to with Some a => put_bytes a | None => put_bytes [] end.

Definition encode_legacy (tx : Transaction) : Enc unit :=
  in_list (put_u64 (tx_nonce tx) ;;
           put_u256 (default 0 (tx_gas_price tx)) ;;
           put_u64 (tx_gas_limit tx) ;;
           put_to (tx_to tx) ;;
           put_u256 (tx_value tx) ;;
           put_bytes (tx_data tx) ;;
           put_u256 (tx_v tx) ;;
           put_u256 (tx_r tx) ;;
           put_u256 (tx_s tx)).

Definition encode_2930 (tx : Transaction) : Enc unit :=
  in_list (put_u64 (default kDefaultChainId (tx_chain_id tx)) ;;
           put_u64 (tx_nonce tx) ;;
           put_u256 (default 0 (tx_gas_price tx)) ;;
           put_u64 (tx_gas_limit tx) ;;
           put_to (tx_to tx) ;;
           put_u256 (tx_value tx) ;;
           put_bytes (tx_data tx) ;;
           encode_access_list (tx_access_list tx) ;;
           put_u256 (tx_v tx) ;;
           put_u256 (tx_r tx) ;;
           put_u256 (tx_s tx)).

Definition encode_1559 (tx : Transaction) : Enc unit :=
  in_list (put_u64 (default kDefaultChainId (tx_chain_id tx)) ;;
           put_u64 (tx_nonce tx) ;;
           put_u256 (default 0 (tx_max_priority_fee_per_gas tx)) ;;
           put_u256 (default 0 (tx_max_fee_per_gas tx)) ;;
           put_u64 (tx_gas_limit tx) ;;
           put_to (tx_to tx) ;;
           put_u256 (tx_value tx) ;;
           put_bytes (tx_data tx) ;;
           encode_access_list (tx_access_list tx) ;;
           put_u256 (tx_v tx) ;;
           put_u256 (tx_r tx) ;;
           put_u256 (tx_s tx)).

Definition encode_transaction (tx : Transaction) : outcome EncodingError (list byte) :=
  match tx_type tx with
  | kLegacy => run_encoder (encode_legacy tx)
  | kAccessList =>
      rlp_bytes ← run_encoder (encode_2930 tx);
      mret (byte_of (type_byte kAccessList) :: rlp_bytes)
  | kDynamicFee =>
      rlp_bytes ← run_encoder (encode_1559 tx);
      mret (byte_of (type_byte kDynamicFee) :: rlp_bytes)
  | kOpDeposit => failure kEmptyInput
  end.

Definition encode_receipt_to_encoder (receipt : Receipt) : Enc unit :=
  in_list ((match rc_state_root receipt, rc_status receipt with
            | Some root, _ => put_bytes root
            | None, Some status => put_u8 (if (status : bool) then 1 else 0)
            | None, None => fail kEmptyInput
            end) ;;
           put_u256 (rc_cumulative_gas_used receipt) ;;
           put_bytes (rc_bloom receipt) ;;
           in_list (for_each encode_log_to_encoder (rc_logs receipt))).

Definition encode_receipt (receipt : Receipt) : outcome EncodingError (list byte) :=
  run_encoder (encode_receipt_to_encoder receipt).

Definition encode_block_header_to_encoder (header : BlockHeader) : Enc unit :=
  in_list (put_bytes (bh_parent_hash header) ;;
           put_bytes (bh_ommers_hash header) ;;
           put_bytes (bh_beneficiary header) ;;
           put_bytes (bh_state_root header) ;;
           put_bytes (bh_transactions_root header) ;;
           put_bytes (bh_receipts_root header) ;;
           put_bytes (bh_logs_bloom header) ;;
           put_u256 (bh_difficulty header) ;;
           put_u64 (bh_number header) ;;
           put_u64 (bh_gas_limit header) ;;
           put_u64 (bh_gas_used header) ;;
           put_u64 (bh_timestamp header) ;;
           put_bytes (bh_extra_data header) ;;
           put_bytes (bh_mix_hash header) ;;
           put_bytes (bh_nonce header) ;;
           match bh_base_fee_per_gas header with
           | Some fee => put_u256 fee
           | None => mret tt
           end).

Definition encode_block_header (header : BlockHeader) : outcome EncodingError (list byte) :=
  run_encoder (encode_block_header_to_encoder header).

(** ** Decoders *)

Definition get_array (N : Z) : Dec (list byte) := or_fail (read_array N) kUnexpectedLength.
Definition get_u256 : Dec Z := or_fail read_uint256 kUnexpectedString.
Definition get_u64 : Dec Z := or_fail (read_integral 8) kUnexpectedString.
Definition get_u32 : Dec Z := or_fail (read_integral 4) kUnexpectedString.
Definition get_bytes : Dec (list byte) := or_fail read_bytes kUnexpectedString.
Definition get_bool : Dec bool := or_fail read_bool kUnexpectedString.

(** Sizes of [Hash256], [Address] and [Bloom]. *)
Definition kHashSize : Z := 32.
Definition kAddressSize : Z := 20.
Definition kBloomSize : Z := 256.

(** The two optional fields it assigns: (state_root, status). *)
Definition decode_status_or_state_root : Dec (option (list byte) * option bool) :=
  header ← PeekHeader;
  if is_list header then fail kUnexpectedList else
  if payload_size_bytes header =? kHashSize then
    root ← read_array kHashSize; mret (Some root, None)
  else
    status_bytes ← read_bytes;
    match status_bytes with
    | [] => mret (None, Some false)
    | [b] => mret (None, Some (negb (u8 b =? 0)))
    | _ => fail kUnexpectedLength
    end.

Definition decode_log_entry_from_decoder : Dec LogEntry :=
  target_remaining ← list_target;
  address ← get_array kAddressSize;
  topics ← list_of (get_array kHashSize);
  data ← get_bytes;
  expect_remaining target_remaining kListLengthMismatch ;;
  mret (mkLogEntry address topics data).

Definition decode_access_list_entry_from_decoder : Dec AccessListEntry :=
  target ← list_target;
  address ← get_array kAddressSize;
  storage_keys ← list_of (get_array kHashSize);
  expect_remaining target kListLengthMismatch ;;
  mret (mkAccessListEntry address storage_keys).

Definition decode_access_list : Dec (list AccessListEntry) :=
  list_of decode_access_list_entry_from_decoder.

Definition decode_log_entry (rlp_data : ByteView) : outcome DecodingError LogEntry :=
  run_decoder decode_log_entry_from_decoder rlp_data.

Definition decode_access_list_entry (rlp_data : ByteView) : outcome DecodingError AccessListEntry :=
  run_decoder decode_access_list_entry_from_decoder rlp_data.

(** The [to] block, shared by both branches. *)
Definition decode_to : Dec (option (list byte)) :=
  to_header ← PeekHeader;
  if payload_size_bytes to_header =? 0 then
    get_bytes ;; mret None
  else
    addr ← get_array kAddressSize; mret (Some addr).

(** The fee fields of a typed transaction: (gas price, priority fee, max fee). *)
Definition decode_fees (type : TransactionType) : Dec (option Z * option Z * option Z) :=
  match type with
  | kAccessList => gp ← get_u256; mret (Some gp, None, None)
  | _ => mpf ← get_u256; mf ← get_u256; mret (None, Some mpf, Some mf)
  end.

(** The typed branch of [decode_transaction], after the type byte. *)
Definition decode_typed (type : TransactionType) : Dec Transaction :=
  ReadListHeaderBytes ;;
  chain_id ← get_u64;
  nonce ← get_u64;
  fees ← decode_fees type;
  gas_limit ← get_u64;
  to ← decode_to;
  value ← get_u256;
  data ← get_bytes;
  access_list ← decode_access_list;
  v ← get_u256;
  r ← get_u256;
  s ← get_u256;
  let '(gp, mpf, mf) := fees in
  mret (mkTransaction type nonce gas_limit to value data gp mpf mf access_list (Some chain_id) v r s).

(** The legacy branch. *)
Definition decode_legacy : Dec Transaction :=
  ReadListHeaderBytes ;;
  nonce ← get_u64;
  gp ← get_u256;
  gas_limit ← get_u64;
  to ← decode_to;
  value ← get_u256;
  data ← get_bytes;
  v ← get_u256;
  r ← get_u256;
  s ← get_u256;
  mret (mkTransaction kLegacy nonce gas_limit to value data (Some gp) None None [] None v r s).

(** A value-initialised [Transaction] with its type set. *)
Definition empty_transaction (t : TransactionType) : Transaction :=
  mkTransaction t 0 0 None 0 [] None None None [] None 0 0 0.

Definition decode_transaction (raw_data : ByteView) : outcome DecodingError Transaction :=
  match raw_data with
  | [] => failure kInputTooShort
  | b0 :: rlp_payload =>
      if u8 b0 <? kRlpListPrefixMin then
        if u8 b0 =? type_byte kAccessList then run_decoder (decode_typed kAccessList) rlp_payload
        else if u8 b0 =? type_byte kDynamicFee then run_decoder (decode_typed kDynamicFee) rlp_payload
        else if u8 b0 =? type_byte kOpDeposit then success (empty_transaction kOpDeposit)
        else failure kUnexpectedString
      else run_decoder decode_legacy raw_data
  end.

Definition decode_receipt_from_decoder : Dec Receipt :=
  ReadListHeaderBytes ;;
  root_or_status ← decode_status_or_state_root;
  cumulative_gas_used ← get_u256;
  bloom ← get_array kBloomSize;
  logs ← list_of decode_log_entry_from_decoder;
  mret (mkReceipt root_or_status.1 root_or_status.2 cumulative_gas_used bloom logs).

(** A typed receipt has one type byte in front of the list. *)
Definition decode_receipt (rlp_data : ByteView) : outcome DecodingError Receipt :=
  let rlp_data := match rlp_data with
                  | b0 :: rest => if u8 b0 <? kRlpListPrefixMin then rest else rlp_data
                  | [] => rlp_data
                  end in
  run_decoder decode_receipt_from_decoder rlp_data.

Definition decode_block_header_from_decoder : Dec BlockHeader :=
  ReadListHeaderBytes ;;
  parent_hash ← get_array kHashSize;
  ommers_hash ← get_array kHashSize;
  beneficiary ← get_array kAddressSize;
  state_root ← get_array kHashSize;
  transactions_root ← get_array kHashSize;
  receipts_root ← get_array kHashSize;
  logs_bloom ← get_array kBloomSize;
  difficulty ← get_u256;
  number ← get_u64;
  gas_limit ← get_u64;
  gas_used ← get_u64;
  timestamp ← get_u64;
  extra_data ← get_bytes;
  mix_hash ← get_array kHashSize;
  nonce ← get_array 8;
  finished ← IsFinished;
  base_fee ← (if (finished : bool) then mret None else fee ← get_u256; mret (Some fee));
  while_above 0 SkipItem ;;
  mret (mkBlockHeader parent_hash ommers_hash beneficiary state_root transactions_root receipts_root
          logs_bloom difficulty number gas_limit gas_used timestamp extra_data mix_hash nonce base_fee).

Definition decode_block_header (rlp_data : ByteView) : outcome DecodingError BlockHeader :=
  run_decoder decode_block_header_from_decoder rlp_data.

(** ** Well-formed objects: every field is a value of its C++ type *)

Definition is_hash (h : list byte) : Prop := Zlen h = kHashSize.
Definition is_address (a : list byte) : Prop := Zlen a = kAddressSize.

(** Holds of the content, when there is one. *)
Definition on_option {A} (P : A -> Prop) (o : option A) : Prop :=
  match o with Some a => P a | None => True end.

#[global] Instance is_hash_dec h : Decision (is_hash h).
Proof. unfold is_hash. apply _. Defined.
#[global] Instance is_address_dec h : Decision (is_address h).
Proof. unfold is_address. apply _. Defined.
#[global] Instance on_option_dec {A} (P : A -> Prop) `{forall a, Decision (P a)} o :
  Decision (on_option P o).
Proof. destruct o; simpl; apply _. Defined.

Record wf_log (e : LogEntry) : Prop := {
  wf_le_address : is_address (le_address e);
  wf_le_topics : Forall is_hash (le_topics e)
}.

Record wf_access_list_entry (e : AccessListEntry) : Prop := {
  wf_al_address : is_address (al_address e);
  wf_al_storage_keys : Forall is_hash (al_storage_keys e)
}.

Record wf_transaction (tx : Transaction) : Prop := {
  wf_tx_nonce : in_width 64 (tx_nonce tx);
  wf_tx_gas_limit : in_width 64 (tx_gas_limit tx);
  wf_tx_to : on_option is_address (tx_to tx);
  wf_tx_value : in_width 256 (tx_value tx);
  wf_tx_gas_price : on_option (in_width 256) (tx_gas_price tx);
  wf_tx_max_priority_fee : on_option (in_width 256) (tx_max_priority_fee_per_gas tx);
  wf_tx_max_fee : on_option (in_width 256) (tx_max_fee_per_gas tx);
  wf_tx_access_list : Forall wf_access_list_entry (tx_access_list tx);
  wf_tx_chain_id : on_option (in_width 64) (tx_chain_id tx);
  wf_tx_v : in_width 256 (tx_v tx);
  wf_tx_r : in_width 256 (tx_r tx);
  wf_tx_s : in_width 256 (tx_s tx)
}.

(** The fields a transaction of each type carries, and no others. *)
Definition tx_shape (tx : Transaction) : Prop :=
  match tx_type tx with
  | kLegacy =>
      is_Some (tx_gas_price tx) /\ tx_max_priority_fee_per_gas tx = None /\
      tx_max_fee_per_gas tx = None /\ tx_access_list tx = [] /\ tx_chain_id tx = None
  | kAccessList =>
      is_Some (tx_gas_price tx) /\ tx_max_priority_fee_per_gas tx = None /\
      tx_max_fee_per_gas tx = None /\ is_Some (tx_chain_id tx)
  | kDynamicFee =>
      tx_gas_price tx = None /\ is_Some (tx_max_priority_fee_per_gas tx) /\
      is_Some (tx_max_fee_per_gas tx) /\ is_Some (tx_chain_id tx)
  | kOpDeposit => tx = empty_transaction kOpDeposit
  end.

Record wf_receipt (r : Receipt) : Prop := {
  wf_rc_state_root : on_option is_hash (rc_state_root r);
  wf_rc_gas : in_width 256 (rc_cumulative_gas_used r);
  wf_rc_bloom : Zlen (rc_bloom r) = kBloomSize;
  wf_rc_logs : Forall wf_log (rc_logs r)
}.

(** Exactly one of the state root and the status. *)
Definition receipt_shape (r : Receipt) : Prop :=
  match rc_state_root r, rc_status r with
  | Some _, None | None, Some _ => True
  | _, _ => False
  end.

Record wf_block_header (h : BlockHeader) : Prop := {
  wf_bh_parent_hash : is_hash (bh_parent_hash h);
  wf_bh_ommers_hash : is_hash (bh_ommers_hash h);
  wf_bh_beneficiary : is_address (bh_beneficiary h);
  wf_bh_state_root : is_hash (bh_state_root h);
  wf_bh_transactions_root : is_hash (bh_transactions_root h);
  wf_bh_receipts_root : is_hash (bh_receipts_root h);
  wf_bh_logs_bloom : Zlen (bh_logs_bloom h) = kBloomSize;
  wf_bh_difficulty : in_width 256 (bh_difficulty h);
  wf_bh_number : in_width 64 (bh_number h);
  wf_bh_gas_limit : in_width 64 (bh_gas_limit h);
  wf_bh_gas_used : in_width 64 (bh_gas_used h);
  wf_bh_timestamp : in_width 64 (bh_timestamp h);
  wf_bh_mix_hash : is_hash (bh_mix_hash h);
  wf_bh_nonce : Zlen (bh_nonce h) = 8;
  wf_bh_base_fee : on_option (in_width 256) (bh_base_fee_per_gas h)
}.

(** ** Wire forms *)

Definition rlp_hashes (l : list (list byte)) : list byte := rlp_list (concat (map rlp_string l)).

Definition rlp_log (e : LogEntry) : list byte :=
  rlp_list (rlp_string (le_address e) ++ rlp_hashes (le_topics e) ++ rlp_string (le_data e)).

Definition rlp_access_list_entry (e : AccessListEntry) : list byte :=
  rlp_list (rlp_string (al_address e) ++ rlp_hashes (al_storage_keys e)).

Definition rlp_access_list (l : list AccessListEntry) : list byte :=
  rlp_list (concat (map rlp_access_list_entry l)).

Definition rlp_to (to : option (list byte)) : list byte := rlp_string (default [] to).

Definition rlp_legacy (tx : Transaction) : list byte :=
  rlp_list (rlp_uint (tx_nonce tx) ++ rlp_uint (default 0 (tx_gas_price tx)) ++
    rlp_uint (tx_gas_limit tx) ++ rlp_to (tx_to tx) ++ rlp_uint (tx_value tx) ++
    rlp_string (tx_data tx) ++ rlp_uint (tx_v tx) ++ rlp_uint (tx_r tx) ++ rlp_uint (tx_s tx)).

Definition rlp_2930 (tx : Transaction) : list byte :=
  rlp_list (rlp_uint (default kDefaultChainId (tx_chain_id tx)) ++ rlp_uint (tx_nonce tx) ++
    rlp_uint (default 0 (tx_gas_price tx)) ++ rlp_uint (tx_gas_limit tx) ++ rlp_to (tx_to tx) ++
    rlp_uint (tx_value tx) ++ rlp_string (tx_data tx) ++ rlp_access_list (tx_access_list tx) ++
    rlp_uint (tx_v tx) ++ rlp_uint (tx_r tx) ++ rlp_uint (tx_s tx)).

Definition rlp_1559 (tx : Transaction) : list byte :=
  rlp_list (rlp_uint (default kDefaultChainId (tx_chain_id tx)) ++ rlp_uint (tx_nonce tx) ++
    rlp_uint (default 0 (tx_max_priority_fee_per_gas tx)) ++
    rlp_uint (default 0 (tx_max_fee_per_gas tx)) ++ rlp_uint (tx_gas_limit tx) ++ rlp_to (tx_to tx) ++
    rlp_uint (tx_value tx) ++ rlp_string (tx_data tx) ++ rlp_access_list (tx_access_list tx) ++
    rlp_uint (tx_v tx) ++ rlp_uint (tx_r tx) ++ rlp_uint (tx_s tx)).

(** EIP-2718: the type byte in front of the payload of a typed transaction. *)
Definition rlp_transaction (tx : Transaction) : list byte :=
  match tx_type tx with
  | kLegacy => rlp_legacy tx
  | kAccessList => x01 :: rlp_2930 tx
  | kDynamicFee => x02 :: rlp_1559 tx
  | kOpDeposit => [x7e]
  end.

Definition rlp_receipt (r : Receipt) : list byte :=
  rlp_list
    (match rc_state_root r, rc_status r with
     | Some root, _ => rlp_string root
     | None, Some status => rlp_bool status
     | None, None => []
     end ++ rlp_uint (rc_cumulative_gas_used r) ++ rlp_string (rc_bloom r) ++
     rlp_list (concat (map rlp_log (rc_logs r)))).

Definition rlp_header_fields (h : BlockHeader) : list byte :=
  (rlp_string (bh_parent_hash h) ++ rlp_string (bh_ommers_hash h) ++
    rlp_string (bh_beneficiary h) ++ rlp_string (bh_state_root h) ++
    rlp_string (bh_transactions_root h) ++ rlp_string (bh_receipts_root h) ++
    rlp_string (bh_logs_bloom h) ++ rlp_uint (bh_difficulty h) ++ rlp_uint (bh_number h) ++
    rlp_uint (bh_gas_limit h) ++ rlp_uint (bh_gas_used h) ++ rlp_uint (bh_timestamp h) ++
    rlp_string (bh_extra_data h) ++ rlp_string (bh_mix_hash h) ++ rlp_string (bh_nonce h) ++
    match bh_base_fee_per_gas h with Some fee => rlp_uint fee | None => [] end).

Definition rlp_block_header (h : BlockHeader) : list byte := rlp_list (rlp_header_fields h).

(** ** Encoders produce the wire forms *)

Lemma emits_in_list m bs : emits m bs -> emits (in_list m) (rlp_list bs).
Proof. apply emits_list. Qed.

Lemma emits_put_bytes bs : emits (put_bytes bs) (rlp_string bs).
Proof. apply emits_or_fail, emits_add_bytes. Qed.

Lemma emits_put_raw bs : bs <> [] -> emits (put_raw bs) bs.
Proof. intros. by apply emits_or_fail, emits_AddRaw. Qed.

Lemma emits_put_u256 n : in_width 256 n -> emits (put_u256 n) (rlp_uint n).
Proof. intros. by apply emits_or_fail, emits_add_u256. Qed.

Lemma emits_put_u64 n : in_width 64 n -> emits (put_u64 n) (rlp_uint n).
Proof. intros. apply emits_or_fail, emits_add_integral; auto with enc. Qed.

Lemma emits_put_u32 n : in_width 32 n -> emits (put_u32 n) (rlp_uint n).
Proof. intros. apply emits_or_fail, emits_add_integral; auto with enc. Qed.

Lemma emits_put_u8 n : in_width 8 n -> emits (put_u8 n) (rlp_uint n).
Proof. intros. apply emits_or_fail, emits_add_integral; auto with enc. Qed.

Lemma emits_put_bool b : emits (put_bool b) (rlp_bool b).
Proof. apply emits_or_fail, emits_add_bool. Qed.

Lemma emits_hashes l : emits (in_list (for_each put_bytes l)) (rlp_hashes l).
Proof. apply emits_in_list, emits_for_each. intros. apply emits_put_bytes. Qed.

Lemma emits_put_to to : emits (put_to to) (rlp_to to).
Proof. destruct to; apply emits_put_bytes. Qed.

Lemma in_width_default w d o : on_option (in_width w) o -> in_width w d -> in_width w (default d o).
Proof. by destruct o. Qed.

Lemma in_width_0 w : 0 <= w -> in_width w 0.
Proof. intros. split; [lia|]. apply Z.pow_pos_nonneg; lia. Qed.

Lemma in_width_default_chain_id : in_width 64 kDefaultChainId.
Proof. by vm_compute. Qed.

#[export] Hint Resolve emits_put_bytes emits_put_u256 emits_put_u64 emits_put_u32 emits_put_u8
  emits_put_bool emits_hashes emits_put_to in_width_default in_width_default_chain_id : enc.
#[export] Hint Extern 0 (in_width _ 0) => apply in_width_0; lia : enc.

(** [emits_step], for the helpers of this file. *)
Ltac emit := repeat first [solve [eauto with enc] | apply emits_in_list | emits_step].

Lemma emits_access_list_entry e :
  emits (encode_access_list_entry_to_encoder e) (rlp_access_list_entry e).
Proof. unfold encode_access_list_entry_to_encoder, rlp_access_list_entry. emit. Qed.

Lemma emits_access_list l : emits (encode_access_list l) (rlp_access_list l).
Proof. apply emits_in_list, emits_for_each. intros. apply emits_access_list_entry. Qed.

Lemma emits_log e : emits (encode_log_to_encoder e) (rlp_log e).
Proof. unfold encode_log_to_encoder, rlp_log. emit. Qed.

Lemma emits_logs l : emits (in_list (for_each encode_log_to_encoder l)) (rlp_list (concat (map rlp_log l))).
Proof. apply emits_in_list, emits_for_each. intros. apply emits_log. Qed.

#[export] Hint Resolve emits_access_list emits_log emits_logs : enc.

Lemma emits_legacy tx : wf_transaction tx -> emits (encode_legacy tx) (rlp_legacy tx).
Proof. intros []. unfold encode_legacy, rlp_legacy. emit. Qed.

Lemma emits_2930 tx : wf_transaction tx -> emits (encode_2930 tx) (rlp_2930 tx).
Proof. intros []. unfold encode_2930, rlp_2930. emit. Qed.

Lemma emits_1559 tx : wf_transaction tx -> emits (encode_1559 tx) (rlp_1559 tx).
Proof. intros []. unfold encode_1559, rlp_1559. emit. Qed.

Lemma encode_transaction_wire tx :
  wf_transaction tx -> tx_type tx <> kOpDeposit -> Zlen (rlp_transaction tx) < 2 ^ 64 ->
  encode_transaction tx = success (rlp_transaction tx).
Proof.
  intros Hwf Ht. unfold encode_transaction, rlp_transaction.
  destruct (tx_type tx); [| | |done]; rewrite ?length_cons; intros Hl.
  - apply run_encoder_emits; [done|by apply emits_legacy].
  - by rewrite (run_encoder_emits _ (rlp_2930 tx)) by (first [lia|by apply emits_2930]).
  - by rewrite (run_encoder_emits _ (rlp_1559 tx)) by (first [lia|by apply emits_1559]).
Qed.

Lemma emits_receipt r :
  wf_receipt r -> (is_Some (rc_state_root r) \/ is_Some (rc_status r)) ->
  emits (encode_receipt_to_encoder r) (rlp_receipt r).
Proof.
  intros [] Hs. apply emits_in_list. apply emits_seq; [|emit].
  destruct (rc_state_root r) as [root|]; [apply emits_put_bytes|].
  destruct (rc_status r) as [b|]; [|by destruct Hs as [[? ?]|[? ?]]].
  unfold rlp_bool. destruct b; by apply emits_put_u8.
Qed.

Lemma emits_block_header h :
  wf_block_header h -> emits (encode_block_header_to_encoder h) (rlp_block_header h).
Proof.
  intros []. unfold encode_block_header_to_encoder, rlp_block_header, rlp_header_fields. emit.
  destruct (bh_base_fee_per_gas h); [by apply emits_put_u256|apply emits_ret].
Qed.

(** ** Decoders invert them *)

Lemma consumes_get_array N bs : Zlen bs = N -> consumes (get_array N) (rlp_string bs) bs.
Proof. intros. by apply consumes_or_fail, consumes_read_array. Qed.

Lemma consumes_get_hash bs : is_hash bs -> consumes (get_array kHashSize) (rlp_string bs) bs.
Proof. apply consumes_get_array. Qed.

Lemma consumes_get_address bs : is_address bs -> consumes (get_array kAddressSize) (rlp_string bs) bs.
Proof. apply consumes_get_array. Qed.

Lemma consumes_get_u256 n : in_width 256 n -> consumes get_u256 (rlp_uint n) n.
Proof. intros. by apply consumes_or_fail, consumes_read_uint256. Qed.

Lemma consumes_get_u64 n : in_width 64 n -> consumes get_u64 (rlp_uint n) n.
Proof. intros. apply consumes_or_fail, consumes_read_integral; auto with eats. Qed.

Lemma consumes_get_u32 n : in_width 32 n -> consumes get_u32 (rlp_uint n) n.
Proof. intros. apply consumes_or_fail, consumes_read_integral; auto with eats. Qed.

Lemma consumes_get_bytes bs : consumes get_bytes (rlp_string bs) bs.
Proof. apply consumes_or_fail, consumes_read_bytes. Qed.

Lemma consumes_get_bool b : consumes get_bool (rlp_bool b) b.
Proof. apply consumes_or_fail, consumes_read_bool. Qed.

Lemma rlp_string_nonnil bs : rlp_string bs <> [].
Proof. intros E. pose proof (rlp_string_pos bs) as H. rewrite E in H. simpl in H. lia. Qed.

Lemma rlp_list_nonnil p : rlp_list p <> [].
Proof. intros E. pose proof (rlp_list_pos p) as H. rewrite E in H. simpl in H. lia. Qed.

Lemma consumes_hashes l : Forall is_hash l -> consumes (list_of (get_array kHashSize)) (rlp_hashes l) l.
Proof.
  rewrite Forall_forall. intros Hl. apply (consumes_list_of _ rlp_string).
  intros x Hx. split; [by apply consumes_get_hash, Hl|apply rlp_string_nonnil].
Qed.

(** Peeking at a string item. *)
Lemma peek_string p rest :
  fits (rlp_string p ++ rest) ->
  exists n, PeekHeader (rlp_string p ++ rest) = (success (mkHeader false (Zlen p) n), rlp_string p ++ rest).
Proof.
  intros Hf. destruct (string_at_rlp_string p rest) as [pre Hs].
  { unfold fits in Hf. rewrite length_app in Hf. pose proof (rlp_string_length_ge p). lia. }
  eexists. by eapply on_string_peek.
Qed.

Lemma eats_peek_string {A} (k : Header -> Dec A) p tail a rest :
  (forall n, eats (k (mkHeader false (Zlen p) n)) (rlp_string p ++ tail) a rest) ->
  eats (h ← PeekHeader; k h) (rlp_string p ++ tail) a rest.
Proof.
  intros Hk Hf. pose proof Hf as Hf'. rewrite <- app_assoc in Hf'.
  destruct (peek_string _ _ Hf') as [n Hp]. rewrite app_assoc in Hp.
  rewrite (bind_success _ _ _ _ _ Hp). by apply Hk.
Qed.

Lemma consumes_decode_to to : on_option is_address to -> consumes decode_to (rlp_to to) to.
Proof.
  intros Hto rest Hf. unfold decode_to, rlp_to in *. destruct (peek_string _ _ Hf) as [n Hp].
  rewrite (bind_success _ _ _ _ _ Hp). cbn [payload_size_bytes]. destruct to as [a|]; simpl in *.
  - rewrite (proj2 (Z.eqb_neq _ 0)) by (unfold is_address, kAddressSize in Hto; lia).
    revert Hf. change (eats (addr ← get_array kAddressSize; mret (Some addr)) (rlp_string a) (Some a) rest).
    eapply eats_bind_last; [by apply consumes_get_address|apply eats_ret].
  - revert Hf. change (eats (get_bytes ;; mret (@None (list byte))) (rlp_string []) None rest).
    eapply eats_bind_last; [apply consumes_get_bytes|apply eats_ret].
Qed.

#[export] Hint Resolve consumes_get_hash consumes_get_address consumes_get_array consumes_get_u256
  consumes_get_u64 consumes_get_u32 consumes_get_bytes consumes_get_bool consumes_hashes
  consumes_decode_to : eats.

Lemma consumes_log e : wf_log e -> consumes decode_log_entry_from_decoder (rlp_log e) e.
Proof. intros [] rest. destruct e. apply eats_list. eats_steps. Qed.

Lemma consumes_access_list_entry e :
  wf_access_list_entry e ->
  consumes decode_access_list_entry_from_decoder (rlp_access_list_entry e) e.
Proof. intros [] rest. destruct e. apply eats_list. eats_steps. Qed.

Lemma consumes_access_list l :
  Forall wf_access_list_entry l -> consumes decode_access_list (rlp_access_list l) l.
Proof.
  rewrite Forall_forall. intros Hl. apply (consumes_list_of _ rlp_access_list_entry).
  intros x Hx. split; [by apply consumes_access_list_entry, Hl|apply rlp_list_nonnil].
Qed.

Lemma consumes_logs l :
  Forall wf_log l -> consumes (list_of decode_log_entry_from_decoder) (rlp_list (concat (map rlp_log l))) l.
Proof.
  rewrite Forall_forall. intros Hl. apply (consumes_list_of _ rlp_log).
  intros x Hx. split; [by apply consumes_log, Hl|apply rlp_list_nonnil].
Qed.

#[export] Hint Resolve consumes_access_list consumes_logs : eats.

Lemma consumes_legacy tx :
  wf_transaction tx -> tx_shape tx -> tx_type tx = kLegacy -> consumes decode_legacy (rlp_legacy tx) tx.
Proof.
  destruct tx. intros [] Hs Ht rest. unfold tx_shape in Hs. simpl in *. subst. simpl in Hs.
  destruct Hs as ([gp ->] & -> & -> & -> & ->). apply eats_list_header. simpl in *. eats_steps.
Qed.

Lemma consumes_2930 tx :
  wf_transaction tx -> tx_shape tx -> tx_type tx = kAccessList ->
  consumes (decode_typed kAccessList) (rlp_2930 tx) tx.
Proof.
  destruct tx. intros [] Hs Ht rest. unfold tx_shape in Hs. simpl in *. subst. simpl in Hs.
  destruct Hs as ([gp ->] & -> & -> & [cid ->]). apply eats_list_header. simpl in *.
  do 2 eats_step. eapply (eats_bind _ _ _ _ (Some gp, None, None)); eats_steps.
Qed.

Lemma consumes_1559 tx :
  wf_transaction tx -> tx_shape tx -> tx_type tx = kDynamicFee ->
  consumes (decode_typed kDynamicFee) (rlp_1559 tx) tx.
Proof.
  destruct tx. intros [] Hs Ht rest. unfold tx_shape in Hs. simpl in *. subst. simpl in Hs.
  destruct Hs as (-> & [mpf ->] & [mf ->] & [cid ->]). apply eats_list_header. simpl in *.
  do 2 eats_step. rewrite app_assoc. eapply (eats_bind _ _ _ _ (None, Some mpf, Some mf)); eats_steps.
Qed.

Lemma rlp_list_payload_fits p : fits (rlp_list p) -> Zlen p < 2 ^ 64.
Proof. unfold fits. pose proof (rlp_list_length_ge p). lia. Qed.

Lemma decode_transaction_wire tx :
  wf_transaction tx -> tx_shape tx -> tx_type tx <> kOpDeposit -> fits (rlp_transaction tx) ->
  decode_transaction (rlp_transaction tx) = success tx.
Proof.
  intros Hwf Hs Ht Hf. unfold rlp_transaction in *. destruct (tx_type tx) eqn:Et; [| | |done].
  - destruct (rlp_list_head _ (rlp_list_payload_fits _ Hf)) as (b & r & Er & Hb).
    fold (rlp_legacy tx) in Er. rewrite Er in *. unfold decode_transaction, kRlpListPrefixMin.
    rewrite (proj2 (Z.ltb_ge _ 0xC0)) by lia. rewrite <- Er in *.
    apply run_decoder_eats; [done|by apply consumes_legacy].
  - apply (fits_app_r [x01]) in Hf. apply run_decoder_eats; [done|by apply consumes_2930].
  - apply (fits_app_r [x02]) in Hf. apply run_decoder_eats; [done|by apply consumes_1559].
Qed.

Lemma consumes_status_or_state_root r bs :
  on_option is_hash (rc_state_root r) -> receipt_shape r ->
  bs = match rc_state_root r, rc_status r with
       | Some root, _ => rlp_string root
       | None, Some status => rlp_bool status
       | None, None => []
       end ->
  consumes decode_status_or_state_root bs (rc_state_root r, rc_status r).
Proof.
  intros Hr Hs -> rest Hf. unfold receipt_shape in Hs. unfold decode_status_or_state_root.
  destruct (rc_state_root r) as [root|].
  - destruct (rc_status r); [done|]. simpl in Hr. destruct (peek_string _ _ Hf) as [n Hp].
    rewrite (bind_success _ _ _ _ _ Hp). cbn [is_list payload_size_bytes]. rewrite Hr, Z.eqb_refl.
    revert Hf. change (eats (root ← read_array kHashSize; mret (Some root, @None bool))
      (rlp_string root) (Some root, None) rest). eats_steps.
  - destruct (rc_status r) as [b|]; [|done]. unfold rlp_bool, rlp_uint in *.
    destruct (peek_string _ _ Hf) as [n Hp]. rewrite (bind_success _ _ _ _ _ Hp).
    cbn [is_list payload_size_bytes].
    rewrite (proj2 (Z.eqb_neq _ _)) by (unfold kHashSize; by destruct b).
    rewrite (bind_success _ _ _ _ _ (consumes_read_bytes _ _ Hf)). by destruct b.
Qed.

Lemma consumes_receipt r :
  wf_receipt r -> receipt_shape r -> consumes decode_receipt_from_decoder (rlp_receipt r) r.
Proof.
  intros [] Hs rest. apply eats_list_header.
  eapply eats_bind; [by apply consumes_status_or_state_root|]. eats_steps.
  destruct r. apply eats_ret.
Qed.

Lemma decode_receipt_wire r :
  wf_receipt r -> receipt_shape r -> fits (rlp_receipt r) -> decode_receipt (rlp_receipt r) = success r.
Proof.
  intros Hwf Hs Hf. unfold decode_receipt, kRlpListPrefixMin.
  destruct (rlp_list_head _ (rlp_list_payload_fits _ Hf)) as (b & tl & Er & Hb).
  fold (rlp_receipt r) in Er. rewrite Er. rewrite (proj2 (Z.ltb_ge _ _)) by lia. rewrite <- Er.
  apply run_decoder_eats; [done|by apply consumes_receipt].
Qed.

(** A header is decoded from exactly its own bytes: what follows the list would
    be read as the base fee.  Items behind the base fee are skipped. *)
Lemma decode_block_header_extended h items :
  wf_block_header h -> items = [] \/ bh_base_fee_per_gas h <> None ->
  fits (rlp_list (rlp_header_fields h ++ concat (map rlp_encode items))) ->
  decode_block_header (rlp_list (rlp_header_fields h ++ concat (map rlp_encode items))) = success h.
Proof.
  intros Hwf Hi Hf. apply run_decoder_eats; [done|]. destruct Hwf. apply eats_list_header.
  unfold rlp_header_fields. rewrite <- !app_assoc.
  do 14 eats_step. destruct h as [? ? ? ? ? ? ? ? ? ? ? ? ? ? ? [fee|]]; simpl in *.
  - eats_step. eapply (eats_bind_0 _ _ _ false).
    { intros _. unfold IsFinished. run. pose proof (rlp_string_pos (be_min fee)) as Hp.
      unfold rlp_uint. by destruct (rlp_string (be_min fee)); [simpl in Hp; lia|]. }
    eapply eats_bind; [eapply eats_bind_last; [by apply eats_consumes, consumes_get_u256|apply eats_ret]|].
    eapply eats_bind_last; [apply eats_skip_items|apply eats_ret].
  - assert (items = []) as -> by naive_solver. simpl. eats_step.
    eapply (eats_bind_0 _ _ _ true); [by intros _|]. eapply eats_bind_0; [apply eats_ret|].
    eapply eats_bind_last; [apply (eats_skip_items [])|apply eats_ret].
Qed.

Lemma decode_block_header_wire h :
  wf_block_header h -> fits (rlp_block_header h) ->
  decode_block_header (rlp_block_header h) = success h.
Proof.
  intros Hwf Hf. pose proof (decode_block_header_extended h [] Hwf (or_introl eq_refl)) as H.
  simpl in H. rewrite app_nil_r in H. by apply H.
Qed.

(** ** On any input: no fault, and a well-formed object *)

Lemma safe_get_array N : safe 1 (get_array N) (fun bs => Zlen bs = N).
Proof. apply safe_or_fail, safe_read_array. Qed.

Lemma safe_get_u256 : safe 1 get_u256 (in_width 256).
Proof. apply safe_or_fail, safe_read_uint256. Qed.

Lemma safe_get_u64 : safe 1 get_u64 (in_width 64).
Proof. apply safe_or_fail. apply safe_read_integral. auto with safe. Qed.

Lemma safe_get_u32 : safe 1 get_u32 (in_width 32).
Proof. apply safe_or_fail. apply safe_read_integral. auto with safe. Qed.

Lemma safe_get_bytes : safe 1 get_bytes fits.
Proof. apply safe_or_fail, safe_read_bytes. Qed.

Lemma safe_get_bool : safe 1 get_bool (fun _ => True).
Proof. apply safe_or_fail, safe_read_bool. Qed.

#[export] Hint Resolve safe_get_array safe_get_u256 safe_get_u64 safe_get_u32 safe_get_bytes
  safe_get_bool : safe.

Lemma safe_log : safe 1 decode_log_entry_from_decoder wf_log.
Proof. unfold decode_log_entry_from_decoder. safe_steps. by constructor. Qed.

Lemma safe_access_list_entry : safe 1 decode_access_list_entry_from_decoder wf_access_list_entry.
Proof. unfold decode_access_list_entry_from_decoder. safe_steps. by constructor. Qed.

Lemma safe_access_list : safe 1 decode_access_list (Forall wf_access_list_entry).
Proof. apply safe_list_of, safe_access_list_entry. Qed.

Lemma safe_decode_to : safe 0 decode_to (on_option is_address).
Proof. unfold decode_to. by safe_steps. Qed.

#[export] Hint Resolve safe_log safe_access_list safe_decode_to : safe.

Lemma safe_legacy :
  safe 1 decode_legacy (fun tx => wf_transaction tx /\ tx_shape tx /\ tx_type tx = kLegacy).
Proof. unfold decode_legacy. safe_steps. split; [by constructor|]. unfold tx_shape. simpl. eauto 10. Qed.

(** The fee fields of each typed form. *)
Definition fees_shape (t : TransactionType) (fees : option Z * option Z * option Z) : Prop :=
  let '(gp, mpf, mf) := fees in
  on_option (in_width 256) gp /\ on_option (in_width 256) mpf /\ on_option (in_width 256) mf /\
  match t with
  | kAccessList => is_Some gp /\ mpf = None /\ mf = None
  | _ => gp = None /\ is_Some mpf /\ is_Some mf
  end.

Lemma safe_decode_fees t : safe 0 (decode_fees t) (fees_shape t).
Proof. destruct t; cbn [decode_fees]; safe_steps; simpl; eauto 10. Qed.

#[export] Hint Resolve safe_decode_fees : safe.

Lemma safe_typed t :
  t = kAccessList \/ t = kDynamicFee ->
  safe 1 (decode_typed t) (fun tx => wf_transaction tx /\ tx_shape tx /\ tx_type tx = t).
Proof.
  intros Ht. unfold decode_typed. safe_steps.
  destruct a2 as [[gp mpf] mf]. apply safe_ret.
  match goal with H : fees_shape _ _ |- _ => destruct H as (? & ? & ? & Hsh) end.
  split; [by constructor|]. split; [|done]. unfold tx_shape. simpl.
  destruct Ht as [-> | ->]; simpl in Hsh; destruct Hsh as (? & ? & ?); eauto 10.
Qed.

(** A result that is not a fault, and satisfies [Q] when it is a value. *)
Definition result_ok {E A} (Q : A -> Prop) (r : outcome E A) : Prop :=
  match r with success a => Q a | failure _ => True | crash _ => False end.

Lemma run_decoder_ok {Er A} n (m : M ByteView Er A) Q (Q' : A -> Prop) data :
  safe n m Q -> fits data -> (forall a, Q a -> Q' a) -> result_ok Q' (run_decoder m data).
Proof.
  intros H Hf HQ. specialize (H data Hf). unfold run_decoder.
  destruct (m data) as [[]]; simpl; [apply HQ; tauto|done|done].
Qed.

(** What [decode_transaction] guarantees of the value it returns. *)
Lemma decode_transaction_safe raw :
  fits raw -> result_ok (fun tx => wf_transaction tx /\ tx_shape tx) (decode_transaction raw).
Proof.
  intros Hf. destruct raw as [|b0 r]; [done|]. unfold decode_transaction.
  pose proof (fits_app_r [b0] r Hf) as Hr.
  destruct (u8 b0 <? _); [|eapply run_decoder_ok; [apply safe_legacy|done|by intros ? (? & ? & _)]].
  destruct (u8 b0 =? _); [eapply run_decoder_ok; [apply safe_typed; by left|done|by intros ? (? & ? & _)]|].
  destruct (u8 b0 =? _); [eapply run_decoder_ok; [apply safe_typed; by right|done|by intros ? (? & ? & _)]|].
  destruct (u8 b0 =? _); [|done]. by repeat (constructor || split).
Qed.

Lemma safe_status_or_state_root :
  safe 1 decode_status_or_state_root (fun p =>
    on_option is_hash p.1 /\ match p with (Some _, None) | (None, Some _) => True | _ => False end).
Proof.
  unfold decode_status_or_state_root. safe_steps; [done|].
  destruct a0 as [|b [|]]; [by apply safe_ret|by apply safe_ret|apply safe_fail].
Qed.

#[export] Hint Resolve safe_status_or_state_root : safe.

Lemma safe_receipt :
  safe 1 decode_receipt_from_decoder (fun r => wf_receipt r /\ receipt_shape r).
Proof.
  unfold decode_receipt_from_decoder. safe_steps. destruct a0 as [o1 o2]. simpl in *.
  split; [constructor; tauto|]. unfold receipt_shape. simpl. by destruct H0.
Qed.

Lemma decode_receipt_safe data :
  fits data -> result_ok (fun r => wf_receipt r /\ receipt_shape r) (decode_receipt data).
Proof.
  intros Hf. unfold decode_receipt. eapply run_decoder_ok; [apply safe_receipt| |done].
  destruct data as [|b r]; [done|]. case_match; [|done]. by apply (fits_app_r [b]).
Qed.

Lemma safe_block_header : safe 1 decode_block_header_from_decoder wf_block_header.
Proof.
  unfold decode_block_header_from_decoder. safe_steps.
  eapply (safe_bind_0 _ _ _ (on_option (in_width 256))); [by safe_steps|].
  intros fee Hfee. safe_steps. by constructor.
Qed.

Lemma decode_block_header_safe data :
  fits data -> result_ok wf_block_header (decode_block_header data).
Proof. intros Hf. by eapply run_decoder_ok; [apply safe_block_header|done|]. Qed.

(** ** Theorems *)

(** Every transaction of a type the encoder supports (legacy, EIP-2930,
    EIP-1559) with the fields of its type and in-range values is encoded, and
    decoding the bytes gives back the same transaction. *)
Theorem transaction_roundtrip (tx : Transaction) :
  wf_transaction tx -> tx_shape tx -> tx_type tx <> kOpDeposit -> Zlen (rlp_transaction tx) < 2 ^ 64 ->
  encode_transaction tx = success (rlp_transaction tx) /\ decode_transaction (rlp_transaction tx) = success tx.
Proof.
  intros Hwf Hs Ht Hl. split; [by apply encode_transaction_wire|by apply decode_transaction_wire].
Qed.

(** Well-formedness of a concrete object. *)
Ltac wf_closed :=
  repeat first
    [ match goal with |- in_width _ _ => unfold in_width; split; by vm_compute end
    | match goal with |- _ = _ => by vm_compute end
    | done
    | constructor ].

Definition sample_hash : list byte := replicate 32 x11.
Definition sample_address : list byte := replicate 20 xaa.

(** An EIP-1559 transfer with an access list. *)
Definition sample_tx : Transaction :=
  mkTransaction kDynamicFee 9 21000 (Some sample_address) 1000000000000000000 [x00; xff] None (Some 2) (Some 300)
    [mkAccessListEntry sample_address [sample_hash]] (Some 1) 1 5 7.

Lemma sample_tx_wf : wf_transaction sample_tx.
Proof. wf_closed. Qed.

Lemma transaction_roundtrip_witness :
  encode_transaction sample_tx = success (rlp_transaction sample_tx) /\
  decode_transaction (rlp_transaction sample_tx) = success sample_tx.
Proof.
  apply (transaction_roundtrip sample_tx); [apply sample_tx_wf| |done|by vm_compute].
  unfold tx_shape. simpl. eauto.
Defined.

(** Every well-formed receipt with exactly one of state root and status is
    encoded, and decoding gives it back; with one type byte in front it decodes
    to the same receipt. *)
Theorem receipt_roundtrip (r : Receipt) (t : byte) :
  wf_receipt r -> receipt_shape r -> Zlen (rlp_receipt r) < 2 ^ 64 -> u8 t < 192 ->
  encode_receipt r = success (rlp_receipt r) /\ decode_receipt (rlp_receipt r) = success r /\
  decode_receipt (t :: rlp_receipt r) = success r.
Proof.
  intros Hwf Hs Hl Ht. split; [|split].
  - apply run_encoder_emits; [done|]. apply emits_receipt; [done|].
    unfold receipt_shape in Hs. repeat case_match; try done; eauto.
  - by apply decode_receipt_wire.
  - unfold decode_receipt, kRlpListPrefixMin. rewrite (proj2 (Z.ltb_lt _ _)) by lia.
    apply run_decoder_eats; [done|by apply consumes_receipt].
Qed.

Definition sample_log : LogEntry := mkLogEntry sample_address [sample_hash; sample_hash] [x01; x02].
Definition sample_receipt : Receipt := mkReceipt None (Some true) 21000 (replicate 256 x00) [sample_log].

Lemma sample_receipt_wf : wf_receipt sample_receipt.
Proof. wf_closed. Qed.

Lemma receipt_roundtrip_witness :
  encode_receipt sample_receipt = success (rlp_receipt sample_receipt) /\
  decode_receipt (rlp_receipt sample_receipt) = success sample_receipt /\
  decode_receipt (x02 :: rlp_receipt sample_receipt) = success sample_receipt.
Proof.
  apply (receipt_roundtrip sample_receipt x02); [apply sample_receipt_wf|done|by vm_compute|by vm_compute].
Defined.

(** Every well-formed block header, with or without a base fee, is encoded, and
    decoding exactly those bytes gives it back; fields that a later fork appends
    behind the base fee are skipped. *)
Theorem block_header_roundtrip (h : BlockHeader) (later : list item) :
  let extended := rlp_list (rlp_header_fields h ++ concat (map rlp_encode later)) in
  wf_block_header h -> Zlen (rlp_block_header h) < 2 ^ 64 ->
  encode_block_header h = success (rlp_block_header h) /\
  decode_block_header (rlp_block_header h) = success h /\
  (bh_base_fee_per_gas h <> None -> Zlen extended < 2 ^ 64 -> decode_block_header extended = success h).
Proof.
  intros extended Hwf Hl. split_and!.
  - apply run_encoder_emits; [done|by apply emits_block_header].
  - by apply decode_block_header_wire.
  - intros Hb Hx. apply decode_block_header_extended; auto.
Qed.

Definition sample_header : BlockHeader :=
  mkBlockHeader sample_hash sample_hash sample_address sample_hash sample_hash sample_hash (replicate 256 x00)
    0 17000000 30000000 12345678 1700000000 [x67; x65; x74; x68] sample_hash (replicate 8 x00) (Some 7).

Lemma sample_header_wf : wf_block_header sample_header.
Proof. wf_closed. Qed.

Lemma block_header_roundtrip_witness :
  encode_block_header sample_header = success (rlp_block_header sample_header) /\
  decode_block_header (rlp_list (rlp_header_fields sample_header ++ rlp_string sample_hash ++ [])) = success sample_header.
Proof.
  destruct (block_header_roundtrip sample_header [Str sample_hash]) as (He & _ & Hx);
    [apply sample_header_wf|by vm_compute|].
  split; [apply He|]. apply Hx; [done|by vm_compute].
Defined.

(** Log entries and access-list entries: the encoder succeeds and the decoder
    gives the entry back. *)
Theorem entries_roundtrip (log : LogEntry) (entry : AccessListEntry) :
  wf_log log -> wf_access_list_entry entry ->
  Zlen (rlp_log log) < 2 ^ 64 -> Zlen (rlp_access_list_entry entry) < 2 ^ 64 ->
  (encode_log_entry log = success (rlp_log log) /\ decode_log_entry (rlp_log log) = success log) /\
  (encode_access_list_entry entry = success (rlp_access_list_entry entry) /\
   decode_access_list_entry (rlp_access_list_entry entry) = success entry).
Proof.
  intros Hlog Hent Hl1 Hl2. split; split.
  - apply run_encoder_emits; [apply Hl1|apply emits_log].
  - apply run_decoder_eats; [apply Hl1|by apply consumes_log].
  - apply run_encoder_emits; [apply Hl2|apply emits_access_list_entry].
  - apply run_decoder_eats; [apply Hl2|by apply consumes_access_list_entry].
Qed.

Lemma entries_roundtrip_witness :
  encode_log_entry sample_log = success (rlp_log sample_log) /\ decode_log_entry (rlp_log sample_log) = success sample_log.
Proof.
  apply (entries_roundtrip sample_log (mkAccessListEntry sample_address [sample_hash]));
    wf_closed.
Defined.

(** On any input whatsoever the object decoders terminate without undefined
    behaviour, and a value they return is well formed: arrays have their length,
    integers are in range, a transaction carries the fields of its type, a
    receipt exactly one of state root and status. *)
Theorem objects_decode_safe (data : ByteView) :
  fits data ->
  result_ok (fun tx => wf_transaction tx /\ tx_shape tx) (decode_transaction data) /\
  result_ok (fun r => wf_receipt r /\ receipt_shape r) (decode_receipt data) /\
  result_ok wf_block_header (decode_block_header data) /\
  result_ok wf_log (decode_log_entry data) /\
  result_ok wf_access_list_entry (decode_access_list_entry data).
Proof.
  intros Hf. split; [by apply decode_transaction_safe|]. split; [by apply decode_receipt_safe|].
  split; [by apply decode_block_header_safe|]. split.
  - by eapply run_decoder_ok; [apply safe_log|done|].
  - by eapply run_decoder_ok; [apply safe_access_list_entry|done|].
Qed.

Lemma objects_decode_safe_witness :
  result_ok wf_block_header (decode_block_header [xf8; xff; xff; x80]).
Proof. by apply (objects_decode_safe [xf8; xff; xff; x80]). Defined.
