(* ===== verification/EthMessages.v ===== *)
(** * ETH protocol messages

    [include/eth/eth_types.hpp] and [src/eth/messages.cpp], all messages but
    Status (which is [EthStatus]): the block, receipt, transaction and hash
    announcements and requests, each with its encoder and decoder.  [rlp_<message>]
    is the wire form.  The request/response messages have an optional ETH/66
    request id in an outer list; the decoder recognises it by probing a copy of
    the view. *)

From S2P Require Import Prelude RlpSpec RlpCommon RlpEncoder RlpDecoder DecodeLogic EthObjects.

(** ** eth_types.hpp *)

Record NewBlockHashEntry := mkNewBlockHashEntry { nbh_hash : list byte; nbh_number : Z }.

Record NewPooledTransactionHashesMessage := mkNewPooledTransactionHashes {
  npt_types : list byte;
  npt_sizes : list Z;
  npt_hashes : list (list byte)
}.

Record BlockRangeUpdateMessage := mkBlockRangeUpdate {
  bru_earliest_block : Z;
  bru_latest_block : Z;
  bru_latest_block_hash : list byte
}.

Record GetBlockHeadersMessage := mkGetBlockHeaders {
  gbh_request_id : option Z;
  gbh_start_hash : option (list byte);
  gbh_start_number : option Z;
  gbh_max_headers : Z;
  gbh_skip : Z;
  gbh_reverse : bool
}.

(** A message that is an optional request id and a payload: [BlockHeadersMessage],
    [GetReceiptsMessage], [ReceiptsMessage], [GetPooledTransactionsMessage],
    [PooledTransactionsMessage], [GetBlockBodiesMessage], [BlockBodiesMessage]. *)
Record Request (A : Type) := mkRequest { request_id : option Z; request_payload : A }.
Arguments mkRequest {A}.
Arguments request_id {A}.
Arguments request_payload {A}.

Definition BlockHeadersMessage := Request (list BlockHeader).
Definition GetReceiptsMessage := Request (list (list byte)).
Definition ReceiptsMessage := Request (list (list Receipt)).
Definition GetPooledTransactionsMessage := Request (list (list byte)).
Definition PooledTransactionsMessage := Request (list (list byte)).
Definition GetBlockBodiesMessage := Request (list (list byte)).

Record BlockBody := mkBlockBody {
  bb_transactions : list Transaction;
  bb_ommers : list BlockHeader
}.

Definition BlockBodiesMessage := Request (list BlockBody).

Record NewBlockMessage := mkNewBlock {
  nb_header : BlockHeader;
  nb_transactions : list Transaction;
  nb_ommers : list BlockHeader;
  nb_total_difficulty : Z
}.

(** ** Shared helpers *)

(** A second decoder on the same view: its result, the view unchanged. *)
Definition on_copy {Er E' A} (m : M ByteView E' A) : M ByteView Er (option A) := fun v =>
  match (m v).1 with
  | success a => (success (Some a), v)
  | failure _ => (success None, v)
  | crash f => (crash f, v)
  end.

Definition consume_next_item : Dec ByteView :=
  before ← view;
  match before with
  | [] => fail kInputTooShort
  | _ =>
      SkipItem ;;
      after ← view;
      lift (substr before 0 (u64 (Zlen before - Zlen after)))
  end.

(** The request id when one was consumed. *)
Definition consume_eth66_request_id : Dec (option Z) :=
  probe ← on_copy (read_integral 8 ;; PeekHeader);
  match probe with
  | Some next_header => if is_list next_header then attempt (read_integral 8) else mret None
  | None => mret None
  end.

(** The outer list around a request id and a payload, or the bare payload. *)
Definition enveloped (id : option Z) (payload : Enc unit) : Enc unit :=
  match id with
  | Some id => in_list (put_u64 id ;; payload)
  | None => payload
  end.

Definition encode_hash_list (hashes : list (list byte)) : Enc unit := in_list (for_each put_bytes hashes).
Definition decode_hash_list : Dec (list (list byte)) := list_of (get_array kHashSize).
Definition encode_uint32_list (values : list Z) : Enc unit := in_list (for_each put_u32 values).
Definition decode_uint32_list : Dec (list Z) := list_of get_u32.

(** ** Payloads *)

Definition encode_get_block_headers_payload (msg : GetBlockHeadersMessage) : Enc unit :=
  match gbh_start_hash msg, gbh_start_number msg with
  | Some _, Some _ => fail kEmptyInput
  | start_hash, start_number =>
      in_list ((match start_hash, start_number with
                | Some h, _ => put_bytes h
                | None, Some n => put_u64 n
                | None, None => mret tt
                end) ;;
               put_u64 (gbh_max_headers msg) ;;
               put_u64 (gbh_skip msg) ;;
               put_bool (gbh_reverse msg))
  end.

Definition decode_get_block_headers_payload (id : option Z) : Dec GetBlockHeadersMessage :=
  header ← PeekHeader;
  if is_list header then fail kUnexpectedList else
  start ← (if payload_size_bytes header =? kHashSize then
             hash ← get_array kHashSize; mret (Some hash, None)
           else number ← get_u64; mret (None, Some number));
  max_headers ← get_u64;
  skip ← get_u64;
  reverse ← get_bool;
  mret (mkGetBlockHeaders id start.1 start.2 max_headers skip reverse).

Definition encode_block_headers_payload (headers : list BlockHeader) : Enc unit :=
  in_list (for_each (fun header =>
    encoded_header ← lift (encode_block_header header); put_raw encoded_header) headers).

Definition decode_block_headers_payload : Dec (list BlockHeader) :=
  list_of (item_view ← consume_next_item; lift (decode_block_header item_view)).

Definition encode_receipts_payload (receipts : list (list Receipt)) : Enc unit :=
  in_list (for_each (fun block_receipts =>
    in_list (for_each (fun receipt =>
      encoded_receipt ← lift (encode_receipt receipt); put_raw encoded_receipt) block_receipts)) receipts).

Definition decode_receipts_payload : Dec (list (list Receipt)) :=
  list_of (list_of (item_view ← consume_next_item; lift (decode_receipt item_view))).

Definition encode_pooled_transactions_payload (encoded_transactions : list (list byte)) : Enc unit :=
  in_list (for_each put_raw encoded_transactions).

Definition decode_pooled_transactions_payload : Dec (list (list byte)) := list_of consume_next_item.

Definition encode_transaction_list (txs : list Transaction) : Enc unit :=
  in_list (for_each (fun tx =>
    encoded ← lift (encode_transaction tx);
    if bool_decide (tx_type tx = kLegacy) then put_raw encoded else put_bytes encoded) txs).

(** The two inner branches on the first byte of the string perform the same
    calls. *)
Definition decode_transaction_item : Dec Transaction :=
  next_header ← PeekHeader;
  if negb (is_list next_header) && (0 <? payload_size_bytes next_header) then
    raw_bytes ← get_bytes; lift (decode_transaction raw_bytes)
  else
    item_view ← consume_next_item; lift (decode_transaction item_view).

Definition decode_transaction_list : Dec (list Transaction) := list_of decode_transaction_item.

Definition encode_block_body (body : BlockBody) : Enc unit :=
  in_list (encode_transaction_list (bb_transactions body) ;;
           encode_block_headers_payload (bb_ommers body)).

Definition decode_block_body : Dec BlockBody :=
  target ← list_target;
  txs ← decode_transaction_list;
  ommers ← decode_block_headers_payload;
  while_above target consume_next_item ;;
  expect_remaining target kListLengthMismatch ;;
  mret (mkBlockBody txs ommers).

(** ** Messages *)

Definition encode_new_block_hashes (entries : list NewBlockHashEntry) : outcome EncodingError (list byte) :=
  run_encoder (in_list (for_each (fun entry =>
    in_list (put_bytes (nbh_hash entry) ;; put_u64 (nbh_number entry))) entries)).

Definition decode_new_block_hash_entry : Dec NewBlockHashEntry :=
  ReadListHeaderBytes ;;
  hash ← get_array kHashSize;
  number ← get_u64;
  mret (mkNewBlockHashEntry hash number).

Definition decode_new_block_hashes (rlp_data : ByteView) : outcome DecodingError (list NewBlockHashEntry) :=
  run_decoder (ReadListHeaderBytes ;; while_above 0 decode_new_block_hash_entry) rlp_data.

Definition encode_new_pooled_tx_hashes (msg : NewPooledTransactionHashesMessage) :
    outcome EncodingError (list byte) :=
  if negb (Zlen (npt_types msg) =? Zlen (npt_hashes msg)) || negb (Zlen (npt_sizes msg) =? Zlen (npt_hashes msg))
  then failure kEmptyInput else
  run_encoder (in_list (put_bytes (npt_types msg) ;;
                        or_fail (encode_uint32_list (npt_sizes msg)) kPayloadTooLarge ;;
                        or_fail (encode_hash_list (npt_hashes msg)) kPayloadTooLarge)).

(** The ETH/68 form: types, sizes, hashes. *)
Definition decode_pooled_68 (types_item sizes_item hashes_item : ByteView) :
    outcome DecodingError NewPooledTransactionHashesMessage :=
  types ← run_decoder (t ← get_bytes; expect_finished kUnexpectedString ;; mret t) types_item;
  sizes ← run_decoder decode_uint32_list sizes_item;
  hashes ← run_decoder decode_hash_list hashes_item;
  if negb (Zlen types =? Zlen hashes) || negb (Zlen sizes =? Zlen hashes)
  then failure kUnexpectedLength
  else mret (mkNewPooledTransactionHashes types sizes hashes).

(** The loop over the items of the older form, a plain list of hashes. *)
Fixpoint decode_pooled_hashes (items : list ByteView) : outcome DecodingError (list (list byte)) :=
  match items with
  | [] => mret []
  | item :: items' =>
      hash ← run_decoder (h ← get_array kHashSize; expect_finished kUnexpectedLength ;; mret h) item;
      hashes ← decode_pooled_hashes items';
      mret (hash :: hashes)
  end.

(** [header && header.value().list] for a probe on [item]. *)
Definition probe_is_list (item : ByteView) : bool :=
  match run_decoder PeekHeader item with success h => is_list h | _ => false end.

Definition decode_new_pooled_tx_hashes (rlp_data : ByteView) :
    outcome DecodingError NewPooledTransactionHashesMessage :=
  items ← run_decoder (list_of consume_next_item) rlp_data;
  let plain := hashes ← decode_pooled_hashes items; mret (mkNewPooledTransactionHashes [] [] hashes) in
  match items with
  | [types_item; sizes_item; hashes_item] =>
      if probe_is_list sizes_item && probe_is_list hashes_item
      then decode_pooled_68 types_item sizes_item hashes_item
      else plain
  | _ => plain
  end.

Definition encode_block_range_update (msg : BlockRangeUpdateMessage) : outcome EncodingError (list byte) :=
  run_encoder (in_list (put_u64 (bru_earliest_block msg) ;;
                        put_u64 (bru_latest_block msg) ;;
                        put_bytes (bru_latest_block_hash msg))).

Definition decode_block_range_update (rlp_data : ByteView) : outcome DecodingError BlockRangeUpdateMessage :=
  run_decoder (target_remaining ← list_target;
               earliest_block ← get_u64;
               latest_block ← get_u64;
               latest_block_hash ← get_array kHashSize;
               expect_remaining target_remaining kListLengthMismatch ;;
               mret (mkBlockRangeUpdate earliest_block latest_block latest_block_hash)) rlp_data.

(** [UpgradeStatusMessage] is its one field. *)
Definition encode_upgrade_status (disable_peer_tx_broadcast : bool) : outcome EncodingError (list byte) :=
  run_encoder (in_list (put_bool disable_peer_tx_broadcast)).

Definition decode_upgrade_status (rlp_data : ByteView) : outcome DecodingError bool :=
  run_decoder (target_remaining ← list_target;
               disable_peer_tx_broadcast ← get_bool;
               while_above target_remaining consume_next_item ;;
               expect_remaining target_remaining kListLengthMismatch ;;
               mret disable_peer_tx_broadcast) rlp_data.

Definition encode_get_block_headers (msg : GetBlockHeadersMessage) : outcome EncodingError (list byte) :=
  run_encoder (enveloped (gbh_request_id msg) (encode_get_block_headers_payload msg)).

Definition decode_get_block_headers (rlp_data : ByteView) : outcome DecodingError GetBlockHeadersMessage :=
  run_decoder (ReadListHeaderBytes ;;
               id ← consume_eth66_request_id;
               (match id with Some _ => ReadListHeaderBytes ;; mret tt | None => mret tt end) ;;
               msg ← decode_get_block_headers_payload id;
               expect_finished kInputTooLong ;;
               mret msg) rlp_data.

(** The request/response decoders: the outer list, the optional id, the payload
    and the end of the input. *)
Definition decode_request {A} (payload : Dec A) : Dec (Request A) :=
  ReadListHeaderBytes ;;
  id ← consume_eth66_request_id;
  p ← payload;
  expect_finished kInputTooLong ;;
  mret (mkRequest id p).

Definition encode_block_headers (msg : BlockHeadersMessage) : outcome EncodingError (list byte) :=
  run_encoder (enveloped (request_id msg) (encode_block_headers_payload (request_payload msg))).
Definition decode_block_headers (rlp_data : ByteView) : outcome DecodingError BlockHeadersMessage :=
  run_decoder (decode_request decode_block_headers_payload) rlp_data.

Definition encode_get_receipts (msg : GetReceiptsMessage) : outcome EncodingError (list byte) :=
  run_encoder (enveloped (request_id msg) (encode_hash_list (request_payload msg))).
Definition decode_get_receipts (rlp_data : ByteView) : outcome DecodingError GetReceiptsMessage :=
  run_decoder (decode_request decode_hash_list) rlp_data.

Definition encode_receipts (msg : ReceiptsMessage) : outcome EncodingError (list byte) :=
  run_encoder (enveloped (request_id msg) (encode_receipts_payload (request_payload msg))).
Definition decode_receipts (rlp_data : ByteView) : outcome DecodingError ReceiptsMessage :=
  run_decoder (decode_request decode_receipts_payload) rlp_data.

Definition encode_get_pooled_transactions (msg : GetPooledTransactionsMessage) :
    outcome EncodingError (list byte) :=
  run_encoder (enveloped (request_id msg) (encode_hash_list (request_payload msg))).
Definition decode_get_pooled_transactions (rlp_data : ByteView) :
    outcome DecodingError GetPooledTransactionsMessage :=
  run_decoder (decode_request decode_hash_list) rlp_data.

Definition encode_pooled_transactions (msg : PooledTransactionsMessage) : outcome EncodingError (list byte) :=
  run_encoder (enveloped (request_id msg) (encode_pooled_transactions_payload (request_payload msg))).
Definition decode_pooled_transactions (rlp_data : ByteView) : outcome DecodingError PooledTransactionsMessage :=
  run_decoder (decode_request decode_pooled_transactions_payload) rlp_data.

Definition encode_get_block_bodies (msg : GetBlockBodiesMessage) : outcome EncodingError (list byte) :=
  run_encoder (enveloped (request_id msg) (encode_hash_list (request_payload msg))).
Definition decode_get_block_bodies (rlp_data : ByteView) : outcome DecodingError GetBlockBodiesMessage :=
  run_decoder (decode_request decode_hash_list) rlp_data.

Definition encode_block_bodies (msg : BlockBodiesMessage) : outcome EncodingError (list byte) :=
  run_encoder (enveloped (request_id msg) (in_list (for_each encode_block_body (request_payload msg)))).
Definition decode_block_bodies (rlp_data : ByteView) : outcome DecodingError BlockBodiesMessage :=
  run_decoder (decode_request (list_of decode_block_body)) rlp_data.

Definition encode_new_block (msg : NewBlockMessage) : outcome EncodingError (list byte) :=
  run_encoder (in_list (
    in_list ((encoded_header ← lift (encode_block_header (nb_header msg)); put_raw encoded_header) ;;
             encode_transaction_list (nb_transactions msg) ;;
             encode_block_headers_payload (nb_ommers msg)) ;;
    put_u256 (nb_total_difficulty msg))).

Definition decode_new_block (rlp_data : ByteView) : outcome DecodingError NewBlockMessage :=
  run_decoder (
    outer_target ← list_target;
    inner_target ← list_target;
    header_view ← consume_next_item;
    header ← lift (decode_block_header header_view);
    txs ← decode_transaction_list;
    ommers ← decode_block_headers_payload;
    while_above inner_target consume_next_item ;;
    expect_remaining inner_target kListLengthMismatch ;;
    total_difficulty ← get_u256;
    while_above outer_target consume_next_item ;;
    expect_remaining outer_target kListLengthMismatch ;;
    expect_finished kInputTooLong ;;
    mret (mkNewBlock header txs ommers total_difficulty)) rlp_data.

(** ** Items *)

(** The bytes of one item. *)
Definition is_item (bs : list byte) : Prop := (exists p, bs = rlp_string p) \/ (exists p, bs = rlp_list p).

Lemma is_item_string p : is_item (rlp_string p).
Proof. left. by exists p. Qed.

Lemma is_item_list p : is_item (rlp_list p).
Proof. right. by exists p. Qed.

Lemma is_item_nonnil bs : is_item bs -> bs <> [].
Proof. intros [[p ->]|[p ->]]; [apply rlp_string_nonnil|apply rlp_list_nonnil]. Qed.

Lemma SkipItem_item v w :
  fits v -> SkipItem v = (success tt, w) <-> exists bs, is_item bs /\ v = bs ++ w.
Proof.
  intros Hf. rewrite (SkipItem_iff v w Hf). unfold is_item. naive_solver.
Qed.

Lemma take_own_length {Er} (bs w : list byte) :
  fits (bs ++ w) -> substr (Er := Er) (bs ++ w) 0 (u64 (Zlen (bs ++ w) - Zlen w)) = success bs.
Proof.
  intros Hf. unfold fits in Hf. rewrite length_app in Hf.
  replace (Zlen (bs ++ w) - Zlen w) with (Zlen bs) by (rewrite length_app; lia).
  rewrite u64_small by lia. by apply (substr_prefix [] bs w).
Qed.

Lemma consumes_next_item bs : is_item bs -> consumes consume_next_item bs bs.
Proof.
  intros Hi rest Hf. unfold consume_next_item. run.
  destruct (bs ++ rest) as [|b0 r] eqn:E.
  { destruct bs; [by apply is_item_nonnil in Hi|done]. }
  rewrite (proj2 (SkipItem_item (b0 :: r) rest Hf)) by (exists bs; split; [done|by rewrite E]).
  rewrite <- E in *. by rewrite take_own_length.
Qed.

Lemma safe_next_item : safe 1 consume_next_item (fun bs => is_item bs /\ fits bs).
Proof.
  intros v Hv. unfold consume_next_item. run. destruct v as [|b0 r] eqn:E; [done|]. rewrite <- E in *.
  pose proof (safe_SkipItem v Hv) as Hs. destruct (SkipItem v) as [[[]|e|f] w] eqn:Es; [|done|done].
  destruct Hs as (Hsuf & Hl & _). apply SkipItem_item in Es as (bs & Hi & Hbs); [|done].
  rewrite Hbs in *. rewrite take_own_length by done. split; [done|]. split; [done|].
  split; [done|]. by eapply fits_app_l.
Qed.

#[export] Hint Resolve safe_next_item : safe.

(** An item handed to a decoder of its own. *)
Lemma consumes_item {A} (f : ByteView -> outcome DecodingError A) bs a :
  is_item bs -> (fits bs -> f bs = success a) ->
  consumes (item_view ← consume_next_item; lift (f item_view)) bs a.
Proof.
  intros Hi Hf rest Hfit. eapply eats_bind_last; [by apply consumes_next_item| |done].
  intros _. unfold lift. rewrite Hf; [done|]. by eapply fits_app_l.
Qed.

Lemma safe_lift_ok {A} (r : outcome DecodingError A) Q : result_ok Q r -> safe 0 (lift r) Q.
Proof. intros Hr. apply safe_lift; [by destruct r|]. intros a ->. done. Qed.

Lemma safe_item {A} (f : ByteView -> outcome DecodingError A) Q :
  (forall bs, fits bs -> result_ok Q (f bs)) ->
  safe 1 (item_view ← consume_next_item; lift (f item_view)) Q.
Proof.
  intros Hf. eapply safe_bind_l; [apply safe_next_item|]. intros bs [_ Hb]. by apply safe_lift_ok, Hf.
Qed.

(** ** Wire forms of the payloads *)

Definition rlp_seq {A} (enc : A -> list byte) (l : list A) : list byte := rlp_list (concat (map enc l)).

Definition rlp_get_block_headers_payload (msg : GetBlockHeadersMessage) : list byte :=
  rlp_list ((match gbh_start_hash msg, gbh_start_number msg with
             | Some h, _ => rlp_string h
             | None, Some n => rlp_uint n
             | None, None => []
             end) ++
            rlp_uint (gbh_max_headers msg) ++ rlp_uint (gbh_skip msg) ++ rlp_bool (gbh_reverse msg)).

(** A typed transaction is wrapped in a string, a legacy one is a list. *)
Definition rlp_tx_item (tx : Transaction) : list byte :=
  if bool_decide (tx_type tx = kLegacy) then rlp_transaction tx else rlp_string (rlp_transaction tx).

Definition rlp_block_body (b : BlockBody) : list byte :=
  rlp_list (rlp_seq rlp_tx_item (bb_transactions b) ++ rlp_seq rlp_block_header (bb_ommers b)).

Definition rlp_enveloped (id : option Z) (payload : list byte) : list byte :=
  match id with Some id => rlp_list (rlp_uint id ++ payload) | None => payload end.

Definition rlp_get_block_headers (m : GetBlockHeadersMessage) : list byte :=
  rlp_enveloped (gbh_request_id m) (rlp_get_block_headers_payload m).

Definition rlp_request {A} (payload : A -> list byte) (msg : Request A) : list byte :=
  rlp_enveloped (request_id msg) (payload (request_payload msg)).

Definition rlp_new_block_hash (e : NewBlockHashEntry) : list byte :=
  rlp_list (rlp_string (nbh_hash e) ++ rlp_uint (nbh_number e)).

Definition rlp_new_pooled_tx_hashes (m : NewPooledTransactionHashesMessage) : list byte :=
  rlp_list (rlp_string (npt_types m) ++ rlp_seq rlp_uint (npt_sizes m) ++ rlp_hashes (npt_hashes m)).

Definition rlp_block_range_update (m : BlockRangeUpdateMessage) : list byte :=
  rlp_list (rlp_uint (bru_earliest_block m) ++ rlp_uint (bru_latest_block m) ++
    rlp_string (bru_latest_block_hash m)).

Definition rlp_new_block (m : NewBlockMessage) : list byte :=
  rlp_list (rlp_list (rlp_block_header (nb_header m) ++ rlp_seq rlp_tx_item (nb_transactions m) ++
      rlp_seq rlp_block_header (nb_ommers m)) ++
    rlp_uint (nb_total_difficulty m)).

(** ** Well-formedness *)

Definition wf_tx (tx : Transaction) : Prop :=
  wf_transaction tx /\ tx_shape tx /\ tx_type tx <> kOpDeposit.

(** What the decoder returns: deposits are accepted too. *)
Definition wf_decoded_tx (tx : Transaction) : Prop := wf_transaction tx /\ tx_shape tx.

Definition wf_rc (r : Receipt) : Prop := wf_receipt r /\ receipt_shape r.

Record wf_block_body (tx_ok : Transaction -> Prop) (b : BlockBody) : Prop := {
  wf_bb_transactions : Forall tx_ok (bb_transactions b);
  wf_bb_ommers : Forall wf_block_header (bb_ommers b)
}.

Record wf_new_block (tx_ok : Transaction -> Prop) (m : NewBlockMessage) : Prop := {
  wf_nb_header : wf_block_header (nb_header m);
  wf_nb_transactions : Forall tx_ok (nb_transactions m);
  wf_nb_ommers : Forall wf_block_header (nb_ommers m);
  wf_nb_total_difficulty : in_width 256 (nb_total_difficulty m)
}.

Record wf_get_block_headers (m : GetBlockHeadersMessage) : Prop := {
  wf_gbh_request_id : on_option (in_width 64) (gbh_request_id m);
  wf_gbh_start_hash : on_option is_hash (gbh_start_hash m);
  wf_gbh_start_number : on_option (in_width 64) (gbh_start_number m);
  wf_gbh_max_headers : in_width 64 (gbh_max_headers m);
  wf_gbh_skip : in_width 64 (gbh_skip m);
  (** exactly one start point *)
  wf_gbh_start : is_Some (gbh_start_hash m) <-> gbh_start_number m = None
}.

Record wf_new_block_hash (e : NewBlockHashEntry) : Prop := {
  wf_nbh_hash : is_hash (nbh_hash e);
  wf_nbh_number : in_width 64 (nbh_number e)
}.

Record wf_new_pooled (m : NewPooledTransactionHashesMessage) : Prop := {
  wf_npt_sizes : Forall (in_width 32) (npt_sizes m);
  wf_npt_hashes : Forall is_hash (npt_hashes m)
}.

Record wf_block_range_update (m : BlockRangeUpdateMessage) : Prop := {
  wf_bru_earliest : in_width 64 (bru_earliest_block m);
  wf_bru_latest : in_width 64 (bru_latest_block m);
  wf_bru_hash : is_hash (bru_latest_block_hash m)
}.

Definition wf_request {A} (P : A -> Prop) (m : Request A) : Prop :=
  on_option (in_width 64) (request_id m) /\ P (request_payload m).

(** ** Encoders produce the wire forms *)

Lemma emits_seq_of {A} (f : A -> Enc unit) (g : A -> list byte) (P : A -> Prop) l :
  (forall x, P x -> emits (f x) (g x)) -> Forall P l -> emits (in_list (for_each f l)) (rlp_seq g l).
Proof.
  intros Hf Hl. apply emits_in_list, emits_for_each. rewrite Forall_forall in Hl. auto.
Qed.

(** A nested encoding embedded as it is. *)
Lemma emits_embedded (r : outcome EncodingError (list byte)) bs :
  bs <> [] -> (Zlen bs < 2 ^ 64 -> r = success bs) -> emits (e ← lift r; put_raw e) bs.
Proof.
  intros Hne Hr Hl e. unfold lift. rewrite (Hr Hl). by apply (emits_put_raw bs Hne Hl).
Qed.

Lemma emits_embedded_header h :
  wf_block_header h -> emits (e ← lift (encode_block_header h); put_raw e) (rlp_block_header h).
Proof.
  intros Hwf. apply emits_embedded; [apply rlp_list_nonnil|]. intros Hl.
  apply run_encoder_emits; [done|by apply emits_block_header].
Qed.

Lemma emits_block_headers_payload l :
  Forall wf_block_header l -> emits (encode_block_headers_payload l) (rlp_seq rlp_block_header l).
Proof. intros Hl. eapply emits_seq_of; [apply emits_embedded_header|done]. Qed.

Lemma receipt_shape_some r : receipt_shape r -> is_Some (rc_state_root r) \/ is_Some (rc_status r).
Proof. unfold receipt_shape. repeat case_match; intros; try done; eauto. Qed.

Lemma emits_receipts_payload l :
  Forall (Forall wf_rc) l -> emits (encode_receipts_payload l) (rlp_seq (rlp_seq rlp_receipt) l).
Proof.
  intros Hl. eapply emits_seq_of; [|done]. intros rs Hrs. eapply emits_seq_of; [|done].
  intros r [Hwf Hsh]. apply emits_embedded; [apply rlp_list_nonnil|]. intros Hlen.
  apply run_encoder_emits; [done|]. apply emits_receipt; [done|by apply receipt_shape_some].
Qed.

Lemma emits_pooled_transactions_payload l :
  Forall is_item l -> emits (encode_pooled_transactions_payload l) (rlp_seq id l).
Proof. intros Hl. eapply emits_seq_of; [|done]. intros bs Hb. by apply emits_put_raw, is_item_nonnil. Qed.

Lemma rlp_transaction_nonnil tx : rlp_transaction tx <> [].
Proof. unfold rlp_transaction. destruct (tx_type tx); try done. apply rlp_list_nonnil. Qed.

Lemma emits_transaction_list l :
  Forall wf_tx l -> emits (encode_transaction_list l) (rlp_seq rlp_tx_item l).
Proof.
  intros Hl. eapply emits_seq_of; [|done]. intros tx (Hwf & Hsh & Ht). unfold rlp_tx_item.
  case_bool_decide as Hleg.
  - apply emits_embedded; [apply rlp_transaction_nonnil|by apply encode_transaction_wire].
  - intros Hlen e. unfold lift. pose proof (rlp_string_length_ge (rlp_transaction tx)).
    rewrite (encode_transaction_wire tx) by (done || lia). by apply emits_put_bytes.
Qed.

#[export] Hint Resolve emits_embedded_header emits_block_headers_payload emits_receipts_payload
  emits_pooled_transactions_payload emits_transaction_list : enc.

Lemma emits_block_body b : wf_block_body wf_tx b -> emits (encode_block_body b) (rlp_block_body b).
Proof. intros []. unfold encode_block_body, rlp_block_body. emit. Qed.

Lemma emits_enveloped id m bs :
  on_option (in_width 64) id -> emits m bs -> emits (enveloped id m) (rlp_enveloped id bs).
Proof. intros Hid Hm. destruct id; [|done]. simpl. apply emits_in_list. emit. Qed.

(** The encoder of a request/response message. *)
Lemma encode_request_wire {A} (enc : A -> Enc unit) (wire : A -> list byte) (P : A -> Prop) (msg : Request A) :
  (forall p, P p -> emits (enc p) (wire p)) -> wf_request P msg -> Zlen (rlp_request wire msg) < 2 ^ 64 ->
  run_encoder (enveloped (request_id msg) (enc (request_payload msg))) = success (rlp_request wire msg).
Proof.
  intros He [Hid Hp] Hl. apply run_encoder_emits; [done|]. by apply emits_enveloped, He.
Qed.

Lemma emits_get_block_headers_payload m :
  wf_get_block_headers m -> emits (encode_get_block_headers_payload m) (rlp_get_block_headers_payload m).
Proof.
  intros []. unfold encode_get_block_headers_payload, rlp_get_block_headers_payload.
  destruct (gbh_start_hash m) as [h|], (gbh_start_number m) as [n|]; simpl in *.
  - exfalso. destruct wf_gbh_start0 as [Hs _]. by discriminate Hs.
  - emit.
  - emit.
  - by destruct (proj2 wf_gbh_start0 eq_refl).
Qed.

(** ** Decoders invert them *)

Lemma consumes_seq_of {A} (body : Dec A) (enc : A -> list byte) (P : A -> Prop) l :
  (forall x, P x -> consumes body (enc x) x /\ enc x <> []) -> Forall P l ->
  consumes (list_of body) (rlp_seq enc l) l.
Proof. rewrite Forall_forall. intros Hb Hl. apply consumes_list_of. auto. Qed.

Lemma consumes_hash_list l : Forall is_hash l -> consumes decode_hash_list (rlp_hashes l) l.
Proof. apply consumes_hashes. Qed.

Lemma consumes_uint32_list l : Forall (in_width 32) l -> consumes decode_uint32_list (rlp_seq rlp_uint l) l.
Proof.
  apply consumes_seq_of. intros n Hn. split; [by apply consumes_get_u32|apply rlp_string_nonnil].
Qed.

Lemma consumes_block_headers_payload l :
  Forall wf_block_header l -> consumes decode_block_headers_payload (rlp_seq rlp_block_header l) l.
Proof.
  apply consumes_seq_of. intros h Hh. split; [|apply rlp_list_nonnil].
  apply consumes_item; [apply is_item_list|by apply decode_block_header_wire].
Qed.

Lemma consumes_receipts_payload l :
  Forall (Forall wf_rc) l -> consumes decode_receipts_payload (rlp_seq (rlp_seq rlp_receipt) l) l.
Proof.
  apply consumes_seq_of. intros rs Hrs. split; [|apply rlp_list_nonnil]. revert Hrs.
  apply consumes_seq_of. intros r [Hwf Hsh]. split; [|apply rlp_list_nonnil].
  apply consumes_item; [apply is_item_list|by apply decode_receipt_wire].
Qed.

Lemma consumes_pooled_transactions_payload l :
  Forall is_item l -> consumes decode_pooled_transactions_payload (rlp_seq id l) l.
Proof.
  apply consumes_seq_of. intros bs Hb. split; [by apply consumes_next_item|by apply is_item_nonnil].
Qed.

(** Peeking at a list. *)
Lemma peek_list p rest :
  fits (rlp_list p ++ rest) ->
  exists n, PeekHeader (rlp_list p ++ rest) = (success (mkHeader true (Zlen p) n), rlp_list p ++ rest).
Proof. intros Hf. eexists. eapply PeekHeader_at, list_header_at, Hf. Qed.

Lemma consumes_tx_item tx : wf_tx tx -> consumes decode_transaction_item (rlp_tx_item tx) tx.
Proof.
  intros (Hwf & Hsh & Ht) rest Hf. unfold decode_transaction_item, rlp_tx_item in *.
  pose proof (decode_transaction_wire tx Hwf Hsh Ht) as Hdec. case_bool_decide as Hleg.
  - unfold rlp_transaction in *. rewrite Hleg in *. unfold rlp_legacy in *.
    destruct (peek_list _ _ Hf) as [n Hp]. rewrite (bind_success _ _ _ _ _ Hp). cbn [is_list negb andb].
    by apply (consumes_item decode_transaction _ _ (is_item_list _) Hdec).
  - destruct (peek_string _ _ Hf) as [n Hp]. rewrite (bind_success _ _ _ _ _ Hp).
    cbn [is_list negb andb payload_size_bytes]. rewrite (proj2 (Z.ltb_lt 0 _)).
    2: { pose proof (rlp_transaction_nonnil tx). destruct (rlp_transaction tx); [done|simpl; lia]. }
    rewrite (bind_success _ _ _ _ _ (consumes_get_bytes _ _ Hf)). unfold lift. rewrite Hdec; [done|].
    apply fits_app_l in Hf. unfold fits in *. pose proof (rlp_string_length_ge (rlp_transaction tx)). lia.
Qed.

Lemma rlp_tx_item_nonnil tx : rlp_tx_item tx <> [].
Proof. unfold rlp_tx_item. case_match; [apply rlp_transaction_nonnil|apply rlp_string_nonnil]. Qed.

Lemma consumes_transaction_list l :
  Forall wf_tx l -> consumes decode_transaction_list (rlp_seq rlp_tx_item l) l.
Proof.
  apply consumes_seq_of. intros tx Htx. split; [by apply consumes_tx_item|apply rlp_tx_item_nonnil].
Qed.

#[export] Hint Resolve consumes_hash_list consumes_uint32_list consumes_block_headers_payload
  consumes_receipts_payload consumes_pooled_transactions_payload consumes_transaction_list : eats.

(** A trailing loop over ignored items finds nothing. *)
Lemma eats_no_more {Er A} (body : M ByteView Er A) t rest : t = Zlen rest -> eats (while_above t body) [] [] rest.
Proof.
  intros Ht. apply (eats_while_above body (fun _ => []) [] t rest Ht). by intros x ?%not_elem_of_nil.
Qed.

Ltac eats_end :=
  eapply eats_bind_0; [by apply eats_no_more|]; eapply eats_bind_0; [by apply eats_expect_remaining|].

(** A list followed by more of the enclosing list. *)
Lemma eats_list_then {A} (k : Z -> Dec A) p tail a rest :
  eats (k (Zlen (tail ++ rest))) (p ++ tail) a rest ->
  eats (t ← list_target; k t) (rlp_list p ++ tail) a rest.
Proof.
  intros H. unfold rlp_list. rewrite <- app_assoc. eapply eats_bind; [|done].
  rewrite <- app_assoc. apply eats_list_target.
Qed.

Lemma consumes_block_body b : wf_block_body wf_tx b -> consumes decode_block_body (rlp_block_body b) b.
Proof.
  intros [] rest. destruct b. apply eats_list. do 2 eats_step. eats_end. apply eats_ret.
Qed.

Lemma consumes_block_bodies l :
  Forall (wf_block_body wf_tx) l -> consumes (list_of decode_block_body) (rlp_seq rlp_block_body l) l.
Proof.
  apply consumes_seq_of. intros b Hb. split; [by apply consumes_block_body|apply rlp_list_nonnil].
Qed.

(** ** The request id *)

Lemma eats_request_id id p rest :
  in_width 64 id -> eats consume_eth66_request_id (rlp_uint id) (Some id) (rlp_list p ++ rest).
Proof.
  intros Hid Hf. unfold consume_eth66_request_id, on_copy.
  assert (read_integral 8 (rlp_uint id ++ rlp_list p ++ rest) = (success id, rlp_list p ++ rest)) as Hr.
  { by apply (consumes_read_integral 8 id ltac:(unfold is_sizeof; lia)). }
  destruct (peek_list p rest (fits_app_r _ _ Hf)) as [n Hp].
  unfold mbind, M_bind. rewrite Hr, Hp. cbn [fst is_list]. unfold attempt. by rewrite Hr.
Qed.

(** A string item that is not followed by a list is no request id. *)
Lemma eats_no_request_id p q rest :
  eats consume_eth66_request_id [] None (rlp_string p ++ rlp_string q ++ rest).
Proof.
  intros Hf. simpl in *. unfold consume_eth66_request_id, on_copy. unfold mbind at 1 2, M_bind.
  pose proof (safe_read_integral 8 ltac:(unfold is_sizeof; lia) _ Hf) as Hs.
  destruct (read_integral 8 (rlp_string p ++ rlp_string q ++ rest)) as [[n|e|f] w] eqn:E; [|done|done].
  assert (w = rlp_string q ++ rest) as ->.
  { apply (string_reader_iff _ _ _ _ _ (read_integral_reader 8 ltac:(unfold is_sizeof; lia)) Hf) in E.
    destruct E as (p' & _ & E). pose proof (proj2 (read_bytes_iff _ _ _ Hf) eq_refl) as E1.
    pose proof (proj2 (read_bytes_iff _ _ _ Hf) E) as E2. congruence. }
  destruct (peek_string q rest (fits_app_r _ _ Hf)) as [m Hp]. by rewrite Hp.
Qed.

(** A list is no request id either. *)
Lemma eats_list_no_request_id p rest : eats consume_eth66_request_id [] None (rlp_list p ++ rest).
Proof.
  intros Hf. simpl in *. unfold consume_eth66_request_id, on_copy. unfold mbind at 1 2, M_bind.
  destruct (peek_list p rest Hf) as [n Hp].
  unfold read_integral. by rewrite (bind_success _ _ _ _ _ Hp).
Qed.

(** Request/response messages with an id are inverted. *)
Lemma decode_request_wire {A} (payload : Dec A) (wire : A -> list byte) (P : A -> Prop) msg :
  (forall p, P p -> consumes payload (wire p) p /\ exists q, wire p = rlp_list q) ->
  wf_request P msg -> is_Some (request_id msg) -> fits (rlp_request wire msg) ->
  run_decoder (decode_request payload) (rlp_request wire msg) = success msg.
Proof.
  intros Hp [Hid Hpay] [id Eid] Hf. destruct msg as [o p]. simpl in *. subst o.
  destruct (Hp p Hpay) as [Hc [q Hq]]. apply run_decoder_eats; [done|]. unfold rlp_request. simpl.
  apply eats_list_header. eapply eats_bind; [rewrite Hq; by apply eats_request_id|].
  eapply eats_bind_last; [apply Hc|]. eapply eats_bind_0; [apply eats_expect_finished|apply eats_ret].
Qed.


Lemma rlp_seq_is_list {A} (enc : A -> list byte) l : exists q, rlp_seq enc l = rlp_list q.
Proof. by eexists. Qed.

Lemma gbh_start_eats m :
  wf_get_block_headers m ->
  exists p, rlp_string p = match gbh_start_hash m, gbh_start_number m with
                           | Some h, _ => rlp_string h
                           | None, Some n => rlp_uint n
                           | None, None => []
                           end /\
    (Zlen p = kHashSize <-> is_Some (gbh_start_hash m)).
Proof.
  intros []. destruct (gbh_start_hash m) as [h|], (gbh_start_number m) as [n|]; simpl in *.
  - exists h. split; [done|]. split; eauto.
  - exists h. split; [done|]. split; eauto.
  - exists (be_min n). split; [done|]. rewrite length_be_min. pose proof (nbytes_u64 n wf_gbh_start_number0).
    unfold kHashSize. split; [lia|]. by intros [? ?].
  - by destruct (proj2 wf_gbh_start0 eq_refl).
Qed.

Lemma consumes_get_block_headers_payload m :
  wf_get_block_headers m ->
  forall rest, eats (decode_get_block_headers_payload (gbh_request_id m))
    ((match gbh_start_hash m, gbh_start_number m with
      | Some h, _ => rlp_string h
      | None, Some n => rlp_uint n
      | None, None => []
      end) ++ rlp_uint (gbh_max_headers m) ++ rlp_uint (gbh_skip m) ++ rlp_bool (gbh_reverse m)) m rest.
Proof.
  intros Hwf rest. destruct (gbh_start_eats m Hwf) as (p & Hp & Hsz). destruct Hwf.
  rewrite <- Hp. apply eats_peek_string. intros n. cbn [is_list payload_size_bytes]. rewrite Hp.
  destruct m as [id sh sn mx sk rv]; simpl in *. destruct (Z.eqb_spec (Zlen p) kHashSize) as [E|E].
  - destruct (proj1 Hsz E) as [h ->]. rewrite (proj1 wf_gbh_start0) by eauto.
    eapply (eats_bind _ _ _ _ (Some h, None)); eats_steps.
  - destruct sh as [h|]; [destruct E; apply Hsz; eauto|].
    destruct sn as [k|]; [|by destruct (proj2 wf_gbh_start0 eq_refl)].
    eapply (eats_bind _ _ _ _ (None, Some k)); eats_steps.
Qed.

Lemma get_block_headers_wire m :
  wf_get_block_headers m -> Zlen (rlp_get_block_headers m) < 2 ^ 64 ->
  encode_get_block_headers m = success (rlp_get_block_headers m) /\
  decode_get_block_headers (rlp_get_block_headers m) = success m.
Proof.
  unfold rlp_get_block_headers.
  intros Hwf Hl. split.
  { apply run_encoder_emits; [done|]. apply emits_enveloped; [apply Hwf|]. by apply emits_get_block_headers_payload. }
  apply run_decoder_eats; [done|]. pose proof (consumes_get_block_headers_payload m Hwf []) as Hp.
  pose proof (gbh_start_eats m Hwf) as (p & Hst & _).
  unfold rlp_get_block_headers_payload. rewrite <- Hst in *.
  destruct (gbh_request_id m) as [id|] eqn:Eid; simpl.
  - apply eats_list_header. eapply eats_bind; [apply eats_request_id|].
    { pose proof (wf_gbh_request_id m Hwf) as Hid. by rewrite Eid in Hid. }
    eapply eats_bind; [|eapply eats_bind_last; [apply Hp|]].
    + eapply eats_bind_last; [apply eats_ReadListHeaderBytes|apply eats_ret].
    + eapply eats_bind_0; [apply eats_expect_finished|apply eats_ret].
  - apply eats_list_header. eapply eats_bind_0.
    { rewrite <- !app_assoc. unfold rlp_uint. apply eats_no_request_id. }
    eapply eats_bind_0; [apply eats_ret|]. eapply eats_bind_last; [apply Hp|].
    eapply eats_bind_0; [apply eats_expect_finished|apply eats_ret].
Qed.

Lemma new_block_hashes_wire entries :
  Forall wf_new_block_hash entries -> Zlen (rlp_seq rlp_new_block_hash entries) < 2 ^ 64 ->
  encode_new_block_hashes entries = success (rlp_seq rlp_new_block_hash entries) /\
  decode_new_block_hashes (rlp_seq rlp_new_block_hash entries) = success entries.
Proof.
  intros Hwf Hl. split.
  - apply run_encoder_emits; [done|]. eapply emits_seq_of; [|done]. intros e []. emit.
  - apply run_decoder_eats; [done|]. apply eats_list_header. apply eats_while_above; [done|].
    rewrite Forall_forall in Hwf. intros e He. split; [|apply rlp_list_nonnil].
    destruct (Hwf e He). intros rest. destruct e. apply eats_list_header. eats_steps.
Qed.

Lemma new_pooled_tx_hashes_wire m :
  wf_new_pooled m -> length (npt_types m) = length (npt_hashes m) ->
  length (npt_sizes m) = length (npt_hashes m) -> Zlen (rlp_new_pooled_tx_hashes m) < 2 ^ 64 ->
  encode_new_pooled_tx_hashes m = success (rlp_new_pooled_tx_hashes m) /\
  decode_new_pooled_tx_hashes (rlp_new_pooled_tx_hashes m) = success m.
Proof.
  intros [Hs Hh] Ht Hz Hl. split.
  - unfold encode_new_pooled_tx_hashes. rewrite Ht, Hz, Z.eqb_refl. apply run_encoder_emits; [done|].
    apply emits_in_list. apply emits_seq; [apply emits_put_bytes|].
    apply emits_seq; [|apply emits_or_fail, emits_hashes].
    apply emits_or_fail. eapply emits_seq_of; [apply emits_put_u32|done].
  - set (items := [rlp_string (npt_types m); rlp_seq rlp_uint (npt_sizes m); rlp_hashes (npt_hashes m)]).
    assert (rlp_new_pooled_tx_hashes m = rlp_seq id items) as Hw.
    { unfold rlp_new_pooled_tx_hashes, rlp_seq at 2, items. simpl. by rewrite app_nil_r. }
    assert (Forall (fun bs => is_item bs /\ fits bs) items) as Hi.
    { unfold fits. rewrite Hw in Hl. pose proof (rlp_list_length_ge (concat (map id items))).
      unfold rlp_seq at 1 in Hl. apply Forall_forall. intros bs Hbs.
      pose proof (concat_map_member id items bs Hbs). unfold id in *. split; [|lia].
      unfold items in Hbs. set_unfold.
      destruct Hbs as [->|[->|[->|[]]]]; [apply is_item_string|apply is_item_list..]. }
    unfold decode_new_pooled_tx_hashes. rewrite Hw.
    rewrite (run_decoder_eats _ _ items); [|by rewrite <- Hw|].
    2: { apply consumes_pooled_transactions_payload. eapply Forall_impl; [apply Hi|]. by intros ? [? _]. }
    unfold items in *. rewrite !Forall_cons in Hi. destruct Hi as ((_ & F1) & (_ & F2) & (_ & F3) & _).
    simpl. assert (forall p, fits (rlp_list p) -> probe_is_list (rlp_list p) = true) as Hprobe.
    { intros p Hp. unfold probe_is_list, run_decoder. destruct (peek_list p []) as [n E].
      - by rewrite app_nil_r.
      - rewrite app_nil_r in E. by rewrite E. }
    unfold rlp_seq, rlp_hashes in *. rewrite !Hprobe by done. simpl.
    unfold decode_pooled_68.
    rewrite (run_decoder_eats _ _ (npt_types m)); [|done|].
    2: { eapply eats_bind_last; [apply consumes_get_bytes|].
         eapply eats_bind_0; [apply eats_expect_finished|apply eats_ret]. }
    simpl. rewrite (run_decoder_eats _ _ (npt_sizes m)); [|done|by apply consumes_uint32_list].
    simpl. rewrite (run_decoder_eats _ _ (npt_hashes m)); [|done|by apply consumes_hash_list].
    simpl. rewrite Ht, Hz, Z.eqb_refl. by destruct m.
Qed.

Lemma block_range_update_wire m :
  wf_block_range_update m -> Zlen (rlp_block_range_update m) < 2 ^ 64 ->
  encode_block_range_update m = success (rlp_block_range_update m) /\
  decode_block_range_update (rlp_block_range_update m) = success m.
Proof.
  intros [] Hl. split.
  - apply run_encoder_emits; [done|]. unfold rlp_block_range_update. emit.
  - apply run_decoder_eats; [done|]. destruct m. apply eats_list. eats_steps.
Qed.

Lemma upgrade_status_wire b :
  encode_upgrade_status b = success (rlp_list (rlp_bool b)) /\
  decode_upgrade_status (rlp_list (rlp_bool b)) = success b.
Proof. by destruct b. Qed.

Lemma new_block_wire m :
  wf_new_block wf_tx m -> Zlen (rlp_new_block m) < 2 ^ 64 ->
  encode_new_block m = success (rlp_new_block m) /\ decode_new_block (rlp_new_block m) = success m.
Proof.
  intros [] Hl. split.
  - apply run_encoder_emits; [done|]. unfold rlp_new_block.
    apply emits_in_list. apply emits_seq; [|emit]. emit.
  - apply run_decoder_eats; [done|]. destruct m as [h txs oms td]; simpl in *.
    assert (fits (rlp_block_header h)) as Hh.
    { unfold rlp_new_block, fits in *. simpl in Hl.
      match type of Hl with Zlen (rlp_list (rlp_list ?p ++ ?q)) < _ =>
        pose proof (rlp_list_length_ge (rlp_list p ++ q)); pose proof (rlp_list_length_ge p) end.
      rewrite !length_app in *. lia. }
    apply eats_list, eats_list_then. simpl. rewrite <- !app_assoc.
    eapply eats_bind; [apply consumes_next_item, is_item_list|].
    eapply (eats_bind_0 _ _ _ h); [intros _; unfold lift; by rewrite decode_block_header_wire|].
    do 2 eats_step. eats_end. eats_step. eats_end.
    eapply eats_bind_0; [apply eats_expect_finished|apply eats_ret].
Qed.

(** ** Safety of the decoders *)

Lemma safe_hash_list : safe 1 decode_hash_list (Forall is_hash).
Proof. apply safe_list_of, safe_get_array. Qed.

Lemma safe_uint32_list : safe 1 decode_uint32_list (Forall (in_width 32)).
Proof. apply safe_list_of, safe_get_u32. Qed.

Lemma safe_block_headers_payload : safe 1 decode_block_headers_payload (Forall wf_block_header).
Proof. apply safe_list_of, safe_item. apply decode_block_header_safe. Qed.

Lemma safe_receipts_payload : safe 1 decode_receipts_payload (Forall (Forall wf_rc)).
Proof. apply safe_list_of, safe_list_of, safe_item. apply decode_receipt_safe. Qed.

Lemma safe_pooled_transactions_payload : safe 1 decode_pooled_transactions_payload (Forall is_item).
Proof.
  apply safe_list_of. eapply safe_weaken; [apply safe_next_item|lia|]. by intros bs [? _].
Qed.

Lemma safe_transaction_item : safe 1 decode_transaction_item wf_decoded_tx.
Proof.
  unfold decode_transaction_item. safe_step. destruct (_ && _).
  - eapply safe_bind_1; [apply safe_get_bytes|lia|]. intros raw Hr.
    by apply safe_lift_ok, decode_transaction_safe.
  - apply safe_item. apply decode_transaction_safe.
Qed.

Lemma safe_transaction_list : safe 1 decode_transaction_list (Forall wf_decoded_tx).
Proof. apply safe_list_of, safe_transaction_item. Qed.

#[export] Hint Resolve safe_hash_list safe_uint32_list safe_block_headers_payload safe_receipts_payload
  safe_pooled_transactions_payload safe_transaction_list : safe.

Lemma safe_block_body : safe 1 decode_block_body (wf_block_body wf_decoded_tx).
Proof. unfold decode_block_body. safe_steps. by constructor. Qed.

Lemma safe_on_copy {Er E' A} n (m : M ByteView E' A) Q :
  safe n m Q -> safe (Er := Er) 0 (on_copy m) (on_option Q).
Proof.
  intros H v Hv. specialize (H v Hv). unfold on_copy. destruct (m v) as [[a|e|f] w]; [| |done].
  - split; [done|]. split; [lia|]. tauto.
  - split; [done|]. split; [lia|done].
Qed.

Lemma safe_request_id : safe 0 consume_eth66_request_id (on_option (in_width 64)).
Proof.
  unfold consume_eth66_request_id.
  assert (safe 0 (read_integral 8 ;; PeekHeader) (fun _ => True)) as Hprobe.
  { eapply safe_bind_1; [apply safe_read_integral; auto with safe|lia|]. intros n _. apply safe_PeekHeader. }
  eapply safe_bind_0; [eapply safe_on_copy, Hprobe|]. intros [h|] _; [|by apply safe_ret].
  destruct (is_list h); [|by apply safe_ret].
  eapply safe_weaken; [eapply safe_attempt, (safe_read_integral 8); auto with safe|lia|].
  by intros [|].
Qed.

#[export] Hint Resolve safe_block_body safe_request_id : safe.

Lemma safe_request {A} (payload : Dec A) P : safe 1 payload P -> safe 1 (decode_request payload) (wf_request P).
Proof. intros Hp. unfold decode_request. safe_steps. by split. Qed.

Lemma request_ok {A} (payload : Dec A) P data :
  safe 1 payload P -> fits data -> result_ok (wf_request P) (run_decoder (decode_request payload) data).
Proof. intros Hp Hf. eapply run_decoder_ok; [by apply safe_request|done|done]. Qed.

Lemma safe_get_block_headers_payload id :
  on_option (in_width 64) id -> safe 1 (decode_get_block_headers_payload id) wf_get_block_headers.
Proof.
  intros Hid. unfold decode_get_block_headers_payload. safe_steps.
  eapply (safe_bind_1 _ _ _ (fun p => on_option is_hash p.1 /\ on_option (in_width 64) p.2 /\
    (is_Some p.1 <-> p.2 = None))); [|lia|].
  - case_match; safe_steps; simpl; (split; [done|]; split; [done|]; split; [done|]); intros; eauto; done.
  - intros [sh sn] (? & ? & ?). safe_steps. by constructor.
Qed.

Lemma safe_new_block_hash : safe 1 decode_new_block_hash_entry wf_new_block_hash.
Proof. unfold decode_new_block_hash_entry. safe_steps. by constructor. Qed.

#[export] Hint Resolve safe_get_block_headers_payload safe_new_block_hash : safe.

Lemma result_ok_bind {E A B} (r : outcome E A) (k : A -> outcome E B) P Q :
  result_ok P r -> (forall a, P a -> result_ok Q (k a)) -> result_ok Q (r ≫= k).
Proof. destruct r; simpl; auto. Qed.

Lemma decode_pooled_hashes_ok items :
  Forall fits items -> result_ok (Forall is_hash) (decode_pooled_hashes items).
Proof.
  induction 1 as [|item items Hi Hs IH]; [by constructor|]. cbn [decode_pooled_hashes].
  eapply result_ok_bind.
  { eapply (run_decoder_ok 1 _ is_hash); [by safe_steps|done|done]. }
  intros h Hh. eapply result_ok_bind; [apply IH|]. intros hs Hhs. by constructor.
Qed.

Lemma decode_new_pooled_tx_hashes_ok data :
  fits data -> result_ok wf_new_pooled (decode_new_pooled_tx_hashes data).
Proof.
  intros Hf. unfold decode_new_pooled_tx_hashes.
  eapply (result_ok_bind _ _ (Forall fits)).
  { eapply run_decoder_ok; [apply safe_list_of, safe_next_item|done|].
    intros l Hl. eapply Forall_impl; [apply Hl|]. by intros bs [_ ?]. }
  intros items Hi.
  assert (result_ok wf_new_pooled (hashes ← decode_pooled_hashes items;
    mret (mkNewPooledTransactionHashes [] [] hashes))) as Hplain.
  { eapply result_ok_bind; [by apply decode_pooled_hashes_ok|]. intros hs Hhs. by constructor. }
  destruct items as [|i1 [|i2 [|i3 [|]]]]; [apply Hplain..| |apply Hplain].
  case_match; [|apply Hplain]. rewrite !Forall_cons in Hi. destruct Hi as (F1 & F2 & F3 & _).
  unfold decode_pooled_68. eapply (result_ok_bind _ _ fits).
  { eapply (run_decoder_ok 1 _ fits); [by safe_steps|done|done]. }
  intros types _. eapply result_ok_bind; [by eapply run_decoder_ok; [apply safe_uint32_list| |]|].
  intros sizes Hs. eapply result_ok_bind; [by eapply run_decoder_ok; [apply safe_hash_list| |]|].
  intros hashes Hh. case_match; [done|]. by constructor.
Qed.

Lemma decode_get_block_headers_ok data :
  fits data -> result_ok wf_get_block_headers (decode_get_block_headers data).
Proof.
  intros Hf. eapply (run_decoder_ok 1); [|done|done]. safe_steps.
  eapply (safe_bind_0 _ _ _ (fun _ => True)).
  { destruct a0; [|by apply safe_ret]. by safe_steps. }
  intros _ _. by safe_steps.
Qed.

Lemma decode_new_block_ok data : fits data -> result_ok (wf_new_block wf_decoded_tx) (decode_new_block data).
Proof.
  intros Hf. eapply (run_decoder_ok 1); [|done|done]. do 2 safe_step.
  eapply safe_bind_1; [apply safe_next_item|lia|]. intros header_view [_ Hv].
  eapply safe_bind_0; [by apply safe_lift_ok, decode_block_header_safe|].
  intros h Hh. safe_steps. by constructor.
Qed.

(** ** What the decoders reject *)

(** A hash is not a request id. *)
Lemma hash_no_request_id h rest :
  is_hash h -> fits (rlp_string h ++ rest) ->
  consume_eth66_request_id (rlp_string h ++ rest) = (success None, rlp_string h ++ rest).
Proof.
  intros Hh Hf. unfold consume_eth66_request_id, on_copy. unfold mbind at 1 2, M_bind.
  pose proof (safe_read_integral 8 ltac:(unfold is_sizeof; lia) _ Hf) as Hs.
  destruct (read_integral 8 (rlp_string h ++ rest)) as [[n|e|f] w] eqn:E; [exfalso|done|done].
  apply read_integral_iff in E as [Hn E]; [|unfold is_sizeof; lia|done].
  assert (exists p, Zlen p <= 8 /\ rlp_string h ++ rest = rlp_string p ++ w) as (p & Hlen & Ep).
  { destruct E as [E|[_ E]].
    - exists (be_min n). split; [rewrite length_be_min; pose proof (nbytes_u64 n Hn); lia|done].
    - exists [x00]. split; [simpl; lia|]. by rewrite E. }
  pose proof (proj2 (read_bytes_iff _ _ _ Hf) eq_refl) as E1.
  pose proof (proj2 (read_bytes_iff _ _ _ Hf) Ep) as E2. rewrite E1 in E2. simplify_eq.
  unfold is_hash, kHashSize in Hh. lia.
Qed.

(** A hash request without an id: the payload's own list is taken for the
    envelope and the first hash for the list. *)
Lemma bare_hash_request_fails l :
  Forall is_hash l -> fits (rlp_hashes l) -> fails (decode_request decode_hash_list) (rlp_hashes l).
Proof.
  intros Hl Hf. unfold rlp_hashes in *. set (q := concat (map rlp_string l)) in *.
  eapply fails_bind_r; [by apply ReadListHeaderBytes_whole|]. assert (fits q) as Hq.
  { unfold fits in *. pose proof (rlp_list_length_ge q). lia. }
  destruct l as [|h l]; [by repeat eexists|]. simpl in q. apply Forall_cons in Hl as [Hh0 _].
  eapply fails_bind_r; [by apply hash_no_request_id|]. apply fails_bind_l. apply fails_bind_l.
  by apply fails_list_target_string.
Qed.

(** A typed receipt that arrives as a byte string: one byte is stripped, but the
    prefix of the string has at least three. *)
Lemma typed_receipt_string_fails t payload :
  256 <= Zlen (t :: payload) < 0xC000 -> exists e, decode_receipt (rlp_string (t :: payload)) = failure e.
Proof.
  intros Hl. rewrite rlp_string_prefixed.
  2: { intros b [= -> ->]. simpl in Hl. lia. }
  rewrite rlp_header_long by lia. set (n := Zlen (t :: payload)) in *.
  assert (be_min n = [byte_of (n / 256); byte_of n]) as Hbe.
  { unfold be_min. rewrite (nbytes_unique n 2) by (simpl; lia). done. }
  rewrite Hbe. cbn [app length]. unfold decode_receipt, kRlpListPrefixMin.
  rewrite u8_byte_of_small by lia. rewrite (proj2 (Z.ltb_lt _ 0xC0)) by lia.
  apply run_decoder_fails, fails_bind_l, fails_ReadListHeaderBytes.
  - rewrite u8_byte_of_small.
    + assert (n / 256 < 192) by (apply Z.div_lt_upper_bound; lia). lia.
    + split; [apply Z.div_pos; lia|]. apply Z.div_lt_upper_bound; lia.
  - unfold fits. rewrite !length_cons. unfold n in Hl. rewrite length_cons in Hl. lia.
Qed.

Lemma typed_receipts_message_fails id t payload :
  in_width 64 id -> 256 <= Zlen (t :: payload) < 0xC000 ->
  let wire := rlp_list (rlp_uint id ++ rlp_list (rlp_list (rlp_string (t :: payload)))) in
  fits wire -> fails (decode_request decode_receipts_payload) wire.
Proof.
  intros Hid Hl wire Hf. set (s := rlp_string (t :: payload)) in *.
  eapply fails_bind_r; [by apply ReadListHeaderBytes_whole|].
  assert (fits (rlp_uint id ++ rlp_list (rlp_list s))) as Hq.
  { unfold fits in *. unfold wire in Hf. pose proof (rlp_list_length_ge (rlp_uint id ++ rlp_list (rlp_list s))). lia. }
  assert (fits (rlp_list s ++ [])) as Hs1.
  { apply fits_app_r in Hq. rewrite app_nil_r. unfold fits in *. pose proof (rlp_list_length_ge (rlp_list s)). lia. }
  assert (fits s) as Hs0.
  { rewrite app_nil_r in Hs1. unfold fits in *. pose proof (rlp_list_length_ge s). lia. }
  rewrite <- (app_nil_r (rlp_list (rlp_list s))) in *.
  eapply fails_bind_r; [by apply eats_request_id|]. apply fails_bind_l.
  apply fails_list_of; [apply rlp_list_nonnil|by eapply fits_app_r|].
  apply fails_list_of; [apply rlp_string_nonnil|done|]. rewrite app_nil_r.
  pose proof (consumes_next_item s (is_item_string _) []) as Hc. unfold eats in Hc. rewrite app_nil_r in Hc.
  eapply fails_bind_r; [by apply Hc|]. destruct (typed_receipt_string_fails t payload Hl) as [e E].
  exists e, []. unfold lift. by fold s in E; rewrite E.
Qed.

(** ** Theorems *)

(** Encoding yields the wire form, and decoding that gives the message back. *)
Definition roundtrips {E E' A} (encode : A -> outcome E (list byte)) (decode : list byte -> outcome E' A)
    (wire : A -> list byte) (msg : A) : Prop :=
  encode msg = success (wire msg) /\ decode (wire msg) = success msg.

(** A message with a request id and a payload in range whose encoding fits. *)
Definition sendable {A} (P : A -> Prop) (wire : A -> list byte) (msg : Request A) : Prop :=
  wf_request P msg /\ is_Some (request_id msg) /\ Zlen (rlp_request wire msg) < 2 ^ 64.

Lemma request_roundtrips {A} (enc : A -> Enc unit) (payload : Dec A) wire (P : A -> Prop) msg :
  (forall p, P p -> emits (enc p) (wire p)) ->
  (forall p, P p -> consumes payload (wire p) p /\ exists q, wire p = rlp_list q) ->
  sendable P wire msg ->
  roundtrips (fun m => run_encoder (enveloped (request_id m) (enc (request_payload m))))
    (run_decoder (decode_request payload)) (rlp_request wire) msg.
Proof.
  intros He Hd (Hwf & Hid & Hl).
  split; [by eapply encode_request_wire|by eapply decode_request_wire].
Qed.

Lemma receipts_roundtrips (msg : ReceiptsMessage) :
  sendable (Forall (Forall wf_rc)) (rlp_seq (rlp_seq rlp_receipt)) msg ->
  roundtrips encode_receipts decode_receipts (rlp_request (rlp_seq (rlp_seq rlp_receipt))) msg.
Proof.
  intros H. eapply (request_roundtrips encode_receipts_payload decode_receipts_payload); [| |done].
  - apply emits_receipts_payload.
  - intros p Hp. split; [by apply consumes_receipts_payload|apply rlp_seq_is_list].
Qed.

Lemma get_receipts_roundtrips (msg : GetReceiptsMessage) :
  sendable (Forall is_hash) rlp_hashes msg -> roundtrips encode_get_receipts decode_get_receipts (rlp_request rlp_hashes) msg.
Proof.
  intros H. eapply (request_roundtrips encode_hash_list decode_hash_list); [| |done].
  - intros p _. apply emits_hashes.
  - intros p Hp. split; [by apply consumes_hash_list|by eexists].
Qed.

Lemma decode_new_block_hashes_ok data : fits data -> result_ok (Forall wf_new_block_hash) (decode_new_block_hashes data).
Proof.
  intros Hf. eapply (run_decoder_ok 1); [|done|done]. eapply safe_bind_1; [apply safe_ReadListHeaderBytes|lia|].
  intros n _. by apply safe_while_above, safe_new_block_hash.
Qed.

(** C25: Responses with a request id (BlockHeaders, Receipts, PooledTransactions,
    BlockBodies): every well-formed message is encoded and decodes to itself. *)
Theorem responses_roundtrip (bh : BlockHeadersMessage) (rc : ReceiptsMessage)
    (pt : PooledTransactionsMessage) (bb : BlockBodiesMessage) :
  sendable (Forall wf_block_header) (rlp_seq rlp_block_header) bh ->
  sendable (Forall (Forall wf_rc)) (rlp_seq (rlp_seq rlp_receipt)) rc ->
  sendable (Forall is_item) (rlp_seq id) pt ->
  sendable (Forall (wf_block_body wf_tx)) (rlp_seq rlp_block_body) bb ->
  roundtrips encode_block_headers decode_block_headers (rlp_request (rlp_seq rlp_block_header)) bh /\
  roundtrips encode_receipts decode_receipts (rlp_request (rlp_seq (rlp_seq rlp_receipt))) rc /\
  roundtrips encode_pooled_transactions decode_pooled_transactions (rlp_request (rlp_seq id)) pt /\
  roundtrips encode_block_bodies decode_block_bodies (rlp_request (rlp_seq rlp_block_body)) bb.
Proof.
  intros H1 H2 H3 H4. split_and!.
  - eapply (request_roundtrips encode_block_headers_payload decode_block_headers_payload); [| |done].
    + apply emits_block_headers_payload.
    + intros p Hp. split; [by apply consumes_block_headers_payload|apply rlp_seq_is_list].
  - by apply receipts_roundtrips.
  - eapply (request_roundtrips encode_pooled_transactions_payload decode_pooled_transactions_payload); [| |done].
    + apply emits_pooled_transactions_payload.
    + intros p Hp. split; [by apply consumes_pooled_transactions_payload|apply rlp_seq_is_list].
  - eapply (request_roundtrips (fun l => in_list (for_each encode_block_body l)) (list_of decode_block_body));
      [| |done].
    + intros p Hp. eapply emits_seq_of; [apply emits_block_body|done].
    + intros p Hp. split; [by apply consumes_block_bodies|apply rlp_seq_is_list].
Qed.

Lemma responses_roundtrip_witness :
  roundtrips encode_receipts decode_receipts (rlp_request (rlp_seq (rlp_seq rlp_receipt))) (mkRequest (Some 7) [[sample_receipt]; []]) /\
  roundtrips encode_block_bodies decode_block_bodies (rlp_request (rlp_seq rlp_block_body)) (mkRequest (Some 7) [mkBlockBody [sample_tx] [sample_header]]).
Proof.
  destruct (responses_roundtrip (mkRequest (Some 7) [sample_header]) (mkRequest (Some 7) [[sample_receipt]; []])
    (mkRequest (Some 7) [rlp_string [x01]]) (mkRequest (Some 7) [mkBlockBody [sample_tx] [sample_header]]))
    as (_ & H2 & _ & H4); [..|by split].
  - split; [|split; [by eexists|by vm_compute]]. split; [wf_closed|]. repeat constructor. all: apply sample_header_wf.
  - split; [|split; [by eexists|by vm_compute]]. split; [wf_closed|]. repeat constructor. all: apply sample_receipt_wf.
  - split; [|split; [by eexists|by vm_compute]]. split; [wf_closed|]. simpl. constructor; [apply (is_item_string [x01])|done].
  - split; [|split; [by eexists|by vm_compute]]. split; [wf_closed|]. simpl. constructor; [|done].
    split; simpl; (constructor; [|done]); [|apply sample_header_wf].
    split; [apply sample_tx_wf|]. split; [|done]. unfold tx_shape. simpl. eauto.
Defined.

(** Requests by hash (GetReceipts, GetPooledTransactions, GetBlockBodies) with a
    request id decode to themselves. *)
Theorem hash_requests_roundtrip (msg : Request (list (list byte))) :
  sendable (Forall is_hash) rlp_hashes msg ->
  roundtrips encode_get_receipts decode_get_receipts (rlp_request rlp_hashes) msg /\
  roundtrips encode_get_pooled_transactions decode_get_pooled_transactions (rlp_request rlp_hashes) msg /\
  roundtrips encode_get_block_bodies decode_get_block_bodies (rlp_request rlp_hashes) msg.
Proof.
  intros H. pose proof (get_receipts_roundtrips msg H). done.
Qed.

Lemma hash_requests_roundtrip_witness :
  roundtrips encode_get_receipts decode_get_receipts (rlp_request rlp_hashes) (mkRequest (Some 0) [sample_hash; sample_hash]).
Proof.
  apply (hash_requests_roundtrip (mkRequest (Some 0) [sample_hash; sample_hash])).
  split; [|split; [by eexists|by vm_compute]]. split; [wf_closed|]. by repeat constructor.
Defined.

(** A hash request without a request id is encoded as the bare list, but its
    decoder rejects those bytes, whatever the hashes. *)
Theorem bare_hash_request_rejected (hashes : list (list byte)) :
  Forall is_hash hashes -> Zlen (rlp_hashes hashes) < 2 ^ 64 ->
  encode_get_receipts (mkRequest None hashes) = success (rlp_hashes hashes) /\
  exists e, decode_get_receipts (rlp_hashes hashes) = failure e.
Proof.
  intros Hh Hl. destruct (run_decoder_fails _ _ (bare_hash_request_fails hashes Hh Hl)) as [e E].
  split; [|by exists e]. apply run_encoder_emits; [done|apply emits_hashes].
Qed.

Lemma bare_hash_request_rejected_witness :
  encode_get_receipts (mkRequest None [sample_hash]) = success (rlp_hashes [sample_hash]) /\
  exists e, decode_get_receipts (rlp_hashes [sample_hash]) = failure e.
Proof. apply (bare_hash_request_rejected [sample_hash]); [by repeat constructor|by vm_compute]. Defined.

(** A Receipts message whose receipt is an EIP-2718 typed receipt in the form
    the devp2p specification gives it (a byte string holding the type byte and
    the receipt) is rejected: the item is handed to [decode_receipt] with its
    string prefix, of which only the first byte is removed. *)
Theorem typed_receipts_rejected (id : Z) (t : byte) (r : Receipt) :
  in_width 64 id -> 256 <= Zlen (t :: rlp_receipt r) < 0xC000 ->
  let wire := rlp_list (rlp_uint id ++ rlp_list (rlp_list (rlp_string (t :: rlp_receipt r)))) in
  Zlen wire < 2 ^ 64 -> exists e, decode_receipts wire = failure e.
Proof. intros Hid Hl wire Hf. by apply run_decoder_fails, typed_receipts_message_fails. Qed.

Lemma typed_receipts_rejected_witness :
  exists e, decode_receipts
    (rlp_list (rlp_uint 1 ++ rlp_list (rlp_list (rlp_string (x02 :: rlp_receipt sample_receipt))))) = failure e.
Proof.
  apply (typed_receipts_rejected 1 x02 sample_receipt);
    [unfold in_width; lia|split; [by vm_compute|by vm_compute]|by vm_compute].
Defined.

(** GetBlockHeaders with exactly one start point, with or without a request id,
    decodes to itself. *)
Theorem get_block_headers_roundtrip (m : GetBlockHeadersMessage) :
  wf_get_block_headers m -> Zlen (rlp_get_block_headers m) < 2 ^ 64 ->
  roundtrips encode_get_block_headers decode_get_block_headers rlp_get_block_headers m.
Proof. apply get_block_headers_wire. Qed.

Lemma get_block_headers_roundtrip_witness :
  roundtrips encode_get_block_headers decode_get_block_headers rlp_get_block_headers (mkGetBlockHeaders None None (Some 17000000) 1 0 true).
Proof.
  apply (get_block_headers_roundtrip (mkGetBlockHeaders None None (Some 17000000) 1 0 true)); [|by vm_compute].
  constructor; simpl; wf_closed.
Defined.

(** NewBlock: a block with its transactions, ommers and total difficulty decodes
    to itself. *)
Theorem new_block_roundtrip (m : NewBlockMessage) :
  wf_new_block wf_tx m -> Zlen (rlp_new_block m) < 2 ^ 64 -> roundtrips encode_new_block decode_new_block rlp_new_block m.
Proof. apply new_block_wire. Qed.

Lemma new_block_roundtrip_witness :
  roundtrips encode_new_block decode_new_block rlp_new_block (mkNewBlock sample_header [sample_tx] [sample_header] 58750003716598352816469).
Proof.
  apply (new_block_roundtrip (mkNewBlock sample_header [sample_tx] [sample_header] 58750003716598352816469));
    [|by vm_compute].
  constructor; simpl; [apply sample_header_wf| | |wf_closed]; (constructor; [|done]); [|apply sample_header_wf].
  split; [apply sample_tx_wf|]. split; [|done]. unfold tx_shape. simpl. eauto.
Defined.

(** The announcements (NewBlockHashes, NewPooledTransactionHashes with equal
    list lengths, BlockRangeUpdate, UpgradeStatus) decode to themselves. *)
Theorem announcements_roundtrip (nb : list NewBlockHashEntry) (np : NewPooledTransactionHashesMessage)
    (br : BlockRangeUpdateMessage) (us : bool) :
  Forall wf_new_block_hash nb -> Zlen (rlp_seq rlp_new_block_hash nb) < 2 ^ 64 ->
  wf_new_pooled np -> length (npt_types np) = length (npt_hashes np) ->
  length (npt_sizes np) = length (npt_hashes np) -> Zlen (rlp_new_pooled_tx_hashes np) < 2 ^ 64 ->
  wf_block_range_update br -> Zlen (rlp_block_range_update br) < 2 ^ 64 ->
  roundtrips encode_new_block_hashes decode_new_block_hashes (rlp_seq rlp_new_block_hash) nb /\
  roundtrips encode_new_pooled_tx_hashes decode_new_pooled_tx_hashes rlp_new_pooled_tx_hashes np /\
  roundtrips encode_block_range_update decode_block_range_update rlp_block_range_update br /\
  roundtrips encode_upgrade_status decode_upgrade_status (fun b => rlp_list (rlp_bool b)) us.
Proof.
  intros. split; [by apply new_block_hashes_wire|]. split; [by apply new_pooled_tx_hashes_wire|].
  split; [by apply block_range_update_wire|apply upgrade_status_wire].
Qed.

Lemma announcements_roundtrip_witness :
  roundtrips encode_new_pooled_tx_hashes decode_new_pooled_tx_hashes rlp_new_pooled_tx_hashes
    (mkNewPooledTransactionHashes [x02; x00] [110; 250] [sample_hash; sample_hash]).
Proof.
  apply (announcements_roundtrip [mkNewBlockHashEntry sample_hash 5]
    (mkNewPooledTransactionHashes [x02; x00] [110; 250] [sample_hash; sample_hash])
    (mkBlockRangeUpdate 0 9 sample_hash) true); wf_closed.
Defined.

(** C26: On any input the message decoders terminate without undefined behaviour,
    and what they return is well formed. *)
Theorem messages_decode_safe (data : ByteView) :
  fits data ->
  result_ok (Forall wf_new_block_hash) (decode_new_block_hashes data) /\
  result_ok wf_new_pooled (decode_new_pooled_tx_hashes data) /\
  result_ok wf_block_range_update (decode_block_range_update data) /\
  result_ok (fun _ => True) (decode_upgrade_status data) /\
  result_ok wf_get_block_headers (decode_get_block_headers data) /\
  result_ok (wf_request (Forall wf_block_header)) (decode_block_headers data) /\
  result_ok (wf_request (Forall is_hash)) (decode_get_receipts data) /\
  result_ok (wf_request (Forall (Forall wf_rc))) (decode_receipts data) /\
  result_ok (wf_request (Forall is_item)) (decode_pooled_transactions data) /\
  result_ok (wf_request (Forall (wf_block_body wf_decoded_tx))) (decode_block_bodies data) /\
  result_ok (wf_new_block wf_decoded_tx) (decode_new_block data).
Proof.
  intros Hf. split_and!.
  - by apply decode_new_block_hashes_ok.
  - by apply decode_new_pooled_tx_hashes_ok.
  - eapply (run_decoder_ok 1); [|done|done]. safe_steps. by constructor.
  - eapply (run_decoder_ok 1 _ (fun _ => True)); [|done|done]. by safe_steps.
  - by apply decode_get_block_headers_ok.
  - apply request_ok; [apply safe_block_headers_payload|done].
  - apply request_ok; [apply safe_hash_list|done].
  - apply request_ok; [apply safe_receipts_payload|done].
  - apply request_ok; [apply safe_pooled_transactions_payload|done].
  - apply request_ok; [apply safe_list_of, safe_block_body|done].
  - by apply decode_new_block_ok.
Qed.

Lemma messages_decode_safe_witness :
  result_ok (wf_new_block wf_decoded_tx) (decode_new_block [xc1; xf8; xff]).
Proof. by apply (messages_decode_safe [xc1; xf8; xff]). Defined.
