(* ===== verification/EthStatus.v ===== *)
(** * The Status message and message schemas

    [src/eth/messages.cpp]: [encode_status], the schema-driven [decode_status],
    [validate_status], and the schema variants of the receipt decoders.  A schema
    lists the fields of a message in order; the decoder tries the schemas one
    after the other and keeps the error of the last one that failed. *)

From S2P Require Import Prelude RlpSpec RlpCommon RlpEncoder RlpDecoder DecodeLogic EthObjects EthMessages.

(** ** eth_types.hpp *)

Definition kEthProtocolVersion66 : Z := 66.
Definition kEthProtocolVersion67 : Z := 67.
Definition kEthProtocolVersion68 : Z := 68.
Definition kEthProtocolVersion69 : Z := 69.

Record ForkId := mkForkId { fork_hash : list byte; next_fork : Z }.

Record StatusMessage68 := mkStatus68 {
  s68_protocol_version : Z;
  s68_network_id : Z;
  s68_td : Z;
  s68_blockhash : list byte;
  s68_genesis_hash : list byte;
  s68_fork_id : ForkId
}.

Record StatusMessage69 := mkStatus69 {
  s69_protocol_version : Z;
  s69_network_id : Z;
  s69_genesis_hash : list byte;
  s69_fork_id : ForkId;
  s69_earliest_block : Z;
  s69_latest_block : Z;
  s69_latest_block_hash : list byte
}.

(** [std::variant<StatusMessage68, StatusMessage69>]. *)
Inductive StatusMessage :=
  | Status68 (m : StatusMessage68)
  | Status69 (m : StatusMessage69).

Record CommonStatusFields := mkCommonStatus {
  common_protocol_version : Z;
  common_network_id : Z;
  common_genesis_hash : list byte;
  common_fork_id : ForkId
}.

Definition get_common_fields (msg : StatusMessage) : CommonStatusFields :=
  match msg with
  | Status68 m => mkCommonStatus (s68_protocol_version m) (s68_network_id m) (s68_genesis_hash m) (s68_fork_id m)
  | Status69 m => mkCommonStatus (s69_protocol_version m) (s69_network_id m) (s69_genesis_hash m) (s69_fork_id m)
  end.

Inductive EthMessageFieldType :=
  | kUint8 | kUint16 | kUint32 | kUint64 | kUint256 | kHash32 | kHash4 | kForkId | kBytes | kBool
  | kHashOrNumber | kHashList | kUintList | kUint32List | kBytesList | kBlockHashEntries
  | kGetBlockHeadersQuery | kBlockHeaders | kBlockBodies | kBlock | kTransactions | kReceipts
  | kPooledTransactions.

Record EthMessageFieldSchema := mkField {
  field_name : string;
  field_type : EthMessageFieldType;
  field_size : option Z;
  field_offset : option Z
}.

Record EthMessageSchema := mkSchema {
  schema_name : string;
  schema_message_id : Z;
  schema_protocol_version : option Z;
  schema_fields : list EthMessageFieldSchema
}.

Inductive StatusValidationError :=
  | kProtocolVersionMismatch
  | kNetworkIDMismatch
  | kGenesisMismatch
  | kInvalidBlockRange.

(** ** messages.hpp *)

Definition kStatusMessageId : Z := 0x00.
Definition kGetReceiptsMessageId : Z := 0x0f.
Definition kReceiptsMessageId : Z := 0x10.

(** ** Encoding *)

Definition put_fork_id (f : ForkId) : Enc unit :=
  in_list (put_bytes (fork_hash f) ;; put_u64 (next_fork f)).

Definition encode_status (msg : StatusMessage) : outcome EncodingError (list byte) :=
  run_encoder (
    match msg with
    | Status68 m =>
        in_list (put_u8 (s68_protocol_version m) ;;
                 put_u64 (s68_network_id m) ;;
                 put_u256 (s68_td m) ;;
                 put_bytes (s68_blockhash m) ;;
                 put_bytes (s68_genesis_hash m) ;;
                 put_fork_id (s68_fork_id m))
    | Status69 m =>
        in_list (put_u8 (s69_protocol_version m) ;;
                 put_u64 (s69_network_id m) ;;
                 put_bytes (s69_genesis_hash m) ;;
                 put_fork_id (s69_fork_id m) ;;
                 put_u64 (s69_earliest_block m) ;;
                 put_u64 (s69_latest_block m) ;;
                 put_bytes (s69_latest_block_hash m))
    end).

(** ** Decoding *)

Record DecodedStatusFields := mkDecoded {
  d_protocol_version : option Z;
  d_network_id : option Z;
  d_td : option Z;
  d_block_hash : option (list byte);
  d_genesis_hash : option (list byte);
  d_fork_id : option ForkId;
  d_earliest_block : option Z;
  d_latest_block : option Z;
  d_latest_block_hash : option (list byte)
}.

Definition no_fields : DecodedStatusFields := mkDecoded None None None None None None None None None.

Local Open Scope string_scope.

Definition legacy_schema (version : Z) : EthMessageSchema :=
  mkSchema "Status" kStatusMessageId (Some version)
    [mkField "protocol_version" kUint8 None (Some 0%Z);
     mkField "network_id" kUint64 None (Some 1%Z);
     mkField "td" kUint256 None (Some 2%Z);
     mkField "block_hash" kHash32 (Some 32%Z) (Some 3%Z);
     mkField "genesis_hash" kHash32 (Some 32%Z) (Some 4%Z);
     mkField "fork_id" kForkId None (Some 5%Z)].

Definition default_status_schemas : list EthMessageSchema :=
  [mkSchema "Status" kStatusMessageId (Some kEthProtocolVersion69)
     [mkField "protocol_version" kUint8 None (Some 0%Z);
      mkField "network_id" kUint64 None (Some 1%Z);
      mkField "genesis_hash" kHash32 (Some 32%Z) (Some 2%Z);
      mkField "fork_id" kForkId None (Some 3%Z);
      mkField "earliest_block" kUint64 None (Some 4%Z);
      mkField "latest_block" kUint64 None (Some 5%Z);
      mkField "latest_block_hash" kHash32 (Some 32%Z) (Some 6%Z)];
   legacy_schema kEthProtocolVersion68;
   legacy_schema kEthProtocolVersion67;
   legacy_schema kEthProtocolVersion66].

Definition read_fork_id_field : Dec ForkId :=
  list_payload_size ← ReadListHeaderBytes;
  list_start_remaining ← remaining_size;
  if (list_start_remaining <? list_payload_size)%Z then fail kInputTooShort else
  let target_remaining := u64 (list_start_remaining - list_payload_size) in
  hash ← get_array 4;
  next ← get_u64;
  expect_remaining target_remaining kInputTooLong ;;
  mret (mkForkId hash next).

(** The assignments of the integer branch, by field name. *)
Definition set_uint (name : string) (value : Z) (out : DecodedStatusFields) : DecodedStatusFields :=
  if String.eqb name "protocol_version" then
    mkDecoded (Some (value mod 256)%Z) (d_network_id out) (d_td out) (d_block_hash out) (d_genesis_hash out)
      (d_fork_id out) (d_earliest_block out) (d_latest_block out) (d_latest_block_hash out)
  else if String.eqb name "network_id" then
    mkDecoded (d_protocol_version out) (Some value) (d_td out) (d_block_hash out) (d_genesis_hash out)
      (d_fork_id out) (d_earliest_block out) (d_latest_block out) (d_latest_block_hash out)
  else if String.eqb name "earliest_block" then
    mkDecoded (d_protocol_version out) (d_network_id out) (d_td out) (d_block_hash out) (d_genesis_hash out)
      (d_fork_id out) (Some value) (d_latest_block out) (d_latest_block_hash out)
  else if String.eqb name "latest_block" then
    mkDecoded (d_protocol_version out) (d_network_id out) (d_td out) (d_block_hash out) (d_genesis_hash out)
      (d_fork_id out) (d_earliest_block out) (Some value) (d_latest_block_hash out)
  else out.

Definition set_td (name : string) (value : Z) (out : DecodedStatusFields) : DecodedStatusFields :=
  if String.eqb name "td" then
    mkDecoded (d_protocol_version out) (d_network_id out) (Some value) (d_block_hash out) (d_genesis_hash out)
      (d_fork_id out) (d_earliest_block out) (d_latest_block out) (d_latest_block_hash out)
  else out.

Definition set_hash (name : string) (value : list byte) (out : DecodedStatusFields) : DecodedStatusFields :=
  if String.eqb name "block_hash" then
    mkDecoded (d_protocol_version out) (d_network_id out) (d_td out) (Some value) (d_genesis_hash out)
      (d_fork_id out) (d_earliest_block out) (d_latest_block out) (d_latest_block_hash out)
  else if String.eqb name "genesis_hash" then
    mkDecoded (d_protocol_version out) (d_network_id out) (d_td out) (d_block_hash out) (Some value)
      (d_fork_id out) (d_earliest_block out) (d_latest_block out) (d_latest_block_hash out)
  else if String.eqb name "latest_block_hash" then
    mkDecoded (d_protocol_version out) (d_network_id out) (d_td out) (d_block_hash out) (d_genesis_hash out)
      (d_fork_id out) (d_earliest_block out) (d_latest_block out) (Some value)
  else out.

Definition set_fork_id (name : string) (value : ForkId) (out : DecodedStatusFields) : DecodedStatusFields :=
  if String.eqb name "fork_id" then
    mkDecoded (d_protocol_version out) (d_network_id out) (d_td out) (d_block_hash out) (d_genesis_hash out)
      (Some value) (d_earliest_block out) (d_latest_block out) (d_latest_block_hash out)
  else out.

(** [value > UINT8_MAX] and the like, for the narrow integer types. *)
Definition exceeds (type : EthMessageFieldType) (value : Z) : bool :=
  match type with
  | kUint8 => (255 <? value)%Z
  | kUint16 => (65535 <? value)%Z
  | kUint32 => (4294967295 <? value)%Z
  | _ => false
  end.

Definition read_schema_field (field : EthMessageFieldSchema) (index : Z) (out : DecodedStatusFields) :
    Dec DecodedStatusFields :=
  if match field_offset field with Some o => negb (o =? index)%Z | None => false end
  then fail kListLengthMismatch else
  match field_type field with
  | kUint8 | kUint16 | kUint32 | kUint64 =>
      value ← get_u64;
      if exceeds (field_type field) value then fail kOverflow else
      mret (set_uint (field_name field) value out)
  | kUint256 =>
      value ← get_u256; mret (set_td (field_name field) value out)
  | kHash32 =>
      value ← get_array kHashSize; mret (set_hash (field_name field) value out)
  | kHash4 => read_array 4 ;; mret out
  | kForkId =>
      value ← read_fork_id_field; mret (set_fork_id (field_name field) value out)
  | kBytes =>
      match field_size field with
      | Some size =>
          bytes ← read_bytes;
          if negb (Zlen bytes =? size)%Z then fail kUnexpectedLength else mret out
      | None => SkipItem ;; mret out
      end
  | _ => SkipItem ;; mret out
  end.

(** The loop over the fields. *)
Fixpoint read_schema_fields (fields : list EthMessageFieldSchema) (index : Z) (out : DecodedStatusFields) :
    Dec DecodedStatusFields :=
  match fields with
  | [] => mret out
  | field :: fields' =>
      out' ← read_schema_field field index out;
      read_schema_fields fields' (index + 1)%Z out'
  end.

(** [a.has_value() && *a == v]. *)
Definition has_value (a : option Z) (v : Z) : bool :=
  match a with Some x => (x =? v)%Z | None => false end.

Definition decode_status_fields_with_schema (rlp_data : ByteView) (schema : EthMessageSchema) :
    outcome DecodingError DecodedStatusFields :=
  if negb (String.eqb (schema_name schema) "Status") || negb (schema_message_id schema =? kStatusMessageId)%Z
  then failure kUnexpectedString else
  run_decoder (
    list_payload_size ← ReadListHeaderBytes;
    list_start_remaining ← remaining_size;
    if (list_start_remaining <? list_payload_size)%Z then fail kInputTooShort else
    let target_remaining := u64 (list_start_remaining - list_payload_size) in
    if negb (target_remaining =? 0)%Z then fail kInputTooLong else
    out ← read_schema_fields (schema_fields schema) 0 no_fields;
    expect_remaining target_remaining kInputTooLong ;;
    match schema_protocol_version schema with
    | Some version =>
        if has_value (d_protocol_version out) version then mret out else fail kUnexpectedString
    | None => mret out
    end) rlp_data.

Local Close Scope string_scope.

Definition make_status_message_from_fields (fields : DecodedStatusFields) : outcome DecodingError StatusMessage :=
  match d_protocol_version fields, d_network_id fields, d_genesis_hash fields, d_fork_id fields with
  | Some version, Some network, Some genesis, Some fork =>
      if version =? kEthProtocolVersion69 then
        match d_earliest_block fields, d_latest_block fields, d_latest_block_hash fields with
        | Some earliest, Some latest, Some hash =>
            success (Status69 (mkStatus69 version network genesis fork earliest latest hash))
        | _, _, _ =>
            match d_block_hash fields with
            | Some hash => success (Status69 (mkStatus69 version network genesis fork 0 0 hash))
            | None => failure kInputTooShort
            end
        end
      else if (version =? kEthProtocolVersion68) || (version =? kEthProtocolVersion67)
           || (version =? kEthProtocolVersion66) then
        match d_td fields, d_block_hash fields with
        | Some td, Some hash => success (Status68 (mkStatus68 version network td hash genesis fork))
        | _, _ => failure kInputTooShort
        end
      else failure kUnexpectedString
  | _, _, _, _ => failure kInputTooShort
  end.

(** The loop over the schemas, with [last_error]. *)
Fixpoint try_schemas (rlp_data : ByteView) (last_error : DecodingError) (schemas : list EthMessageSchema) :
    outcome DecodingError StatusMessage :=
  match schemas with
  | [] => failure last_error
  | schema :: schemas' =>
      match decode_status_fields_with_schema rlp_data schema with
      | failure e => try_schemas rlp_data e schemas'
      | crash f => crash f
      | success fields =>
          match make_status_message_from_fields fields with
          | success status => success status
          | failure e => try_schemas rlp_data e schemas'
          | crash f => crash f
          end
      end
  end.

Definition decode_status_with (rlp_data : ByteView) (schemas : list EthMessageSchema) :
    outcome DecodingError StatusMessage :=
  try_schemas rlp_data kUnexpectedString schemas.

Definition decode_status (rlp_data : ByteView) : outcome DecodingError StatusMessage :=
  decode_status_with rlp_data default_status_schemas.

Definition validate_status (msg : StatusMessage) (expected_network_id : Z) (expected_genesis : list byte) :
    outcome StatusValidationError unit :=
  let common := get_common_fields msg in
  if negb (common_network_id common =? expected_network_id) then failure kNetworkIDMismatch else
  if bool_decide (common_genesis_hash common <> expected_genesis) then failure kGenesisMismatch else
  match msg with
  | Status69 m =>
      if negb (s69_latest_block m =? 0) && (s69_latest_block m <? s69_earliest_block m)
      then failure kInvalidBlockRange else success tt
  | Status68 _ => success tt
  end.

(** ** Schema variants of the receipt messages *)

Definition schema_has_field (schemas : list EthMessageSchema) (message_id : Z) (name : string) : bool :=
  existsb (fun schema =>
    (schema_message_id schema =? message_id) &&
    existsb (fun field => String.eqb (field_name field) name) (schema_fields schema)) schemas.

Definition decode_get_receipts_with (rlp_data : ByteView) (schemas : list EthMessageSchema) :
    outcome DecodingError GetReceiptsMessage :=
  if negb (schema_has_field schemas kGetReceiptsMessageId "first_block_receipt_index"%string)
  then decode_get_receipts rlp_data else
  run_decoder (ReadListHeaderBytes ;;
               id ← get_u64;
               get_u64 ;;
               hashes ← decode_hash_list;
               expect_finished kInputTooLong ;;
               mret (mkRequest (Some id) hashes)) rlp_data.

Definition decode_receipts_with (rlp_data : ByteView) (schemas : list EthMessageSchema) :
    outcome DecodingError ReceiptsMessage :=
  if negb (schema_has_field schemas kReceiptsMessageId "last_block_incomplete"%string)
  then decode_receipts rlp_data else
  run_decoder (ReadListHeaderBytes ;;
               id ← get_u64;
               get_bool ;;
               receipts ← decode_receipts_payload;
               expect_finished kInputTooLong ;;
               mret (mkRequest (Some id) receipts)) rlp_data.

(** ** Wire forms and well-formedness *)

Definition rlp_fork_id (f : ForkId) : list byte := rlp_list (rlp_string (fork_hash f) ++ rlp_uint (next_fork f)).

Definition rlp_status (msg : StatusMessage) : list byte :=
  match msg with
  | Status68 m =>
      rlp_list (rlp_uint (s68_protocol_version m) ++ rlp_uint (s68_network_id m) ++ rlp_uint (s68_td m) ++
        rlp_string (s68_blockhash m) ++ rlp_string (s68_genesis_hash m) ++ rlp_fork_id (s68_fork_id m))
  | Status69 m =>
      rlp_list (rlp_uint (s69_protocol_version m) ++ rlp_uint (s69_network_id m) ++
        rlp_string (s69_genesis_hash m) ++ rlp_fork_id (s69_fork_id m) ++ rlp_uint (s69_earliest_block m) ++
        rlp_uint (s69_latest_block m) ++ rlp_string (s69_latest_block_hash m))
  end.

Record wf_fork_id (f : ForkId) : Prop := {
  wf_fork_hash : Zlen (fork_hash f) = 4;
  wf_next_fork : in_width 64 (next_fork f)
}.

Record wf_status68 (m : StatusMessage68) : Prop := {
  wf_s68_network : in_width 64 (s68_network_id m);
  wf_s68_td : in_width 256 (s68_td m);
  wf_s68_blockhash : is_hash (s68_blockhash m);
  wf_s68_genesis : is_hash (s68_genesis_hash m);
  wf_s68_fork : wf_fork_id (s68_fork_id m);
  wf_s68_version : s68_protocol_version m = 66 \/ s68_protocol_version m = 67 \/ s68_protocol_version m = 68
}.

Record wf_status69 (m : StatusMessage69) : Prop := {
  wf_s69_network : in_width 64 (s69_network_id m);
  wf_s69_genesis : is_hash (s69_genesis_hash m);
  wf_s69_fork : wf_fork_id (s69_fork_id m);
  wf_s69_earliest : in_width 64 (s69_earliest_block m);
  wf_s69_latest : in_width 64 (s69_latest_block m);
  wf_s69_latest_hash : is_hash (s69_latest_block_hash m);
  wf_s69_version : s69_protocol_version m = 69
}.

(** The version of a message is one its layout is used for. *)
Definition wf_status (msg : StatusMessage) : Prop :=
  match msg with Status68 m => wf_status68 m | Status69 m => wf_status69 m end.

(** ** Encoding *)

Lemma emits_fork_id f : wf_fork_id f -> emits (put_fork_id f) (rlp_fork_id f).
Proof. intros []. unfold put_fork_id, rlp_fork_id. emit. Qed.

#[export] Hint Resolve emits_fork_id : enc.

Lemma encode_status_wire msg :
  wf_status msg -> fits (rlp_status msg) -> encode_status msg = success (rlp_status msg).
Proof.
  intros Hwf Hl. apply run_encoder_emits; [done|]. destruct msg as [m|m]; destruct Hwf; cbn [rlp_status].
  - assert (in_width 8 (s68_protocol_version m)) by (unfold in_width; lia). emit.
  - assert (in_width 8 (s69_protocol_version m)) by (unfold in_width; lia). emit.
Qed.

(** ** Decoding *)

Lemma consumes_fork_id f : wf_fork_id f -> consumes read_fork_id_field (rlp_fork_id f) f.
Proof.
  intros [] rest. destruct f as [h n]; simpl in *. unfold read_fork_id_field, rlp_fork_id. simpl.
  intros Hf. pose proof Hf as Hf'. unfold rlp_list in Hf'. rewrite <- app_assoc in Hf'.
  set (p := rlp_string h ++ rlp_uint n) in *.
  pose proof (eats_ReadListHeaderBytes p rest Hf') as Hh. rewrite app_assoc in Hh.
  rewrite (bind_success _ _ _ _ _ Hh), (bind_success _ _ _ _ _ (remaining_size_eq (p ++ rest))).
  assert (u64 (Zlen (p ++ rest) - Zlen p) = Zlen rest) as ->.
  { rewrite length_app, Nat2Z.inj_add. apply fits_app_r in Hf'. unfold fits in Hf'.
    rewrite length_app in Hf'.
    replace (Zlen p + Zlen rest - Zlen p) with (Zlen rest) by lia. apply u64_small. lia. }
  rewrite (proj2 (Z.ltb_ge _ _)) by (rewrite length_app; lia).
  apply fits_app_r in Hf'. revert Hf'. unfold p.
  change (eats (hash ← get_array 4; next ← get_u64; expect_remaining (Zlen rest) kInputTooLong ;;
    mret (mkForkId hash next)) (rlp_string h ++ rlp_uint n) (mkForkId h n) rest). eats_steps.
Qed.

#[export] Hint Resolve consumes_fork_id : eats.

(** The three forms a field of the standard schemas takes. *)
Lemma consumes_uint_field name ty size off out n :
  (ty = kUint64 \/ (ty = kUint8 /\ n < 256)) -> in_width 64 n ->
  consumes (read_schema_field (mkField name ty size (Some off)) off out) (rlp_uint n) (set_uint name n out).
Proof.
  intros Hty Hn rest. unfold read_schema_field. cbn [field_offset field_type field_name].
  rewrite Z.eqb_refl. cbn [negb]. destruct Hty as [-> | [-> Hlt]].
  - eats_steps. simpl. apply eats_ret.
  - eats_step. cbn [exceeds]. rewrite (proj2 (Z.ltb_ge _ _)) by lia. apply eats_ret.
Qed.

Lemma consumes_td_field name size off out n :
  in_width 256 n ->
  consumes (read_schema_field (mkField name kUint256 size (Some off)) off out) (rlp_uint n) (set_td name n out).
Proof.
  intros Hn rest. unfold read_schema_field. cbn [field_offset field_type field_name].
  rewrite Z.eqb_refl. cbn [negb]. eats_steps.
Qed.

Lemma consumes_hash_field name size off out h :
  is_hash h ->
  consumes (read_schema_field (mkField name kHash32 size (Some off)) off out) (rlp_string h) (set_hash name h out).
Proof.
  intros Hh rest. unfold read_schema_field. cbn [field_offset field_type field_name].
  rewrite Z.eqb_refl. cbn [negb]. eats_steps.
Qed.

Lemma consumes_fork_field name size off out f :
  wf_fork_id f ->
  consumes (read_schema_field (mkField name kForkId size (Some off)) off out) (rlp_fork_id f)
    (set_fork_id name f out).
Proof.
  intros Hf rest. unfold read_schema_field. cbn [field_offset field_type field_name].
  rewrite Z.eqb_refl. cbn [negb]. eats_steps.
Qed.

(** Computes the record after an assignment. *)
Ltac assigned :=
  cbv [set_uint set_td set_hash set_fork_id String.eqb Ascii.eqb Bool.eqb no_fields
    d_protocol_version d_network_id d_td d_block_hash d_genesis_hash d_fork_id d_earliest_block
    d_latest_block d_latest_block_hash].

(** Reads the next field with [lem]. *)
Ltac field lem := eapply eats_bind; [by apply lem|]; assigned.

Lemma consumes_version_field size off out n :
  66 <= n <= 69 ->
  consumes (read_schema_field (mkField "protocol_version" kUint8 size (Some off)) off out) (rlp_uint n)
    (mkDecoded (Some n) (d_network_id out) (d_td out) (d_block_hash out) (d_genesis_hash out)
      (d_fork_id out) (d_earliest_block out) (d_latest_block out) (d_latest_block_hash out)).
Proof.
  intros Hn. rewrite <- (Z.mod_small n 256) at 2 by lia.
  apply (consumes_uint_field "protocol_version"); [right; split; [done|lia]|unfold in_width; lia].
Qed.

Lemma consumes_u64_field name size off out n :
  in_width 64 n ->
  consumes (read_schema_field (mkField name kUint64 size (Some off)) off out) (rlp_uint n) (set_uint name n out).
Proof. apply consumes_uint_field. by left. Qed.

Lemma legacy_fields m v :
  wf_status68 m ->
  eats (read_schema_fields (schema_fields (legacy_schema v)) 0 no_fields)
    (rlp_uint (s68_protocol_version m) ++ rlp_uint (s68_network_id m) ++ rlp_uint (s68_td m) ++
      rlp_string (s68_blockhash m) ++ rlp_string (s68_genesis_hash m) ++ rlp_fork_id (s68_fork_id m))
    (mkDecoded (Some (s68_protocol_version m)) (Some (s68_network_id m)) (Some (s68_td m))
      (Some (s68_blockhash m)) (Some (s68_genesis_hash m)) (Some (s68_fork_id m)) None None None) [].
Proof.
  intros []. cbn [read_schema_fields schema_fields legacy_schema].
  eapply eats_bind; [apply consumes_version_field; lia|]. assigned.
  field consumes_u64_field. field consumes_td_field. field consumes_hash_field. field consumes_hash_field.
  eapply eats_bind_last; [by apply consumes_fork_field|]. apply eats_ret.
Qed.

Definition schema_69_fields : list EthMessageFieldSchema :=
  match default_status_schemas with s :: _ => schema_fields s | [] => [] end.

Lemma fields_69 m :
  wf_status69 m ->
  eats (read_schema_fields schema_69_fields 0 no_fields)
    (rlp_uint (s69_protocol_version m) ++ rlp_uint (s69_network_id m) ++
        rlp_string (s69_genesis_hash m) ++ rlp_fork_id (s69_fork_id m) ++ rlp_uint (s69_earliest_block m) ++
        rlp_uint (s69_latest_block m) ++ rlp_string (s69_latest_block_hash m))
    (mkDecoded (Some 69) (Some (s69_network_id m)) None None
      (Some (s69_genesis_hash m)) (Some (s69_fork_id m)) (Some (s69_earliest_block m))
      (Some (s69_latest_block m)) (Some (s69_latest_block_hash m))) [].
Proof.
  intros []. replace (Some 69) with (Some (s69_protocol_version m)) by (by rewrite wf_s69_version0).
  cbn [read_schema_fields schema_fields schema_69_fields default_status_schemas].
  eapply eats_bind; [apply consumes_version_field; lia|]. assigned.
  field consumes_u64_field. field consumes_hash_field. field consumes_fork_field.
  field consumes_u64_field. field consumes_u64_field.
  eapply eats_bind_last; [by apply consumes_hash_field|]. apply eats_ret.
Qed.

Definition is_status_schema (schema : EthMessageSchema) : Prop :=
  schema_name schema = "Status"%string /\ schema_message_id schema = kStatusMessageId.

Lemma schema_fields_read schema p out version :
  is_status_schema schema -> schema_protocol_version schema = Some version -> fits (rlp_list p) ->
  eats (read_schema_fields (schema_fields schema) 0 no_fields) p out [] ->
  decode_status_fields_with_schema (rlp_list p) schema =
    if has_value (d_protocol_version out) version then success out else failure kUnexpectedString.
Proof.
  intros [Hn Hi] Hv Hf He. unfold decode_status_fields_with_schema. rewrite Hn, Hi, String.eqb_refl, Z.eqb_refl. cbn [negb orb].
  unfold run_decoder. rewrite (bind_success _ _ _ _ _ (ReadListHeaderBytes_whole p Hf)).
  rewrite (bind_success _ _ _ _ _ (remaining_size_eq p)).
  rewrite Z.ltb_irrefl, Z.sub_diag. change (u64 0) with 0. cbn [negb Z.eqb].
  unfold eats in He. rewrite app_nil_r in He.
  assert (fits p) as Hp by (unfold fits in *; pose proof (rlp_list_length_ge p); lia).
  rewrite (bind_success _ _ _ _ _ (He Hp)).
  assert (expect_remaining 0 kInputTooLong [] = (success tt, [])) as Hend by done.
  rewrite (bind_success _ _ _ _ _ Hend), Hv. by destruct (has_value _ _).
Qed.

Lemma schema_fields_fail schema p :
  is_status_schema schema -> fits (rlp_list p) ->
  fails (read_schema_fields (schema_fields schema) 0 no_fields) p ->
  exists e, decode_status_fields_with_schema (rlp_list p) schema = failure e.
Proof.
  intros [Hn Hi] Hf Hb. unfold decode_status_fields_with_schema. rewrite Hn, Hi, String.eqb_refl, Z.eqb_refl. cbn [negb orb].
  apply run_decoder_fails. eapply fails_bind_r; [by apply ReadListHeaderBytes_whole|].
  eapply fails_bind_r; [done|]. rewrite Z.ltb_irrefl, Z.sub_diag. change (u64 0) with 0. cbn [negb Z.eqb].
  by apply fails_bind_l.
Qed.

(** A 256-bit integer of full width reads as a hash; any other does not. *)
Lemma hash_field_on_string name size off out p rest :
  fits (rlp_string p ++ rest) ->
  fails (read_schema_field (mkField name kHash32 size (Some off)) off out) (rlp_string p ++ rest) \/
  read_schema_field (mkField name kHash32 size (Some off)) off out (rlp_string p ++ rest) =
    (success (set_hash name p out), rest).
Proof.
  intros Hf. unfold read_schema_field. cbn [field_offset field_type field_name].
  rewrite Z.eqb_refl. cbn [negb]. destruct (decide (is_hash p)) as [Hp|Hp].
  - right. by rewrite (bind_success _ _ _ _ _ (consumes_get_hash _ Hp _ Hf)).
  - left. apply fails_bind_l, fails_or_fail. destruct (string_at_rlp_string p rest) as [pre Hs].
    { unfold fits in Hf. rewrite length_app in Hf. pose proof (rlp_string_length_ge p). lia. }
    eexists _, _. rewrite (reader_string _ _ (read_array_reader kHashSize) _ _ _ _ Hf Hs).
    unfold array_payload. by rewrite (proj2 (Z.eqb_neq _ _)) by done.
Qed.

Lemma fork_field_on_string name size off out p rest :
  fits (rlp_string p ++ rest) ->
  fails (read_schema_field (mkField name kForkId size (Some off)) off out) (rlp_string p ++ rest).
Proof.
  intros Hf. unfold read_schema_field. cbn [field_offset field_type]. rewrite Z.eqb_refl. cbn [negb].
  apply fails_bind_l, fails_bind_l. destruct (rlp_string_head p) as (b & r & E & Hb).
  { unfold fits in Hf. rewrite length_app in Hf. pose proof (rlp_string_length_ge p). lia. }
  rewrite E in *. by apply fails_ReadListHeaderBytes.
Qed.

(** The ETH/69 schema does not read a legacy Status: where it wants the fork id
    there is a block hash. *)
Lemma fields_69_on_legacy m rest :
  wf_status68 m ->
  let p := rlp_uint (s68_protocol_version m) ++ rlp_uint (s68_network_id m) ++ rlp_uint (s68_td m) ++
      rlp_string (s68_blockhash m) ++ rest in
  fits p -> fails (read_schema_fields schema_69_fields 0 no_fields) p.
Proof.
  intros [] p Hf. unfold p in *. cbn [read_schema_fields schema_fields schema_69_fields default_status_schemas].
  eapply fails_bind_r;
    [apply consumes_uint_field; [right; split; [done|lia]|unfold in_width; lia|done]|].
  apply fits_app_r in Hf. eapply fails_bind_r; [apply consumes_uint_field; [by left|done|done]|].
  apply fits_app_r in Hf. change (0 + 1 + 1) with 2.
  destruct (hash_field_on_string "genesis_hash"%string (Some 32) 2
    (set_uint "network_id"%string (s68_network_id m)
      (set_uint "protocol_version"%string (s68_protocol_version m) no_fields))
    (be_min (s68_td m)) (rlp_string (s68_blockhash m) ++ rest) Hf) as [Hfail|Hok].
  - by apply fails_bind_l.
  - eapply fails_bind_r; [apply Hok|]. apply fails_bind_l. apply fork_field_on_string. by eapply fits_app_r.
Qed.

Lemma decode_status_wire msg : wf_status msg -> fits (rlp_status msg) -> decode_status (rlp_status msg) = success msg.
Proof.
  intros Hwf Hf. unfold decode_status, decode_status_with, default_status_schemas. cbn [try_schemas].
  destruct msg as [m|m]; cbn [rlp_status wf_status] in *.
  - match goal with |- context [decode_status_fields_with_schema (rlp_list ?q) ?s] =>
      destruct (schema_fields_fail s q) as [e69 ->]; [done|done| |] end.
    { apply (fields_69_on_legacy m (rlp_string (s68_genesis_hash m) ++ rlp_fork_id (s68_fork_id m)) Hwf).
      unfold fits in *. match type of Hf with Zlen (rlp_list ?q) < _ => pose proof (rlp_list_length_ge q) end. lia. }
    repeat (erewrite (schema_fields_read (legacy_schema _)); [|done|done|done|by apply legacy_fields]).
    destruct Hwf as [? ? ? ? ? Hv]. cbn [d_protocol_version has_value].
    destruct m as [v net td bh g fk]; simpl in *. by destruct Hv as [-> | [-> | ->]].
  - match goal with |- context [decode_status_fields_with_schema (rlp_list ?q) ?s] =>
      rewrite (schema_fields_read s q _ 69 ltac:(done) eq_refl Hf (fields_69 m Hwf)) end.
    destruct Hwf. destruct m; simpl in *. by subst.
Qed.

(** ** Safety, for any schemas *)

Record wf_decoded (d : DecodedStatusFields) : Prop := {
  wf_d_network : on_option (in_width 64) (d_network_id d);
  wf_d_td : on_option (in_width 256) (d_td d);
  wf_d_block_hash : on_option is_hash (d_block_hash d);
  wf_d_genesis : on_option is_hash (d_genesis_hash d);
  wf_d_fork : on_option wf_fork_id (d_fork_id d);
  wf_d_earliest : on_option (in_width 64) (d_earliest_block d);
  wf_d_latest : on_option (in_width 64) (d_latest_block d);
  wf_d_latest_hash : on_option is_hash (d_latest_block_hash d)
}.

Lemma wf_set_uint name n d : in_width 64 n -> wf_decoded d -> wf_decoded (set_uint name n d).
Proof. intros Hn []. unfold set_uint. repeat case_match; by constructor. Qed.

Lemma wf_set_td name n d : in_width 256 n -> wf_decoded d -> wf_decoded (set_td name n d).
Proof. intros Hn []. unfold set_td. case_match; by constructor. Qed.

Lemma wf_set_hash name h d : is_hash h -> wf_decoded d -> wf_decoded (set_hash name h d).
Proof. intros Hn []. unfold set_hash. repeat case_match; by constructor. Qed.

Lemma wf_set_fork_id name f d : wf_fork_id f -> wf_decoded d -> wf_decoded (set_fork_id name f d).
Proof. intros Hn []. unfold set_fork_id. case_match; by constructor. Qed.

Lemma safe_fork_id : safe 1 read_fork_id_field wf_fork_id.
Proof. unfold read_fork_id_field. safe_steps. by constructor. Qed.

#[export] Hint Resolve safe_fork_id : safe.

Lemma safe_read_schema_field field index d :
  wf_decoded d -> safe 0 (read_schema_field field index d) wf_decoded.
Proof.
  intros Hd. unfold read_schema_field. case_match; [apply safe_fail|].
  destruct (field_type field); try (destruct (field_size field)); safe_steps; try done;
    eauto using wf_set_uint, wf_set_td, wf_set_hash, wf_set_fork_id.
Qed.

Lemma safe_read_schema_fields fields index d :
  wf_decoded d -> safe 0 (read_schema_fields fields index d) wf_decoded.
Proof.
  revert index d. induction fields as [|f fields IH]; intros index d Hd; cbn [read_schema_fields].
  - by apply safe_ret.
  - eapply safe_bind_0; [by apply safe_read_schema_field|]. intros d' Hd'. by apply IH.
Qed.

Lemma decode_fields_ok data schema :
  fits data -> result_ok wf_decoded (decode_status_fields_with_schema data schema).
Proof.
  intros Hf. unfold decode_status_fields_with_schema. case_match; [done|].
  eapply (run_decoder_ok 1); [|done|done]. safe_steps.
  eapply safe_bind_0; [apply safe_read_schema_fields; by constructor|]. intros d Hd. safe_steps.
  destruct (schema_protocol_version schema); [|by apply safe_ret]. case_match; [by apply safe_ret|apply safe_fail].
Qed.

Lemma make_status_ok d : wf_decoded d -> result_ok wf_status (make_status_message_from_fields d).
Proof.
  intros []. unfold make_status_message_from_fields.
  destruct (d_protocol_version d) as [v|], (d_network_id d) as [net|], (d_genesis_hash d) as [g|],
    (d_fork_id d) as [fk|]; try done.
  unfold kEthProtocolVersion69, kEthProtocolVersion68, kEthProtocolVersion67, kEthProtocolVersion66.
  destruct (Z.eqb_spec v 69) as [->|].
  - destruct (d_earliest_block d), (d_latest_block d), (d_latest_block_hash d), (d_block_hash d);
      try done; by constructor.
  - destruct (Z.eqb_spec v 68), (Z.eqb_spec v 67), (Z.eqb_spec v 66); simpl; try done;
      destruct (d_td d), (d_block_hash d); try done; constructor; simpl in *; try done; lia.
Qed.

Lemma try_schemas_ok data e schemas : fits data -> result_ok wf_status (try_schemas data e schemas).
Proof.
  intros Hf. revert e. induction schemas as [|s schemas IH]; intros e; cbn [try_schemas]; [done|].
  pose proof (decode_fields_ok data s Hf) as Hd.
  destruct (decode_status_fields_with_schema data s) as [d|e'|]; [|apply IH|done].
  pose proof (make_status_ok d Hd) as Hm. destruct (make_status_message_from_fields d); [done|apply IH|done].
Qed.

(** ** Validation *)

(** An ETH/69 block range that ends before it starts. *)
Definition inverted_range (msg : StatusMessage) : Prop :=
  match msg with
  | Status69 m => s69_latest_block m <> 0 /\ s69_latest_block m < s69_earliest_block m
  | Status68 _ => False
  end.

Lemma validate_status_cases msg net genesis :
  let same_net := common_network_id (get_common_fields msg) = net in
  let same_genesis := common_genesis_hash (get_common_fields msg) = genesis in
  (~ same_net /\ validate_status msg net genesis = failure kNetworkIDMismatch) \/
  (same_net /\ ~ same_genesis /\ validate_status msg net genesis = failure kGenesisMismatch) \/
  (same_net /\ same_genesis /\ inverted_range msg /\ validate_status msg net genesis = failure kInvalidBlockRange) \/
  (same_net /\ same_genesis /\ ~ inverted_range msg /\ validate_status msg net genesis = success tt).
Proof.
  unfold validate_status. cbv zeta.
  destruct (Z.eqb_spec (common_network_id (get_common_fields msg)) net); simpl; [|by left].
  destruct (decide (common_genesis_hash (get_common_fields msg) = genesis)).
  2: { rewrite bool_decide_true by done. right. by left. }
  rewrite bool_decide_false by tauto. do 2 right. destruct msg as [m|m]; simpl; [by right; tauto|].
  destruct (Z.eqb_spec (s69_latest_block m) 0); simpl; [right; naive_solver|].
  destruct (Z.ltb_spec (s69_latest_block m) (s69_earliest_block m)); [by left|right; naive_solver lia].
Qed.

Lemma decode_get_receipts_with_ok data schemas :
  fits data -> result_ok (wf_request (Forall is_hash)) (decode_get_receipts_with data schemas).
Proof.
  intros Hf. unfold decode_get_receipts_with. case_match; [apply request_ok; [apply safe_hash_list|done]|].
  eapply (run_decoder_ok 1); [|done|done]. safe_steps. by split.
Qed.

Lemma decode_receipts_with_ok data schemas :
  fits data -> result_ok (wf_request (Forall (Forall wf_rc))) (decode_receipts_with data schemas).
Proof.
  intros Hf. unfold decode_receipts_with. case_match; [apply request_ok; [apply safe_receipts_payload|done]|].
  eapply (run_decoder_ok 1); [|done|done]. safe_steps. by split.
Qed.

(** ** Theorems *)

(** Every Status message whose version matches its layout (69, or 66 to 68) is
    encoded, and the schema-driven decoder gives it back: the schemas that come
    first in the list never misread it. *)
Theorem status_roundtrip (msg : StatusMessage) :
  wf_status msg -> Zlen (rlp_status msg) < 2 ^ 64 -> roundtrips encode_status decode_status rlp_status msg.
Proof.
  intros Hwf Hl. split; [by apply encode_status_wire|by apply decode_status_wire].
Qed.

Definition sample_status : StatusMessage :=
  Status68 (mkStatus68 67 1 (2 ^ 255) sample_hash sample_hash (mkForkId [x9f; x3d; x22; x54] 0)).

Lemma status_roundtrip_witness : roundtrips encode_status decode_status rlp_status sample_status.
Proof.
  apply (status_roundtrip sample_status); [|by vm_compute].
  constructor; simpl; [wf_closed..|by right; left].
Defined.

(** With any list of schemas, and on any input, decoding a Status terminates
    without undefined behaviour; a message it returns has a supported version
    and in-range fields. *)
Theorem status_decode_safe (data : ByteView) (schemas : list EthMessageSchema) :
  fits data ->
  result_ok wf_status (decode_status_with data schemas) /\
  result_ok (wf_request (Forall is_hash)) (decode_get_receipts_with data schemas) /\
  result_ok (wf_request (Forall (Forall wf_rc))) (decode_receipts_with data schemas).
Proof.
  intros Hf. split; [by apply try_schemas_ok|].
  split; [by apply decode_get_receipts_with_ok|by apply decode_receipts_with_ok].
Qed.

Lemma status_decode_safe_witness : result_ok wf_status (decode_status_with [xc1; x45] default_status_schemas).
Proof. by apply (status_decode_safe [xc1; x45] default_status_schemas). Defined.

(** A peer's Status is refused for a foreign network id first, then for a
    foreign genesis hash, then for an inverted ETH/69 block range, and accepted
    exactly when there is none of these; its protocol version plays no role. *)
Theorem validate_status_exact (msg : StatusMessage) (net : Z) (genesis : list byte) :
  let same_net := common_network_id (get_common_fields msg) = net in
  let same_genesis := common_genesis_hash (get_common_fields msg) = genesis in
  (validate_status msg net genesis = failure kNetworkIDMismatch <-> ~ same_net) /\
  (validate_status msg net genesis = failure kGenesisMismatch <-> same_net /\ ~ same_genesis) /\
  (validate_status msg net genesis = failure kInvalidBlockRange <-> same_net /\ same_genesis /\ inverted_range msg) /\
  (validate_status msg net genesis = success tt <-> same_net /\ same_genesis /\ ~ inverted_range msg).
Proof.
  pose proof (validate_status_cases msg net genesis) as H. cbv zeta in *.
  destruct H as [[? ->]|[(? & ? & ->)|[(? & ? & ? & ->)|(? & ? & ? & ->)]]]; naive_solver.
Qed.
