(* ===== verification/ChainTracker.v ===== *)
(** * Chain tracker

    [include/eth/chain_tracker.hpp] and [src/eth/chain_tracker.cpp]: the tip and the
    deduplication window of the watched chain.  The window is a set for lookup and
    a ring buffer of the same hashes in insertion order.

    The abstract tracker is the list of accepted blocks, newest first, since the
    last reset; a block is seen when it is among the newest [window_size_] of them.
    The theorem is a refinement: set, ring buffer and head index implement it. *)

From S2P Require Import Prelude EthObjects.

Notation hash := (list byte).

(** ** chain_tracker.hpp *)

Record ChainTracker := mkTracker {
  window_size_ : nat;
  tip_number_ : Z;
  tip_hash_ : option hash;
  seen_set_ : gset hash;
  eviction_queue_ : list hash;
  eviction_head_ : nat
}.

Definition kDefaultWindowSize : nat := 1024.

(** [codec::Hash256{}]. *)
Definition zero_hash : hash := replicate 32 x00.

(** ** chain_tracker.cpp *)

(** The constructor. *)
Definition ChainTracker_new (window_size : nat) : ChainTracker :=
  let w := if decide (window_size = 0%nat) then kDefaultWindowSize else window_size in
  mkTracker w 0 None ∅ (replicate w zero_hash) 0.

(** The new set, queue and head once [block_hash] has its place; [None] is an
    access outside the queue. *)
Definition place (block_hash : hash) (t : ChainTracker) : option (gset hash * list hash * nat) :=
  if decide (window_size_ t <= size (seen_set_ t))%nat then
    oldest ← eviction_queue_ t !! eviction_head_ t;
    Some (seen_set_ t ∖ {[oldest]}, <[eviction_head_ t := block_hash]> (eviction_queue_ t),
          ((eviction_head_ t + 1) mod window_size_ t)%nat)
  else
    let insert_pos := size (seen_set_ t) in
    _ ← eviction_queue_ t !! insert_pos;
    Some (seen_set_ t, <[insert_pos := block_hash]> (eviction_queue_ t), eviction_head_ t).

Definition mark_seen (block_hash : hash) (block_number : Z) : M ChainTracker Empty_set bool := fun t =>
  if decide (block_hash ∈ seen_set_ t) then (success false, t) else
  match place block_hash t with
  | None => (crash OutOfBounds, t)
  | Some (seen, queue, head) =>
      let higher := tip_number_ t <? block_number in
      (success true,
       mkTracker (window_size_ t) (if higher then block_number else tip_number_ t)
         (if higher then Some block_hash else tip_hash_ t) ({[block_hash]} ∪ seen) queue head)
  end.

Definition is_seen (block_hash : hash) (t : ChainTracker) : bool := bool_decide (block_hash ∈ seen_set_ t).
Definition tip (t : ChainTracker) : Z := tip_number_ t.
Definition tip_hash (t : ChainTracker) : option hash := tip_hash_ t.
Definition seen_count (t : ChainTracker) : nat := size (seen_set_ t).

Definition reset (t : ChainTracker) : ChainTracker :=
  mkTracker (window_size_ t) 0 None ∅ (replicate (length (eviction_queue_ t)) zero_hash) 0.

(** ** Sequences of calls *)

Inductive tracker_op := MarkSeen (block_hash : hash) (block_number : Z) | Reset.

(** The results of the [mark_seen] calls, and the final tracker. *)
Fixpoint run_tracker (ops : list tracker_op) : M ChainTracker Empty_set (list bool) :=
  match ops with
  | [] => mret []
  | MarkSeen h n :: ops' => b ← mark_seen h n; bs ← run_tracker ops'; mret (b :: bs)
  | Reset :: ops' => fun t => run_tracker ops' (reset t)
  end.

(** ** The abstract tracker *)

Notation history := (list (hash * Z)).

(** The newest [w] accepted hashes, newest first. *)
Definition recent (w : nat) (hist : history) : list hash := take w hist.*1.

Fixpoint run_history (w : nat) (ops : list tracker_op) (hist : history) : list bool * history :=
  match ops with
  | [] => ([], hist)
  | MarkSeen h n :: ops' =>
      let fresh := bool_decide (h ∉ recent w hist) in
      let r := run_history w ops' (if fresh then (h, n) :: hist else hist) in
      (fresh :: r.1, r.2)
  | Reset :: ops' => run_history w ops' []
  end.

(** The tip of a history: the highest number, zero included, and a block that has
    it. *)
Record is_tip (hist : history) (number : Z) (h : option hash) : Prop := {
  tip_highest b n : (b, n) ∈ hist -> n <= number;
  tip_block : match h with Some b => (b, number) ∈ hist | None => number = 0 end
}.

(** The concrete tracker [t] represents [hist]: read from the head on, the ring
    buffer holds the recent hashes, oldest first. *)
Record tracks (w : nat) (hist : history) (t : ChainTracker) : Prop := {
  tr_window : window_size_ t = w;
  tr_pos : (0 < w)%nat;
  tr_queue : length (eviction_queue_ t) = w;
  tr_head : (eviction_head_ t < w)%nat;
  tr_filling : (length hist < w)%nat -> eviction_head_ t = 0%nat;
  tr_set : seen_set_ t = list_to_set (recent w hist);
  tr_nodup : NoDup (recent w hist);
  tr_ring : take (length (recent w hist))
      (drop (eviction_head_ t) (eviction_queue_ t) ++ take (eviction_head_ t) (eviction_queue_ t)) =
    reverse (recent w hist);
  tr_tip : is_tip hist (tip_number_ t) (tip_hash_ t)
}.

Lemma length_recent w hist : length (recent w hist) = Nat.min w (length hist).
Proof. unfold recent. by rewrite length_take, length_fmap. Qed.

Lemma size_seen w hist t : tracks w hist t -> size (seen_set_ t) = length (recent w hist).
Proof. intros []. rewrite tr_set0. by apply size_list_to_set. Qed.

Lemma tracks_initial w : (0 < w)%nat -> tracks w [] (mkTracker w 0 None ∅ (replicate w zero_hash) 0).
Proof.
  assert (recent w [] = []) as Hr by (unfold recent; by rewrite fmap_nil, take_nil).
  intros Hw. split; rewrite ?Hr; try done.
  - apply length_replicate.
  - constructor.
  - split; [by intros ? ? ?%elem_of_nil|done].
Qed.

Lemma is_tip_accept hist number h b n :
  is_tip hist number h ->
  is_tip ((b, n) :: hist) (if number <? n then n else number) (if number <? n then Some b else h).
Proof.
  intros [Hmax Hb]. destruct (Z.ltb_spec number n); split.
  - intros b' n' [[= -> ->]|Hin]%elem_of_cons; [lia|]. specialize (Hmax _ _ Hin). lia.
  - by left.
  - intros b' n' [[= -> ->]|Hin]%elem_of_cons; [lia|]. by apply (Hmax b').
  - destruct h; [by right|done].
Qed.

(** The window is full: the oldest hash at the head gives way. *)
Lemma place_full w hist t h :
  tracks w hist t -> (w <= length hist)%nat ->
  exists seen queue head, place h t = Some (seen, queue, head) /\
    seen = list_to_set (take (w - 1) hist.*1) /\ length queue = w /\ (head < w)%nat /\
    drop head queue ++ take head queue = reverse (h :: take (w - 1) hist.*1).
Proof.
  intros Ht Hfull. pose proof (size_seen _ _ _ Ht) as Hsz. destruct Ht as [Hw Hpos Hq Hhd _ Hset Hnd Hring _].
  pose proof (length_recent w hist) as Hlr. rewrite Nat.min_l in Hlr by done.
  destruct (lookup_lt_is_Some_2 (eviction_queue_ t) (eviction_head_ t) ltac:(lia)) as [o Ho].
  assert (exists A B, eviction_queue_ t = A ++ o :: B /\ length A = eviction_head_ t) as (A & B & Eq & EA).
  { exists (take (eviction_head_ t) (eviction_queue_ t)), (drop (S (eviction_head_ t)) (eviction_queue_ t)).
    split; [by rewrite take_drop_middle|]. rewrite length_take. lia. }
  assert (recent w hist = take (w - 1) hist.*1 ++ [o] /\ B ++ A = reverse (take (w - 1) hist.*1)) as [Er EBA].
  { rewrite Hlr, Eq, <- EA, drop_app_length, take_app_length in Hring.
    rewrite take_ge in Hring by (rewrite Eq in Hq; rewrite !length_app in *; simpl in *; lia).
    apply (f_equal reverse) in Hring as Hr. rewrite reverse_involutive in Hr. simpl in Hr. rewrite reverse_cons in Hr.
    assert (take (w - 1) (recent w hist) = take (w - 1) hist.*1) as Ht.
    { unfold recent. rewrite take_take. f_equal. lia. }
    rewrite <- Ht, <- Hr. rewrite take_app_le by (rewrite length_reverse, length_app, Eq in *; rewrite length_app in Hq; simpl in Hq; lia).
    rewrite take_ge by (rewrite length_reverse, length_app, Eq in *; rewrite length_app in Hq; simpl in Hq; lia).
    by rewrite reverse_involutive. }
  unfold place. rewrite decide_True by lia. rewrite Ho. cbn [mbind option_bind].
  eexists _, _, _. split; [done|]. rewrite Hset, Er, Hw, Eq, <- EA.
  rewrite insert_app_r_alt, Nat.sub_diag by lia. cbn [insert list_insert].
  split_and!.
  - rewrite list_to_set_app_L. simpl. rewrite Er in Hnd. apply NoDup_app in Hnd as (_ & Hdis & _). set_solver.
  - rewrite Eq in Hq. rewrite !length_app in *. done.
  - apply Nat.mod_upper_bound. lia.
  - rewrite reverse_cons, <- EBA. destruct B as [|b B].
    + replace (length A + 1)%nat with w by (rewrite Eq, length_app in Hq; simpl in Hq; lia).
      rewrite Nat.Div0.mod_same. simpl. by rewrite app_nil_r.
    + rewrite Nat.mod_small by (rewrite Eq, length_app in Hq; simpl in Hq; lia).
      replace (A ++ h :: b :: B) with ((A ++ [h]) ++ b :: B) by (by rewrite <- app_assoc).
      replace (length A + 1)%nat with (length (A ++ [h])) by (rewrite length_app; done).
      by rewrite drop_app_length, take_app_length, app_assoc.
Qed.

(** The window is filling: the hash goes behind the ones it holds. *)
Lemma place_filling w hist t h :
  tracks w hist t -> (length hist < w)%nat ->
  exists queue, place h t = Some (seen_set_ t, queue, 0%nat) /\ length queue = w /\
    take (S (length hist)) queue = reverse (h :: hist.*1).
Proof.
  intros Ht Hfill. pose proof (size_seen _ _ _ Ht) as Hsz. destruct Ht as [Hw Hpos Hq Hhd Hhd0 _ _ Hring _].
  specialize (Hhd0 Hfill). rewrite length_recent, Nat.min_r in Hsz, Hring by lia.
  unfold recent in Hring. rewrite (take_ge hist.*1 w) in Hring by (rewrite length_fmap; lia).
  rewrite Hhd0, drop_0, take_0, app_nil_r in Hring.
  unfold place. rewrite decide_False by lia. rewrite Hsz, Hhd0.
  destruct (lookup_lt_is_Some_2 (eviction_queue_ t) (length hist) ltac:(lia)) as [o Ho].
  rewrite Ho. cbn [mbind option_bind]. eexists. split; [done|]. split; [by rewrite length_insert|].
  rewrite reverse_cons, <- Hring.
  erewrite take_S_r by (apply list_lookup_insert_eq; lia). by rewrite take_insert_ge by lia.
Qed.

Lemma mark_seen_tracks w hist t h n :
  tracks w hist t ->
  let fresh := bool_decide (h ∉ recent w hist) in
  exists t', mark_seen h n t = (success fresh, t') /\
    tracks w (if fresh then (h, n) :: hist else hist) t'.
Proof.
  intros Ht fresh. unfold mark_seen. pose proof Ht as [Hw Hpos Hq Hhd Hhd0 Hset Hnd Hring Htip].
  destruct (decide (h ∈ seen_set_ t)) as [Hin|Hout]; rewrite Hset, elem_of_list_to_set in Hin || rewrite Hset, elem_of_list_to_set in Hout.
  { unfold fresh. rewrite bool_decide_false by tauto. eauto. }
  unfold fresh. rewrite bool_decide_true by done. pose proof (is_tip_accept _ _ _ h n Htip) as Htip'.
  destruct (decide (w <= length hist)%nat) as [Hfull|Hfill].
  - assert (recent w ((h, n) :: hist) = h :: take (w - 1) hist.*1) as Er.
    { unfold recent. destruct w; [lia|]. simpl. by rewrite Nat.sub_0_r. }
    destruct (place_full _ _ _ h Ht Hfull) as (seen & queue & head & -> & -> & Hlq & Hlh & Hrot).
    eexists. split; [done|]. split; cbn [window_size_ eviction_queue_ eviction_head_ seen_set_ tip_number_ tip_hash_]; try done.
    + simpl. lia.
    + by rewrite Er.
    + assert (take (w - 1) hist.*1 `sublist_of` recent w hist) as Hsub.
      { unfold recent. replace (w - 1)%nat with (Nat.min (w - 1) w) by lia. rewrite <- take_take. apply sublist_take. }
      rewrite Er. constructor; [|by eapply sublist_NoDup].
      intros Hin. apply Hout. eapply elem_of_submseteq; [done|]. by apply sublist_submseteq.
    + rewrite Hrot, Er. apply take_ge. by rewrite length_reverse.
  - apply Nat.nle_gt in Hfill. destruct (place_filling _ _ _ h Ht Hfill) as (queue & -> & Hlq & Htake).
    assert (recent w ((h, n) :: hist) = h :: hist.*1) as Er.
    { unfold recent. rewrite take_ge; [done|]. rewrite length_fmap. simpl. lia. }
    assert (recent w hist = hist.*1) as Er0 by (unfold recent; rewrite take_ge; [done|rewrite length_fmap; lia]).
    eexists. split; [done|]. split; cbn [window_size_ eviction_queue_ eviction_head_ seen_set_ tip_number_ tip_hash_]; try done.
    + by rewrite Er, Hset, Er0.
    + rewrite Er. rewrite Er0 in *. by constructor.
    + rewrite drop_0, take_0, app_nil_r, Er. simpl. by rewrite length_fmap.
Qed.

Lemma reset_tracks w hist t : tracks w hist t -> tracks w [] (reset t).
Proof. intros []. unfold reset. rewrite tr_window0, tr_queue0. by apply tracks_initial. Qed.

Lemma run_tracker_tracks w ops hist t :
  tracks w hist t ->
  exists t', run_tracker ops t = (success (run_history w ops hist).1, t') /\ tracks w (run_history w ops hist).2 t'.
Proof.
  revert hist t. induction ops as [|[h n|] ops IH]; intros hist t Ht; cbn [run_tracker run_history].
  - by exists t.
  - destruct (mark_seen_tracks w hist t h n Ht) as (t1 & E1 & Ht1).
    destruct (IH _ _ Ht1) as (t2 & E2 & Ht2). exists t2. split; [|done].
    rewrite (bind_success _ _ _ _ _ E1). by rewrite (bind_success _ _ _ _ _ E2).
  - destruct (IH _ _ (reset_tracks _ _ _ Ht)) as (t' & E & Ht'). eauto.
Qed.

(** ** Theorem *)

(** C18: Whatever the sequence of [mark_seen] and [reset] calls, the tracker never
    leaves its ring buffer and behaves as the history of accepted blocks: a block
    is accepted exactly when its hash is not among the last [window_size] accepted
    ones, [is_seen] and [seen_count] describe just these, and the tip is the
    highest number accepted since the reset with the hash of a block that has it. *)
Theorem tracker_refines_history (window_size : nat) (ops : list tracker_op) (h : hash) :
  let w := window_size_ (ChainTracker_new window_size) in
  let results := (run_history w ops []).1 in
  let hist := (run_history w ops []).2 in
  exists t, run_tracker ops (ChainTracker_new window_size) = (success results, t) /\
    is_seen h t = bool_decide (h ∈ recent w hist) /\
    seen_count t = Nat.min w (length hist) /\
    is_tip hist (tip t) (tip_hash t).
Proof.
  intros w results hist.
  assert (tracks w [] (ChainTracker_new window_size)) as H0.
  { apply tracks_initial. unfold w, ChainTracker_new, kDefaultWindowSize. cbn [window_size_].
    destruct (decide (window_size = 0%nat)); lia. }
  destruct (run_tracker_tracks w ops [] _ H0) as (t & E & Ht). exists t. split; [done|].
  pose proof (size_seen _ _ _ Ht) as Hsz. rewrite length_recent in Hsz. destruct Ht.
  split; [|split; [done|done]]. unfold is_seen. apply bool_decide_ext. by rewrite tr_set0, elem_of_list_to_set.
Qed.
