(* ===== verification/EventFilter.v ===== *)
(** * Event filters and the event watcher

    [include/eth/event_filter.hpp] and [src/eth/event_filter.cpp]: which logs a
    filter accepts, the registered subscriptions, and the dispatch of the logs of a
    block or a receipt to the callbacks of the subscriptions they match.

    Callbacks are values of a type [CB]; a call is recorded in the trace the
    dispatch returns, in the order of the calls. *)

From S2P Require Import Prelude EthObjects.

(** ** event_filter.hpp *)

Record EventFilter := mkFilter {
  filter_addresses : list (list byte);
  filter_topics : list (option (list byte));
  from_block : option Z;
  to_block : option Z
}.

Record MatchedEvent := mkEvent {
  ev_log : LogEntry;
  ev_block_number : Z;
  ev_block_hash : list byte;
  ev_tx_hash : list byte;
  ev_log_index : Z
}.

(** ** EventFilter::matches *)

(** The loop over the topic constraints, from position [i] on. *)
Fixpoint topics_match (i : nat) (topics : list (option (list byte))) (log_topics : list (list byte)) : bool :=
  match topics with
  | [] => true
  | None :: topics' => topics_match (S i) topics' log_topics
  | Some topic :: topics' =>
      match log_topics !! i with
      | None => false
      | Some t => if decide (t = topic) then topics_match (S i) topics' log_topics else false
      end
  end.

Definition matches (f : EventFilter) (log : LogEntry) (block : Z) : bool :=
  if match from_block f with Some from => block <? from | None => false end then false else
  if match to_block f with Some to => to <? block | None => false end then false else
  if negb (bool_decide (filter_addresses f = [])) && bool_decide (le_address log ∉ filter_addresses f) then false else
  topics_match 0 (filter_topics f) (le_topics log).

(** What the filter means. *)
Record accepts (f : EventFilter) (log : LogEntry) (block : Z) : Prop := {
  acc_from : on_option (fun from => from <= block) (from_block f);
  acc_to : on_option (fun to => block <= to) (to_block f);
  acc_address : filter_addresses f = [] \/ le_address log ∈ filter_addresses f;
  acc_topics i topic : filter_topics f !! i = Some (Some topic) -> le_topics log !! i = Some topic
}.

Lemma topics_match_iff i topics log_topics :
  topics_match i topics log_topics = true <->
  forall j topic, topics !! j = Some (Some topic) -> log_topics !! (i + j)%nat = Some topic.
Proof.
  revert i. induction topics as [|[topic|] topics IH]; intros i; cbn [topics_match].
  - split; [by intros _ j ? ?%list_elem_of_lookup_2%elem_of_nil|done].
  - split.
    + destruct (log_topics !! i) as [t|] eqn:Et; [|done]. case_decide as Ht; [|done]. subst t.
      rewrite IH. intros H [|j] topic' Hj; simpl in Hj; simplify_eq; [by rewrite Nat.add_0_r|].
      rewrite <- Nat.add_succ_comm. by apply H.
    + intros H. pose proof (H 0%nat topic eq_refl) as H0. rewrite Nat.add_0_r in H0. rewrite H0.
      rewrite decide_True by done. apply IH. intros j topic' Hj. rewrite Nat.add_succ_comm. by apply H.
  - rewrite IH. split.
    + intros H [|j] topic Hj; simpl in Hj; simplify_eq. rewrite <- Nat.add_succ_comm. by apply H.
    + intros H j topic Hj. rewrite Nat.add_succ_comm. by apply H.
Qed.

Lemma matches_iff f log block : matches f log block = true <-> accepts f log block.
Proof.
  unfold matches. destruct f as [addresses topics from to]. cbn [from_block to_block filter_addresses filter_topics].
  assert ((match from with Some x => block <? x | None => false end) = false <-> on_option (fun x => x <= block) from) as Hfrom
    by (destruct from; simpl; [apply Z.ltb_ge|done]).
  assert ((match to with Some x => x <? block | None => false end) = false <-> on_option (fun x => block <= x) to) as Hto
    by (destruct to; simpl; [apply Z.ltb_ge|done]).
  assert (negb (bool_decide (addresses = [])) && bool_decide (le_address log ∉ addresses) = false <->
          addresses = [] \/ le_address log ∈ addresses) as Haddr.
  { rewrite andb_false_iff, negb_false_iff, bool_decide_eq_true, bool_decide_eq_false.
    split; (intros [?|?]; [by left|right]); [by apply dec_stable|tauto]. }
  destruct (match from with Some x => block <? x | None => false end).
  { split; [done|]. intros [H _ _ _]. by apply Hfrom in H. }
  destruct (match to with Some x => x <? block | None => false end).
  { split; [done|]. intros [_ H _ _]. by apply Hto in H. }
  destruct (negb _ && _).
  { split; [done|]. intros [_ _ H _]. by apply Haddr in H. }
  rewrite topics_match_iff. split; [|by intros []].
  intros H. split; [by apply Hfrom|by apply Hto|by apply Haddr|done].
Qed.

#[global] Instance accepts_dec f log block : Decision (accepts f log block).
Proof.
  destruct (matches f log block) eqn:E; [left|right].
  - by apply matches_iff.
  - intros H%matches_iff. congruence.
Defined.

Section watcher.
Context {CB : Type}.

Record Subscription := mkSub { sub_id : Z; sub_filter : EventFilter; sub_callback : CB }.

Record EventWatcher := mkWatcher { subscriptions_ : list Subscription; next_id_ : Z }.

Definition EventWatcher_new : EventWatcher := mkWatcher [] 1.

(** ** EventWatcher *)

Definition watch (f : EventFilter) (callback : CB) (w : EventWatcher) : Z * EventWatcher :=
  let id := next_id_ w in
  (id, mkWatcher (subscriptions_ w ++ [mkSub id f callback]) (u32 (next_id_ w + 1))).

Definition unwatch (id : Z) (w : EventWatcher) : EventWatcher :=
  mkWatcher (filter (fun s => sub_id s <> id) (subscriptions_ w)) (next_id_ w).

Notation trace := (list (CB * MatchedEvent)).

(** The loop over the subscriptions for one log: the calls it makes. *)
Fixpoint notify (subs : list Subscription) (event : MatchedEvent) : trace :=
  match subs with
  | [] => []
  | sub :: subs' =>
      if matches (sub_filter sub) (ev_log event) (ev_block_number event)
      then (sub_callback sub, event) :: notify subs' event
      else notify subs' event
  end.

(** The loop over the logs, which both entry points share: the number of logs that
    matched, and the calls. *)
Fixpoint process_logs (subs : list Subscription) (block_number : Z) (block_hash tx_hash : list byte)
    (log_index : Z) (logs : list LogEntry) : nat * trace :=
  match logs with
  | [] => (0%nat, [])
  | log :: logs' =>
      let calls := notify subs (mkEvent log block_number block_hash tx_hash log_index) in
      let rest := process_logs subs block_number block_hash tx_hash (u32 (log_index + 1)) logs' in
      (((if calls is [] then 0 else 1) + rest.1)%nat, calls ++ rest.2)
  end.

Definition process_block_logs (logs : list LogEntry) (block_number : Z) (block_hash : list byte)
    (w : EventWatcher) : nat * trace :=
  process_logs (subscriptions_ w) block_number block_hash (replicate 32 x00) 0 logs.

Definition process_receipt (receipt : Receipt) (tx_hash : list byte) (block_number : Z) (block_hash : list byte)
    (first_log_index : Z) (w : EventWatcher) : nat * trace :=
  process_logs (subscriptions_ w) block_number block_hash tx_hash first_log_index (rc_logs receipt).

(** ** Dispatch *)

(** The subscriptions a log reaches. *)
Definition reached (subs : list Subscription) (log : LogEntry) (block : Z) : list Subscription :=
  filter (fun s => accepts (sub_filter s) log block) subs.

Lemma notify_reached subs event :
  notify subs event =
    map (fun s => (sub_callback s, event)) (reached subs (ev_log event) (ev_block_number event)).
Proof.
  unfold reached. induction subs as [|s subs IH]; [done|]. cbn [notify]. rewrite filter_cons.
  destruct (matches _ _ _) eqn:E.
  - apply matches_iff in E. rewrite decide_True by done. simpl. by rewrite IH.
  - rewrite decide_False; [done|]. intros H%matches_iff. congruence.
Qed.

(** The calls for a list of logs whose first one has index [first]. *)
Definition expected_calls (subs : list Subscription) (block_number : Z) (block_hash tx_hash : list byte)
    (first : Z) (logs : list LogEntry) : trace :=
  concat (imap (fun i log =>
    map (fun s => (sub_callback s, mkEvent log block_number block_hash tx_hash (u32 (first + Z.of_nat i))))
      (reached subs log block_number)) logs).

Lemma process_logs_spec subs bn bh th index logs first :
  index = u32 first ->
  process_logs subs bn bh th index logs =
    (length (filter (fun log => reached subs log bn <> []) logs), expected_calls subs bn bh th first logs).
Proof.
  revert index first. induction logs as [|log logs IH]; intros index first ->; [done|].
  cbn [process_logs]. rewrite (IH _ (first + 1)); [|unfold u32; by rewrite Zplus_mod_idemp_l].
  rewrite notify_reached, filter_cons. unfold expected_calls. cbn [imap concat ev_log ev_block_number fst snd].
  rewrite Z.add_0_r. f_equal.
  - case_decide as Hr; destruct (reached subs log bn); simpl; tauto || done.
  - f_equal. f_equal. apply imap_ext. intros i x _. simpl.
    by replace (first + 1 + Z.of_nat i) with (first + Z.of_nat (S i)) by lia.
Qed.

(** ** Sequences of registrations *)

Inductive watcher_op := Watch (f : EventFilter) (callback : CB) | Unwatch (id : Z).

Definition run_watcher (ops : list watcher_op) : EventWatcher :=
  foldl (fun w op => match op with Watch f cb => (watch f cb w).2 | Unwatch id => unwatch id w end)
    EventWatcher_new ops.

Definition count_watches (ops : list watcher_op) : Z :=
  Zlen (filter (fun op => match op with Watch _ _ => true | Unwatch _ => false end = true) ops).

(** [k] subscriptions were made: their ids are among 1 to [k], without repetition. *)
Record ids_from (k : Z) (w : EventWatcher) : Prop := {
  ids_next : next_id_ w = u32 (k + 1);
  ids_range s : s ∈ subscriptions_ w -> 1 <= sub_id s <= k;
  ids_nodup : NoDup (map sub_id (subscriptions_ w))
}.

Lemma ids_next_fresh k w s : 0 <= k < 2 ^ 32 -> ids_from k w -> s ∈ subscriptions_ w -> sub_id s <> next_id_ w.
Proof.
  intros Hk [Hn Hr _] Hs. specialize (Hr s Hs). rewrite Hn. destruct (decide (k + 1 < 2 ^ 32)).
  - rewrite u32_small by lia. lia.
  - replace (k + 1) with (2 ^ 32) by lia. change (u32 (2 ^ 32)) with 0. lia.
Qed.

Lemma ids_watch k f cb w : 0 <= k -> k + 1 < 2 ^ 32 -> ids_from k w -> ids_from (k + 1) (watch f cb w).2.
Proof.
  intros Hk0 Hk Hw. pose proof (ids_next_fresh k w) as Hfresh. destruct Hw as [Hn Hr Hnd].
  split; cbn [watch snd next_id_ subscriptions_].
  - rewrite Hn. unfold u32. by rewrite Zplus_mod_idemp_l.
  - intros s [Hs|E%list_elem_of_singleton]%elem_of_app; [specialize (Hr s Hs); lia|].
    subst s. simpl. rewrite Hn, u32_small; lia.
  - rewrite map_app. apply NoDup_app. split; [done|]. split; [|apply NoDup_singleton].
    intros x Hx Ei%list_elem_of_singleton. subst x. simpl in Hx. apply list_elem_of_fmap in Hx as (s & Ex & Hs).
    by apply (Hfresh s ltac:(lia) ltac:(split; done) Hs).
Qed.

Lemma ids_unwatch k id w : ids_from k w -> ids_from k (unwatch id w).
Proof.
  intros [Hn Hr Hnd]. split; cbn [unwatch next_id_ subscriptions_].
  - done.
  - intros s [_ Hs]%list_elem_of_filter. by apply Hr.
  - eapply sublist_NoDup; [apply Hnd|]. apply (fmap_sublist sub_id), sublist_filter.
Qed.

Lemma run_watcher_ids ops : count_watches ops < 2 ^ 32 -> ids_from (count_watches ops) (run_watcher ops).
Proof.
  induction ops as [|op ops IH] using rev_ind; intros Hc.
  - split; [done|by intros s ?%elem_of_nil|constructor].
  - unfold run_watcher, count_watches in *. rewrite foldl_app, filter_app, length_app in *. simpl.
    destruct op as [f cb|id]; rewrite filter_cons in *; simpl in *.
    + rewrite Nat2Z.inj_add. apply ids_watch; [lia|lia|]. apply IH. lia.
    + rewrite Nat.add_0_r in *. by apply ids_unwatch, IH.
Qed.

Lemma unwatch_one (w : EventWatcher) s :
  NoDup (map sub_id (subscriptions_ w)) -> s ∈ subscriptions_ w ->
  exists l1 l2, subscriptions_ w = l1 ++ s :: l2 /\ subscriptions_ (unwatch (sub_id s) w) = l1 ++ l2.
Proof.
  intros Hnd Hs. apply list_elem_of_split in Hs as (l1 & l2 & E). exists l1, l2. split; [done|].
  cbn [unwatch subscriptions_]. rewrite E in *. rewrite map_app in Hnd. cbn [map] in Hnd.
  apply NoDup_app in Hnd as (_ & H1 & H2). apply NoDup_cons in H2 as [H2 _].
  rewrite filter_app, filter_cons, decide_False by tauto.
  assert (forall l : list Subscription, (forall x, x ∈ l -> sub_id x <> sub_id s) -> filter (fun x => sub_id x <> sub_id s) l = l) as Hid.
  { induction l as [|x l IH]; intros Hl; [done|]. rewrite filter_cons, decide_True by (apply Hl; by left).
    rewrite IH; [done|]. intros. apply Hl. by right. }
  rewrite !Hid; [done| |].
  - intros x Hx E'. apply H2. rewrite <- E'. by apply list_elem_of_fmap_2.
  - intros x Hx E'. apply (H1 (sub_id x)); [by apply list_elem_of_fmap_2|rewrite E'; by left].
Qed.
End watcher.
Arguments Subscription : clear implicits.
Arguments EventWatcher : clear implicits.
Arguments watcher_op : clear implicits.

(** ** Theorems *)

(** A filter accepts exactly the logs inside its block range, from one of its
    contracts (any, if it names none), that have the required topic at every
    constrained position.  Processing a receipt calls exactly the callbacks of the
    subscriptions that accept each log, log by log and in the order of
    registration, with consecutive log indices, and returns the number of logs
    that reached any. *)
Theorem receipt_dispatch_exact {CB} (w : EventWatcher CB) (receipt : Receipt) (tx_hash block_hash : list byte)
    (block_number first_log_index : Z) (f : EventFilter) (log : LogEntry) :
  in_width 32 first_log_index ->
  (matches f log block_number = true <-> accepts f log block_number) /\
  process_receipt receipt tx_hash block_number block_hash first_log_index w =
    (length (filter (fun log => reached (subscriptions_ w) log block_number <> []) (rc_logs receipt)),
     expected_calls (subscriptions_ w) block_number block_hash tx_hash first_log_index (rc_logs receipt)).
Proof.
  intros Hi. split; [apply matches_iff|]. apply process_logs_spec. by rewrite u32_small.
Qed.

Lemma receipt_dispatch_exact_witness :
  process_receipt sample_receipt sample_hash 5 sample_hash 7
    (watch (mkFilter [sample_address] [None; Some sample_hash] (Some 5) None) true EventWatcher_new).2 =
  (1%nat, [(true, mkEvent sample_log 5 sample_hash sample_hash 7)]).
Proof.
  destruct (receipt_dispatch_exact
    (watch (mkFilter [sample_address] [None; Some sample_hash] (Some 5) None) true EventWatcher_new).2
    sample_receipt sample_hash sample_hash 5 7 (mkFilter [] [] None None) sample_log) as [_ H].
  { unfold in_width. lia. }
  rewrite H. by vm_compute.
Defined.

(** As long as fewer than 2^32 subscriptions were made, whatever was removed in
    between, no two live subscriptions share an id, the next id is not in use, and
    [unwatch] removes exactly the subscription it names, keeping the order of the
    others. *)
Theorem watch_ids_unique {CB} (ops : list (watcher_op CB)) (s : Subscription CB) :
  count_watches ops < 2 ^ 32 -> let w := run_watcher ops in
  NoDup (map sub_id (subscriptions_ w)) /\
  (s ∈ subscriptions_ w ->
    sub_id s <> next_id_ w /\
    exists l1 l2, subscriptions_ w = l1 ++ s :: l2 /\ subscriptions_ (unwatch (sub_id s) w) = l1 ++ l2).
Proof.
  intros Hc w. pose proof (run_watcher_ids ops Hc) as Hw. split; [apply Hw|].
  intros Hs. split; [|apply unwatch_one; [apply Hw|done]].
  eapply (ids_next_fresh (count_watches ops)); [unfold count_watches in *; lia|done|done].
Qed.

Lemma watch_ids_unique_witness :
  let w := run_watcher [Watch (mkFilter [] [] None None) 0; Watch (mkFilter [] [] None (Some 9)) 1; Unwatch 1] in
  map sub_id (subscriptions_ w) = [2] /\ NoDup (map sub_id (subscriptions_ w)).
Proof.
  split; [done|].
  apply (watch_ids_unique [Watch (mkFilter [] [] None None) 0; Watch (mkFilter [] [] None (Some 9)) 1; Unwatch 1]
    (mkSub 2 (mkFilter [] [] None (Some 9)) 1)). by vm_compute.
Defined.
