(* ===== verification/FinalityPolicy.v ===== *)
(** * Finality policy

    [include/eth/finality_policy.hpp] and [src/eth/finality_policy.cpp]: which
    block of a chain counts as final, given the heads an RPC endpoint reports: the
    finalized head, else the safe head, else the latest one less a number of
    confirmations, each as far as the policy of the chain allows it. *)

From S2P Require Import Prelude EthObjects.

(** ** finality_policy.hpp *)

Inductive FinalityHeadKind := kUnavailable | kFinalized | kSafe | kConfirmedLatest.

Record FinalityPolicy := mkPolicy {
  prefer_finalized : bool;
  prefer_safe : bool;
  confirmation_depth : Z
}.

Record ChainHeadSnapshot := mkHeads {
  finalized_number : option Z;
  safe_number : option Z;
  latest_number : option Z
}.

Record FinalityDecision := mkDecision {
  decision_kind : FinalityHeadKind;
  decision_block_number : Z;
  decision_confirmation_depth : Z
}.

(** [explicit operator bool]. *)
Definition available (d : FinalityDecision) : bool :=
  match decision_kind d with kUnavailable => false | _ => true end.

(** ** finality_policy.cpp *)

Definition kEthereumMainnetChainId : Z := 1.
Definition kEthereumSepoliaChainId : Z := 11155111.
Definition kEthereumHoleskyChainId : Z := 17000.
Definition kPolygonMainnetChainId : Z := 137.
Definition kPolygonAmoyChainId : Z := 80002.
Definition kBscMainnetChainId : Z := 56.
Definition kBscTestnetChainId : Z := 97.
Definition kBaseMainnetChainId : Z := 8453.
Definition kBaseSepoliaChainId : Z := 84532.

Definition confirmed_head (latest : option Z) (depth : Z) : option Z :=
  match latest with
  | None => None
  | Some n => if (depth =? 0) || (n <? depth) then None else Some (u64 (n - depth))
  end.

Definition finality_policy_for_chain_id (chain_id : Z) : FinalityPolicy :=
  if (chain_id =? kEthereumMainnetChainId) || (chain_id =? kEthereumSepoliaChainId)
     || (chain_id =? kEthereumHoleskyChainId) then mkPolicy true true 64
  else if (chain_id =? kBaseMainnetChainId) || (chain_id =? kBaseSepoliaChainId) then mkPolicy true true 900
  else if (chain_id =? kPolygonMainnetChainId) || (chain_id =? kPolygonAmoyChainId) then mkPolicy false false 256
  else if (chain_id =? kBscMainnetChainId) || (chain_id =? kBscTestnetChainId) then mkPolicy false false 30
  else mkPolicy true true 64.

Definition choose_finality_head (policy : FinalityPolicy) (heads : ChainHeadSnapshot) : FinalityDecision :=
  let otherwise :=
    match confirmed_head (latest_number heads) (confirmation_depth policy) with
    | None => mkDecision kUnavailable 0 0
    | Some confirmed => mkDecision kConfirmedLatest confirmed (confirmation_depth policy)
    end in
  let safe :=
    match prefer_safe policy, safe_number heads with
    | true, Some n => mkDecision kSafe n 0
    | _, _ => otherwise
    end in
  match prefer_finalized policy, finalized_number heads with
  | true, Some n => mkDecision kFinalized n 0
  | _, _ => safe
  end.

Definition is_final_under_policy (block_number : Z) (policy : FinalityPolicy) (heads : ChainHeadSnapshot) : bool :=
  let decision := choose_finality_head policy heads in
  available decision && (block_number <=? decision_block_number decision).

(** ** What final means *)

Record wf_heads (heads : ChainHeadSnapshot) : Prop := {
  wf_finalized : on_option (in_width 64) (finalized_number heads);
  wf_safe : on_option (in_width 64) (safe_number heads);
  wf_latest : on_option (in_width 64) (latest_number heads)
}.

(** The head the policy trusts, if there is one. *)
Definition trusted_head (policy : FinalityPolicy) (heads : ChainHeadSnapshot) : option Z :=
  match (if prefer_finalized policy then finalized_number heads else None),
        (if prefer_safe policy then safe_number heads else None) with
  | Some n, _ => Some n
  | None, other => other
  end.

(** A block is final when it is not above the trusted head, or, without one, when
    it lies the required (non-zero) number of blocks below the latest. *)
Definition final_block (policy : FinalityPolicy) (heads : ChainHeadSnapshot) (n : Z) : Prop :=
  match trusted_head policy heads with
  | Some head => n <= head
  | None => 0 < confirmation_depth policy /\
            exists latest, latest_number heads = Some latest /\ 0 <= n /\ n + confirmation_depth policy <= latest
  end.

Lemma confirmed_head_iff latest depth head n :
  on_option (in_width 64) latest -> 0 <= depth -> 0 <= n -> confirmed_head latest depth = Some head ->
  n <= head <-> exists l, latest = Some l /\ 0 < depth /\ n + depth <= l.
Proof.
  unfold confirmed_head, in_width. destruct latest as [l|]; simpl; [|done]. intros Hl Hd Hn.
  destruct (Z.eqb_spec depth 0); [done|]. destruct (Z.ltb_spec l depth); [done|]. intros [= <-].
  rewrite u64_small by lia. split; [intros; exists l; split; [done|lia]|intros (? & [= <-] & ?); lia].
Qed.

Lemma confirmed_head_none latest depth n :
  0 <= n -> confirmed_head latest depth = None -> 0 < depth -> ~ exists l, latest = Some l /\ n + depth <= l.
Proof.
  unfold confirmed_head. destruct latest as [l|]; [|naive_solver]. intros Hn.
  destruct (Z.eqb_spec depth 0); simpl; [lia|]. destruct (Z.ltb_spec l depth); [|done].
  intros _ _ (? & [= <-] & ?). lia.
Qed.

Lemma is_final_iff policy heads n :
  wf_heads heads -> 0 <= confirmation_depth policy -> 0 <= n ->
  is_final_under_policy n policy heads = true <-> final_block policy heads n.
Proof.
  intros [_ _ Hl] Hd Hn. unfold is_final_under_policy, choose_finality_head, final_block, trusted_head.
  destruct policy as [pf ps depth], heads as [fin safe latest]; cbn [prefer_finalized prefer_safe confirmation_depth
    finalized_number safe_number latest_number] in *.
  assert (forall d : FinalityDecision, d = (match confirmed_head latest depth with
    | None => mkDecision kUnavailable 0 0 | Some c => mkDecision kConfirmedLatest c depth end) ->
    available d && (n <=? decision_block_number d) = true <->
    0 < depth /\ exists l, latest = Some l /\ 0 <= n /\ n + depth <= l) as Hconf.
  { intros d ->. destruct (confirmed_head latest depth) as [head|] eqn:E; cbn.
    - rewrite Z.leb_le, (confirmed_head_iff _ _ _ _ Hl Hd Hn E). naive_solver lia.
    - split; [done|]. intros [Hpos (l & El & _ & Hle)]. by destruct (confirmed_head_none _ _ n Hn E Hpos); eauto. }
  destruct pf, fin as [f|]; cbn; try apply Z.leb_le; destruct ps, safe as [s|]; cbn; try apply Z.leb_le; by apply Hconf.
Qed.

(** The heads of a later snapshot: those that are known stay known and do not fall
    back, and no new kind of head appears. *)
Definition advanced (old new : option Z) : Prop :=
  match old, new with Some a, Some b => a <= b | None, None => True | _, _ => False end.

Record heads_advance (old new : ChainHeadSnapshot) : Prop := {
  adv_finalized : advanced (finalized_number old) (finalized_number new);
  adv_safe : advanced (safe_number old) (safe_number new);
  adv_latest : advanced (latest_number old) (latest_number new)
}.

Lemma final_block_advance policy old new n :
  heads_advance old new -> final_block policy old n -> final_block policy new n.
Proof.
  unfold final_block, trusted_head. intros [Hf Hs Hl]. unfold advanced in *.
  destruct old as [f s l], new as [f' s' l']; simpl in *.
  intros Hold. destruct (prefer_finalized policy), f, f'; try done; try lia;
    destruct (prefer_safe policy), s, s'; try done; try lia;
    destruct Hold as [Hd (x & -> & Hn & Hx)]; (split; [done|]); destruct l' as [y|]; try done; exists y; split_and!; try done; lia.
Qed.

(** ** Theorem *)

(** A block counts as final exactly when it is not above the head the policy
    trusts (finalized before safe), or, when the policy trusts none of the known
    heads, when it lies the policy's non-zero number of confirmations below the
    latest block, without wrap-around; and a block that is final stays final when
    the known heads advance. *)
Theorem finality_exact (policy : FinalityPolicy) (heads later : ChainHeadSnapshot) (n : Z) :
  wf_heads heads -> wf_heads later -> 0 <= confirmation_depth policy -> 0 <= n ->
  (is_final_under_policy n policy heads = true <-> final_block policy heads n) /\
  (heads_advance heads later -> is_final_under_policy n policy heads = true ->
   is_final_under_policy n policy later = true).
Proof.
  intros Hh Hl Hd Hn. split; [by apply is_final_iff|].
  intros Hadv. rewrite !is_final_iff by done. by apply final_block_advance.
Qed.

Lemma finality_exact_witness :
  let polygon := finality_policy_for_chain_id 137 in
  let heads := mkHeads (Some 1000) None (Some 900) in
  is_final_under_policy 644 polygon heads = true /\ final_block polygon heads 644.
Proof.
  split; [done|].
  apply (finality_exact (finality_policy_for_chain_id 137) (mkHeads (Some 1000) None (Some 900))
    (mkHeads (Some 1000) None (Some 900)) 644); [by repeat split|by repeat split|done|done|done].
Defined.
