(* ===== verification/AbiDecoder.v ===== *)
(** * ABI decoder

    [include/eth/abi_decoder.hpp] and [src/eth/abi_decoder.cpp]: decoding of the
    topics and the head/tail encoded data of an event log.  The hash function is a
    library's (nil crypto3) and is a parameter here.

    [abi_encode] is the encoding of the Solidity ABI specification: a head of one
    word per value, in which a dynamic value is the offset of its length and
    content in the tail. *)

From S2P Require Import Prelude RlpCommon RlpDecoder EthObjects.

(** ** eth_constants.hpp *)

Definition kAbiWordSize : Z := 32.
Definition kAbiAddressPadding : Z := 12.
Definition kAbiBoolByteIndex : Z := 31.

(** ** abi_decoder.hpp *)

Inductive AbiValue :=
  | AbiAddress (a : list byte)
  | AbiUint (n : Z)
  | AbiBytes32 (w : list byte)
  | AbiBool (b : bool)
  | AbiBytes (b : list byte)
  | AbiString (s : list byte).

Inductive AbiParamKind := kAddress | kUint | kInt | kBytes32 | kBool | kBytes | kString.

Record AbiParam := mkParam { param_kind : AbiParamKind; param_indexed : bool; param_name : string }.

(** ** abi_decoder.cpp *)

(** [p[i]] as a [uint64_t]. *)
Definition byte_val (p : list byte) (i : nat) : Z := u8 (nth i p x00).

Definition read64be (p : list byte) : Z :=
  Z.lor (Z.lor (Z.lor (Z.lor (Z.lor (Z.lor (Z.lor
    (Z.shiftl (byte_val p 0) 56) (Z.shiftl (byte_val p 1) 48)) (Z.shiftl (byte_val p 2) 40))
    (Z.shiftl (byte_val p 3) 32)) (Z.shiftl (byte_val p 4) 24)) (Z.shiftl (byte_val p 5) 16))
    (Z.shiftl (byte_val p 6) 8)) (byte_val p 7).

(** The four words, least significant first, as the value of the [uint256]. *)
Definition read_uint256_be (data : list byte) : Z :=
  read64be (drop 24 data) + read64be (drop 16 data) * 2 ^ 64 + read64be (drop 8 data) * 2 ^ 128
  + read64be data * 2 ^ 192.

Definition is_dynamic (kind : AbiParamKind) : bool :=
  match kind with kBytes | kString => true | _ => false end.

(** The error behind the [switch] is unreachable for the enumerators. *)
Definition decode_abi_word (word : list byte) (kind : AbiParamKind) : AbiValue :=
  match kind with
  | kAddress => AbiAddress (drop (Z.to_nat kAbiAddressPadding) word)
  | kUint | kInt => AbiUint (read_uint256_be word)
  | kBytes32 => AbiBytes32 word
  | kBool => AbiBool (negb (byte_val word (Z.to_nat kAbiBoolByteIndex) =? 0))
  | kBytes => AbiBytes []
  | kString => AbiString []
  end.

Definition decode_indexed_param (topic : list byte) (param : AbiParam) : AbiValue :=
  decode_abi_word topic (param_kind param).

(** [std::copy(data + off, data + off + n, ...)]. *)
Definition read_range (data : list byte) (off n : Z) : outcome DecodingError (list byte) :=
  if off + n <=? Zlen data then success (take (Z.to_nat n) (drop (Z.to_nat off) data)) else crash OutOfBounds.

(** The content of a dynamic value whose head slot is at [head_offset]. *)
Definition decode_tail (data : list byte) (head_offset : Z) : outcome DecodingError (list byte) :=
  offset_word ← read_range data head_offset kAbiWordSize;
  let raw_offset := read_uint256_be offset_word in
  if 2 ^ 64 - 1 <? raw_offset then failure kOverflow else
  let tail_offset := raw_offset in
  if Zlen data <? u64 (tail_offset + kAbiWordSize) then failure kInputTooShort else
  len_word ← read_range data tail_offset kAbiWordSize;
  let raw_len := read_uint256_be len_word in
  if 2 ^ 64 - 1 <? raw_len then failure kOverflow else
  let content_offset := u64 (tail_offset + kAbiWordSize) in
  if Zlen data <? u64 (content_offset + raw_len) then failure kInputTooShort else
  read_range data content_offset raw_len.

(** The loop of [decode_log_data], from parameter [i] on. *)
Fixpoint decode_params (data : list byte) (i : Z) (params : list AbiParam) : outcome DecodingError (list AbiValue) :=
  match params with
  | [] => success []
  | param :: params' =>
      let head_offset := u64 (i * kAbiWordSize) in
      value ← (if negb (is_dynamic (param_kind param)) then
                 word ← read_range data head_offset kAbiWordSize;
                 success (decode_abi_word word (param_kind param))
               else
                 content ← decode_tail data head_offset;
                 success (match param_kind param with kBytes => AbiBytes content | _ => AbiString content end));
      values ← decode_params data (i + 1) params';
      success (value :: values)
  end.

Definition decode_log_data (data : list byte) (params : list AbiParam) : outcome DecodingError (list AbiValue) :=
  match params with
  | [] => success []
  | _ =>
      let head_size := u64 (Zlen params * kAbiWordSize) in
      if Zlen data <? head_size then failure kInputTooShort else decode_params data 0 params
  end.

(** The loop of [decode_log] over the parameters: the values of the indexed ones,
    and the others. *)
Fixpoint decode_topics (topics : list (list byte)) (params : list AbiParam) :
    outcome DecodingError (list AbiValue * list AbiParam) :=
  match params with
  | [] => success ([], [])
  | param :: params' =>
      if param_indexed param then
        match topics with
        | [] => failure kInputTooShort
        | topic :: topics' =>
            r ← decode_topics topics' params';
            success (decode_indexed_param topic param :: r.1, r.2)
        end
      else
        r ← decode_topics topics params';
        success (r.1, param :: r.2)
  end.

Section decode_log.
Context (keccak256 : list byte -> list byte).

Definition event_signature_hash (signature : string) : list byte := keccak256 (String.list_byte_of_string signature).

Definition decode_log (log : LogEntry) (signature : string) (params : list AbiParam) :
    outcome DecodingError (list AbiValue) :=
  match le_topics log with
  | [] => failure kInputTooShort
  | topic0 :: topics =>
      if decide (topic0 <> event_signature_hash signature) then failure kUnexpectedString else
      r ← decode_topics topics params;
      data_vals ← decode_log_data (le_data log) r.2;
      success (r.1 ++ data_vals)
  end.
End decode_log.

(** ** The ABI encoding *)

Definition abi_word (n : Z) : list byte := be_bytes 32 n.

(** The word of a static value. *)
Definition abi_static (v : AbiValue) : list byte :=
  match v with
  | AbiAddress a => replicate 12 x00 ++ a
  | AbiUint n => abi_word n
  | AbiBytes32 w => w
  | AbiBool b => abi_word (if b then 1 else 0)
  | AbiBytes _ | AbiString _ => []
  end.

(** Length, content and padding of a dynamic value. *)
Definition abi_tail (v : AbiValue) : list byte :=
  match v with
  | AbiBytes b | AbiString b => abi_word (Zlen b) ++ b ++ replicate (Z.to_nat ((- Zlen b) mod 32)) x00
  | _ => []
  end.

Definition value_dynamic (v : AbiValue) : bool :=
  match v with AbiBytes _ | AbiString _ => true | _ => false end.

(** The head: static values in place, for the others the running offset. *)
Fixpoint abi_heads (offset : Z) (vals : list AbiValue) : list byte :=
  match vals with
  | [] => []
  | v :: vals' =>
      (if value_dynamic v then abi_word offset else abi_static v) ++ abi_heads (offset + Zlen (abi_tail v)) vals'
  end.

Definition abi_encode (vals : list AbiValue) : list byte :=
  abi_heads (32 * Zlen vals) vals ++ concat (map abi_tail vals).

(** The value is one of the parameter's type. *)
Definition has_kind (p : AbiParam) (v : AbiValue) : Prop :=
  match param_kind p, v with
  | kAddress, AbiAddress a => Zlen a = 20
  | kUint, AbiUint n | kInt, AbiUint n => in_width 256 n
  | kBytes32, AbiBytes32 w => Zlen w = 32
  | kBool, AbiBool _ => True
  | kBytes, AbiBytes _ | kString, AbiString _ => True
  | _, _ => False
  end.

(** ** Words *)

(** One more byte of a big-endian word. *)
Lemma lor_byte a b k : 0 <= k -> 0 <= b < 256 -> Z.lor (a * 2 ^ (k + 8)) (Z.shiftl b k) = (a * 256 + b) * 2 ^ k.
Proof.
  intros Hk Hb. rewrite Z.shiftl_mul_pow2 by done. rewrite lor_add.
  - rewrite Z.pow_add_r by lia. lia.
  - lia.
  - rewrite Z.pow_add_r by lia. nia.
Qed.

Lemma read64be_val p : (8 <= length p)%nat -> read64be p = be_val (take 8 p).
Proof.
  intros Hl. destruct p as [|b0 [|b1 [|b2 [|b3 [|b4 [|b5 [|b6 [|b7 p]]]]]]]]; try (simpl in Hl; lia).
  unfold read64be, byte_val, be_val. cbn [nth take foldl]. rewrite (Z.shiftl_mul_pow2 (u8 b0)) by lia.
  change 56 with (48 + 8). rewrite lor_byte by (pose_u8; lia).
  change 48 with (40 + 8). rewrite lor_byte by (pose_u8; lia).
  change 40 with (32 + 8). rewrite lor_byte by (pose_u8; lia).
  change 32 with (24 + 8). rewrite lor_byte by (pose_u8; lia).
  change 24 with (16 + 8). rewrite lor_byte by (pose_u8; lia).
  change 16 with (8 + 8). rewrite lor_byte by (pose_u8; lia).
  rewrite lor_add; [|lia|pose proof (u8_range b7); lia]. rewrite take_0. cbn [foldl]. lia.
Qed.

Lemma read_uint256_be_val w : length w = 32%nat -> read_uint256_be w = be_val w.
Proof.
  intros Hl. unfold read_uint256_be. rewrite !read64be_val by (rewrite ?length_drop; lia).
  assert (w = take 8 w ++ take 8 (drop 8 w) ++ take 8 (drop 16 w) ++ take 8 (drop 24 w)) as E.
  { rewrite (take_ge (drop 24 w)) by (rewrite length_drop; lia).
    replace (drop 24 w) with (drop 8 (drop 16 w)) by (by rewrite drop_drop). rewrite take_drop.
    replace (drop 16 w) with (drop 8 (drop 8 w)) by (by rewrite drop_drop). by rewrite !take_drop. }
  transitivity (be_val (take 8 w ++ take 8 (drop 8 w) ++ take 8 (drop 16 w) ++ take 8 (drop 24 w)));
    [|by rewrite <- E].
  rewrite !be_val_app, !length_app, !length_take, !length_drop, Hl. simpl Nat.add. simpl Nat.sub. simpl Nat.min.
  change (256 ^ Z.of_nat (8 + (8 + 8))) with (2 ^ 192). change (256 ^ Z.of_nat (8 + 8)) with (2 ^ 128).
  change (256 ^ Z.of_nat 24) with (2 ^ 192). change (256 ^ Z.of_nat 16) with (2 ^ 128).
  change (256 ^ Z.of_nat 8) with (2 ^ 64). lia.
Qed.

Lemma read_abi_word n : in_width 256 n -> read_uint256_be (abi_word n) = n.
Proof.
  intros Hn. rewrite read_uint256_be_val by apply length_be_bytes. by apply be_val_be_bytes_small.
Qed.

Lemma read_range_app a b c off n :
  off = Zlen a -> n = Zlen b -> read_range (a ++ b ++ c) off n = success b.
Proof.
  intros -> ->. unfold read_range. rewrite (proj2 (Z.leb_le _ _)) by (rewrite !length_app; lia).
  by rewrite drop_app_Zlen, take_app_Zlen.
Qed.

Lemma has_kind_dynamic p v : has_kind p v -> is_dynamic (param_kind p) = value_dynamic v.
Proof. unfold has_kind. destruct (param_kind p), v; try done. Qed.

Lemma length_abi_static p v : has_kind p v -> value_dynamic v = false -> length (abi_static v) = 32%nat.
Proof.
  unfold has_kind. destruct (param_kind p), v; try done; intros H _; simpl; rewrite ?length_app, ?length_replicate; simpl;
    rewrite ?length_be_bytes; lia || apply length_be_bytes.
Qed.

Lemma decode_abi_static p v :
  has_kind p v -> value_dynamic v = false -> decode_abi_word (abi_static v) (param_kind p) = v.
Proof.
  unfold has_kind. destruct (param_kind p), v; try done; intros H _; simpl; try done.
  - by rewrite read_abi_word.
  - by rewrite read_abi_word.
  - by destruct b.
Qed.

(** ** Decoding an encoding *)

Definition abi_head (offset : Z) (v : AbiValue) : list byte :=
  if value_dynamic v then abi_word offset else abi_static v.

Lemma length_abi_head p v offset : has_kind p v -> length (abi_head offset v) = 32%nat.
Proof.
  intros Hk. unfold abi_head. destruct (value_dynamic v) eqn:Hd; [apply length_be_bytes|by eapply length_abi_static].
Qed.

(** What is stored behind a length word at [off] is found from its head slot. *)
Lemma decode_tail_spec pre off mid content post :
  let data := pre ++ abi_word off ++ mid ++ abi_word (Zlen content) ++ content ++ post in
  Zlen data < 2 ^ 64 -> off = Zlen (pre ++ abi_word off ++ mid) ->
  decode_tail data (Zlen pre) = success content.
Proof.
  intros data Hl Hoff. assert (0 <= off) as Hpos by lia.
  assert (Zlen data = off + 32 + Zlen content + Zlen post) as Hlen.
  { unfold data. rewrite !length_app in *. unfold abi_word in *. rewrite !length_be_bytes in *. lia. }
  unfold decode_tail, kAbiWordSize.
  assert (read_range data (Zlen pre) 32 = success (abi_word off)) as ->.
  { apply read_range_app; [done|]. unfold abi_word. by rewrite length_be_bytes. }
  cbn [mbind outcome_bind]. rewrite read_abi_word by (unfold in_width; lia).
  rewrite (proj2 (Z.ltb_ge (2 ^ 64 - 1) off)) by lia. rewrite (u64_small (off + 32)) by lia.
  rewrite (proj2 (Z.ltb_ge _ (off + 32))) by lia.
  assert (data = (pre ++ abi_word off ++ mid) ++ abi_word (Zlen content) ++ content ++ post) as Ed
    by (unfold data; by rewrite <- !app_assoc).
  assert (read_range data off 32 = success (abi_word (Zlen content))) as Hr1.
  { rewrite Ed. apply read_range_app; [done|]. unfold abi_word. by rewrite length_be_bytes. }
  rewrite Hr1. cbn [mbind outcome_bind]. rewrite read_abi_word by (unfold in_width; lia).
  rewrite (proj2 (Z.ltb_ge (2 ^ 64 - 1) _)) by lia. rewrite u64_small by lia.
  rewrite (proj2 (Z.ltb_ge _ _)) by lia.
  assert (data = ((pre ++ abi_word off ++ mid) ++ abi_word (Zlen content)) ++ content ++ post) as -> by
    (rewrite Ed; by rewrite <- !app_assoc).
  apply read_range_app; [|done]. rewrite length_app. unfold abi_word at 2. rewrite length_be_bytes. lia.
Qed.

(** The values from index [i] on: their heads start behind [pre], their tails
    behind [mid]. *)
Lemma decode_params_spec data params vals pre mid off post :
  data = pre ++ abi_heads off vals ++ mid ++ concat (map abi_tail vals) ++ post ->
  Forall2 has_kind params vals -> Zlen data < 2 ^ 64 ->
  off = Zlen (pre ++ abi_heads off vals ++ mid) -> Zlen pre mod 32 = 0 ->
  decode_params data (Zlen pre / 32) params = success vals.
Proof.
  intros Ed0 Hk. revert pre mid off Ed0. induction Hk as [|p v params vals Hv Hk IH]; [done|].
  intros pre mid off Ed0 Hl Hoff Hmod. pose proof (length_abi_head p v off Hv) as Hhead.
  set (heads := abi_heads (off + Zlen (abi_tail v)) vals) in *.
  set (tails := concat (map abi_tail vals)) in *.
  assert (data = (pre ++ abi_head off v) ++ heads ++ (mid ++ abi_tail v) ++ tails ++ post) as Ed.
  { rewrite Ed0. cbn [abi_heads map concat]. fold (abi_head off v). fold heads tails. by rewrite <- !app_assoc. }
  assert (u64 (Zlen pre / 32 * kAbiWordSize) = Zlen pre) as Hho.
  { unfold kAbiWordSize. pose proof (Z.div_mod (Zlen pre) 32). rewrite u64_small; [lia|].
    rewrite Ed, !length_app in Hl. lia. }
  cbn [decode_params]. rewrite Hho. cbn [abi_heads] in Hoff. fold (abi_head off v) in Hoff. fold heads in Hoff.
  assert (decode_params data (Zlen pre / 32 + 1) params = success vals) as Hrest.
  { replace (Zlen pre / 32 + 1) with (Zlen (pre ++ abi_head off v) / 32).
    2: { rewrite length_app, Hhead. rewrite Nat2Z.inj_add. change (Z.of_nat 32) with (1 * 32). rewrite Z.div_add by lia. lia. }
    apply (IH _ (mid ++ abi_tail v) (off + Zlen (abi_tail v))); [done|done| |].
    - fold heads. rewrite !length_app in *. lia.
    - rewrite length_app, Hhead, Nat2Z.inj_add. change (Z.of_nat 32) with (1 * 32). by rewrite Z.mod_add. }
  rewrite Hrest. rewrite (has_kind_dynamic p v Hv). destruct (value_dynamic v) eqn:Hd; cbn [negb].
  - assert (exists content pad, abi_tail v = abi_word (Zlen content) ++ content ++ pad /\
      match param_kind p with kBytes => AbiBytes content | _ => AbiString content end = v) as (content & pad & Et & Ev).
    { unfold has_kind in Hv. destruct v; try done; destruct (param_kind p); try done; by eexists _, _. }
    assert (data = pre ++ abi_word off ++ (heads ++ mid) ++ abi_word (Zlen content) ++ content ++ pad ++ tails ++ post) as Ed2.
    { rewrite Ed, Et. unfold abi_head. rewrite Hd. by rewrite <- !app_assoc. }
    rewrite Ed2, decode_tail_spec; [|by rewrite <- Ed2|].
    + cbn [mbind outcome_bind]. by rewrite Ev.
    + unfold abi_head in Hoff. rewrite Hd in Hoff. by rewrite <- !app_assoc in *.
  - rewrite Ed, <- app_assoc. rewrite (read_range_app pre (abi_head off v)); [|done|rewrite Hhead; done].
    cbn [mbind outcome_bind]. unfold abi_head. rewrite Hd. by rewrite (decode_abi_static p v).
Qed.

Lemma length_abi_heads params vals off :
  Forall2 has_kind params vals -> Zlen (abi_heads off vals) = 32 * Zlen vals.
Proof.
  intros Hk. revert off. induction Hk as [|p v params vals Hv Hk IH]; intros off; [done|]. cbn [abi_heads].
  fold (abi_head off v). rewrite length_app, (length_abi_head p v) by done. rewrite Nat2Z.inj_add, IH. simpl length. lia.
Qed.

Lemma decode_log_data_spec params vals post :
  Forall2 has_kind params vals -> Zlen (abi_encode vals ++ post) < 2 ^ 64 ->
  decode_log_data (abi_encode vals ++ post) params = success vals.
Proof.
  intros Hk Hl. unfold decode_log_data. destruct params as [|p ps] eqn:Ep; [by apply Forall2_nil_inv_l in Hk; subst|].
  rewrite <- Ep in *. pose proof (length_abi_heads params vals (32 * Zlen vals) Hk) as Hh.
  pose proof (Forall2_length _ _ _ Hk) as Hlen.
  rewrite (proj2 (Z.ltb_ge _ _)).
  - apply (decode_params_spec _ params vals [] [] (32 * Zlen vals) post); [|done|done| |done].
    + unfold abi_encode. by rewrite <- app_assoc.
    + simpl. rewrite app_nil_r. lia.
  - unfold abi_encode, kAbiWordSize in *. rewrite Hlen, u64_small; rewrite !length_app in *; lia.
Qed.

Lemma decode_topics_spec params vals :
  Forall2 has_kind (filter (fun p => param_indexed p = true) params) vals ->
  Forall (fun v => value_dynamic v = false) vals ->
  decode_topics (map abi_static vals) params =
    success (vals, filter (fun p => param_indexed p = false) params).
Proof.
  revert vals. induction params as [|p params IH]; intros vals Hk Hs; cbn [decode_topics].
  - apply Forall2_nil_inv_l in Hk. by subst.
  - rewrite filter_cons in Hk |- *. destruct (param_indexed p) eqn:Ei.
    + apply Forall2_cons_inv_l in Hk as (v & vals' & Hv & Hk & ->). apply Forall_cons in Hs as [Hd Hs].
      cbn [map]. rewrite (IH vals') by done. cbn [mbind outcome_bind fst snd].
      unfold decode_indexed_param. rewrite (decode_abi_static p v) by done. done.
    + rewrite (IH vals) by done. done.
Qed.

(** ** Theorems *)

(** Decoding inverts the ABI encoding: a log whose first topic is the hash of
    the signature, whose further topics hold the indexed values (of static types)
    in order and whose data is the head/tail encoding of the others, with anything
    behind it, is decoded to the indexed values followed by the others, whatever
    the hash function. *)
Theorem abi_log_roundtrip (keccak256 : list byte -> list byte) (address post : list byte) (signature : string)
    (params : list AbiParam) (indexed data : list AbiValue) :
  Forall2 has_kind (filter (fun p => param_indexed p = true) params) indexed ->
  Forall (fun v => value_dynamic v = false) indexed ->
  Forall2 has_kind (filter (fun p => param_indexed p = false) params) data ->
  Zlen (abi_encode data ++ post) < 2 ^ 64 ->
  decode_log keccak256
    (mkLogEntry address (event_signature_hash keccak256 signature :: map abi_static indexed) (abi_encode data ++ post))
    signature params = success (indexed ++ data).
Proof.
  intros Hi Hs Hd Hl. unfold decode_log. cbn [le_topics le_data]. rewrite decide_False by tauto.
  rewrite decode_topics_spec by done. cbn [mbind outcome_bind fst snd].
  rewrite decode_log_data_spec by done. done.
Qed.

(** [Transfer(address,address,uint256)] with a memo. *)
Definition sample_params : list AbiParam :=
  [mkParam kAddress true "from"; mkParam kBytes false "memo"; mkParam kAddress true "to"; mkParam kUint false "value"].

Lemma abi_log_roundtrip_witness :
  decode_log (fun _ => sample_hash)
    (mkLogEntry sample_address (sample_hash :: map abi_static [AbiAddress sample_address; AbiAddress sample_address])
      (abi_encode [AbiBytes [x01; x02; x03]; AbiUint 1000] ++ []))
    "Transfer(address,bytes,address,uint256)" sample_params =
  success ([AbiAddress sample_address; AbiAddress sample_address] ++ [AbiBytes [x01; x02; x03]; AbiUint 1000]).
Proof.
  apply (abi_log_roundtrip (fun _ => sample_hash) sample_address []
    "Transfer(address,bytes,address,uint256)" sample_params
    [AbiAddress sample_address; AbiAddress sample_address] [AbiBytes [x01; x02; x03]; AbiUint 1000]);
    [by repeat constructor|by repeat constructor|by repeat constructor|by vm_compute].
Defined.

(** The bound checks on dynamic values add to an offset from the log without
    checking for wrap-around: data whose first word is an offset in the last 32
    bytes of the address space passes the check, and the length word is read
    outside the buffer. *)
Theorem abi_offset_wraps (data : list byte) (p : AbiParam) :
  is_dynamic (param_kind p) = true -> 32 <= Zlen data < 2 ^ 63 ->
  2 ^ 64 - 32 <= be_val (take 32 data) < 2 ^ 64 ->
  decode_log_data data [p] = crash OutOfBounds.
Proof.
  intros Hd Hl Hoff. unfold decode_log_data. cbn [length].
  change (u64 (Z.of_nat 1 * kAbiWordSize)) with 32. rewrite (proj2 (Z.ltb_ge _ _)) by lia.
  cbn [decode_params]. rewrite Hd. cbn [negb]. change (u64 (0 * kAbiWordSize)) with 0.
  assert (read_range data 0 32 = success (take 32 data)) as Hr.
  { unfold read_range. by rewrite (proj2 (Z.leb_le _ _)) by lia. }
  unfold decode_tail, kAbiWordSize. rewrite Hr. cbn [mbind outcome_bind].
  rewrite read_uint256_be_val by (rewrite length_take; lia). set (off := be_val (take 32 data)) in *.
  rewrite (proj2 (Z.ltb_ge (2 ^ 64 - 1) off)) by lia.
  assert (u64 (off + 32) = off + 32 - 2 ^ 64) as Hw.
  { unfold u64. symmetry. apply (Z.mod_unique_pos _ _ 1); lia. }
  rewrite Hw, (proj2 (Z.ltb_ge _ (off + 32 - 2 ^ 64))) by lia.
  assert (read_range data off 32 = crash OutOfBounds) as ->; [|done].
  unfold read_range. by rewrite (proj2 (Z.leb_gt _ _)) by lia.
Qed.

Lemma abi_offset_wraps_witness :
  decode_log_data (be_bytes 32 (2 ^ 64 - 1)) [mkParam kBytes false "data"] = crash OutOfBounds.
Proof. apply (abi_offset_wraps (be_bytes 32 (2 ^ 64 - 1))); [done|by split; vm_compute|by split; vm_compute]. Defined.
