(* ===== verification/DialScheduler.v ===== *)
(** * Dial scheduler

    [include/discv4/dial_history.hpp] and [include/discv4/dial_scheduler.hpp]: the
    history of recent dials, the pool of connection slots that the schedulers of
    all chains share, and the scheduler of one chain with its queue of waiting
    peers.

    The functions model the calls; a dial that was spawned is a coroutine of the
    environment, which later reports that it is connected and, once, that it is
    done.  The step relation of [World] interleaves these reports with the calls,
    for any number of chains.  All calls run on one thread; the clock readings
    within one call are taken to be one instant [now].  The feedback function,
    which [EthPeerQueue] installs, may enqueue peers again while it runs. *)

From S2P Require Import Prelude EthObjects.

(** ** dial_history.hpp *)

Notation node_id_t := (list byte).

Record DialHistory := mkHistory { expiry_ : Z; entries_ : gmap node_id_t Z }.

(** [kDefaultDialHistoryExpiry], in seconds. *)
Definition kDefaultExpiry : Z := 35.

Definition DialHistory_new (expiry : Z) : DialHistory := mkHistory expiry ∅.

Definition history_add (node_id : node_id_t) (now : Z) (h : DialHistory) : DialHistory :=
  mkHistory (expiry_ h) (<[node_id := now + expiry_ h]> (entries_ h)).

Definition history_contains (node_id : node_id_t) (now : Z) (h : DialHistory) : bool :=
  match entries_ h !! node_id with None => false | Some until => now <? until end.

Definition history_expire (now : Z) (h : DialHistory) : DialHistory :=
  mkHistory (expiry_ h) (filter (fun e => ~ (e.2 <= now)) (entries_ h)).

(** ** dial_scheduler.hpp *)

Record PeerForkId := mkPeerForkId { fork_hash_4 : list byte; fork_next : Z }.

(** [DiscoveredPeer] of discv4_client.hpp. *)
Record DiscoveredPeer := mkPeer {
  node_id : node_id_t;
  peer_ip : string;
  udp_port : Z;
  tcp_port : Z;
  last_seen : Z;
  eth_fork_id : option PeerForkId
}.

Record ValidatedPeer := mkValidated { vp_peer : DiscoveredPeer; vp_pubkey : list byte }.

Record WatcherPool := mkPool { max_total : Z; max_per_chain : Z; active_total : Z }.

Record DialScheduler := mkScheduler {
  filter_fn : option (DiscoveredPeer -> bool);
  dial_history : DialHistory;
  active : Z;
  validated_count : Z;
  total_validated : Z;
  stopping : bool;
  queue : list ValidatedPeer;
  active_sessions : list ValidatedPeer
}.

Definition DialScheduler_new (filter : option (DiscoveredPeer -> bool)) : DialScheduler :=
  mkScheduler filter (DialHistory_new kDefaultExpiry) 0 0 0 false [] [].

(** A free slot under both caps. *)
Definition has_slot (s : DialScheduler) (p : WatcherPool) : bool :=
  (active s <? max_per_chain p) && (active_total p <? max_total p).

Definition with_history (h : DialHistory) (s : DialScheduler) : DialScheduler :=
  mkScheduler (filter_fn s) h (active s) (validated_count s) (total_validated s) (stopping s) (queue s) (active_sessions s).

Definition with_queue (q : list ValidatedPeer) (s : DialScheduler) : DialScheduler :=
  mkScheduler (filter_fn s) (dial_history s) (active s) (validated_count s) (total_validated s) (stopping s) q (active_sessions s).

(** The slot is taken and the dial recorded; the dial itself is in the list of
    spawned peers that the callers return. *)
Definition start_dial (vp : ValidatedPeer) (now : Z) (s : DialScheduler) (p : WatcherPool) : DialScheduler * WatcherPool :=
  (mkScheduler (filter_fn s) (history_add (node_id (vp_peer vp)) now (dial_history s)) (active s + 1)
     (validated_count s) (total_validated s) (stopping s) (queue s) (active_sessions s),
   mkPool (max_total p) (max_per_chain p) (active_total p + 1)).

(** State of a scheduler and the pool, with the peers spawned by a call. *)
Notation sched_result := (DialScheduler * WatcherPool * list ValidatedPeer)%type.

Definition enqueue (vp : ValidatedPeer) (now : Z) (s : DialScheduler) (p : WatcherPool) : sched_result :=
  if stopping s then (s, p, []) else
  if match filter_fn s with Some f => negb (f (vp_peer vp)) | None => false end then (s, p, []) else
  let s := with_history (history_expire now (dial_history s)) s in
  if history_contains (node_id (vp_peer vp)) now (dial_history s) then (s, p, []) else
  if has_slot s p then
    let '(s', p') := start_dial vp now s p in (s', p', [vp])
  else (with_queue (queue s ++ [vp]) s, p, []).

(** The loop of [release] over the waiting peers. *)
Fixpoint drain (q : list ValidatedPeer) (now : Z) (s : DialScheduler) (p : WatcherPool) : sched_result :=
  match q with
  | [] => (with_queue [] s, p, [])
  | vp :: q' =>
      if has_slot s p then
        if history_contains (node_id (vp_peer vp)) now (dial_history s) then drain q' now s p
        else
          let '(s1, p1) := start_dial vp now s p in
          let '(s2, p2, spawned) := drain q' now s1 p1 in (s2, p2, vp :: spawned)
      else (with_queue q s, p, [])
  end.

Definition release (now : Z) (s : DialScheduler) (p : WatcherPool) : sched_result :=
  let s := mkScheduler (filter_fn s) (dial_history s) (active s - 1) (validated_count s) (total_validated s)
             (stopping s) (queue s) (active_sessions s) in
  let p := mkPool (max_total p) (max_per_chain p) (active_total p - 1) in
  if stopping s then (s, p, []) else
  drain (queue s) now (with_history (history_expire now (dial_history s)) s) p.

Definition stop (s : DialScheduler) : DialScheduler :=
  mkScheduler (filter_fn s) (dial_history s) (active s) (validated_count s) (total_validated s) true [] [].

(** The [on_connected] callback of a dial. *)
Definition on_connected (vp : ValidatedPeer) (s : DialScheduler) : DialScheduler :=
  mkScheduler (filter_fn s) (dial_history s) (active s) (validated_count s + 1) (total_validated s + 1)
    (stopping s) (queue s) (active_sessions s ++ [vp]).

(** The peers a feedback function enqueues. *)
Fixpoint enqueue_all (vps : list ValidatedPeer) (now : Z) (s : DialScheduler) (p : WatcherPool) : sched_result :=
  match vps with
  | [] => (s, p, [])
  | vp :: vps' =>
      let '(s1, p1, sp1) := enqueue vp now s p in
      let '(s2, p2, sp2) := enqueue_all vps' now s1 p1 in (s2, p2, sp1 ++ sp2)
  end.

(** The [on_done] callback: the feedback, then the slot. *)
Definition on_done (was_validated : bool) (feedback : list ValidatedPeer) (now : Z) (s : DialScheduler) (p : WatcherPool) :
    sched_result :=
  let '(s1, p1, sp1) := enqueue_all feedback now s p in
  let s1 := if was_validated
            then mkScheduler (filter_fn s1) (dial_history s1) (active s1) (validated_count s1 - 1) (total_validated s1)
                   (stopping s1) (queue s1) (active_sessions s1)
            else s1 in
  let '(s2, p2, sp2) := release now s1 p1 in (s2, p2, sp1 ++ sp2).

(** [make_fork_id_filter]. *)
Definition make_fork_id_filter (expected_hash : list byte) (peer : DiscoveredPeer) : bool :=
  match eth_fork_id peer with
  | None => false
  | Some f => bool_decide (fork_hash_4 f = expected_hash)
  end.

(** ** The world of all chains *)

(** A dial in flight: its chain and peer, [was_validated] and [reported]. *)
Record Dial := mkDial { d_chain : nat; d_peer : ValidatedPeer; d_validated : bool; d_reported : bool }.

(** A scheduler with the dials it ever started, newest first. *)
Record Chain := mkChain { ch_sched : DialScheduler; ch_dialed : list (node_id_t * Z) }.

Record World := mkWorld { w_pool : WatcherPool; w_chains : list Chain; w_live : list Dial; w_clock : Z }.

Definition new_dials (c : nat) (spawned : list ValidatedPeer) : list Dial :=
  map (fun vp => mkDial c vp false false) spawned.

Definition record_dials (spawned : list ValidatedPeer) (now : Z) (dialed : list (node_id_t * Z)) : list (node_id_t * Z) :=
  reverse (map (fun vp => (node_id (vp_peer vp), now)) spawned) ++ dialed.

(** The world after a call on chain [c] returned [r], with the dials [live] left. *)
Definition after_call (w : World) (c : nat) (ch : Chain) (live : list Dial) (now : Z) (r : sched_result) : World :=
  let '(s, p, spawned) := r in
  mkWorld p (<[c := mkChain s (record_dials spawned now (ch_dialed ch))]> (w_chains w))
    (live ++ new_dials c spawned) now.

Inductive wstep : World -> World -> Prop :=
  | step_enqueue w c ch vp now :
      w_chains w !! c = Some ch -> w_clock w <= now ->
      wstep w (after_call w c ch (w_live w) now (enqueue vp now (ch_sched ch) (w_pool w)))
  | step_connected w c ch vp reported l1 l2 :
      w_chains w !! c = Some ch -> w_live w = l1 ++ mkDial c vp false reported :: l2 ->
      wstep w (mkWorld (w_pool w) (<[c := mkChain (on_connected vp (ch_sched ch)) (ch_dialed ch)]> (w_chains w))
                 (l1 ++ mkDial c vp true reported :: l2) (w_clock w))
  | step_disconnect_message w c ch vp reported l1 l2 feedback now :
      w_chains w !! c = Some ch -> w_live w = l1 ++ mkDial c vp true reported :: l2 -> w_clock w <= now ->
      wstep w (after_call w c ch (l1 ++ mkDial c vp true true :: l2) now
                 (enqueue_all feedback now (ch_sched ch) (w_pool w)))
  | step_done w c ch vp validated reported l1 l2 feedback now :
      w_chains w !! c = Some ch -> w_live w = l1 ++ mkDial c vp validated reported :: l2 -> w_clock w <= now ->
      (reported = true -> feedback = []) ->
      wstep w (after_call w c ch (l1 ++ l2) now (on_done validated feedback now (ch_sched ch) (w_pool w)))
  | step_stop w c ch :
      w_chains w !! c = Some ch ->
      wstep w (mkWorld (w_pool w) (<[c := mkChain (stop (ch_sched ch)) (ch_dialed ch)]> (w_chains w)) (w_live w) (w_clock w)).

(** The world at the start: [filters] has one entry per chain. *)
Definition initial_world (total per_chain : Z) (filters : list (option (DiscoveredPeer -> bool))) (clock : Z) : World :=
  mkWorld (mkPool total per_chain 0) (map (fun f => mkChain (DialScheduler_new f) []) filters) [] clock.

Definition reachable (w0 w : World) : Prop := rtc wstep w0 w.

(** ** The dial history *)

(** Dials of one node are at least [expiry] apart; newest first. *)
Fixpoint cooled (expiry : Z) (dialed : list (node_id_t * Z)) : Prop :=
  match dialed with
  | [] => True
  | (n, t) :: dialed' => (forall t', (n, t') ∈ dialed' -> t' + expiry <= t) /\ cooled expiry dialed'
  end.

(** At time [now], every dial is past its cooldown or suppressed long enough. *)
Record history_ok (now : Z) (h : DialHistory) (dialed : list (node_id_t * Z)) : Prop := {
  hok_cooled : cooled (expiry_ h) dialed;
  hok_known n t : (n, t) ∈ dialed ->
    t + expiry_ h <= now \/ exists e, entries_ h !! n = Some e /\ t + expiry_ h <= e
}.

Lemma history_ok_later now now' h dialed : now <= now' -> history_ok now h dialed -> history_ok now' h dialed.
Proof. intros Hn [Hc Hk]. split; [done|]. intros n t Hin. destruct (Hk n t Hin); [left; lia|by right]. Qed.

Lemma history_ok_expire now h dialed : history_ok now h dialed -> history_ok now (history_expire now h) dialed.
Proof.
  intros [Hc Hk]. split; [done|]. intros n t Hin. cbn [history_expire expiry_ entries_].
  destruct (Hk n t Hin) as [|(e & He & Ht)]; [by left|]. destruct (decide (e <= now)); [left; lia|].
  right. exists e. split; [|done]. by apply map_lookup_filter_Some_2.
Qed.

Lemma history_contains_false n now h e :
  history_contains n now h = false -> entries_ h !! n = Some e -> e <= now.
Proof. unfold history_contains. intros H E. rewrite E in H. by apply Z.ltb_ge in H. Qed.

Lemma history_ok_add n now h dialed :
  history_contains n now h = false -> history_ok now h dialed ->
  history_ok now (history_add n now h) ((n, now) :: dialed).
Proof.
  intros Hc [Hco Hk]. assert (forall t, (n, t) ∈ dialed -> t + expiry_ h <= now) as Hold.
  { intros t Hin. destruct (Hk n t Hin) as [|(e & He & Ht)]; [done|].
    pose proof (history_contains_false _ _ _ _ Hc He). lia. }
  split; [by split|]. intros m t [[= -> ->]|Hin]%elem_of_cons; cbn [history_add expiry_ entries_].
  - right. exists (now + expiry_ h). split; [apply lookup_insert_eq|lia].
  - destruct (decide (m = n)) as [->|Hne]; [left; by apply Hold|].
    destruct (Hk m t Hin) as [|(e & He & Ht)]; [by left|]. right. exists e. by rewrite lookup_insert_ne.
Qed.

(** ** What a call does to the slots *)

Record advances (now : Z) (s : DialScheduler) (p : WatcherPool) (s' : DialScheduler) (p' : WatcherPool)
    (spawned : list ValidatedPeer) : Prop := {
  adv_active : active s' = active s + Zlen spawned;
  adv_total : active_total p' = active_total p + Zlen spawned;
  adv_max_total : max_total p' = max_total p;
  adv_max_chain : max_per_chain p' = max_per_chain p;
  adv_cap : spawned = [] \/ (active s' <= max_per_chain p /\ active_total p' <= max_total p);
  adv_validated : validated_count s' = validated_count s;
  adv_expiry : expiry_ (dial_history s') = expiry_ (dial_history s);
  adv_history dialed :
    history_ok now (dial_history s) dialed -> history_ok now (dial_history s') (record_dials spawned now dialed)
}.

Lemma advances_refl now s p : advances now s p s p [].
Proof. split; simpl; auto with lia. Qed.

Lemma record_dials_app sp1 sp2 now dialed :
  record_dials (sp1 ++ sp2) now dialed = record_dials sp2 now (record_dials sp1 now dialed).
Proof. unfold record_dials. by rewrite map_app, reverse_app, app_assoc. Qed.

Lemma advances_trans now s p s1 p1 sp1 s2 p2 sp2 :
  advances now s p s1 p1 sp1 -> advances now s1 p1 s2 p2 sp2 -> advances now s p s2 p2 (sp1 ++ sp2).
Proof.
  intros [] []. split; rewrite ?length_app; try lia.
  - destruct adv_cap1 as [->|[? ?]]; [|right; lia]. rewrite app_nil_r. simpl in *.
    destruct adv_cap0 as [?|[? ?]]; [by left|right; lia].
  - intros dialed H. rewrite record_dials_app. auto.
Qed.

Lemma advances_queue now s p q : advances now s p (with_queue q s) p [].
Proof. split; simpl; auto with lia. Qed.

Lemma advances_expire now s p :
  advances now s p (with_history (history_expire now (dial_history s)) s) p [].
Proof. split; simpl; auto with lia. intros. by apply history_ok_expire. Qed.

Lemma advances_start vp now s p s' p' :
  has_slot s p = true -> history_contains (node_id (vp_peer vp)) now (dial_history s) = false ->
  start_dial vp now s p = (s', p') -> advances now s p s' p' [vp].
Proof.
  unfold has_slot. intros Hs Hc [= <- <-]. apply andb_prop in Hs as [H1%Z.ltb_lt H2%Z.ltb_lt].
  split; simpl; try done; try lia. intros. by apply history_ok_add.
Qed.

Lemma enqueue_advances vp now s p s' p' sp : enqueue vp now s p = (s', p', sp) -> advances now s p s' p' sp.
Proof.
  unfold enqueue. destruct (stopping s); [intros [= <- <- <-]; apply advances_refl|].
  case_match; [intros [= <- <- <-]; apply advances_refl|].
  set (s1 := with_history _ s). assert (advances now s p s1 p []) as He by apply advances_expire.
  destruct (history_contains _ now (dial_history s1)) eqn:Ec; [by intros [= <- <- <-]|].
  destruct (has_slot s1 p) eqn:Es.
  - destruct (start_dial vp now s1 p) as [s2 p2] eqn:Ed. intros [= <- <- <-].
    eapply (advances_trans _ _ _ _ _ [] _ _ [vp]); [done|by eapply advances_start].
  - intros [= <- <- <-]. eapply (advances_trans _ _ _ _ _ [] _ _ []); [done|apply advances_queue].
Qed.

Lemma drain_advances q now s p s' p' sp : drain q now s p = (s', p', sp) -> advances now s p s' p' sp.
Proof.
  revert s p s' p' sp. induction q as [|vp q IH]; intros s p s' p' sp; cbn [drain].
  - intros [= <- <- <-]. apply advances_queue.
  - destruct (has_slot s p) eqn:Es; [|intros [= <- <- <-]; apply advances_queue].
    destruct (history_contains _ now _) eqn:Ec; [apply IH|].
    destruct (start_dial vp now s p) as [s1 p1] eqn:Ed. destruct (drain q now s1 p1) as [[s2 p2] sp2] eqn:E2.
    intros [= <- <- <-]. eapply (advances_trans _ _ _ _ _ [vp]); [by eapply advances_start|by apply IH].
Qed.

Lemma enqueue_all_advances vps now s p s' p' sp : enqueue_all vps now s p = (s', p', sp) -> advances now s p s' p' sp.
Proof.
  revert s p s' p' sp. induction vps as [|vp vps IH]; intros s p s' p' sp; cbn [enqueue_all].
  - intros [= <- <- <-]. apply advances_refl.
  - destruct (enqueue vp now s p) as [[s1 p1] sp1] eqn:E1. destruct (enqueue_all vps now s1 p1) as [[s2 p2] sp2] eqn:E2.
    intros [= <- <- <-]. eapply advances_trans; [by apply enqueue_advances in E1|by apply IH].
Qed.

(** [release] after the decrements. *)
Lemma release_advances now s p s' p' sp :
  release now s p = (s', p', sp) ->
  advances now
    (mkScheduler (filter_fn s) (dial_history s) (active s - 1) (validated_count s) (total_validated s)
       (stopping s) (queue s) (active_sessions s))
    (mkPool (max_total p) (max_per_chain p) (active_total p - 1)) s' p' sp.
Proof.
  unfold release. set (s0 := mkScheduler _ _ _ _ _ _ _ _). set (p0 := mkPool _ _ _).
  destruct (stopping s0); [intros [= <- <- <-]; apply advances_refl|].
  intros E%drain_advances. eapply (advances_trans _ _ _ _ _ []); [apply advances_expire|done].
Qed.

(** ** The invariant of the world *)

Definition count_chain (c : nat) (live : list Dial) : Z := Zlen (filter (fun d => d_chain d = c) live).
Definition count_validated (c : nat) (live : list Dial) : Z :=
  Zlen (filter (fun d => d_chain d = c /\ d_validated d = true) live).

Record chain_ok (per_chain : Z) (live : list Dial) (clock : Z) (c : nat) (ch : Chain) : Prop := {
  co_active : active (ch_sched ch) = count_chain c live;
  co_cap : active (ch_sched ch) <= per_chain;
  co_validated : validated_count (ch_sched ch) = count_validated c live;
  co_expiry : expiry_ (dial_history (ch_sched ch)) = kDefaultExpiry;
  co_history : history_ok clock (dial_history (ch_sched ch)) (ch_dialed ch)
}.

Record world_ok (total per_chain : Z) (w : World) : Prop := {
  wo_max_total : max_total (w_pool w) = total;
  wo_max_chain : max_per_chain (w_pool w) = per_chain;
  wo_total : active_total (w_pool w) = Zlen (w_live w);
  wo_cap : Zlen (w_live w) <= total;
  wo_chain c ch : w_chains w !! c = Some ch -> chain_ok per_chain (w_live w) (w_clock w) c ch
}.

Lemma count_chain_app c l1 l2 : count_chain c (l1 ++ l2) = count_chain c l1 + count_chain c l2.
Proof. unfold count_chain. rewrite filter_app, length_app. lia. Qed.

Lemma count_validated_app c l1 l2 : count_validated c (l1 ++ l2) = count_validated c l1 + count_validated c l2.
Proof. unfold count_validated. rewrite filter_app, length_app. lia. Qed.

Lemma count_chain_cons c d l :
  count_chain c (d :: l) = (if decide (d_chain d = c) then 1 else 0) + count_chain c l.
Proof. unfold count_chain. rewrite filter_cons. case_decide; simpl length; lia. Qed.

Lemma count_validated_cons c d l :
  count_validated c (d :: l) = (if decide (d_chain d = c /\ d_validated d = true) then 1 else 0) + count_validated c l.
Proof. unfold count_validated. rewrite filter_cons. case_decide; simpl length; lia. Qed.

Lemma count_chain_new c c' sp : count_chain c' (new_dials c sp) = if decide (c' = c) then Zlen sp else 0.
Proof.
  induction sp as [|vp sp IH]; [by case_decide|]. cbn [new_dials map]. fold (new_dials c sp).
  rewrite count_chain_cons, IH. cbn [d_chain]. repeat case_decide; simpl length; subst; try done; lia.
Qed.

Lemma count_validated_new c c' sp : count_validated c' (new_dials c sp) = 0.
Proof.
  induction sp as [|vp sp IH]; [done|]. cbn [new_dials map]. fold (new_dials c sp).
  rewrite count_validated_cons, IH. cbn [d_chain d_validated]. rewrite decide_False by naive_solver. done.
Qed.

(** A call on chain [c], made in a world that satisfies the invariant. *)
Lemma world_ok_call total per_chain p chains live clock c s dialed now s' p' sp :
  world_ok total per_chain (mkWorld p (<[c := mkChain s dialed]> chains) live clock) ->
  (c < length chains)%nat -> clock <= now -> advances now s p s' p' sp ->
  world_ok total per_chain
    (mkWorld p' (<[c := mkChain s' (record_dials sp now dialed)]> chains) (live ++ new_dials c sp) now).
Proof.
  intros [Hmt Hmc Htot Hcap Hch] Hc Hnow Hadv. cbn [w_pool w_live w_chains w_clock] in *.
  pose proof (Hch c (mkChain s dialed) ltac:(by apply list_lookup_insert_eq)) as [Ha Hac Hv He Hh]. cbn [ch_sched ch_dialed] in *.
  destruct Hadv as [Aa At Amt Amc Acap Av Ae Ah].
  assert (Zlen (live ++ new_dials c sp) = Zlen live + Zlen sp) as Hlen.
  { rewrite length_app. unfold new_dials. rewrite length_map. lia. }
  split; cbn [w_pool w_live w_chains w_clock]; rewrite ?Hlen; try lia.
  - destruct Acap as [->|[_ ?]]; simpl; lia.
  - intros c' ch Hl. destruct (decide (c' = c)) as [->|Hne].
    + rewrite list_lookup_insert_eq in Hl by done. injection Hl as <-. split; cbn [ch_sched ch_dialed].
      * rewrite count_chain_app, count_chain_new, decide_True by done. lia.
      * destruct Acap as [->|[? _]]; simpl in *; lia.
      * rewrite count_validated_app, count_validated_new. lia.
      * congruence.
      * apply Ah. by eapply history_ok_later.
    + rewrite list_lookup_insert_ne in Hl by done.
      destruct (Hch c' ch) as [Ha' Hac' Hv' He' Hh']; [by rewrite list_lookup_insert_ne|]. split.
      * rewrite count_chain_app, count_chain_new, decide_False by done. lia.
      * done.
      * rewrite count_validated_app, count_validated_new. lia.
      * done.
      * by eapply history_ok_later.
Qed.

(** A step that reschedules no dial: chain [c] gets [ch'], and the dials of the
    other chains count as before. *)
Lemma world_ok_update total per_chain p p' chains live live' clock c ch' :
  world_ok total per_chain (mkWorld p chains live clock) ->
  max_total p' = total -> max_per_chain p' = per_chain ->
  active_total p' = Zlen live' -> Zlen live' <= total ->
  chain_ok per_chain live' clock c ch' ->
  (forall c', c' <> c -> count_chain c' live' = count_chain c' live /\ count_validated c' live' = count_validated c' live) ->
  world_ok total per_chain (mkWorld p' (<[c := ch']> chains) live' clock).
Proof.
  intros [Hmt Hmc Htot Hcap Hch] Hmt' Hmc' Htot' Hcap' Hc Hother. split; try done. cbn [w_pool w_live w_chains w_clock] in *.
  intros c' ch Hl. apply list_lookup_insert_Some in Hl as [(-> & <- & _)|(Hne & Hl)]; [done|].
  destruct (Hother c') as [E1 E2]; [done|]. destruct (Hch c' ch Hl). split; rewrite ?E1, ?E2; auto.
Qed.

Lemma world_ok_enter total per_chain w c ch :
  w_chains w !! c = Some ch -> world_ok total per_chain w ->
  world_ok total per_chain (mkWorld (w_pool w) (<[c := mkChain (ch_sched ch) (ch_dialed ch)]> (w_chains w)) (w_live w) (w_clock w)).
Proof. intros Hl Hok. destruct w, ch. simpl in *. by rewrite list_insert_id. Qed.

Ltac count_dials :=
  rewrite ?length_app, ?count_chain_app, ?count_validated_app, ?count_chain_cons, ?count_validated_cons;
  cbn [d_chain d_validated d_reported length];
  repeat (first [rewrite decide_True by naive_solver | rewrite decide_False by naive_solver]).

Lemma world_ok_initial total per_chain filters clock :
  0 <= total -> 0 <= per_chain -> world_ok total per_chain (initial_world total per_chain filters clock).
Proof.
  intros Ht Hp. split; simpl; try done. intros c ch Hl. apply list_lookup_fmap_Some in Hl as (f & -> & _).
  split; try done. split; [done|]. intros n t Hin. by apply not_elem_of_nil in Hin.
Qed.

Lemma world_ok_connected total per_chain w c ch vp reported l1 l2 :
  w_chains w !! c = Some ch -> w_live w = l1 ++ mkDial c vp false reported :: l2 -> world_ok total per_chain w ->
  world_ok total per_chain
    (mkWorld (w_pool w) (<[c := mkChain (on_connected vp (ch_sched ch)) (ch_dialed ch)]> (w_chains w))
       (l1 ++ mkDial c vp true reported :: l2) (w_clock w)).
Proof.
  destruct w as [p chains live clock]. simpl. intros Hl -> Hok. pose proof Hok as [Hmt Hmc Htot Hcap Hch].
  destruct (Hch c ch Hl) as [Ha Hac Hv He Hh]. simpl in *. eapply world_ok_update; try done.
  - rewrite Htot. by count_dials.
  - revert Hcap. by count_dials.
  - revert Ha Hv. count_dials. intros. split; simpl; try done; count_dials; lia.
  - intros c' Hne. by count_dials.
Qed.

Lemma world_ok_reported total per_chain w l1 c vp validated reported l2 :
  w_live w = l1 ++ mkDial c vp validated reported :: l2 -> world_ok total per_chain w ->
  world_ok total per_chain (mkWorld (w_pool w) (w_chains w) (l1 ++ mkDial c vp validated true :: l2) (w_clock w)).
Proof.
  destruct w as [p chains live clock]. simpl. intros -> [Hmt Hmc Htot Hcap Hch]. simpl in *. split; simpl; try done.
  - rewrite Htot. by count_dials.
  - revert Hcap. by count_dials.
  - intros c' ch Hl. destruct (Hch c' ch Hl) as [Ha Hac Hv He Hh]. split; try done.
    + rewrite Ha. by rewrite !count_chain_app, !count_chain_cons.
    + rewrite Hv. by rewrite !count_validated_app, !count_validated_cons.
Qed.

Lemma world_ok_stop total per_chain w c ch :
  w_chains w !! c = Some ch -> world_ok total per_chain w ->
  world_ok total per_chain
    (mkWorld (w_pool w) (<[c := mkChain (stop (ch_sched ch)) (ch_dialed ch)]> (w_chains w)) (w_live w) (w_clock w)).
Proof.
  destruct w as [p chains live clock]. simpl. intros Hl Hok. pose proof Hok as [Hmt Hmc Htot Hcap Hch].
  destruct (Hch c ch Hl). simpl in *. by eapply world_ok_update.
Qed.

(** The end of a dial, between the feedback and the draining of the queue: the
    dial is gone and its slot is free. *)
Lemma world_ok_ended total per_chain p chains l1 l2 clock c vp validated reported s dialed :
  (c < length chains)%nat ->
  world_ok total per_chain
    (mkWorld p (<[c := mkChain s dialed]> chains) (l1 ++ mkDial c vp validated reported :: l2) clock) ->
  world_ok total per_chain
    (mkWorld (mkPool (max_total p) (max_per_chain p) (active_total p - 1))
       (<[c := mkChain (mkScheduler (filter_fn s) (dial_history s) (active s - 1)
                          (validated_count s - if validated then 1 else 0) (total_validated s)
                          (stopping s) (queue s) (active_sessions s)) dialed]> chains) (l1 ++ l2) clock).
Proof.
  intros Hc Hok. pose proof Hok as [Hmt Hmc Htot Hcap Hch].
  destruct (Hch c (mkChain s dialed)) as [Ha Hac Hv He Hh]; [by apply list_lookup_insert_eq|]. simpl in *.
  rewrite <- (list_insert_insert_eq chains c _ (mkChain s dialed)). eapply world_ok_update; try done; simpl.
  - revert Htot. count_dials. lia.
  - revert Hcap. count_dials. lia.
  - destruct validated; revert Ha Hv; count_dials; intros; split; simpl; try done; count_dials; lia.
  - intros c' Hne. by count_dials.
Qed.

(** [on_done] of a dial that is live. *)
Lemma world_ok_done total per_chain w c ch vp validated reported l1 l2 feedback now :
  w_chains w !! c = Some ch -> w_live w = l1 ++ mkDial c vp validated reported :: l2 -> w_clock w <= now ->
  world_ok total per_chain w ->
  world_ok total per_chain (after_call w c ch (l1 ++ l2) now (on_done validated feedback now (ch_sched ch) (w_pool w))).
Proof.
  intros Hl Hlive Hnow Hok%(world_ok_enter _ _ _ _ _ Hl). unfold on_done.
  destruct (enqueue_all feedback now _ _) as [[s1 p1] sp1] eqn:E1. apply enqueue_all_advances in E1.
  rewrite Hlive in Hok. pose proof (lookup_lt_Some _ _ _ Hl) as Hc.
  pose proof (world_ok_call _ _ _ _ _ _ _ _ _ _ _ _ _ Hok Hc Hnow E1) as Hok1.
  rewrite <- app_assoc in Hok1. cbn [app] in Hok1.
  apply world_ok_ended in Hok1; [|done]. set (s1' := if validated then _ else _).
  destruct (release now s1' p1) as [[s2 p2] sp2] eqn:E2. apply release_advances in E2.
  assert (mkScheduler (filter_fn s1') (dial_history s1') (active s1' - 1) (validated_count s1') (total_validated s1')
            (stopping s1') (queue s1') (active_sessions s1')
          = mkScheduler (filter_fn s1) (dial_history s1) (active s1 - 1) (validated_count s1 - if validated then 1 else 0)
              (total_validated s1) (stopping s1) (queue s1) (active_sessions s1)) as Es.
  { subst s1'. destruct validated; simpl; f_equal; lia. }
  rewrite Es in E2.
  pose proof (world_ok_call _ _ _ _ _ _ _ _ _ _ _ _ _ Hok1 Hc (Z.le_refl _) E2) as Hok2.
  unfold after_call. rewrite record_dials_app. unfold new_dials in *. rewrite <- !app_assoc in Hok2. by rewrite map_app, <- !app_assoc.
Qed.

Lemma wstep_world_ok total per_chain w w' : wstep w w' -> world_ok total per_chain w -> world_ok total per_chain w'.
Proof.
  intros Hstep Hok. destruct Hstep as [| |w0 c ch vp reported l1 l2 feedback now Hl Hlive Hnow| |].
  - unfold after_call. destruct (enqueue _ _ _ _) as [[s p] sp] eqn:E. apply enqueue_advances in E.
    eapply world_ok_call; [by eapply world_ok_enter|by eapply lookup_lt_Some|done|done].
  - by eapply world_ok_connected.
  - unfold after_call. destruct (enqueue_all _ _ _ _) as [[s p] sp] eqn:E. apply enqueue_all_advances in E.
    eapply world_ok_call; [|by eapply lookup_lt_Some|done|done].
    eapply (world_ok_enter _ _ (mkWorld (w_pool w0) (w_chains w0) (l1 ++ _ :: l2) (w_clock w0))); [done|].
    by eapply world_ok_reported.
  - by eapply world_ok_done.
  - by eapply world_ok_stop.
Qed.

Lemma reachable_world_ok total per_chain filters clock w :
  0 <= total -> 0 <= per_chain -> reachable (initial_world total per_chain filters clock) w -> world_ok total per_chain w.
Proof.
  intros Ht Hp Hr. pose proof (world_ok_initial total per_chain filters clock Ht Hp) as Hok. revert Hok.
  induction Hr as [|w0 w1 w2 Hs _ IH]; [done|]. intros Hok. apply IH. by eapply wstep_world_ok.
Qed.

(** ** Claims *)

(** C19: In every world the schedulers can reach, whatever the interleaving of
    calls, connections, disconnect messages, ends of dials and stops: the pool
    counts exactly the live dials and never more than [max_total]; every chain
    counts exactly its own live dials, never more than [max_per_chain]; and its
    [validated_count] is the number of its live dials that connected. *)
Theorem slots_exact total per_chain filters clock w :
  0 <= total -> 0 <= per_chain -> reachable (initial_world total per_chain filters clock) w ->
  active_total (w_pool w) = Zlen (w_live w) /\ Zlen (w_live w) <= total /\
  forall c ch, w_chains w !! c = Some ch ->
    active (ch_sched ch) = count_chain c (w_live w) /\ count_chain c (w_live w) <= per_chain /\
    validated_count (ch_sched ch) = count_validated c (w_live w).
Proof.
  intros Ht Hp Hr. destruct (reachable_world_ok _ _ _ _ _ Ht Hp Hr) as [_ _ Htot Hcap Hch].
  split_and!; try done. intros c ch Hl. destruct (Hch c ch Hl) as [Ha Hac Hv _ _]. rewrite <- Ha. done.
Qed.

(** In every reachable world, two dials that one chain ever started to the
    same node are at least [kDefaultExpiry] (35 s) apart, also when the node was
    enqueued, queued or requeued many times in between. *)
Theorem dials_cooled total per_chain filters clock w c ch :
  0 <= total -> 0 <= per_chain -> reachable (initial_world total per_chain filters clock) w ->
  w_chains w !! c = Some ch -> cooled kDefaultExpiry (ch_dialed ch).
Proof.
  intros Ht Hp Hr Hl. destruct (reachable_world_ok _ _ _ _ _ Ht Hp Hr) as [_ _ _ _ Hch].
  destruct (Hch c ch Hl) as [_ _ _ <- []]. done.
Qed.

(** Two chains share one slot: chain 0 dials, chain 1 has to wait, and the dial of
    chain 0 ends. *)
Definition ex_peer (n : byte) : ValidatedPeer := mkValidated (mkPeer [n] "10.0.0.1" 30303 30303 0 None) [n].

Definition ex_dialing : World := after_call (initial_world 1 1 [None; None] 0) 0 (mkChain (DialScheduler_new None) []) [] 1
  (enqueue (ex_peer x01) 1 (DialScheduler_new None) (mkPool 1 1 0)).

Definition ex_waiting : World := after_call ex_dialing 1 (mkChain (DialScheduler_new None) []) (w_live ex_dialing) 2
  (enqueue (ex_peer x02) 2 (DialScheduler_new None) (w_pool ex_dialing)).

Definition ex_sched : DialScheduler :=
  mkScheduler None (history_add [x01] 1 (history_expire 1 (DialHistory_new kDefaultExpiry))) 1 0 0 false [] [].

Definition ex_idle : World := after_call ex_waiting 0 (mkChain ex_sched [([x01], 1)]) [] 3
  (on_done false [] 3 ex_sched (w_pool ex_waiting)).

Lemma ex_dialing_reachable : reachable (initial_world 1 1 [None; None] 0) ex_dialing.
Proof. apply rtc_once. by apply (step_enqueue (initial_world 1 1 [None; None] 0) 0 (mkChain (DialScheduler_new None) []) (ex_peer x01) 1). Qed.

Lemma ex_waiting_reachable : reachable (initial_world 1 1 [None; None] 0) ex_waiting.
Proof.
  eapply rtc_r; [apply ex_dialing_reachable|]. by apply (step_enqueue ex_dialing 1 (mkChain (DialScheduler_new None) []) (ex_peer x02) 2).
Qed.

Lemma ex_idle_reachable : reachable (initial_world 1 1 [None; None] 0) ex_idle.
Proof.
  eapply rtc_r; [apply ex_waiting_reachable|].
  by apply (step_done ex_waiting 0 (mkChain ex_sched [([x01], 1)]) (ex_peer x01) false false [] [] [] 3).
Qed.

Lemma slots_exact_witness :
  active_total (w_pool ex_waiting) = 1 /\
  forall c ch, w_chains ex_waiting !! c = Some ch -> active (ch_sched ch) = count_chain c (w_live ex_waiting).
Proof.
  destruct (slots_exact 1 1 [None; None] 0 ex_waiting ltac:(lia) ltac:(lia) ex_waiting_reachable) as (_ & _ & H).
  split; [reflexivity|]. intros c ch Hl. apply (H c ch Hl).
Defined.

Lemma dials_cooled_witness : cooled kDefaultExpiry [([x01], 1)].
Proof.
  apply (dials_cooled 1 1 [None; None] 0 ex_waiting 0 (mkChain ex_sched [([x01], 1)]) ltac:(lia) ltac:(lia) ex_waiting_reachable).
  reflexivity.
Defined.

(** A queued peer can be stranded.  [release] drains only the queue of the
    chain whose dial ended, although the slot it frees counts for all chains: with
    one slot shared by two chains a world is reachable in which no dial is live,
    all slots are free and no scheduler is stopping, yet the peer of the other
    chain waits in its queue, and no further event of the dials will start it. *)
Theorem queued_peer_stranded :
  exists w ch, reachable (initial_world 1 1 [None; None] 0) w /\
    w_live w = [] /\ active_total (w_pool w) = 0 /\
    w_chains w !! 1%nat = Some ch /\ stopping (ch_sched ch) = false /\ active (ch_sched ch) = 0 /\
    queue (ch_sched ch) = [ex_peer x02].
Proof.
  eexists ex_idle, _. split; [apply ex_idle_reachable|]. split_and!; vm_compute; reflexivity.
Qed.
