(* ===== verification/PeerQueue.v ===== *)
(** * Peer queue

    [include/eth/eth_peer_queue.hpp] and [src/eth/eth_peer_queue.cpp]: the producer
    of dial candidates.  Cached peers, discovered peers and disconnected peers go
    through [enqueue_candidate] to the scheduler of [DialScheduler].

    The state holds the queue, the scheduler it shares with the dials, the pool,
    and a log of the peers handed to [DialScheduler::enqueue].  The events of the
    dials between two calls are operations of the same sequence. *)

From S2P Require Import Prelude EthObjects DialScheduler.

(** ** rlpx_types.hpp *)

Inductive DisconnectReason :=
  | kRequested | kTcpError | kProtocolError | kUselessPeer | kTooManyPeers | kAlreadyConnected
  | kIncompatibleVersion | kInvalidIdentity | kClientQuitting | kUnexpectedIdentity | kSelfConnection
  | kTimeout | kSubprotocolError.

#[global] Instance DisconnectReason_eq_dec : EqDecision DisconnectReason.
Proof. solve_decision. Defined.

(** ** eth_peer_queue.hpp *)

Record EthPeerQueueConfig := mkConfig {
  max_pending_peers : Z;
  max_disconnect_requeues : Z;
  too_many_peers_backoff : Z;
  cache_peer_start_offset : Z
}.

(** Durations are in seconds. *)
Definition default_queue_config : EthPeerQueueConfig := mkConfig 1024 3 1800 0.

(** The counters, by the names of [EthPeerQueueStatsSnapshot]. *)
Inductive counter :=
  | cached_peer_count | discovered_peer_count | requeued_peer_count | duplicate_peer_drop_count
  | capacity_drop_count | flaky_peer_drop_count | too_many_peers_backoff_count | backoff_drop_count
  | disconnect_feedback_count | disconnected_before_connected_count | disconnected_after_connected_count
  | too_many_peers_before_connected_count | too_many_peers_after_connected_count
  | tcp_failure_count | timeout_count | subprotocol_error_count.

#[global] Instance counter_eq_dec : EqDecision counter.
Proof. solve_decision. Defined.

Record EthPeerDisconnectFeedback := mkFeedback {
  fb_peer : ValidatedPeer;
  fb_reason : DisconnectReason;
  fb_was_connected : bool
}.

Record EthPeerQueue := mkPeerQueue {
  config_ : EthPeerQueueConfig;
  discovery_bootnodes_ : list ValidatedPeer;
  seen_node_ids_ : gset string;
  disconnect_counts_ : gmap string Z;
  backoff_until_ : gmap string Z;
  counters_ : counter -> Z
}.

(** The queue with the scheduler it shares, the pool, the peers handed to the
    scheduler (newest first) and the dials spawned by its own calls. *)
Record QueueState := mkState {
  st_queue : EthPeerQueue;
  st_scheduler : option DialScheduler;
  st_pool : WatcherPool;
  st_handed : list ValidatedPeer;
  st_spawned : list ValidatedPeer
}.

Notation Q := (M QueueState Empty_set).

Definition with_peer_queue (f : EthPeerQueue -> EthPeerQueue) : Q unit := fun st =>
  (success tt, mkState (f (st_queue st)) (st_scheduler st) (st_pool st) (st_handed st) (st_spawned st)).

(** [++c]. *)
Definition bump (c : counter) : Q unit := with_peer_queue (fun q =>
  mkPeerQueue (config_ q) (discovery_bootnodes_ q) (seen_node_ids_ q) (disconnect_counts_ q) (backoff_until_ q)
    (fun c' => if decide (c' = c) then u64 (counters_ q c + 1) else counters_ q c')).

Definition set_seen (f : gset string -> gset string) : Q unit := with_peer_queue (fun q =>
  mkPeerQueue (config_ q) (discovery_bootnodes_ q) (f (seen_node_ids_ q)) (disconnect_counts_ q) (backoff_until_ q) (counters_ q)).

Definition set_counts (f : gmap string Z -> gmap string Z) : Q unit := with_peer_queue (fun q =>
  mkPeerQueue (config_ q) (discovery_bootnodes_ q) (seen_node_ids_ q) (f (disconnect_counts_ q)) (backoff_until_ q) (counters_ q)).

Definition set_backoff (f : gmap string Z -> gmap string Z) : Q unit := with_peer_queue (fun q =>
  mkPeerQueue (config_ q) (discovery_bootnodes_ q) (seen_node_ids_ q) (disconnect_counts_ q) (f (backoff_until_ q)) (counters_ q)).

(** ** eth_peer_queue.cpp *)

Definition kHexDigits : string := "0123456789abcdef".

Definition hex_char (i : Z) : Ascii.ascii := default Ascii.zero (String.get (Z.to_nat i) kHexDigits).

Fixpoint node_key (id : list byte) : string :=
  match id with
  | [] => EmptyString
  | b :: id' =>
      String (hex_char (Z.land (Z.shiftr (u8 b) 4) 15)) (String (hex_char (Z.land (u8 b) 15)) (node_key id'))
  end.

Definition peer_key (vp : ValidatedPeer) : string := node_key (node_id (vp_peer vp)).

(** The hand-over to [DialScheduler::enqueue]. *)
Definition hand_over (vp : ValidatedPeer) (now : Z) (s : DialScheduler) : Q unit := fun st =>
  let '(s', p', spawned) := enqueue vp now s (st_pool st) in
  (success tt, mkState (st_queue st) (Some s') p' (vp :: st_handed st) (st_spawned st ++ spawned)).

Definition enqueue_candidate (vp : ValidatedPeer) (allow_known_peer : bool) (now : Z) : Q bool :=
  let key := peer_key vp in
  st ← get_state;
  if match backoff_until_ (st_queue st) !! key with Some until => now <? until | None => false end then
    bump backoff_drop_count ;; mret false
  else
    set_backoff (delete key) ;;
    let fresh := bool_decide (key ∉ seen_node_ids_ (st_queue st)) in
    set_seen (fun seen => {[key]} ∪ seen) ;;
    if negb fresh && negb allow_known_peer then bump duplicate_peer_drop_count ;; mret false else
    match st_scheduler st with
    | None => mret true
    | Some s =>
        let can_start_immediately := has_slot s (st_pool st) in
        if negb can_start_immediately && (max_pending_peers (config_ (st_queue st)) <=? Zlen (queue s)) then
          (if fresh then set_seen (fun seen => seen ∖ {[key]}) else mret tt) ;;
          bump capacity_drop_count ;; mret false
        else hand_over vp now s ;; mret true
    end.

Definition rotate_cached_peers (config : EthPeerQueueConfig) (peers : list ValidatedPeer) : list ValidatedPeer :=
  if (Zlen peers <=? 1) || (cache_peer_start_offset config =? 0) then peers else
  let offset := cache_peer_start_offset config mod Zlen peers in
  if offset =? 0 then peers else
  drop (Z.to_nat offset) peers ++ take (Z.to_nat offset) peers.

(** The inner loop, over the bands that are left; an index outside the vector is a
    fault. *)
Fixpoint spread_bands (peers : list ValidatedPeer) (band_count offset : Z) (bands : list Z) : option (list ValidatedPeer) :=
  match bands with
  | [] => Some []
  | band :: bands' =>
      let begin := u64 (Zlen peers * band) / band_count in
      let end_ := u64 (Zlen peers * (band + 1)) / band_count in
      let index := u64 (begin + offset) in
      row ← (if index <? end_ then vp ← peers !! Z.to_nat index; Some [vp] else Some []);
      rest ← spread_bands peers band_count offset bands';
      Some (row ++ rest)
  end.

(** The outer loop, with fuel. *)
Fixpoint spread_loop (fuel : nat) (peers : list ValidatedPeer) (band_count offset : Z) (spread : list ValidatedPeer) :
    outcome Empty_set (list ValidatedPeer) :=
  if Zlen spread <? Zlen peers then
    match fuel with
    | O => crash Diverge
    | S fuel' =>
        match spread_bands peers band_count offset (seqZ 0 band_count) with
        | None => crash OutOfBounds
        | Some row => spread_loop fuel' peers band_count (u64 (offset + 1)) (spread ++ row)
        end
    end
  else success spread.

Definition spread_cached_peers_for_dial_slots (slots : option Z) (peers : list ValidatedPeer) :
    outcome Empty_set (list ValidatedPeer) :=
  match slots with
  | None => success peers
  | Some configured_slots =>
      if Zlen peers <=? 1 then success peers else
      if configured_slots <=? 1 then success peers else
      let band_count := Z.min (Zlen peers) configured_slots in
      if band_count <=? 1 then success peers else
      spread_loop (length peers) peers band_count 0 []
  end.

(** The loop of [preload_cached_peers]. *)
Fixpoint preload_all (peers : list ValidatedPeer) (now : Z) : Q unit :=
  match peers with
  | [] => mret tt
  | vp :: peers' =>
      accepted ← enqueue_candidate vp false now;
      (if accepted : bool then bump cached_peer_count else mret tt) ;;
      preload_all peers' now
  end.

Definition preload_cached_peers (peers : list ValidatedPeer) (now : Z) : Q unit :=
  st ← get_state;
  let rotated_peers := rotate_cached_peers (config_ (st_queue st)) peers in
  let slots := if st_scheduler st then Some (max_per_chain (st_pool st)) else None in
  spread_peers ← lift (spread_cached_peers_for_dial_slots slots rotated_peers);
  preload_all spread_peers now.

Definition set_discovery_bootnodes (bootnodes : list ValidatedPeer) : Q unit := with_peer_queue (fun q =>
  mkPeerQueue (config_ q) bootnodes (seen_node_ids_ q) (disconnect_counts_ q) (backoff_until_ q) (counters_ q)).

Definition enqueue_discovered_peer (peer : DiscoveredPeer) (now : Z) : Q bool :=
  accepted ← enqueue_candidate (mkValidated peer (node_id peer)) false now;
  if accepted : bool then bump discovered_peer_count ;; mret true else mret false.

(** [discovery::ValidatedPeer] has the fields of [DiscoveredPeer], which are copied
    one by one. *)
Definition enqueue_validated_discovery_peer (peer : DiscoveredPeer) (now : Z) : Q bool :=
  let candidate := mkPeer (node_id peer) (peer_ip peer) (udp_port peer) (tcp_port peer) (last_seen peer)
    (match eth_fork_id peer with
     | Some f => Some (mkPeerForkId (fork_hash_4 f) (fork_next f))
     | None => None
     end) in
  accepted ← enqueue_candidate (mkValidated candidate (node_id peer)) false now;
  if accepted : bool then bump discovered_peer_count ;; mret true else mret false.

Definition is_requeueable_disconnect (feedback : EthPeerDisconnectFeedback) : bool :=
  match fb_reason feedback with
  | kTcpError | kTimeout => fb_was_connected feedback
  | _ => false
  end.

(** The [switch] of [report_peer_disconnected]. *)
Definition count_reason (feedback : EthPeerDisconnectFeedback) : Q unit :=
  match fb_reason feedback with
  | kTooManyPeers =>
      bump (if fb_was_connected feedback then too_many_peers_after_connected_count else too_many_peers_before_connected_count)
  | kTcpError => bump tcp_failure_count
  | kTimeout => bump timeout_count
  | kSubprotocolError => bump subprotocol_error_count
  | _ => mret tt
  end.

(** [report_peer_disconnected] behind its counters. *)
Definition requeue_disconnected (feedback : EthPeerDisconnectFeedback) (now : Z) : Q bool :=
  let key := peer_key (fb_peer feedback) in
  st ← get_state;
  let config := config_ (st_queue st) in
  if decide (fb_reason feedback = kTooManyPeers) then
    set_backoff (fun m => <[key := now + too_many_peers_backoff config]> m) ;;
    bump too_many_peers_backoff_count ;; mret false
  else if negb (is_requeueable_disconnect feedback) then mret false
  else
    let disconnect_count := default 0 (disconnect_counts_ (st_queue st) !! key) in
    set_counts (fun m => <[key := disconnect_count]> m) ;;
    if max_disconnect_requeues config <=? disconnect_count then bump flaky_peer_drop_count ;; mret false else
    set_counts (fun m => <[key := u64 (disconnect_count + 1)]> m) ;;
    accepted ← enqueue_candidate (fb_peer feedback) true now;
    if accepted : bool then bump requeued_peer_count ;; mret true else mret false.

Definition report_peer_disconnected (feedback : EthPeerDisconnectFeedback) (now : Z) : Q bool :=
  bump disconnect_feedback_count ;;
  bump (if fb_was_connected feedback then disconnected_after_connected_count else disconnected_before_connected_count) ;;
  count_reason feedback ;;
  requeue_disconnected feedback now.

Definition discovery_bootnodes (q : EthPeerQueue) : list ValidatedPeer := discovery_bootnodes_ q.

Definition needs_discovery (q : EthPeerQueue) : bool :=
  (counters_ q cached_peer_count =? 0) && negb (bool_decide (length (discovery_bootnodes_ q) = 0%nat)).

Definition stats (q : EthPeerQueue) (c : counter) : Z := counters_ q c.

(** The constructor; the scheduler's feedback function becomes
    [report_peer_disconnected]. *)
Definition EthPeerQueue_new (scheduler : option DialScheduler) (pool : WatcherPool) (config : EthPeerQueueConfig) : QueueState :=
  mkState (mkPeerQueue config [] ∅ ∅ ∅ (fun _ => 0)) scheduler pool [] [].

Definition make_eth_peer_queue (nodes bootnodes : list ValidatedPeer) (preload : bool) (now : Z) : Q unit :=
  set_discovery_bootnodes bootnodes ;;
  if preload then preload_cached_peers nodes now else mret tt.

(** ** Sequences of operations *)

(** The calls of the producers, and the events of the dials and of the other
    chains that share the pool. *)
Inductive queue_op :=
  | OpPreload (peers : list ValidatedPeer)
  | OpBootnodes (bootnodes : list ValidatedPeer)
  | OpDiscovered (peer : DiscoveredPeer)
  | OpValidated (peer : DiscoveredPeer)
  | OpDisconnected (feedback : EthPeerDisconnectFeedback)
  | OpConnected (vp : ValidatedPeer)
  | OpDone (was_validated : bool)
  | OpStop
  | OpOtherChains (active_total : Z).

(** An event of the dials; [feedback_fn] has been called by [OpDisconnected]. *)
Definition sched_event (f : DialScheduler -> WatcherPool -> sched_result) : Q unit := fun st =>
  match st_scheduler st with
  | None => (success tt, st)
  | Some s =>
      let '(s', p', spawned) := f s (st_pool st) in
      (success tt, mkState (st_queue st) (Some s') p' (st_handed st) (st_spawned st ++ spawned))
  end.

Definition run_queue_op (op : queue_op) (now : Z) : Q unit :=
  match op with
  | OpPreload peers => preload_cached_peers peers now
  | OpBootnodes bootnodes => set_discovery_bootnodes bootnodes
  | OpDiscovered peer => enqueue_discovered_peer peer now ;; mret tt
  | OpValidated peer => enqueue_validated_discovery_peer peer now ;; mret tt
  | OpDisconnected feedback => report_peer_disconnected feedback now ;; mret tt
  | OpConnected vp => sched_event (fun s p => (on_connected vp s, p, []))
  | OpDone was_validated => sched_event (on_done was_validated [] now)
  | OpStop => sched_event (fun s p => (stop s, p, []))
  | OpOtherChains total => sched_event (fun s p => (s, mkPool (max_total p) (max_per_chain p) total, []))
  end.

Fixpoint run_queue (ops : list (queue_op * Z)) : Q unit :=
  match ops with
  | [] => mret tt
  | (op, now) :: ops' => run_queue_op op now ;; run_queue ops'
  end.

(** ** The order of the cached peers *)

Lemma rotate_permutation config peers : rotate_cached_peers config peers ≡ₚ peers.
Proof.
  unfold rotate_cached_peers. case_match; [done|]. case_match; [done|].
  rewrite Permutation_app_comm. by rewrite take_drop.
Qed.

(** Reading a list of lists by columns. *)
Lemma columns_step {A} (segs : list (list A)) K :
  concat (take K <$> segs) ++ omap (.!! K) segs ≡ₚ concat (take (S K) <$> segs).
Proof.
  induction segs as [|s segs IH]; [done|]. cbn [fmap list_fmap concat omap list_omap].
  rewrite <- IH. destruct (s !! K) as [x|] eqn:E.
  - rewrite (take_S_r _ _ _ E). solve_Permutation.
  - apply lookup_ge_None in E. rewrite !take_ge by lia. solve_Permutation.
Qed.

Lemma columns_submseteq {A} (segs : list (list A)) K : concat (take K <$> segs) ⊆+ concat segs.
Proof.
  induction segs as [|s segs IH]; [done|]. cbn [fmap list_fmap concat].
  apply submseteq_app; [|done]. apply sublist_submseteq. rewrite <- (take_drop K s) at 2.
  by apply sublist_inserts_r.
Qed.

Section spread.
Context (peers : list ValidatedPeer) (band_count : Z).
Hypothesis Hsize : Zlen peers < 2 ^ 32.
Hypothesis Hbands : 0 < band_count <= Zlen peers.

Definition bound (band : Z) : nat := Z.to_nat (Zlen peers * band / band_count).
Definition segment (band : Z) : list ValidatedPeer := take (bound (band + 1) - bound band) (drop (bound band) peers).

Lemma bound_mono b : 0 <= b -> (bound b <= bound (b + 1))%nat.
Proof. intros. unfold bound. apply Z2Nat.inj_le; [apply Z.div_pos; nia..|]. apply Z.div_le_mono; nia. Qed.

Lemma bound_le b : 0 <= b <= band_count -> (bound b <= length peers)%nat.
Proof.
  intros. unfold bound. rewrite <- (Nat2Z.id (length peers)) at 2. apply Z2Nat.inj_le; [apply Z.div_pos; nia|lia|].
  apply Z.div_le_upper_bound; nia.
Qed.

Lemma segment_lookup b o :
  segment b !! o = if decide (bound b + o < bound (b + 1))%nat then peers !! (bound b + o)%nat else None.
Proof.
  unfold segment. case_decide.
  - rewrite lookup_take_lt by lia. by rewrite lookup_drop.
  - by rewrite lookup_take_ge by lia.
Qed.

Lemma segments_concat k :
  Z.of_nat k <= band_count -> concat (segment <$> seqZ 0 (Z.of_nat k)) = take (bound (Z.of_nat k)) peers.
Proof.
  induction k as [|k IH]; intros Hk.
  - unfold bound. rewrite Z.mul_0_r, Zdiv_0_l. done.
  - rewrite Nat2Z.inj_succ, <- Z.add_1_r, seqZ_app by lia. rewrite fmap_app, concat_app, IH by lia. simpl.
    rewrite app_nil_r. rewrite !Nat2Z.inj_0, !Z.add_0_l. unfold segment.
    pose proof (bound_mono (Z.of_nat k) ltac:(lia)).
    rewrite take_take_drop. f_equal. lia.
Qed.

Lemma segments_all : concat (segment <$> seqZ 0 band_count) = peers.
Proof.
  pose proof (segments_concat (Z.to_nat band_count)) as H. rewrite Z2Nat.id in H by lia. rewrite H by lia.
  apply take_ge. unfold bound. rewrite Z.div_mul by lia. lia.
Qed.

Lemma spread_bands_row o bands :
  (o <= length peers)%nat -> Forall (fun b => 0 <= b < band_count) bands ->
  spread_bands peers band_count (Z.of_nat o) bands = Some (omap (.!! o) (segment <$> bands)).
Proof.
  intros Ho. induction bands as [|b bands IH]; intros Hb; [done|]. apply Forall_cons in Hb as [Hb Hbs].
  cbn [spread_bands fmap list_fmap omap list_omap]. rewrite (IH Hbs), segment_lookup.
  assert (forall x, 0 <= x <= band_count -> u64 (Zlen peers * x) / band_count = Z.of_nat (bound x)) as Hbd.
  { intros x Hx. unfold bound. rewrite u64_small by nia. rewrite Z2Nat.id; [done|]. apply Z.div_pos; nia. }
  rewrite !Hbd by lia. pose proof (bound_le b ltac:(lia)). pose proof (bound_le (b + 1) ltac:(lia)).
  rewrite u64_small by lia. rewrite <- Nat2Z.inj_add, Nat2Z.id.
  destruct (Z.ltb_spec (Z.of_nat (bound b + o)) (Z.of_nat (bound (b + 1)))); case_decide; try lia; [|done].
  destruct (lookup_lt_is_Some_2 peers (bound b + o)) as [vp E]; [lia|]. by rewrite E.
Qed.

Lemma segment_whole K b : (length peers <= K)%nat -> take K (segment b) = segment b.
Proof. intros. apply take_ge. unfold segment. rewrite length_take, length_drop. lia. Qed.

Lemma spread_loop_permutation fuel K spread :
  (K + fuel = length peers)%nat -> spread ≡ₚ concat (take K <$> (segment <$> seqZ 0 band_count)) ->
  exists l, spread_loop fuel peers band_count (Z.of_nat K) spread = success l /\ l ≡ₚ peers.
Proof.
  revert K spread. induction fuel as [|fuel IH]; intros K spread HK Hp; cbn [spread_loop];
    destruct (Z.ltb_spec (Zlen spread) (Zlen peers)).
  - exfalso. apply Permutation_length in Hp. revert Hp. rewrite <- list_fmap_compose.
    rewrite (list_fmap_ext _ segment); [rewrite segments_all; lia|]. intros. by apply segment_whole; lia.
  - exists spread. split; [done|].
    pose proof (columns_submseteq (segment <$> seqZ 0 band_count) K) as Hs. rewrite segments_all, <- Hp in Hs.
    apply submseteq_length_Permutation; [done|lia].
  - rewrite spread_bands_row; [|lia|apply Forall_forall; intros ? ?%elem_of_seqZ; lia].
    rewrite u64_small by lia. replace (Z.of_nat K + 1) with (Z.of_nat (S K)) by lia. apply IH; [lia|].
    rewrite <- columns_step. by rewrite Hp.
  - exists spread. split; [done|].
    pose proof (columns_submseteq (segment <$> seqZ 0 band_count) K) as Hs. rewrite segments_all, <- Hp in Hs.
    apply submseteq_length_Permutation; [done|lia].
Qed.
End spread.

Lemma spread_permutation slots peers :
  Zlen peers < 2 ^ 32 -> exists l, spread_cached_peers_for_dial_slots slots peers = success l /\ l ≡ₚ peers.
Proof.
  intros Hs. unfold spread_cached_peers_for_dial_slots. destruct slots as [slots|]; [|by exists peers].
  repeat (case_match; [by exists peers|]). zbool.
  apply (spread_loop_permutation peers (Z.min (Zlen peers) slots) Hs ltac:(lia) (length peers) 0); [lia|].
  induction (seqZ _ _); [done|]. done.
Qed.

(** ** Invariants of the queue *)

(** [m] returns and keeps [I]. *)
Definition keeps {A} (I : QueueState -> Prop) (m : Q A) : Prop :=
  forall st, I st -> exists a st', m st = (success a, st') /\ I st'.

Lemma keeps_ret {A} I (a : A) : keeps I (mret a).
Proof. intros st Hi. by exists a, st. Qed.

Lemma keeps_bind {A B} I (m : Q A) (k : A -> Q B) : keeps I m -> (forall a, keeps I (k a)) -> keeps I (m ≫= k).
Proof.
  intros Hm Hk st Hi. destruct (Hm st Hi) as (a & st1 & E & Hi1). rewrite (bind_success _ _ _ _ _ E). by apply Hk.
Qed.

(** An event of the dials never makes the scheduler's queue longer. *)
Definition shrinks (f : DialScheduler -> WatcherPool -> sched_result) : Prop :=
  forall s p, (length (queue (f s p).1.1) <= length (queue s))%nat.

(** What a predicate has to satisfy to hold while peers are enqueued at clock readings
    that satisfy [when]. *)
Class EnqueueInvariant (when : Z -> Prop) (I : QueueState -> Prop) := {
  ei_bump c : keeps I (bump c);
  ei_candidate vp now : when now -> keeps I (enqueue_candidate vp false now)
}.

(** What it has to satisfy to hold throughout a sequence of operations. *)
Class QueueInvariant (when : Z -> Prop) (I : QueueState -> Prop) := {
  qi_bump c : keeps I (bump c);
  qi_bootnodes l : keeps I (set_discovery_bootnodes l);
  qi_candidate vp now : when now -> keeps I (enqueue_candidate vp false now);
  qi_report fb now : when now -> keeps I (report_peer_disconnected fb now);
  qi_event f : shrinks f -> keeps I (sched_event f)
}.

Lemma drain_shrinks q now s p : (length (queue (drain q now s p).1.1) <= length q)%nat.
Proof.
  revert s p. induction q as [|vp q IH]; intros s p; cbn [drain]; [done|].
  destruct (has_slot s p); [|done]. destruct (history_contains _ _ _); [specialize (IH s p); simpl; lia|].
  destruct (start_dial vp now s p) as [s1 p1]. specialize (IH s1 p1).
  destruct (drain q now s1 p1) as [[s2 p2] sp]. simpl in *. lia.
Qed.

Lemma release_shrinks now : shrinks (release now).
Proof. intros s p. unfold release. cbn [stopping queue]. case_match; [done|]. apply drain_shrinks. Qed.

Lemma on_done_shrinks validated now : shrinks (on_done validated [] now).
Proof.
  intros s p. unfold on_done. cbn [enqueue_all].
  set (s1 := if validated then _ else s). pose proof (release_shrinks now s1 p) as H.
  destruct (release now s1 p) as [[s2 p2] sp]. simpl in *.
  replace (queue s) with (queue s1); [done|]. subst s1. by destruct validated.
Qed.

(** The bound on the arithmetic of the spreading loop. *)
Definition op_fits (op : queue_op) : Prop :=
  match op with OpPreload peers => Zlen peers < 2 ^ 32 | _ => True end.

#[global] Instance queue_enqueue_invariant when I : QueueInvariant when I -> EnqueueInvariant when I.
Proof. intros Hq. split; [apply qi_bump|apply qi_candidate]. Qed.

Section enqueue.
Context {when : Z -> Prop} {I : QueueState -> Prop} `{!EnqueueInvariant when I}.

Lemma preload_keeps peers now : when now -> Zlen peers < 2 ^ 32 -> keeps I (preload_cached_peers peers now).
Proof.
  intros Hw Hp st Hi. unfold preload_cached_peers. rewrite (bind_success _ _ _ _ _ (eq_refl : get_state st = _)).
  set (rotated := rotate_cached_peers _ peers).
  assert (Zlen rotated < 2 ^ 32) as Hr by (subst rotated; by rewrite rotate_permutation).
  set (slots := if st_scheduler st then _ else _).
  destruct (spread_permutation slots rotated Hr) as (l & E & _).
  erewrite bind_success; [|unfold lift; by rewrite E]. clear -EnqueueInvariant0 Hw Hi. revert st Hi.
  change (keeps I (preload_all l now)). induction l as [|vp l IH]; [apply keeps_ret|].
  apply keeps_bind; [by apply ei_candidate|]. intros accepted. apply keeps_bind; [|done].
  destruct accepted; [apply ei_bump|apply keeps_ret].
Qed.

Lemma discovered_keeps peer now : when now -> keeps I (enqueue_discovered_peer peer now).
Proof.
  intros Hw. apply keeps_bind; [by apply ei_candidate|]. intros [|]; [|apply keeps_ret].
  apply keeps_bind; [apply ei_bump|]. intros. apply keeps_ret.
Qed.

Lemma validated_keeps peer now : when now -> keeps I (enqueue_validated_discovery_peer peer now).
Proof.
  intros Hw. apply keeps_bind; [by apply ei_candidate|]. intros [|]; [|apply keeps_ret].
  apply keeps_bind; [apply ei_bump|]. intros. apply keeps_ret.
Qed.

End enqueue.

Section run.
Context {when : Z -> Prop} {I : QueueState -> Prop} `{!QueueInvariant when I}.

Lemma run_op_keeps op now : when now -> op_fits op -> keeps I (run_queue_op op now).
Proof.
  intros Hw Hf. destruct op; cbn [run_queue_op].
  - by apply preload_keeps.
  - apply qi_bootnodes.
  - apply keeps_bind; [by apply discovered_keeps|]. intros. apply keeps_ret.
  - apply keeps_bind; [by apply validated_keeps|]. intros. apply keeps_ret.
  - apply keeps_bind; [by apply qi_report|]. intros. apply keeps_ret.
  - apply qi_event. by intros s p.
  - apply qi_event, on_done_shrinks.
  - apply qi_event. intros s p. simpl. lia.
  - apply qi_event. by intros s p.
Qed.

Lemma run_queue_keeps ops :
  Forall (fun e => when e.2 /\ op_fits e.1) ops -> keeps I (run_queue ops).
Proof.
  induction 1 as [|[op now] ops [Hw Hf] _ IH]; [apply keeps_ret|].
  apply keeps_bind; [by apply run_op_keeps|]. done.
Qed.
End run.

(** *** Bounds *)

(** How often a node was handed to the scheduler. *)
Definition handed (key : string) (st : QueueState) : Z := Zlen (filter (fun vp => peer_key vp = key) (st_handed st)).

(** The bounds, with one hand-over of the node [reserve] still to come. *)
Record queue_ok (config : EthPeerQueueConfig) (reserve : option string) (st : QueueState) : Prop := {
  ok_config : config_ (st_queue st) = config;
  ok_pending s : st_scheduler st = Some s -> Zlen (queue s) <= max_pending_peers config;
  ok_counts k c : disconnect_counts_ (st_queue st) !! k = Some c -> 0 <= c <= max_disconnect_requeues config;
  ok_handed k : handed k st + (if decide (reserve = Some k) then 1 else 0) <=
    (if decide (k ∈ seen_node_ids_ (st_queue st)) then 1 else 0) + default 0 (disconnect_counts_ (st_queue st) !! k)
}.

Lemma handed_cons key vp st s p q sp :
  handed key (mkState q s p (vp :: st_handed st) sp) = (if decide (peer_key vp = key) then 1 else 0) + handed key st.
Proof. unfold handed. cbn [st_handed]. rewrite filter_cons. case_decide; simpl length; lia. Qed.

Lemma enqueue_queue vp now s p :
  (length (queue (enqueue vp now s p).1.1) <= length (queue s) + if has_slot s p then 0 else 1)%nat.
Proof.
  unfold enqueue. change (has_slot (with_history _ s) p) with (has_slot s p).
  repeat (case_match; try (simpl; lia)); simplify_eq; simpl; rewrite ?length_app; simpl; lia.
Qed.

(** The end of [enqueue_candidate]: the peer goes to the scheduler. *)
Lemma hand_over_spec vp now s st :
  exists s' p' sp,
    hand_over vp now s st = (success tt, mkState (st_queue st) (Some s') p' (vp :: st_handed st) sp) /\
    (length (queue s') <= length (queue s) + if has_slot s (st_pool st) then 0 else 1)%nat.
Proof.
  unfold hand_over. pose proof (enqueue_queue vp now s (st_pool st)) as H.
  destruct (enqueue vp now s (st_pool st)) as [[s' p'] sp]. eauto 6.
Qed.

(** [enqueue_candidate] by its exits: the peer is dropped while its backoff lasts;
    it is dropped as a duplicate or for lack of room; or it is accepted. *)
Inductive candidate_exit (vp : ValidatedPeer) (allow : bool) (now : Z) (st : QueueState) : bool -> QueueState -> Prop :=
  | exit_backoff until cs :
      backoff_until_ (st_queue st) !! peer_key vp = Some until -> now < until ->
      candidate_exit vp allow now st false
        (mkState (mkPeerQueue (config_ (st_queue st)) (discovery_bootnodes_ (st_queue st)) (seen_node_ids_ (st_queue st))
                    (disconnect_counts_ (st_queue st)) (backoff_until_ (st_queue st)) cs)
           (st_scheduler st) (st_pool st) (st_handed st) (st_spawned st))
  | exit_drop cs seen :
      seen = seen_node_ids_ (st_queue st) ->
      (forall until, backoff_until_ (st_queue st) !! peer_key vp = Some until -> until <= now) ->
      candidate_exit vp allow now st false
        (mkState (mkPeerQueue (config_ (st_queue st)) (discovery_bootnodes_ (st_queue st)) seen
                    (disconnect_counts_ (st_queue st)) (delete (peer_key vp) (backoff_until_ (st_queue st))) cs)
           (st_scheduler st) (st_pool st) (st_handed st) (st_spawned st))
  | exit_accept sched p h sp :
      (forall until, backoff_until_ (st_queue st) !! peer_key vp = Some until -> until <= now) ->
      peer_key vp ∉ seen_node_ids_ (st_queue st) \/ allow = true ->
      h = st_handed st \/ h = vp :: st_handed st ->
      (forall s', sched = Some s' -> exists s, st_scheduler st = Some s /\
         (Zlen (queue s') <= Zlen (queue s) \/ Zlen (queue s') <= max_pending_peers (config_ (st_queue st)))) ->
      candidate_exit vp allow now st true
        (mkState (mkPeerQueue (config_ (st_queue st)) (discovery_bootnodes_ (st_queue st))
                    ({[peer_key vp]} ∪ seen_node_ids_ (st_queue st)) (disconnect_counts_ (st_queue st))
                    (delete (peer_key vp) (backoff_until_ (st_queue st))) (counters_ (st_queue st)))
           sched p h sp).

Ltac qsimpl :=
  cbn [st_queue st_scheduler st_pool st_handed st_spawned config_ discovery_bootnodes_ seen_node_ids_ disconnect_counts_
       backoff_until_ counters_] in *.

Lemma enqueue_candidate_exit vp (allow : bool) now st :
  exists b st', enqueue_candidate vp allow now st = (success b, st') /\ candidate_exit vp allow now st b st'.
Proof.
  destruct st as [[config bootnodes seen counts backoff cs] sched p h sp]. unfold enqueue_candidate, get_state, bump, set_backoff, set_seen, with_peer_queue, mbind, M_bind.
  qsimpl.
  assert (forall b, match backoff !! peer_key vp with Some until => now <? until | None => false end = b ->
    if b then exists until, backoff !! peer_key vp = Some until /\ now < until
    else forall until, backoff !! peer_key vp = Some until -> until <= now) as Hb.
  { intros b <-. destruct (backoff !! peer_key vp) as [u|]; [|done].
    destruct (Z.ltb_spec now u); [eauto|]. naive_solver lia. }
  destruct (match backoff !! peer_key vp with Some until => now <? until | None => false end); specialize (Hb _ eq_refl).
  { destruct Hb as (u & Eu & Hu). do 2 eexists. split; [reflexivity|]. qsimpl. by eapply exit_backoff. }
  set (fresh := bool_decide _).
  destruct (negb fresh && negb allow) eqn:Ea.
  { do 2 eexists. split; [reflexivity|]. qsimpl. apply exit_drop; [|done]. subst fresh. case_bool_decide; [done|]. set_solver. }
  assert (peer_key vp ∉ seen \/ allow = true) as Hnew.
  { subst fresh. case_bool_decide; [by left|]. right. by destruct allow. }
  destruct sched as [s|]; [|do 2 eexists; split; [reflexivity|]; qsimpl; apply exit_accept; auto; done].
  destruct (negb (has_slot s p) && _) eqn:Ec.
  { destruct fresh eqn:Ef; (do 2 eexists; split; [reflexivity|]); qsimpl; subst fresh.
    - apply bool_decide_eq_true in Ef. apply exit_drop; [simpl; set_solver|done].
    - apply bool_decide_eq_false, dec_stable in Ef. apply exit_drop; [simpl; set_solver|done]. }
  match goal with |- context [hand_over vp now s ?st] => destruct (hand_over_spec vp now s st) as (s' & p' & sp' & -> & Hq) end.
  do 2 eexists. split; [reflexivity|]. qsimpl. apply exit_accept; auto. intros ? [= <-]. exists s. split; [done|].
  qsimpl. destruct (has_slot s p); [left; lia|]. right. cbn [negb andb] in Ec. zbool. lia.
Qed.

Lemma queue_ok_unreserve config r st : queue_ok config r st -> queue_ok config None st.
Proof. intros []. split; auto. intros k. specialize (ok_handed0 k). rewrite decide_False by done. case_decide; lia. Qed.

Lemma queue_ok_counters config r q sched p h sp bootnodes bk cs :
  queue_ok config r (mkState q sched p h sp) ->
  queue_ok config r
    (mkState (mkPeerQueue (config_ q) bootnodes (seen_node_ids_ q) (disconnect_counts_ q) bk cs) sched p h sp).
Proof. intros []. by split. Qed.

Lemma candidate_ok config vp (allow : bool) now st :
  queue_ok config (if allow then Some (peer_key vp) else None) st ->
  exists b st', enqueue_candidate vp allow now st = (success b, st') /\ queue_ok config None st'.
Proof.
  intros Hok. destruct (enqueue_candidate_exit vp allow now st) as (b & st' & E & Hexit). exists b, st'. split; [done|].
  pose proof (queue_ok_unreserve _ _ _ Hok) as Hok'. destruct st as [q sched p h sp].
  destruct Hexit as [u cs _ _|cs seen -> _|sched' p' h' sp' Hb Hnew Hh Hs]; qsimpl; [by apply queue_ok_counters..|].
  destruct Hok as [Hcfg Hpend Hcounts Hhanded]. qsimpl. split; qsimpl; auto.
  - intros s' ->. destruct (Hs s' eq_refl) as (s & -> & [Hq|Hq]); [specialize (Hpend s eq_refl); lia|by rewrite <- Hcfg].
  - intros k. specialize (Hhanded k). rewrite (decide_False (P := None = Some k)) by done.
    assert (handed k (mkState q sched p h' sp) <= handed k (mkState q sched p h sp) + if decide (peer_key vp = k) then 1 else 0) as Hh'.
    { clear Hhanded. unfold handed. cbn [st_handed]. destruct Hh as [->| ->]; [|rewrite filter_cons]; case_decide; simpl length; lia. }
    unfold handed in *. cbn [st_handed] in *. destruct (decide (peer_key vp = k)) as [<-|Hne].
    + rewrite (decide_True (P := peer_key vp ∈ {[peer_key vp]} ∪ _)) by set_solver.
      destruct Hnew as [Hnew| ->]; repeat case_decide; first [done|lia].
    + rewrite (decide_ext _ (k ∈ seen_node_ids_ q)) by set_solver. repeat case_decide; lia.
Qed.

Lemma bump_ok config r c : keeps (queue_ok config r) (bump c).
Proof. intros [q sched p h sp] Hok. do 2 eexists. split; [reflexivity|]. by apply queue_ok_counters. Qed.

Lemma backoff_ok config r f : keeps (queue_ok config r) (set_backoff f).
Proof. intros [q sched p h sp] Hok. do 2 eexists. split; [reflexivity|]. by apply queue_ok_counters. Qed.

(** [bump c; return b]. *)
Lemma keeps_bump_ret {A} I c (b : A) : (forall c, keeps I (bump c)) -> keeps I (bump c ;; mret b).
Proof. intros Hb. apply keeps_bind; [apply Hb|]. intros. apply keeps_ret. Qed.

Lemma count_reason_ok I fb : (forall c, keeps I (bump c)) -> keeps I (count_reason fb).
Proof. intros Hb. unfold count_reason. destruct (fb_reason fb); first [apply Hb|apply keeps_ret]. Qed.

Lemma report_keeps I fb now :
  (forall c, keeps I (bump c)) -> keeps I (requeue_disconnected fb now) -> keeps I (report_peer_disconnected fb now).
Proof.
  intros Hb Hr. unfold report_peer_disconnected. apply keeps_bind; [apply Hb|]. intros _.
  apply keeps_bind; [apply Hb|]. intros _. apply keeps_bind; [by apply count_reason_ok|]. by intros _.
Qed.

(** Raising the disconnect count of a node makes room for one more hand-over. *)
Lemma queue_ok_count config (r : bool) key c st :
  queue_ok config None st ->
  0 <= default 0 (disconnect_counts_ (st_queue st) !! key) + (if r then 1 else 0) <= c -> c <= max_disconnect_requeues config ->
  exists st', set_counts (fun m => <[key := c]> m) st = (success tt, st') /\
    queue_ok config (if r then Some key else None) st' /\ disconnect_counts_ (st_queue st') !! key = Some c /\
    config_ (st_queue st') = config_ (st_queue st).
Proof.
  destruct st as [q sched p h sp]. intros [Hcfg Hpend Hcounts Hhanded] Hlo Hhi. qsimpl.
  eexists. split; [reflexivity|]. split; [|split; [apply lookup_insert_eq|done]].
  split; qsimpl; auto.
  - intros k c'. destruct (decide (key = k)) as [<-|Hne].
    + rewrite lookup_insert_eq. intros [= <-]. destruct r; lia.
    + rewrite lookup_insert_ne by done. apply Hcounts.
  - intros k. specialize (Hhanded k). rewrite decide_False in Hhanded by done. unfold handed in *. qsimpl.
    destruct (decide (key = k)) as [<-|Hne].
    + rewrite lookup_insert_eq. cbn [default from_option id]. destruct r; repeat case_decide; simplify_eq; lia.
    + rewrite lookup_insert_ne by done. destruct r; repeat case_decide; simplify_eq; lia.
Qed.

Lemma requeue_ok config fb now :
  in_width 64 (max_disconnect_requeues config) -> keeps (queue_ok config None) (requeue_disconnected fb now).
Proof.
  intros Hw st Hok. unfold requeue_disconnected. rewrite (bind_success _ _ _ _ _ (eq_refl : get_state st = _)).
  case_decide.
  { edestruct (backoff_ok config None) as ([] & st1 & E & Hok1); [exact Hok|]. rewrite (bind_success _ _ _ _ _ E).
    by apply (keeps_bump_ret _ _ false (bump_ok _ _)). }
  destruct (negb _); [by exists false, st|].
  set (n := default 0 _). assert (config_ (st_queue st) = config) as Hcfg by (by destruct Hok).
  assert (0 <= n <= max_disconnect_requeues config) as Hn.
  { destruct Hok as [_ _ Hc _]. subst n. destruct (disconnect_counts_ (st_queue st) !! _) eqn:E; simpl; [by eapply Hc|].
    unfold in_width in Hw. lia. }
  destruct (queue_ok_count config false (peer_key (fb_peer fb)) n st Hok) as (st1 & E1 & Hok1 & Hn1 & _); [subst n; lia|lia|].
  rewrite (bind_success _ _ _ _ _ E1). rewrite Hcfg. destruct (Z.leb_spec (max_disconnect_requeues config) n).
  { by apply (keeps_bump_ret _ _ false (bump_ok _ _)). }
  unfold in_width in Hw. rewrite u64_small by lia.
  destruct (queue_ok_count config true (peer_key (fb_peer fb)) (n + 1) st1 Hok1) as (st2 & E2 & Hok2 & _); [rewrite Hn1; simpl; lia|lia|].
  rewrite (bind_success _ _ _ _ _ E2).
  destruct (candidate_ok config (fb_peer fb) true now st2 Hok2) as (b & st3 & E3 & Hok3).
  rewrite (bind_success _ _ _ _ _ E3). destruct b; [|by exists false, st3].
  by apply (keeps_bump_ret _ _ true (bump_ok _ _)).
Qed.

#[global] Instance queue_ok_invariant config :
  in_width 64 (max_disconnect_requeues config) -> QueueInvariant (fun _ => True) (queue_ok config None).
Proof.
  intros Hw. split.
  - apply bump_ok.
  - intros l [q sched p h sp] Hok. do 2 eexists. split; [reflexivity|]. by apply queue_ok_counters.
  - intros vp now _ st Hok. by apply candidate_ok.
  - intros fb now _. apply report_keeps; [apply bump_ok|by apply requeue_ok].
  - intros f Hf [q sched p h sp] [Hcfg Hpend Hcounts Hhanded]. unfold sched_event. qsimpl.
    destruct sched as [s|]; [|by do 2 eexists].
    pose proof (Hf s p) as Hs. destruct (f s p) as [[s' p'] spawned]. do 2 eexists. split; [reflexivity|].
    split; qsimpl; auto. intros ? [= <-]. specialize (Hpend s eq_refl). simpl in Hs. lia.
Qed.

(** *** Backoff *)

(** The node reported TooManyPeers at time [since] or later, and was handed over
    [n] times. *)
Record suppressed (key : string) (since n : Z) (st : QueueState) : Prop := {
  su_until : exists until, backoff_until_ (st_queue st) !! key = Some until /\
    since + too_many_peers_backoff (config_ (st_queue st)) <= until;
  su_handed : handed key st = n
}.

(** Clock readings within the backoff. *)
Definition within (config : EthPeerQueueConfig) (since now : Z) : Prop :=
  since <= now < since + too_many_peers_backoff config.

Section backoff.
Context (config : EthPeerQueueConfig) (key : string) (since n : Z).

Definition suppressed_under (st : QueueState) : Prop := config_ (st_queue st) = config /\ suppressed key since n st.

(** Only the configuration, the backoffs and the hand-overs matter. *)
Lemma suppressed_change st st' :
  config_ (st_queue st') = config_ (st_queue st) ->
  backoff_until_ (st_queue st') !! key = backoff_until_ (st_queue st) !! key ->
  handed key st' = handed key st -> suppressed_under st -> suppressed_under st'.
Proof. intros E1 E2 E3 [Hc [Hu Hh]]. split; [congruence|]. split; [|congruence]. by rewrite E1, E2. Qed.

Lemma suppressed_update f :
  (forall q, config_ (f q) = config_ q /\ backoff_until_ (f q) !! key = backoff_until_ q !! key) ->
  keeps suppressed_under (with_peer_queue f).
Proof.
  intros Hf st Hs. do 2 eexists. split; [reflexivity|]. destruct (Hf (st_queue st)). by apply (suppressed_change st).
Qed.

Lemma suppressed_candidate vp allow now : within config since now -> keeps suppressed_under (enqueue_candidate vp allow now).
Proof.
  intros Hw st Hs. destruct (enqueue_candidate_exit vp allow now st) as (b & st' & E & Hexit). exists b, st'. split; [done|].
  assert ((forall until, backoff_until_ (st_queue st) !! peer_key vp = Some until -> until <= now) -> peer_key vp <> key) as Hne.
  { intros Hb Ek. destruct Hs as [Hc [(until & Eu & Hu) _]]. rewrite <- Ek in Eu. specialize (Hb _ Eu).
    rewrite Hc in Hu. unfold within in Hw. lia. }
  revert Hs. destruct Hexit as [u cs _ _|cs seen _ Hb|sched' p' h' sp' Hb _ Hh _]; apply suppressed_change; qsimpl; try done.
  - apply lookup_delete_ne. auto.
  - apply lookup_delete_ne. auto.
  - destruct Hh as [->| ->]; [done|]. unfold handed. cbn [st_handed]. rewrite filter_cons_False; [done|auto].
Qed.

Lemma suppressed_backoff k until :
  since + too_many_peers_backoff config <= until -> keeps suppressed_under (set_backoff (fun m => <[k := until]> m)).
Proof.
  intros Hu st [Hc [(u & Eu & Hle) Hh]]. do 2 eexists. split; [reflexivity|]. split; [done|]. split; [|done]. qsimpl.
  destruct (decide (k = key)) as [->|Hne].
  - exists until. by rewrite lookup_insert_eq, Hc.
  - exists u. by rewrite lookup_insert_ne.
Qed.

Lemma suppressed_bump c : keeps suppressed_under (bump c).
Proof. by apply suppressed_update. Qed.

Lemma suppressed_requeue fb now : within config since now -> keeps suppressed_under (requeue_disconnected fb now).
Proof.
  intros Hw st Hs. unfold requeue_disconnected. rewrite (bind_success _ _ _ _ _ (eq_refl : get_state st = _)).
  pose proof Hs as [Hc _]. rewrite Hc. generalize (default 0 (disconnect_counts_ (st_queue st) !! peer_key (fb_peer fb))).
  intros count. clear Hc. revert st Hs. case_decide.
  { apply keeps_bind; [apply suppressed_backoff; unfold within in Hw; lia|]. intros. apply keeps_bump_ret, suppressed_bump. }
  destruct (negb _); [apply keeps_ret|]. apply keeps_bind; [by apply suppressed_update|]. intros _.
  destruct (_ <=? _); [apply keeps_bump_ret, suppressed_bump|].
  apply keeps_bind; [by apply suppressed_update|]. intros _. apply keeps_bind; [by apply suppressed_candidate|].
  intros [|]; [apply keeps_bump_ret, suppressed_bump|apply keeps_ret].
Qed.

#[global] Instance suppressed_invariant : QueueInvariant (within config since) suppressed_under.
Proof.
  split.
  - apply suppressed_bump.
  - intros l. by apply suppressed_update.
  - intros vp now Hw. by apply suppressed_candidate.
  - intros fb now Hw. apply report_keeps; [apply suppressed_bump|by apply suppressed_requeue].
  - intros f Hf st Hs. unfold sched_event. destruct (st_scheduler st) as [s|]; [|by do 2 eexists].
    destruct (f s (st_pool st)) as [[s' p'] sp]. do 2 eexists. split; [reflexivity|]. by apply (suppressed_change st).
Qed.
End backoff.

(** After a TooManyPeers report the node is in backoff. *)
Lemma report_suppresses fb now st :
  fb_reason fb = kTooManyPeers ->
  exists b st', report_peer_disconnected fb now st = (success b, st') /\
    suppressed_under (config_ (st_queue st)) (peer_key (fb_peer fb)) now (handed (peer_key (fb_peer fb)) st) st'.
Proof.
  intros Hr. unfold report_peer_disconnected, requeue_disconnected, count_reason. rewrite Hr.
  destruct (fb_was_connected fb); (do 2 eexists; split; [reflexivity|]); (split; [done|]); (split; [|done]);
    eexists; (split; [apply lookup_insert_eq|done]).
Qed.

(** ** Claims *)

(** C27: Whatever the producers, the dials and the other chains do, and in whatever
    order, the queue's calls return; the scheduler never holds more than
    [max_pending_peers] waiting peers, every node's disconnect count stays within
    [max_disconnect_requeues], and no node is handed to the scheduler more often
    than once plus that number of requeues. *)
Theorem peer_queue_bounds config scheduler pool ops :
  in_width 64 (max_disconnect_requeues config) ->
  (forall s, scheduler = Some s -> Zlen (queue s) <= max_pending_peers config) ->
  Forall (fun e => op_fits e.1) ops ->
  exists st, run_queue ops (EthPeerQueue_new scheduler pool config) = (success tt, st) /\
    (forall s, st_scheduler st = Some s -> Zlen (queue s) <= max_pending_peers config) /\
    (forall k c, disconnect_counts_ (st_queue st) !! k = Some c -> 0 <= c <= max_disconnect_requeues config) /\
    (forall k, handed k st <= 1 + max_disconnect_requeues config).
Proof.
  intros Hw Hs Hops. pose proof (queue_ok_invariant config Hw) as HI.
  assert (queue_ok config None (EthPeerQueue_new scheduler pool config)) as Hok.
  { split; qsimpl; try done. }
  assert (Forall (fun e => True /\ op_fits e.1) ops) as Hops' by (apply (Forall_impl _ _ _ Hops); by intros).
  destruct (run_queue_keeps (when := fun _ => True) ops Hops' _ Hok) as ([] & st & E & [Hcfg Hpend Hcounts Hhanded]).
  exists st. split_and!; try done. intros k. specialize (Hhanded k). unfold in_width in Hw.
  destruct (disconnect_counts_ (st_queue st) !! k) as [c|] eqn:Ec; [specialize (Hcounts _ _ Ec)|];
    simpl in Hhanded; repeat case_decide; simplify_eq; lia.
Qed.

(** Two peers for the witnesses: a discovered one and a flaky one. *)
Definition ex_config : EthPeerQueueConfig := mkConfig 1 1 1800 0.
Definition ex_ops : list (queue_op * Z) :=
  [(OpPreload [ex_peer x01; ex_peer x02; ex_peer x03], 0); (OpDiscovered (vp_peer (ex_peer x04)), 1);
   (OpDisconnected (mkFeedback (ex_peer x01) kTimeout true), 40); (OpDone true, 40);
   (OpDisconnected (mkFeedback (ex_peer x01) kTimeout true), 80)].

Lemma peer_queue_bounds_witness :
  exists st, run_queue ex_ops (EthPeerQueue_new (Some (DialScheduler_new None)) (mkPool 1 1 0) ex_config) = (success tt, st) /\
    handed (node_key [x01]) st <= 1 + 1.
Proof.
  destruct (peer_queue_bounds ex_config (Some (DialScheduler_new None)) (mkPool 1 1 0) ex_ops) as (st & E & _ & _ & H).
  - split; vm_compute; congruence.
  - intros s [= <-]. vm_compute. congruence.
  - repeat constructor.
  - exists st. split; [exact E|]. apply (H (node_key [x01])).
Defined.

(** A node that reports TooManyPeers is left alone for the whole backoff:
    from the report on, while the clock is below the end of the backoff, no
    operation hands the node to the scheduler again, whether it is discovered,
    cached, or disconnected once more. *)
Theorem too_many_peers_suppressed fb t st ops :
  fb_reason fb = kTooManyPeers ->
  Forall (fun e => within (config_ (st_queue st)) t e.2 /\ op_fits e.1) ops ->
  exists st', (report_peer_disconnected fb t ;; run_queue ops) st = (success tt, st') /\
    handed (peer_key (fb_peer fb)) st' = handed (peer_key (fb_peer fb)) st.
Proof.
  intros Hr Hops. destruct (report_suppresses fb t st Hr) as (b & st1 & E1 & Hs1).
  rewrite (bind_success _ _ _ _ _ E1). destruct (run_queue_keeps ops Hops st1 Hs1) as ([] & st2 & E2 & [_ [_ Hh]]).
  eauto.
Qed.

Lemma too_many_peers_suppressed_witness :
  exists st', (report_peer_disconnected (mkFeedback (ex_peer x01) kTooManyPeers false) 10 ;;
      run_queue [(OpDiscovered (vp_peer (ex_peer x01)), 100); (OpPreload [ex_peer x01], 1809)])
      (EthPeerQueue_new (Some (DialScheduler_new None)) (mkPool 3 3 0) ex_config) = (success tt, st') /\
    handed (node_key [x01]) st' = 0.
Proof.
  apply (too_many_peers_suppressed (mkFeedback (ex_peer x01) kTooManyPeers false) 10).
  - reflexivity.
  - unfold within. repeat constructor; vm_compute; congruence.
Defined.

(** Preloading offers every cached peer exactly once: rotating by the configured
    offset and spreading over the dial slots permutes the list, for any number of
    slots, and the spreading loop ends. *)
Theorem cached_peers_permuted config slots peers :
  Zlen peers < 2 ^ 32 ->
  exists l, spread_cached_peers_for_dial_slots slots (rotate_cached_peers config peers) = success l /\ l ≡ₚ peers.
Proof.
  intros Hp. destruct (spread_permutation slots (rotate_cached_peers config peers)) as (l & E & Hl).
  - by rewrite rotate_permutation.
  - exists l. split; [done|]. by rewrite Hl, rotate_permutation.
Qed.

Lemma cached_peers_permuted_witness :
  exists l, spread_cached_peers_for_dial_slots (Some 2)
      (rotate_cached_peers (mkConfig 1024 3 1800 1) [ex_peer x01; ex_peer x02; ex_peer x03]) = success l /\
    l ≡ₚ [ex_peer x01; ex_peer x02; ex_peer x03].
Proof. apply (cached_peers_permuted (mkConfig 1024 3 1800 1) (Some 2)). vm_compute. congruence. Defined.
