(* ===== verification/BridgeEvent.v ===== *)
(** * Bridge events

    [include/base/byte_encoding.hpp], [include/eth/bridge_event.hpp],
    [src/eth/bridge_event.cpp], [src/eth/bridge_observation.cpp] and
    [src/eth/secp256k1_utility.cpp]: the claim that a bridge contract emitted an
    event, the bytes a watcher signs for it, and the checks of a claim against a
    receipt and of a signature.

    The payload reader is the unread rest of the payload.  Keccak-256 and
    libsecp256k1 are parameters: the hash is a function, the signature library is
    the class [Secp256k1], and [Secp256k1Laws] states the documented behaviour of
    signing and recovery. *)

From S2P Require Import Prelude EthObjects.

(** ** byte_encoding.hpp *)

(** [for (shift = 8 * (k - 1); shift >= 0; shift -= 8)]. *)
Fixpoint be_shifts (k : nat) : list Z :=
  match k with O => [] | S k' => 8 * Z.of_nat k' :: be_shifts k' end.

Definition append_be (k : nat) (out : list byte) (value : Z) : list byte :=
  out ++ map (fun shift => byte_of (Z.land (Z.shiftr value shift) 255)) (be_shifts k).

Definition append_u32_be := append_be 4.
Definition append_u64_be := append_be 8.
Definition append_uint256_be := append_be 32.

Definition append_array (out value : list byte) : list byte := out ++ value.

Definition append_length_prefixed_bytes (out value : list byte) : list byte :=
  append_u64_be out (Zlen value) ++ value.

Definition append_length_prefixed_arrays (out : list byte) (values : list (list byte)) : list byte :=
  foldl append_array (append_u64_be out (Zlen values)) values.

(** ** bridge_event.hpp *)

Record BridgeEventClaim := mkClaim {
  src_chain_id : Z;
  dest_chain_id : Z;
  block_number : Z;
  block_hash : list byte;
  tx_hash : list byte;
  log_index : Z;
  bridge_contract : list byte;
  event_topic0 : list byte;
  topics : list (list byte);
  data : list byte;
  sender : list byte;
  token_id_or_nonce : Z;
  amount : Z;
  recipient : list byte;
  observed_at : Z;
  finality_depth : Z
}.

Record BridgeEventObservation := mkObservation {
  obs_claim : BridgeEventClaim;
  obs_observer : list byte;
  obs_signature : list byte
}.

Record BridgeEventKey := mkKey { key_chain : Z; key_tx : list byte; key_log : Z }.

#[global] Instance BridgeEventKey_eq_dec : EqDecision BridgeEventKey.
Proof. solve_decision. Defined.

Inductive ReceiptLogVerificationError :=
  | kNone | kMissingReceiptStatus | kReceiptFailed | kBlockHashMismatch | kTxHashMismatch
  | kLogIndexOutOfRange | kContractMismatch | kTopic0Mismatch | kTopicsMismatch | kDataMismatch.

(** [ReceiptResult] of eth_receipt_source.hpp. *)
Record ReceiptResult := mkReceiptResult {
  rr_receipt : Receipt;
  rr_tx_hash : list byte;
  rr_block_number : Z;
  rr_block_hash : list byte;
  rr_log_indices : list Z
}.

(** ** bridge_event.cpp *)

(** [std::lexicographical_compare] on bytes. *)
Fixpoint lex_less (a b : list byte) : bool :=
  match a, b with
  | _, [] => false
  | [], _ :: _ => true
  | x :: a', y :: b' => if u8 x <? u8 y then true else if u8 y <? u8 x then false else lex_less a' b'
  end.

Definition key_less (lhs rhs : BridgeEventKey) : bool :=
  if negb (key_chain lhs =? key_chain rhs) then key_chain lhs <? key_chain rhs else
  if negb (bool_decide (key_tx lhs = key_tx rhs)) then lex_less (key_tx lhs) (key_tx rhs) else
  key_log lhs <? key_log rhs.

Definition bridge_event_key (claim : BridgeEventClaim) : BridgeEventKey :=
  mkKey (src_chain_id claim) (tx_hash claim) (log_index claim).

(** [EventDeduper] over [std::set<BridgeEventKey>]: the keys in increasing order;
    two keys are the same when neither is less. *)
Definition EventDeduper := list BridgeEventKey.

Definition key_equiv (a b : BridgeEventKey) : bool := negb (key_less a b) && negb (key_less b a).

Definition deduper_contains (key : BridgeEventKey) (seen : EventDeduper) : bool := existsb (key_equiv key) seen.

Fixpoint set_insert (key : BridgeEventKey) (seen : EventDeduper) : EventDeduper :=
  match seen with
  | [] => [key]
  | k :: seen' => if key_less k key then k :: set_insert key seen' else key :: seen
  end.

Definition deduper_mark_seen (key : BridgeEventKey) (seen : EventDeduper) : bool * EventDeduper :=
  if deduper_contains key seen then (false, seen) else (true, set_insert key seen).

Definition deduper_size (seen : EventDeduper) : Z := Zlen seen.
Definition deduper_clear (seen : EventDeduper) : EventDeduper := [].

(** [std::find] over the indices of the receipt's logs. *)
Fixpoint find_index (x : Z) (l : list Z) : option nat :=
  match l with
  | [] => None
  | y :: l' => if y =? x then Some O else S <$> find_index x l'
  end.

Definition receipt_log_index (receipt : ReceiptResult) (claim : BridgeEventClaim) : option nat :=
  match rr_log_indices receipt with
  | [] => Some (Z.to_nat (log_index claim))
  | indices => find_index (log_index claim) indices
  end.

Definition verify_receipt_log (receipt : ReceiptResult) (claim : BridgeEventClaim) : ReceiptLogVerificationError :=
  match rc_status (rr_receipt receipt) with
  | None => kMissingReceiptStatus
  | Some false => kReceiptFailed
  | Some true =>
      if decide (rr_block_hash receipt <> block_hash claim) then kBlockHashMismatch else
      if decide (rr_tx_hash receipt <> tx_hash claim) then kTxHashMismatch else
      match receipt_log_index receipt claim ≫= fun i => rc_logs (rr_receipt receipt) !! i with
      | None => kLogIndexOutOfRange
      | Some log =>
          if decide (le_address log <> bridge_contract claim) then kContractMismatch else
          if decide (head (le_topics log) <> Some (event_topic0 claim)) then kTopic0Mismatch else
          if negb (bool_decide (topics claim = [])) && negb (bool_decide (le_topics log = topics claim)) then kTopicsMismatch else
          if decide (le_data log <> data claim) then kDataMismatch else kNone
      end
  end.

(** ** bridge_observation.cpp *)

Definition kBridgeEventDomain : list byte := String.list_byte_of_string "GNUS_BRIDGE_EVENT_V1".

(** A read of [PayloadReader]: [false] is the error. *)
Notation Reader := (M (list byte) unit).

(** [read_array<N>]. *)
Definition pr_array (n : nat) : Reader (list byte) := fun s =>
  if Zlen s <? Z.of_nat n then (failure tt, s) else (success (take n s), drop n s).

(** [value = (value << 8) | byte] on an unsigned type of [w] bits. *)
Definition shift_in (w value : Z) (b : byte) : Z := Z.lor (Z.shiftl value 8 mod 2 ^ w) (u8 b).

Definition pr_uint (w : Z) (n : nat) : Reader Z := fun s =>
  if Zlen s <? Z.of_nat n then (failure tt, s)
  else (success (foldl (shift_in w) 0 (take n s)), drop n s).

Definition read_u32 := pr_uint 32 4.
Definition read_u64 := pr_uint 64 8.
Definition read_uint256 := pr_uint 256 32.

Definition read_domain : Reader unit := fun s =>
  if Zlen s <? Zlen kBridgeEventDomain then (failure tt, s) else
  if decide (take (length kBridgeEventDomain) s <> kBridgeEventDomain) then (failure tt, s)
  else (success tt, drop (length kBridgeEventDomain) s).

Fixpoint read_arrays (n count : nat) : Reader (list (list byte)) :=
  match count with
  | O => mret []
  | S count' => value ← pr_array n; values ← read_arrays n count'; mret (value :: values)
  end.

Definition read_length_prefixed_arrays (n : nat) : Reader (list (list byte)) :=
  count ← read_u64;
  s ← get_state;
  if Zlen s / Z.of_nat n <? count then fail tt else read_arrays n (Z.to_nat count).

Definition read_length_prefixed_bytes : Reader (list byte) :=
  length ← read_u64;
  s ← get_state;
  if Zlen s <? length then fail tt else pr_array (Z.to_nat length).

Definition finished : Reader unit := fun s => if Zlen s =? 0 then (success tt, s) else (failure tt, s).

Definition bridge_event_claim_payload (claim : BridgeEventClaim) : list byte :=
  let out := kBridgeEventDomain in
  let out := append_u64_be out (src_chain_id claim) in
  let out := append_u64_be out (dest_chain_id claim) in
  let out := append_array out (bridge_contract claim) in
  let out := append_u64_be out (block_number claim) in
  let out := append_array out (block_hash claim) in
  let out := append_array out (tx_hash claim) in
  let out := append_u32_be out (log_index claim) in
  let out := append_array out (event_topic0 claim) in
  let out := append_length_prefixed_arrays out (topics claim) in
  let out := append_length_prefixed_bytes out (data claim) in
  let out := append_array out (sender claim) in
  let out := append_uint256_be out (token_id_or_nonce claim) in
  let out := append_uint256_be out (amount claim) in
  let out := append_array out (recipient claim) in
  let out := append_u64_be out (observed_at claim) in
  append_u64_be out (finality_depth claim).

Definition read_claim : Reader BridgeEventClaim :=
  read_domain ;;
  src ← read_u64;
  dest ← read_u64;
  contract ← pr_array 20;
  number ← read_u64;
  bhash ← pr_array 32;
  thash ← pr_array 32;
  index ← read_u32;
  topic0 ← pr_array 32;
  ts ← read_length_prefixed_arrays 32;
  d ← read_length_prefixed_bytes;
  from ← pr_array 20;
  token ← read_uint256;
  value ← read_uint256;
  to ← pr_array 20;
  at_ ← read_u64;
  depth ← read_u64;
  finished ;;
  mret (mkClaim src dest number bhash thash index contract topic0 ts d from token value to at_ depth).

Definition decode_bridge_event_claim_payload (payload : list byte) : option BridgeEventClaim :=
  match (read_claim payload).1 with success claim => Some claim | _ => None end.

(** ** secp256k1_utility.cpp *)

(** libsecp256k1: keys and signatures are opaque. *)
Class Secp256k1 := {
  secp_pubkey : Type;
  secp_signature : Type;
  seckey_verify : list byte -> bool;
  pubkey_create : list byte -> option secp_pubkey;
  pubkey_serialize : secp_pubkey -> option (list byte);
  sign_recoverable : list byte -> list byte -> option secp_signature;
  serialize_compact : secp_signature -> list byte * Z;
  parse_compact : list byte -> Z -> option secp_signature;
  ecdsa_recover : secp_signature -> list byte -> option secp_pubkey
}.

(** What its documentation says of signing, serialisation and recovery. *)
Class Secp256k1Laws `{Secp256k1} := {
  sign_compact h k s : sign_recoverable h k = Some s ->
    Zlen (serialize_compact s).1 = 64 /\ 0 <= (serialize_compact s).2 <= 3 /\
    parse_compact (serialize_compact s).1 (serialize_compact s).2 = Some s;
  sign_recover h k s : sign_recoverable h k = Some s -> ecdsa_recover s h = pubkey_create k
}.

Section signatures.
Context (keccak256 : list byte -> list byte) `{Secp256k1}.

(** Address of an uncompressed public key: the last 20 bytes of the hash. *)
Definition address_from_uncompressed_public_key (public_key : list byte) : list byte :=
  let hash := keccak256 (drop 1 public_key) in drop (length hash - 20) hash.

Definition address_from_public_key (public_key : secp_pubkey) : option (list byte) :=
  public_key_bytes ← pubkey_serialize public_key;
  if negb (Zlen public_key_bytes =? 65) || negb (bool_decide (head public_key_bytes = Some x04)) then None
  else Some (address_from_uncompressed_public_key public_key_bytes).

Definition secp256k1_address_from_private_key (private_key : list byte) : option (list byte) :=
  if negb (seckey_verify private_key) then None else
  public_key ← pubkey_create private_key;
  address_from_public_key public_key.

Definition secp256k1_recover_address (message_hash recoverable_signature : list byte) : option (list byte) :=
  if negb (Zlen recoverable_signature =? 65) then None else
  let recovery_id := u8 (nth 64 recoverable_signature x00) in
  if 3 <? recovery_id then None else
  signature ← parse_compact (take 64 recoverable_signature) recovery_id;
  public_key ← ecdsa_recover signature message_hash;
  address_from_public_key public_key.

Definition secp256k1_sign_recoverable (message_hash private_key : list byte) : option (list byte) :=
  if negb (seckey_verify private_key) then None else
  signature ← sign_recoverable message_hash private_key;
  let '(bytes, recovery_id) := serialize_compact signature in
  Some (bytes ++ [byte_of recovery_id]).

Definition compute_bridge_message_id (src_chain_id : Z) (bridge_contract tx_hash : list byte) (log_index : Z) : list byte :=
  keccak256 (append_u32_be (append_array (append_array (append_u64_be [] src_chain_id) bridge_contract) tx_hash) log_index).

Definition bridge_message_id (claim : BridgeEventClaim) : list byte :=
  compute_bridge_message_id (src_chain_id claim) (bridge_contract claim) (tx_hash claim) (log_index claim).

Definition bridge_event_domain_separator (src_chain_id dest_chain_id : Z) (bridge_contract : list byte) : list byte :=
  keccak256 (append_array (append_u64_be (append_u64_be kBridgeEventDomain src_chain_id) dest_chain_id) bridge_contract).

Definition bridge_event_claim_hash (claim : BridgeEventClaim) : list byte := keccak256 (bridge_event_claim_payload claim).

Definition sign_bridge_event_claim (claim : BridgeEventClaim) (private_key : list byte) : option BridgeEventObservation :=
  observer ← secp256k1_address_from_private_key private_key;
  signature ← secp256k1_sign_recoverable (bridge_event_claim_hash claim) private_key;
  Some (mkObservation claim observer signature).

Definition verify_bridge_event_observation (observation : BridgeEventObservation) : bool :=
  match secp256k1_recover_address (bridge_event_claim_hash (obs_claim observation)) (obs_signature observation) with
  | Some recovered => bool_decide (recovered = obs_observer observation)
  | None => false
  end.
End signatures.

(** ** Codecs *)

Lemma append_be_bytes k out v : append_be k out v = out ++ be_bytes k v.
Proof.
  unfold append_be. f_equal. induction k as [|k IH]; [done|]. cbn [be_shifts map]. rewrite IH, be_bytes_S_cons. f_equal.
  apply u8_inj. rewrite !u8_byte_of. change 255 with (Z.ones 8). rewrite Z.land_ones by lia. by rewrite Z.mod_mod.
Qed.

Lemma shift_in_be_val w l : 8 * Zlen l <= w -> foldl (shift_in w) 0 l = be_val l.
Proof.
  induction l as [|b l IH] using rev_ind; intros Hw; [done|]. rewrite length_app in Hw. simpl in Hw.
  rewrite foldl_app, IH, be_val_snoc by lia. cbn [foldl]. unfold shift_in. pose proof (be_val_range l) as Hr.
  rewrite Z.shiftl_mul_pow2 by lia. rewrite Z.mod_small.
  - rewrite lor_add by (pose proof (u8_range b); lia). done.
  - split; [lia|]. apply Z.lt_le_trans with (2 ^ (8 * Zlen l) * 2 ^ 8).
    + rewrite Z.pow_mul_r by lia. change (2 ^ 8) with 256 in *. lia.
    + rewrite <- Z.pow_add_r by lia. apply Z.pow_le_mono_r; lia.
Qed.

(** [m] reads exactly what [enc] writes, for the values that satisfy [ok]. *)
Record codec {A} (m : Reader A) (enc : A -> list byte) (ok : A -> Prop) : Prop := {
  codec_read v rest : ok v -> m (enc v ++ rest) = (success v, rest);
  codec_written s v rest : m s = (success v, rest) -> ok v /\ s = enc v ++ rest
}.

Lemma pr_array_codec n : codec (pr_array n) id (fun v => length v = n).
Proof.
  split; unfold pr_array.
  - intros v rest <-. unfold id. rewrite length_app. case_match; [zbool; lia|]. by rewrite take_app_length, drop_app_length.
  - intros s v rest. destruct (Z.ltb_spec (Zlen s) (Z.of_nat n)); intros [= <- <-].
    split; [rewrite length_take; lia|unfold id; by rewrite take_drop].
Qed.

Lemma pr_uint_codec w n : w = 8 * Z.of_nat n -> codec (pr_uint w n) (be_bytes n) (in_width w).
Proof.
  intros ->. unfold in_width. assert (256 ^ Z.of_nat n = 2 ^ (8 * Z.of_nat n)) as E by (by rewrite Z.pow_mul_r by lia).
  split; unfold pr_uint.
  - intros v rest Hv. rewrite length_app, length_be_bytes. case_match; [zbool; lia|].
    rewrite take_app_length', drop_app_length' by (by rewrite length_be_bytes).
    rewrite shift_in_be_val by (rewrite length_be_bytes; lia). rewrite be_val_be_bytes_small by lia. done.
  - intros s v rest. destruct (Z.ltb_spec (Zlen s) (Z.of_nat n)); intros [= <- <-].
    assert (length (take n s) = n) as Hl by (rewrite length_take; lia).
    rewrite shift_in_be_val by lia. pose proof (be_val_range (take n s)) as Hr. rewrite Hl in Hr. split; [lia|].
    rewrite <- Hl at 1. by rewrite be_bytes_be_val, take_drop.
Qed.

Lemma read_arrays_codec n count :
  codec (read_arrays n count) (@concat byte) (fun vs => length vs = count /\ Forall (fun v => length v = n) vs).
Proof.
  induction count as [|count [IHr IHw]]; split; cbn [read_arrays].
  - intros [|] rest [Hl _]; [done|]. done.
  - intros s v rest [= <- <-]. done.
  - intros [|v vs] rest [Hl Hvs]; [done|]. apply Forall_cons in Hvs as [Hv Hvs]. cbn [concat]. rewrite <- app_assoc.
    rewrite (bind_success _ _ _ _ _ (codec_read _ _ _ (pr_array_codec n) v _ Hv)).
    rewrite (bind_success _ _ _ _ _ (IHr vs rest (conj (eq_add_S _ _ Hl) Hvs))). done.
  - intros s vs rest H. apply bind_success_inv in H as (v & s1 & H1 & H).
    apply bind_success_inv in H as (vs' & s2 & H2 & [= <- <-]).
    apply (codec_written _ _ _ (pr_array_codec n)) in H1 as [Hv ->]. apply IHw in H2 as [[Hl Hvs] ->].
    split; [split; [simpl; lia|by constructor]|]. cbn [concat]. by rewrite <- app_assoc.
Qed.

Lemma length_concat_arrays n (vs : list (list byte)) : Forall (fun v => length v = n) vs -> length (concat vs) = (length vs * n)%nat.
Proof. induction 1 as [|v vs Hv _ IH]; [done|]. cbn [concat]. rewrite length_app, IH, Hv. simpl. lia. Qed.

Lemma prefixed_arrays_codec n : (0 < n)%nat ->
  codec (read_length_prefixed_arrays n) (fun vs => be_bytes 8 (Zlen vs) ++ concat vs)
    (fun vs => in_width 64 (Zlen vs) /\ Forall (fun v => length v = n) vs).
Proof.
  intros Hn. pose proof (pr_uint_codec 64 8 eq_refl) as [Hr Hw]. pose proof (read_arrays_codec n) as Ha.
  split; unfold read_length_prefixed_arrays.
  - intros vs rest [Hlen Hvs]. rewrite <- app_assoc. rewrite (bind_success _ _ _ _ _ (Hr _ _ Hlen)).
    rewrite (bind_success _ _ _ _ _ (eq_refl : get_state _ = _)).
    rewrite length_app, (length_concat_arrays n) by done. case_match; zbool.
    + exfalso. assert (Zlen vs <= (Z.of_nat (length vs * n + length rest)) / Z.of_nat n) by (apply Z.div_le_lower_bound; lia). lia.
    + rewrite Nat2Z.id. by apply Ha.
  - intros s vs rest H. apply bind_success_inv in H as (count & s1 & H1 & H). apply Hw in H1 as [Hc ->].
    rewrite (bind_success _ _ _ _ _ (eq_refl : get_state _ = _)) in H. destruct (Z.ltb_spec (Zlen s1 / Z.of_nat n) count); [done|].
    apply Ha in H as [[Hl Hvs] ->]. unfold in_width in Hc. assert (Zlen vs = count) as <- by lia.
    split; [done|]. by rewrite <- app_assoc.
Qed.

Lemma prefixed_bytes_codec :
  codec read_length_prefixed_bytes (fun v => be_bytes 8 (Zlen v) ++ v) (fun v => in_width 64 (Zlen v)).
Proof.
  pose proof (pr_uint_codec 64 8 eq_refl) as [Hr Hw]. split; unfold read_length_prefixed_bytes.
  - intros v rest Hlen. rewrite <- app_assoc. rewrite (bind_success _ _ _ _ _ (Hr _ _ Hlen)).
    rewrite (bind_success _ _ _ _ _ (eq_refl : get_state _ = _)).
    rewrite length_app. case_match; [zbool; lia|]. rewrite Nat2Z.id. by apply (pr_array_codec (length v)).
  - intros s v rest H. apply bind_success_inv in H as (n & s1 & H1 & H). apply Hw in H1 as [Hn ->].
    rewrite (bind_success _ _ _ _ _ (eq_refl : get_state _ = _)) in H. destruct (Z.ltb_spec (Zlen s1) n); [done|].
    apply (pr_array_codec _) in H as [Hl ->]. unfold in_width in Hn. assert (Zlen v = n) as <- by lia.
    split; [done|]. by rewrite <- app_assoc.
Qed.

Lemma read_domain_codec : codec read_domain (fun _ => kBridgeEventDomain) (fun _ => True).
Proof.
  split; unfold read_domain.
  - intros [] rest _. rewrite length_app. case_match; [zbool; lia|].
    rewrite take_app_length, drop_app_length. by rewrite decide_False by auto.
  - intros s [] rest. case_match; [done|]. case_decide as E; [done|]. intros [= <-]. split; [done|].
    rewrite <- E at 1. by rewrite take_drop.
Qed.

(** ** Claims as bytes *)

(** A claim whose fields are values of their types. *)
Record wf_claim (c : BridgeEventClaim) : Prop := {
  wfc_src : in_width 64 (src_chain_id c);
  wfc_dest : in_width 64 (dest_chain_id c);
  wfc_contract : length (bridge_contract c) = 20%nat;
  wfc_number : in_width 64 (block_number c);
  wfc_block : length (block_hash c) = 32%nat;
  wfc_tx : length (tx_hash c) = 32%nat;
  wfc_log : in_width 32 (log_index c);
  wfc_topic0 : length (event_topic0 c) = 32%nat;
  wfc_topics : in_width 64 (Zlen (topics c)) /\ Forall (fun t => length t = 32%nat) (topics c);
  wfc_data : in_width 64 (Zlen (data c));
  wfc_sender : length (sender c) = 20%nat;
  wfc_token : in_width 256 (token_id_or_nonce c);
  wfc_amount : in_width 256 (amount c);
  wfc_recipient : length (recipient c) = 20%nat;
  wfc_observed : in_width 64 (observed_at c);
  wfc_depth : in_width 64 (finality_depth c)
}.

Lemma append_arrays out values : foldl append_array out values = out ++ concat values.
Proof.
  revert out. induction values as [|v values IH]; intros out; cbn [foldl concat]; [by rewrite app_nil_r|].
  rewrite IH. unfold append_array. by rewrite app_assoc.
Qed.

(** The payload as the concatenation of its fields. *)
Lemma payload_fields c :
  bridge_event_claim_payload c =
    kBridgeEventDomain ++ be_bytes 8 (src_chain_id c) ++ be_bytes 8 (dest_chain_id c) ++ bridge_contract c ++
    be_bytes 8 (block_number c) ++ block_hash c ++ tx_hash c ++ be_bytes 4 (log_index c) ++ event_topic0 c ++
    (be_bytes 8 (Zlen (topics c)) ++ concat (topics c)) ++ (be_bytes 8 (Zlen (data c)) ++ data c) ++ sender c ++
    be_bytes 32 (token_id_or_nonce c) ++ be_bytes 32 (amount c) ++ recipient c ++ be_bytes 8 (observed_at c) ++
    be_bytes 8 (finality_depth c) ++ [].
Proof.
  unfold bridge_event_claim_payload, append_length_prefixed_arrays, append_length_prefixed_bytes,
    append_u64_be, append_u32_be, append_uint256_be, append_array.
  rewrite append_arrays, !append_be_bytes. rewrite app_nil_r, <- !app_assoc. done.
Qed.

Lemma read_u64_codec : codec read_u64 (be_bytes 8) (in_width 64).
Proof. by apply pr_uint_codec. Qed.

Lemma read_u32_codec : codec read_u32 (be_bytes 4) (in_width 32).
Proof. by apply pr_uint_codec. Qed.

Lemma read_uint256_codec : codec read_uint256 (be_bytes 32) (in_width 256).
Proof. by apply pr_uint_codec. Qed.

Lemma read_claim_payload c : wf_claim c -> read_claim (bridge_event_claim_payload c) = (success c, []).
Proof.
  intros []. rewrite payload_fields. unfold read_claim.
  destruct read_domain_codec as [Hdom _], read_u64_codec as [H64 _], read_u32_codec as [H32 _], read_uint256_codec as [H256 _],
    (pr_array_codec 20) as [Ha20 _], (pr_array_codec 32) as [Ha32 _], (prefixed_arrays_codec 32 ltac:(lia)) as [Hts _],
    prefixed_bytes_codec as [Hd _]. unfold id in *.
  rewrite (bind_success _ _ _ _ _ (Hdom tt _ I)).
  rewrite (bind_success _ _ _ _ _ (H64 _ _ wfc_src0)), (bind_success _ _ _ _ _ (H64 _ _ wfc_dest0)).
  rewrite (bind_success _ _ _ _ _ (Ha20 _ _ wfc_contract0)), (bind_success _ _ _ _ _ (H64 _ _ wfc_number0)).
  rewrite (bind_success _ _ _ _ _ (Ha32 _ _ wfc_block0)), (bind_success _ _ _ _ _ (Ha32 _ _ wfc_tx0)).
  rewrite (bind_success _ _ _ _ _ (H32 _ _ wfc_log0)), (bind_success _ _ _ _ _ (Ha32 _ _ wfc_topic1)).
  rewrite (bind_success _ _ _ _ _ (Hts _ _ wfc_topics0)), (bind_success _ _ _ _ _ (Hd _ _ wfc_data0)).
  rewrite (bind_success _ _ _ _ _ (Ha20 _ _ wfc_sender0)), (bind_success _ _ _ _ _ (H256 _ _ wfc_token0)).
  rewrite (bind_success _ _ _ _ _ (H256 _ _ wfc_amount0)), (bind_success _ _ _ _ _ (Ha20 _ _ wfc_recipient0)).
  rewrite (bind_success _ _ _ _ _ (H64 _ _ wfc_observed0)), (bind_success _ _ _ _ _ (H64 _ _ wfc_depth0)).
  rewrite (bind_success _ _ _ _ _ (eq_refl : finished [] = _)). by destruct c.
Qed.

Lemma read_claim_written s c rest : read_claim s = (success c, rest) -> wf_claim c /\ s = bridge_event_claim_payload c.
Proof.
  unfold read_claim. intros H.
  repeat (apply bind_success_inv in H as (? & ? & ? & H)). injection H as <- <-.
  repeat match goal with
  | H : read_domain _ = _ |- _ => apply (codec_written _ _ _ read_domain_codec) in H as [_ ->]
  | H : read_u64 _ = _ |- _ => apply (codec_written _ _ _ read_u64_codec) in H as [? ->]
  | H : read_u32 _ = _ |- _ => apply (codec_written _ _ _ read_u32_codec) in H as [? ->]
  | H : read_uint256 _ = _ |- _ => apply (codec_written _ _ _ read_uint256_codec) in H as [? ->]
  | H : pr_array _ _ = _ |- _ => apply (codec_written _ _ _ (pr_array_codec _)) in H as [? ->]
  | H : read_length_prefixed_arrays _ _ = _ |- _ =>
      apply (codec_written _ _ _ (prefixed_arrays_codec 32 ltac:(lia))) in H as [? ->]
  | H : read_length_prefixed_bytes _ = _ |- _ => apply (codec_written _ _ _ prefixed_bytes_codec) in H as [? ->]
  | H : finished ?r = _ |- _ => unfold finished in H; destruct r; [clear H|done]
  end.
  split; [by split|]. by rewrite payload_fields.
Qed.

Lemma payload_exact s c : decode_bridge_event_claim_payload s = Some c <-> wf_claim c /\ s = bridge_event_claim_payload c.
Proof.
  unfold decode_bridge_event_claim_payload. split.
  - destruct (read_claim s) as [r rest] eqn:E. cbn [fst]. destruct r as [c'| |]; [|done..]. intros [= ->].
    by apply read_claim_written in E.
  - intros [Hw ->]. by rewrite (read_claim_payload c Hw).
Qed.

(** ** The deduper *)

Lemma lex_less_irrefl a : lex_less a a = false.
Proof. induction a as [|x a IH]; [done|]. cbn [lex_less]. by rewrite !Z.ltb_irrefl. Qed.

Lemma lex_less_total a b : lex_less a b = false -> lex_less b a = false -> a = b.
Proof.
  revert b. induction a as [|x a IH]; intros [|y b]; cbn [lex_less]; try done.
  destruct (Z.ltb_spec (u8 x) (u8 y)), (Z.ltb_spec (u8 y) (u8 x)); try done; try lia.
  intros. f_equal; [apply u8_inj; lia|auto].
Qed.

Lemma key_less_irrefl k : key_less k k = false.
Proof. unfold key_less. rewrite Z.eqb_refl, bool_decide_eq_true_2 by done. apply Z.ltb_irrefl. Qed.

(** Keys that the order does not separate are equal: [operator<] agrees with
    [operator==]. *)
Lemma key_equiv_eq a b : key_equiv a b = bool_decide (a = b).
Proof.
  unfold key_equiv. case_bool_decide as E.
  - subst. by rewrite key_less_irrefl.
  - apply not_true_iff_false. intros [H1%negb_true_iff H2%negb_true_iff]%andb_prop. apply E. revert H1 H2.
    destruct a as [c1 t1 l1], b as [c2 t2 l2]. unfold key_less. simpl.
    rewrite (Z.eqb_sym c2 c1). destruct (Z.eqb_spec c1 c2) as [->|]; simpl; [|rewrite !Z.ltb_ge; lia].
    destruct (decide (t1 = t2)) as [->|Hne].
    + rewrite !bool_decide_eq_true_2 by done. simpl. rewrite !Z.ltb_ge. intros. f_equal. lia.
    + rewrite !bool_decide_eq_false_2 by auto. simpl. intros H1 H2. destruct Hne. by apply lex_less_total.
Qed.

Lemma deduper_contains_elem key seen : deduper_contains key seen = bool_decide (key ∈ seen).
Proof.
  unfold deduper_contains. induction seen as [|k seen IH]; [by rewrite bool_decide_eq_false_2 by set_solver|].
  cbn [existsb]. rewrite IH, key_equiv_eq. repeat case_bool_decide; try done; set_solver.
Qed.

Lemma set_insert_permutation key seen : set_insert key seen ≡ₚ key :: seen.
Proof.
  induction seen as [|k seen IH]; [done|]. cbn [set_insert]. destruct (key_less k key); [|done].
  rewrite IH. constructor.
Qed.

(** The results of marking [keys] in turn, and the final deduper. *)
Fixpoint mark_all (keys : list BridgeEventKey) (seen : EventDeduper) : list bool * EventDeduper :=
  match keys with
  | [] => ([], seen)
  | key :: keys' =>
      let '(fresh, seen') := deduper_mark_seen key seen in
      let '(bs, seen'') := mark_all keys' seen' in (fresh :: bs, seen'')
  end.

(** Specification: a key is fresh when no earlier one is equal. *)
Fixpoint first_seen (before keys : list BridgeEventKey) : list bool :=
  match keys with
  | [] => []
  | key :: keys' => bool_decide (key ∉ before) :: first_seen (key :: before) keys'
  end.

Lemma mark_all_spec keys seen before :
  NoDup seen -> (forall k, k ∈ seen <-> k ∈ before) ->
  (mark_all keys seen).1 = first_seen before keys /\ NoDup (mark_all keys seen).2 /\
  forall k, k ∈ (mark_all keys seen).2 <-> k ∈ before \/ k ∈ keys.
Proof.
  revert seen before. induction keys as [|key keys IH]; intros seen before Hnd Hb; cbn [mark_all first_seen].
  - split; [done|]. split; [done|]. intros k. rewrite Hb. set_solver.
  - unfold deduper_mark_seen. rewrite deduper_contains_elem. rewrite (bool_decide_ext (key ∈ seen) (key ∈ before)) by auto.
    case_bool_decide as Ek.
    + destruct (IH seen (key :: before) Hnd) as (H1 & H2 & H3); [set_solver|].
      destruct (mark_all keys seen) as [bs seen']. simpl in *. rewrite bool_decide_eq_false_2 by auto.
      split; [by rewrite H1|]. split; [done|]. intros k. rewrite H3. set_solver.
    + pose proof (set_insert_permutation key seen) as Hp. destruct (IH (set_insert key seen) (key :: before)) as (H1 & H2 & H3).
      * rewrite Hp. constructor; [by rewrite Hb|done].
      * intros k. rewrite Hp. set_solver.
      * destruct (mark_all keys _) as [bs seen']. simpl in *. rewrite bool_decide_eq_true_2 by done.
        split; [by rewrite H1|]. split; [done|]. intros k. rewrite H3. set_solver.
Qed.

(** ** Evidence in a receipt *)

(** The log at position [i] of the receipt is the claimed event. *)
Record evidences (receipt : ReceiptResult) (claim : BridgeEventClaim) (i : nat) (log : LogEntry) : Prop := {
  ev_log : rc_logs (rr_receipt receipt) !! i = Some log;
  ev_address : le_address log = bridge_contract claim;
  ev_topic0 : exists ts, le_topics log = event_topic0 claim :: ts;
  ev_topics : topics claim = [] \/ le_topics log = topics claim;
  ev_data : le_data log = data claim
}.

(** [i] is the position that carries the claimed log index: the first one when the
    receipt lists indices, and the index itself otherwise. *)
Definition at_index (receipt : ReceiptResult) (claim : BridgeEventClaim) (i : nat) : Prop :=
  if decide (rr_log_indices receipt = []) then i = Z.to_nat (log_index claim)
  else rr_log_indices receipt !! i = Some (log_index claim) /\
       forall j, (j < i)%nat -> rr_log_indices receipt !! j <> Some (log_index claim).

Lemma find_index_spec x l i : find_index x l = Some i <-> l !! i = Some x /\ forall j, (j < i)%nat -> l !! j <> Some x.
Proof.
  revert i. induction l as [|y l IH]; intros i; cbn [find_index]; [set_solver|].
  destruct (Z.eqb_spec y x) as [->|Hne].
  - split; [intros [= <-]; split; [done|lia]|]. intros [_ Hj]. destruct i as [|i]; [done|]. by destruct (Hj 0%nat ltac:(lia)).
  - destruct i as [|i].
    + split; [by destruct (find_index x l)|]. intros [[= ->] _]. done.
    + rewrite fmap_Some. setoid_rewrite IH. split.
      * intros (i' & [H1 H2] & [= <-]). split; [done|]. intros [|j] Hj; [by intros [= ->]|]. apply H2. lia.
      * intros [H1 H2]. exists i. split; [|done]. split; [done|]. intros j Hj. apply (H2 (S j)). lia.
Qed.

Lemma receipt_log_index_spec receipt claim i : receipt_log_index receipt claim = Some i <-> at_index receipt claim i.
Proof.
  unfold receipt_log_index, at_index. case_decide as E.
  - rewrite E. naive_solver.
  - destruct (rr_log_indices receipt); [done|]. apply find_index_spec.
Qed.

(** ** Claims *)

(** [decode_bridge_event_claim_payload] accepts exactly the payloads that
    [bridge_event_claim_payload] writes, of claims whose fields are values of their
    types, and returns that claim: the bytes a watcher signs stand for one claim
    and no other, and no other bytes are accepted for it. *)
Theorem claim_payload_exact (payload : list byte) (claim : BridgeEventClaim) :
  decode_bridge_event_claim_payload payload = Some claim <->
  wf_claim claim /\ payload = bridge_event_claim_payload claim.
Proof. apply payload_exact. Qed.

(** [verify_receipt_log] accepts a claim exactly when the receipt succeeded, is
    the one of the claimed block and transaction, and holds, at the position of the
    claimed log index, a log of the bridge contract with the claimed topics and
    data. *)
Theorem receipt_log_exact (receipt : ReceiptResult) (claim : BridgeEventClaim) :
  verify_receipt_log receipt claim = kNone <->
  rc_status (rr_receipt receipt) = Some true /\ rr_block_hash receipt = block_hash claim /\
  rr_tx_hash receipt = tx_hash claim /\
  exists i log, at_index receipt claim i /\ evidences receipt claim i log.
Proof.
  unfold verify_receipt_log. destruct (rc_status (rr_receipt receipt)) as [[]|]; [|naive_solver..].
  case_decide as E1; [naive_solver|]. case_decide as E2; [naive_solver|].
  setoid_rewrite <- receipt_log_index_spec.
  destruct (receipt_log_index receipt claim) as [i|]; cbn [mbind option_bind]; [|naive_solver].
  destruct (rc_logs (rr_receipt receipt) !! i) as [log|] eqn:El; [|split; [done|]; intros (_ & _ & _ & j & log & [= <-] & []); congruence].
  assert ((exists j log', Some i = Some j /\ evidences receipt claim j log') <-> evidences receipt claim i log) as ->.
  { split; [|eauto]. intros (j & log' & [= <-] & H). pose proof (ev_log _ _ _ _ H). congruence. }
  assert (evidences receipt claim i log <-> le_address log = bridge_contract claim /\
    head (le_topics log) = Some (event_topic0 claim) /\ (topics claim = [] \/ le_topics log = topics claim) /\
    le_data log = data claim) as ->.
  { split.
    - intros [_ Ha (ts & Ht) Hts Hd]. by rewrite Ht at 1.
    - intros (Ha & Ht & Hts & Hd). split; try done. destruct (le_topics log); [done|]. injection Ht as ->. eauto. }
  repeat case_decide; repeat case_bool_decide; naive_solver.
Qed.

Definition sample_claim : BridgeEventClaim :=
  mkClaim 1 137 100 (replicate 32 x0a) (replicate 32 x0b) 7 (replicate 20 x0c) (replicate 32 x0d) [] [x01; x02]
    (replicate 20 x0e) 5 1000 (replicate 20 x0f) 1700000000 12.

(** The deduper over [std::set], ordered by [operator<], answers as a set of
    keys: marking a sequence of keys reports exactly the first occurrence of each
    key as fresh, and afterwards the set holds exactly the keys marked, once each. *)
Theorem deduper_first_seen (keys : list BridgeEventKey) :
  (mark_all keys []).1 = first_seen [] keys /\ NoDup (mark_all keys []).2 /\
  forall k, deduper_contains k (mark_all keys []).2 = true <-> k ∈ keys.
Proof.
  destruct (mark_all_spec keys [] []) as (H1 & H2 & H3); [constructor|done|]. split; [done|]. split; [done|].
  intros k. rewrite deduper_contains_elem, bool_decide_eq_true, H3. set_solver.
Qed.

(** ** Signatures *)

Section observation.
Context (keccak256 : list byte -> list byte) `{Secp256k1Laws}.

Lemma recover_signed h k s :
  secp256k1_sign_recoverable h k = Some s ->
  secp256k1_recover_address keccak256 h s = secp256k1_address_from_private_key keccak256 k.
Proof.
  unfold secp256k1_sign_recoverable, secp256k1_address_from_private_key, secp256k1_recover_address.
  destruct (seckey_verify k); [|done]. cbn [negb]. intros Hs. apply bind_Some in Hs as (sig & Hsig & E).
  destruct (sign_compact _ _ _ Hsig) as (Hlen & Hid & Hparse). rewrite <- (sign_recover _ _ _ Hsig).
  destruct (serialize_compact sig) as [bytes id]. cbn [fst snd] in *. injection E as <-.
  rewrite length_app. cbn [length]. assert (length bytes = 64%nat) as Hb by lia. rewrite Hb. cbn [Z.of_nat Nat.add].
  rewrite app_nth2 by lia. rewrite Hb. cbn [Nat.sub nth]. rewrite u8_byte_of_small by lia.
  rewrite (proj2 (Z.ltb_ge 3 id)) by lia. rewrite take_app_length' by done. by rewrite Hparse.
Qed.
End observation.

(** An observation made by [sign_bridge_event_claim] verifies, also after its
    claim has been sent as a payload and decoded by the receiver, and it names the
    address of the signing key as its observer. *)
Theorem observation_verifies (keccak256 : list byte -> list byte) `{Secp256k1Laws} claim private_key observation :
  wf_claim claim -> sign_bridge_event_claim keccak256 claim private_key = Some observation ->
  secp256k1_address_from_private_key keccak256 private_key = Some (obs_observer observation) /\
  exists received, decode_bridge_event_claim_payload (bridge_event_claim_payload (obs_claim observation)) = Some received /\
    received = claim /\
    verify_bridge_event_observation keccak256 (mkObservation received (obs_observer observation) (obs_signature observation)) = true.
Proof.
  intros Hw Hs. unfold sign_bridge_event_claim in Hs. apply bind_Some in Hs as (observer & Ha & Hs).
  apply bind_Some in Hs as (signature & Hsig & [= <-]). cbn [obs_observer obs_claim obs_signature]. split; [done|].
  exists claim. split; [by apply payload_exact|]. split; [done|].
  unfold verify_bridge_event_observation. cbn [obs_observer obs_claim obs_signature].
  rewrite (recover_signed _ _ _ _ Hsig), Ha. by apply bool_decide_eq_true.
Qed.

(** A signature scheme with the laws: the signature is the key and the hash. *)
#[local] Instance toy_secp : Secp256k1 := {|
  secp_pubkey := list byte;
  secp_signature := list byte;
  seckey_verify k := Zlen k =? 32;
  pubkey_create k := Some k;
  pubkey_serialize pk := Some (x04 :: pk ++ pk);
  sign_recoverable h k := if (Zlen h =? 32) && (Zlen k =? 32) then Some (k ++ h) else None;
  serialize_compact s := (s, 0);
  parse_compact s id := Some s;
  ecdsa_recover s h := if decide (drop 32 s = h) then Some (take 32 s) else None
|}.

#[local] Instance toy_laws : Secp256k1Laws.
Proof.
  split; cbn; intros h k s; destruct (Z.eqb_spec (Zlen h) 32), (Z.eqb_spec (Zlen k) 32); try done; intros [= <-].
  - rewrite length_app. split_and!; try done; lia.
  - rewrite drop_app_length', take_app_length' by lia. by rewrite decide_True.
Qed.

Lemma observation_verifies_witness :
  exists observation, sign_bridge_event_claim (fun _ => replicate 32 x07) sample_claim (replicate 32 x01) = Some observation /\
    secp256k1_address_from_private_key (fun _ => replicate 32 x07) (replicate 32 x01) = Some (obs_observer observation).
Proof.
  eexists. split; [vm_compute; reflexivity|].
  apply (observation_verifies (fun _ => replicate 32 x07) sample_claim (replicate 32 x01)); [|vm_compute; reflexivity].
  split; vm_compute; try done.
Defined.
