(* ===== verification/RlpxMessages.v ===== *)
(** * RLPx protocol messages

    [include/rlpx/rlpx_error.hpp], [include/rlpx/protocol/messages.hpp] and
    [src/rlpx/protocol/messages.cpp]: Hello, Disconnect, Ping and Pong.

    A [std::string] is its bytes.  A [DisconnectReason] is its [uint8_t], since the
    decoder casts any byte.  [read_capabilities] is the loop over the capability
    list of Hello; it does not know where that list ends and stops at the first
    item that is not a list. *)

From S2P Require Import Prelude RlpSpec RlpCommon RlpEncoder RlpDecoder DecodeLogic EthObjects.

(** ** rlpx_error.hpp *)

Module SessionError.
Inductive t :=
  | kNetworkFailure | kAuthenticationFailed | kHandshakeFailed | kInvalidState | kPeerDisconnected | kTimeout
  | kCompressionError | kEncryptionError | kDecryptionError | kInvalidMessage | kInvalidFrameSize
  | kBufferOverflow | kConnectionFailed | kNotConnected | kDisconnected.
End SessionError.

Module FramingError.
Inductive t :=
  | kEncryptionFailed | kDecryptionFailed | kMacMismatch | kInvalidFrameSize | kBufferTooSmall
  | kInvalidHeader | kCompressionFailed | kDecompressionFailed.
End FramingError.

(** ** messages.hpp *)

Definition kProtocolVersion : Z := 5.
Definition kHelloMessageId : Z := 0.
Definition kDisconnectMessageId : Z := 1.
Definition kPingMessageId : Z := 2.
Definition kPongMessageId : Z := 3.
Definition kPublicKeySize : Z := 64.

Record Capability := mkCapability { cap_name : list byte; cap_version : Z }.

Record HelloMessage := mkHello {
  hello_protocol_version : Z;
  hello_client_id : list byte;
  hello_capabilities : list Capability;
  hello_listen_port : Z;
  hello_node_id : list byte
}.

(** [Message]: the id and the RLP-encoded payload. *)
Record Message := mkMessage { msg_id : Z; msg_payload : list byte }.

(** ** messages.cpp *)

Definition put_u16 (n : Z) : Enc unit := or_fail (add_integral 2 n) kPayloadTooLarge.

Definition encode_capability (cap : Capability) : Enc unit :=
  in_list (put_bytes (cap_name cap) ;; put_u8 (cap_version cap)).

Definition hello_encode (m : HelloMessage) : outcome SessionError.t (list byte) :=
  or_error (run_encoder
    (in_list (put_u8 (hello_protocol_version m) ;;
              put_bytes (hello_client_id m) ;;
              in_list (for_each encode_capability (hello_capabilities m)) ;;
              put_u16 (hello_listen_port m) ;;
              put_bytes (hello_node_id m)))) SessionError.kInvalidMessage.

(** [bytes.empty() ? 0 : bytes[0]]. *)
Definition first_byte (bytes : list byte) : Z := match bytes with [] => 0 | b :: _ => u8 b end.

Notation Rd := (M ByteView SessionError.t).

(** The loop over the capabilities; [continue] drops what was read of the entry. *)
Fixpoint read_capabilities (fuel : nat) : Rd (list Capability) :=
  match fuel with
  | O => crash_with Diverge
  | S fuel' =>
      finished ← IsFinished;
      if finished : bool then mret [] else
      cap_is_list ← attempt IsList;
      if negb (default false cap_is_list) then mret [] else
      cap_list_size ← attempt ReadListHeaderBytes;
      match cap_list_size with
      | None => mret []
      | Some _ =>
          name_bytes ← attempt read_bytes;
          match name_bytes with
          | None => read_capabilities fuel'
          | Some name =>
              ver_bytes ← attempt read_bytes;
              match ver_bytes with
              | None => read_capabilities fuel'
              | Some ver =>
                  caps ← read_capabilities fuel';
                  mret (mkCapability name (first_byte ver) :: caps)
              end
          end
      end
  end.

(** The loop with the fuel it is given. *)
Definition read_capability_list : Rd (list Capability) := v ← view; read_capabilities (S (length v)).

Definition read_hello : Rd HelloMessage :=
  or_fail ReadListHeaderBytes SessionError.kInvalidMessage ;;
  version_bytes ← or_fail read_bytes SessionError.kInvalidMessage;
  client_id_bytes ← or_fail read_bytes SessionError.kInvalidMessage;
  or_fail ReadListHeaderBytes SessionError.kInvalidMessage ;;
  capabilities ← read_capability_list;
  port ← or_fail (read_integral 2) SessionError.kInvalidMessage;
  id_bytes ← or_fail read_bytes SessionError.kInvalidMessage;
  if negb (Zlen id_bytes =? kPublicKeySize) then fail SessionError.kInvalidMessage else
  mret (mkHello (first_byte version_bytes) client_id_bytes capabilities port id_bytes).

Definition hello_decode (rlp_data : ByteView) : outcome SessionError.t HelloMessage := run_decoder read_hello rlp_data.

Definition disconnect_encode (reason : Z) : outcome SessionError.t (list byte) :=
  or_error (run_encoder (in_list (put_u8 reason))) SessionError.kInvalidMessage.

(** Every payload is a reason: the result is never an error. *)
Definition disconnect_decode (rlp_data : ByteView) : outcome SessionError.t Z :=
  match rlp_data with
  | [] => success 0
  | b :: _ =>
      run_decoder (
        list_size ← attempt ReadListHeaderBytes;
        match list_size with
        | None => mret (u8 b)
        | Some size =>
            if size =? 0 then mret 0 else
            reason_bytes ← attempt read_bytes;
            match reason_bytes with
            | None => mret 0
            | Some bytes => mret (first_byte bytes)
            end
        end) rlp_data
  end.

(** Ping and Pong are the empty list, and any payload is accepted for them. *)
Definition ping_encode : outcome SessionError.t (list byte) :=
  or_error (run_encoder (in_list (mret tt))) SessionError.kInvalidMessage.
Definition ping_decode (rlp_data : ByteView) : outcome SessionError.t unit := success tt.
Definition pong_encode : outcome SessionError.t (list byte) :=
  or_error (run_encoder (in_list (mret tt))) SessionError.kInvalidMessage.
Definition pong_decode (rlp_data : ByteView) : outcome SessionError.t unit := success tt.

(** ** Wire forms *)

Definition rlp_capability (cap : Capability) : list byte := rlp_list (rlp_string (cap_name cap) ++ rlp_uint (cap_version cap)).

Definition rlp_hello (m : HelloMessage) : list byte :=
  rlp_list (rlp_uint (hello_protocol_version m) ++ rlp_string (hello_client_id m) ++
            rlp_list (concat (map rlp_capability (hello_capabilities m))) ++
            rlp_uint (hello_listen_port m) ++ rlp_string (hello_node_id m)).

Record wf_hello (m : HelloMessage) : Prop := {
  wfh_version : in_width 8 (hello_protocol_version m);
  wfh_caps : Forall (fun cap => in_width 8 (cap_version cap)) (hello_capabilities m);
  wfh_port : in_width 16 (hello_listen_port m);
  wfh_node_id : Zlen (hello_node_id m) = kPublicKeySize
}.

Lemma emits_put_u16 n : in_width 16 n -> emits (put_u16 n) (rlp_uint n).
Proof. intros. apply emits_or_fail, emits_add_integral; auto with enc. Qed.
#[export] Hint Resolve emits_put_u16 : enc.

Lemma emits_capability cap : in_width 8 (cap_version cap) -> emits (encode_capability cap) (rlp_capability cap).
Proof. intros. unfold encode_capability, rlp_capability. emit. Qed.

Lemma emits_capabilities caps :
  Forall (fun cap => in_width 8 (cap_version cap)) caps ->
  emits (for_each encode_capability caps) (concat (map rlp_capability caps)).
Proof. intros Hc. apply emits_for_each. intros cap Hin. apply emits_capability. by eapply Forall_forall in Hc. Qed.

Lemma hello_encode_wire m : wf_hello m -> Zlen (rlp_hello m) < 2 ^ 64 -> hello_encode m = success (rlp_hello m).
Proof.
  intros [] Hl. unfold hello_encode. rewrite (run_encoder_emits _ (rlp_hello m)); [done|done|].
  unfold rlp_hello. apply emits_in_list. repeat (apply emits_seq; [solve [eauto with enc]|]).
  apply emits_seq; [by apply emits_in_list, emits_capabilities|emit].
Qed.

(** ** Decoding *)

Lemma first_byte_be_min n : in_width 8 n -> first_byte (be_min n) = n.
Proof.
  unfold in_width. intros Hn. destruct (decide (n = 0)) as [->|]; [done|].
  rewrite be_min_small by lia. simpl. rewrite u8_byte_of_small; lia.
Qed.

Lemma IsFinished_false {Er} (v w : ByteView) : (0 < length v)%nat -> IsFinished (Er := Er) (v ++ w) = (success false, v ++ w).
Proof. destruct v; simpl; [lia|done]. Qed.

Lemma read_bytes_at p rest : fits (rlp_string p ++ rest) -> read_bytes (rlp_string p ++ rest) = (success p, rest).
Proof. apply consumes_read_bytes. Qed.

(** The loop reads the capabilities and stops at the string that follows. *)
Lemma read_capabilities_list caps fuel p rest :
  Forall (fun cap => in_width 8 (cap_version cap)) caps -> (length caps < fuel)%nat ->
  fits (concat (map rlp_capability caps) ++ rlp_string p ++ rest) ->
  read_capabilities fuel (concat (map rlp_capability caps) ++ rlp_string p ++ rest)
  = (success caps, rlp_string p ++ rest).
Proof.
  revert fuel. induction caps as [|[nm ver] caps IH]; intros fuel Hc Hfuel Hf; (destruct fuel as [|fuel]; [simpl in Hfuel; lia|]);
    cbn [read_capabilities map concat] in *.
  - simpl app in *. pose proof (rlp_string_pos p) as Hp.
    rewrite (bind_success _ _ _ _ _ (IsFinished_false _ _ Hp)).
    cbn iota. by rewrite (bind_success _ _ _ _ _ (attempt_success _ _ _ _ (IsList_string _ _ Hf))).
  - apply Forall_cons in Hc as [Hv Hc]. cbn [cap_version] in Hv. unfold rlp_capability at 1 in Hf. unfold rlp_capability at 1. cbn [cap_name cap_version] in *.
    rewrite <- app_assoc in *. set (tl := concat (map rlp_capability caps) ++ rlp_string p ++ rest) in *.
    rewrite (bind_success _ _ _ _ _ (IsFinished_false _ _ (rlp_list_pos _))).
    cbn iota. rewrite (bind_success _ _ _ _ _ (attempt_success _ _ _ _ (IsList_list _ _ Hf))). change (negb (default false (Some true))) with false; cbn iota.
    rewrite (bind_success _ _ _ _ _ (attempt_success _ _ _ _ (ReadListHeaderBytes_list _ _ Hf))). cbn iota.
    unfold rlp_list in Hf. rewrite <- !app_assoc in *. apply fits_app_r in Hf.
    rewrite (bind_success _ _ _ _ _ (attempt_success _ _ _ _ (read_bytes_at _ _ Hf))). cbn iota.
    apply fits_app_r in Hf. unfold rlp_uint in *.
    rewrite (bind_success _ _ _ _ _ (attempt_success _ _ _ _ (read_bytes_at _ _ Hf))). cbn iota.
    apply fits_app_r in Hf. rewrite (bind_success _ _ _ _ _ (IH fuel Hc ltac:(simpl in Hfuel; lia) Hf)).
    by rewrite first_byte_be_min.
Qed.

Lemma rlp_capability_pos cap : rlp_capability cap <> [].
Proof. intros E. pose proof (rlp_list_pos (rlp_string (cap_name cap) ++ rlp_uint (cap_version cap))) as H.
  unfold rlp_capability in E. rewrite E in H. simpl in H. lia. Qed.

Lemma hello_decode_wire m : wf_hello m -> fits (rlp_hello m) -> hello_decode (rlp_hello m) = success m.
Proof.
  intros [Hv Hc Hp Hn] Hf. unfold hello_decode. apply run_decoder_eats; [done|]. destruct m as [ver cid caps port nid].
  unfold rlp_hello, read_hello; cbn [hello_protocol_version hello_client_id hello_capabilities hello_listen_port hello_node_id] in *.
  unfold rlp_list at 1. eapply eats_bind; [apply eats_or_fail, eats_ReadListHeaderBytes|].
  eapply eats_bind; [apply eats_or_fail, consumes_read_bytes|]. rewrite first_byte_be_min by done.
  eapply eats_bind; [apply eats_or_fail, consumes_read_bytes|].
  unfold rlp_list. rewrite <- app_assoc. eapply eats_bind; [rewrite <- app_assoc; apply eats_or_fail, eats_ReadListHeaderBytes|].
  intros Hf'. rewrite <- !app_assoc in *. unfold rlp_uint in *.
  pose proof (concat_map_length_ge rlp_capability caps (fun cap _ => rlp_capability_pos cap)) as Hl.
  rewrite (bind_success _ _ _ caps (rlp_string (be_min port) ++ rlp_string nid ++ [])).
  2: { unfold read_capability_list. rewrite (bind_success view _ _ _ _ eq_refl).
       apply read_capabilities_list; [done|rewrite length_app; lia|done]. }
  apply fits_app_r in Hf'. revert Hf'. rewrite app_assoc. apply eats_bind with port.
  - apply eats_or_fail, (consumes_read_integral 2); [unfold is_sizeof; lia|done].
  - eapply eats_bind_last; [apply eats_or_fail, consumes_read_bytes|]. rewrite Hn. apply eats_ret.
Qed.

(** A call that returns a value and leaves a suffix of [v]. *)
Definition returns_within {E A} (v : ByteView) (r : outcome E A * ByteView) : Prop :=
  match r with (success _, w) => w `suffix_of` v | _ => False end.

Lemma returns_within_trans {E A} v w (r : outcome E A * ByteView) :
  w `suffix_of` v -> returns_within w r -> returns_within v r.
Proof. destruct r as [[a|e|f] u]; simpl; [|done|done]. intros. by transitivity w. Qed.

Lemma returns_within_bind {E A B} v w (m : M ByteView E A) (k : A -> M ByteView E B) :
  returns_within v (m w) -> (forall a w', w' `suffix_of` v -> m w = (success a, w') -> returns_within v (k a w')) ->
  returns_within v ((m ≫= k) w).
Proof. unfold mbind, M_bind. intros Hm Hk. destruct (m w) as [[a|e|f] w']; [by eapply Hk|done|done]. Qed.

Lemma attempt_within {E E' A} n (m : M ByteView E A) Q v w :
  safe n m Q -> fits v -> w `suffix_of` v -> returns_within v (attempt (E' := E') m w).
Proof.
  intros H Hv Hw. specialize (H w (fits_suffix _ _ Hw Hv)). unfold attempt.
  destruct (m w) as [[a|e|f] w']; simpl; [destruct H; by transitivity w|by transitivity w|done].
Qed.

(** Each iteration of the loop consumes a list header, so it ends before the fuel does. *)
Lemma read_capabilities_returns fuel v :
  fits v -> (length v < fuel)%nat -> returns_within v (read_capabilities fuel v).
Proof.
  revert v. induction fuel as [|fuel IH]; intros v Hv Hfuel; [lia|].
  cbn [read_capabilities]. apply returns_within_bind; [by exists []|].
  intros [] w _ Ew; unfold IsFinished in Ew; revert Ew; run; intros [= E <-]; [by exists []|].
  apply returns_within_bind; [destruct v; by exists []|]. intros l w _ El. 
  assert (w = v) as -> by (revert El; unfold attempt, IsList; run; destruct v; by intros [= <- <-]).
  case_match; [by exists []|]. apply returns_within_bind; [by eapply attempt_within; [apply safe_ReadListHeaderBytes|..]|].
  intros [n|] w Hw Ew; [|done].
  assert (length w < fuel)%nat as Hl.
  { pose proof (safe_ReadListHeaderBytes v Hv) as H1. unfold attempt in Ew.
    destruct (ReadListHeaderBytes v) as [[]]; simplify_eq/=. lia. }
  apply (returns_within_trans _ w); [done|]. pose proof (fits_suffix _ _ Hw Hv) as Hfw.
  assert (forall w', w' `suffix_of` w -> returns_within w (read_capabilities fuel w')) as Hloop.
  { intros w' Hw'. pose proof (suffix_length _ _ Hw'). apply (returns_within_trans _ w'); [done|].
    apply IH; [by eapply fits_suffix|lia]. }
  apply returns_within_bind; [by eapply attempt_within; [apply safe_read_bytes|..]|]. intros [nm|] w1 Hw1 _; [|auto].
  apply returns_within_bind; [by eapply attempt_within; [apply safe_read_bytes|..]|]. intros [ver|] w2 Hw2 _; [|auto].
  apply returns_within_bind; [auto|]. by intros.
Qed.

Lemma safe_returns {E A} (m : M ByteView E A) :
  (forall v, fits v -> returns_within v (m v)) -> safe 0 m (fun _ => True).
Proof.
  intros H v Hv. specialize (H v Hv). destruct (m v) as [[a|e|f] w]; [|done|done].
  split; [done|]. split; [by apply suffix_length|done].
Qed.

Lemma safe_read_capability_list : safe 0 read_capability_list (fun _ => True).
Proof. apply safe_returns. intros v Hv. apply (read_capabilities_returns (S (length v)) v Hv). lia. Qed.
#[export] Hint Resolve safe_read_capability_list : safe.

Lemma safe_read_hello :
  safe 1 read_hello (fun m => Zlen (hello_node_id m) = kPublicKeySize /\ in_width 16 (hello_listen_port m)).
Proof.
  unfold read_hello. safe_steps. cbn [hello_node_id hello_listen_port]. split; [|done].
  match goal with H : negb _ = false |- _ => apply negb_false_iff in H end. by zbool.
Qed.

Lemma fits_rlp_reason reason : in_width 8 reason -> fits (rlp_list (rlp_uint reason)).
Proof.
  unfold in_width. intros Hr. unfold fits, rlp_uint. pose proof (nbytes_u64 reason ltac:(lia)).
  pose proof (rlp_string_length_le (be_min reason)) as H1. rewrite length_be_min in H1.
  pose proof (rlp_list_length_le (rlp_string (be_min reason))). lia.
Qed.

Lemma disconnect_roundtrip reason : in_width 8 reason ->
  exists bs, disconnect_encode reason = success bs /\ disconnect_decode bs = success reason.
Proof.
  intros Hr. pose proof (fits_rlp_reason _ Hr) as Hf. exists (rlp_list (rlp_uint reason)). split.
  { unfold disconnect_encode. rewrite (run_encoder_emits _ (rlp_list (rlp_uint reason))); [done|done|emit]. }
  unfold disconnect_decode. pose proof (rlp_list_pos (rlp_uint reason)).
  destruct (rlp_list (rlp_uint reason)) as [|b r] eqn:E; [simpl in *; lia|]. rewrite <- E in *.
  unfold run_decoder. rewrite (bind_success _ _ _ _ _ (attempt_success _ _ _ _ (ReadListHeaderBytes_whole _ Hf))).
  pose proof (rlp_string_pos (be_min reason)) as Hp. cbn iota. unfold rlp_uint.
  rewrite (proj2 (Z.eqb_neq _ _)) by lia. unfold rlp_list in Hf. apply fits_app_r in Hf.
  pose proof (read_bytes_at (be_min reason) []) as Hb. rewrite app_nil_r in Hb.
  rewrite (bind_success _ _ _ _ _ (attempt_success _ _ _ _ (Hb Hf))). cbn iota. by rewrite first_byte_be_min.
Qed.

(** ** Claims *)

(** What [HelloMessage], [DisconnectMessage], [PingMessage] and [PongMessage] encode they decode to
    the same value: the capability loop of Hello, which does not use the list length it read, stops exactly
    at the port, for any number of capabilities. *)
Theorem rlpx_messages_roundtrip (m : HelloMessage) (reason : Z) :
  wf_hello m -> Zlen (rlp_hello m) < 2 ^ 64 -> in_width 8 reason ->
  (exists bs, hello_encode m = success bs /\ hello_decode bs = success m) /\
  (exists bs, disconnect_encode reason = success bs /\ disconnect_decode bs = success reason) /\
  (exists bs, ping_encode = success bs /\ ping_decode bs = success tt) /\
  (exists bs, pong_encode = success bs /\ pong_decode bs = success tt).
Proof.
  intros Hm Hl Hr. split; [|split; [by apply disconnect_roundtrip|split; by eexists]].
  exists (rlp_hello m). split; [by apply hello_encode_wire|by apply hello_decode_wire].
Qed.

Definition hello_sample : HelloMessage :=
  mkHello 5 [x65; x76; x6d] [mkCapability [x65; x74; x68] 68; mkCapability [x73; x6e; x61; x70] 1] 30303 (replicate 64 x07).

Lemma rlpx_messages_roundtrip_witness :
  exists bs, hello_encode hello_sample = success bs /\ hello_decode bs = success hello_sample.
Proof.
  apply (rlpx_messages_roundtrip hello_sample 4).
  - constructor; [by vm_compute| |by vm_compute|reflexivity]. repeat constructor; vm_compute; intuition congruence.
  - vm_compute. reflexivity.
  - vm_compute. intuition congruence.
Defined.

(** On any bytes [HelloMessage::decode] returns (the capability loop ends, because each iteration consumes
    a list header), reads nothing outside its input, and a decoded node id has exactly 64 bytes. *)
Theorem hello_decode_safe (data : list byte) :
  fits data ->
  no_crash (hello_decode data) /\
  forall m, hello_decode data = success m -> Zlen (hello_node_id m) = kPublicKeySize.
Proof.
  intros Hf. split; [by eapply run_decoder_safe; [apply safe_read_hello|]|].
  intros m Hm. by eapply (run_decoder_post _ _ _ _ _ safe_read_hello) in Hm as [? _].
Qed.

Lemma hello_decode_safe_witness : no_crash (hello_decode [xc4; xc1; x80; xc0; x80]).
Proof. apply (hello_decode_safe [xc4; xc1; x80; xc0; x80]). vm_compute. reflexivity. Defined.
