(* ===== verification/FrameCipher.v ===== *)
(** * RLPx framing

    [src/rlpx/framing/frame_cipher.cpp], [src/rlpx/framing/message_stream.cpp]
    and the [SocketTransport] they write to and read from.

    Keccak-256, the AES block cipher, the keystream of AES-256-CTR with a zero
    initial vector and Snappy are not under [src]: they are the fields of the
    classes [FramePrimitives] and [Snappy], and [FramePrimitivesLaws] and
    [SnappyLaws] are what the code relies on (the sizes of the digests, and that
    decompression inverts compression).  [EVP_EncryptUpdate] takes an [int]
    length; the stream only passes lengths below [2 ^ 25].

    A [FrameCipherImpl] has one counter-mode position and one MAC buffer for each
    direction; two ciphers are [synced] when what the first writes the second is
    about to read. *)

From S2P Require Import Prelude RlpSpec RlpCommon RlpEncoder RlpDecoder DecodeLogic EthObjects RlpxMessages.

(** ** rlpx_types.hpp *)

Definition kMacSize : Z := 16.
Definition kFrameHeaderSize : Z := 16.
Definition kFrameHeaderWithMacSize : Z := kFrameHeaderSize + kMacSize.
Definition kFramePaddingAlignment : Z := 16.
Definition kFrameHeaderStaticRlpBytes : list byte := [xc2; x80; x80].
Definition kMaxFrameSize : Z := 16 * 1024 * 1024.

(** [auth_keys.hpp] *)
Record FrameSecrets := mkFrameSecrets {
  aes_secret : list byte;
  mac_secret : list byte;
  egress_mac_seed : list byte;
  ingress_mac_seed : list byte
}.

(** ** Primitives *)

Class FramePrimitives := {
  keccak256 : list byte -> list byte;
  aes_ecb_encrypt_block : list byte -> list byte -> list byte;
  ctr_keystream : list byte -> nat -> byte
}.

Class FramePrimitivesLaws `{FramePrimitives} : Prop := {
  length_keccak256 m : length (keccak256 m) = 32%nat;
  length_aes_block key block : length (aes_ecb_encrypt_block key block) = 16%nat
}.

Definition xor_byte (a b : byte) : byte := byte_of (Z.lxor (u8 a) (u8 b)).

Definition xor_bytes : list byte -> list byte -> list byte := zip_with xor_byte.

(** ** frame_cipher.cpp *)

Record HashMAC := mkHashMAC { mac_key : list byte; written : list byte }.

Record AesCtrState := mkAesCtr { ctr_key : list byte; ctr_pos : nat }.

Record FrameCipherImpl := mkCipher {
  enc : AesCtrState;
  dec : AesCtrState;
  egress_mac : HashMAC;
  ingress_mac : HashMAC
}.

Notation Cipher := (M FrameCipherImpl FramingError.t).

Section cipher.
Context `{FramePrimitives}.

Definition mac_write (data : list byte) (h : HashMAC) : HashMAC := mkHashMAC (mac_key h) (written h ++ data).

Definition mac_sum (h : HashMAC) : list byte := keccak256 (written h).

Definition mac_compute (sum1 seed16 : list byte) (h : HashMAC) : list byte * HashMAC :=
  let aes_buf := xor_bytes (aes_ecb_encrypt_block (mac_key h) (take 16 sum1)) (take 16 seed16) in
  let h' := mac_write aes_buf h in
  (take 16 (mac_sum h'), h').

Definition compute_header (header_ct16 : list byte) (h : HashMAC) : list byte * HashMAC :=
  mac_compute (mac_sum h) header_ct16 h.

Definition compute_frame (framedata : list byte) (h : HashMAC) : list byte * HashMAC :=
  let h' := mac_write framedata h in
  let seed := mac_sum h' in
  mac_compute seed seed h'.

(** [init]: a context with the key and the zero counter. *)
Definition ctr_init (key32 : list byte) : AesCtrState := mkAesCtr key32 0.

(** [process]: encryption and decryption are the same call. *)
Definition ctr_process (data : list byte) (c : AesCtrState) : list byte * AesCtrState :=
  (xor_bytes data (ctr_keystream (ctr_key c) <$> seq (ctr_pos c) (length data)),
   mkAesCtr (ctr_key c) (ctr_pos c + length data)).

(** The constructor. *)
Definition FrameCipher_new (secrets : FrameSecrets) : FrameCipherImpl :=
  mkCipher (ctr_init (aes_secret secrets)) (ctr_init (aes_secret secrets))
    (mac_write (egress_mac_seed secrets) (mkHashMAC (mac_secret secrets) []))
    (mac_write (ingress_mac_seed secrets) (mkHashMAC (mac_secret secrets) [])).

(** Calls on the members of the cipher. *)
Definition encrypt_bytes (data : list byte) : Cipher (list byte) := fun c =>
  let '(out, e) := ctr_process data (enc c) in (success out, mkCipher e (dec c) (egress_mac c) (ingress_mac c)).
Definition decrypt_bytes (data : list byte) : Cipher (list byte) := fun c =>
  let '(out, d) := ctr_process data (dec c) in (success out, mkCipher (enc c) d (egress_mac c) (ingress_mac c)).
Definition on_egress (f : HashMAC -> list byte * HashMAC) : Cipher (list byte) := fun c =>
  let '(out, h) := f (egress_mac c) in (success out, mkCipher (enc c) (dec c) h (ingress_mac c)).
Definition on_ingress (f : HashMAC -> list byte * HashMAC) : Cipher (list byte) := fun c =>
  let '(out, h) := f (ingress_mac c) in (success out, mkCipher (enc c) (dec c) (egress_mac c) h).

Definition frame_padding (fsize : Z) : Z :=
  if negb (fsize mod kFramePaddingAlignment =? 0) then kFramePaddingAlignment - fsize mod kFramePaddingAlignment else 0.

(** The 16-byte header: length, fixed RLP bytes, zeros. *)
Definition frame_header (fsize : Z) : list byte :=
  [byte_of (Z.land (Z.shiftr fsize 16) 255); byte_of (Z.land (Z.shiftr fsize 8) 255);
   byte_of (Z.land (Z.shiftr fsize 0) 255)] ++ kFrameHeaderStaticRlpBytes ++ replicate 10 x00.

Definition encrypt_frame (frame_data : list byte) : Cipher (list byte) :=
  let fsize := Zlen frame_data in
  if bool_decide (frame_data = []) || (kMaxFrameSize <? fsize) then fail FramingError.kInvalidFrameSize else
  header_ct ← encrypt_bytes (frame_header fsize);
  header_mac ← on_egress (compute_header header_ct);
  frame_ct ← encrypt_bytes (frame_data ++ replicate (Z.to_nat (frame_padding fsize)) x00);
  frame_mac ← on_egress (compute_frame frame_ct);
  mret (header_ct ++ header_mac ++ frame_ct ++ frame_mac).

(** The frame length of a decrypted header. *)
Definition header_fsize (header_pt : list byte) : Z :=
  match header_pt with
  | h0 :: h1 :: h2 :: _ => Z.lor (Z.lor (Z.shiftl (u8 h0) 16) (Z.shiftl (u8 h1) 8)) (Z.shiftl (u8 h2) 0)
  | _ => 0
  end.

Definition decrypt_header (header_ct header_mac_wire : list byte) : Cipher Z :=
  expected_mac ← on_ingress (compute_header header_ct);
  if negb (bool_decide (header_mac_wire = expected_mac)) then fail FramingError.kMacMismatch else
  header_pt ← decrypt_bytes header_ct;
  let fsize := header_fsize header_pt in
  if (fsize =? 0) || (kMaxFrameSize <? fsize) then fail FramingError.kInvalidFrameSize else
  mret fsize.

Definition decrypt_frame_body (fsize : Z) (frame_ct_padded frame_mac : list byte) : Cipher (list byte) :=
  if (Zlen frame_ct_padded <? fsize) || (Zlen frame_mac <? kMacSize) then fail FramingError.kInvalidFrameSize else
  frame_mac_expected ← on_ingress (compute_frame frame_ct_padded);
  if negb (bool_decide (take 16 frame_mac = frame_mac_expected)) then fail FramingError.kMacMismatch else
  frame_pt ← decrypt_bytes frame_ct_padded;
  mret (take (Z.to_nat fsize) frame_pt).

Definition decrypt_frame (header_ciphertext header_mac frame_ciphertext frame_mac : list byte) : Cipher (list byte) :=
  if (Zlen header_ciphertext <? kFrameHeaderSize) || (Zlen header_mac <? kMacSize) || (Zlen frame_mac <? kMacSize)
  then fail FramingError.kInvalidFrameSize else
  fsize ← decrypt_header (take 16 header_ciphertext) (take 16 header_mac);
  if Zlen frame_ciphertext <? fsize then fail FramingError.kInvalidFrameSize else
  frame_mac_expected ← on_ingress (compute_frame frame_ciphertext);
  if negb (bool_decide (take 16 frame_mac = frame_mac_expected)) then fail FramingError.kMacMismatch else
  frame_pt ← decrypt_bytes frame_ciphertext;
  mret (take (Z.to_nat fsize) frame_pt).
End cipher.

(** ** socket_transport.cpp *)

(** The bytes the peer has sent and not yet read, those sent to it, and the state
    of the socket.  A read that finds too few bytes ends when the peer closes. *)
Record Transport := mkTransport { rx : list byte; tx : list byte; socket_open : bool; peer_reset : bool }.

Definition read_exact (num_bytes : Z) : M Transport SessionError.t (list byte) := fun t =>
  if negb (socket_open t) then (failure SessionError.kInvalidMessage, t) else
  if num_bytes <=? Zlen (rx t) then
    (success (take (Z.to_nat num_bytes) (rx t)), mkTransport (drop (Z.to_nat num_bytes) (rx t)) (tx t) true (peer_reset t))
  else (failure SessionError.kConnectionFailed, mkTransport [] (tx t) true (peer_reset t)).

Definition write_all (data : list byte) : M Transport SessionError.t unit := fun t =>
  if negb (socket_open t) then (failure SessionError.kInvalidMessage, t) else
  if peer_reset t then (failure SessionError.kConnectionFailed, t) else
  (success tt, mkTransport (rx t) (tx t ++ data) true false).

Definition transport_close (t : Transport) : Transport := mkTransport (rx t) (tx t) false (peer_reset t).

(** ** message_stream.cpp *)

Class Snappy := {
  snappy_compress : list byte -> list byte;
  (** [None] when [GetUncompressedLength] or [RawUncompress] fails. *)
  snappy_uncompress : list byte -> option (list byte)
}.

Class SnappyLaws `{Snappy} : Prop := {
  snappy_roundtrip p : snappy_uncompress (snappy_compress p) = Some p;
  (** The compressed form starts with the varint of the length. *)
  snappy_nonempty p : snappy_compress p <> []
}.

Record MessageStream := mkStream { cipher : FrameCipherImpl; transport : Transport; compression_enabled : bool }.

Notation Stream := (M MessageStream).

Definition with_cipher {E A} (m : M FrameCipherImpl E A) : Stream E A := fun s =>
  let '(r, c) := m (cipher s) in (r, mkStream c (transport s) (compression_enabled s)).
Definition with_transport {E A} (m : M Transport E A) : Stream E A := fun s =>
  let '(r, t) := m (transport s) in (r, mkStream (cipher s) t (compression_enabled s)).

Definition stream_new (c : FrameCipherImpl) (t : Transport) : MessageStream := mkStream c t false.
Definition stream_close (s : MessageStream) : MessageStream :=
  mkStream (cipher s) (transport_close (transport s)) (compression_enabled s).
Definition enable_compression (s : MessageStream) : MessageStream := mkStream (cipher s) (transport s) true.

Section stream.
Context `{FramePrimitives, Snappy}.

Definition send_message (m : Message) : Stream SessionError.t unit :=
  id_bytes ← lift (or_error (run_encoder (add_integral 1 (msg_id m))) SessionError.kInvalidMessage);
  s ← get_state;
  let payload_bytes :=
    if bool_decide (msg_payload m = []) then []
    else if compression_enabled s then snappy_compress (msg_payload m) else msg_payload m in
  let message_data := id_bytes ++ payload_bytes in
  if kMaxFrameSize <? Zlen message_data then fail SessionError.kInvalidMessage else
  encrypted_frame ← or_fail (with_cipher (encrypt_frame message_data)) SessionError.kEncryptionError;
  with_transport (write_all encrypted_frame).

Definition send_frame (frame_data : list byte) : Stream FramingError.t unit :=
  encrypted ← with_cipher (encrypt_frame frame_data);
  or_fail (with_transport (write_all encrypted)) FramingError.kEncryptionFailed.

(** Every failure is reported as an empty frame. *)
Definition receive_frame : Stream FramingError.t (list byte) :=
  header_with_mac ← attempt (with_transport (read_exact kFrameHeaderWithMacSize));
  match header_with_mac with
  | None => mret []
  | Some header_data =>
      frame_size_result ← attempt (with_cipher (decrypt_header (take 16 header_data) (take 16 (drop 16 header_data))));
      match frame_size_result with
      | None => mret []
      | Some frame_size =>
          let padded_size := frame_size + frame_padding frame_size in
          frame_with_mac ← attempt (with_transport (read_exact (padded_size + kMacSize)));
          match frame_with_mac with
          | None => mret []
          | Some frame_data =>
              decrypted ← attempt (with_cipher (decrypt_frame_body frame_size
                            (take (Z.to_nat padded_size) frame_data) (take 16 (drop (Z.to_nat padded_size) frame_data))));
              mret (default [] decrypted)
          end
      end
  end.

Definition receive_message : Stream SessionError.t Message :=
  frame_result ← attempt receive_frame;
  match frame_result with
  | None | Some [] => fail SessionError.kInvalidMessage
  | Some frame_data =>
      match read_integral 8 frame_data with
      | (success mid, remaining) =>
          s ← get_state;
          if compression_enabled s && negb (bool_decide (remaining = [])) then
            match snappy_uncompress remaining with
            | None => fail SessionError.kInvalidMessage
            | Some payload => mret (mkMessage (mid mod 256) payload)
            end
          else mret (mkMessage (mid mod 256) remaining)
      | (failure _, _) => fail SessionError.kInvalidMessage
      | (crash f, _) => crash_with f
      end
  end.
End stream.

(** ** The cipher in both directions *)

(** What [a] encrypts, [b] decrypts next. *)
Definition synced (a b : FrameCipherImpl) : Prop := enc a = dec b /\ egress_mac a = ingress_mac b.

Lemma xor_byte_twice a k : xor_byte (xor_byte a k) k = a.
Proof.
  unfold xor_byte. apply u8_inj. rewrite !u8_byte_of.
  assert (forall x y, 0 <= x < 256 -> 0 <= y < 256 -> 0 <= Z.lxor x y < 256) as Hb.
  { intros x y Hx Hy. split; [apply Z.lxor_nonneg; lia|]. change 256 with (2 ^ 8).
    destruct (decide (Z.lxor x y = 0)) as [->|Hn]; [lia|]. apply Z.log2_lt_pow2; [pose proof (Z.lxor_nonneg x y); lia|].
    eapply Z.le_lt_trans; [apply Z.log2_lxor; lia|]. 
    assert (forall z, 0 <= z < 256 -> Z.log2 z < 8) as Hl; [|pose proof (Hl x Hx); pose proof (Hl y Hy); lia].
    intros z Hz. destruct (decide (z = 0)) as [->|]; [done|]. apply Z.log2_lt_pow2; lia. }
  pose proof (u8_range a). pose proof (u8_range k).
  rewrite (Z.mod_small (Z.lxor (u8 a) (u8 k))), Z.lxor_assoc, Z.lxor_nilpotent, Z.lxor_0_r by auto.
  apply Z.mod_small. lia.
Qed.

Lemma xor_bytes_twice l ks : (length l <= length ks)%nat -> xor_bytes (xor_bytes l ks) ks = l.
Proof.
  revert ks. induction l as [|a l IH]; intros [|k ks]; simpl; try done; [lia|]. intros Hl.
  rewrite xor_byte_twice. f_equal. apply IH. lia.
Qed.

Lemma length_xor_bytes l ks : length (xor_bytes l ks) = (length l `min` length ks)%nat.
Proof. apply length_zip_with. Qed.

Section cipher_facts.
Context `{FramePrimitivesLaws}.

Lemma length_ctr data c : length (ctr_process data c).1 = length data.
Proof. simpl. rewrite length_xor_bytes, length_fmap, length_seq. lia. Qed.

(** Counter mode is its own inverse from the same position. *)
Lemma ctr_process_inv data c :
  ctr_process (ctr_process data c).1 c = (data, (ctr_process data c).2).
Proof.
  unfold ctr_process at 1. rewrite length_ctr. simpl.
  rewrite xor_bytes_twice; [done|]. rewrite length_fmap, length_seq. lia.
Qed.

Lemma length_mac sum1 seed16 h : length (mac_compute sum1 seed16 h).1 = 16%nat.
Proof. simpl. unfold mac_sum. rewrite length_take, length_keccak256. lia. Qed.

(** ** Headers *)

Lemma length_frame_header fsize : length (frame_header fsize) = 16%nat.
Proof. done. Qed.

Lemma header_fsize_frame_header fsize tl :
  0 <= fsize -> header_fsize (frame_header fsize ++ tl) = fsize mod 2 ^ 24.
Proof.
  intros Hn. cbn [frame_header app header_fsize]. rewrite !(Z.land_ones _ 8) by lia.
  rewrite !u8_byte_of. rewrite !Z.mod_mod by lia. rewrite !Z.shiftl_mul_pow2, !Z.shiftr_div_pow2, Z.mul_1_r, Z.div_1_r by lia.
  pose proof (Z.mod_pos_bound (fsize / 2 ^ 8) 256 ltac:(lia)). pose proof (Z.mod_pos_bound fsize 256 ltac:(lia)).
  rewrite (lor_add _ _ 16) by lia. change (2 ^ 16) with (2 ^ 8 * 2 ^ 8) at 2. rewrite Z.mul_assoc, <- Z.mul_add_distr_r.
  rewrite lor_add by lia. change (2 ^ 8) with 256. change (2 ^ 16) with 65536. change (2 ^ 24) with 16777216.
  Z.div_mod_to_equations. lia.
Qed.

Lemma header_fsize_range header_pt : 0 <= header_fsize header_pt < 2 ^ 24.
Proof.
  destruct header_pt as [|h0 [|h1 [|h2 tl]]]; simpl header_fsize; try lia.
  pose proof (u8_range h0). pose proof (u8_range h1). pose proof (u8_range h2).
  rewrite !Z.shiftl_mul_pow2 by lia. rewrite (lor_add _ _ 16) by lia.
  replace (u8 h0 * 2 ^ 16 + u8 h1 * 2 ^ 8) with ((u8 h0 * 2 ^ 8 + u8 h1) * 2 ^ 8) by lia. rewrite lor_add by lia. lia.
Qed.

(** ** Frames *)

Lemma on_egress_eq f c : on_egress f c = (success (f (egress_mac c)).1, mkCipher (enc c) (dec c) (f (egress_mac c)).2 (ingress_mac c)).
Proof. unfold on_egress. by destruct (f _). Qed.

Lemma on_ingress_eq f c : on_ingress f c = (success (f (ingress_mac c)).1, mkCipher (enc c) (dec c) (egress_mac c) (f (ingress_mac c)).2).
Proof. unfold on_ingress. by destruct (f _). Qed.

Lemma encrypt_bytes_eq data c :
  encrypt_bytes data c = (success (ctr_process data (enc c)).1, mkCipher (ctr_process data (enc c)).2 (dec c) (egress_mac c) (ingress_mac c)).
Proof. done. Qed.

Lemma decrypt_bytes_eq data c :
  decrypt_bytes data c = (success (ctr_process data (dec c)).1, mkCipher (enc c) (ctr_process data (dec c)).2 (egress_mac c) (ingress_mac c)).
Proof. done. Qed.

(** The parts of the frame that [a] makes of [data], and what its state is after. *)
Definition header_ct_of (data : list byte) (a : FrameCipherImpl) : list byte :=
  (ctr_process (frame_header (Zlen data)) (enc a)).1.
Definition header_mac_of (data : list byte) (a : FrameCipherImpl) : list byte * HashMAC :=
  compute_header (header_ct_of data a) (egress_mac a).
Definition frame_padded (data : list byte) : list byte := data ++ replicate (Z.to_nat (frame_padding (Zlen data))) x00.
Definition body_ct_of (data : list byte) (a : FrameCipherImpl) : list byte * AesCtrState :=
  ctr_process (frame_padded data) (ctr_process (frame_header (Zlen data)) (enc a)).2.
Definition body_mac_of (data : list byte) (a : FrameCipherImpl) : list byte * HashMAC :=
  compute_frame (body_ct_of data a).1 (header_mac_of data a).2.
Definition frame_wire (data : list byte) (a : FrameCipherImpl) : list byte :=
  header_ct_of data a ++ (header_mac_of data a).1 ++ (body_ct_of data a).1 ++ (body_mac_of data a).1.
Definition after_send (data : list byte) (a : FrameCipherImpl) : FrameCipherImpl :=
  mkCipher (body_ct_of data a).2 (dec a) (body_mac_of data a).2 (ingress_mac a).
Definition after_receive (data : list byte) (a b : FrameCipherImpl) : FrameCipherImpl :=
  mkCipher (enc b) (body_ct_of data a).2 (egress_mac b) (body_mac_of data a).2.

Lemma encrypt_frame_eq data a :
  0 < Zlen data <= kMaxFrameSize -> encrypt_frame data a = (success (frame_wire data a), after_send data a).
Proof.
  intros Hd. unfold encrypt_frame. rewrite bool_decide_false by (intros ->; simpl in Hd; lia). rewrite (proj2 (Z.ltb_ge _ _)) by lia.
  cbn [orb]. unfold mbind, M_bind. rewrite encrypt_bytes_eq, on_egress_eq. cbn [enc dec egress_mac ingress_mac].
  rewrite encrypt_bytes_eq, on_egress_eq. done.
Qed.

Lemma decrypt_header_eq data a b :
  synced a b -> 0 < Zlen data <= kMaxFrameSize ->
  decrypt_header (header_ct_of data a) (header_mac_of data a).1 b =
  (if Zlen data =? kMaxFrameSize then failure FramingError.kInvalidFrameSize else success (Zlen data),
   mkCipher (enc b) (ctr_process (frame_header (Zlen data)) (enc a)).2 (egress_mac b) (header_mac_of data a).2).
Proof.
  intros [He Hm] Hd. unfold decrypt_header, mbind, M_bind. rewrite on_ingress_eq. cbn [enc dec egress_mac ingress_mac].
  rewrite <- Hm. fold (header_mac_of data a). rewrite bool_decide_true by done. cbn [negb].
  rewrite decrypt_bytes_eq. cbn [enc dec egress_mac ingress_mac]. rewrite <- He. unfold header_ct_of.
  rewrite ctr_process_inv. cbn [fst snd]. rewrite <- (app_nil_r (frame_header _)), header_fsize_frame_header, app_nil_r by lia.
  unfold kMaxFrameSize in *. destruct (Z.eqb_spec (Zlen data) (16 * 1024 * 1024)) as [E|E].
  - by rewrite E.
  - rewrite Z.mod_small by lia. rewrite (proj2 (Z.eqb_neq _ _)), (proj2 (Z.ltb_ge _ _)) by lia. done.
Qed.

Lemma frame_padding_nonneg fsize : 0 <= frame_padding fsize < 16.
Proof.
  unfold frame_padding, kFramePaddingAlignment. pose proof (Z.mod_pos_bound fsize 16 ltac:(done)).
  destruct (Z.eqb_spec (fsize mod 16) 0); simpl; lia.
Qed.

Lemma length_frame_padded data : Zlen (frame_padded data) = Zlen data + frame_padding (Zlen data).
Proof.
  unfold frame_padded. rewrite length_app, length_replicate. pose proof (frame_padding_nonneg (Zlen data)). lia.
Qed.

Lemma length_mac_of data a : length (body_mac_of data a).1 = 16%nat.
Proof. apply length_mac. Qed.

Lemma decrypt_body_eq data a b :
  dec b = (ctr_process (frame_header (Zlen data)) (enc a)).2 -> ingress_mac b = (header_mac_of data a).2 ->
  decrypt_frame_body (Zlen data) (body_ct_of data a).1 (body_mac_of data a).1 b = (success data, after_receive data a b).
Proof.
  intros He Hm. pose proof (length_mac_of data a) as Hl. unfold decrypt_frame_body.
  assert (length (body_ct_of data a).1 = length (frame_padded data)) as Hb by apply length_ctr.
  rewrite Hb, Hl, length_frame_padded, (proj2 (Z.ltb_ge _ _)) by (pose proof (frame_padding_nonneg (Zlen data)); lia).
  change (Z.of_nat 16 <? kMacSize) with false. cbn [orb].
  unfold mbind, M_bind. rewrite on_ingress_eq, Hm. fold (body_mac_of data a).
  rewrite take_ge, bool_decide_true by (done || lia). cbn [negb]. rewrite decrypt_bytes_eq. cbn [enc dec egress_mac ingress_mac].
  rewrite He. unfold body_ct_of at 1 2. rewrite ctr_process_inv. cbn [fst snd].
  unfold frame_padded at 1. by rewrite take_app_Zlen.
Qed.

Lemma synced_after data a b : synced a b -> synced (after_send data a) (after_receive data a b).
Proof. by intros []. Qed.

Lemma length_header_ct data a : length (header_ct_of data a) = 16%nat.
Proof. apply length_ctr. Qed.

Lemma length_header_mac data a : length (header_mac_of data a).1 = 16%nat.
Proof. apply length_mac. Qed.

Lemma length_body_ct data a : length (body_ct_of data a).1 = length (frame_padded data).
Proof. apply length_ctr. Qed.

Lemma decrypt_frame_eq data a b :
  synced a b -> 0 < Zlen data < kMaxFrameSize ->
  decrypt_frame (header_ct_of data a) (header_mac_of data a).1 (body_ct_of data a).1 (body_mac_of data a).1 b =
  (success data, after_receive data a b).
Proof.
  intros Hs Hd. unfold decrypt_frame. pose proof (length_mac_of data a) as Hm. pose proof (length_body_ct data a) as Hb.
  rewrite length_header_ct, length_header_mac, Hm. change (Z.of_nat 16 <? kFrameHeaderSize) with false.
  change (Z.of_nat 16 <? kMacSize) with false. cbn [orb].
  rewrite !take_ge by (rewrite ?length_header_ct, ?length_header_mac, ?Hm; lia).
  rewrite (bind_success _ _ _ (Zlen data)
    (mkCipher (enc b) (ctr_process (frame_header (Zlen data)) (enc a)).2 (egress_mac b) (header_mac_of data a).2)).
  2: { rewrite (decrypt_header_eq data a b) by (done || lia). by rewrite (proj2 (Z.eqb_neq _ _)) by lia. }
  pose proof (decrypt_body_eq data a
    (mkCipher (enc b) (ctr_process (frame_header (Zlen data)) (enc a)).2 (egress_mac b) (header_mac_of data a).2)
    eq_refl eq_refl) as E. unfold decrypt_frame_body in E. rewrite Hm in E. change (Z.of_nat 16 <? kMacSize) with false in E.
  rewrite orb_false_r, take_ge in E by (rewrite Hm; lia). exact E.
Qed.
End cipher_facts.

(** ** Streams *)

Lemma read_exact_app n a rest t :
  rx t = a ++ rest -> socket_open t = true -> n = Zlen a ->
  read_exact n t = (success a, mkTransport rest (tx t) true (peer_reset t)).
Proof.
  intros Hr Ho ->. unfold read_exact. rewrite Ho, Hr. cbn [negb]. rewrite length_app, (proj2 (Z.leb_le _ _)) by lia.
  by rewrite take_app_Zlen, drop_app_Zlen.
Qed.

Section stream_facts.
Context `{FramePrimitivesLaws, SnappyLaws}.

(** The frame of a message. *)
Definition message_payload (compression : bool) (m : Message) : list byte :=
  if bool_decide (msg_payload m = []) then [] else if compression then snappy_compress (msg_payload m) else msg_payload m.
Definition message_data (compression : bool) (m : Message) : list byte :=
  rlp_uint (msg_id m) ++ message_payload compression m.

Record wf_message (compression : bool) (m : Message) : Prop := {
  wfm_id : in_width 8 (msg_id m);
  wfm_size : Zlen (message_data compression m) < kMaxFrameSize
}.

Lemma message_data_pos compression m : 0 < Zlen (message_data compression m).
Proof. unfold message_data. rewrite length_app. pose proof (rlp_string_pos (be_min (msg_id m))). unfold rlp_uint. lia. Qed.

Lemma send_message_eq m s :
  wf_message (compression_enabled s) m -> socket_open (transport s) = true -> peer_reset (transport s) = false ->
  let data := message_data (compression_enabled s) m in
  send_message m s =
  (success tt, mkStream (after_send data (cipher s))
     (mkTransport (rx (transport s)) (tx (transport s) ++ frame_wire data (cipher s)) true false) (compression_enabled s)).
Proof.
  intros [Hi Hl] Ho Hp data. pose proof (message_data_pos (compression_enabled s) m) as Hpos. fold data in Hpos, Hl.
  assert (run_encoder (add_integral 1 (msg_id m)) = success (rlp_uint (msg_id m))) as He.
  { apply run_encoder_emits; [|apply emits_add_integral; auto with enc].
    unfold data, message_data in Hl. rewrite length_app in Hl. unfold kMaxFrameSize in Hl. lia. }
  unfold send_message. rewrite He. cbn [or_error].
  rewrite (bind_success (lift _) _ s (rlp_uint (msg_id m)) s eq_refl), (bind_success get_state _ s s s eq_refl).
  fold (message_payload (compression_enabled s) m). fold (message_data (compression_enabled s) m). fold data.
  rewrite (proj2 (Z.ltb_ge _ _)) by lia.
  rewrite (bind_success _ _ s (frame_wire data (cipher s)) (mkStream (after_send data (cipher s)) (transport s) (compression_enabled s))).
  2: { unfold or_fail, with_cipher. by rewrite encrypt_frame_eq by lia. }
  unfold with_transport, write_all. cbn [transport]. by rewrite Ho, Hp.
Qed.

Lemma receive_frame_eq data a s rest :
  synced a (cipher s) -> 0 < Zlen data < kMaxFrameSize ->
  rx (transport s) = frame_wire data a ++ rest -> socket_open (transport s) = true ->
  receive_frame s =
  (success data, mkStream (after_receive data a (cipher s)) (mkTransport rest (tx (transport s)) true (peer_reset (transport s)))
     (compression_enabled s)).
Proof.
  intros Hs Hd Hr Ho. unfold receive_frame, frame_wire in *. rewrite <- !app_assoc in Hr. rewrite app_assoc in Hr.
  pose proof (length_header_ct data a) as L1. pose proof (length_header_mac data a) as L2.
  pose proof (length_mac_of data a) as L3. pose proof (length_body_ct data a) as L4. pose proof (length_frame_padded data) as L5.
  unfold mbind, M_bind, attempt, with_transport, with_cipher.
  erewrite read_exact_app; [|exact Hr|done|rewrite length_app, L1, L2; done].
  cbn [cipher transport compression_enabled]. rewrite take_app_length', drop_app_length', take_ge by lia.
  rewrite (decrypt_header_eq data a) by (done || lia). rewrite (proj2 (Z.eqb_neq _ _)) by lia.
  cbn [cipher transport compression_enabled]. rewrite <- L5, <- L4.
  erewrite read_exact_app; [|cbn [rx]; rewrite app_assoc; reflexivity|done|rewrite length_app, L3; unfold kMacSize; lia].
  cbn [cipher transport compression_enabled]. rewrite take_app_Zlen, drop_app_Zlen, take_ge by lia.
  rewrite decrypt_body_eq by done. done.
Qed.

Lemma receive_message_eq m a s rest :
  wf_message (compression_enabled s) m -> synced a (cipher s) ->
  let data := message_data (compression_enabled s) m in
  rx (transport s) = frame_wire data a ++ rest -> socket_open (transport s) = true ->
  receive_message s =
  (success m, mkStream (after_receive data a (cipher s)) (mkTransport rest (tx (transport s)) true (peer_reset (transport s)))
     (compression_enabled s)).
Proof.
  intros [Hi Hl] Hs data Hr Ho. pose proof (message_data_pos (compression_enabled s) m) as Hpos. fold data in Hpos, Hl.
  unfold receive_message.
  erewrite bind_success by (apply attempt_success, receive_frame_eq; [exact Hs| |exact Hr|exact Ho]; lia).
  assert (exists b r, data = b :: r) as (b & r & Ed) by (destruct data; [simpl in Hpos; lia|eauto]). rewrite Ed. rewrite <- Ed.
  assert (read_integral 8 data = (success (msg_id m), message_payload (compression_enabled s) m)) as ->.
  { apply (consumes_read_integral 8); [unfold is_sizeof; lia|unfold in_width in Hi; lia|].
    unfold fits. unfold kMaxFrameSize in Hl. unfold data, message_data in Hl. lia. }
  rewrite (bind_success get_state _ _ _ _ eq_refl). cbn [compression_enabled].
  rewrite (Z.mod_small (msg_id m)) by (unfold in_width in Hi; lia). clearbody data. destruct m as [i p]. cbn [msg_id msg_payload] in *.
  unfold message_payload. cbn [msg_payload]. destruct p as [|c p]; [by rewrite andb_false_r|].
  rewrite (bool_decide_false (c :: p = [])) by done.
  destruct (compression_enabled s); [|done]. rewrite bool_decide_false by apply snappy_nonempty. cbn [negb andb].
  by rewrite snappy_roundtrip.
Qed.

(** [n] calls of [receive_message]. *)
Fixpoint receive_messages (n : nat) : Stream SessionError.t (list Message) :=
  match n with
  | O => mret []
  | S n' => m ← receive_message; ms ← receive_messages n'; mret (m :: ms)
  end.
End stream_facts.

(** ** Concrete primitives, to evaluate the definitions *)

Module Toy.
Definition digest (m : list byte) : list byte :=
  replicate 31 (byte_of (foldr (fun b acc => u8 b + 3 * acc) 1 m)) ++ [byte_of (Zlen m)].
#[export] Instance primitives : FramePrimitives := {|
  keccak256 := digest;
  aes_ecb_encrypt_block key block := replicate 16 (byte_of (foldr (fun b acc => u8 b + acc) 5 (key ++ block)));
  ctr_keystream key i := byte_of (Z.of_nat i * 7 + Zlen key)
|}.
#[export] Instance primitives_laws : FramePrimitivesLaws.
Proof. by split. Qed.
#[export] Instance snappy : Snappy := {|
  snappy_compress p := byte_of (Zlen p) :: p;
  snappy_uncompress c := match c with [] => None | _ :: p => Some p end
|}.
#[export] Instance snappy_laws : SnappyLaws.
Proof. by split. Qed.

Definition initiator : FrameSecrets := mkFrameSecrets (replicate 32 x11) (replicate 32 x22) [x01; x02] [x03].
Definition responder : FrameSecrets := mkFrameSecrets (replicate 32 x11) (replicate 32 x22) [x03] [x01; x02].
Definition idle : Transport := mkTransport [] [] true false.
End Toy.

(** ** Claims *)

(** C12: Message streams whose ciphers are synchronised deliver every sequence of messages: the [n] messages that
    [send_message] wrote are the [n] that [receive_message] returns, in order, with or without compression,
    whatever follows on the wire, and the ciphers are synchronised again after. *)
Theorem stream_roundtrip `{FramePrimitivesLaws, SnappyLaws} (ms : list Message) (s r : MessageStream) (rest : list byte) :
  Forall (wf_message (compression_enabled s)) ms -> compression_enabled r = compression_enabled s ->
  synced (cipher s) (cipher r) -> socket_open (transport s) = true -> peer_reset (transport s) = false ->
  socket_open (transport r) = true ->
  exists s' wire, for_each send_message ms s = (success tt, s') /\ tx (transport s') = tx (transport s) ++ wire /\
  (rx (transport r) = wire ++ rest -> exists r', receive_messages (length ms) r = (success ms, r') /\
     rx (transport r') = rest /\ synced (cipher s') (cipher r')).
Proof.
  revert s r. induction ms as [|m ms IH]; intros s r Hw Hc Hs Ho Hp Hor.
  { exists s, []. split; [done|]. split; [by rewrite app_nil_r|]. intros Hr. exists r. done. }
  apply Forall_cons in Hw as [Hm Hw]. set (data := message_data (compression_enabled s) m).
  cbn [for_each length receive_messages]. erewrite bind_success by (by apply send_message_eq). fold data.
  set (s1 := mkStream _ _ _).
  set (r1 := mkStream (after_receive data (cipher s) (cipher r))
               (mkTransport (drop (length (frame_wire data (cipher s))) (rx (transport r))) (tx (transport r)) true (peer_reset (transport r)))
               (compression_enabled r)).
  destruct (IH s1 r1 Hw Hc (synced_after _ _ _ Hs) eq_refl eq_refl eq_refl) as (s' & wire & E1 & E2 & E3).
  exists s', (frame_wire data (cipher s) ++ wire). split; [done|]. split; [rewrite E2; unfold s1; cbn [transport tx]; by rewrite app_assoc|].
  intros Hr. rewrite <- app_assoc in Hr. destruct E3 as (r' & E4 & E5 & E6).
  { unfold r1. cbn [transport rx]. by rewrite Hr, drop_app_length. }
  exists r'. split; [|done].
  erewrite bind_success by (apply receive_message_eq; [by rewrite Hc|exact Hs|rewrite Hc; exact Hr|exact Hor]).
  rewrite Hc. fold data. rewrite <- Hc.
  assert (r1 = mkStream (after_receive data (cipher s) (cipher r)) (mkTransport (wire ++ rest) (tx (transport r)) true (peer_reset (transport r)))
    (compression_enabled r)) as <- by (unfold r1; by rewrite Hr, drop_app_length).
  by rewrite (bind_success _ _ _ _ _ E4).
Qed.

(** [decrypt_header] accepts a header only with the MAC that its ingress state computes for exactly these bytes,
    refuses any other MAC before it touches the counter, and an accepted length is between 1 and [2 ^ 24 - 1]. *)
Theorem header_authenticated `{FramePrimitives} (header_ct header_mac : list byte) (c : FrameCipherImpl) :
  (header_mac <> (compute_header header_ct (ingress_mac c)).1 ->
   exists c', decrypt_header header_ct header_mac c = (failure FramingError.kMacMismatch, c') /\ dec c' = dec c) /\
  (forall n c', decrypt_header header_ct header_mac c = (success n, c') ->
   header_mac = (compute_header header_ct (ingress_mac c)).1 /\ 0 < n < kMaxFrameSize).
Proof.
  unfold decrypt_header, mbind, M_bind. rewrite on_ingress_eq. split.
  - intros Hm. rewrite bool_decide_false by done. cbn [negb]. eexists. split; [reflexivity|done].
  - intros n c'. case_bool_decide as Hm; cbn [negb]; [|done]. rewrite decrypt_bytes_eq.
    pose proof (header_fsize_range (ctr_process header_ct (dec c)).1) as Hr. cbn [dec] in *.
    destruct (_ =? 0) eqn:E0; [done|]. destruct (kMaxFrameSize <? _) eqn:E1; [done|]. cbn [orb]. intros [= <- _].
    apply Z.eqb_neq in E0. apply Z.ltb_ge in E1. split; [done|]. unfold ctr_process, kMaxFrameSize in *. cbn [fst] in *. lia.
Qed.

(** A frame of exactly [kMaxFrameSize] bytes is encrypted without an error, but its length does not fit the
    three bytes of the header: the synchronised peer reads length 0 and refuses the header. *)
Theorem max_frame_refused `{FramePrimitivesLaws} (data : list byte) (a b : FrameCipherImpl) :
  synced a b -> Zlen data = kMaxFrameSize ->
  exists header_ct header_mac body a' b',
    encrypt_frame data a = (success (header_ct ++ header_mac ++ body), a') /\
    Zlen header_ct = kFrameHeaderSize /\ Zlen header_mac = kMacSize /\
    decrypt_header header_ct header_mac b = (failure FramingError.kInvalidFrameSize, b').
Proof.
  intros Hs Hd. rewrite encrypt_frame_eq by (rewrite Hd; done). eexists _, _, _, _, _. split; [reflexivity|].
  rewrite length_header_ct, length_header_mac. split; [done|]. split; [done|].
  rewrite decrypt_header_eq by (done || (rewrite Hd; done)). by rewrite Hd.
Qed.

(** ** The claims on concrete primitives *)

Import Toy.

Definition sample_messages : list Message := [mkMessage 0 [xc0]; mkMessage 17 [xc1; x80]; mkMessage 2 []].

Lemma stream_roundtrip_witness :
  exists s' wire,
  for_each send_message sample_messages (enable_compression (stream_new (FrameCipher_new Toy.initiator) Toy.idle)) =
    (success tt, s') /\ tx (transport s') = [] ++ wire.
Proof.
  destruct (stream_roundtrip sample_messages
    (enable_compression (stream_new (FrameCipher_new Toy.initiator) Toy.idle))
    (enable_compression (stream_new (FrameCipher_new Toy.responder) Toy.idle)) []) as (s' & wire & E1 & E2 & E3).
  - repeat constructor; vm_compute; intuition congruence.
  - reflexivity.
  - split; reflexivity.
  - reflexivity.
  - reflexivity.
  - reflexivity.
  - exists s', wire. split; [exact E1|exact E2].
Defined.

Lemma frame_of_size n : 0 <= n -> exists data : list byte, Zlen data = n.
Proof. intros Hn. exists (replicate (Z.to_nat n) x00). rewrite length_replicate. by apply Z2Nat.id. Qed.

Lemma max_frame_refused_witness :
  exists header_ct header_mac b',
    decrypt_header header_ct header_mac (FrameCipher_new Toy.responder) = (failure FramingError.kInvalidFrameSize, b').
Proof.
  destruct (frame_of_size kMaxFrameSize) as [data Hd]; [unfold kMaxFrameSize; lia|].
  destruct (max_frame_refused data (FrameCipher_new Toy.initiator) (FrameCipher_new Toy.responder)
    (conj eq_refl eq_refl) Hd) as (h & m & body & a' & b' & E1 & E2 & E3 & E). exists h, m, b'. exact E.
Defined.
