(* ===== verification/RlpxCrypto.v ===== *)
(** * RLPx cryptography

    [src/rlpx/crypto/{aes,ecdh,hmac,kdf}.cpp] and the part of
    [include/rlpx/rlpx_error.hpp] they use.

    SHA-256, HMAC-SHA-256, the counter-mode keystreams and the operations of
    libsecp256k1 are not under [src]: they are the fields of [Hashes],
    [CtrCiphers] and [Curve], with the documented facts the callers rely on in
    the [...Laws] classes.  A call into OpenSSL that can report an error
    returns an option.  [RAND_bytes] is a supply of byte strings that the caller
    passes; a supply that runs out before a valid key is drawn is divergence. *)

From S2P Require Import Prelude FrameCipher.

Module AuthError.
Inductive t :=
  | kEciesEncryptFailed | kEciesDecryptFailed | kInvalidAuthMessage | kInvalidAckMessage | kSharedSecretFailed
  | kSignatureInvalid | kKeyDerivationFailed | kInvalidPublicKey | kInvalidNonce.
End AuthError.

Module CryptoError.
Inductive t :=
  | kAesEncryptFailed | kAesDecryptFailed | kHmacFailed | kKdfFailed | kEcdhFailed | kInvalidKeySize | kInvalidIvSize
  | kInvalidPublicKey | kInvalidPrivateKey | kOpenSslError | kSecp256k1Error.
End CryptoError.

Definition kPrivateKeySize : Z := 32.
Definition kSharedSecretSize : nat := 32.
Definition kAesKeySize : Z := 32.
Definition kMacKeySize : Z := 32.
Definition kUncompressedPubKeyPrefix : byte := x04.

(** ** Primitives *)

Class Hashes := {
  sha256 : list byte -> list byte;
  HMAC : list byte -> list byte -> list byte
}.

Class HashesLaws `{Hashes} : Prop := {
  length_sha256 m : length (sha256 m) = 32%nat;
  length_HMAC key m : length (HMAC key m) = 32%nat
}.

(** [EVP_EncryptInit_ex] ... [EVP_EncryptFinal_ex] with a key and an initial
    counter block: [None] when a call fails. *)
Class CtrCiphers := {
  evp_aes_256_ctr : list byte -> list byte -> list byte -> option (list byte);
  aes_128_keystream : list byte -> list byte -> nat -> byte
}.

Class CtrCiphersLaws `{CtrCiphers} : Prop := {
  ctr_involutive key iv m c : evp_aes_256_ctr key iv m = Some c -> evp_aes_256_ctr key iv c = Some m
}.

Class Curve := {
  point : Type;
  ec_seckey_verify : list byte -> bool;
  ec_pubkey_create : list byte -> option point;
  ec_pubkey_parse : list byte -> option point;
  ec_pubkey_serialize : point -> list byte;
  ec_pubkey_tweak_mul : point -> list byte -> option point;
  ecdsa_sign_recoverable : list byte -> list byte -> option (list byte * Z)
}.

Class CurveLaws `{Curve} : Prop := {
  (** The uncompressed form: 0x04 and the two coordinates. *)
  serialize_point p : exists xy, ec_pubkey_serialize p = kUncompressedPubKeyPrefix :: xy /\ length xy = 64%nat;
  parse_serialize p : ec_pubkey_parse (ec_pubkey_serialize p) = Some p;
  create_valid k : ec_seckey_verify k = true -> is_Some (ec_pubkey_create k);
  (** Multiplication by two secrets commutes. *)
  tweak_mul_comm a b pa pb :
    ec_seckey_verify a = true -> ec_seckey_verify b = true ->
    ec_pubkey_create a = Some pa -> ec_pubkey_create b = Some pb ->
    exists p, ec_pubkey_tweak_mul pa b = Some p /\ ec_pubkey_tweak_mul pb a = Some p;
  sign_valid m k : ec_seckey_verify k = true ->
    exists sig recid, ecdsa_sign_recoverable m k = Some (sig, recid) /\ length sig = 64%nat
}.

(** ** aes.cpp *)

Section aes.
Context `{CtrCiphers}.

Definition encrypt_ctr (key iv plaintext : list byte) : outcome CryptoError.t (list byte) :=
  match evp_aes_256_ctr key iv plaintext with Some c => success c | None => failure CryptoError.kAesEncryptFailed end.

Definition decrypt_ctr (key iv ciphertext : list byte) : outcome CryptoError.t (list byte) :=
  match evp_aes_256_ctr key iv ciphertext with Some p => success p | None => failure CryptoError.kAesDecryptFailed end.

(** The in-place variants leave the buffer as it is when a call fails before
    the data is written, and accept an empty buffer without a call. *)
Definition encrypt_ctr_inplace (key iv : list byte) : M (list byte) CryptoError.t unit := fun data =>
  if bool_decide (data = []) then (success tt, data) else
  match evp_aes_256_ctr key iv data with
  | Some c => (success tt, c)
  | None => (failure CryptoError.kAesEncryptFailed, data)
  end.

Definition decrypt_ctr_inplace (key iv : list byte) : M (list byte) CryptoError.t unit := fun data =>
  if bool_decide (data = []) then (success tt, data) else
  match evp_aes_256_ctr key iv data with
  | Some c => (success tt, c)
  | None => (failure CryptoError.kAesDecryptFailed, data)
  end.
End aes.

(** ** hmac.cpp *)

Section hmac.
Context `{Hashes}.

Definition hmac_compute (key data : list byte) : outcome CryptoError.t (list byte) :=
  if bool_decide (key = []) then failure CryptoError.kInvalidKeySize else
  let result := HMAC key data in
  if bool_decide (result = []) then failure CryptoError.kHmacFailed else success result.

Definition hmac_compute_mac (key data : list byte) : outcome CryptoError.t (list byte) :=
  full_hmac ← hmac_compute key data;
  if Zlen full_hmac <? kMacSize then failure CryptoError.kHmacFailed else success (take 16 full_hmac).

Definition hmac_verify (key data expected_mac : list byte) : bool :=
  match hmac_compute key data with
  | success computed_mac =>
      if Zlen computed_mac <? Zlen expected_mac then false
      else bool_decide (expected_mac = take (length expected_mac) computed_mac)
  | _ => false
  end.

(** ** kdf.cpp *)

Definition kMaxIterations : Z := 1000.

Definition kdf_block (shared_secret shared_info : list byte) (counter : Z) : list byte :=
  let hash_input :=
    [byte_of (Z.land (Z.shiftr counter 24) 255); byte_of (Z.land (Z.shiftr counter 16) 255);
     byte_of (Z.land (Z.shiftr counter 8) 255); byte_of (Z.land counter 255)] ++ shared_secret ++
    (if bool_decide (shared_info = []) then [] else shared_info) in
  sha256 hash_input.

(** The loop over the counter; the guard on it ends the loop, so [kMaxIterations]
    units of fuel and one more for the last test are enough. *)
Fixpoint kdf_loop (fuel : nat) (shared_secret : list byte) (key_data_len : Z) (shared_info : list byte)
    (counter : Z) (output : list byte) : outcome CryptoError.t (list byte) :=
  match fuel with
  | O => crash Diverge
  | S fuel' =>
      if Zlen output <? key_data_len then
        let digest := kdf_block shared_secret shared_info counter in
        let bytes_to_copy := Z.min 32 (key_data_len - Zlen output) in
        let output' := output ++ take (Z.to_nat bytes_to_copy) digest in
        let counter' := u32 (counter + 1) in
        if kMaxIterations <? counter' then failure CryptoError.kKdfFailed
        else kdf_loop fuel' shared_secret key_data_len shared_info counter' output'
      else success output
  end.

Definition kdf_derive (shared_secret : list byte) (key_data_len : Z) (shared_info : list byte) : outcome CryptoError.t (list byte) :=
  if bool_decide (shared_secret = []) || (key_data_len =? 0) then failure CryptoError.kKdfFailed else
  kdf_loop (S (Z.to_nat kMaxIterations)) shared_secret key_data_len shared_info 1 [].

Definition kdf_derive_aes_key (shared_secret info : list byte) : outcome CryptoError.t (list byte) :=
  key_data ← kdf_derive shared_secret kAesKeySize info;
  if negb (Zlen key_data =? kAesKeySize) then failure CryptoError.kInvalidKeySize else success key_data.

Definition kdf_derive_mac_key (shared_secret info : list byte) : outcome CryptoError.t (list byte) :=
  key_data ← kdf_derive shared_secret kMacKeySize info;
  if negb (Zlen key_data =? kMacKeySize) then failure CryptoError.kInvalidKeySize else success key_data.

Definition kdf_derive_keys (shared_secret info : list byte) : outcome CryptoError.t (list byte * list byte) :=
  key_data ← kdf_derive shared_secret (kAesKeySize + kMacKeySize) info;
  if negb (Zlen key_data =? kAesKeySize + kMacKeySize) then failure CryptoError.kKdfFailed
  else success (take 32 key_data, drop 32 key_data).
End hmac.

(** ** ecdh.cpp *)

Record KeyPair := mkKeyPair { public_key : list byte; private_key : list byte }.

Section ecdh.
Context `{Curve}.

Definition compute_shared_secret (public_key private_key : list byte) : outcome CryptoError.t (list byte) :=
  if negb (ec_seckey_verify private_key) then failure CryptoError.kInvalidPrivateKey else
  match ec_pubkey_parse (kUncompressedPubKeyPrefix :: public_key) with
  | None => failure CryptoError.kInvalidPublicKey
  | Some parsed_pubkey =>
      match ec_pubkey_tweak_mul parsed_pubkey private_key with
      | None => failure CryptoError.kEcdhFailed
      | Some result_pubkey => success (take kSharedSecretSize (drop 1 (ec_pubkey_serialize result_pubkey)))
      end
  end.

(** The draws of [RAND_bytes] until one is a valid key; [None] is a failed call. *)
Fixpoint draw_private_key (draws : list (option (list byte))) : outcome CryptoError.t (list byte) :=
  match draws with
  | [] => crash Diverge
  | None :: _ => failure CryptoError.kOpenSslError
  | Some k :: draws' => if ec_seckey_verify k then success k else draw_private_key draws'
  end.

Definition generate_ephemeral_keypair (draws : list (option (list byte))) : outcome CryptoError.t KeyPair :=
  k ← draw_private_key draws;
  match ec_pubkey_create k with
  | None => failure CryptoError.kSecp256k1Error
  | Some pubkey => success (mkKeyPair (drop 1 (ec_pubkey_serialize pubkey)) k)
  end.

Definition verify_public_key (public_key : list byte) : bool :=
  bool_decide (is_Some (ec_pubkey_parse (kUncompressedPubKeyPrefix :: public_key))).
End ecdh.

(** ** Key agreement *)

Section agreement.
Context `{CurveLaws}.

(** The 64 bytes of the public key of a secret. *)
Definition is_keypair (pub priv : list byte) : Prop :=
  ec_seckey_verify priv = true /\ exists p, ec_pubkey_create priv = Some p /\ ec_pubkey_serialize p = kUncompressedPubKeyPrefix :: pub.

Lemma shared_secret_agree pub1 priv1 pub2 priv2 :
  is_keypair pub1 priv1 -> is_keypair pub2 priv2 ->
  exists z, compute_shared_secret pub2 priv1 = success z /\ compute_shared_secret pub1 priv2 = success z /\ length z = 32%nat.
Proof.
  intros (V1 & p1 & C1 & S1) (V2 & p2 & C2 & S2). destruct (tweak_mul_comm _ _ _ _ V1 V2 C1 C2) as (p & E1 & E2).
  unfold compute_shared_secret. rewrite V1, V2, <- S1, <- S2, !parse_serialize, E1, E2. cbn [negb].
  eexists. split; [done|]. split; [done|]. destruct (serialize_point p) as (xy & -> & Hl).
  change (drop 1 (kUncompressedPubKeyPrefix :: xy)) with xy. rewrite length_take, Hl. done.
Qed.

Lemma generate_keypair draws kp : generate_ephemeral_keypair draws = success kp -> is_keypair (public_key kp) (private_key kp).
Proof.
  unfold generate_ephemeral_keypair, mbind, outcome_bind. destruct (draw_private_key draws) as [k| |] eqn:Ed; [|done|done].
  assert (ec_seckey_verify k = true) as Hk.
  { induction draws as [|[c|] draws IH]; simpl in Ed; [done| |done]. destruct (ec_seckey_verify c) eqn:Ec; [by simplify_eq|auto]. }
  destruct (ec_pubkey_create k) as [p|] eqn:Ep; [|done]. intros [= <-]. split; [done|]. exists p. split; [done|].
  destruct (serialize_point p) as (xy & -> & _). done.
Qed.
End agreement.

Section kdf.
Context `{HashesLaws} (shared_secret shared_info : list byte) (len : Z).

Notation block := (kdf_block shared_secret shared_info).

Lemma length_block c : length (block c) = 32%nat.
Proof. apply length_sha256. Qed.

Lemma kdf_loop_done fuel c output : (0 < fuel)%nat -> Zlen output = len -> kdf_loop fuel shared_secret len shared_info c output = success output.
Proof. destruct fuel; [lia|]. intros _ E. simpl. by rewrite (proj2 (Z.ltb_ge _ _)) by lia. Qed.

Lemma kdf_loop_eq n c output fuel :
  Z.of_nat n = kMaxIterations - c -> 1 <= c -> (S n < fuel)%nat -> Zlen output = 32 * (c - 1) -> 32 * (c - 1) < len ->
  kdf_loop fuel shared_secret len shared_info c output =
  if len <=? 32 * (kMaxIterations - 1) then success (output ++ take (Z.to_nat (len - 32 * (c - 1))) (concat (block <$> seqZ c (Z.of_nat n))))
  else failure CryptoError.kKdfFailed.
Proof.
  unfold kMaxIterations. revert c output fuel. induction n as [|n IH]; intros c output fuel Hn Hc Hfuel Ho Hl; (destruct fuel as [|fuel]; [lia|]);
    cbn [kdf_loop]; rewrite (proj2 (Z.ltb_lt (Zlen output) len)) by lia; rewrite u32_small by lia; unfold kMaxIterations.
  { rewrite (proj2 (Z.ltb_lt _ _)) by lia. by rewrite (proj2 (Z.leb_gt _ _)) by lia. }
  rewrite (proj2 (Z.ltb_ge _ _)) by lia. rewrite Nat2Z.inj_succ, seqZ_cons, Z.pred_succ by lia. cbn [fmap list_fmap concat].
  destruct (decide (len - 32 * (c - 1) <= 32)) as [Hlast|Hmore].
  - rewrite Z.min_r by lia. rewrite kdf_loop_done; [|lia|rewrite length_app, length_take, length_block; lia].
    rewrite (proj2 (Z.leb_le _ _)) by lia. rewrite take_app_le by (rewrite length_block; lia). by rewrite Ho.
  - rewrite Z.min_l by lia. rewrite take_ge by (rewrite length_block; lia).
    rewrite (IH (c + 1)) by (rewrite ?length_app, ?length_block; lia). change (Z.succ c) with (c + 1).
    case_match; [|done]. f_equal. rewrite <- app_assoc. f_equal.
    rewrite take_app_ge by (rewrite length_block; lia). rewrite length_block. do 2 f_equal. lia.
Qed.
End kdf.

(** ** Claims *)

(** [Kdf::derive] returns exactly the requested number of bytes, the prefix of the concatenated
    counter blocks, for every length up to 999 digests (31968 bytes), and the error beyond; it always returns. *)
Theorem kdf_exact `{HashesLaws} (shared_secret shared_info : list byte) (len : Z) :
  shared_secret <> [] -> 0 < len ->
  kdf_derive shared_secret len shared_info =
  if len <=? 31968 then success (take (Z.to_nat len) (concat (kdf_block shared_secret shared_info <$> seqZ 1 999)))
  else failure CryptoError.kKdfFailed.
Proof.
  intros Hs Hl. unfold kdf_derive. rewrite bool_decide_false, (proj2 (Z.eqb_neq _ _)) by (done || lia). cbn [orb].
  rewrite (kdf_loop_eq shared_secret shared_info len 999); [|done|done|unfold kMaxIterations; lia|done|lia].
  unfold kMaxIterations. change (32 * (1000 - 1)) with 31968. case_match; [|done]. do 2 f_equal.
  rewrite Z.sub_diag, Z.mul_0_r, Z.sub_0_r. reflexivity.
Qed.

(** [Hmac::verify] accepts exactly the prefixes of the HMAC, whatever their length: with a non-empty key the
    empty MAC is accepted for every message. *)
Theorem hmac_verify_prefixes `{HashesLaws} (key data expected_mac : list byte) :
  key <> [] ->
  (hmac_verify key data expected_mac = true <-> expected_mac `prefix_of` HMAC key data) /\ hmac_verify key data [] = true.
Proof.
  intros Hk. pose proof (length_HMAC key data) as Hl. unfold hmac_verify, hmac_compute. rewrite bool_decide_false by done.
  rewrite (bool_decide_false (HMAC key data = [])) by (intros E; rewrite E in Hl; discriminate Hl). split.
  2: { rewrite (proj2 (Z.ltb_ge _ _)) by (simpl; lia). done. }
  split.
  - case_match; [done|]. intros ->%bool_decide_eq_true. by eexists (drop _ _); rewrite take_drop.
  - intros [tl E]. rewrite E, length_app, (proj2 (Z.ltb_ge _ _)) by lia. apply bool_decide_eq_true. by rewrite take_app_length.
Qed.

(** ** Concrete primitives, to evaluate the definitions *)

Module ToyCrypto.
#[export] Instance hashes : Hashes := {| sha256 := Toy.digest; HMAC key m := Toy.digest (key ++ m) |}.
#[export] Instance hashes_laws : HashesLaws.
Proof. by split. Qed.
#[export] Instance ctr : CtrCiphers := {|
  evp_aes_256_ctr key iv m := Some (xor_bytes m (replicate (length m) (byte_of (Zlen key + be_val iv))));
  aes_128_keystream key iv i := byte_of (Zlen key + be_val iv + Z.of_nat i)
|}.

(** The additive group of bytes; a key is valid when it has 32 bytes. *)
#[export] Instance curve : Curve := {|
  point := byte;
  ec_seckey_verify k := Zlen k =? 32;
  ec_pubkey_create k := Some (byte_of (be_val k));
  ec_pubkey_parse bs := match bs with pre :: b :: _ => if decide (pre = x04) then Some b else None | _ => None end;
  ec_pubkey_serialize b := x04 :: replicate 64 b;
  ec_pubkey_tweak_mul b k := Some (byte_of (u8 b * be_val k));
  ecdsa_sign_recoverable m k := Some (replicate 64 x09, 1)
|}.
#[export] Instance curve_laws : CurveLaws.
Proof.
  split.
  - intros p. by exists (replicate 64 p).
  - done.
  - by eexists.
  - intros a b pa pb _ _ [= <-] [= <-]. exists (byte_of (be_val a * be_val b)). cbn. split; f_equal.
    all: apply u8_inj; rewrite !u8_byte_of.
    + by rewrite Z.mul_mod_idemp_l.
    + by rewrite Z.mul_mod_idemp_l, Z.mul_comm.
  - intros. by exists (replicate 64 x09), 1.
Qed.
End ToyCrypto.

Import ToyCrypto.

Lemma kdf_exact_witness :
  kdf_derive [x01] 40 [] = success (take 40 (concat (kdf_block [x01] [] <$> seqZ 1 999))) /\
  kdf_derive [x01] 31969 [] = failure CryptoError.kKdfFailed.
Proof. split; [apply (kdf_exact [x01] [] 40)|apply (kdf_exact [x01] [] 31969)]; done || lia. Defined.

Lemma hmac_verify_prefixes_witness : hmac_verify [x01] [x02] [] = true.
Proof. apply (hmac_verify_prefixes [x01] [x02] []). done. Defined.
