(* ===== verification/RlpxAuth.v ===== *)
(** * The RLPx handshake

    [src/rlpx/auth/ecies_cipher.cpp], [src/rlpx/auth/auth_handshake.cpp] and
    [include/rlpx/auth/{auth_keys,auth_handshake}.hpp].

    The arrays of [AuthKeyMaterial] are not initialised when it is created: a
    field is an option, [None] while it has no value, and using such a field is
    the fault [Indeterminate].  Randomness is drawn from a supply
    ([EciesRandom], [AuthRandom], [HandshakeRandom]).  The handshake runs on the
    [Transport] of [FrameCipher]. *)

From S2P Require Import Prelude RlpSpec RlpCommon RlpEncoder RlpDecoder DecodeLogic EthObjects RlpxMessages FrameCipher RlpxCrypto.

Definition kNonceSize : Z := 32.
Definition kEcdsaSigSize : Z := 65.
Definition kAuthVersion : Z := 4.
Definition kAuthVersionSize : Z := 1.
Definition kUncompressedPubKeySize : Z := 65.
Definition kAesBlockSize : Z := 16.
Definition kEciesMacSize : Z := 32.
Definition kEciesOverheadSize : Z := kUncompressedPubKeySize + kAesBlockSize + kEciesMacSize.
Definition kEip8LengthPrefixSize : Z := 2.
Definition kMaxEip8HandshakePacketSize : Z := 2048.

(** ** ecies_cipher.cpp *)

Record EciesKeys := mkEciesKeys { ecies_enc_key : list byte; ecies_mac_key : list byte }.

(** What [RAND_bytes] yields: candidates for the ephemeral key, and the IV. *)
Record EciesRandom := mkEciesRandom { er_keys : list (list byte); er_iv : list byte }.

Section ecies.
Context `{Hashes, CtrCiphers, Curve}.

Definition derive_keys (shared_secret : list byte) : EciesKeys :=
  let kdf_out := sha256 ([x00; x00; x00; x01] ++ shared_secret) in
  mkEciesKeys (take 16 kdf_out) (sha256 (take 16 (drop 16 kdf_out))).

Definition aes128_ctr (data key iv : list byte) : list byte :=
  xor_bytes data (aes_128_keystream key iv <$> seq 0 (length data)).

Definition ecies_shared_secret (public_key private_key : list byte) : outcome AuthError.t (list byte) :=
  or_error (compute_shared_secret public_key private_key) AuthError.kSharedSecretFailed.

(** [for (;;) { RAND_bytes(...); if (verify) break; }] *)
Fixpoint draw_ephemeral (draws : list (list byte)) : outcome AuthError.t (list byte) :=
  match draws with
  | [] => crash Diverge
  | k :: draws' => if ec_seckey_verify k then success k else draw_ephemeral draws'
  end.

Definition ecies_encrypt (rnd : EciesRandom) (plaintext recipient_public_key shared_mac_data : list byte) :
    outcome AuthError.t (list byte) :=
  ephemeral_priv ← draw_ephemeral (er_keys rnd);
  match ec_pubkey_create ephemeral_priv with
  | None => failure AuthError.kInvalidPublicKey
  | Some ephemeral_secp_pub =>
      let ephemeral_pub_bytes := ec_pubkey_serialize ephemeral_secp_pub in
      shared ← ecies_shared_secret recipient_public_key ephemeral_priv;
      let keys := derive_keys shared in
      let iv := er_iv rnd in
      let ciphertext := aes128_ctr plaintext (ecies_enc_key keys) iv in
      let mac := HMAC (ecies_mac_key keys) (iv ++ ciphertext ++ shared_mac_data) in
      success (ephemeral_pub_bytes ++ iv ++ ciphertext ++ mac)
  end.

Definition ecies_decrypt (wire recipient_private_key shared_mac_data : list byte) : outcome AuthError.t (list byte) :=
  if Zlen wire <? kEciesOverheadSize then failure AuthError.kEciesDecryptFailed else
  let ct_len := (length wire - Z.to_nat kEciesOverheadSize)%nat in
  let iv := take 16 (drop 65 wire) in
  let ciphertext := take ct_len (drop 81 wire) in
  let mac := take 32 (drop (81 + ct_len) wire) in
  shared ← ecies_shared_secret (take 64 (drop 1 wire)) recipient_private_key;
  let keys := derive_keys shared in
  let expected_mac := HMAC (ecies_mac_key keys) (iv ++ ciphertext ++ shared_mac_data) in
  if negb (bool_decide (mac = expected_mac)) then failure AuthError.kEciesDecryptFailed else
  success (aes128_ctr ciphertext (ecies_enc_key keys) iv).

Definition estimate_encrypted_size (plaintext_size : Z) : Z :=
  u64 (kUncompressedPubKeySize + kAesBlockSize + plaintext_size + kEciesMacSize).
End ecies.

(** ** auth_keys.hpp *)

Record AuthKeyMaterial := mkKeys {
  peer_public_key : option (list byte);
  peer_ephemeral_public_key : option (list byte);
  local_ephemeral_public_key : option (list byte);
  local_ephemeral_private_key : option (list byte);
  initiator_nonce : option (list byte);
  recipient_nonce : option (list byte);
  initiator_auth_message : list byte;
  recipient_ack_message : list byte
}.

(** ** auth_handshake.cpp *)

Record AuthRandom := mkAuthRandom { ar_padding : list byte; ar_ecies : EciesRandom }.

(** [{ static_cast<uint8_t>(v >> 8U), static_cast<uint8_t>(v & 0xFFU) }] *)
Definition u16_prefix (v : Z) : list byte := [byte_of (Z.shiftr v 8); byte_of (Z.land v 255)].

Section auth.
Context `{Hashes, CtrCiphers, Curve}.

Definition create_auth_message (rnd : AuthRandom) (local_private_key local_public_key ephemeral_private_key nonce remote_public_key : list byte) :
    outcome AuthError.t (list byte) :=
  token ← or_error (compute_shared_secret remote_public_key local_private_key) AuthError.kSharedSecretFailed;
  let signed_msg := xor_bytes token nonce in
  match ecdsa_sign_recoverable signed_msg ephemeral_private_key with
  | None => failure AuthError.kSignatureInvalid
  | Some (sig_compact, recid) =>
      let signature := sig_compact ++ [byte_of recid] in
      rlp ← or_error (run_encoder (in_list
              (put_bytes signature ;; put_bytes local_public_key ;; put_bytes nonce ;; put_u64 kAuthVersion)))
              AuthError.kSignatureInvalid;
      let rlp_body := rlp ++ ar_padding rnd in
      let prefix := u16_prefix (u16 (Zlen rlp_body + kEciesOverheadSize)) in
      ecies_encrypt (ar_ecies rnd) rlp_body remote_public_key prefix
  end.

Definition parse_auth_message (encrypted_auth local_private_key shared_mac_data : list byte) : outcome AuthError.t AuthKeyMaterial :=
  auth_body ← ecies_decrypt encrypted_auth local_private_key shared_mac_data;
  if Zlen auth_body <? kEcdsaSigSize + kNonceSize + kPublicKeySize + kNonceSize + kAuthVersionSize
  then failure AuthError.kInvalidAuthMessage else
  success (mkKeys (Some (take 64 (drop 97 auth_body))) None None None (Some (take 32 (drop 161 auth_body))) None auth_body []).

Definition create_ack_message (rnd : EciesRandom) (ephemeral_public_key nonce remote_public_key : list byte) : outcome AuthError.t (list byte) :=
  ecies_encrypt rnd (ephemeral_public_key ++ nonce ++ [byte_of kAuthVersion]) remote_public_key [].

Definition read_ack : M ByteView AuthError.t (list byte * list byte) :=
  or_fail ReadListHeaderBytes AuthError.kInvalidAckMessage ;;
  pubkey_bytes ← or_fail read_bytes AuthError.kInvalidAckMessage;
  if negb (Zlen pubkey_bytes =? kPublicKeySize) then fail AuthError.kInvalidAckMessage else
  nonce_bytes ← or_fail read_bytes AuthError.kInvalidAckMessage;
  if negb (Zlen nonce_bytes =? kNonceSize) then fail AuthError.kInvalidAckMessage else
  mret (pubkey_bytes, nonce_bytes).

(** The two fields that [parse_ack_message] sets. *)
Definition parse_ack_message (encrypted_ack local_private_key shared_mac_data : list byte) : outcome AuthError.t (list byte * list byte) :=
  ack_plain ← ecies_decrypt encrypted_ack local_private_key shared_mac_data;
  run_decoder read_ack ack_plain.
End auth.

(** Using a field that has no value. *)
Definition initialised {E A} (o : option A) : outcome E A := match o with Some a => success a | None => crash Indeterminate end.

Section secrets.
Context `{FramePrimitives, Curve}.

Definition mac_seed_bytes (mac_secret nonce msg : list byte) : list byte := xor_bytes mac_secret nonce ++ msg.

(** [None]: the secrets as they were default-initialised, when the ephemeral
    agreement fails. *)
Definition derive_frame_secrets (keys : AuthKeyMaterial) (is_initiator : bool) : outcome SessionError.t (option FrameSecrets) :=
  peer_eph ← initialised (peer_ephemeral_public_key keys);
  local_eph ← initialised (local_ephemeral_private_key keys);
  match compute_shared_secret peer_eph local_eph with
  | success ecdhe_secret =>
      resp_nonce ← initialised (recipient_nonce keys);
      init_nonce ← initialised (initiator_nonce keys);
      let nonce_hash := keccak256 (resp_nonce ++ init_nonce) in
      let shared_secret := keccak256 (ecdhe_secret ++ nonce_hash) in
      let aes_secret := keccak256 (ecdhe_secret ++ shared_secret) in
      let mac_secret := keccak256 (ecdhe_secret ++ aes_secret) in
      let of_recipient := mac_seed_bytes mac_secret resp_nonce (initiator_auth_message keys) in
      let of_initiator := mac_seed_bytes mac_secret init_nonce (recipient_ack_message keys) in
      success (Some (if is_initiator then mkFrameSecrets aes_secret mac_secret of_recipient of_initiator
                     else mkFrameSecrets aes_secret mac_secret of_initiator of_recipient))
  | failure _ => success None
  | crash f => crash f
  end.
End secrets.

Record HandshakeConfig := mkHandshakeConfig {
  hc_local_public_key : list byte;
  hc_local_private_key : list byte;
  hc_peer_public_key : option (list byte)
}.

Record HandshakeResult := mkHandshakeResult { key_material : AuthKeyMaterial; frame_secrets : option FrameSecrets }.

Record HandshakeRandom := mkHandshakeRandom {
  hr_keys : list (option (list byte));
  hr_nonce : option (list byte);
  hr_auth : AuthRandom
}.

(** [(bytes[0] << 8) | bytes[1]] *)
Definition prefix_value (len_bytes : list byte) : Z :=
  match len_bytes with b0 :: b1 :: _ => Z.lor (Z.shiftl (u8 b0) 8) (u8 b1) | _ => 0 end.

Section handshake.
Context `{FramePrimitives, Hashes, CtrCiphers, Curve}.

Notation refused := SessionError.kAuthenticationFailed.

(** The 2-byte length and the packet it announces, of either side. *)
Definition read_packet : M Transport SessionError.t (list byte * list byte) :=
  len_bytes ← or_fail (read_exact kEip8LengthPrefixSize) refused;
  let body_len := prefix_value len_bytes in
  if kMaxEip8HandshakePacketSize <? body_len then fail refused else
  body ← or_fail (read_exact body_len) refused;
  mret (len_bytes, body).

Definition execute_initiator (config : HandshakeConfig) (peer_key : list byte) (keypair : KeyPair) (local_nonce : list byte)
    (rnd : AuthRandom) : M Transport SessionError.t AuthKeyMaterial :=
  auth_ciphertext ← lift (or_error (create_auth_message rnd (hc_local_private_key config) (hc_local_public_key config)
                       (private_key keypair) local_nonce peer_key) refused);
  let auth_wire := u16_prefix (u16 (Zlen auth_ciphertext)) ++ auth_ciphertext in
  or_fail (write_all auth_wire) refused ;;
  '(len_bytes, ack) ← read_packet;
  '(eph, nonce) ← lift (or_error (parse_ack_message ack (hc_local_private_key config) len_bytes) refused);
  mret (mkKeys (Some peer_key) (Some eph) (Some (public_key keypair)) (Some (private_key keypair))
          (Some local_nonce) (Some nonce) auth_wire (len_bytes ++ ack)).

Definition execute_responder (config : HandshakeConfig) (keypair : KeyPair) (local_nonce : list byte) (rnd : EciesRandom) :
    M Transport SessionError.t AuthKeyMaterial :=
  '(len_bytes, auth) ← read_packet;
  parsed ← lift (or_error (parse_auth_message auth (hc_local_private_key config) len_bytes) refused);
  remote ← lift (initialised (peer_public_key parsed));
  ack_bytes ← lift (or_error (create_ack_message rnd (public_key keypair) local_nonce remote) refused);
  or_fail (write_all (u16_prefix (u16 (Zlen ack_bytes)) ++ ack_bytes)) refused ;;
  mret (mkKeys (peer_public_key parsed) (peer_ephemeral_public_key parsed) (Some (public_key keypair)) (Some (private_key keypair))
          (initiator_nonce parsed) (Some local_nonce) auth ack_bytes).

Definition is_initiator (config : HandshakeConfig) : bool := bool_decide (is_Some (hc_peer_public_key config)).

Definition execute (config : HandshakeConfig) (rnd : HandshakeRandom) : M Transport SessionError.t HandshakeResult :=
  keypair ← lift (or_error (generate_ephemeral_keypair (hr_keys rnd)) refused);
  match hr_nonce rnd with
  | None => fail refused
  | Some local_nonce =>
      keys ← match hc_peer_public_key config with
             | Some peer_key => execute_initiator config peer_key keypair local_nonce (hr_auth rnd)
             | None => execute_responder config keypair local_nonce (ar_ecies (hr_auth rnd))
             end;
      secrets ← lift (derive_frame_secrets keys (is_initiator config));
      mret (mkHandshakeResult keys secrets)
  end.
End handshake.

(** ** ECIES *)

Section ecies_facts.
Context `{HashesLaws, CtrCiphers, CurveLaws}.

Lemma length_aes128_ctr data key iv : length (aes128_ctr data key iv) = length data.
Proof. unfold aes128_ctr. rewrite length_xor_bytes, length_fmap, length_seq. lia. Qed.

Lemma aes128_ctr_twice data key iv : aes128_ctr (aes128_ctr data key iv) key iv = data.
Proof.
  unfold aes128_ctr at 1. rewrite length_aes128_ctr. apply xor_bytes_twice. rewrite length_fmap, length_seq. lia.
Qed.

Lemma draw_ephemeral_first draws :
  Exists (fun k => ec_seckey_verify k = true) draws -> exists k, draw_ephemeral draws = success k /\ ec_seckey_verify k = true.
Proof.
  induction draws as [|k draws IH]; [by intros ?%Exists_nil|]. intros Hd. simpl. destruct (ec_seckey_verify k) eqn:Ek; [eauto|].
  apply Exists_cons in Hd as [?|?]; [congruence|auto].
Qed.

(** The parts of the wire form. *)
Lemma wire_parts (xy iv ct mac : list byte) :
  length xy = 64%nat -> length iv = 16%nat -> length mac = 32%nat ->
  let wire := (kUncompressedPubKeyPrefix :: xy) ++ iv ++ ct ++ mac in
  length wire = (113 + length ct)%nat /\ take 64 (drop 1 wire) = xy /\ take 16 (drop 65 wire) = iv /\
  take (length ct) (drop 81 wire) = ct /\ take 32 (drop (81 + length ct) wire) = mac.
Proof.
  intros Hx Hi Hm wire. unfold wire. split; [simpl; rewrite !length_app, Hx, Hi, Hm; lia|]. simpl app. split; [|split; [|split]].
  - simpl. rewrite drop_0. by rewrite take_app_length'.
  - simpl. rewrite drop_app_length', take_app_length' by lia. done.
  - simpl. rewrite app_assoc, drop_app_length', take_app_length' by (rewrite ?length_app; lia). done.
  - change (81 + length ct)%nat with (S (80 + length ct)). cbn [drop]. rewrite !app_assoc, drop_app_length' by (rewrite ?length_app; lia).
    by rewrite take_ge by lia.
Qed.

Lemma ecies_roundtrip_eq rnd plaintext pub priv mac_data :
  is_keypair pub priv -> Exists (fun k => ec_seckey_verify k = true) (er_keys rnd) -> length (er_iv rnd) = 16%nat ->
  exists wire, ecies_encrypt rnd plaintext pub mac_data = success wire /\ length wire = (113 + length plaintext)%nat /\
  ecies_decrypt wire priv mac_data = success plaintext.
Proof.
  intros Hk Hd Hi. destruct (draw_ephemeral_first _ Hd) as (k & Ek & Vk). destruct (create_valid k Vk) as [pk Ep].
  destruct (serialize_point pk) as (xy & Es & Hx). assert (is_keypair xy k) as Hkk by (split; [done|]; by exists pk).
  destruct (shared_secret_agree _ _ _ _ Hk Hkk) as (z & Z1 & Z2 & _).
  unfold ecies_encrypt, mbind, outcome_bind. rewrite Ek, Ep, Es. unfold ecies_shared_secret. rewrite Z2. cbn [or_error].
  set (ct := aes128_ctr plaintext _ _). set (mac := HMAC _ _). eexists. split; [reflexivity|].
  assert (length ct = length plaintext) as Hct by apply length_aes128_ctr.
  destruct (wire_parts xy (er_iv rnd) ct mac Hx Hi (length_HMAC _ _)) as (L & P1 & P2 & P3 & P4). split; [by rewrite <- Hct|].
  unfold ecies_decrypt. rewrite L, (proj2 (Z.ltb_ge _ _)) by (unfold kEciesOverheadSize, kUncompressedPubKeySize, kAesBlockSize, kEciesMacSize; lia).
  replace (113 + length ct - Z.to_nat kEciesOverheadSize)%nat with (length ct)
    by (unfold kEciesOverheadSize, kUncompressedPubKeySize, kAesBlockSize, kEciesMacSize; lia).
  rewrite P1, P2, P3, P4. unfold mbind, outcome_bind, ecies_shared_secret. rewrite Z1. cbn [or_error].
  rewrite bool_decide_true by done. cbn [negb]. unfold ct. by rewrite aes128_ctr_twice.
Qed.
End ecies_facts.

(** ** The packets *)

Lemma u16_prefix_value v : 0 <= v < 2 ^ 16 -> prefix_value (u16_prefix v) = v.
Proof.
  intros Hv. unfold prefix_value, u16_prefix. rewrite (Z.land_ones _ 8), !u8_byte_of, Z.shiftr_div_pow2, Z.shiftl_mul_pow2 by lia.
  change (v mod 2 ^ 8) with (v mod 256). rewrite Z.mod_mod by lia. pose proof (Z.mod_pos_bound v 256 ltac:(lia)).
  rewrite lor_add by lia. change (2 ^ 8) with 256. rewrite (Z.mod_small (v / 256)) by (split; [apply Z.div_pos; lia|apply Z.div_lt_upper_bound; lia]).
  pose proof (Z.div_mod v 256). lia.
Qed.

(** A packet on the wire is read whole. *)
Lemma read_packet_eq body rest t :
  Zlen body <= kMaxEip8HandshakePacketSize -> rx t = u16_prefix (Zlen body) ++ body ++ rest -> socket_open t = true ->
  read_packet t = (success (u16_prefix (Zlen body), body), mkTransport rest (tx t) true (peer_reset t)).
Proof.
  intros Hb Hr Ho. unfold read_packet. unfold kMaxEip8HandshakePacketSize in *.
  erewrite bind_success by (apply or_fail_success; by apply read_exact_app).
  rewrite u16_prefix_value, (proj2 (Z.ltb_ge _ _)) by lia.
  erewrite bind_success by (apply or_fail_success; by apply (read_exact_app _ body rest)). done.
Qed.

(** What EIP-8 prescribes for the two packets. *)
Definition auth_plain (sig pub nonce : list byte) : list byte :=
  rlp_list (rlp_string sig ++ rlp_string pub ++ rlp_string nonce ++ rlp_uint kAuthVersion).
Definition ack_plain (eph nonce : list byte) : list byte :=
  rlp_list (rlp_string eph ++ rlp_string nonce ++ rlp_uint kAuthVersion).

Lemma length_auth_plain sig pub nonce :
  length sig = 65%nat -> length pub = 64%nat -> length nonce = 32%nat -> (length (auth_plain sig pub nonce) <= 220)%nat.
Proof.
  intros H1 H2 H3. unfold auth_plain. set (p := _ ++ _).
  assert (length p <= 200)%nat as Hp.
  { unfold p. rewrite !length_app. pose proof (rlp_string_length_le sig) as L1. pose proof (rlp_string_length_le pub) as L2.
    pose proof (rlp_string_length_le nonce) as L3. change (length (rlp_uint kAuthVersion)) with 1%nat.
    rewrite H1 in L1. rewrite H2 in L2. rewrite H3 in L3. lia. }
  pose proof (rlp_list_length_le p). lia.
Qed.

Section handshake_facts.
Context `{FramePrimitives, HashesLaws, CtrCiphers, CurveLaws}.

Lemma create_auth_eq rnd lpriv lpub eph_priv nonce rpub rpriv :
  is_keypair lpub lpriv -> is_keypair rpub rpriv -> ec_seckey_verify eph_priv = true -> length nonce = 32%nat ->
  length (ar_padding rnd) = 100%nat -> Exists (fun k => ec_seckey_verify k = true) (er_keys (ar_ecies rnd)) ->
  length (er_iv (ar_ecies rnd)) = 16%nat ->
  exists sig ct, create_auth_message rnd lpriv lpub eph_priv nonce rpub = success ct /\
    Zlen ct <= 433 /\ length sig = 65%nat /\
    ecies_decrypt ct rpriv (u16_prefix (Zlen ct)) = success (auth_plain sig lpub nonce ++ ar_padding rnd).
Proof.
  intros Hl Hr Hv Hn Hp Hd Hi. unfold create_auth_message. destruct (shared_secret_agree _ _ _ _ Hl Hr) as (z & Z1 & _ & _).
  rewrite Z1. cbn [or_error]. unfold mbind, outcome_bind. destruct (sign_valid (xor_bytes z nonce) eph_priv Hv) as (sg & recid & -> & Hs).
  set (sig := sg ++ [byte_of recid]). assert (length sig = 65%nat) as Hsig by (unfold sig; rewrite length_app, Hs; done).
  assert (length lpub = 64%nat) as Hlp.
  { destruct Hl as (_ & p & _ & E). destruct (serialize_point p) as (xy & E' & ?). congruence. }
  pose proof (length_auth_plain sig lpub nonce Hsig Hlp Hn) as Hap.
  rewrite (run_encoder_emits _ (auth_plain sig lpub nonce)) by (lia || (unfold auth_plain; emit)). cbn [or_error].
  set (body := auth_plain sig lpub nonce ++ ar_padding rnd).
  assert (length body <= 320)%nat as Hb by (unfold body; rewrite length_app; lia).
  assert (u16 (Zlen body + kEciesOverheadSize) = Zlen body + 113) as ->.
  { unfold kEciesOverheadSize, kUncompressedPubKeySize, kAesBlockSize, kEciesMacSize. apply u16_small. lia. }
  destruct (ecies_roundtrip_eq (ar_ecies rnd) body rpub rpriv (u16_prefix (Zlen body + 113)) Hr Hd Hi) as (ct & E1 & E2 & E3).
  exists sig, ct. split; [done|]. split; [lia|]. split; [done|].
  replace (Zlen ct) with (Zlen body + 113) by lia. done.
Qed.

Lemma read_ack_eq eph nonce tl :
  length eph = 64%nat -> length nonce = 32%nat -> fits (ack_plain eph nonce ++ tl) ->
  run_decoder read_ack (ack_plain eph nonce ++ tl) = success (eph, nonce).
Proof.
  intros He Hn Hf. unfold run_decoder, read_ack. unfold ack_plain in *.
  erewrite bind_success by (apply or_fail_success; by apply ReadListHeaderBytes_list).
  unfold rlp_list in Hf. rewrite <- !app_assoc in *. apply fits_app_r in Hf.
  erewrite bind_success by (apply or_fail_success; by apply read_bytes_at). rewrite He. cbn [negb Z.eqb].
  change (Z.of_nat 64 =? kPublicKeySize) with true. cbn [negb]. apply fits_app_r in Hf.
  erewrite bind_success by (apply or_fail_success; by apply read_bytes_at). rewrite Hn.
  change (Z.of_nat 32 =? kNonceSize) with true. done.
Qed.

(** Both sides derive the same keys, with the seeds of the two directions exchanged. *)
Lemma derive_mirrored ki kr pub1 priv1 pub2 priv2 ni nr :
  is_keypair pub1 priv1 -> is_keypair pub2 priv2 ->
  peer_ephemeral_public_key ki = Some pub2 -> local_ephemeral_private_key ki = Some priv1 ->
  peer_ephemeral_public_key kr = Some pub1 -> local_ephemeral_private_key kr = Some priv2 ->
  initiator_nonce ki = Some ni -> recipient_nonce ki = Some nr -> initiator_nonce kr = Some ni -> recipient_nonce kr = Some nr ->
  initiator_auth_message ki = initiator_auth_message kr -> recipient_ack_message ki = recipient_ack_message kr ->
  exists si sr, derive_frame_secrets ki true = success (Some si) /\ derive_frame_secrets kr false = success (Some sr) /\
    synced (FrameCipher_new si) (FrameCipher_new sr) /\ synced (FrameCipher_new sr) (FrameCipher_new si).
Proof.
  intros K1 K2 E1 E2 E3 E4 E5 E6 E7 E8 E9 E10. destruct (shared_secret_agree _ _ _ _ K1 K2) as (z & Z1 & Z2 & _).
  unfold derive_frame_secrets. rewrite E1, E2, E3, E4. unfold mbind, outcome_bind. cbn [initialised]. rewrite Z1, Z2, E5, E6, E7, E8, E9, E10.
  eexists _, _. split; [reflexivity|]. split; [reflexivity|]. by split.
Qed.

Lemma execute_initiator_eq config peer_key kp nonce rnd t auth ack eph peer_nonce rest :
  Zlen auth < 2 ^ 16 ->
  create_auth_message rnd (hc_local_private_key config) (hc_local_public_key config) (private_key kp) nonce peer_key = success auth ->
  Zlen ack <= kMaxEip8HandshakePacketSize ->
  parse_ack_message ack (hc_local_private_key config) (u16_prefix (Zlen ack)) = success (eph, peer_nonce) ->
  rx t = u16_prefix (Zlen ack) ++ ack ++ rest -> socket_open t = true -> peer_reset t = false ->
  execute_initiator config peer_key kp nonce rnd t =
  (success (mkKeys (Some peer_key) (Some eph) (Some (public_key kp)) (Some (private_key kp)) (Some nonce) (Some peer_nonce)
     (u16_prefix (Zlen auth) ++ auth) (u16_prefix (Zlen ack) ++ ack)),
   mkTransport rest (tx t ++ u16_prefix (Zlen auth) ++ auth) true false).
Proof.
  intros Hl Ha Hal Hd Hr Ho Hp. unfold execute_initiator. rewrite Ha. cbn [or_error].
  rewrite (bind_success (lift _) _ t auth t eq_refl), (u16_small (Zlen auth)) by lia.
  rewrite (bind_success (or_fail _ _) _ t tt (mkTransport (rx t) (tx t ++ u16_prefix (Zlen auth) ++ auth) true false)).
  2: { apply or_fail_success. unfold write_all. by rewrite Ho, Hp. }
  erewrite bind_success by (by apply (read_packet_eq ack rest)). cbn [tx peer_reset].
  rewrite Hd. done.
Qed.

(** The key material of the peer at the other end. *)
Definition peer_keys (initiator_eph peer_eph_priv nonce peer_nonce auth ack : list byte) : AuthKeyMaterial :=
  mkKeys None (Some initiator_eph) None (Some peer_eph_priv) (Some nonce) (Some peer_nonce)
    (u16_prefix (Zlen auth) ++ auth) (u16_prefix (Zlen ack) ++ ack).
End handshake_facts.

(** ** Claims *)

(** [EciesCipher::decrypt] inverts [encrypt] for the holder of the recipient's secret and the same shared MAC data;
    with other MAC data it either fails or still yields this plaintext; the ciphertext has exactly
    [estimate_encrypted_size] bytes. *)
Theorem ecies_roundtrip `{HashesLaws, CtrCiphers, CurveLaws} (rnd : EciesRandom) (plaintext pub priv mac_data : list byte) :
  is_keypair pub priv -> Exists (fun k => ec_seckey_verify k = true) (er_keys rnd) -> length (er_iv rnd) = 16%nat ->
  Zlen plaintext < 2 ^ 32 ->
  exists wire, ecies_encrypt rnd plaintext pub mac_data = success wire /\ Zlen wire = estimate_encrypted_size (Zlen plaintext) /\
    ecies_decrypt wire priv mac_data = success plaintext /\
    forall mac_data', ecies_decrypt wire priv mac_data' = success plaintext \/
                      ecies_decrypt wire priv mac_data' = failure AuthError.kEciesDecryptFailed.
Proof.
  intros Hk Hd Hi Hl. destruct (ecies_roundtrip_eq rnd plaintext pub priv mac_data Hk Hd Hi) as (wire & E1 & E2 & E3).
  exists wire. split; [done|]. split.
  { unfold estimate_encrypted_size, kUncompressedPubKeySize, kAesBlockSize, kEciesMacSize. rewrite u64_small; lia. }
  split; [done|]. intros mac_data'. revert E3. unfold ecies_decrypt, mbind, outcome_bind. case_match; [done|].
  destruct (ecies_shared_secret _ _) as [z|e|f]; [|done|done].
  case_bool_decide; cbn [negb]; [|done]. case_bool_decide; cbn [negb]; [by left|by right].
Qed.


(** C38: The responder's side never completes a handshake: [parse_auth_message] does not set the initiator's ephemeral
    key, so for every configuration without a peer key, every randomness and every input, [execute] either fails or uses
    the key it has not initialised. *)
Theorem responder_never_completes `{FramePrimitives, Hashes, CtrCiphers, Curve} (config : HandshakeConfig) (rnd : HandshakeRandom)
    (t : Transport) :
  hc_peer_public_key config = None -> is_success (execute config rnd t).1 = false.
Proof.
  intros Hc. unfold execute. rewrite Hc.
  unfold mbind at 1, M_bind at 1, lift at 1. destruct (or_error _ _) as [kp|e|f]; [|done|done].
  destruct (hr_nonce rnd) as [nonce|]; [|done]. unfold mbind at 1, M_bind at 1.
  destruct (execute_responder config kp nonce _ t) as [[keys|e|f] t1] eqn:Ek; [|done|done].
  assert (peer_ephemeral_public_key keys = None) as Hn.
  { unfold execute_responder in Ek. apply bind_success_inv in Ek as ([lb auth] & t2 & _ & Ek).
    apply bind_success_inv in Ek as (parsed & t3 & Ep & Ek). apply bind_success_inv in Ek as (remote & t4 & _ & Ek).
    apply bind_success_inv in Ek as (ack & t5 & _ & Ek). apply bind_success_inv in Ek as ([] & t6 & _ & Ek).
    injection Ek as <- _. cbn. unfold lift in Ep. injection Ep as Ep _. unfold parse_auth_message, mbind, outcome_bind in Ep.
    destruct (ecies_decrypt _ _ _) as [body|e|f]; [|done|done]. case_match; [done|]. by simplify_eq/=. }
  unfold derive_frame_secrets. rewrite Hn. done.
Qed.

(** ** The claims on concrete primitives *)

Import Toy ToyCrypto.

Module Sample.
Definition iv : list byte := replicate 16 x05.
Definition priv (n : Z) : list byte := be_bytes 32 n.
Definition pub (n : Z) : list byte := replicate 64 (byte_of (be_val (priv n))).
Definition ecies (n : Z) : EciesRandom := mkEciesRandom [[]; priv n] iv.
Definition nonce (b : byte) : list byte := replicate 32 b.
Definition config : HandshakeConfig := mkHandshakeConfig (pub 11) (priv 11) (Some (pub 12)).
Definition random : HandshakeRandom :=
  mkHandshakeRandom [Some [x00]; Some (priv 13)] (Some (nonce x07)) (mkAuthRandom (replicate 100 x01) (ecies 14)).
Definition ack : list byte :=
  match ecies_encrypt (ecies 16) (ack_plain (pub 15) (nonce x08)) (pub 11) (u16_prefix 215) with success a => a | _ => [] end.
Definition transport : Transport := mkTransport (u16_prefix 215 ++ ack ++ [xff]) [] true false.

Lemma keypair n : is_keypair (pub n) (priv n).
Proof. split; [|by eexists].
  unfold ec_seckey_verify, curve, priv. by rewrite length_be_bytes. Qed.
End Sample.

Lemma ecies_roundtrip_witness :
  exists wire, ecies_encrypt (Sample.ecies 5) [x01; x02] (Sample.pub 3) [x09] = success wire /\
               ecies_decrypt wire (Sample.priv 3) [x09] = success [x01; x02].
Proof.
  destruct (ecies_roundtrip (Sample.ecies 5) [x01; x02] (Sample.pub 3) (Sample.priv 3) [x09]) as (wire & E1 & _ & E2 & _).
  - apply Sample.keypair.
  - apply Exists_cons_tl, Exists_cons_hd. reflexivity.
  - reflexivity.
  - reflexivity.
  - exists wire. split; [exact E1|exact E2].
Defined.


Lemma responder_never_completes_witness :
  is_success (execute (mkHandshakeConfig (Sample.pub 11) (Sample.priv 11) None) Sample.random Sample.transport).1 = false.
Proof. apply responder_never_completes. reflexivity. Defined.
