(* ===== verification/RlpxSession.v ===== *)
(** * RLPx sessions

    [src/rlpx/rlpx_session.cpp] and [include/rlpx/rlpx_session.hpp]: capability
    negotiation, [connect], the send and receive loops, message routing and the
    session state.

    The handlers are code of the caller: a session records which of them are set
    and [route_message] returns the calls it makes.  A coroutine that waits is
    modelled by the iteration it runs when it is resumed ([send_iteration],
    [receive_iteration]); the polling timers only decide when that happens.
    [connect] receives the outcome of the TCP connection and whether the
    handshake timer fires before the peer's first message. *)

From stdpp Require Import sorting.
From S2P Require Import Prelude RlpSpec RlpCommon RlpEncoder RlpDecoder DecodeLogic EthObjects EthStatus RlpxMessages FrameCipher RlpxCrypto RlpxAuth.

Module SessionState.
Inductive t :=
  | kUninitialized | kConnecting | kAuthenticating | kHandshaking | kActive | kDisconnecting | kClosed | kError.
End SessionState.

#[global] Instance session_state_eq_dec : EqDecision SessionState.t.
Proof. solve_decision. Defined.

#[global] Instance capability_eq_dec : EqDecision Capability.
Proof. solve_decision. Defined.

(** ** Capability negotiation *)

Definition kBaseProtocolLength : Z := 16.
Definition kUnknownProtocolLength : Z := 1.
Definition kSnapProtocolLength : Z := 8.

Definition eth_name : list byte := [x65; x74; x68].
Definition snap_name : list byte := [x73; x6e; x61; x70].

Definition negotiate_eth_version (capabilities : list Capability) : Z :=
  foldl (fun negotiated_version capability =>
    if negb (bool_decide (cap_name capability = eth_name)) then negotiated_version else
    if (kEthProtocolVersion66 <=? cap_version capability) && (cap_version capability <=? kEthProtocolVersion69) &&
       (negotiated_version <? cap_version capability)
    then cap_version capability else negotiated_version) 0 capabilities.

Definition capability_wire_length (capability : Capability) : Z :=
  if bool_decide (cap_name capability = eth_name) then
    if cap_version capability =? kEthProtocolVersion69 then 18
    else if (kEthProtocolVersion66 <=? cap_version capability) && (cap_version capability <=? kEthProtocolVersion68) then 17
    else 0
  else if bool_decide (cap_name capability = snap_name) then kSnapProtocolLength
  else kUnknownProtocolLength.

(** [std::string::operator<]: bytes as unsigned characters, then the length. *)
Fixpoint name_less (a b : list byte) : bool :=
  match a, b with
  | _, [] => false
  | [], _ :: _ => true
  | x :: a', y :: b' => if u8 x <? u8 y then true else if u8 y <? u8 x then false else name_less a' b'
  end.

Definition capability_less (lhs rhs : Capability) : bool :=
  if negb (bool_decide (cap_name lhs = cap_name rhs)) then name_less (cap_name lhs) (cap_name rhs)
  else cap_version lhs <? cap_version rhs.

(** [std::sort] with [capability_less]: the order is total, so there is one
    sorted permutation. *)
Definition capability_le (a b : Capability) : Prop := capability_less b a = false.

#[global] Instance capability_le_dec : RelDecision capability_le.
Proof. intros a b. unfold capability_le. apply _. Defined.

Definition sort_capabilities (capabilities : list Capability) : list Capability := merge_sort capability_le capabilities.

(** The variables of the loop. *)
Record OffsetState := mkOffset { os_offset : Z; matched_eth : option Capability; matched_eth_offset : Z }.

Definition u8_wrap (z : Z) : Z := z mod 256.

Definition offset_step (s : OffsetState) (capability : Capability) : OffsetState :=
  let len := capability_wire_length capability in
  if len =? 0 then s else
  if bool_decide (cap_name capability = eth_name) then
    match matched_eth s with
    | None => mkOffset (u8_wrap (os_offset s + len)) (Some capability) (os_offset s)
    | Some prev =>
        if cap_version prev <? cap_version capability then
          let offset := u8_wrap (os_offset s - capability_wire_length prev) in
          mkOffset (u8_wrap (offset + len)) (Some capability) offset
        else s
    end
  else mkOffset (u8_wrap (os_offset s + len)) (matched_eth s) (matched_eth_offset s).

Definition negotiate_eth_offset (capabilities : list Capability) : Z :=
  let s := foldl offset_step (mkOffset kBaseProtocolLength None 0) (sort_capabilities capabilities) in
  match matched_eth s with Some _ => matched_eth_offset s | None => 0 end.

Definition normalize_eth_message_id (wire_message_id negotiated_eth_offset : Z) : option Z :=
  if wire_message_id <? negotiated_eth_offset then None else Some (u8_wrap (wire_message_id - negotiated_eth_offset)).

(** ** The session *)

Record PeerInfo := mkPeerInfo {
  pi_public_key : list byte;
  pi_client_id : list byte;
  pi_listen_port : Z;
  pi_remote_address : list byte;
  pi_remote_port : Z
}.

(** Which handlers are set. *)
Record Handlers := mkHandlers {
  on_hello : bool; on_disconnect : bool; on_ping : bool; on_pong : bool; on_generic : bool; on_eth : bool
}.

Record RlpxSession := mkSession {
  state_ : SessionState.t;
  stream_ : MessageStream;
  peer_info_ : PeerInfo;
  negotiated_eth_version_ : Z;
  negotiated_eth_offset_ : Z;
  is_initiator_ : bool;
  send_channel : list Message;
  recv_channel : list Message;
  handlers : Handlers
}.

Definition no_handlers : Handlers := mkHandlers false false false false false false.

Definition session_new (stream : MessageStream) (peer_info : PeerInfo) (is_initiator : bool) : RlpxSession :=
  mkSession SessionState.kUninitialized stream peer_info 0 0 is_initiator [] [] no_handlers.

Definition set_state (st : SessionState.t) (s : RlpxSession) : RlpxSession :=
  mkSession st (stream_ s) (peer_info_ s) (negotiated_eth_version_ s) (negotiated_eth_offset_ s) (is_initiator_ s)
    (send_channel s) (recv_channel s) (handlers s).
Definition set_stream (st : MessageStream) (s : RlpxSession) : RlpxSession :=
  mkSession (state_ s) st (peer_info_ s) (negotiated_eth_version_ s) (negotiated_eth_offset_ s) (is_initiator_ s)
    (send_channel s) (recv_channel s) (handlers s).
Definition set_send_channel (q : list Message) (s : RlpxSession) : RlpxSession :=
  mkSession (state_ s) (stream_ s) (peer_info_ s) (negotiated_eth_version_ s) (negotiated_eth_offset_ s) (is_initiator_ s)
    q (recv_channel s) (handlers s).
Definition set_recv_channel (q : list Message) (s : RlpxSession) : RlpxSession :=
  mkSession (state_ s) (stream_ s) (peer_info_ s) (negotiated_eth_version_ s) (negotiated_eth_offset_ s) (is_initiator_ s)
    (send_channel s) q (handlers s).

(** The move constructor: every member but [eth_message_handler_]. *)
Definition session_move (other : RlpxSession) : RlpxSession :=
  let h := handlers other in
  mkSession (state_ other) (stream_ other) (peer_info_ other) (negotiated_eth_version_ other) (negotiated_eth_offset_ other)
    (is_initiator_ other) (send_channel other) (recv_channel other)
    (mkHandlers (on_hello h) (on_disconnect h) (on_ping h) (on_pong h) (on_generic h) false).

(** Move assignment: the target keeps the handler it had. *)
Definition session_move_assign (this other : RlpxSession) : RlpxSession :=
  let h := handlers other in
  mkSession (state_ other) (stream_ other) (peer_info_ other) (negotiated_eth_version_ other) (negotiated_eth_offset_ other)
    (is_initiator_ other) (send_channel other) (recv_channel other)
    (mkHandlers (on_hello h) (on_disconnect h) (on_ping h) (on_pong h) (on_generic h) (on_eth (handlers this))).

(** The destructor's transition. *)
Definition session_destroy (s : RlpxSession) : RlpxSession :=
  match state_ s with
  | SessionState.kClosed | SessionState.kError => s
  | _ => set_state SessionState.kClosed s
  end.

Definition is_terminal_state (st : SessionState.t) : bool :=
  match st with SessionState.kClosed | SessionState.kError => true | _ => false end.

Definition try_transition_state (from to : SessionState.t) (s : RlpxSession) : bool * RlpxSession :=
  if decide (state_ s = from) then (true, set_state to s) else (false, s).

Definition force_error_state (s : RlpxSession) : RlpxSession := set_state SessionState.kError s.

Notation Session := (M RlpxSession SessionError.t).

(** The guard of the public operations. *)
Definition require_active : Session unit := fun s =>
  match state_ s with
  | SessionState.kActive => (success tt, s)
  | SessionState.kClosed | SessionState.kError => (failure SessionError.kConnectionFailed, s)
  | _ => (failure SessionError.kNotConnected, s)
  end.

(** [send_channel_->push]. *)
Definition channel_push (message : Message) : Session unit := fun s =>
  (success tt, set_send_channel (send_channel s ++ [message]) s).

Definition post_message (message : Message) : Session unit := require_active ;; channel_push message.

(** [recv_channel_->try_pop], and the error of an empty queue. *)
Definition channel_pop : Session Message := fun s =>
  match recv_channel s with
  | [] => (failure SessionError.kNotConnected, s)
  | msg :: q => (success msg, set_recv_channel q s)
  end.

Definition receive_message : Session Message := require_active ;; channel_pop.

(** [polls]: what arrives in the queue before each poll, up to the deadline. *)
Fixpoint poll_until (polls : list (list Message)) : Session Message := fun s =>
  match recv_channel s with
  | msg :: q => (success msg, set_recv_channel q s)
  | [] =>
      match polls with
      | [] => (failure SessionError.kHandshakeFailed, s)
      | arrived :: polls' => poll_until polls' (set_recv_channel (recv_channel s ++ arrived) s)
      end
  end.

Definition receive_message_with_timeout (polls : list (list Message)) : Session Message := require_active ;; poll_until polls.

(** [disconnect]: the reason is not used. *)
Definition disconnect (reason : Z) : Session unit := fun s =>
  match state_ s with
  | SessionState.kDisconnecting | SessionState.kClosed | SessionState.kError => (success tt, s)
  | _ => (success tt, set_stream (stream_close (stream_ s)) (set_state SessionState.kClosed (set_state SessionState.kDisconnecting s)))
  end.

(** ** Routing *)

Inductive HandlerCall :=
  | HelloCall (hello : HelloMessage)
  | DisconnectCall (reason : Z)
  | PingCall
  | PongCall
  | EthCall (id : Z) (payload : list byte)
  | GenericCall (msg : Message).

(** A handler is called with what was decoded, and only if it was. *)
Definition on_decoded {A} (r : outcome SessionError.t A) (call : A -> HandlerCall) : list HandlerCall :=
  match r with success a => [call a] | _ => [] end.

Definition route_message (s : RlpxSession) (msg : Message) : list HandlerCall :=
  let h := handlers s in
  if msg_id msg =? kHelloMessageId then
    if on_hello h then on_decoded (hello_decode (msg_payload msg)) HelloCall else []
  else if msg_id msg =? kDisconnectMessageId then
    match disconnect_decode (msg_payload msg) with
    | success reason => if on_disconnect h then [DisconnectCall reason] else []
    | _ => []
    end
  else if msg_id msg =? kPingMessageId then
    if on_ping h then on_decoded (ping_decode (msg_payload msg)) (fun _ => PingCall) else []
  else if msg_id msg =? kPongMessageId then
    if on_pong h then on_decoded (pong_decode (msg_payload msg)) (fun _ => PongCall) else []
  else
    match (if on_eth h then normalize_eth_message_id (msg_id msg) (negotiated_eth_offset_ s) else None) with
    | Some eth_message_id => [EthCall eth_message_id (msg_payload msg)]
    | None => if on_generic h then [GenericCall msg] else []
    end.

Section session_loops.
Context `{FramePrimitives, Snappy}.

(** [run_send_loop] after it has popped a message: [None] while it goes on, else
    what it returns. *)
Definition send_popped (msg : Message) (s : RlpxSession) : option (outcome SessionError.t unit) * RlpxSession :=
  let '(send_result, stream) := send_message msg (stream_ s) in
  let s' := set_stream stream s in
  match send_result with
  | success _ => (None, s')
  | failure e => (Some (failure e), force_error_state s')
  | crash f => (Some (crash f), s')
  end.

(** One iteration of [run_send_loop]. *)
Definition send_iteration (s : RlpxSession) : option (outcome SessionError.t unit) * RlpxSession :=
  if decide (state_ s = SessionState.kActive) then
    match send_channel s with
    | [] => (None, s)
    | msg :: q => send_popped msg (set_send_channel q s)
    end
  else (Some (success tt), s).

(** [run_receive_loop] inside its guard, with the calls of the handlers. *)
Definition receive_one (s : RlpxSession) : option (outcome SessionError.t unit) * list HandlerCall * RlpxSession :=
  let '(msg_result, stream) := FrameCipher.receive_message (stream_ s) in
  let s' := set_stream stream s in
  match msg_result with
  | success msg => (None, route_message s' msg, set_recv_channel (recv_channel s' ++ [msg]) s')
  | failure e => (Some (failure e), [], force_error_state s')
  | crash f => (Some (crash f), [], s')
  end.

(** One iteration of [run_receive_loop]. *)
Definition receive_iteration (s : RlpxSession) : option (outcome SessionError.t unit) * list HandlerCall * RlpxSession :=
  if decide (state_ s = SessionState.kActive) then receive_one s else (Some (success tt), [], s).

(** The whole receive loop on the bytes that arrive until the peer closes. *)
Fixpoint run_receive_loop (fuel : nat) (s : RlpxSession) : outcome SessionError.t unit * list HandlerCall * RlpxSession :=
  match fuel with
  | O => (crash Diverge, [], s)
  | S fuel' =>
      match receive_iteration s with
      | (Some r, calls, s') => (r, calls, s')
      | (None, calls, s') => let '(r, calls', s'') := run_receive_loop fuel' s' in (r, calls ++ calls', s'')
      end
  end.
End session_loops.

(** ** connect *)

Inductive ConnectProgressPhase :=
  | kTcpConnected | kAuthSucceeded | kLocalHelloSent | kPeerDisconnectBeforeHello | kPeerHelloAccepted.

Record SessionConnectParams := mkConnectParams {
  sp_remote_port : Z;
  sp_local_public_key : list byte;
  sp_local_private_key : list byte;
  sp_peer_public_key : list byte;
  sp_client_id : list byte;
  sp_listen_port : Z
}.

(** What the progress handler and [pre_hello_disconnect_reason] receive. *)
Record ConnectLog := mkConnectLog { cl_progress : list (ConnectProgressPhase * Z); cl_reason : option Z }.

Notation Connect := (M ConnectLog SessionError.t).

Definition report (phase : ConnectProgressPhase) (reason : Z) : Connect unit := fun l =>
  (success tt, mkConnectLog (cl_progress l ++ [(phase, reason)]) (cl_reason l)).
Definition report_reason (reason : Z) : Connect unit := fun l => (success tt, mkConnectLog (cl_progress l) (Some reason)).

(** A call on an object that only this function holds. *)
Definition on_object {T E A} (m : M T E A) (t : T) : outcome E (A * T) :=
  match m t with (success a, t') => success (a, t') | (failure e, _) => failure e | (crash f, _) => crash f end.

(** [DisconnectReason::kRequested] and [kProtocolError]. *)
Definition kRequested : Z := 0.
Definition kProtocolError : Z := 2.

Definition local_hello (params : SessionConnectParams) : HelloMessage :=
  mkHello kProtocolVersion (sp_client_id params)
    [mkCapability eth_name kEthProtocolVersion66; mkCapability eth_name kEthProtocolVersion67;
     mkCapability eth_name kEthProtocolVersion68; mkCapability eth_name kEthProtocolVersion69]
    (sp_listen_port params) (sp_local_public_key params).

Section connect.
Context `{FramePrimitives, Snappy, Hashes, CtrCiphers, Curve}.

(** The timer closes the socket when it fires; its handler has not run when the
    error is looked at, so every failure is reported as a failed handshake. *)
Definition receive_stream_message_with_timeout (timer_fires : bool) : M MessageStream SessionError.t Message := fun stream =>
  or_fail FrameCipher.receive_message SessionError.kHandshakeFailed (if timer_fires then stream_close stream else stream).

(** The session after the peer's Hello. *)
Definition accept_hello (s : RlpxSession) (hello : HelloMessage) : RlpxSession :=
  let info := peer_info_ s in
  let stream := if kProtocolVersion <=? hello_protocol_version hello then enable_compression (stream_ s) else stream_ s in
  mkSession (state_ s) stream
    (mkPeerInfo (pi_public_key info) (hello_client_id hello) (hello_listen_port hello) (pi_remote_address info) (pi_remote_port info))
    (negotiate_eth_version (hello_capabilities hello)) (negotiate_eth_offset (hello_capabilities hello))
    (is_initiator_ s) (send_channel s) (recv_channel s) (handlers s).

Definition connect (params : SessionConnectParams) (tcp : outcome SessionError.t Transport) (rnd : HandshakeRandom) (timer_fires : bool) :
    Connect RlpxSession :=
  transport ← lift tcp;
  report kTcpConnected kRequested ;;
  '(hs, transport) ← lift (on_object (execute (mkHandshakeConfig (sp_local_public_key params) (sp_local_private_key params)
                             (Some (sp_peer_public_key params))) rnd) transport);
  report kAuthSucceeded kRequested ;;
  secrets ← lift (initialised (frame_secrets hs));
  let stream := stream_new (FrameCipher_new secrets) transport in
  let session := session_new stream (mkPeerInfo (sp_peer_public_key params) (sp_client_id params) (sp_listen_port params) [] (sp_remote_port params)) true in
  hello_encoded ← lift (or_error (hello_encode (local_hello params)) SessionError.kHandshakeFailed);
  '(_, stream) ← lift (on_object (send_message (mkMessage kHelloMessageId hello_encoded)) (stream_ session));
  report kLocalHelloSent kRequested ;;
  '(peer_msg, stream) ← lift (on_object (receive_stream_message_with_timeout timer_fires) stream);
  if msg_id peer_msg =? kHelloMessageId then
    match hello_decode (msg_payload peer_msg) with
    | success peer_hello =>
        report kPeerHelloAccepted kRequested ;;
        mret (set_state SessionState.kActive (accept_hello (set_stream stream session) peer_hello))
    | failure _ => fail SessionError.kHandshakeFailed
    | crash f => crash_with f
    end
  else if msg_id peer_msg =? kDisconnectMessageId then
    match disconnect_decode (msg_payload peer_msg) with
    | success reason => report_reason reason ;; report kPeerDisconnectBeforeHello reason
    | failure _ => report kPeerDisconnectBeforeHello kProtocolError
    | crash f => crash_with f
    end ;; fail SessionError.kHandshakeFailed
  else fail SessionError.kHandshakeFailed.

(** [accept] is not implemented. *)
Definition accept : outcome SessionError.t RlpxSession := failure SessionError.kConnectionFailed.
End connect.

(** ** Negotiation against its specification *)

Definition supported (c : Capability) : Prop :=
  cap_name c = eth_name /\ kEthProtocolVersion66 <= cap_version c <= kEthProtocolVersion69.

#[global] Instance supported_dec c : Decision (supported c).
Proof. unfold supported. apply _. Defined.

(** What [negotiate_eth_version] keeps is the greatest supported version so far. *)
Definition best_version (v : Z) (caps : list Capability) : Prop :=
  (forall c, c ∈ caps -> supported c -> cap_version c <= v) /\ (v = 0 \/ exists c, c ∈ caps /\ supported c /\ cap_version c = v).

Lemma negotiate_eth_version_best caps : best_version (negotiate_eth_version caps) caps.
Proof.
  unfold negotiate_eth_version. induction caps as [|c caps IH] using rev_ind.
  { split; [by intros c ?%elem_of_nil|by left]. }
  rewrite foldl_app. cbn [foldl]. set (v := foldl _ 0 caps) in *. destruct IH as [Hmax Hex].
  assert (forall d, d ∈ caps ++ [c] -> d ∈ caps \/ d = c) as Hin by (intros d; rewrite elem_of_app, list_elem_of_singleton; done).
  assert (forall w, v <= w -> (supported c -> cap_version c <= w) -> forall d, d ∈ caps ++ [c] -> supported d -> cap_version d <= w) as Hup.
  { intros w Hw Hc d [Hd| ->]%Hin Hs; [|auto]. specialize (Hmax d Hd Hs). lia. }
  assert (v = 0 \/ exists d, d ∈ caps ++ [c] /\ supported d /\ cap_version d = v) as Hex'.
  { destruct Hex as [?|(d & ? & ? & ?)]; [by left|]. right. exists d. rewrite elem_of_app. auto. }
  case_bool_decide as Hn; cbn [negb].
  - destruct (_ && _) eqn:E.
    + zbool. assert (supported c) by (split; [done|lia]). split; [apply Hup; lia|].
      right. exists c. rewrite elem_of_app, list_elem_of_singleton. auto.
    + split; [|done]. apply Hup; [lia|]. intros [_ ?]. destruct (decide (v < cap_version c)); [|lia].
      rewrite !(proj2 (Z.leb_le _ _)), (proj2 (Z.ltb_lt _ _)) in E by lia. done.
  - split; [|done]. apply Hup; [lia|]. by intros [? _].
Qed.

Lemma name_less_total a b : a <> b -> name_less a b = false -> name_less b a = true.
Proof.
  revert b. induction a as [|x a IH]; intros [|y b] Hne; simpl; try done.
  destruct (Z.ltb_spec (u8 x) (u8 y)); [done|]. destruct (Z.ltb_spec (u8 y) (u8 x)); [done|].
  assert (x = y) as <- by (apply u8_inj; lia). apply IH. congruence.
Qed.

Lemma name_less_irrefl a : name_less a a = false.
Proof. induction a as [|x a IH]; simpl; [done|]. by rewrite Z.ltb_irrefl. Qed.

Lemma name_less_trans a b c : name_less a b = true -> name_less b c = true -> name_less a c = true.
Proof.
  revert b c. induction a as [|x a IH]; intros [|y b] [|z c]; simpl; try done.
  destruct (Z.ltb_spec (u8 x) (u8 y)), (Z.ltb_spec (u8 y) (u8 x)), (Z.ltb_spec (u8 y) (u8 z)), (Z.ltb_spec (u8 z) (u8 y)),
    (Z.ltb_spec (u8 x) (u8 z)), (Z.ltb_spec (u8 z) (u8 x)); try done; try lia; eauto.
Qed.

Lemma name_less_asym a b : name_less a b = true -> name_less b a = false.
Proof.
  intros H. destruct (name_less b a) eqn:E; [|done]. pose proof (name_less_trans _ _ _ H E) as H'. by rewrite name_less_irrefl in H'.
Qed.

Lemma capability_less_trans a b c : capability_less a b = true -> capability_less b c = true -> capability_less a c = true.
Proof.
  destruct a as [na va], b as [nb vb], c as [nc vc]. unfold capability_less. cbn [cap_name cap_version].
  destruct (decide (na = nb)) as [->|Hab]; [rewrite bool_decide_true by done|rewrite bool_decide_false by done]; cbn [negb].
  - case_bool_decide; cbn [negb]; [|done]. intros. zbool. apply Z.ltb_lt. lia.
  - destruct (decide (nb = nc)) as [->|Hbc]; [rewrite bool_decide_true by done|rewrite (bool_decide_false (nb = nc)) by done]; cbn [negb].
    + by rewrite (bool_decide_false (na = nc)).
    + intros H1 H2. pose proof (name_less_trans _ _ _ H1 H2) as H3. destruct (decide (na = nc)) as [->|].
      * by rewrite name_less_irrefl in H3.
      * by rewrite (bool_decide_false (na = nc)).
Qed.

Lemma capability_le_cases a b : capability_le a b -> a = b \/ capability_less a b = true.
Proof.
  destruct a as [na va], b as [nb vb]. unfold capability_le, capability_less. cbn [cap_name cap_version].
  destruct (decide (na = nb)) as [->|Hab].
  - rewrite !bool_decide_true by done. cbn [negb]. intros. zbool. destruct (decide (va = vb)) as [->|]; [by left|]. right. apply Z.ltb_lt. lia.
  - rewrite !bool_decide_false by done. cbn [negb]. intros H. right. by apply name_less_total.
Qed.

Lemma capability_less_irrefl a : capability_less a a = false.
Proof. unfold capability_less. rewrite bool_decide_true by done. apply Z.ltb_irrefl. Qed.

Lemma capability_less_asym a b : capability_less a b = true -> capability_less b a = false.
Proof.
  intros H. destruct (capability_less b a) eqn:E; [|done]. pose proof (capability_less_trans _ _ _ H E) as H'.
  by rewrite capability_less_irrefl in H'.
Qed.

#[global] Instance capability_le_total : Total capability_le.
Proof.
  intros a b. unfold capability_le. destruct (capability_less b a) eqn:E; [right; by apply capability_less_asym|by left].
Qed.

#[global] Instance capability_le_trans : Transitive capability_le.
Proof.
  intros a b c Hab Hbc. destruct (capability_le_cases _ _ Hab) as [->|H1]; [done|].
  destruct (capability_le_cases _ _ Hbc) as [<-|H2]; [done|].
  unfold capability_le. apply capability_less_asym. by eapply capability_less_trans.
Qed.

(** ** The offset *)

(** Capabilities whose name sorts before, at and after "eth". *)
Definition before_eth (c : Capability) : Prop := name_less (cap_name c) eth_name = true.
Definition at_eth (c : Capability) : Prop := cap_name c = eth_name.
Definition after_eth (c : Capability) : Prop := name_less eth_name (cap_name c) = true.

#[global] Instance before_eth_dec c : Decision (before_eth c).
Proof. unfold before_eth. apply _. Defined.
#[global] Instance at_eth_dec c : Decision (at_eth c).
Proof. unfold at_eth. apply _. Defined.
#[global] Instance after_eth_dec c : Decision (after_eth c).
Proof. unfold after_eth. apply _. Defined.

(** The message ids that the capabilities sorted before "eth" reserve. *)
Definition preceding_length (caps : list Capability) : Z :=
  foldr (fun c acc => capability_wire_length c + acc) 0 (filter before_eth caps).

Lemma wire_length_pos c : ~ at_eth c -> 1 <= capability_wire_length c <= 8.
Proof.
  unfold at_eth, capability_wire_length, kSnapProtocolLength, kUnknownProtocolLength. intros H.
  rewrite bool_decide_false by done. case_bool_decide; lia.
Qed.

Lemma before_not_at c : before_eth c -> ~ at_eth c.
Proof. unfold before_eth, at_eth. intros H E. by rewrite E, name_less_irrefl in H. Qed.

Lemma after_not_at c : after_eth c -> ~ at_eth c.
Proof. unfold after_eth, at_eth. intros H E. by rewrite E, name_less_irrefl in H. Qed.

Lemma after_not_before c : after_eth c -> ~ before_eth c.
Proof. unfold after_eth, before_eth. intros H E. apply name_less_asym in H. congruence. Qed.

Lemma offset_other s c : ~ at_eth c ->
  offset_step s c = mkOffset (u8_wrap (os_offset s + capability_wire_length c)) (matched_eth s) (matched_eth_offset s).
Proof.
  intros H. unfold offset_step. pose proof (wire_length_pos c H). rewrite (proj2 (Z.eqb_neq _ _)) by lia.
  unfold at_eth in H. by rewrite bool_decide_false by done.
Qed.

Lemma offset_before s l : Forall before_eth l ->
  foldl offset_step s l = mkOffset (if decide (l = []) then os_offset s else u8_wrap (os_offset s + foldr (fun c acc => capability_wire_length c + acc) 0 l))
    (matched_eth s) (matched_eth_offset s).
Proof.
  revert s. induction l as [|c l IH]; intros s Hl; [by destruct s|]. apply Forall_cons in Hl as [Hc Hl].
  cbn [foldl foldr]. rewrite IH, offset_other by (done || by apply before_not_at). cbn [os_offset matched_eth matched_eth_offset].
  rewrite (decide_False (P := c :: l = [])) by done. f_equal. unfold u8_wrap. destruct (decide (l = [])) as [->|].
  - simpl. f_equal. lia.
  - rewrite Z.add_mod_idemp_l by lia. f_equal. lia.
Qed.

Lemma offset_after s l : Forall after_eth l ->
  matched_eth (foldl offset_step s l) = matched_eth s /\ matched_eth_offset (foldl offset_step s l) = matched_eth_offset s.
Proof.
  revert s. induction l as [|c l IH]; intros s Hl; [done|]. apply Forall_cons in Hl as [Hc Hl].
  cbn [foldl]. rewrite offset_other by (by apply after_not_at). by apply (IH (mkOffset _ _ _)).
Qed.

Lemma supported_wire_length c : at_eth c -> supported c <-> capability_wire_length c <> 0.
Proof.
  unfold at_eth. intros Hc.
  unfold supported, capability_wire_length, kEthProtocolVersion66, kEthProtocolVersion68, kEthProtocolVersion69.
  rewrite bool_decide_true by done. destruct (Z.eqb_spec (cap_version c) 69); [split; [lia|split; [done|lia]]|].
  destruct (Z.leb_spec 66 (cap_version c)), (Z.leb_spec (cap_version c) 68); cbn [andb]; split; try lia; try (split; [done|lia]);
    intros [_ ?]; lia.
Qed.

(** While the entries named "eth" are read: nothing is matched and the offset is
    [base], or the matched entry is counted after [base]. *)
Definition eth_phase (base : Z) (s : OffsetState) : Prop :=
  match matched_eth s with
  | None => os_offset s = base
  | Some c => matched_eth_offset s = base /\ os_offset s = u8_wrap (base + capability_wire_length c)
  end.

Lemma offset_eth_step base s c : 0 <= base < 256 -> at_eth c -> eth_phase base s ->
  eth_phase base (offset_step s c) /\ (matched_eth (offset_step s c) = None <-> matched_eth s = None /\ ~ supported c).
Proof.
  intros Hb Hc Hs. pose proof (supported_wire_length c Hc) as Hsup. unfold at_eth in Hc. unfold offset_step.
  destruct (Z.eqb_spec (capability_wire_length c) 0) as [E0|E0]; [split; [done|tauto]|]. rewrite bool_decide_true by done.
  unfold eth_phase in *. destruct (matched_eth s) as [p|] eqn:Em.
  - destruct Hs as [H1 H2]. assert (u8_wrap (os_offset s - capability_wire_length p) = base) as Hback.
    { rewrite H2. unfold u8_wrap. rewrite Zminus_mod_idemp_l. rewrite Z.add_simpl_r. by apply Z.mod_small. }
    destruct (cap_version p <? cap_version c); cbn [matched_eth matched_eth_offset os_offset].
    + rewrite Hback. split; [by split|]. split; [done|tauto].
    + rewrite Em. split; [by split|]. split; [done|by intros [? _]].
  - cbn [matched_eth matched_eth_offset os_offset]. rewrite Hs. split; [by split|]. split; [done|tauto].
Qed.

Lemma offset_eth base s l : 0 <= base < 256 -> Forall at_eth l -> eth_phase base s ->
  eth_phase base (foldl offset_step s l) /\
  (matched_eth (foldl offset_step s l) = None <-> matched_eth s = None /\ Forall (fun c => ~ supported c) l).
Proof.
  intros Hb. revert s. induction l as [|c l IH]; intros s Hl Hs; cbn [foldl].
  { split; [done|]. rewrite Forall_nil. tauto. }
  apply Forall_cons in Hl as [Hc Hl]. destruct (offset_eth_step base s c Hb Hc Hs) as [H1 H2].
  destruct (IH _ Hl H1) as [H3 H4]. split; [done|]. rewrite H4, H2, Forall_cons. tauto.
Qed.

(** The rank of a name relative to "eth" grows along a sorted list. *)
Definition eth_rank (c : Capability) : Z := if decide (before_eth c) then 0 else if decide (at_eth c) then 1 else 2.

Lemma eth_rank_mono c d : capability_le c d -> eth_rank c <= eth_rank d.
Proof.
  intros [->|H]%capability_le_cases; [done|]. unfold capability_less in H.
  assert (name_less (cap_name c) (cap_name d) = true \/ cap_name c = cap_name d) as Hn by (case_bool_decide; auto).
  unfold eth_rank. repeat case_decide; unfold before_eth, at_eth in *; try lia; exfalso; destruct Hn as [Hn|Hn]; try congruence.
  all: match goal with Hd : name_less _ eth_name = true |- _ => pose proof (name_less_trans _ _ _ Hn Hd); congruence end.
Qed.

(** A sorted list is its three parts in order. *)
Lemma filter_none {A} (P : A -> Prop) `{forall x, Decision (P x)} (l : list A) : (forall x, x ∈ l -> ~ P x) -> filter P l = [].
Proof.
  intros Hl. induction l as [|x l IH]; [done|]. rewrite filter_cons_False by (apply Hl; by left). apply IH. intros. apply Hl. by right.
Qed.

Lemma sorted_parts l : StronglySorted capability_le l -> l = filter before_eth l ++ filter at_eth l ++ filter after_eth l.
Proof.
  induction 1 as [|c l Hs IH Hc]; [done|].
  assert (forall d, d ∈ l -> eth_rank c <= eth_rank d) as Hle.
  { intros d Hd. apply eth_rank_mono. by eapply Forall_forall in Hc. }
  unfold eth_rank in Hle. destruct (decide (before_eth c)) as [Hb|Hb].
  - rewrite filter_cons_True, (filter_cons_False at_eth), (filter_cons_False after_eth) by
      (done || by apply before_not_at || (intros ?; by eapply after_not_before)). simpl. by rewrite <- IH.
  - rewrite (filter_cons_False before_eth) by done. rewrite (filter_none before_eth l) in *.
    2, 3: intros d Hd Hbd; specialize (Hle d Hd); rewrite (decide_True (P := before_eth d)) in Hle by done; case_decide; lia.
    simpl app in *. destruct (decide (at_eth c)) as [Ha|Ha].
    + rewrite filter_cons_True, (filter_cons_False after_eth) by (done || (intros ?; by eapply after_not_at)). simpl. by rewrite <- IH.
    + rewrite (filter_cons_False at_eth) by done. rewrite (filter_none at_eth l) in *.
      2, 3: intros d Hd Hbd; specialize (Hle d Hd); repeat case_decide; lia || done.
      simpl in *. rewrite filter_cons_True; [by rewrite <- IH|]. unfold after_eth, before_eth, at_eth in *.
      apply name_less_total; [done|]. by apply not_true_is_false.
Qed.

Lemma preceding_permutation l1 l2 : l1 ≡ₚ l2 -> preceding_length l1 = preceding_length l2.
Proof.
  unfold preceding_length. intros Hp%(filter_Permutation before_eth). induction Hp; simpl; lia.
Qed.

Lemma negotiate_eth_offset_eq caps :
  negotiate_eth_offset caps =
  if decide (Exists supported caps) then u8_wrap (kBaseProtocolLength + preceding_length caps) else 0.
Proof.
  unfold negotiate_eth_offset. set (l := sort_capabilities caps).
  assert (l ≡ₚ caps) as Hp by apply merge_sort_Permutation.
  pose proof (sorted_parts l (StronglySorted_merge_sort _ _)) as El.
  rewrite <- (preceding_permutation _ _ Hp). unfold preceding_length.
  set (l1 := filter before_eth l) in *. set (l2 := filter at_eth l) in *. set (l3 := filter after_eth l) in *.
  assert (Forall before_eth l1 /\ Forall at_eth l2 /\ Forall after_eth l3) as (F1 & F2 & F3)
    by (split_and!; apply Forall_forall; intros ? [? _]%list_elem_of_filter; done).
  rewrite El, !foldl_app, (offset_before _ l1) by done. set (s1 := mkOffset _ _ _). set (sum := foldr _ 0 l1).
  assert (os_offset s1 = u8_wrap (kBaseProtocolLength + sum)) as Hbase.
  { unfold s1, sum. cbn [os_offset]. case_decide as E; [by rewrite E|done]. }
  pose proof (Z.mod_pos_bound (kBaseProtocolLength + sum) 256 ltac:(lia)) as Hr.
  destruct (offset_eth (os_offset s1) s1 l2) as [H2 H2']; [rewrite Hbase; exact Hr|done|done|].
  destruct (offset_after (foldl offset_step s1 l2) l3 F3) as [-> ->].
  assert (Exists supported caps <-> ~ Forall (fun c => ~ supported c) l2) as Hex.
  { rewrite <- Hp. rewrite Exists_exists, Forall_forall. split.
    - intros (c & Hc & Hsc) Hall. apply (Hall c); [|done]. apply list_elem_of_filter. by destruct Hsc.
    - intros Hn. destruct (decide (Exists supported l)) as [?%Exists_exists|Hne]; [done|]. destruct Hn. intros c [_ Hc]%list_elem_of_filter Hs.
      apply Hne, Exists_exists. eauto. }
  unfold eth_phase in H2. destruct (matched_eth (foldl offset_step s1 l2)) as [c|] eqn:Em.
  - rewrite decide_True; [by destruct H2 as [-> _]|]. apply Hex. intros Hall. discriminate (proj2 H2' (conj eq_refl Hall)).
  - rewrite decide_False; [done|]. rewrite Hex. intros Hn. apply Hn, (proj1 H2' eq_refl).
Qed.

(** ** The session and its two loops, interleaved *)

(** A session with the suspended coroutines ([w_receiving]: inside
    [receive_message]; [w_in_flight]: inside [send_message] with this message) and
    the history of what was posted, written, lost, received and consumed. *)
Record World := mkWorld {
  w_session : RlpxSession;
  w_receiving : bool;
  w_in_flight : option Message;
  w_posted : list Message;
  w_written : list Message;
  w_lost : list Message;
  w_received : list Message;
  w_consumed : list Message
}.

Definition started (s : RlpxSession) : World := mkWorld s false None [] [] [] [] [].

(** Bytes arrive, or the peer resets the connection. *)
Definition arrive (bs : list byte) (reset : bool) (s : RlpxSession) : RlpxSession :=
  let st := stream_ s in let t := transport st in
  set_stream (mkStream (cipher st) (mkTransport (rx t ++ bs) (tx t) (socket_open t) (peer_reset t || reset)) (compression_enabled st)) s.

Section world.
Context `{FramePrimitives, Snappy}.

Inductive step : World -> World -> Prop :=
  | step_post s s' m rc fl po wr lo re co :
      post_message m s = (success tt, s') ->
      step (mkWorld s rc fl po wr lo re co) (mkWorld s' rc fl (po ++ [m]) wr lo re co)
  | step_consume s s' m rc fl po wr lo re co :
      receive_message s = (success m, s') ->
      step (mkWorld s rc fl po wr lo re co) (mkWorld s' rc fl po wr lo re (co ++ [m]))
  | step_disconnect s s' reason rc fl po wr lo re co :
      disconnect reason s = (success tt, s') ->
      step (mkWorld s rc fl po wr lo re co) (mkWorld s' rc fl po wr lo re co)
  | step_arrive s bs reset rc fl po wr lo re co :
      step (mkWorld s rc fl po wr lo re co) (mkWorld (arrive bs reset s) rc fl po wr lo re co)
  | step_pop s m q rc po wr lo re co :
      state_ s = SessionState.kActive -> send_channel s = m :: q ->
      step (mkWorld s rc None po wr lo re co) (mkWorld (set_send_channel q s) rc (Some m) po wr lo re co)
  | step_sent s s' m rc po wr lo re co :
      send_popped m s = (None, s') ->
      step (mkWorld s rc (Some m) po wr lo re co) (mkWorld s' rc None po (wr ++ [m]) lo re co)
  | step_send_failed s s' m e rc po wr lo re co :
      send_popped m s = (Some (failure e), s') ->
      step (mkWorld s rc (Some m) po wr lo re co) (mkWorld s' rc None po wr (lo ++ [m]) re co)
  | step_receiving s fl po wr lo re co :
      state_ s = SessionState.kActive ->
      step (mkWorld s false fl po wr lo re co) (mkWorld s true fl po wr lo re co)
  | step_received s s' m calls fl po wr lo re co :
      receive_one s = (None, calls, s') -> recv_channel s' = recv_channel s ++ [m] ->
      step (mkWorld s true fl po wr lo re co) (mkWorld s' false fl po wr lo (re ++ [m]) co)
  | step_receive_failed s s' e calls fl po wr lo re co :
      receive_one s = (Some (failure e), calls, s') ->
      step (mkWorld s true fl po wr lo re co) (mkWorld s' false fl po wr lo re co).

(** The queues account for every message, at most one is lost and only by a
    failed send, which leaves the session in its error state. *)
Record accounted (w : World) : Prop := {
  acc_sent : w_posted w = w_written w ++ w_lost w ++ option_list (w_in_flight w) ++ send_channel (w_session w);
  acc_received : w_received w = w_consumed w ++ recv_channel (w_session w);
  acc_state : state_ (w_session w) ∈ [SessionState.kActive; SessionState.kClosed; SessionState.kError];
  acc_lost : w_lost w = [] \/ (state_ (w_session w) = SessionState.kError /\ w_in_flight w = None /\ length (w_lost w) = 1%nat)
}.

Lemma require_active_inv s a s' : require_active s = (success a, s') -> state_ s = SessionState.kActive /\ s' = s.
Proof. unfold require_active. by destruct (state_ s); intros; simplify_eq. Qed.

Lemma post_message_inv m s s' : post_message m s = (success tt, s') ->
  state_ s = SessionState.kActive /\ s' = set_send_channel (send_channel s ++ [m]) s.
Proof.
  intros (a & s1 & E1 & E2)%bind_success_inv. apply require_active_inv in E1 as [Hs ->]. unfold channel_push in E2. by simplify_eq.
Qed.

Lemma receive_message_inv m s s' : receive_message s = (success m, s') ->
  state_ s = SessionState.kActive /\ exists q, recv_channel s = m :: q /\ s' = set_recv_channel q s.
Proof.
  intros (a & s1 & E1 & E2)%bind_success_inv. apply require_active_inv in E1 as [Hs ->]. unfold channel_pop in E2.
  split; [done|]. destruct (recv_channel s) as [|m' q]; simplify_eq. eauto.
Qed.

(** What a step of the loops leaves alone. *)
Lemma send_popped_inv m s r s' : send_popped m s = (r, s') ->
  send_channel s' = send_channel s /\ recv_channel s' = recv_channel s /\
  match r with
  | None => state_ s' = state_ s
  | Some (failure _) => state_ s' = SessionState.kError
  | _ => True
  end.
Proof. unfold send_popped. destruct (send_message m (stream_ s)) as [[]]; by intros [= <- <-]. Qed.

Lemma receive_one_inv s r calls s' : receive_one s = (r, calls, s') ->
  send_channel s' = send_channel s /\
  match r with
  | None => state_ s' = state_ s
  | Some (failure _) => state_ s' = SessionState.kError /\ recv_channel s' = recv_channel s
  | _ => True
  end.
Proof. unfold receive_one. destruct (FrameCipher.receive_message (stream_ s)) as [[]]; by intros [= <- <- <-]. Qed.

Lemma disconnect_inv reason s s' : disconnect reason s = (success tt, s') ->
  send_channel s' = send_channel s /\ recv_channel s' = recv_channel s /\
  (s' = s \/ state_ s <> SessionState.kError /\ state_ s' = SessionState.kClosed).
Proof. unfold disconnect. destruct (state_ s) eqn:E; intros [= <-]; auto 10. Qed.

Lemma accounted_step w w' : step w w' -> accounted w -> accounted w'.
Proof.
  destruct 1 as [s s' m rc fl po wr lo re co Hm|s s' m rc fl po wr lo re co Hm|s s' reason rc fl po wr lo re co Hm
    |s bs reset rc fl po wr lo re co|s m q rc po wr lo re co Ha Hq|s s' m rc po wr lo re co Hm|s s' m e rc po wr lo re co Hm
    |s fl po wr lo re co Ha|s s' m calls fl po wr lo re co Hm Hr|s s' e calls fl po wr lo re co Hm]; intros [A1 A2 A3 A4];
    cbn [w_session w_receiving w_in_flight w_posted w_written w_lost w_received w_consumed] in *.
  - apply post_message_inv in Hm as [Ha ->]. split; cbn; [by rewrite A1, <- !app_assoc|done|done|done].
  - apply receive_message_inv in Hm as (Ha & q & Hq & ->). split; cbn; [done| |done|done]. by rewrite A2, Hq, <- app_assoc.
  - apply disconnect_inv in Hm as (E1 & E2 & E3). split; cbn; [by rewrite E1|by rewrite E2| |].
    + destruct E3 as [->|[_ ->]]; [done|set_solver].
    + destruct A4 as [?|(? & ? & ?)]; [by left|]. destruct E3 as [->|[? _]]; [by right|done].
  - done.
  - destruct A4 as [A4|(A4 & _)]; [|congruence]. split; cbn; [by rewrite A1, Hq|done|done|by left].
  - apply send_popped_inv in Hm as (E1 & E2 & E3). destruct A4 as [->|(_ & ? & _)]; [|done].
    split; cbn; [by rewrite A1, E1, <- app_assoc|by rewrite E2|by rewrite E3|by left].
  - apply send_popped_inv in Hm as (E1 & E2 & E3). destruct A4 as [->|(_ & ? & _)]; [|done].
    split; cbn; [by rewrite A1, E1|by rewrite E2|rewrite E3; set_solver|by right].
  - done.
  - apply receive_one_inv in Hm as (E1 & E2).
    split; cbn; [by rewrite E1|by rewrite A2, Hr, app_assoc|by rewrite E2|rewrite E2; done].
  - apply receive_one_inv in Hm as (E1 & E2 & E3). split; cbn; [by rewrite E1|by rewrite E3|rewrite E2; set_solver|].
    destruct A4 as [?|(? & ? & ?)]; [by left|by right].
Qed.

(** Active is only left. *)
Lemma active_step w w' : step w w' -> state_ (w_session w') = SessionState.kActive -> state_ (w_session w) = SessionState.kActive.
Proof.
  destruct 1 as [? ? ? ? ? ? ? ? ? ? Hm|? ? ? ? ? ? ? ? ? ? Hm|? ? ? ? ? ? ? ? ? ? Hm| | |? ? ? ? ? ? ? ? ? Hm|? ? ? ? ? ? ? ? ? ? Hm
    | |? ? ? ? ? ? ? ? ? ? Hm|? ? ? ? ? ? ? ? ? ? Hm]; cbn.
  - by apply post_message_inv in Hm as [? _].
  - by apply receive_message_inv in Hm as [? _].
  - apply disconnect_inv in Hm as (_ & _ & [->|[_ E]]); [done|congruence].
  - done.
  - done.
  - apply send_popped_inv in Hm as (_ & _ & ->). done.
  - apply send_popped_inv in Hm as (_ & _ & ->). done.
  - done.
  - apply receive_one_inv in Hm as (_ & ->). done.
  - apply receive_one_inv in Hm as (_ & -> & _). done.
Qed.
End world.

(** ** The receive loop ends *)

Lemma read_exact_inv n t r t' : 0 <= n -> read_exact n t = (r, t') ->
  match r with
  | success data => Zlen data = n /\ (Z.to_nat n + length (rx t') = length (rx t))%nat
  | failure _ => True
  | crash _ => False
  end.
Proof.
  intros Hn. unfold read_exact. destruct (socket_open t); cbn [negb]; [|by intros [= <- <-]].
  destruct (Z.leb_spec n (Zlen (rx t))); intros [= <- <-]; cbn [rx]; [|done].
  rewrite length_drop, length_take. lia.
Qed.

Section receive_ends.
Context `{FramePrimitives, Snappy}.

Lemma decrypt_header_inv h m c r c' : decrypt_header h m c = (r, c') ->
  match r with success n => 0 < n | failure _ => True | crash _ => False end.
Proof.
  unfold decrypt_header, mbind, M_bind. rewrite on_ingress_eq. case_match; [by intros [= <- <-]|]. rewrite decrypt_bytes_eq.
  pose proof (header_fsize_range (ctr_process h (dec c)).1) as Hr. cbn [dec].
  destruct (Z.eqb_spec (header_fsize (ctr_process h (dec c)).1) 0); cbn [orb]; [by intros [= <- <-]|].
  case_match; intros [= <- <-]; [done|]. unfold ctr_process in *. cbn [fst] in *. lia.
Qed.

Lemma decrypt_body_inv n f m c r c' : decrypt_frame_body n f m c = (r, c') ->
  match r with success data => (length data <= length f)%nat | failure _ => True | crash _ => False end.
Proof.
  unfold decrypt_frame_body, mbind, M_bind. case_match; [by intros [= <- <-]|]. rewrite on_ingress_eq.
  case_match; [by intros [= <- <-]|]. rewrite decrypt_bytes_eq. intros [= <- <-]. rewrite length_take.
  fold (ctr_process f (dec c)). pose proof (length_ctr f (dec c)) as Hl. unfold ctr_process in Hl. cbn [fst] in Hl. lia.
Qed.

(** A frame that is not empty took more than its length from the input. *)
Lemma receive_frame_inv s :
  exists data s', receive_frame s = (success data, s') /\
    (data = [] \/ (length data + length (rx (transport s')) < length (rx (transport s)))%nat).
Proof.
  unfold receive_frame, mbind, M_bind, attempt, with_transport, with_cipher.
  destruct (read_exact kFrameHeaderWithMacSize (transport s)) as [r1 t1] eqn:E1.
  apply read_exact_inv in E1; [|done]. destruct r1 as [hd|e|f]; [|by eexists _, _; split; [done|left]|done]. destruct E1 as [L1 R1].
  cbn [cipher transport compression_enabled].
  destruct (decrypt_header _ _ (cipher s)) as [r2 c2] eqn:E2. apply decrypt_header_inv in E2.
  destruct r2 as [n|e|f]; [|by eexists _, _; split; [done|left]|done]. cbn [cipher transport compression_enabled].
  pose proof (frame_padding_nonneg n). destruct (read_exact _ t1) as [r3 t3] eqn:E3.
  apply read_exact_inv in E3; [|unfold kMacSize; lia].
  destruct r3 as [fd|e|f]; [|by eexists _, _; split; [done|left]|done]. destruct E3 as [L3 R3]. cbn [cipher transport compression_enabled].
  destruct (decrypt_frame_body _ _ _ c2) as [r4 c4] eqn:E4. apply decrypt_body_inv in E4.
  destruct r4 as [data|e|f]; [|by eexists _, _; split; [done|left]|done].
  eexists _, _. split; [done|]. right. cbn [default transport]. rewrite length_take in E4. unfold id, kFrameHeaderWithMacSize, kFrameHeaderSize, kMacSize in *.
  lia.
Qed.

Lemma stream_receive_inv s : fits (rx (transport s)) ->
  match FrameCipher.receive_message s with
  | (success _, s') => (length (rx (transport s')) < length (rx (transport s)))%nat
  | (failure _, _) => True
  | (crash _, _) => False
  end.
Proof.
  intros Hf. unfold FrameCipher.receive_message. destruct (receive_frame_inv s) as (data & s' & E & Hd).
  rewrite (bind_success _ _ _ _ _ (attempt_success _ _ _ _ E)). destruct data as [|b data]; [done|].
  destruct Hd as [?|Hd]; [done|]. assert (fits (b :: data)) as Hfd by (unfold fits in *; lia).
  pose proof (safe_read_integral 8 ltac:(unfold is_sizeof; lia) _ Hfd) as Hs.
  destruct (read_integral 8 (b :: data)) as [[n|e|f] w]; [|done|done].
  rewrite (bind_success get_state _ _ _ _ eq_refl). simpl in Hd.
  destruct (compression_enabled s' && _); [destruct (snappy_uncompress w) as [p|]; [|done]|]; cbn [transport mret M_ret]; lia.
Qed.

Lemma receive_loop_returns fuel s :
  fits (rx (transport (stream_ s))) -> (length (rx (transport (stream_ s))) < fuel)%nat ->
  let '(r, calls, s') := run_receive_loop fuel s in
  no_crash r /\ state_ s' <> SessionState.kActive /\ (exists ms, recv_channel s' = recv_channel s ++ ms) /\ send_channel s' = send_channel s.
Proof.
  revert s. induction fuel as [|fuel IH]; intros s Hf Hfuel; [lia|]. cbn [run_receive_loop]. unfold receive_iteration.
  case_decide as Ha; [|split; [done|]; split; [done|]; split; [by exists []; rewrite app_nil_r|done]].
  unfold receive_one. pose proof (stream_receive_inv (stream_ s) Hf) as Hr.
  destruct (FrameCipher.receive_message (stream_ s)) as [[m|e|f] st]; [|split; [done|]; split; [done|]; split; [by exists []; rewrite app_nil_r|done]|done].
  set (s1 := set_recv_channel _ _). specialize (IH s1).
  assert (fits (rx (transport (stream_ s1)))) as Hf1 by (unfold fits in *; cbn; lia).
  specialize (IH Hf1 ltac:(cbn; lia)). destruct (run_receive_loop fuel s1) as [[r calls] s'].
  destruct IH as (? & ? & (ms & E) & ?). split; [done|]. split; [done|]. split; [|done].
  exists (m :: ms). rewrite E. unfold s1. cbn. by rewrite <- app_assoc.
Qed.
End receive_ends.

(** ** Two sessions *)

(** [n] iterations of a loop that does not end. *)
Fixpoint send_iterations `{FramePrimitives, Snappy} (n : nat) (s : RlpxSession) : option RlpxSession :=
  match n with
  | O => Some s
  | S n' => match send_iteration s with (None, s') => send_iterations n' s' | (Some _, _) => None end
  end.
Fixpoint receive_iterations `{FramePrimitives, Snappy} (n : nat) (s : RlpxSession) : option RlpxSession :=
  match n with
  | O => Some s
  | S n' => match receive_iteration s with (None, _, s') => receive_iterations n' s' | (Some _, _, _) => None end
  end.

Section two_sessions.
Context `{FramePrimitivesLaws, SnappyLaws}.

(** The stream of [a] writes to the stream of [b]. *)
Record connected (a b : RlpxSession) : Prop := {
  con_a : state_ a = SessionState.kActive;
  con_b : state_ b = SessionState.kActive;
  con_compression : compression_enabled (stream_ b) = compression_enabled (stream_ a);
  con_synced : synced (cipher (stream_ a)) (cipher (stream_ b));
  con_open_a : socket_open (transport (stream_ a)) = true;
  con_reset_a : peer_reset (transport (stream_ a)) = false;
  con_open_b : socket_open (transport (stream_ b)) = true
}.

Lemma post_all ms s : state_ s = SessionState.kActive ->
  for_each post_message ms s = (success tt, set_send_channel (send_channel s ++ ms) s).
Proof.
  revert s. induction ms as [|m ms IH]; intros s Ha; [by rewrite app_nil_r; destruct s|]. cbn [for_each].
  rewrite (bind_success _ _ _ tt (set_send_channel (send_channel s ++ [m]) s)).
  - rewrite IH by done. unfold set_send_channel. cbn. by rewrite <- app_assoc.
  - unfold post_message, require_active. unfold mbind, M_bind. by rewrite Ha.
Qed.

Lemma sent_are_received ms q a b rest :
  connected a b -> send_channel a = ms ++ q -> Forall (wf_message (compression_enabled (stream_ a))) ms ->
  exists a' wire, send_iterations (length ms) a = Some a' /\ send_channel a' = q /\
    tx (transport (stream_ a')) = tx (transport (stream_ a)) ++ wire /\
    (rx (transport (stream_ b)) = wire ++ rest -> exists b', receive_iterations (length ms) b = Some b' /\
       recv_channel b' = recv_channel b ++ ms /\ rx (transport (stream_ b')) = rest /\ connected a' b').
Proof.
  revert a b. induction ms as [|m ms IH]; intros a b Hc Hq Hw.
  { exists a, []. split; [done|]. split; [done|]. split; [by rewrite app_nil_r|]. intros Hr. exists b. by rewrite app_nil_r. }
  destruct Hc as [C1 C2 C3 C4 C5 C6 C7]. apply Forall_cons in Hw as [Hm Hw].
  set (data := message_data (compression_enabled (stream_ a)) m). cbn [length send_iterations receive_iterations].
  unfold send_iteration. rewrite decide_True, Hq by done. cbn [app]. unfold send_popped.
  rewrite send_message_eq by done. fold data. set (a1 := set_stream _ _).
  set (b1 := set_recv_channel (recv_channel b ++ [m]) (set_stream (mkStream (after_receive data (cipher (stream_ a)) (cipher (stream_ b)))
    (mkTransport (drop (length (frame_wire data (cipher (stream_ a)))) (rx (transport (stream_ b)))) (tx (transport (stream_ b))) true
      (peer_reset (transport (stream_ b)))) (compression_enabled (stream_ b))) b)).
  assert (connected a1 b1) as Hc1 by (split; try done; by apply synced_after).
  destruct (IH a1 b1 Hc1 eq_refl Hw) as (a' & wire & E1 & E2 & E3 & E4).
  exists a', (frame_wire data (cipher (stream_ a)) ++ wire). split; [done|]. split; [done|]. split; [rewrite E3; cbn [tx transport stream_ a1 set_stream]; by rewrite app_assoc|].
  intros Hr. rewrite <- app_assoc in Hr. destruct E4 as (b' & F1 & F2 & F3).
  { unfold b1. cbn [set_recv_channel set_stream stream_ transport rx]. by rewrite Hr, drop_app_length. }
  exists b'. unfold receive_iteration. rewrite decide_True by done. unfold receive_one.
  erewrite receive_message_eq; [|by rewrite C3|exact C4|rewrite C3; exact Hr|exact C7]. rewrite C3. fold data. rewrite <- C3.
  split; [|rewrite F2; unfold b1; cbn [set_recv_channel recv_channel]; by rewrite <- app_assoc].
  rewrite <- F1. unfold b1. by rewrite Hr, drop_app_length.
Qed.
End two_sessions.

(** ** Claims *)

(** C39: Capability negotiation against its specification, for any list a peer may send: the version is the greatest
    supported "eth" version (0 without one), and the offset is 16 plus the message ids of every capability whose name
    sorts before "eth", modulo 256, independent of the order of the list; 0 when no version is supported. *)
Theorem negotiation_exact (caps : list Capability) :
  best_version (negotiate_eth_version caps) caps /\
  negotiate_eth_offset caps =
    (if decide (Exists supported caps) then (kBaseProtocolLength + preceding_length caps) mod 256 else 0).
Proof. split; [apply negotiate_eth_version_best|apply negotiate_eth_offset_eq]. Qed.

(** In every interleaving of posts, pulls, disconnects, network events and the two loops of an active session, the queues
    lose and reorder nothing: what was posted is what was written, then at most one message lost by a failed send, then the
    message in flight and the queue; what was received is what was consumed, then the queue.  A session that has left
    the active state never returns to it, and in it neither accepts nor delivers messages. *)
Theorem session_queues_fifo `{FramePrimitives, Snappy} (s : RlpxSession) (w w' : World) :
  state_ s = SessionState.kActive -> send_channel s = [] -> recv_channel s = [] ->
  rtc step (started s) w -> rtc step w w' ->
  accounted w /\
  (state_ (w_session w) <> SessionState.kActive ->
   state_ (w_session w') <> SessionState.kActive /\ w_posted w' = w_posted w /\ w_consumed w' = w_consumed w).
Proof.
  intros Ha Hs Hr Hw Hw'. split.
  - assert (accounted (started s)) as Hi.
    { split; cbn; [by rewrite Hs|by rewrite Hr|rewrite Ha; set_solver|by left]. }
    clear Hw'. revert Hi. induction Hw as [|x y z Hxy Hyz IH]; [done|]. intros Hi. apply IH. by eapply accounted_step.
  - clear Hw. induction Hw' as [x|x y z Hxy Hyz IH]; [done|]. intros Hn.
    assert (state_ (w_session y) <> SessionState.kActive) as Hy by (intros E; by apply (active_step _ _ Hxy) in E).
    destruct (IH Hy) as (Hz & -> & ->). split; [done|].
    destruct Hxy as [? ? ? ? ? ? ? ? ? ? Hm|? ? ? ? ? ? ? ? ? ? Hm| | | | | | | |]; try done.
    + by apply post_message_inv in Hm as [? _].
    + by apply receive_message_inv in Hm as [? _].
Qed.

(** C2: Two connected sessions deliver: the messages posted to one session, once its send loop has run as many
    iterations, are exactly what the other's receive loop appends to its queue, in order, and the sessions stay connected. *)
Theorem session_delivery `{FramePrimitivesLaws, SnappyLaws} (ms : list Message) (a b : RlpxSession) (rest : list byte) :
  connected a b -> send_channel a = [] -> Forall (wf_message (compression_enabled (stream_ a))) ms ->
  exists a1 a2 wire, for_each post_message ms a = (success tt, a1) /\ send_iterations (length ms) a1 = Some a2 /\
    send_channel a2 = [] /\ tx (transport (stream_ a2)) = tx (transport (stream_ a)) ++ wire /\
    (rx (transport (stream_ b)) = wire ++ rest -> exists b', receive_iterations (length ms) b = Some b' /\
       recv_channel b' = recv_channel b ++ ms /\ rx (transport (stream_ b')) = rest /\ connected a2 b').
Proof.
  intros Hc Hq Hw. exists (set_send_channel ms a).
  destruct (sent_are_received ms [] (set_send_channel ms a) b rest) as (a2 & wire & E); [|by rewrite app_nil_r|done|].
  { destruct Hc. by split. }
  exists a2, wire. split; [rewrite post_all by apply Hc; by rewrite Hq|done].
Qed.


(** [connect] returns a session only in the active state, with empty queues and no handlers, a negotiated version that is 0 or
    between 66 and 69, and after reporting exactly the four phases in order; when the peer disconnects before its Hello the
    call fails and the reason is handed to the caller. *)
Theorem connect_outcome `{FramePrimitives, Snappy, Hashes, CtrCiphers, Curve} (params : SessionConnectParams)
    (tcp : outcome SessionError.t Transport) (rnd : HandshakeRandom) (timer_fires : bool) :
  (forall s log, connect params tcp rnd timer_fires (mkConnectLog [] None) = (success s, log) ->
   state_ s = SessionState.kActive /\ send_channel s = [] /\ recv_channel s = [] /\ handlers s = no_handlers /\ pi_remote_address (peer_info_ s) = [] /\
   (negotiated_eth_version_ s = 0 \/ 66 <= negotiated_eth_version_ s <= 69) /\
   log = mkConnectLog [(kTcpConnected, kRequested); (kAuthSucceeded, kRequested); (kLocalHelloSent, kRequested);
           (kPeerHelloAccepted, kRequested)] None) /\
  (forall e log, connect params tcp rnd timer_fires (mkConnectLog [] None) = (failure e, log) ->
   cl_reason log <> None -> e = SessionError.kHandshakeFailed /\
     exists reason, cl_reason log = Some reason /\ last (cl_progress log) = Some (kPeerDisconnectBeforeHello, reason)).
Proof.
  unfold connect, mbind, M_bind, lift, report, report_reason, on_object.
  destruct tcp as [t|e|f]; [|by split; intros ? ? [= <- <-]|by split].
  destruct (execute _ rnd t) as [[hs|e|f] t1]; [|by split; intros ? ? [= <- <-]|by split].
  destruct (frame_secrets hs) as [sec|]; [|by split]. cbn [initialised].
  destruct (hello_encode _) as [he|e|f]; cbn [or_error]; [|by split; intros ? ? [= <- <-]|by split].
  destruct (send_message _ _) as [[u|e|f] st2]; [|by split; intros ? ? [= <- <-]|by split].
  destruct (receive_stream_message_with_timeout timer_fires st2) as [[pm|e|f] st3]; [|by split; intros ? ? [= <- <-]|by split].
  cbn [cl_progress cl_reason app]. destruct (msg_id pm =? kHelloMessageId).
  - destruct (hello_decode (msg_payload pm)) as [h|e|f]; [|by split; intros ? ? [= <- <-]|by split]. split; [|done].
    intros s log [= <- <-]. cbn. split_and!; try done.
    destruct (negotiate_eth_version_best (hello_capabilities h)) as [_ [?|(c & _ & [_ Hv] & <-)]]; [by left|by right].
  - destruct (msg_id pm =? kDisconnectMessageId).
    + destruct (disconnect_decode (msg_payload pm)) as [r|e|f]; [| |by split].
      * split; [done|]. intros e log [= <- <-] _. split; [done|]. by exists r.
      * split; [done|]. by intros e' log [= <- <-].
    + split; [done|]. by intros e log [= <- <-].
Qed.

(** ** What the session does not keep *)

(** A session that was moved hands ETH messages to the generic handler, although
    the ETH handler had been set: the move operations do not carry it. *)
Theorem moved_session_drops_eth (s : RlpxSession) (msg : Message) :
  on_eth (handlers s) = true -> 4 <= msg_id msg -> negotiated_eth_offset_ s <= msg_id msg ->
  (exists id, route_message s msg = [EthCall id (msg_payload msg)]) /\
  route_message (session_move s) msg = if on_generic (handlers s) then [GenericCall msg] else [].
Proof.
  intros He Hm Ho. unfold route_message, session_move, kHelloMessageId, kDisconnectMessageId, kPingMessageId, kPongMessageId.
  cbn [handlers on_eth on_generic]. rewrite !(proj2 (Z.eqb_neq _ _)) by lia. rewrite He. unfold normalize_eth_message_id.
  rewrite (proj2 (Z.ltb_ge _ _)) by lia. by split; [eexists|].
Qed.

(** [disconnect] leaves the session closed, but a receive loop that waits for the
    socket then fails and overwrites the closed state with the error state. *)
Theorem closed_becomes_error `{FramePrimitives, Snappy} (s : RlpxSession) (reason : Z) :
  state_ s = SessionState.kActive ->
  exists s1 s2 e calls, disconnect reason s = (success tt, s1) /\ state_ s1 = SessionState.kClosed /\
    receive_one s1 = (Some (failure e), calls, s2) /\ state_ s2 = SessionState.kError.
Proof.
  intros Ha. unfold disconnect. rewrite Ha. eexists _, _, _, _. split; [done|]. split; [done|].
  unfold receive_one, FrameCipher.receive_message, receive_frame, mbind, M_bind, attempt, with_transport, read_exact.
  cbn. done.
Qed.

(** ** The claims on concrete sessions *)

Import Toy.

Module SampleSession.
Definition info : PeerInfo := mkPeerInfo [] [] 0 [] 0.
Definition active (secrets : FrameSecrets) : RlpxSession :=
  set_state SessionState.kActive (session_new (stream_new (FrameCipher_new secrets) idle) info true).
Definition messages : list Message := [mkMessage 16 [xc0]; mkMessage 17 [xc1; x80]].
End SampleSession.

Lemma session_queues_fifo_witness :
  accounted (mkWorld (set_send_channel [mkMessage 16 [xc0]] (SampleSession.active initiator)) false None [mkMessage 16 [xc0]] [] [] [] []).
Proof.
  apply (session_queues_fifo (SampleSession.active initiator) _
    (mkWorld (set_send_channel [mkMessage 16 [xc0]] (SampleSession.active initiator)) false None [mkMessage 16 [xc0]] [] [] [] [])).
  - reflexivity.
  - reflexivity.
  - reflexivity.
  - apply rtc_once. apply (step_post (SampleSession.active initiator) _ (mkMessage 16 [xc0]) false None [] [] [] [] []). reflexivity.
  - apply rtc_refl.
Defined.

Lemma session_delivery_witness :
  exists a1 a2, for_each post_message SampleSession.messages (SampleSession.active initiator) = (success tt, a1) /\
    send_iterations 2 a1 = Some a2.
Proof.
  destruct (session_delivery SampleSession.messages (SampleSession.active initiator) (SampleSession.active responder) [])
    as (a1 & a2 & wire & E1 & E2 & _).
  - split; try reflexivity. split; reflexivity.
  - reflexivity.
  - repeat constructor; vm_compute; intuition congruence.
  - exists a1, a2. split; [exact E1|exact E2].
Defined.

