(* ===== verification/EthHandshake.v ===== *)
(** * The ETH Status handshake

    [src/eth/eth_peer_session.cpp], [src/eth/eth_handshake_guard.cpp],
    [src/eth/eth_handshake.cpp] and the channel seam
    [include/eth/eth_session_channel.hpp] with its adapter
    [src/eth/eth_session_channel.cpp].

    [IEthSessionChannel] is the class [EthChannel]: the handshake is written and
    its theorems are proved against the interface and its laws, and
    [RlpxEthSessionChannel] is an instance over [RlpxSession].  The calls of the
    disconnect handler are collected in [hs_disconnects].  A channel knows what
    the peer will still send ([ch_pending]), which bounds the loop that waits
    for the Status. *)

From S2P Require Import Prelude RlpSpec RlpCommon RlpEncoder RlpDecoder DecodeLogic EthObjects EthMessages EthStatus RlpxMessages FrameCipher RlpxSession.

(** ** eth_session_channel.hpp *)

Class EthChannel (C : Type) := {
  ch_eth_version : C -> Z;
  ch_eth_offset : C -> Z;
  ch_peer_info : C -> PeerInfo;
  ch_receive_message : M C SessionError.t Message;
  ch_post_message : Message -> M C SessionError.t unit;
  ch_receive_message_with_timeout : M C SessionError.t Message;
  ch_set_eth_message_handler : C -> C;
  (** The messages that can still be received, and that they fit in memory. *)
  ch_pending : C -> nat;
  ch_fits : C -> Prop
}.

(** What the handshake relies on. *)
Class EthChannelLaws (C : Type) `{EthChannel C} : Prop := {
  post_no_crash m c : no_crash (ch_post_message m c).1;
  receive_no_crash c : no_crash (ch_receive_message_with_timeout c).1;
  receive_pending c m c' : ch_receive_message_with_timeout c = (success m, c') -> (ch_pending c' < ch_pending c)%nat;
  receive_fits c m c' : ch_fits c -> ch_receive_message_with_timeout c = (success m, c') -> fits (msg_payload m) /\ ch_fits c';
  post_fits m c r c' : ch_fits c -> ch_post_message m c = (r, c') -> ch_fits c'
}.

(** ** The adapter for RlpxSession *)

(** A session together with what arrives during each future call of
    [receive_message_with_timeout], poll by poll. *)
Record RlpxEthSessionChannel := mkChannel { ch_session : RlpxSession; ch_arrivals : list (list (list Message)) }.

Definition session_set_eth_handler (s : RlpxSession) : RlpxSession :=
  let h := handlers s in
  mkSession (state_ s) (stream_ s) (peer_info_ s) (negotiated_eth_version_ s) (negotiated_eth_offset_ s) (is_initiator_ s)
    (send_channel s) (recv_channel s) (mkHandlers (on_hello h) (on_disconnect h) (on_ping h) (on_pong h) (on_generic h) true).

Definition adapter_post_message (m : Message) : M RlpxEthSessionChannel SessionError.t unit := fun c =>
  let '(r, s) := post_message m (ch_session c) in (r, mkChannel s (ch_arrivals c)).

Definition adapter_receive_message_with_timeout : M RlpxEthSessionChannel SessionError.t Message := fun c =>
  match ch_arrivals c with
  | [] => let '(r, s) := receive_message_with_timeout [] (ch_session c) in (r, mkChannel s [])
  | polls :: rest => let '(r, s) := receive_message_with_timeout polls (ch_session c) in (r, mkChannel s rest)
  end.

Definition adapter_receive_message : M RlpxEthSessionChannel SessionError.t Message := fun c =>
  let '(r, s) := RlpxSession.receive_message (ch_session c) in (r, mkChannel s (ch_arrivals c)).

Definition arriving (polls : list (list Message)) : nat := length (concat polls).

Definition messages_fit : list Message -> Prop := Forall (fun m => fits (msg_payload m)).

#[global] Instance rlpx_eth_channel : EthChannel RlpxEthSessionChannel := {|
  ch_eth_version c := negotiated_eth_version_ (ch_session c);
  ch_eth_offset c := negotiated_eth_offset_ (ch_session c);
  ch_peer_info c := peer_info_ (ch_session c);
  ch_receive_message := adapter_receive_message;
  ch_post_message := adapter_post_message;
  ch_receive_message_with_timeout := adapter_receive_message_with_timeout;
  ch_set_eth_message_handler c := mkChannel (session_set_eth_handler (ch_session c)) (ch_arrivals c);
  ch_pending c := (length (recv_channel (ch_session c)) + sum_list_with arriving (ch_arrivals c))%nat;
  ch_fits c := messages_fit (recv_channel (ch_session c)) /\ Forall (Forall messages_fit) (ch_arrivals c)
|}.

Lemma require_active_no_crash s : no_crash (require_active s).1 /\ (require_active s).2 = s.
Proof. unfold require_active. by destruct (state_ s). Qed.

Lemma poll_until_spec polls s :
  match poll_until polls s with
  | (success m, s') => (length (recv_channel s') < length (recv_channel s) + arriving polls)%nat /\
      (messages_fit (recv_channel s) -> Forall messages_fit polls -> fits (msg_payload m) /\ messages_fit (recv_channel s'))
  | (failure _, _) => True
  | (crash _, _) => False
  end.
Proof.
  revert s. induction polls as [|a polls IH]; intros s; cbn [poll_until].
  - destruct (recv_channel s) as [|m q] eqn:E; cbn; [done|]. split; [lia|]. by intros [? ?]%Forall_cons.
  - destruct (recv_channel s) as [|m q] eqn:E.
    + specialize (IH (set_recv_channel ([] ++ a) s)). destruct (poll_until polls _) as [[]]; [|done|done].
      cbn in IH |- *. unfold arriving in *. cbn. rewrite length_app. destruct IH as [IH1 IH2]. split; [lia|].
      intros _ [? ?]%Forall_cons. by apply IH2.
    + cbn. split; [lia|]. by intros [? ?]%Forall_cons.
Qed.

Lemma receive_with_timeout_spec polls s :
  match receive_message_with_timeout polls s with
  | (success m, s') => (length (recv_channel s') < length (recv_channel s) + arriving polls)%nat /\
      (messages_fit (recv_channel s) -> Forall messages_fit polls -> fits (msg_payload m) /\ messages_fit (recv_channel s'))
  | (failure _, _) => True
  | (crash _, _) => False
  end.
Proof.
  unfold receive_message_with_timeout, mbind, M_bind. destruct (require_active_no_crash s) as [H1 H2].
  destruct (require_active s) as [[u|e|f] s1]; [|done|done]. cbn in H2. subst s1. apply poll_until_spec.
Qed.

(** The adapter takes the arrivals of one call. *)
Lemma adapter_receive_spec c :
  match adapter_receive_message_with_timeout c with
  | (success m, c') => (ch_pending c' < ch_pending c)%nat /\ (ch_fits c -> fits (msg_payload m) /\ ch_fits c')
  | (failure _, _) => True
  | (crash _, _) => False
  end.
Proof.
  unfold adapter_receive_message_with_timeout. destruct c as [s [|polls rest]]; cbn [ch_session ch_arrivals].
  - pose proof (receive_with_timeout_spec [] s) as Hr. destruct (receive_message_with_timeout [] s) as [[]]; [|done|done].
    cbn in *. destruct Hr as [H1 H2]. split; [lia|]. intros [? _]. by destruct H2.
  - pose proof (receive_with_timeout_spec polls s) as Hr. destruct (receive_message_with_timeout polls s) as [[]]; [|done|done].
    cbn in *. destruct Hr as [H1 H2]. split; [lia|]. intros [? [? ?]%Forall_cons]. by destruct H2.
Qed.

#[global] Instance rlpx_eth_channel_laws : EthChannelLaws RlpxEthSessionChannel.
Proof.
  split; cbn [ch_post_message ch_receive_message_with_timeout rlpx_eth_channel].
  - intros m c. unfold adapter_post_message, post_message, mbind, M_bind. destruct (require_active_no_crash (ch_session c)) as [H1 _].
    by destruct (require_active (ch_session c)) as [[]].
  - intros c. pose proof (adapter_receive_spec c) as Hr. by destruct (adapter_receive_message_with_timeout c) as [[]].
  - intros c m c' E. pose proof (adapter_receive_spec c) as Hr. rewrite E in Hr. apply Hr.
  - intros c m c' Hf E. pose proof (adapter_receive_spec c) as Hr. rewrite E in Hr. by apply Hr.
  - intros m c r c' Hf. unfold adapter_post_message, post_message, mbind, M_bind. destruct (require_active_no_crash (ch_session c)) as [_ H2].
    destruct (require_active (ch_session c)) as [[u|e|f] s1]; cbn in H2; subst s1; by intros [= <- <-].
Qed.

(** ** eth_peer_session.cpp and eth_handshake_guard.cpp *)

Record EthStatusHandshakeStart := mkStart {
  start_network_id : Z;
  start_genesis_hash : list byte;
  start_fork_id : ForkId;
  start_eth_message_schemas : list EthMessageSchema
}.

Definition NormalizeEthWireMessageId (wire_message_id negotiated_eth_offset : Z) : option Z :=
  if wire_message_id <? negotiated_eth_offset then None else Some ((wire_message_id - negotiated_eth_offset) mod 256).

Definition ExtractLatestBlockNumber (status : StatusMessage) : Z :=
  match status with Status69 m => s69_latest_block m | Status68 _ => 0 end.

Definition BuildLocalStatusMessage (negotiated_protocol_version network_id : Z) (genesis_hash : list byte) (fork_id : ForkId) : StatusMessage :=
  if negotiated_protocol_version <=? kEthProtocolVersion68 then
    Status68 (mkStatus68 negotiated_protocol_version network_id 0 genesis_hash genesis_hash fork_id)
  else Status69 (mkStatus69 negotiated_protocol_version network_id genesis_hash fork_id 0 0 genesis_hash).

Definition ValidateRemoteStatusMessage (remote_status : StatusMessage) (negotiated_protocol_version expected_network_id : Z)
    (expected_genesis_hash : list byte) : outcome StatusValidationError unit :=
  if negb (common_protocol_version (get_common_fields remote_status) =? negotiated_protocol_version)
  then failure kProtocolVersionMismatch
  else validate_status remote_status expected_network_id expected_genesis_hash.

(** [schemas.empty() ? decode_status(p) : decode_status(p, schemas)] *)
Definition decode_status_by (schemas : list EthMessageSchema) (payload : list byte) : outcome DecodingError StatusMessage :=
  if bool_decide (length schemas = 0%nat) then decode_status payload else decode_status_with payload schemas.

Definition DecodeValidatedStatusMessage (message : Message) (offset version network_id : Z) (genesis_hash : list byte)
    (schemas : list EthMessageSchema) : outcome StatusValidationError StatusMessage :=
  match NormalizeEthWireMessageId (msg_id message) offset with
  | Some eth_id =>
      if eth_id =? kStatusMessageId then
        decoded ← or_error (decode_status_by schemas (msg_payload message)) kProtocolVersionMismatch;
        ValidateRemoteStatusMessage decoded version network_id genesis_hash ;;
        mret decoded
      else failure kProtocolVersionMismatch
  | None => failure kProtocolVersionMismatch
  end.

Inductive HandshakeMessageDisposition := kIgnored | kAcceptedStatus | kRejected.

Definition HandleEthHandshakeMessage (message : Message) (offset version network_id : Z) (genesis_hash : list byte)
    (status_received : bool) : HandshakeMessageDisposition * bool :=
  match NormalizeEthWireMessageId (msg_id message) offset with
  | None => (kIgnored, status_received)
  | Some eth_id =>
      if negb (eth_id =? kStatusMessageId) then (if status_received then kIgnored else kRejected, status_received) else
      match DecodeValidatedStatusMessage message offset version network_id genesis_hash [] with
      | success _ => (kAcceptedStatus, true)
      | _ => (kRejected, status_received)
      end
  end.

(** One inbound message: the reason handed to the disconnect handler, and the
    result when the loop ends; [None] when it goes on. *)
Definition inbound (start : EthStatusHandshakeStart) (version offset : Z) (m : Message) :
    option Z * option (outcome StatusValidationError StatusMessage) :=
  if msg_id m =? kDisconnectMessageId then
    match disconnect_decode (msg_payload m) with
    | success reason => (Some reason, Some (failure kProtocolVersionMismatch))
    | failure _ => (None, Some (failure kProtocolVersionMismatch))
    | crash f => (None, Some (crash f))
    end
  else
    match NormalizeEthWireMessageId (msg_id m) offset with
    | None => (None, None)
    | Some eth_id =>
        if negb (eth_id =? kStatusMessageId) then (None, Some (failure kProtocolVersionMismatch)) else
        match decode_status_by (start_eth_message_schemas start) (msg_payload m) with
        | success decoded =>
            match ValidateRemoteStatusMessage decoded version (start_network_id start) (start_genesis_hash start) with
            | success _ => (None, Some (success decoded))
            | failure e => (None, Some (failure e))
            | crash f => (None, Some (crash f))
            end
        | failure _ => (None, Some (failure kProtocolVersionMismatch))
        | crash f => (None, Some (crash f))
        end
    end.

(** The message of [eth_handshake.cpp], which goes through the guard; its
    [status_received] is a fresh [false] for every message. *)
Definition inbound_guarded (start : EthStatusHandshakeStart) (version offset : Z) (m : Message) :
    option Z * option (outcome StatusValidationError StatusMessage) :=
  if msg_id m =? kDisconnectMessageId then
    match disconnect_decode (msg_payload m) with
    | success reason => (Some reason, Some (failure kProtocolVersionMismatch))
    | failure _ => (None, Some (failure kProtocolVersionMismatch))
    | crash f => (None, Some (crash f))
    end
  else
    let again := DecodeValidatedStatusMessage m offset version (start_network_id start) (start_genesis_hash start)
                   (start_eth_message_schemas start) in
    match (HandleEthHandshakeMessage m offset version (start_network_id start) (start_genesis_hash start) false).1 with
    | kAcceptedStatus => (None, Some again)
    | kRejected => (None, Some (match again with success _ => failure kProtocolVersionMismatch | _ => again end))
    | kIgnored => (None, None)
    end.

Record HandshakeState (C : Type) := mkHS { hs_channel : C; hs_disconnects : list Z }.
Arguments mkHS {C} _ _.
Arguments hs_channel {C} _.
Arguments hs_disconnects {C} _.

Section perform.
Context {C : Type} `{EthChannel C}.

Notation Shake := (M (HandshakeState C) StatusValidationError).

Definition on_channel {A} (m : M C SessionError.t A) : Shake A := fun s =>
  let '(r, c) := m (hs_channel s) in (or_error r kProtocolVersionMismatch, mkHS c (hs_disconnects s)).

Definition report_disconnect (reason : option Z) : Shake unit := fun s =>
  (success tt, mkHS (hs_channel s) (hs_disconnects s ++ option_list reason)).

(** [for (;;)]; one unit of fuel per message. *)
Fixpoint handshake_loop (fuel : nat) (handle : Message -> option Z * option (outcome StatusValidationError StatusMessage)) : Shake StatusMessage :=
  match fuel with
  | O => crash_with Diverge
  | S fuel' =>
      m ← on_channel ch_receive_message_with_timeout;
      let '(reason, result) := handle m in
      report_disconnect reason ;;
      match result with
      | Some r => lift r
      | None => handshake_loop fuel' handle
      end
  end.

Definition handshake_with (handler : EthStatusHandshakeStart -> Z -> Z -> Message -> option Z * option (outcome StatusValidationError StatusMessage))
    (start : EthStatusHandshakeStart) : Shake StatusMessage :=
  s ← get_state;
  let version := ch_eth_version (hs_channel s) in
  let offset := ch_eth_offset (hs_channel s) in
  if (version =? 0) || (offset =? 0) then fail kProtocolVersionMismatch else
  let status := BuildLocalStatusMessage version (start_network_id start) (start_genesis_hash start) (start_fork_id start) in
  encoded ← lift (or_error (encode_status status) kProtocolVersionMismatch);
  on_channel (ch_post_message (mkMessage ((offset + kStatusMessageId) mod 256) encoded)) ;;
  s' ← get_state;
  handshake_loop (S (ch_pending (hs_channel s'))) (handler start version offset).

(** [PerformEthStatusHandshake] on a channel. *)
Definition PerformEthStatusHandshake : EthStatusHandshakeStart -> Shake StatusMessage := handshake_with inbound.

(** The implementation in [eth_handshake.cpp]. *)
Definition PerformEthStatusHandshake_guarded : EthStatusHandshakeStart -> Shake StatusMessage := handshake_with inbound_guarded.

(** [if (!start.channel)] of both entry points. *)
Definition perform_on (start : EthStatusHandshakeStart) (channel : option C) : outcome StatusValidationError StatusMessage * option (HandshakeState C) :=
  match channel with
  | None => (failure kProtocolVersionMismatch, None)
  | Some c => let '(r, s) := PerformEthStatusHandshake start (mkHS c []) in (r, Some s)
  end.

Definition StartEthStatusHandshake (channel : option C) : bool * option C :=
  match channel with None => (false, None) | Some c => (true, Some (ch_set_eth_message_handler c)) end.
End perform.

(** ** What the handshake accepts *)

(** A status of the negotiated version and the expected chain. *)
Definition acceptable (start : EthStatusHandshakeStart) (version : Z) (st : StatusMessage) : Prop :=
  common_protocol_version (get_common_fields st) = version /\
  common_network_id (get_common_fields st) = start_network_id start /\
  common_genesis_hash (get_common_fields st) = start_genesis_hash start /\ ~ inverted_range st.

Lemma ValidateRemoteStatus_spec st version net genesis :
  (ValidateRemoteStatusMessage st version net genesis = success tt <->
   common_protocol_version (get_common_fields st) = version /\ common_network_id (get_common_fields st) = net /\
   common_genesis_hash (get_common_fields st) = genesis /\ ~ inverted_range st) /\
  no_crash (ValidateRemoteStatusMessage st version net genesis).
Proof.
  unfold ValidateRemoteStatusMessage. destruct (Z.eqb_spec (common_protocol_version (get_common_fields st)) version) as [E|E]; cbn [negb].
  - pose proof (validate_status_cases st net genesis) as Hc. cbv zeta in Hc.
    destruct Hc as [[? ->]|[(? & ? & ->)|[(? & ? & ? & ->)|(? & ? & ? & ->)]]]; split; naive_solver.
  - split; naive_solver.
Qed.

Lemma decode_status_by_ok schemas p : fits p -> result_ok wf_status (decode_status_by schemas p).
Proof. intros Hf. unfold decode_status_by. case_bool_decide; by apply try_schemas_ok. Qed.

Lemma disconnect_decode_safe data : fits data -> no_crash (disconnect_decode data).
Proof.
  intros Hf. unfold disconnect_decode. destruct data as [|b data]; [done|]. eapply run_decoder_safe with (n := O) (Q := fun _ => True); [|done].
  eapply safe_bind_0; [eapply safe_attempt, safe_ReadListHeaderBytes|]. intros [size|] _; [|by apply safe_ret].
  case_match; [by apply safe_ret|]. eapply safe_bind_0; [eapply safe_attempt, safe_read_bytes|]. intros [|] _; by apply safe_ret.
Qed.

(** A message ends the handshake without a fault, and with success only for a
    well-formed status of the expected chain. *)
Lemma inbound_spec start version offset m : fits (msg_payload m) ->
  match (inbound start version offset m).2 with
  | None => True
  | Some (success st) => wf_status st /\ acceptable start version st
  | Some (failure _) => True
  | Some (crash _) => False
  end.
Proof.
  intros Hf. unfold inbound. destruct (msg_id m =? kDisconnectMessageId).
  { pose proof (disconnect_decode_safe _ Hf). by destruct (disconnect_decode _). }
  destruct (NormalizeEthWireMessageId _ _) as [eth_id|]; [|done]. destruct (negb (eth_id =? kStatusMessageId)); [done|]. pose proof (decode_status_by_ok (start_eth_message_schemas start) _ Hf) as Hd.
  destruct (decode_status_by _ _) as [st|e|f]; [|done|done].
  destruct (ValidateRemoteStatus_spec st version (start_network_id start) (start_genesis_hash start)) as [Hv Hc].
  destruct (ValidateRemoteStatusMessage _ _ _ _) as [[]|e|f]; [|done|done]. split; [exact Hd|]. by apply Hv.
Qed.

(** The local chain data, and a version that negotiation can yield. *)
Record wf_start (start : EthStatusHandshakeStart) : Prop := {
  wfst_network : in_width 64 (start_network_id start);
  wfst_genesis : is_hash (start_genesis_hash start);
  wfst_fork : wf_fork_id (start_fork_id start)
}.
Definition wf_version (version : Z) : Prop := version = 0 \/ 66 <= version <= 69.

Lemma rlp_uint_length_le n : 0 <= n < 2 ^ 256 -> (length (rlp_uint n) <= 41)%nat.
Proof.
  intros Hn. unfold rlp_uint. pose proof (nbytes_u256 n Hn). pose proof (rlp_string_length_le (be_min n)) as Hl.
  rewrite length_be_min in Hl. lia.
Qed.

Lemma rlp_string_length_small bs : (length bs <= 32)%nat -> (length (rlp_string bs) <= 41)%nat.
Proof. intros Hb. pose proof (rlp_string_length_le bs). lia. Qed.

Lemma local_status_wf start version : wf_start start -> 66 <= version <= 69 ->
  wf_status (BuildLocalStatusMessage version (start_network_id start) (start_genesis_hash start) (start_fork_id start)).
Proof.
  intros [] Hv. unfold BuildLocalStatusMessage, kEthProtocolVersion68. destruct (Z.leb_spec version 68); split; cbn; try done; unfold in_width; lia.
Qed.

Lemma wf_status_fits st : wf_status st -> fits (rlp_status st).
Proof.
  assert (forall f, wf_fork_id f -> (length (rlp_fork_id f) <= 91)%nat) as Hfork.
  { intros f []. unfold rlp_fork_id. set (p := _ ++ _). assert (length p <= 82)%nat.
    { unfold p. rewrite length_app. pose proof (rlp_string_length_small (fork_hash f)). pose proof (rlp_uint_length_le (next_fork f)).
      unfold in_width in *. lia. }
    pose proof (rlp_list_length_le p). lia. }
  assert (forall p, (length p <= 400)%nat -> fits (rlp_list p)) as Hlist.
  { intros p Hp. pose proof (rlp_list_length_le p). unfold fits. lia. }
  assert (forall n, in_width 64 n -> (length (rlp_uint n) <= 41)%nat) as H64.
  { intros n Hn. apply rlp_uint_length_le. unfold in_width in *. lia. }
  assert (forall h, is_hash h -> (length (rlp_string h) <= 41)%nat) as Hhash.
  { intros h Hh. apply rlp_string_length_small. unfold is_hash, EthObjects.kHashSize in Hh. lia. }
  assert (forall v, 0 <= v <= 69 -> (length (rlp_uint v) <= 41)%nat) as Hver.
  { intros v Hv. apply rlp_uint_length_le. lia. }
  destruct st as [m|m]; intros []; apply Hlist; rewrite !length_app.
  - pose proof (Hver (s68_protocol_version m) ltac:(lia)). pose proof (H64 _ wf_s68_network). pose proof (rlp_uint_length_le _ wf_s68_td).
    pose proof (Hhash _ wf_s68_blockhash). pose proof (Hhash _ wf_s68_genesis). pose proof (Hfork _ wf_s68_fork). lia.
  - pose proof (Hver (s69_protocol_version m) ltac:(lia)). pose proof (H64 _ wf_s69_network). pose proof (Hhash _ wf_s69_genesis).
    pose proof (Hfork _ wf_s69_fork). pose proof (H64 _ wf_s69_earliest). pose proof (H64 _ wf_s69_latest). pose proof (Hhash _ wf_s69_latest_hash). lia.
Qed.

Lemma local_status_encodes start version : wf_start start -> 66 <= version <= 69 ->
  let st := BuildLocalStatusMessage version (start_network_id start) (start_genesis_hash start) (start_fork_id start) in
  encode_status st = success (rlp_status st).
Proof. intros Hw Hv st. pose proof (local_status_wf _ _ Hw Hv). apply encode_status_wire; [done|by apply wf_status_fits]. Qed.

Section handshake_facts.
Context {C : Type} `{EthChannelLaws C}.

Lemma handshake_loop_spec start version offset fuel s :
  ch_fits (hs_channel s) -> (ch_pending (hs_channel s) < fuel)%nat ->
  match (handshake_loop fuel (inbound start version offset) s).1 with
  | success st => wf_status st /\ acceptable start version st
  | failure _ => True
  | crash _ => False
  end.
Proof.
  revert s. induction fuel as [|fuel IH]; intros s Hf Hfuel; [lia|]. cbn [handshake_loop]. unfold mbind at 1, M_bind at 1, on_channel at 1.
  pose proof (receive_no_crash (hs_channel s)) as Hr.
  destruct (ch_receive_message_with_timeout (hs_channel s)) as [[m|e|f] c'] eqn:E; [|done|done]. cbn [or_error].
  pose proof (receive_pending _ _ _ E) as Hp. destruct (receive_fits _ _ _ Hf E) as [Hm Hf'].
  pose proof (inbound_spec start version offset m Hm) as Hi. destruct (inbound start version offset m) as [reason result].
  unfold mbind, M_bind, report_disconnect. destruct result as [r|].
  - cbn in *. by destruct r.
  - apply IH; cbn; [done|lia].
Qed.

Lemma handshake_spec start c ds :
  wf_start start -> wf_version (ch_eth_version c) -> ch_fits c ->
  match (PerformEthStatusHandshake start (mkHS c ds)).1 with
  | success st => wf_status st /\ acceptable start (ch_eth_version c) st
  | failure _ => True
  | crash _ => False
  end.
Proof.
  intros Hw Hv Hf. unfold PerformEthStatusHandshake, handshake_with. rewrite (bind_success get_state _ _ _ _ eq_refl). cbn [hs_channel].
  destruct (Z.eqb_spec (ch_eth_version c) 0) as [E0|E0]; [done|]. cbn [orb]. destruct (_ =? 0); [done|].
  rewrite local_status_encodes by (done || by destruct Hv). cbn [or_error]. rewrite (bind_success (lift _) _ _ _ _ eq_refl).
  unfold mbind at 1, M_bind at 1, on_channel at 1. cbn [hs_channel].
  set (m := mkMessage _ _). pose proof (post_no_crash m c) as Hp. destruct (ch_post_message m c) as [[u|e|f] c'] eqn:Ep; [|done|done].
  cbn [or_error]. rewrite (bind_success get_state _ _ _ _ eq_refl). cbn [hs_channel hs_disconnects].
  apply handshake_loop_spec; cbn [hs_channel]; [by eapply post_fits|lia].
Qed.

(** The two handlers agree on the default schemas. *)
Lemma inbound_guarded_eq start version offset m :
  start_eth_message_schemas start = [] -> inbound_guarded start version offset m = inbound start version offset m.
Proof.
  intros Hs. unfold inbound_guarded, inbound, HandleEthHandshakeMessage, DecodeValidatedStatusMessage. rewrite Hs. case_match; [done|].
  destruct (NormalizeEthWireMessageId _ _) as [eth_id|]; [|done]. destruct (eth_id =? kStatusMessageId); cbn [negb]; [|done].
  destruct (decode_status_by [] (msg_payload m)) as [st|e|f]; [|done|done]. cbn [or_error]. unfold mbind, outcome_bind.
  by destruct (ValidateRemoteStatusMessage _ _ _ _) as [[]|e|f].
Qed.

Lemma handshake_loop_ext h1 h2 fuel (s : HandshakeState C) :
  (forall m, h1 m = h2 m) -> handshake_loop fuel h1 s = handshake_loop fuel h2 s.
Proof.
  intros He. revert s. induction fuel as [|fuel IH]; intros s; [done|]. cbn [handshake_loop]. unfold mbind, M_bind.
  destruct (on_channel _ s) as [[m|e|f] s1]; [|done|done]. rewrite He. destruct (h2 m) as [reason [r|]]; [done|].
  destruct (report_disconnect reason s1) as [[]]; [|done|done]. apply IH.
Qed.
End handshake_facts.

(** ** The handshake over an RLPx session *)

(** The Status a node sends, as a session message. *)
Definition local_status (start : EthStatusHandshakeStart) (version : Z) : StatusMessage :=
  BuildLocalStatusMessage version (start_network_id start) (start_genesis_hash start) (start_fork_id start).
Definition status_message (start : EthStatusHandshakeStart) (version offset : Z) : Message :=
  mkMessage offset (rlp_status (local_status start version)).

(** Base protocol messages that the handshake skips. *)
Definition skipped (offset : Z) (m : Message) : Prop := msg_id m <> kDisconnectMessageId /\ msg_id m < offset.

Record same_chain (a b : EthStatusHandshakeStart) : Prop := {
  same_network : start_network_id a = start_network_id b;
  same_genesis : start_genesis_hash a = start_genesis_hash b
}.

Lemma inbound_skipped start version offset m : skipped offset m -> inbound start version offset m = (None, None).
Proof.
  intros [H1 H2]. unfold inbound, NormalizeEthWireMessageId. rewrite (proj2 (Z.eqb_neq _ _) H1). by rewrite (proj2 (Z.ltb_lt _ _) H2).
Qed.

Lemma local_status_acceptable ours theirs version : same_chain ours theirs -> acceptable ours version (local_status theirs version).
Proof.
  intros []. unfold acceptable, local_status, BuildLocalStatusMessage. case_match; cbn; repeat split; try done; lia.
Qed.

Lemma inbound_peer_status ours theirs version offset :
  wf_start theirs -> same_chain ours theirs -> start_eth_message_schemas ours = [] -> 66 <= version <= 69 -> 16 <= offset < 256 ->
  inbound ours version offset (status_message theirs version offset) = (None, Some (success (local_status theirs version))).
Proof.
  intros Hw Hsame Hs Hv Ho. unfold inbound, NormalizeEthWireMessageId. cbn [msg_id msg_payload status_message].
  destruct (Z.eqb_spec offset kDisconnectMessageId) as [E|_]; [unfold kDisconnectMessageId in E; lia|].
  rewrite Z.ltb_irrefl, Z.sub_diag. cbn [Z.modulo negb]. rewrite Hs. unfold decode_status_by. rewrite bool_decide_eq_true_2 by done.
  pose proof (local_status_wf _ _ Hw Hv) as Hwf.
  unfold local_status at 1. rewrite decode_status_wire by (done || by apply wf_status_fits). cbn [negb Z.eqb kStatusMessageId].
  destruct (ValidateRemoteStatus_spec (local_status theirs version) version (start_network_id ours) (start_genesis_hash ours)) as [Hok _].
  fold (local_status theirs version). by rewrite (proj2 Hok (local_status_acceptable _ _ _ Hsame)).
Qed.

Lemma adapter_receive_head s arrivals m q : state_ s = SessionState.kActive -> recv_channel s = m :: q ->
  ch_receive_message_with_timeout (mkChannel s arrivals) = (success m, mkChannel (set_recv_channel q s) (drop 1 arrivals)).
Proof.
  intros Ha Hq. cbn [ch_receive_message_with_timeout rlpx_eth_channel]. unfold adapter_receive_message_with_timeout, receive_message_with_timeout, mbind, M_bind, require_active.
  cbn [ch_session ch_arrivals]. destruct arrivals as [|polls arrivals]; rewrite Ha; [|destruct polls]; cbn [poll_until]; by rewrite Hq.
Qed.

(** Waiting on the queue of an active session: the skipped messages are taken
    and dropped until the peer's Status ends the loop. *)
Lemma loop_until_status ours version offset (m : Message) (st : StatusMessage) (rest : list Message) ds :
  inbound ours version offset m = (None, Some (success st)) ->
  forall ignored fuel s arrivals,
  state_ s = SessionState.kActive -> recv_channel s = ignored ++ m :: rest -> Forall (skipped offset) ignored ->
  (length ignored < fuel)%nat ->
  handshake_loop fuel (inbound ours version offset) (mkHS (mkChannel s arrivals) ds) =
    (success st, mkHS (mkChannel (set_recv_channel rest s) (drop (S (length ignored)) arrivals)) ds).
Proof.
  intros Hm. induction ignored as [|i ignored IH]; intros fuel s arrivals Ha Hq Hi Hfuel; (destruct fuel as [|fuel]; [cbn in Hfuel; lia|]);
    cbn [handshake_loop]; unfold mbind at 1, M_bind at 1, on_channel at 1; cbn [hs_channel].
  - assert (ch_receive_message_with_timeout (mkChannel s arrivals) = (success m, mkChannel (set_recv_channel rest s) (drop 1 arrivals))) as ->
      by (by apply adapter_receive_head).
    cbn [or_error]. rewrite Hm. unfold mbind, M_bind, report_disconnect. cbn. by rewrite app_nil_r.
  - apply Forall_cons in Hi as [Hi1 Hi].
    assert (ch_receive_message_with_timeout (mkChannel s arrivals) = (success i, mkChannel (set_recv_channel (ignored ++ m :: rest) s) (drop 1 arrivals))) as ->
      by (by apply adapter_receive_head).
    cbn [or_error]. rewrite inbound_skipped by done. unfold mbind, M_bind, report_disconnect. cbn [hs_channel hs_disconnects option_list].
    rewrite app_nil_r, IH; [|done|done|done|cbn in Hfuel; lia]. by rewrite drop_drop.
Qed.

(** ** The theorems *)

(** C4: On every channel that keeps the interface's promises, and whatever the
    peer sends, the Status handshake returns: it neither waits beyond the
    pending messages nor faults, and it succeeds only with a well-formed Status
    of the negotiated version, the expected network and genesis block and a
    block range that is not inverted. *)
Theorem handshake_sound {C : Type} `{EthChannelLaws C} start c :
  wf_start start -> wf_version (ch_eth_version c) -> ch_fits c ->
  no_crash (PerformEthStatusHandshake start (mkHS c [])).1 /\
  forall st, (PerformEthStatusHandshake start (mkHS c [])).1 = success st ->
    wf_status st /\ acceptable start (ch_eth_version c) st.
Proof.
  intros Hw Hv Hf. pose proof (handshake_spec start c [] Hw Hv Hf) as Hs.
  destruct (PerformEthStatusHandshake start (mkHS c [])).1 as [st|e|f]; [|split; done|done].
  split; [done|]. by intros ? [= <-].
Qed.

(** Two nodes of one chain shake hands: with the peer's Status in the queue
    of an active session, behind any base protocol messages, the handshake
    posts its own Status and accepts exactly the peer's, whatever the two fork
    ids, and leaves the messages behind it to the session. *)
Theorem handshake_mutual ours theirs s arrivals ignored rest :
  let version := negotiated_eth_version_ s in
  let offset := negotiated_eth_offset_ s in
  wf_start ours -> wf_start theirs -> same_chain ours theirs -> start_eth_message_schemas ours = [] ->
  66 <= version <= 69 -> 16 <= offset < 256 -> state_ s = SessionState.kActive -> Forall (skipped offset) ignored ->
  recv_channel s = ignored ++ status_message theirs version offset :: rest ->
  PerformEthStatusHandshake ours (mkHS (mkChannel s arrivals) []) =
    (success (local_status theirs version),
     mkHS (mkChannel (set_recv_channel rest (set_send_channel (send_channel s ++ [status_message ours version offset]) s))
             (drop (S (length ignored)) arrivals)) []).
Proof.
  intros version offset Hw Hw' Hsame Hs Hv Ho Ha Hi Hq. unfold PerformEthStatusHandshake, handshake_with.
  rewrite (bind_success get_state _ _ _ _ eq_refl). cbn [hs_channel ch_eth_version ch_eth_offset rlpx_eth_channel ch_session].
  fold version offset. rewrite (proj2 (Z.eqb_neq version 0)), (proj2 (Z.eqb_neq offset 0)) by lia. cbn [orb].
  rewrite local_status_encodes by done. cbn [or_error]. rewrite (bind_success (lift _) _ _ _ _ eq_refl).
  unfold mbind at 1, M_bind at 1, on_channel at 1. cbn [hs_channel ch_post_message rlpx_eth_channel].
  unfold adapter_post_message, post_message, mbind at 1, M_bind at 1, require_active. cbn [ch_session]. rewrite Ha.
  cbn [channel_push or_error ch_arrivals hs_disconnects]. rewrite (bind_success get_state _ _ _ _ eq_refl).
  unfold kStatusMessageId. rewrite Z.add_0_r, Z.mod_small by lia.
  apply (loop_until_status ours version offset (status_message theirs version offset)); [by apply inbound_peer_status|done..|].
  cbn. rewrite Hq, length_app. cbn. lia.
Qed.

(** The implementation of [eth_handshake.cpp], which decodes every Status
    twice through the handshake guard, behaves as the one of
    [eth_peer_session.cpp] on every channel as long as no message schemas are
    configured. *)
Theorem guarded_handshake_equivalent {C : Type} `{EthChannel C} start (s : HandshakeState C) :
  start_eth_message_schemas start = [] -> PerformEthStatusHandshake_guarded start s = PerformEthStatusHandshake start s.
Proof.
  intros Hs. unfold PerformEthStatusHandshake_guarded, PerformEthStatusHandshake, handshake_with, mbind, M_bind. cbn [get_state].
  destruct (_ || _); [done|]. destruct (lift _ s) as [[]]; [|done|done]. destruct (on_channel _ _) as [[]]; [|done|done].
  apply handshake_loop_ext. intros m. by apply inbound_guarded_eq.
Qed.

(** ** A handshake on a concrete session *)

Module SampleHandshake.
Import FrameCipher.Toy.
Definition hash (n : Z) : list byte := repeat (byte_of n) 32.
Definition fork : ForkId := mkForkId [x01; x02; x03; x04] 0.
Definition ours : EthStatusHandshakeStart := mkStart 1 (hash 7) fork [].
Definition theirs : EthStatusHandshakeStart := mkStart 1 (hash 7) (mkForkId [x09; x02; x03; x04] 5) [].
Definition session : RlpxSession :=
  mkSession SessionState.kActive (stream_new (FrameCipher_new initiator) idle) (mkPeerInfo [] [] 0 [] 0) 68 16 true []
    [mkMessage 2 [xc0]; status_message theirs 68 16; mkMessage 17 []] (mkHandlers false false false false false false).
Lemma wf_ours : wf_start ours.
Proof. repeat split; vm_compute; congruence. Qed.
Lemma wf_theirs : wf_start theirs.
Proof. repeat split; vm_compute; congruence. Qed.
End SampleHandshake.

Lemma handshake_sound_witness :
  no_crash (PerformEthStatusHandshake SampleHandshake.ours (mkHS (mkChannel SampleHandshake.session []) [])).1.
Proof.
  apply (handshake_sound SampleHandshake.ours (mkChannel SampleHandshake.session []) SampleHandshake.wf_ours).
  - right. cbn. lia.
  - split; [|constructor]. repeat constructor.
Defined.

Lemma handshake_mutual_witness :
  (PerformEthStatusHandshake SampleHandshake.ours (mkHS (mkChannel SampleHandshake.session [[]]) [])).1 =
    success (local_status SampleHandshake.theirs 68).
Proof.
  rewrite (handshake_mutual SampleHandshake.ours SampleHandshake.theirs SampleHandshake.session [[]] [mkMessage 2 [xc0]] [mkMessage 17 []]
    SampleHandshake.wf_ours SampleHandshake.wf_theirs); cbn; (reflexivity || lia || (split; reflexivity) || idtac).
  apply Forall_singleton. split; cbn; unfold kDisconnectMessageId; lia.
Defined.

Lemma guarded_handshake_equivalent_witness :
  PerformEthStatusHandshake_guarded SampleHandshake.ours (mkHS (mkChannel SampleHandshake.session []) []) =
  PerformEthStatusHandshake SampleHandshake.ours (mkHS (mkChannel SampleHandshake.session []) []).
Proof. apply (guarded_handshake_equivalent SampleHandshake.ours (mkHS (mkChannel SampleHandshake.session []) [])). reflexivity. Defined.
