(* ===== verification/WatchService.v ===== *)
(** * The watch service

    [include/eth/eth_watch_service.hpp] and the session half of
    [src/eth/eth_watch_service.cpp] (subscriptions, requests for receipts and
    the processing of ETH messages), [src/eth/eth_receipt_source.cpp].

    The service composes the event watcher, the chain tracker, the ABI decoder
    and the message codecs.  A callback of the watcher captures the id of a
    subscription, so the watcher's callbacks are ids here; what the user's
    callbacks are called with is recorded in [sv_calls] and what the send
    callback is called with in [sv_sent], both in the order of the calls.  User
    callbacks do not call back into the service. *)

From S2P Require Import Prelude RlpSpec RlpCommon RlpDecoder DecodeLogic EthObjects EthMessages EthStatus ChainTracker EventFilter AbiDecoder.

(** ** eth_watch_service.hpp *)

Record PendingRequest := mkPending { pr_block_hash : list byte; pr_block_number : Z }.

(** [WatchStatsSnapshot] *)
Record WatchStats := mkStats {
  eth_messages_seen : Z;
  new_block_hashes_messages : Z;
  new_block_messages : Z;
  receipts_messages : Z;
  decode_failures : Z;
  receipts_requested : Z;
  receipts_processed : Z;
  logs_seen : Z;
  matched_logs : Z;
  discarded_logs : Z
}.

Definition no_stats : WatchStats := mkStats 0 0 0 0 0 0 0 0 0 0.

Definition kNewBlockHashesMessageId : Z := 0x01.
Definition kNewBlockMessageId : Z := 0x07.

(** [make_event_filter]; [EthWatchService::watch_event] builds the same filter. *)
Definition make_event_filter (keccak256 : list byte -> list byte) (contract_address : list byte) (event_signature : string)
    (from to : option Z) : EventFilter :=
  mkFilter (if decide (contract_address = replicate 20 x00) then [] else [contract_address])
    [Some (event_signature_hash keccak256 event_signature)] from to.

Section service.
Context {CB : Type}.

(** [EthWatchService::Subscription] *)
Record WatchSubscription := mkWatchSub {
  ws_id : Z;
  ws_event_signature : string;
  ws_params : list AbiParam;
  ws_callback : CB
}.

Definition EventCall : Type := CB * MatchedEvent * list AbiValue.

(** The members that serve a session, and the two logs of calls. *)
Record EthWatchService := mkService {
  send_cb_ : bool;
  chain_tracker_ : ChainTracker;
  watcher_ : EventWatcher Z;
  sv_subscriptions : list WatchSubscription;
  sv_next_id : Z;
  next_req_id_ : Z;
  stats_ : WatchStats;
  eth_message_schemas_ : list EthMessageSchema;
  pending_requests_ : gmap Z PendingRequest;
  sv_sent : list (Z * list byte);
  sv_calls : list EventCall
}.

Definition EthWatchService_new : EthWatchService :=
  mkService false (ChainTracker_new 0) EventWatcher_new [] 1 1 no_stats [] ∅ [] [].

Notation Service := (M EthWatchService Empty_set).

(** *** Members *)

Definition modify (f : EthWatchService -> EthWatchService) : Service unit := fun s => (success tt, f s).

Definition set_send_callback (set : bool) (s : EthWatchService) : EthWatchService :=
  mkService set (chain_tracker_ s) (watcher_ s) (sv_subscriptions s) (sv_next_id s) (next_req_id_ s) (stats_ s)
    (eth_message_schemas_ s) (pending_requests_ s) (sv_sent s) (sv_calls s).
Definition set_eth_message_schemas (schemas : list EthMessageSchema) (s : EthWatchService) : EthWatchService :=
  mkService (send_cb_ s) (chain_tracker_ s) (watcher_ s) (sv_subscriptions s) (sv_next_id s) (next_req_id_ s) (stats_ s)
    schemas (pending_requests_ s) (sv_sent s) (sv_calls s).
Definition with_tracker (t : ChainTracker) (s : EthWatchService) : EthWatchService :=
  mkService (send_cb_ s) t (watcher_ s) (sv_subscriptions s) (sv_next_id s) (next_req_id_ s) (stats_ s)
    (eth_message_schemas_ s) (pending_requests_ s) (sv_sent s) (sv_calls s).
Definition with_subscriptions (w : EventWatcher Z) (subs : list WatchSubscription) (next : Z) (s : EthWatchService) : EthWatchService :=
  mkService (send_cb_ s) (chain_tracker_ s) w subs next (next_req_id_ s) (stats_ s)
    (eth_message_schemas_ s) (pending_requests_ s) (sv_sent s) (sv_calls s).
Definition with_request (next_req : Z) (pending : gmap Z PendingRequest) (sent : list (Z * list byte)) (s : EthWatchService) : EthWatchService :=
  mkService (send_cb_ s) (chain_tracker_ s) (watcher_ s) (sv_subscriptions s) (sv_next_id s) next_req (stats_ s)
    (eth_message_schemas_ s) pending sent (sv_calls s).
Definition with_stats (f : WatchStats -> WatchStats) (s : EthWatchService) : EthWatchService :=
  mkService (send_cb_ s) (chain_tracker_ s) (watcher_ s) (sv_subscriptions s) (sv_next_id s) (next_req_id_ s) (f (stats_ s))
    (eth_message_schemas_ s) (pending_requests_ s) (sv_sent s) (sv_calls s).
Definition add_call (c : EventCall) (s : EthWatchService) : EthWatchService :=
  mkService (send_cb_ s) (chain_tracker_ s) (watcher_ s) (sv_subscriptions s) (sv_next_id s) (next_req_id_ s) (stats_ s)
    (eth_message_schemas_ s) (pending_requests_ s) (sv_sent s) (sv_calls s ++ [c]).

(** The increments of the counters. *)
Definition count_message (st : WatchStats) : WatchStats :=
  mkStats (u64 (eth_messages_seen st + 1)) (new_block_hashes_messages st) (new_block_messages st) (receipts_messages st)
    (decode_failures st) (receipts_requested st) (receipts_processed st) (logs_seen st) (matched_logs st) (discarded_logs st).
Definition count_new_block_hashes (st : WatchStats) : WatchStats :=
  mkStats (eth_messages_seen st) (u64 (new_block_hashes_messages st + 1)) (new_block_messages st) (receipts_messages st)
    (decode_failures st) (receipts_requested st) (receipts_processed st) (logs_seen st) (matched_logs st) (discarded_logs st).
Definition count_new_block (st : WatchStats) : WatchStats :=
  mkStats (eth_messages_seen st) (new_block_hashes_messages st) (u64 (new_block_messages st + 1)) (receipts_messages st)
    (decode_failures st) (receipts_requested st) (receipts_processed st) (logs_seen st) (matched_logs st) (discarded_logs st).
Definition count_receipts (st : WatchStats) : WatchStats :=
  mkStats (eth_messages_seen st) (new_block_hashes_messages st) (new_block_messages st) (u64 (receipts_messages st + 1))
    (decode_failures st) (receipts_requested st) (receipts_processed st) (logs_seen st) (matched_logs st) (discarded_logs st).
Definition count_failure (st : WatchStats) : WatchStats :=
  mkStats (eth_messages_seen st) (new_block_hashes_messages st) (new_block_messages st) (receipts_messages st)
    (u64 (decode_failures st + 1)) (receipts_requested st) (receipts_processed st) (logs_seen st) (matched_logs st) (discarded_logs st).
Definition count_request (st : WatchStats) : WatchStats :=
  mkStats (eth_messages_seen st) (new_block_hashes_messages st) (new_block_messages st) (receipts_messages st)
    (decode_failures st) (u64 (receipts_requested st + 1)) (receipts_processed st) (logs_seen st) (matched_logs st) (discarded_logs st).
Definition count_processed (n : nat) (st : WatchStats) : WatchStats :=
  mkStats (eth_messages_seen st) (new_block_hashes_messages st) (new_block_messages st) (receipts_messages st)
    (decode_failures st) (receipts_requested st) (u64 (receipts_processed st + Z.of_nat n)) (logs_seen st) (matched_logs st) (discarded_logs st).
(** [discarded_logs += log_count - matched], in [size_t]. *)
Definition count_logs (log_count matched : nat) (st : WatchStats) : WatchStats :=
  mkStats (eth_messages_seen st) (new_block_hashes_messages st) (new_block_messages st) (receipts_messages st)
    (decode_failures st) (receipts_requested st) (receipts_processed st) (u64 (logs_seen st + Z.of_nat log_count))
    (u64 (matched_logs st + Z.of_nat matched)) (u64 (discarded_logs st + u64 (Z.of_nat log_count - Z.of_nat matched))).

(** ** eth_watch_service.cpp *)

Section operations.
Context (keccak256 : list byte -> list byte).

Definition watch_event (contract_address : list byte) (event_signature : string) (params : list AbiParam) (callback : CB)
    (from to : option Z) : Service Z := fun s =>
  let id := sv_next_id s in
  let filter := make_event_filter keccak256 contract_address event_signature from to in
  let '(_, w) := watch filter id (watcher_ s) in
  (success id, with_subscriptions w (sv_subscriptions s ++ [mkWatchSub id event_signature params callback]) (u32 (id + 1)) s).

Definition service_unwatch (id : Z) (s : EthWatchService) : EthWatchService :=
  with_subscriptions (unwatch id (watcher_ s)) (filter (fun sub => ws_id sub <> id) (sv_subscriptions s)) (sv_next_id s) s.

(** [std::find_if] over the subscriptions. *)
Definition find_subscription (id : Z) (subs : list WatchSubscription) : option WatchSubscription :=
  head (filter (fun sub => ws_id sub = id) subs).

(** The callback that [watch_event] registers with the watcher. *)
Definition watcher_callback (call : Z * MatchedEvent) : Service unit :=
  s ← get_state;
  match find_subscription call.1 (sv_subscriptions s) with
  | None => mret tt
  | Some sub =>
      match decode_log keccak256 (ev_log call.2) (ws_event_signature sub) (ws_params sub) with
      | success values => modify (add_call (ws_callback sub, call.2, values))
      | failure _ => mret tt
      | crash f => crash_with f
      end
  end.

(** [chain_tracker_.mark_seen] *)
Definition tracker_mark_seen (block_hash : list byte) (block_number : Z) : Service bool := fun s =>
  let '(r, t) := mark_seen block_hash block_number (chain_tracker_ s) in (r, with_tracker t s).

(** [next_req_id_++] *)
Definition take_req_id : Service Z := fun s =>
  (success (next_req_id_ s), with_request (u64 (next_req_id_ s + 1)) (pending_requests_ s) (sv_sent s) s).

Definition send_request (req_id : Z) (block_hash : list byte) (block_number : Z) (encoded : list byte) : Service unit :=
  modify (fun s => with_request (next_req_id_ s) (<[req_id := mkPending block_hash block_number]> (pending_requests_ s)) (sv_sent s) s) ;;
  modify (with_stats count_request) ;;
  modify (fun s => with_request (next_req_id_ s) (pending_requests_ s) (sv_sent s ++ [(kGetReceiptsMessageId, encoded)]) s).

Definition request_receipts (block_hash : list byte) (block_number : Z) : Service unit :=
  s ← get_state;
  if negb (send_cb_ s) then mret tt else
  fresh ← tracker_mark_seen block_hash block_number;
  if negb fresh then mret tt else
  req_id ← take_req_id;
  match encode_get_receipts (mkRequest (Some req_id) [block_hash]) with
  | success encoded => send_request req_id block_hash block_number encoded
  | failure _ => mret tt
  | crash f => crash_with f
  end.

Definition process_new_block (msg : NewBlockMessage) (block_hash : list byte) : Service unit :=
  request_receipts block_hash (bh_number (nb_header msg)).

(** [watcher_.process_receipt], whose callbacks run one after the other. *)
Definition dispatch_receipt (receipt : Receipt) (tx_hash : list byte) (block_number : Z) (block_hash : list byte) (first : Z) : Service nat :=
  s ← get_state;
  let '(matched, calls) := process_receipt receipt tx_hash block_number block_hash first (watcher_ s) in
  for_each watcher_callback calls ;;
  mret matched.

(** The loop over the receipts from position [i] on. *)
Fixpoint receipts_loop (i : nat) (items : list (Receipt * list byte)) (next_log_index block_number : Z) (block_hash : list byte)
    (log_indices : list (list Z)) : Service unit :=
  match items with
  | [] => mret tt
  | (receipt, tx_hash) :: items' =>
      let log_count := length (rc_logs receipt) in
      let first := match log_indices !! i with Some (index :: _) => index | _ => next_log_index end in
      matched ← dispatch_receipt receipt tx_hash block_number block_hash first;
      modify (with_stats (count_logs log_count matched)) ;;
      receipts_loop (S i) items' (u32 (next_log_index + Z.of_nat log_count)) block_number block_hash log_indices
  end.

Definition process_receipts (receipts : list Receipt) (tx_hashes : list (list byte)) (block_number : Z) (block_hash : list byte)
    (log_indices : list (list Z)) : Service unit :=
  let items := combine receipts tx_hashes in
  modify (with_stats (count_processed (length items))) ;;
  receipts_loop 0 items 0 block_number block_hash log_indices.

(** The block of a response: that of the pending request, which is over, for
    the first list of receipts; nothing is known of the others. *)
Definition correlate (block_idx : nat) (request_id : option Z) : Service (list byte * Z) := fun s =>
  match block_idx, request_id with
  | O, Some id =>
      match pending_requests_ s !! id with
      | Some p => (success (pr_block_hash p, pr_block_number p),
                   with_request (next_req_id_ s) (delete id (pending_requests_ s)) (sv_sent s) s)
      | None => (success (zero_hash, 0), s)
      end
  | _, _ => (success (zero_hash, 0), s)
  end.

Fixpoint blocks_loop (block_idx : nat) (request_id : option Z) (blocks : list (list Receipt)) : Service unit :=
  match blocks with
  | [] => mret tt
  | block_receipts :: blocks' =>
      block ← correlate block_idx request_id;
      process_receipts block_receipts (replicate (length block_receipts) zero_hash) block.2 block.1 [] ;;
      blocks_loop (S block_idx) request_id blocks'
  end.

(** [if (!decoded) { ++stats_.decode_failures; return; }] *)
Definition if_decoded {E A} (r : outcome E A) (k : A -> Service unit) : Service unit :=
  match r with
  | success a => k a
  | failure _ => modify (with_stats count_failure)
  | crash f => crash_with f
  end.

Definition process_message (eth_msg_id : Z) (payload : list byte) : Service unit :=
  modify (with_stats count_message) ;;
  s ← get_state;
  let schemas := eth_message_schemas_ s in
  if eth_msg_id =? kNewBlockHashesMessageId then
    modify (with_stats count_new_block_hashes) ;;
    if_decoded (decode_new_block_hashes payload)
      (for_each (fun entry => request_receipts (nbh_hash entry) (nbh_number entry)))
  else if eth_msg_id =? kNewBlockMessageId then
    modify (with_stats count_new_block) ;;
    if_decoded (decode_new_block payload) (fun msg => process_new_block msg zero_hash)
  else if eth_msg_id =? kReceiptsMessageId then
    modify (with_stats count_receipts) ;;
    if_decoded (if bool_decide (length schemas = 0%nat) then decode_receipts payload else decode_receipts_with payload schemas)
      (fun msg => blocks_loop 0 (request_id msg) (request_payload msg))
  else mret tt.
End operations.
End service.
Arguments WatchSubscription : clear implicits.
Arguments EthWatchService : clear implicits.
Arguments EventCall : clear implicits.

(** ** What the callbacks are called with *)

Section deliveries.
Context {CB : Type} (keccak256 : list byte -> list byte).
Notation Svc := (EthWatchService CB).

(** The subscriptions with the filters the watcher keeps for them. *)
Definition live (s : Svc) : list (WatchSubscription CB * EventFilter) :=
  zip (sv_subscriptions s) (map sub_filter (subscriptions_ (watcher_ s))).

(** The subscriptions that accept an event and can decode its log, in order. *)
Definition event_deliveries (subs : list (WatchSubscription CB * EventFilter)) (ev : MatchedEvent) : list (EventCall CB) :=
  omap (fun '(sub, f) =>
    if decide (accepts f (ev_log ev) (ev_block_number ev)) then
      match decode_log keccak256 (ev_log ev) (ws_event_signature sub) (ws_params sub) with
      | success values => Some (ws_callback sub, ev, values)
      | _ => None
      end
    else None) subs.

(** The events of the receipts of a block, the logs numbered through. *)
Fixpoint block_events (i : nat) (items : list (Receipt * list byte)) (next block_number : Z) (block_hash : list byte)
    (log_indices : list (list Z)) : list MatchedEvent :=
  match items with
  | [] => []
  | (receipt, tx_hash) :: items' =>
      let first := match log_indices !! i with Some (index :: _) => index | _ => next end in
      imap (fun j log => mkEvent log block_number block_hash tx_hash (u32 (first + Z.of_nat j))) (rc_logs receipt) ++
      block_events (S i) items' (next + Zlen (rc_logs receipt)) block_number block_hash log_indices
  end.

(** The ABI decoder has no fault on the log, whatever the subscription. *)
Definition log_safe (subs : list (WatchSubscription CB)) (log : LogEntry) : Prop :=
  forall sub, sub ∈ subs -> no_crash (decode_log keccak256 log (ws_event_signature sub) (ws_params sub)).

(** The two lists of subscriptions belong together. *)
Record synced_subscriptions (s : Svc) : Prop := {
  sync_next : sv_next_id s = next_id_ (watcher_ s);
  sync_ids : Forall2 (fun sub w => sub_id w = ws_id sub /\ sub_callback w = ws_id sub) (sv_subscriptions s) (subscriptions_ (watcher_ s));
  sync_nodup : NoDup (map ws_id (sv_subscriptions s))
}.

(** The same state with further calls and other counters. *)
Definition after_calls (cs : list (EventCall CB)) (st : WatchStats) (s : Svc) : Svc :=
  mkService (send_cb_ s) (chain_tracker_ s) (watcher_ s) (sv_subscriptions s) (sv_next_id s) (next_req_id_ s) st
    (eth_message_schemas_ s) (pending_requests_ s) (sv_sent s) (sv_calls s ++ cs).

Lemma after_calls_nil s : after_calls [] (stats_ s) s = s.
Proof. destruct s. unfold after_calls. cbn. by rewrite app_nil_r. Qed.

Lemma after_calls_calls cs1 cs2 st1 st2 s : after_calls cs2 st2 (after_calls cs1 st1 s) = after_calls (cs1 ++ cs2) st2 s.
Proof. unfold after_calls. cbn. by rewrite app_assoc. Qed.

Lemma live_after_calls cs st s : live (after_calls cs st s) = live s.
Proof. done. Qed.

Lemma synced_after_calls cs st s : synced_subscriptions s -> synced_subscriptions (after_calls cs st s).
Proof. by intros []. Qed.

Lemma find_subscription_unique subs sub :
  NoDup (map ws_id subs) -> sub ∈ subs -> find_subscription (CB := CB) (ws_id sub) subs = Some sub.
Proof.
  intros Hnd Hin. unfold find_subscription. induction subs as [|x subs IH]; [by apply elem_of_nil in Hin|].
  cbn [map] in Hnd. apply NoDup_cons in Hnd as [Hx Hnd]. rewrite filter_cons. case_decide as E.
  - apply elem_of_cons in Hin as [->|Hin]; [done|]. exfalso. apply Hx. rewrite E. by apply (list_elem_of_fmap_2 ws_id).
  - apply elem_of_cons in Hin as [->|Hin]; [done|]. by apply IH.
Qed.

(** One callback, for a subscription of the service. *)
Lemma watcher_callback_eq s sub ev :
  NoDup (map ws_id (sv_subscriptions s)) -> sub ∈ sv_subscriptions s ->
  no_crash (decode_log keccak256 (ev_log ev) (ws_event_signature sub) (ws_params sub)) ->
  watcher_callback keccak256 (ws_id sub, ev) s =
    (success tt, after_calls (match decode_log keccak256 (ev_log ev) (ws_event_signature sub) (ws_params sub) with
                              | success values => [(ws_callback sub, ev, values)] | _ => [] end) (stats_ s) s).
Proof.
  intros Hnd Hin Hc. unfold watcher_callback. rewrite (bind_success get_state _ _ _ _ eq_refl). cbn [fst snd].
  rewrite (find_subscription_unique _ _ Hnd Hin). destruct (decode_log _ _ _ _); [done| |done]. by rewrite after_calls_nil.
Qed.

(** All callbacks of one event. *)
Lemma notify_callbacks ev s pairs :
  Forall2 (fun sub w => sub_id w = ws_id sub /\ sub_callback w = ws_id sub) pairs.*1 pairs.*2 ->
  NoDup (map ws_id (sv_subscriptions s)) -> (forall sub, sub ∈ pairs.*1 -> sub ∈ sv_subscriptions s) ->
  log_safe (sv_subscriptions s) (ev_log ev) ->
  for_each (watcher_callback keccak256) (notify pairs.*2 ev) s =
    (success tt, after_calls (event_deliveries (zip pairs.*1 (map sub_filter pairs.*2)) ev) (stats_ s) s).
Proof.
  revert s. induction pairs as [|[sub w] pairs IH]; intros s Hs Hnd Hin Hsafe; cbn [fmap list_fmap fst snd notify map zip zip_with event_deliveries omap list_omap].
  { by rewrite after_calls_nil. }
  cbn [fmap list_fmap fst snd] in Hs, Hin. apply Forall2_cons in Hs as [[Hid Hcb] Hs].
  assert (forall s', sv_subscriptions s' = sv_subscriptions s ->
    for_each (watcher_callback keccak256) (notify pairs.*2 ev) s' =
    (success tt, after_calls (event_deliveries (zip pairs.*1 (map sub_filter pairs.*2)) ev) (stats_ s') s')) as IH'.
  { intros s' Es. apply IH; rewrite ?Es; try done. intros x Hx. apply Hin. by right. }
  destruct (matches _ _ _) eqn:Em.
  - apply matches_iff in Em. rewrite decide_True by done. cbn [for_each]. rewrite Hcb.
    assert (sub ∈ sv_subscriptions s) as Hsub by (apply Hin; by left).
    rewrite (bind_success _ _ _ _ _ (watcher_callback_eq s sub ev Hnd Hsub (Hsafe sub Hsub))).
    rewrite IH' by done. rewrite after_calls_calls. by destruct (decode_log _ _ _ _).
  - rewrite decide_False by (intros H%matches_iff; congruence). by apply IH'.
Qed.

Lemma for_each_app {St Er A} (f : A -> M St Er unit) l1 l2 s s' :
  for_each f l1 s = (success tt, s') -> for_each f (l1 ++ l2) s = for_each f l2 s'.
Proof.
  revert s. induction l1 as [|x l1 IH]; intros s; cbn [app for_each].
  - by intros [= ->].
  - unfold mbind, M_bind. destruct (f x s) as [[]]; [|done|done]. apply IH.
Qed.

Lemma synced_zip (s : Svc) : synced_subscriptions s ->
  exists pairs, pairs.*1 = sv_subscriptions s /\ pairs.*2 = subscriptions_ (watcher_ s).
Proof.
  intros [_ Hs _]. exists (zip (sv_subscriptions s) (subscriptions_ (watcher_ s))). apply Forall2_length in Hs.
  split; [apply fst_zip|apply snd_zip]; lia.
Qed.

Lemma notify_live ev s : synced_subscriptions s -> log_safe (sv_subscriptions s) (ev_log ev) ->
  for_each (watcher_callback keccak256) (notify (subscriptions_ (watcher_ s)) ev) s =
    (success tt, after_calls (event_deliveries (live s) ev) (stats_ s) s).
Proof.
  intros Hs Hsafe. destruct (synced_zip s Hs) as (pairs & E1 & E2). unfold live. rewrite <- E2. destruct Hs.
  rewrite <- E1. apply notify_callbacks; try done; rewrite ?E1, ?E2; done.
Qed.

(** All callbacks of the logs of a receipt. *)
Lemma process_logs_live bn bh tx logs : forall index first s,
  index = u32 first -> synced_subscriptions s -> Forall (log_safe (sv_subscriptions s)) logs ->
  for_each (watcher_callback keccak256) (process_logs (subscriptions_ (watcher_ s)) bn bh tx index logs).2 s =
    (success tt, after_calls (concat (map (event_deliveries (live s))
      (imap (fun j log => mkEvent log bn bh tx (u32 (first + Z.of_nat j))) logs))) (stats_ s) s).
Proof.
  induction logs as [|log logs IH]; intros index first s Hi Hs Hl; cbn [process_logs snd imap map concat].
  { by rewrite after_calls_nil. }
  apply Forall_cons in Hl as [Hlog Hl]. set (ev := mkEvent log bn bh tx index).
  rewrite (for_each_app _ _ _ _ _ (notify_live ev s Hs Hlog)).
  rewrite (IH _ (first + 1) (after_calls _ _ s)); [|subst; unfold u32; by rewrite Zplus_mod_idemp_l|by apply synced_after_calls|done].
  rewrite after_calls_calls, live_after_calls. cbn [stats_ after_calls]. do 2 f_equal. f_equal.
  - unfold ev. by rewrite Z.add_0_r, Hi.
  - do 2 f_equal. apply imap_ext. intros j x _. cbn. do 2 f_equal. lia.
Qed.

Lemma dispatch_receipt_eq receipt tx bn bh first s :
  in_width 32 first -> synced_subscriptions s -> Forall (log_safe (sv_subscriptions s)) (rc_logs receipt) ->
  dispatch_receipt keccak256 receipt tx bn bh first s =
    (success (length (filter (fun log => reached (subscriptions_ (watcher_ s)) log bn <> []) (rc_logs receipt))),
     after_calls (concat (map (event_deliveries (live s))
       (imap (fun j log => mkEvent log bn bh tx (u32 (first + Z.of_nat j))) (rc_logs receipt)))) (stats_ s) s).
Proof.
  intros Hw Hs Hl. unfold dispatch_receipt. rewrite (bind_success get_state _ _ _ _ eq_refl). unfold process_receipt.
  pose proof (process_logs_live bn bh tx (rc_logs receipt) first first s ltac:(by rewrite u32_small) Hs Hl) as Hc.
  pose proof (process_logs_spec (subscriptions_ (watcher_ s)) bn bh tx first (rc_logs receipt) first ltac:(by rewrite u32_small)) as Hm.
  destruct (process_logs _ _ _ _ _ _) as [n calls]. cbn [snd] in Hc. rewrite (bind_success _ _ _ _ _ Hc). by injection Hm as -> _.
Qed.

Lemma receipts_loop_eq bn bh log_indices items : forall i index next s,
  index = u32 next -> Forall (Forall (in_width 32)) log_indices -> synced_subscriptions s ->
  Forall (fun it => Forall (log_safe (sv_subscriptions s)) (rc_logs it.1)) items ->
  exists st, receipts_loop keccak256 i items index bn bh log_indices s =
    (success tt, after_calls (concat (map (event_deliveries (live s)) (block_events i items next bn bh log_indices))) st s).
Proof.
  induction items as [|[receipt tx] items IH]; intros i index next s Hi Hli Hs Hl; cbn [receipts_loop block_events].
  { exists (stats_ s). by rewrite after_calls_nil. }
  apply Forall_cons in Hl as [Hr Hl]. cbn [fst] in Hr.
  set (first := match log_indices !! i with Some (x :: _) => x | _ => index end).
  assert (in_width 32 first) as Hf.
  { unfold first. destruct (log_indices !! i) as [[|x l]|] eqn:E; try (subst; apply Z.mod_pos_bound; lia).
    rewrite Forall_forall in Hli. specialize (Hli _ (list_elem_of_lookup_2 _ _ _ E)). by apply Forall_cons in Hli as [? _]. }
  rewrite (bind_success _ _ _ _ _ (dispatch_receipt_eq receipt tx bn bh first s Hf Hs Hr)).
  rewrite (bind_success (modify _) _ _ _ _ eq_refl).
  destruct (IH (S i) (u32 (index + Zlen (rc_logs receipt))) (next + Zlen (rc_logs receipt))
    (with_stats (count_logs (length (rc_logs receipt)) (length (filter (fun log => reached (subscriptions_ (watcher_ s)) log bn <> []) (rc_logs receipt))))
      (after_calls (concat (map (event_deliveries (live s)) (imap (fun j log => mkEvent log bn bh tx (u32 (first + Z.of_nat j))) (rc_logs receipt)))) (stats_ s) s)))
    as [st Hst].
  - subst. unfold u32. by rewrite Zplus_mod_idemp_l.
  - done.
  - by destruct Hs.
  - done.
  - exists st. rewrite Hst. unfold after_calls, with_stats. cbn -[block_events event_deliveries]. rewrite map_app, concat_app, app_assoc.
    do 4 f_equal. apply (f_equal (fun l => concat (map (event_deliveries (live s)) l))). apply imap_ext. intros j x _. cbn. f_equal.
    unfold first. destruct (log_indices !! i) as [[|y l]|]; subst; unfold u32; by rewrite ?Zplus_mod_idemp_l.
Qed.

Lemma process_receipts_eq receipts tx_hashes bn bh log_indices s :
  Forall (Forall (in_width 32)) log_indices -> synced_subscriptions s ->
  Forall (fun r => Forall (log_safe (sv_subscriptions s)) (rc_logs r)) receipts ->
  exists st, process_receipts keccak256 receipts tx_hashes bn bh log_indices s =
    (success tt, after_calls (concat (map (event_deliveries (live s)) (block_events 0 (combine receipts tx_hashes) 0 bn bh log_indices))) st s).
Proof.
  intros Hli Hs Hl. unfold process_receipts. rewrite (bind_success (modify _) _ _ _ _ eq_refl).
  destruct (receipts_loop_eq bn bh log_indices (combine receipts tx_hashes) 0 0 0
    (with_stats (count_processed (length (combine receipts tx_hashes))) s)) as [st Hst]; [done|done|by destruct Hs| |by exists st].
  apply Forall_forall. intros [r tx] Hin. apply list_elem_of_In, in_combine_l, list_elem_of_In in Hin.
  by apply (proj1 (Forall_forall _ _) Hl).
Qed.
End deliveries.

(** ** Requests for receipts *)

(** The tracker's history, oldest first: one request was sent for each block. *)
Definition request_message (req_id : Z) (block_hash : list byte) : Z * list byte :=
  (kGetReceiptsMessageId, rlp_request rlp_hashes (mkRequest (Some req_id) [block_hash])).

Definition requests_of (hist : list (list byte * Z)) : list (Z * list byte) :=
  imap (fun j block => request_message (u64 (Z.of_nat j + 1)) block.1) (reverse hist).

(** What was sent, what is pending and what was counted, for the blocks [hist]
    that the tracker accepted, newest first. *)
Record requests_ok {CB} (hist : list (list byte * Z)) (s : EthWatchService CB) : Prop := {
  rq_tracker : tracks kDefaultWindowSize hist (chain_tracker_ s);
  rq_hashes : Forall (fun b => is_hash b.1) hist;
  rq_sent : sv_sent s = requests_of hist;
  rq_next : next_req_id_ s = u64 (Zlen hist + 1);
  rq_count : receipts_requested (stats_ s) = u64 (Zlen hist);
  rq_pending id p : pending_requests_ s !! id = Some p ->
    exists j, reverse hist !! j = Some (pr_block_hash p, pr_block_number p) /\ id = u64 (Z.of_nat j + 1)
}.

Lemma hash_request_sendable req_id h :
  in_width 64 req_id -> is_hash h -> sendable (Forall is_hash) rlp_hashes (mkRequest (Some req_id) [h]).
Proof.
  intros Hr Hh. split; [split; [done|by constructor]|]. split; [by eexists|].
  unfold rlp_request, rlp_enveloped. cbn [request_id request_payload].
  assert (length (rlp_uint req_id) <= 41)%nat as H1.
  { unfold in_width in Hr. unfold rlp_uint. pose proof (nbytes_u256 req_id ltac:(lia)). pose proof (rlp_string_length_le (be_min req_id)) as Hl.
    rewrite length_be_min in Hl. lia. }
  assert (length (rlp_hashes [h]) <= 50)%nat as H2.
  { unfold rlp_hashes. cbn [map concat]. rewrite app_nil_r. unfold is_hash, kHashSize in Hh.
    pose proof (rlp_string_length_le h ltac:(lia)). pose proof (rlp_list_length_le (rlp_string h) ltac:(lia)). lia. }
  match goal with |- Zlen (rlp_list ?p) < _ => pose proof (rlp_list_length_le p) as H3; assert (length p <= 91)%nat by (rewrite length_app; lia) end.
  lia.
Qed.

Lemma encode_request_eq req_id h : in_width 64 req_id -> is_hash h ->
  encode_get_receipts (mkRequest (Some req_id) [h]) = success (request_message req_id h).2 /\
  decode_get_receipts (request_message req_id h).2 = success (mkRequest (Some req_id) [h]).
Proof. intros Hr Hh. apply get_receipts_roundtrips. by apply hash_request_sendable. Qed.

Lemma requests_of_cons h n hist :
  requests_of ((h, n) :: hist) = requests_of hist ++ [request_message (u64 (Zlen hist + 1)) h].
Proof. unfold requests_of. rewrite reverse_cons, imap_app. cbn [imap]. by rewrite length_reverse, Nat.add_0_r. Qed.

Section requests.
Context {CB : Type}.
Notation Svc := (EthWatchService CB).

(** The state after a request: what [requests_ok] does not speak of is as before. *)
Definition after_request (t : ChainTracker) (next : Z) (pending : gmap Z PendingRequest) (sent : list (Z * list byte)) (s : Svc) : Svc :=
  mkService (send_cb_ s) t (watcher_ s) (sv_subscriptions s) (sv_next_id s) next (count_request (stats_ s))
    (eth_message_schemas_ s) pending sent (sv_calls s).

Lemma request_receipts_eq h n hist (s : Svc) : requests_ok hist s -> is_hash h ->
  exists t', mark_seen h n (chain_tracker_ s) = (success (bool_decide (h ∉ recent kDefaultWindowSize hist)), t') /\
  tracks kDefaultWindowSize (if bool_decide (h ∉ recent kDefaultWindowSize hist) then (h, n) :: hist else hist) t' /\
  request_receipts h n s =
    (success tt,
     if negb (send_cb_ s) then s else
     if bool_decide (h ∉ recent kDefaultWindowSize hist) then
       after_request t' (u64 (next_req_id_ s + 1)) (<[next_req_id_ s := mkPending h n]> (pending_requests_ s))
         (sv_sent s ++ [request_message (next_req_id_ s) h]) s
     else with_tracker t' s).
Proof.
  intros [Htr Hh Hsent Hnext Hcount Hp] Hhash. destruct (mark_seen_tracks _ _ _ h n Htr) as (t' & Em & Ht'). exists t'.
  split; [done|]. split; [done|]. unfold request_receipts. rewrite (bind_success get_state _ _ _ _ eq_refl).
  destruct (send_cb_ s) eqn:Es; cbn [negb]; [|done].
  assert (tracker_mark_seen h n s = (success (bool_decide (h ∉ recent kDefaultWindowSize hist)), with_tracker t' s)) as E1
    by (unfold tracker_mark_seen; by rewrite Em).
  rewrite (bind_success _ _ _ _ _ E1). destruct (bool_decide _); cbn [negb]; [|done].
  rewrite (bind_success take_req_id _ _ _ _ eq_refl). cbn [next_req_id_ with_tracker].
  assert (in_width 64 (next_req_id_ s)) as Hw by (rewrite Hnext; apply Z.mod_pos_bound; lia).
  rewrite (proj1 (encode_request_eq _ h Hw Hhash)). done.
Qed.

Lemma requests_ok_request h n hist (s : Svc) : requests_ok hist s -> is_hash h ->
  exists hist', requests_ok hist' (request_receipts h n s).2.
Proof.
  intros Hok Hhash. destruct (request_receipts_eq h n hist s Hok Hhash) as (t' & _ & Ht' & ->). cbn [snd].
  destruct (negb (send_cb_ s)); [by exists hist|]. destruct Hok. case_bool_decide as Hf; [|by exists hist].
  exists ((h, n) :: hist). split; cbn [chain_tracker_ after_request sv_sent next_req_id_ stats_ pending_requests_ receipts_requested count_request length pr_block_hash pr_block_number].
  - done.
  - by constructor.
  - by rewrite requests_of_cons, rq_sent0, rq_next0.
  - rewrite rq_next0. unfold u64. rewrite Zplus_mod_idemp_l. f_equal. lia.
  - rewrite rq_count0. unfold u64. rewrite Zplus_mod_idemp_l. f_equal. lia.
  - intros id p. rewrite lookup_insert_Some. intros [[<- <-]|[Hne Hp]].
    + exists (length hist). cbn [pr_block_hash pr_block_number]. rewrite reverse_cons, lookup_app_r, length_reverse, Nat.sub_diag by (rewrite length_reverse; lia).
      split; [done|]. by rewrite rq_next0.
    + destruct (rq_pending0 id p Hp) as (j & Hj & ->). exists j. split; [|done]. rewrite reverse_cons. by apply lookup_app_l_Some.
Qed.
End requests.

(** ** The invariant of the service *)

(** Every log seen was matched or discarded. *)
Definition logs_counted (st : WatchStats) : Prop := logs_seen st = u64 (matched_logs st + discarded_logs st).

Section invariant.
Context {CB : Type} (keccak256 : list byte -> list byte).
Notation Svc := (EthWatchService CB).
Notation Service := (M Svc Empty_set).

Record service_ok (k : Z) (s : Svc) : Prop := {
  so_ids : ids_from k (watcher_ s);
  so_synced : synced_subscriptions s;
  so_logs : logs_counted (stats_ s);
  so_requests : exists hist, requests_ok hist s
}.

(** Steps that only call callbacks, count and answer pending requests. *)
Record answers (s s' : Svc) : Prop := {
  an_send : send_cb_ s' = send_cb_ s;
  an_tracker : chain_tracker_ s' = chain_tracker_ s;
  an_watcher : watcher_ s' = watcher_ s;
  an_subs : sv_subscriptions s' = sv_subscriptions s;
  an_next : sv_next_id s' = sv_next_id s;
  an_req : next_req_id_ s' = next_req_id_ s;
  an_requested : receipts_requested (stats_ s') = receipts_requested (stats_ s);
  an_logs : logs_counted (stats_ s) -> logs_counted (stats_ s');
  an_schemas : eth_message_schemas_ s' = eth_message_schemas_ s;
  an_pending : pending_requests_ s' ⊆ pending_requests_ s;
  an_sent : sv_sent s' = sv_sent s;
  an_calls : sv_calls s `prefix_of` sv_calls s'
}.

#[global] Instance answers_preorder : PreOrder answers.
Proof.
  split; [by intros s; split|]. intros s1 s2 s3 [] []. split; try (etrans; eassumption); auto.
Qed.

Definition answering {A} (m : Service A) : Prop := forall s, answers s (m s).2.

Lemma answering_ret {A} (a : A) : answering (mret a).
Proof. by intros s. Qed.

Lemma answering_bind {A B} (m : Service A) (f : A -> Service B) : answering m -> (forall a, answering (f a)) -> answering (m ≫= f).
Proof.
  intros Hm Hf s. specialize (Hm s). unfold mbind, M_bind. destruct (m s) as [[a|e|x] s1]; [|done|done].
  etrans; [done|]. apply Hf.
Qed.

Lemma answering_get {A} (f : Svc -> Service A) : (forall s, answers s (f s s).2) -> answering (get_state ≫= f).
Proof. intros Hf s. apply Hf. Qed.

Lemma answering_for_each {A} (f : A -> Service unit) l : (forall a, answering (f a)) -> answering (for_each f l).
Proof. intros Hf. induction l; [apply answering_ret|]. by apply answering_bind. Qed.

Lemma answering_stats f :
  (forall st, receipts_requested (f st) = receipts_requested st) -> (forall st, logs_counted st -> logs_counted (f st)) ->
  answering (modify (with_stats f)).
Proof. intros H1 H2 s. split; cbn; auto. Qed.

Lemma logs_counted_add (n m : nat) st : logs_counted st -> logs_counted (count_logs n m st).
Proof.
  unfold logs_counted, count_logs. cbn. intros ->. unfold u64. rewrite !Zplus_mod_idemp_l, Zplus_mod_idemp_r, Z.add_assoc, Zplus_mod_idemp_r. f_equal. lia.
Qed.

Lemma watcher_callback_answers c : answering (watcher_callback keccak256 c).
Proof.
  apply answering_get. intros s. destruct (find_subscription _ _) as [sub|]; [|done]. destruct (decode_log _ _ _ _) as [v|e|f]; [|done|done].
  split; cbn; auto. by apply prefix_app_r.
Qed.

Lemma dispatch_receipt_answers r tx bn bh first : answering (dispatch_receipt keccak256 r tx bn bh first).
Proof.
  apply answering_get. intros s. destruct (process_receipt _ _ _ _ _ _) as [n calls].
  apply answering_bind; [|intros; apply answering_ret]. apply answering_for_each. apply watcher_callback_answers.
Qed.

Lemma receipts_loop_answers items : forall i next bn bh li, answering (receipts_loop keccak256 i items next bn bh li).
Proof.
  induction items as [|[r tx] items IH]; intros i next bn bh li; [apply answering_ret|]. cbn [receipts_loop].
  apply answering_bind; [apply dispatch_receipt_answers|]. intros n. apply answering_bind; [|by intros].
  apply answering_stats; [done|]. intros st. apply logs_counted_add.
Qed.

Lemma process_receipts_answers rs txs bn bh li : answering (process_receipts keccak256 rs txs bn bh li).
Proof. apply answering_bind; [by apply answering_stats|]. intros _. apply receipts_loop_answers. Qed.

Lemma correlate_answers i id : answering (correlate i id).
Proof.
  intros s. unfold correlate. destruct i as [|i]; [|done]. destruct id as [id|]; [|done].
  destruct (pending_requests_ s !! id); [|done]. split; cbn; auto. apply delete_subseteq.
Qed.

Lemma blocks_loop_answers blocks : forall i id, answering (blocks_loop keccak256 i id blocks).
Proof.
  induction blocks as [|b blocks IH]; intros i id; [apply answering_ret|]. cbn [blocks_loop].
  apply answering_bind; [apply correlate_answers|]. intros block. apply answering_bind; [apply process_receipts_answers|by intros].
Qed.

(** *** What preserves the invariant *)

Lemma requests_ok_answers hist s s' : answers s s' -> requests_ok hist s -> requests_ok hist s'.
Proof.
  intros [] []. split; try congruence. intros id p Hp. apply rq_pending0. by eapply lookup_weaken.
Qed.

Lemma service_ok_answers k s s' : answers s s' -> service_ok k s -> service_ok k s'.
Proof.
  intros Ha [Hi Hs Hl [hist Hr]]. pose proof (requests_ok_answers hist _ _ Ha Hr). destruct Ha, Hs. split.
  - by rewrite an_watcher0.
  - split; rewrite ?an_watcher0, ?an_subs0, ?an_next0; done.
  - auto.
  - by exists hist.
Qed.

Definition keeps_ok {A} (m : Service A) : Prop := forall k s, service_ok k s -> service_ok k (m s).2.

Lemma keeps_answering {A} (m : Service A) : answering m -> keeps_ok m.
Proof. intros Hm k s. by apply service_ok_answers. Qed.

Lemma keeps_ok_bind {A B} (m : Service A) (f : A -> Service B) : keeps_ok m -> (forall a, keeps_ok (f a)) -> keeps_ok (m ≫= f).
Proof.
  intros Hm Hf k s Hs. specialize (Hm k s Hs). unfold mbind, M_bind. destruct (m s) as [[a|e|x] s1]; [|done|done]. by apply Hf.
Qed.

Lemma keeps_ok_for_each {A} (f : A -> Service unit) (P : A -> Prop) l :
  (forall a, P a -> keeps_ok (f a)) -> Forall P l -> keeps_ok (for_each f l).
Proof. intros Hf. induction 1; [by intros k s|]. apply keeps_ok_bind; [by apply Hf|by intros]. Qed.

Lemma keeps_request h n : is_hash h -> keeps_ok (request_receipts h n).
Proof.
  intros Hh k s [Hi Hs Hl [hist Hr]]. pose proof (requests_ok_request h n hist s Hr Hh) as Hr'.
  destruct (request_receipts_eq h n hist s Hr Hh) as (t' & _ & _ & E). rewrite E in Hr' |- *. cbn [snd] in *.
  destruct Hs. split; [| | |done]; destruct (negb (send_cb_ s)); try done; destruct (bool_decide _); done.
Qed.

Lemma if_decoded_keeps {E A} (P : A -> Prop) (r : outcome E A) (f : A -> Service unit) :
  result_ok P r -> (forall a, P a -> keeps_ok (f a)) -> keeps_ok (if_decoded r f).
Proof.
  intros Hr Hf. destruct r as [a|e|x]; [by apply Hf| |done]. apply keeps_answering. by apply answering_stats.
Qed.

Lemma zero_hash_is_hash : is_hash zero_hash.
Proof. done. Qed.

Lemma process_message_keeps id payload : fits payload -> keeps_ok (process_message keccak256 id payload).
Proof.
  intros Hf. apply keeps_ok_bind; [apply keeps_answering; by apply answering_stats|]. intros _ k s Hs.
  rewrite (bind_success get_state _ _ _ _ eq_refl). revert k s Hs. 
  assert (forall schemas, keeps_ok (
    if id =? kNewBlockHashesMessageId then
      modify (with_stats count_new_block_hashes) ;;
      if_decoded (decode_new_block_hashes payload) (for_each (fun entry => request_receipts (nbh_hash entry) (nbh_number entry)))
    else if id =? kNewBlockMessageId then
      modify (with_stats count_new_block) ;; if_decoded (decode_new_block payload) (fun msg => process_new_block msg zero_hash)
    else if id =? kReceiptsMessageId then
      modify (with_stats count_receipts) ;;
      if_decoded (if bool_decide (length schemas = 0%nat) then decode_receipts payload else decode_receipts_with payload schemas)
        (fun msg => blocks_loop keccak256 0 (request_id msg) (request_payload msg))
    else mret tt : Service unit)) as Hall.
  { intros schemas. destruct (id =? kNewBlockHashesMessageId).
    { apply keeps_ok_bind; [apply keeps_answering; by apply answering_stats|]. intros _.
      eapply if_decoded_keeps; [by apply decode_new_block_hashes_ok|]. intros l Hl.
      eapply keeps_ok_for_each; [|exact Hl]. intros e []. by apply keeps_request. }
    destruct (id =? kNewBlockMessageId).
    { apply keeps_ok_bind; [apply keeps_answering; by apply answering_stats|]. intros _.
      eapply if_decoded_keeps; [by apply decode_new_block_ok|]. intros msg _. apply keeps_request, zero_hash_is_hash. }
    destruct (id =? kReceiptsMessageId); [|by intros k s].
    apply keeps_ok_bind; [apply keeps_answering; by apply answering_stats|]. intros _.
    eapply if_decoded_keeps; [|intros msg _; apply keeps_answering, blocks_loop_answers].
    case_bool_decide; [apply request_ok; [apply safe_receipts_payload|done]|by apply decode_receipts_with_ok]. }
  intros k s Hs. apply Hall, Hs.
Qed.
End invariant.

(** ** Sequences of calls *)

Inductive service_op (CB : Type) :=
  | SetSendCallback (set : bool)
  | SetSchemas (schemas : list EthMessageSchema)
  | WatchEvent (contract : list byte) (signature : string) (params : list AbiParam) (callback : CB) (from to : option Z)
  | UnwatchEvent (id : Z)
  | RequestReceipts (block_hash : list byte) (block_number : Z)
  | ProcessNewBlock (msg : NewBlockMessage) (block_hash : list byte)
  | ProcessReceipts (receipts : list Receipt) (tx_hashes : list (list byte)) (block_number : Z) (block_hash : list byte) (log_indices : list (list Z))
  | ProcessMessage (eth_msg_id : Z) (payload : list byte).
Arguments SetSendCallback {CB} _.
Arguments SetSchemas {CB} _.
Arguments WatchEvent {CB} _ _ _ _ _ _.
Arguments UnwatchEvent {CB} _.
Arguments RequestReceipts {CB} _ _.
Arguments ProcessNewBlock {CB} _ _.
Arguments ProcessReceipts {CB} _ _ _ _ _.
Arguments ProcessMessage {CB} _ _.

Definition run_service_op {CB} (keccak256 : list byte -> list byte) (op : service_op CB) : M (EthWatchService CB) Empty_set unit :=
  match op with
  | SetSendCallback set => modify (set_send_callback set)
  | SetSchemas schemas => modify (set_eth_message_schemas schemas)
  | WatchEvent contract signature params callback from to => watch_event keccak256 contract signature params callback from to ;; mret tt
  | UnwatchEvent id => modify (service_unwatch id)
  | RequestReceipts h n => request_receipts h n
  | ProcessNewBlock msg h => process_new_block msg h
  | ProcessReceipts rs txs bn bh li => process_receipts keccak256 rs txs bn bh li
  | ProcessMessage id payload => process_message keccak256 id payload
  end.

(** Hashes are 32 bytes and payloads fit in memory. *)
Definition service_op_ok {CB} (op : service_op CB) : Prop :=
  match op with
  | RequestReceipts h _ | ProcessNewBlock _ h => is_hash h
  | ProcessMessage _ payload => fits payload
  | _ => True
  end.

Definition is_watch {CB} (op : service_op CB) : Z := match op with WatchEvent _ _ _ _ _ _ => 1 | _ => 0 end.
Fixpoint watch_count {CB} (ops : list (service_op CB)) : Z :=
  match ops with [] => 0 | op :: ops' => is_watch op + watch_count ops' end.

Lemma watch_count_nonneg {CB} (ops : list (service_op CB)) : 0 <= watch_count ops.
Proof. induction ops as [|[] ops IH]; cbn; lia. Qed.

Lemma synced_watch {CB} k f (s : EthWatchService CB) sub :
  0 <= k < 2 ^ 32 -> ids_from k (watcher_ s) -> synced_subscriptions s -> ws_id sub = sv_next_id s ->
  synced_subscriptions (with_subscriptions (watch f (sv_next_id s) (watcher_ s)).2 (sv_subscriptions s ++ [sub]) (u32 (sv_next_id s + 1)) s).
Proof.
  intros Hk Hi [Hn Hs Hnd] Hid. split; cbn.
  - by rewrite Hn.
  - apply Forall2_app; [done|]. constructor; [|constructor]. cbn. by rewrite Hid, Hn.
  - rewrite map_app. apply NoDup_app. split; [done|]. split; [|apply NoDup_singleton].
    intros x Hx Ex%list_elem_of_singleton. subst x. cbn in Hx. apply list_elem_of_fmap in Hx as (y & Ey & Hy).
    apply list_elem_of_lookup in Hy as [i Hy]. destruct (Forall2_lookup_l _ _ _ _ _ Hs Hy) as (w & Hw & Ew & _).
    apply (ids_next_fresh k _ w Hk Hi); [by apply list_elem_of_lookup_2 in Hw|]. by rewrite Ew, <- Ey, Hid, Hn.
Qed.

Lemma synced_unwatch {CB} id (s : EthWatchService CB) : synced_subscriptions s -> synced_subscriptions (service_unwatch id s).
Proof.
  intros [Hn Hs Hnd]. split; cbn; [done| |].
  - clear Hnd. induction Hs as [|sub w subs ws [Hi Hc] Hs IH]; [constructor|]. rewrite !filter_cons.
    rewrite Hi. case_decide; [by constructor|done].
  - eapply sublist_NoDup; [apply Hnd|]. apply (fmap_sublist ws_id), sublist_filter.
Qed.

Lemma run_op_ok {CB} keccak256 (op : service_op CB) k s :
  0 <= k -> k + is_watch op < 2 ^ 32 -> service_op_ok op -> service_ok k s ->
  service_ok (k + is_watch op) (run_service_op keccak256 op s).2.
Proof.
  intros Hk0 Hk Hop Hs. destruct op as [| |contract signature params callback from to|id|h n|msg h|rs txs bn bh li|id payload];
    cbn [is_watch] in *; rewrite ?Z.add_0_r in *; cbn [run_service_op service_op_ok] in *.
  - destruct Hs as [Hi [] Hl [hist []]]. by split; [| | |exists hist].
  - destruct Hs as [Hi [] Hl [hist []]]. by split; [| | |exists hist].
  - destruct Hs as [Hi Hsy Hl [hist Hr]]. unfold watch_event, mbind, M_bind. 
    set (f := make_event_filter _ _ _ _ _). pose proof (synced_watch k f s (mkWatchSub (sv_next_id s) signature params callback) ltac:(lia) Hi Hsy eq_refl) as Hsy'.
    pose proof (ids_watch k f (sv_next_id s) _ Hk0 Hk Hi) as Hi'. destruct (watch f (sv_next_id s) (watcher_ s)) as [id w].
    split; [done|done|done|]. exists hist. by destruct Hr.
  - destruct Hs as [Hi Hsy Hl [hist Hr]]. split; [by apply ids_unwatch|by apply synced_unwatch|done|]. exists hist. by destruct Hr.
  - by apply keeps_request.
  - by apply keeps_request.
  - by apply keeps_answering; [apply process_receipts_answers|].
  - by apply process_message_keeps.
Qed.

Lemma run_ops_ok {CB} keccak256 (ops : list (service_op CB)) : forall k s,
  0 <= k -> k + watch_count ops < 2 ^ 32 -> Forall service_op_ok ops -> service_ok k s ->
  exists k', service_ok k' (for_each (run_service_op keccak256) ops s).2.
Proof.
  induction ops as [|op ops IH]; intros k s Hk0 Hk Hops Hs; [by exists k|]. cbn [for_each watch_count] in *.
  apply Forall_cons in Hops as [Hop Hops]. pose proof (watch_count_nonneg ops).
  assert (service_ok (k + is_watch op) (run_service_op keccak256 op s).2) as Hs'.
  { apply run_op_ok; try done. destruct op; cbn in *; lia. }
  unfold mbind, M_bind. destruct (run_service_op keccak256 op s) as [[[]|e|f] s1]; [|eexists; exact Hs'|eexists; exact Hs'].
  apply (IH (k + is_watch op)); [destruct op; cbn in *; lia|lia|done|done].
Qed.

Lemma new_service_ok {CB} : service_ok 0 (EthWatchService_new (CB := CB)).
Proof.
  split.
  - split; [done|by intros s ?%elem_of_nil|constructor].
  - split; [done|constructor|constructor].
  - done.
  - exists []. split; try done. apply (tracks_initial 1024). lia.
Qed.

(** ** From the announcement to the callbacks *)

Lemma new_block_hash_fits e : wf_new_block_hash e -> Zlen (rlp_seq rlp_new_block_hash [e]) < 2 ^ 64.
Proof.
  intros [Hh Hn]. unfold rlp_seq, rlp_new_block_hash. cbn [map concat]. rewrite app_nil_r.
  assert (length (rlp_uint (nbh_number e)) <= 41)%nat as H1.
  { unfold in_width in Hn. unfold rlp_uint. pose proof (nbytes_u256 (nbh_number e) ltac:(lia)). pose proof (rlp_string_length_le (be_min (nbh_number e))) as Hl.
    rewrite length_be_min in Hl. lia. }
  assert (length (rlp_string (nbh_hash e)) <= 41)%nat as H2.
  { unfold is_hash, kHashSize in Hh. pose proof (rlp_string_length_le (nbh_hash e) ltac:(lia)). lia. }
  set (p := _ ++ _). assert (length p <= 82)%nat as H3 by (unfold p; rewrite length_app; lia).
  pose proof (rlp_list_length_le p ltac:(lia)). pose proof (rlp_list_length_le (rlp_list p) ltac:(lia)). lia.
Qed.

(** A NewBlockHashes message is a request for each entry. *)
Lemma process_new_block_hashes_eq {CB} keccak256 (s : EthWatchService CB) entries payload :
  decode_new_block_hashes payload = success entries ->
  process_message keccak256 kNewBlockHashesMessageId payload s =
    for_each (fun e => request_receipts (nbh_hash e) (nbh_number e)) entries
      (with_stats (fun st => count_new_block_hashes (count_message st)) s).
Proof.
  intros E. unfold process_message. rewrite (bind_success (modify _) _ _ _ _ eq_refl), (bind_success get_state _ _ _ _ eq_refl).
  cbn [kNewBlockHashesMessageId Z.eqb Pos.eqb]. rewrite (bind_success (modify _) _ _ _ _ eq_refl), E. done.
Qed.

(** A Receipts message for a pending request. *)
Lemma process_response_eq {CB} keccak256 (s : EthWatchService CB) id p receipts payload :
  decode_receipts payload = success (mkRequest (Some id) [receipts]) -> eth_message_schemas_ s = [] ->
  pending_requests_ s !! id = Some p -> synced_subscriptions s ->
  Forall (fun r => Forall (log_safe keccak256 (sv_subscriptions s)) (rc_logs r)) receipts ->
  exists st, process_message keccak256 kReceiptsMessageId payload s =
    (success tt, after_calls
      (concat (map (event_deliveries keccak256 (live s))
        (block_events 0 (combine receipts (replicate (length receipts) zero_hash)) 0 (pr_block_number p) (pr_block_hash p) []))) st
      (with_request (next_req_id_ s) (delete id (pending_requests_ s)) (sv_sent s) s)).
Proof.
  intros E Hsch Hp Hsy Hsafe. unfold process_message. rewrite (bind_success (modify _) _ _ _ _ eq_refl), (bind_success get_state _ _ _ _ eq_refl).
  cbn [kReceiptsMessageId kNewBlockHashesMessageId kNewBlockMessageId Z.eqb Pos.eqb eth_message_schemas_ with_stats].
  rewrite (bind_success (modify _) _ _ _ _ eq_refl), Hsch. rewrite bool_decide_eq_true_2 by done. rewrite E. cbn [if_decoded request_id request_payload blocks_loop].
  set (s0 := with_stats _ _).
  assert (correlate 0 (Some id) s0 = (success (pr_block_hash p, pr_block_number p),
    with_request (next_req_id_ s0) (delete id (pending_requests_ s0)) (sv_sent s0) s0)) as Ec
    by (unfold correlate; cbn [pending_requests_ s0 with_stats]; by rewrite Hp).
  rewrite (bind_success _ _ _ _ _ Ec). cbn [fst snd].
  destruct (process_receipts_eq keccak256 receipts (replicate (length receipts) zero_hash) (pr_block_number p) (pr_block_hash p) []
    (with_request (next_req_id_ s0) (delete id (pending_requests_ s0)) (sv_sent s0) s0)) as [st Est]; [constructor|by destruct Hsy|done|].
  exists st. by rewrite (bind_success _ _ _ _ _ Est).
Qed.

(** ** The theorems *)

(** C29: Whatever the sequence of calls and whatever the peer sends, and also
    when the ABI decoder faults on the way: as long as fewer than 2^32 watches
    are registered, the service and its event watcher hold the same
    subscriptions under the same distinct ids; every log seen was matched or
    discarded; and what was sent is exactly one GetReceipts request per block
    the chain tracker accepted, in this order and numbered from 1, of which the
    pending requests are a part. *)
Theorem service_invariant {CB} (keccak256 : list byte -> list byte) (ops : list (service_op CB)) :
  watch_count ops < 2 ^ 32 -> Forall service_op_ok ops ->
  let s := (for_each (run_service_op keccak256) ops EthWatchService_new).2 in
  map ws_id (sv_subscriptions s) = map sub_id (subscriptions_ (watcher_ s)) /\ NoDup (map ws_id (sv_subscriptions s)) /\
  logs_counted (stats_ s) /\
  exists hist, tracks kDefaultWindowSize hist (chain_tracker_ s) /\
    sv_sent s = requests_of hist /\ receipts_requested (stats_ s) = u64 (Zlen hist) /\
    forall id p, pending_requests_ s !! id = Some p ->
      exists j, reverse hist !! j = Some (pr_block_hash p, pr_block_number p) /\ id = u64 (Z.of_nat j + 1).
Proof.
  intros Hc Hops s. destruct (run_ops_ok keccak256 ops 0 EthWatchService_new ltac:(lia) Hc Hops new_service_ok) as (k & Hs).
  fold s in Hs. destruct Hs as [_ [_ Hs Hnd] Hl [hist []]]. split; [|split; [done|split; [done|by exists hist]]].
  clear Hnd. induction Hs as [|sub w subs ws [Hi _] _ IH]; [done|]. cbn. by rewrite Hi, IH.
Qed.

(** [process_receipts] calls the user's callbacks exactly for the logs of
    the block in order, and for each log for the subscriptions in order of
    registration whose filter accepts it and whose parameters decode it, with
    the decoded values and the block, transaction and log index of the event;
    a receipt's logs are numbered from its given index, or through the block. *)
Theorem receipts_delivered {CB} (keccak256 : list byte -> list byte) (s : EthWatchService CB) k receipts tx_hashes
    block_number block_hash log_indices :
  service_ok k s -> Forall (Forall (in_width 32)) log_indices ->
  Forall (fun r => Forall (log_safe keccak256 (sv_subscriptions s)) (rc_logs r)) receipts ->
  let r := process_receipts keccak256 receipts tx_hashes block_number block_hash log_indices s in
  r.1 = success tt /\
  sv_calls r.2 = sv_calls s ++
    concat (map (event_deliveries keccak256 (live s))
      (block_events 0 (combine receipts tx_hashes) 0 block_number block_hash log_indices)).
Proof.
  intros Hs Hli Hsafe r. destruct (process_receipts_eq keccak256 receipts tx_hashes block_number block_hash log_indices s Hli (so_synced _ _ Hs) Hsafe) as [st E].
  unfold r. by rewrite E.
Qed.

(** From the announcement of a block to the callbacks: a service that hears
    of a new block by a NewBlockHashes message sends a GetReceipts request that
    the peer decodes to the hash of this block, and processes the peer's
    encoded answer as the receipts of this block, with its number and hash, and
    the request is then no longer pending. *)
Theorem announced_block_delivered {CB} (keccak256 : list byte -> list byte) (s : EthWatchService CB) k h number receipts :
  let req_id := next_req_id_ s in
  let reply := mkRequest (Some req_id) [receipts] in
  service_ok k s -> send_cb_ s = true -> eth_message_schemas_ s = [] -> pending_requests_ s !! req_id = None ->
  wf_new_block_hash (mkNewBlockHashEntry h number) -> is_seen h (chain_tracker_ s) = false ->
  sendable (Forall (Forall wf_rc)) (rlp_seq (rlp_seq rlp_receipt)) reply ->
  Forall (fun r => Forall (log_safe keccak256 (sv_subscriptions s)) (rc_logs r)) receipts ->
  exists announcement request answer s1 s2,
    encode_new_block_hashes [mkNewBlockHashEntry h number] = success announcement /\
    process_message keccak256 kNewBlockHashesMessageId announcement s = (success tt, s1) /\
    sv_sent s1 = sv_sent s ++ [(kGetReceiptsMessageId, request)] /\ sv_calls s1 = sv_calls s /\
    encode_get_receipts (mkRequest (Some req_id) [h]) = success request /\
    decode_get_receipts request = success (mkRequest (Some req_id) [h]) /\
    encode_receipts reply = success answer /\
    process_message keccak256 kReceiptsMessageId answer s1 = (success tt, s2) /\
    pending_requests_ s2 = pending_requests_ s /\ sv_sent s2 = sv_sent s1 /\
    sv_calls s2 = sv_calls s ++
      concat (map (event_deliveries keccak256 (live s))
        (block_events 0 (combine receipts (replicate (length receipts) zero_hash)) 0 number h [])).
Proof.
  intros req_id reply [_ Hsy _ [hist Hr]] Hcb Hsch Hnone Hwf Hseen Hreply Hsafe.
  destruct (new_block_hashes_wire [mkNewBlockHashEntry h number]) as [He Hd]; [by constructor|by apply new_block_hash_fits|].
  destruct (receipts_roundtrips reply Hreply) as [He' Hd']. set (s0 := with_stats (fun st => count_new_block_hashes (count_message st)) s).
  assert (requests_ok hist s0) as Hr0 by (eapply requests_ok_answers; [|exact Hr]; by apply (answering_stats (fun st => count_new_block_hashes (count_message st)))).
  destruct Hwf as [Hh Hn]. cbn in Hh, Hn. destruct (request_receipts_eq h number hist s0 Hr0 Hh) as (t' & _ & _ & Erq).
  rewrite bool_decide_eq_true_2 in Erq.
  2:{ destruct Hr as [[] _ _ _ _ _]. unfold is_seen in Hseen. apply bool_decide_eq_false in Hseen. by rewrite tr_set, elem_of_list_to_set in Hseen. }
  cbn [send_cb_ s0 with_stats] in Erq. rewrite Hcb in Erq. cbn [negb] in Erq.
  match type of Erq with _ = (_, ?x) => set (s1 := x) in Erq end.
  assert (in_width 64 req_id) as Hid by (unfold req_id; rewrite (rq_next _ _ Hr); apply Z.mod_pos_bound; lia).
  destruct (process_response_eq keccak256 s1 req_id (mkPending h number) receipts _ Hd') as [st E2].
  { done. } { cbn. apply lookup_insert_eq. } { by destruct Hsy. } { done. }
  eexists _, _, _, s1, _. split; [exact He|]. split.
  { rewrite (process_new_block_hashes_eq _ _ _ _ Hd). cbn [for_each nbh_hash nbh_number]. by rewrite (bind_success _ _ _ _ _ Erq). }
  split; [done|]. split; [done|]. split; [apply (encode_request_eq req_id h Hid Hh)|]. split; [apply (encode_request_eq req_id h Hid Hh)|]. split; [exact He'|]. split; [exact E2|]. split; [|done].
  cbn. by apply delete_insert_id.
Qed.

(** The hash on which [NewBlock] messages ask for receipts is all zero: once it
    is in the tracker's window a [NewBlock] message asks for nothing. *)
Theorem new_block_asks_once {CB} (keccak256 : list byte -> list byte) (s : EthWatchService CB) k msg payload :
  service_ok k s -> decode_new_block payload = success msg -> is_seen zero_hash (chain_tracker_ s) = true ->
  let r := process_message keccak256 kNewBlockMessageId payload s in
  r.1 = success tt /\ sv_sent r.2 = sv_sent s /\ pending_requests_ r.2 = pending_requests_ s.
Proof.
  intros [_ _ _ [hist Hr]] Hd Hseen. unfold process_message.
  rewrite (bind_success (modify _) _ _ _ _ eq_refl), (bind_success get_state _ _ _ _ eq_refl).
  cbn [kNewBlockMessageId kNewBlockHashesMessageId Z.eqb Pos.eqb]. rewrite (bind_success (modify _) _ _ _ _ eq_refl), Hd.
  cbn [if_decoded]. unfold process_new_block. set (s0 := with_stats _ (with_stats _ s)).
  assert (requests_ok hist s0) as Hr0.
  { eapply requests_ok_answers; [|exact Hr]. change s0 with (modify (with_stats (fun st => count_new_block (count_message st))) s).2.
    by apply answering_stats. }
  destruct (request_receipts_eq zero_hash (bh_number (nb_header msg)) hist s0 Hr0 zero_hash_is_hash) as (t' & _ & _ & E).
  rewrite E. cbn [fst snd]. split; [done|]. destruct (negb (send_cb_ s0)); [done|]. rewrite bool_decide_eq_false_2; [done|].
  destruct Hr as [[] _ _ _ _ _]. unfold is_seen in Hseen. apply bool_decide_eq_true in Hseen.
  rewrite tr_set, elem_of_list_to_set in Hseen. tauto.
Qed.

(** A response that answers no pending request is processed nevertheless, as
    the receipts of block 0 with the zero hash. *)
Theorem unsolicited_receipts_processed {CB} (keccak256 : list byte -> list byte) (s : EthWatchService CB) id receipts :
  pending_requests_ s !! id = None ->
  blocks_loop keccak256 0 (Some id) [receipts] s =
    (process_receipts keccak256 receipts (replicate (length receipts) zero_hash) 0 zero_hash [] ;; mret tt) s.
Proof. intros Hp. cbn [blocks_loop]. unfold mbind at 1, M_bind at 1. cbn [correlate]. by rewrite Hp. Qed.

(** ** A concrete service *)

Module SampleService.
Definition keccak (m : list byte) : list byte := sample_hash.
Definition transfer : list AbiParam := [mkParam kAddress true "from"].
Definition watch_transfer : service_op nat := WatchEvent sample_address "Transfer(address)" transfer 7%nat (Some 5) None.
Definition watching : EthWatchService nat := (for_each (run_service_op keccak) [SetSendCallback true; watch_transfer] EthWatchService_new).2.

Lemma watching_ok : service_ok 1 watching.
Proof.
  change watching with (run_service_op keccak watch_transfer (run_service_op keccak (SetSendCallback true) EthWatchService_new).2).2.
  apply (run_op_ok keccak watch_transfer 0); cbn; try done. apply (run_op_ok keccak (SetSendCallback true) 0); cbn; try done. apply new_service_ok.
Qed.

Lemma sample_log_safe : log_safe keccak (sv_subscriptions watching) sample_log.
Proof. intros sub Hs. apply list_elem_of_singleton in Hs. subst sub. by vm_compute. Qed.
End SampleService.

Lemma service_invariant_witness :
  logs_counted (stats_ (for_each (run_service_op SampleService.keccak) [SampleService.watch_transfer; ProcessMessage 16 [xc0]] EthWatchService_new).2).
Proof.
  apply (service_invariant SampleService.keccak [SampleService.watch_transfer; ProcessMessage 16 [xc0]]).
  - vm_compute. reflexivity.
  - repeat constructor.
Defined.

Lemma receipts_delivered_witness :
  sv_calls (process_receipts SampleService.keccak [sample_receipt] [sample_hash] 6 sample_hash [[4]] SampleService.watching).2 =
    [(7%nat, mkEvent sample_log 6 sample_hash sample_hash 4, [AbiAddress (replicate 20 x11)])].
Proof.
  rewrite (proj2 (receipts_delivered SampleService.keccak SampleService.watching 1 [sample_receipt] [sample_hash] 6 sample_hash [[4]]
    SampleService.watching_ok ltac:(do 2 apply Forall_singleton; unfold in_width; lia) ltac:(repeat constructor; apply SampleService.sample_log_safe))).
  vm_compute. reflexivity.
Defined.

Lemma announced_block_delivered_witness :
  exists announcement s1, encode_new_block_hashes [mkNewBlockHashEntry (replicate 32 x22) 6] = success announcement /\
    process_message SampleService.keccak kNewBlockHashesMessageId announcement SampleService.watching = (success tt, s1).
Proof.
  destruct (announced_block_delivered SampleService.keccak SampleService.watching 1 (replicate 32 x22) 6 [sample_receipt] SampleService.watching_ok)
    as (announcement & request & answer & s1 & s2 & H1 & H2 & _).
  - reflexivity.
  - reflexivity.
  - reflexivity.
  - split; vm_compute; intuition congruence.
  - vm_compute. reflexivity.
  - split; [|split; [by eexists|by vm_compute]]. split; [wf_closed|]. repeat constructor. all: apply sample_receipt_wf.
  - repeat constructor; apply SampleService.sample_log_safe.
  - exists announcement, s1. split; [exact H1|exact H2].
Defined.
