(* ===== verification/ParseUtility.v ===== *)
(** * Hexadecimal and decimal text

    [include/base/parse_utility.hpp] and [src/base/parse_utility.cpp].  A
    [std::string] or [std::string_view] is the list of its characters, as
    bytes; [std::from_chars] and [std::to_chars] are the standard library's,
    for unsigned integers. *)

From S2P Require Import Prelude.

Notation text := (list byte).

(** A string literal. *)
Definition lit (s : string) : text := String.list_byte_of_string s.

(** ** The standard library's conversions *)

(** The value of a digit character in [std::from_chars]. *)
Definition digit_value (base : Z) (c : byte) : option Z :=
  let v := u8 c in
  let d := if (48 <=? v) && (v <=? 57) then Some (v - 48)
           else if (97 <=? v) && (v <=? 122) then Some (v - 87)
           else if (65 <=? v) && (v <=? 90) then Some (v - 55)
           else None in
  match d with Some x => if x <? base then Some x else None | None => None end.

(** The longest prefix of digits: its value and the text behind it. *)
Fixpoint read_digits (base acc : Z) (s : text) : Z * text :=
  match s with
  | [] => (acc, [])
  | c :: s' =>
      match digit_value base c with
      | Some d => read_digits base (acc * base + d) s'
      | None => (acc, s)
      end
  end.

(** [std::from_chars] for an unsigned type of [bits] bits: an error without
    any digit or out of range, otherwise the value and where it stopped. *)
Definition from_chars (base bits : Z) (s : text) : option (Z * text) :=
  let r := read_digits base 0 s in
  if bool_decide (length r.2 = length s) then None else
  if r.1 <? 2 ^ bits then Some r else None.

Definition kHexAlphabet : text := lit "0123456789abcdef".

Definition hex_digit (i : Z) : byte := nth (Z.to_nat i) kHexAlphabet x00.

(** [k] hexadecimal digits of [n]. *)
Fixpoint hex_digits (k : nat) (n : Z) : text :=
  match k with
  | O => []
  | S k' => hex_digits k' (n / 16) ++ [hex_digit (n mod 16)]
  end.

(** [std::to_chars] in base 16 into a buffer of [size] characters. *)
Definition to_chars_16 (size : nat) (n : Z) : option text :=
  let k := Z.to_nat (Z.log2 n / 4 + 1) in
  if bool_decide (k <= size)%nat then Some (hex_digits k n) else None.

(** ** parse_utility.cpp *)

Definition hex_nibble (c : byte) : option Z :=
  let v := u8 c in
  if (48 <=? v) && (v <=? 57) then Some (v - 48)
  else if (97 <=? v) && (v <=? 102) then Some (10 + (v - 97))
  else if (65 <=? v) && (v <=? 70) then Some (10 + (v - 65))
  else None.

Definition trim_hex_prefix (value : text) : text :=
  match value with
  | c0 :: c1 :: rest => if (u8 c0 =? 48) && ((u8 c1 =? 120) || (u8 c1 =? 88)) then rest else value
  | _ => value
  end.

(** A conversion that consumed the whole text. *)
Definition whole (r : option (Z * text)) : option Z :=
  match r with Some (v, []) => Some v | _ => None end.

Definition uint16_decimal (value : text) : option Z := whole (from_chars 10 16 value).
Definition uint64_decimal (value : text) : option Z := whole (from_chars 10 64 value).

Definition uint64_hex (value : text) : option Z :=
  let value := trim_hex_prefix value in
  if bool_decide (value = []) then None else whole (from_chars 16 64 value).

Definition uint64_hex_quantity (value : Z) : text :=
  if value =? 0 then lit "0x0" else
  match to_chars_16 16 value with
  | None => []
  | Some digits => lit "0x" ++ digits
  end.

(** The loop over the pairs of characters. *)
Fixpoint hex_pairs (value : text) : option (list byte) :=
  match value with
  | c0 :: c1 :: rest =>
      match hex_nibble c0, hex_nibble c1 with
      | Some hi, Some lo =>
          bytes ← hex_pairs rest; Some (byte_of (Z.lor (Z.shiftl hi 4) lo) :: bytes)
      | _, _ => None
      end
  | _ => Some []
  end.

Definition hex_bytes (value : text) : option (list byte) :=
  let value := trim_hex_prefix value in
  if negb (Zlen value mod 2 =? 0) then None else hex_pairs value.

(** [hex_bytes(data, size)] and [hex_array_string]. *)
Definition hex_string (data : list byte) : text :=
  lit "0x" ++ concat (map (fun b => [hex_digit (Z.shiftr (u8 b) 4); hex_digit (Z.land (u8 b) 0x0f)]) data).

Definition hex_array (n : Z) (value : text) : option (list byte) :=
  let value := trim_hex_prefix value in
  if negb (Zlen value =? n * 2) then None else hex_pairs value.

Definition ascii_lower (value : text) : text :=
  map (fun c => let v := u8 c in if (65 <=? v) && (v <=? 90) then byte_of (v - 65 + 97) else c) value.

(** ** Round trips *)

(** The sixteen digits, by computation. *)
Lemma hex_digit_cases (P : Z -> byte -> Prop) :
  Forall (fun i => P i (hex_digit i)) (map Z.of_nat (seq 0 16)) -> forall i, 0 <= i < 16 -> P i (hex_digit i).
Proof.
  intros H i Hi. rewrite Forall_forall in H. apply H. apply list_elem_of_fmap. exists (Z.to_nat i). split; [lia|].
  apply elem_of_seq. lia.
Qed.

Lemma digit_value_hex_digit i : 0 <= i < 16 -> digit_value 16 (hex_digit i) = Some i.
Proof. apply (hex_digit_cases (fun i c => digit_value 16 c = Some i)). repeat constructor. Qed.

Lemma hex_nibble_hex_digit i : 0 <= i < 16 -> hex_nibble (hex_digit i) = Some i.
Proof. apply (hex_digit_cases (fun i c => hex_nibble c = Some i)). repeat constructor. Qed.

Lemma length_hex_digits k n : length (hex_digits k n) = k.
Proof. revert n. induction k as [|k IH]; intros n; cbn; [done|]. rewrite length_app, IH. cbn. lia. Qed.

Lemma read_hex_digits k : forall n acc rest, 0 <= n < 16 ^ Z.of_nat k ->
  read_digits 16 acc (hex_digits k n ++ rest) = read_digits 16 (acc * 16 ^ Z.of_nat k + n) rest.
Proof.
  induction k as [|k IH]; intros n acc rest Hn; cbn [hex_digits].
  - change (16 ^ Z.of_nat 0) with 1 in *. cbn. f_equal. lia.
  - rewrite Nat2Z.inj_succ, Z.pow_succ_r in * by lia. rewrite <- app_assoc, IH.
    + cbn [app read_digits]. rewrite digit_value_hex_digit by (apply Z.mod_pos_bound; lia). f_equal.
      pose proof (Z.div_mod n 16 ltac:(lia)). lia.
    + split; [apply Z.div_pos; lia|apply Z.div_lt_upper_bound; lia].
Qed.

Lemma from_chars_hex_digits k n bits : (0 < k)%nat -> 0 <= n < 16 ^ Z.of_nat k -> n < 2 ^ bits ->
  from_chars 16 bits (hex_digits k n) = Some (n, []).
Proof.
  intros Hk Hn Hb. unfold from_chars. pose proof (read_hex_digits k n 0 [] Hn) as E. rewrite app_nil_r in E. rewrite E. cbn [read_digits fst snd].
  rewrite bool_decide_eq_false_2 by (rewrite length_hex_digits; cbn; lia). cbn. by rewrite (proj2 (Z.ltb_lt _ _)).
Qed.

Lemma uint64_hex_quantity_eq n : in_width 64 n -> uint64_hex (uint64_hex_quantity n) = Some n.
Proof.
  unfold in_width. intros Hn. unfold uint64_hex_quantity. destruct (Z.eqb_spec n 0) as [->|H0]; [done|].
  unfold to_chars_16. set (k := Z.to_nat (Z.log2 n / 4 + 1)).
  pose proof (Z.log2_spec n ltac:(lia)) as [Hl1 Hl2]. pose proof (Z.log2_nonneg n) as Hl0.
  assert (Z.log2 n < 64) as Hl by (apply Z.log2_lt_pow2; lia).
  assert (Z.of_nat k = Z.log2 n / 4 + 1) as Ek by (unfold k; rewrite Z2Nat.id; [done|]; pose proof (Z.div_pos (Z.log2 n) 4); lia).
  pose proof (Z.div_mod (Z.log2 n) 4 ltac:(lia)). pose proof (Z.mod_pos_bound (Z.log2 n) 4 ltac:(lia)).
  assert (n < 16 ^ Z.of_nat k) as Hk.
  { change 16 with (2 ^ 4). rewrite <- Z.pow_mul_r by lia. eapply Z.lt_le_trans; [done|]. apply Z.pow_le_mono_r; lia. }
  rewrite bool_decide_eq_true_2 by lia. unfold uint64_hex. pose proof (length_hex_digits k n) as Hlen.
  change (trim_hex_prefix (lit "0x" ++ hex_digits k n)) with (hex_digits k n).
  rewrite bool_decide_eq_false_2 by (intros E; rewrite E in Hlen; cbn in Hlen; lia).
  by rewrite from_chars_hex_digits by lia.
Qed.

Lemma nibbles_byte b : byte_of (Z.lor (Z.shiftl (Z.shiftr (u8 b) 4) 4) (Z.land (u8 b) 0x0f)) = b.
Proof. by destruct b. Qed.

Lemma nibbles_range b : 0 <= Z.shiftr (u8 b) 4 < 16 /\ 0 <= Z.land (u8 b) 0x0f < 16.
Proof. destruct b; vm_compute; intuition congruence. Qed.

Lemma hex_pairs_string data :
  hex_pairs (concat (map (fun b => [hex_digit (Z.shiftr (u8 b) 4); hex_digit (Z.land (u8 b) 0x0f)]) data)) = Some data.
Proof.
  induction data as [|b data IH]; [done|]. cbn [map concat app hex_pairs]. destruct (nibbles_range b).
  rewrite !hex_nibble_hex_digit by done. rewrite IH. cbn. by rewrite nibbles_byte.
Qed.

Lemma length_hex_pairs data :
  Zlen (concat (map (fun b => [hex_digit (Z.shiftr (u8 b) 4); hex_digit (Z.land (u8 b) 0x0f)]) data)) = Zlen data * 2.
Proof. induction data as [|b data IH]; [done|]. cbn [map concat]. rewrite length_app. cbn [length]. lia. Qed.

Lemma hex_bytes_string data : hex_bytes (hex_string data) = Some data.
Proof.
  unfold hex_bytes, hex_string. set (ps := concat _). change (trim_hex_prefix (lit "0x" ++ ps)) with ps. unfold ps.
  rewrite length_hex_pairs, Z_mod_mult. apply hex_pairs_string.
Qed.

Lemma hex_array_string data n : Zlen data = n -> hex_array n (hex_string data) = Some data.
Proof.
  intros <-. unfold hex_array, hex_string. set (ps := concat _). change (trim_hex_prefix (lit "0x" ++ ps)) with ps. unfold ps.
  rewrite length_hex_pairs, Z.eqb_refl. apply hex_pairs_string.
Qed.

(** What [hex_array] returns has the size of the array. *)
Lemma hex_pairs_length value : forall bs, hex_pairs value = Some bs -> Zlen bs = Zlen value / 2.
Proof.
  induction value as [value IH] using (induction_ltof1 _ (@length byte)). unfold ltof in IH.
  destruct value as [|c0 [|c1 rest]]; intros bs; cbn [hex_pairs].
  - by intros [= <-].
  - by intros [= <-].
  - destruct (hex_nibble c0) as [hi|]; [|done]. destruct (hex_nibble c1) as [lo|]; [|done].
    destruct (hex_pairs rest) as [r|] eqn:E; [|done]. intros [= <-]. specialize (IH rest ltac:(cbn; lia) r E).
    cbn [length]. rewrite Nat2Z.inj_succ, IH, !Nat2Z.inj_succ. replace (Z.succ (Z.succ (Zlen rest))) with (Zlen rest + 1 * 2) by lia.
    rewrite Z_div_plus by lia. lia.
Qed.

Lemma hex_array_length n value bs : hex_array n value = Some bs -> Zlen bs = n.
Proof.
  unfold hex_array. destruct (Z.eqb_spec (Zlen (trim_hex_prefix value)) (n * 2)) as [E|]; [|done]. cbn [negb].
  intros H%hex_pairs_length. rewrite E, Z_div_mult in H by lia. done.
Qed.

Lemma read_digits_nonneg base s : 0 <= base -> forall acc, 0 <= acc -> 0 <= (read_digits base acc s).1.
Proof.
  intros Hb. induction s as [|c s IH]; intros acc Ha; cbn [read_digits]; [done|]. destruct (digit_value base c) as [d|] eqn:E; [|done].
  apply IH. assert (0 <= d); [|nia]. revert E. unfold digit_value. repeat case_match; intros; simplify_eq; lia.
Qed.

Lemma uint64_hex_range value n : uint64_hex value = Some n -> in_width 64 n.
Proof.
  unfold uint64_hex, in_width. case_bool_decide; [done|]. unfold from_chars. case_bool_decide; [done|].
  pose proof (read_digits_nonneg 16 (trim_hex_prefix value) ltac:(lia) 0 ltac:(lia)) as Hn.
  destruct (Z.ltb_spec (read_digits 16 0 (trim_hex_prefix value)).1 (2 ^ 64)); [|done].
  destruct (read_digits _ _ _) as [v [|c r]]; [|done]. by intros [= <-].
Qed.
