(* ===== verification/JsonUtility.v ===== *)
(** * JSON documents and schemas

    [include/base/json_utility.hpp] and [src/base/json_utility.cpp].

    A document is the value tree of Boost.JSON; its text parser is a parameter,
    a function from texts to documents, of the operations that use it.  A
    schema is a finite tree: the code refers to nested schemas by pointer, and
    null pointers are [None]. *)

From stdpp Require Import pretty.
From S2P Require Import Prelude ParseUtility.

(** ** Boost.JSON values *)

(** The kinds of [boost::json::value]; a double is its bit pattern. *)
Inductive json :=
  | JNull
  | JBool (b : bool)
  | JInt64 (n : Z)
  | JUint64 (n : Z)
  | JDouble (bits : Z)
  | JString (s : text)
  | JArray (items : list json)
  | JObject (fields : list (text * json)).

(** [object.if_contains] *)
Fixpoint if_contains (fields : list (text * json)) (name : text) : option json :=
  match fields with
  | [] => None
  | (k, v) :: fields' => if decide (k = name) then Some v else if_contains fields' name
  end.

(** ** json_utility.hpp *)

Inductive JsonErrorCode := kParseFailed | kRootNotObject | kMissingField | kWrongType | kOutOfRange | kFileOpenFailed.

Record JsonError := mkJsonError { je_code : JsonErrorCode; je_field : text }.

Notation JsonResult := (outcome JsonError).

Inductive JsonFieldType := kString | kBool | kU8 | kU32 | kU64 | kSize | kObject | kArray.

#[global] Instance JsonFieldType_eq_dec : EqDecision JsonFieldType.
Proof. solve_decision. Defined.

Inductive JsonSchemaField :=
  | mkSchemaField (name : text) (type : JsonFieldType) (required : bool) (default_value : option json)
      (object_schema : option JsonSchemaObject) (array_schema : option JsonSchemaArray)
with JsonSchemaObject := mkSchemaObject (fields : list JsonSchemaField)
with JsonSchemaArray :=
  | mkSchemaArray (element_type : JsonFieldType) (object_schema : option JsonSchemaObject) (array_schema : option JsonSchemaArray).

Definition sf_name (f : JsonSchemaField) : text := let 'mkSchemaField n _ _ _ _ _ := f in n.
Definition sf_type (f : JsonSchemaField) : JsonFieldType := let 'mkSchemaField _ t _ _ _ _ := f in t.
Definition sf_required (f : JsonSchemaField) : bool := let 'mkSchemaField _ _ r _ _ _ := f in r.
Definition so_fields (o : JsonSchemaObject) : list JsonSchemaField := let 'mkSchemaObject l := o in l.

(** The alternatives of [JsonParsedValue::Storage]; the field [type] of the
    struct is the alternative's. *)
Inductive JsonParsedValue :=
  | PString (s : text)
  | PBool (b : bool)
  | PU8 (n : Z)
  | PU32 (n : Z)
  | PU64 (n : Z)
  | PSize (n : Z)
  | PObject (fields : list (text * JsonParsedValue))
  | PArray (values : list JsonParsedValue).

Definition pv_type (v : JsonParsedValue) : JsonFieldType :=
  match v with
  | PString _ => kString | PBool _ => kBool | PU8 _ => kU8 | PU32 _ => kU32
  | PU64 _ => kU64 | PSize _ => kSize | PObject _ => kObject | PArray _ => kArray
  end.

Notation JsonParsedObject := (list (text * JsonParsedValue)).
Notation JsonParsedArray := (list JsonParsedValue).

(** ** json_utility.cpp: values *)

Definition with_field (error : JsonError) (field_name : text) : JsonError := mkJsonError (je_code error) field_name.

(** [if (!parsed) return failure(with_field(parsed.error(), field_name));] *)
Definition at_field {A} (r : JsonResult A) (field_name : text) : JsonResult A :=
  match r with failure e => failure (with_field e field_name) | _ => r end.

Definition parse_unsigned_integer (bits : Z) (value : json) : JsonResult Z :=
  match value with
  | JInt64 n =>
      if n <? 0 then failure (mkJsonError kWrongType []) else
      if 2 ^ bits - 1 <? n then failure (mkJsonError kOutOfRange []) else success n
  | _ => failure (mkJsonError kWrongType [])
  end.

Definition parse_size_t : json -> JsonResult Z := parse_unsigned_integer 64.
Definition parse_u8 : json -> JsonResult Z := parse_unsigned_integer 8.
Definition parse_u32 : json -> JsonResult Z := parse_unsigned_integer 32.
Definition parse_u64 : json -> JsonResult Z := parse_unsigned_integer 64.

Definition parse_string (value : json) : JsonResult text :=
  match value with JString s => success s | _ => failure (mkJsonError kWrongType []) end.
Definition parse_bool (value : json) : JsonResult bool :=
  match value with JBool b => success b | _ => failure (mkJsonError kWrongType []) end.

Definition join_path (prefix field_name : text) : text :=
  if bool_decide (prefix = []) then field_name else prefix ++ lit "." ++ field_name.
Definition array_path (prefix : text) (index : nat) : text :=
  prefix ++ lit "[" ++ lit (pretty (N.of_nat index)) ++ lit "]".

(** ** Schemas *)

(** [parse_schema_value_at_path], over the parsers for nested schemas. *)
Definition schema_value (object_at : JsonSchemaObject -> list (text * json) -> text -> JsonResult JsonParsedObject)
    (array_at : JsonSchemaArray -> list json -> text -> JsonResult JsonParsedArray)
    (value : json) (type : JsonFieldType) (object_schema : option JsonSchemaObject) (array_schema : option JsonSchemaArray)
    (field_path : text) : JsonResult JsonParsedValue :=
  match type with
  | kString => s ← at_field (parse_string value) field_path; success (PString s)
  | kBool => b ← at_field (parse_bool value) field_path; success (PBool b)
  | kU8 => n ← at_field (parse_u8 value) field_path; success (PU8 n)
  | kU32 => n ← at_field (parse_u32 value) field_path; success (PU32 n)
  | kU64 => n ← at_field (parse_u64 value) field_path; success (PU64 n)
  | kSize => n ← at_field (parse_size_t value) field_path; success (PSize n)
  | kObject =>
      match object_schema, value with
      | Some schema, JObject fields => o ← object_at schema fields field_path; success (PObject o)
      | _, _ => failure (mkJsonError kWrongType field_path)
      end
  | kArray =>
      match array_schema, value with
      | Some schema, JArray items => a ← array_at schema items field_path; success (PArray a)
      | _, _ => failure (mkJsonError kWrongType field_path)
      end
  end.

(** The loop of [parse_schema_array_at_path]. *)
Fixpoint parse_items (element : json -> text -> JsonResult JsonParsedValue) (index : nat) (prefix : text) (items : list json) :
    JsonResult JsonParsedArray :=
  match items with
  | [] => success []
  | item :: items' =>
      v ← element item (array_path prefix index);
      vs ← parse_items element (S index) prefix items';
      success (v :: vs)
  end.

(** [parsed.fields.emplace] *)
Definition emplace (name : text) (v : option JsonParsedValue) (fields : JsonParsedObject) : JsonParsedObject :=
  match v with Some v => (name, v) :: fields | None => fields end.

Fixpoint parse_schema_object_at_path (schema : JsonSchemaObject) (object : list (text * json)) (path_prefix : text) : JsonResult JsonParsedObject :=
  match schema with
  | mkSchemaObject fields =>
      (fix parse_fields (fields : list JsonSchemaField) : JsonResult JsonParsedObject :=
        match fields with
        | [] => success []
        | mkSchemaField name type required default_value object_schema array_schema :: fields' =>
            let field_path := join_path path_prefix name in
            let parse value :=
              schema_value parse_schema_object_at_path parse_schema_array_at_path value type object_schema array_schema field_path in
            parsed ← match if_contains object name, default_value with
                     | Some value, _ => v ← parse value; success (Some v)
                     | None, Some value => v ← parse value; success (Some v)
                     | None, None => if required then failure (mkJsonError kMissingField field_path) else success None
                     end;
            rest ← parse_fields fields';
            success (emplace name parsed rest)
        end) fields
  end
with parse_schema_array_at_path (schema : JsonSchemaArray) (array : list json) (path_prefix : text) : JsonResult JsonParsedArray :=
  match schema with
  | mkSchemaArray element_type object_schema array_schema =>
      parse_items (fun value path =>
        schema_value parse_schema_object_at_path parse_schema_array_at_path value element_type object_schema array_schema path) 0 path_prefix array
  end.

Definition parse_schema_value : json -> JsonFieldType -> option JsonSchemaObject -> option JsonSchemaArray -> text -> JsonResult JsonParsedValue :=
  schema_value parse_schema_object_at_path parse_schema_array_at_path.

Definition parse_schema_fields (object : list (text * json)) (schema : JsonSchemaObject) : JsonResult JsonParsedObject :=
  parse_schema_object_at_path schema object [].

(** ** Texts *)

Section documents.
(** [boost::json::parse] *)
Context (json_parse : text -> option json).

Definition parse_object (json_text : text) : JsonResult (list (text * json)) :=
  match json_parse json_text with
  | None => failure (mkJsonError kParseFailed [])
  | Some (JObject fields) => success fields
  | Some _ => failure (mkJsonError kRootNotObject [])
  end.

Definition parse_schema_object (json_text : text) (schema : JsonSchemaObject) : JsonResult JsonParsedObject :=
  root ← parse_object json_text; parse_schema_object_at_path schema root [].
End documents.

(** ** Fields of an object *)

Definition get_value (object : list (text * json)) (field_name : text) : JsonResult json :=
  match if_contains object field_name with
  | None => failure (mkJsonError kMissingField field_name)
  | Some v => success v
  end.

Definition get_string (object : list (text * json)) (field_name : text) : JsonResult text :=
  v ← get_value object field_name; at_field (parse_string v) field_name.
Definition get_bool (object : list (text * json)) (field_name : text) : JsonResult bool :=
  v ← get_value object field_name; at_field (parse_bool v) field_name.
Definition get_array (object : list (text * json)) (field_name : text) : JsonResult (list json) :=
  v ← get_value object field_name;
  match v with JArray items => success items | _ => failure (mkJsonError kWrongType field_name) end.
Definition get_u8 (object : list (text * json)) (field_name : text) : JsonResult Z :=
  v ← get_value object field_name; at_field (parse_u8 v) field_name.
Definition get_u32 (object : list (text * json)) (field_name : text) : JsonResult Z :=
  v ← get_value object field_name; at_field (parse_u32 v) field_name.
Definition get_u64 (object : list (text * json)) (field_name : text) : JsonResult Z :=
  v ← get_value object field_name; at_field (parse_u64 v) field_name.

Definition get_optional_string (object : list (text * json)) (field_name default_value : text) : JsonResult text :=
  match if_contains object field_name with
  | None => success default_value
  | Some (JString s) => success s
  | Some _ => failure (mkJsonError kWrongType field_name)
  end.

(** [JsonParsedObject::find] *)
Fixpoint parsed_find (object : JsonParsedObject) (field_name : text) : option JsonParsedValue :=
  match object with
  | [] => None
  | (k, v) :: object' => if decide (k = field_name) then Some v else parsed_find object' field_name
  end.

Definition get_parsed_value (object : JsonParsedObject) (field_name : text) : JsonResult JsonParsedValue :=
  match parsed_find object field_name with
  | None => failure (mkJsonError kMissingField field_name)
  | Some v => success v
  end.

(** [get_parsed_as]: the alternative named by the expected type. *)
Definition get_parsed_as {A} (as_type : JsonParsedValue -> option A) (object : JsonParsedObject) (field_name : text) : JsonResult A :=
  v ← get_parsed_value object field_name;
  match as_type v with Some a => success a | None => failure (mkJsonError kWrongType field_name) end.

Definition get_parsed_string : JsonParsedObject -> text -> JsonResult text :=
  get_parsed_as (fun v => match v with PString s => Some s | _ => None end).
Definition get_parsed_bool : JsonParsedObject -> text -> JsonResult bool :=
  get_parsed_as (fun v => match v with PBool b => Some b | _ => None end).
Definition get_parsed_u8 : JsonParsedObject -> text -> JsonResult Z :=
  get_parsed_as (fun v => match v with PU8 n => Some n | _ => None end).
Definition get_parsed_u32 : JsonParsedObject -> text -> JsonResult Z :=
  get_parsed_as (fun v => match v with PU32 n => Some n | _ => None end).
Definition get_parsed_u64 : JsonParsedObject -> text -> JsonResult Z :=
  get_parsed_as (fun v => match v with PU64 n => Some n | _ => None end).
Definition get_parsed_size : JsonParsedObject -> text -> JsonResult Z :=
  get_parsed_as (fun v => match v with PSize n => Some n | _ => None end).
Definition get_parsed_array : JsonParsedObject -> text -> JsonResult JsonParsedArray :=
  get_parsed_as (fun v => match v with PArray vs => Some vs | _ => None end).
Definition get_parsed_object : JsonParsedObject -> text -> JsonResult JsonParsedObject :=
  get_parsed_as (fun v => match v with PObject fs => Some fs | _ => None end).

(** ** What a parsed object holds *)

(** The range of the integer alternatives. *)
Definition pv_in_range (v : JsonParsedValue) : Prop :=
  match v with
  | PU8 n => in_width 8 n
  | PU32 n => in_width 32 n
  | PU64 n | PSize n => in_width 64 n
  | _ => True
  end.

Lemma parse_unsigned_range bits value path n :
  at_field (parse_unsigned_integer bits value) path = success n -> in_width bits n.
Proof.
  unfold in_width. destruct value as [| |z| | | | |]; try done. cbn. destruct (Z.ltb_spec z 0); [done|].
  destruct (Z.ltb_spec (2 ^ bits - 1) z); [done|]. intros [= <-]. lia.
Qed.

Lemma schema_value_typed oat aat value type os ars path v :
  schema_value oat aat value type os ars path = success v -> pv_type v = type /\ pv_in_range v.
Proof.
  unfold schema_value, mbind, outcome_bind. destruct type;
    try (destruct (at_field _ _) as [x|e|f] eqn:E; [|done|done]; intros [= <-]; split; [done|]; cbn; try done; by eapply parse_unsigned_range).
  - destruct os as [schema|]; [|done]. destruct value; try done. destruct (oat _ _ _); [|done|done]. by intros [= <-].
  - destruct ars as [schema|]; [|done]. destruct value; try done. destruct (aat _ _ _); [|done|done]. by intros [= <-].
Qed.

(** The field loop as a function of its own, and the equation of the parser. *)
Fixpoint parse_fields (path_prefix : text) (object : list (text * json)) (fields : list JsonSchemaField) : JsonResult JsonParsedObject :=
  match fields with
  | [] => success []
  | mkSchemaField name type required default_value object_schema array_schema :: fields' =>
      let field_path := join_path path_prefix name in
      parsed ← match if_contains object name, default_value with
               | Some value, _ | None, Some value =>
                   v ← parse_schema_value value type object_schema array_schema field_path; success (Some v)
               | None, None => if required then failure (mkJsonError kMissingField field_path) else success None
               end;
      rest ← parse_fields path_prefix object fields';
      success (emplace name parsed rest)
  end.

Lemma parse_schema_object_eq fields object prefix :
  parse_schema_object_at_path (mkSchemaObject fields) object prefix = parse_fields prefix object fields.
Proof.
  cbn [parse_schema_object_at_path]. induction fields as [|[name type required default os ars] fields IH]; [done|].
  cbn [parse_fields]. rewrite <- IH. by destruct (if_contains object name), default.
Qed.

(** After a successful parse every required field of the schema is there, with
    the type the schema gives it and in that type's range, so the typed getters
    succeed on it. *)
Lemma parsed_fields prefix object fields p :
  NoDup (map sf_name fields) -> parse_fields prefix object fields = success p ->
  forall f, f ∈ fields -> sf_required f = true ->
  exists v, parsed_find p (sf_name f) = Some v /\ pv_type v = sf_type f /\ pv_in_range v.
Proof.
  revert p. induction fields as [|[name type required default os ars] fields IH]; intros p Hnd Hp f Hf Hreq; [by apply elem_of_nil in Hf|].
  cbn [map sf_name] in Hnd. apply NoDup_cons in Hnd as [Hn Hnd]. cbn [parse_fields] in Hp. revert Hp. unfold mbind, outcome_bind.
  destruct (match if_contains object name, default with Some _, _ | None, Some _ => _ | None, None => _ end) as [parsed|e|x] eqn:Ev; [|done|done].
  destruct (parse_fields prefix object fields) as [rest|e|x] eqn:Er; [|done|done]. intros [= <-].
  apply elem_of_cons in Hf as [->|Hf].
  - cbn [sf_required sf_name sf_type] in *. subst required.
    assert (exists v, parsed = Some v /\ pv_type v = type /\ pv_in_range v) as (v & -> & Hv).
    { destruct (if_contains object name) as [value|]; [|destruct default as [value|]; [|done]];
        (destruct (parse_schema_value _ _ _ _ _) as [v|e|y] eqn:Es in Ev; [|done|done]);
        injection Ev as <-; exists v; (split; [done|]); by eapply schema_value_typed. }
    exists v. cbn. by rewrite decide_True.
  - destruct (IH rest Hnd eq_refl f Hf Hreq) as (v & Hv & Ht). exists v. split; [|done].
    destruct parsed as [v'|]; [|done]. cbn. rewrite decide_False; [done|]. intros E. apply Hn. rewrite E.
    by apply (list_elem_of_fmap_2 sf_name).
Qed.

(** A mapped loop over an array of values that all parse. *)
Lemma parse_items_map {A} (element : json -> text -> JsonResult JsonParsedValue) (enc : A -> json) (val : A -> JsonParsedValue) prefix l :
  (forall a, a ∈ l -> forall path, element (enc a) path = success (val a)) ->
  forall i, parse_items element i prefix (map enc l) = success (map val l).
Proof.
  induction l as [|a l IH]; intros Hl i; [done|]. cbn [map parse_items]. rewrite Hl by left. cbn.
  rewrite IH; [done|]. intros. apply Hl. by right.
Qed.

(** ** Theorem *)

(** When a document parses under a schema whose field names differ, every
    required field is found in the result under its name with exactly the type
    the schema declares, and integers lie in that type's range; the parser
    rejects a document with a missing or mistyped required field. *)
Theorem required_fields_present (json_parse : text -> option json) (json_text : text) (fields : list JsonSchemaField) (p : JsonParsedObject) :
  NoDup (map sf_name fields) -> parse_schema_object json_parse json_text (mkSchemaObject fields) = success p ->
  forall f, f ∈ fields -> sf_required f = true ->
  exists v, parsed_find p (sf_name f) = Some v /\ pv_type v = sf_type f /\ pv_in_range v.
Proof.
  intros Hnd. unfold parse_schema_object, mbind, outcome_bind. destruct (parse_object json_parse json_text) as [root|e|x]; [|done|done].
  rewrite parse_schema_object_eq. by apply parsed_fields.
Qed.

Lemma required_fields_present_witness :
  exists v, parsed_find [(lit "id", PU8 7)] (lit "id") = Some v /\ pv_type v = kU8 /\ pv_in_range v.
Proof.
  apply (required_fields_present (fun _ => Some (JObject [(lit "id", JInt64 7)])) [] [mkSchemaField (lit "id") kU8 true None None None] [(lit "id", PU8 7)]
    ltac:(repeat constructor; by intros ?%elem_of_nil) eq_refl (mkSchemaField (lit "id") kU8 true None None None)).
  - by left.
  - reflexivity.
Defined.
