(* ===== verification/JsonRpc.v ===== *)
(** * JSON-RPC requests and responses

    [include/eth/json_rpc.hpp] and [src/eth/json_rpc.cpp]: the requests the
    receipt source makes of an Ethereum node, as JSON objects, and the parsers
    of the node's responses. *)

From S2P Require Import Prelude ParseUtility EthObjects EventFilter BridgeEvent JsonUtility.

(** ** json_rpc.hpp *)

Inductive RpcBlockTag := kLatest | kSafe | kFinalized.

Record RpcLog := mkRpcLog {
  rl_log : LogEntry;
  rl_block_number : Z;
  rl_block_hash : list byte;
  rl_tx_hash : list byte;
  rl_log_index : Z
}.

(** ** Schemas *)

Definition parse_quantity_value (value : text) : option Z := uint64_hex value.
Definition parse_fixed_hex_value (n : Z) (value : text) : option (list byte) := hex_array n value.
Definition parse_bytes_value (value : text) : option (list byte) := hex_bytes value.

Definition string_field (name : string) : JsonSchemaField := mkSchemaField (lit name) kString true None None None.

Definition block_result_schema : JsonSchemaObject := mkSchemaObject [string_field "number"].
Definition log_topics_schema : JsonSchemaArray := mkSchemaArray kString None None.
Definition rpc_log_schema : JsonSchemaObject := mkSchemaObject
  [string_field "address";
   mkSchemaField (lit "topics") kArray true None None (Some log_topics_schema);
   string_field "data"; string_field "blockNumber"; string_field "blockHash"; string_field "transactionHash"; string_field "logIndex"].
Definition logs_schema : JsonSchemaArray := mkSchemaArray kObject (Some rpc_log_schema) None.
Definition logs_response_schema : JsonSchemaObject := mkSchemaObject [mkSchemaField (lit "result") kArray true None None (Some logs_schema)].
Definition block_response_schema : JsonSchemaObject :=
  mkSchemaObject [mkSchemaField (lit "result") kObject true None (Some block_result_schema) None].
Definition receipt_result_schema : JsonSchemaObject := mkSchemaObject
  [string_field "status"; string_field "blockNumber"; string_field "blockHash"; string_field "transactionHash";
   mkSchemaField (lit "logs") kArray true None None (Some logs_schema)].
Definition receipt_response_schema : JsonSchemaObject :=
  mkSchemaObject [mkSchemaField (lit "result") kObject true None (Some receipt_result_schema) None].
Definition chain_id_response_schema : JsonSchemaObject := mkSchemaObject [string_field "result"].

(** A result whose error is dropped: [if (!x) return std::nullopt;]. *)
Definition or_none {E A} (r : outcome E A) : option A := match r with success a => Some a | _ => None end.

(** The loop over the topics. *)
Fixpoint parse_topics (values : list JsonParsedValue) : option (list (list byte)) :=
  match values with
  | [] => Some []
  | PString s :: values' =>
      topic ← parse_fixed_hex_value 32 s; topics ← parse_topics values'; Some (topic :: topics)
  | _ => None
  end.

Definition parse_rpc_log (object : JsonParsedObject) : option RpcLog :=
  address_value ← or_none (get_parsed_string object (lit "address"));
  topics_value ← or_none (get_parsed_array object (lit "topics"));
  data_value ← or_none (get_parsed_string object (lit "data"));
  block_number_value ← or_none (get_parsed_string object (lit "blockNumber"));
  block_hash_value ← or_none (get_parsed_string object (lit "blockHash"));
  tx_hash_value ← or_none (get_parsed_string object (lit "transactionHash"));
  log_index_value ← or_none (get_parsed_string object (lit "logIndex"));
  address ← parse_fixed_hex_value 20 address_value;
  data ← parse_bytes_value data_value;
  block_number ← parse_quantity_value block_number_value;
  block_hash ← parse_fixed_hex_value 32 block_hash_value;
  tx_hash ← parse_fixed_hex_value 32 tx_hash_value;
  log_index ← parse_quantity_value log_index_value;
  if 2 ^ 32 - 1 <? log_index then None else
  topics ← parse_topics topics_value;
  Some (mkRpcLog (mkLogEntry address topics data) block_number block_hash tx_hash log_index).

(** The loop over the log objects. *)
Fixpoint parse_logs (values : list JsonParsedValue) : option (list RpcLog) :=
  match values with
  | [] => Some []
  | PObject object :: values' => log ← parse_rpc_log object; logs ← parse_logs values'; Some (log :: logs)
  | _ => None
  end.

(** ** Requests *)

Definition block_tag_name (tag : RpcBlockTag) : text :=
  match tag with kLatest => lit "latest" | kSafe => lit "safe" | kFinalized => lit "finalized" end.

Definition make_json_rpc_request (method : text) (params : list json) (id : Z) : json :=
  JObject [(lit "jsonrpc", JString (lit "2.0")); (lit "method", JString method); (lit "params", JArray params); (lit "id", JUint64 id)].

Definition make_eth_chain_id_request (id : Z) : json := make_json_rpc_request (lit "eth_chainId") [] id.

Definition make_get_block_by_number_request (tag : RpcBlockTag) (id : Z) : json :=
  make_json_rpc_request (lit "eth_getBlockByNumber") [JString (block_tag_name tag); JBool false] id.

(** [filter_json]: the address field and the topics field only where the filter has any. *)
Definition filter_json (filter : EventFilter) (from_block to_block : Z) : json :=
  JObject (
    [(lit "fromBlock", JString (uint64_hex_quantity from_block)); (lit "toBlock", JString (uint64_hex_quantity to_block))] ++
    match filter_addresses filter with
    | [] => []
    | [address] => [(lit "address", JString (hex_string address))]
    | addresses => [(lit "address", JArray (map (fun a => JString (hex_string a)) addresses))]
    end ++
    match filter_topics filter with
    | [] => []
    | topics => [(lit "topics", JArray (map (fun t => match t with None => JNull | Some t => JString (hex_string t) end) topics))]
    end).

Definition make_get_logs_request (filter : EventFilter) (from_block to_block id : Z) : json :=
  make_json_rpc_request (lit "eth_getLogs") [filter_json filter from_block to_block] id.

Definition make_get_transaction_receipt_request (tx_hash : list byte) (id : Z) : json :=
  make_json_rpc_request (lit "eth_getTransactionReceipt") [JString (hex_string tx_hash)] id.

(** ** Responses *)

Section responses.
Context (json_parse : text -> option json).

Definition parse_chain_id_response (json_text : text) : option Z :=
  parsed ← or_none (parse_schema_object json_parse json_text chain_id_response_schema);
  chain_id_hex ← or_none (get_parsed_string parsed (lit "result"));
  parse_quantity_value chain_id_hex.

Definition parse_block_number_response (json_text : text) : option Z :=
  parsed ← or_none (parse_schema_object json_parse json_text block_response_schema);
  result ← or_none (get_parsed_object parsed (lit "result"));
  number ← or_none (get_parsed_string result (lit "number"));
  parse_quantity_value number.

Definition parse_get_logs_response (json_text : text) : option (list RpcLog) :=
  parsed ← or_none (parse_schema_object json_parse json_text logs_response_schema);
  logs ← or_none (get_parsed_array parsed (lit "result"));
  parse_logs logs.

Definition parse_transaction_receipt_response (json_text : text) : option ReceiptResult :=
  parsed ← or_none (parse_schema_object json_parse json_text receipt_response_schema);
  receipt_object ← or_none (get_parsed_object parsed (lit "result"));
  status_value ← or_none (get_parsed_string receipt_object (lit "status"));
  block_number_value ← or_none (get_parsed_string receipt_object (lit "blockNumber"));
  block_hash_value ← or_none (get_parsed_string receipt_object (lit "blockHash"));
  tx_hash_value ← or_none (get_parsed_string receipt_object (lit "transactionHash"));
  logs ← or_none (get_parsed_array receipt_object (lit "logs"));
  status ← parse_quantity_value status_value;
  block_number ← parse_quantity_value block_number_value;
  block_hash ← parse_fixed_hex_value 32 block_hash_value;
  tx_hash ← parse_fixed_hex_value 32 tx_hash_value;
  parsed_logs ← parse_logs logs;
  Some (mkReceiptResult (mkReceipt None (Some (negb (status =? 0))) 0 (replicate 256 x00) (map rl_log parsed_logs))
    tx_hash block_number block_hash (map rl_log_index parsed_logs)).
End responses.

(** ** What a node answers *)

Record wf_rpc_log (l : RpcLog) : Prop := {
  wfl_address : Zlen (le_address (rl_log l)) = 20;
  wfl_topics : Forall (fun t => Zlen t = 32) (le_topics (rl_log l));
  wfl_number : in_width 64 (rl_block_number l);
  wfl_block : Zlen (rl_block_hash l) = 32;
  wfl_tx : Zlen (rl_tx_hash l) = 32;
  wfl_index : in_width 32 (rl_log_index l)
}.

(** A log object: it has the fields the schema asks for, in the standard
    encoding, among any others. *)
Record log_document (l : RpcLog) (j : json) : Prop := {
  ld_fields : list (text * json);
  ld_object : j = JObject ld_fields;
  ld_address : if_contains ld_fields (lit "address") = Some (JString (hex_string (le_address (rl_log l))));
  ld_topics : if_contains ld_fields (lit "topics") = Some (JArray (map (fun t => JString (hex_string t)) (le_topics (rl_log l))));
  ld_data : if_contains ld_fields (lit "data") = Some (JString (hex_string (le_data (rl_log l))));
  ld_number : if_contains ld_fields (lit "blockNumber") = Some (JString (uint64_hex_quantity (rl_block_number l)));
  ld_block : if_contains ld_fields (lit "blockHash") = Some (JString (hex_string (rl_block_hash l)));
  ld_tx : if_contains ld_fields (lit "transactionHash") = Some (JString (hex_string (rl_tx_hash l)));
  ld_index : if_contains ld_fields (lit "logIndex") = Some (JString (uint64_hex_quantity (rl_log_index l)))
}.

(** The receipt object of a transaction, with its logs. *)
Record receipt_document (status : Z) (number : Z) (block_hash tx_hash : list byte) (logs : list RpcLog) (j : json) : Prop := {
  rd_fields : list (text * json);
  rd_logs : list json;
  rd_object : j = JObject rd_fields;
  rd_status : if_contains rd_fields (lit "status") = Some (JString (uint64_hex_quantity status));
  rd_number : if_contains rd_fields (lit "blockNumber") = Some (JString (uint64_hex_quantity number));
  rd_block : if_contains rd_fields (lit "blockHash") = Some (JString (hex_string block_hash));
  rd_tx : if_contains rd_fields (lit "transactionHash") = Some (JString (hex_string tx_hash));
  rd_array : if_contains rd_fields (lit "logs") = Some (JArray rd_logs);
  rd_each : Forall2 log_document logs rd_logs
}.

Definition result_document (json_parse : text -> option json) (json_text : text) (result : json) : Prop :=
  exists root, json_parse json_text = Some (JObject root) /\ if_contains root (lit "result") = Some result.

(** ** Reading it *)

Definition parsed_log (l : RpcLog) : JsonParsedObject :=
  [(lit "address", PString (hex_string (le_address (rl_log l))));
   (lit "topics", PArray (map (fun t => PString (hex_string t)) (le_topics (rl_log l))));
   (lit "data", PString (hex_string (le_data (rl_log l))));
   (lit "blockNumber", PString (uint64_hex_quantity (rl_block_number l)));
   (lit "blockHash", PString (hex_string (rl_block_hash l)));
   (lit "transactionHash", PString (hex_string (rl_tx_hash l)));
   (lit "logIndex", PString (uint64_hex_quantity (rl_log_index l)))].

Lemma parse_topic_items topics path :
  parse_schema_array_at_path log_topics_schema (map (fun t => JString (hex_string t)) topics) path =
    success (map (fun t => PString (hex_string t)) topics).
Proof.
  unfold log_topics_schema. cbn [parse_schema_array_at_path].
  apply (parse_items_map _ (fun t => JString (hex_string t)) (fun t => PString (hex_string t))). by intros t _ p.
Qed.

Lemma parse_log_document l j path : log_document l j ->
  parse_schema_value j kObject (Some rpc_log_schema) None path = success (PObject (parsed_log l)).
Proof.
  intros [fields -> H1 H2 H3 H4 H5 H6 H7]. unfold parse_schema_value, schema_value, rpc_log_schema, string_field. rewrite parse_schema_object_eq.
  cbn [parse_fields]. rewrite H1, H2, H3, H4, H5, H6, H7. cbn [parse_schema_value schema_value parse_string at_field]. by rewrite parse_topic_items.
Qed.

Lemma parse_topics_map topics : Forall (fun t => Zlen t = 32) topics ->
  parse_topics (map (fun t => PString (hex_string t)) topics) = Some topics.
Proof.
  induction 1 as [|t topics Ht _ IH]; [done|]. cbn [map parse_topics]. unfold parse_fixed_hex_value. rewrite hex_array_string by done. cbn [mbind option_bind]. by rewrite IH.
Qed.

Lemma get_string_found p name s : parsed_find p name = Some (PString s) -> or_none (get_parsed_string p name) = Some s.
Proof. intros E. unfold get_parsed_string, get_parsed_as, get_parsed_value. by rewrite E. Qed.

Lemma get_array_found p name vs : parsed_find p name = Some (PArray vs) -> or_none (get_parsed_array p name) = Some vs.
Proof. intros E. unfold get_parsed_array, get_parsed_as, get_parsed_value. by rewrite E. Qed.

Lemma get_object_found p name fs : parsed_find p name = Some (PObject fs) -> or_none (get_parsed_object p name) = Some fs.
Proof. intros E. unfold get_parsed_object, get_parsed_as, get_parsed_value. by rewrite E. Qed.

Lemma quantity_read n : in_width 64 n -> parse_quantity_value (uint64_hex_quantity n) = Some n.
Proof. apply uint64_hex_quantity_eq. Qed.

Lemma parse_rpc_log_eq l : wf_rpc_log l -> parse_rpc_log (parsed_log l) = Some l.
Proof.
  intros [H1 H2 H3 H4 H5 H6]. unfold parse_rpc_log.
  erewrite get_string_found by reflexivity. cbn [mbind option_bind]. erewrite get_array_found by reflexivity. cbn [mbind option_bind].
  do 5 (erewrite get_string_found by reflexivity; cbn [mbind option_bind]). unfold parse_fixed_hex_value, parse_bytes_value.
  rewrite !hex_array_string by done. rewrite hex_bytes_string. cbn [mbind option_bind]. rewrite (quantity_read (rl_block_number l)) by done. cbn [mbind option_bind].
  rewrite (quantity_read (rl_log_index l)) by (unfold in_width in *; lia). cbn [mbind option_bind]. rewrite (proj2 (Z.ltb_ge _ _)) by (unfold in_width in *; lia).
  rewrite parse_topics_map by done. cbn. by destruct l as [[] ? ? ? ?].
Qed.

Lemma parse_logs_eq logs : Forall wf_rpc_log logs -> parse_logs (map (fun l => PObject (parsed_log l)) logs) = Some logs.
Proof.
  induction 1 as [|l logs Hl _ IH]; [done|]. cbn [map parse_logs]. rewrite parse_rpc_log_eq by done. cbn [mbind option_bind]. by rewrite IH.
Qed.

Lemma parse_log_items logs js path : Forall2 log_document logs js ->
  parse_schema_array_at_path logs_schema js path = success (map (fun l => PObject (parsed_log l)) logs).
Proof.
  intros Hd. unfold logs_schema. cbn [parse_schema_array_at_path]. generalize 0%nat. revert path.
  induction Hd as [|l j logs js Hj _ IH]; intros path i; [done|]. cbn [parse_items].
  change (schema_value _ _ ?v ?t ?o ?a ?p) with (parse_schema_value v t o a p) in *. rewrite (parse_log_document l) by done. cbn [mbind outcome_bind].
  rewrite IH. done.
Qed.

Section answers.
Context (json_parse : text -> option json).

(** The root object with a field [result] that parses. *)
Lemma parse_result_field json_text result type os ars v :
  result_document json_parse json_text result -> parse_schema_value result type os ars (lit "result") = success v ->
  parse_schema_object json_parse json_text (mkSchemaObject [mkSchemaField (lit "result") type true None os ars]) = success [(lit "result", v)].
Proof.
  intros (root & E1 & E2) Ev. unfold parse_schema_object, parse_object. rewrite E1. cbn [mbind outcome_bind]. rewrite parse_schema_object_eq.
  cbn [parse_fields]. rewrite E2. change (join_path [] (lit "result")) with (lit "result"). by rewrite Ev.
Qed.

Lemma parse_logs_answer json_text logs js :
  Forall wf_rpc_log logs -> Forall2 log_document logs js -> result_document json_parse json_text (JArray js) ->
  parse_get_logs_response json_parse json_text = Some logs.
Proof.
  intros Hw Hd Hr. unfold parse_get_logs_response, logs_response_schema.
  rewrite (parse_result_field _ _ _ _ _ (PArray (map (fun l => PObject (parsed_log l)) logs)) Hr);
    [|unfold parse_schema_value; cbn [schema_value]; by rewrite (parse_log_items logs)].
  cbn [or_none mbind option_bind]. erewrite get_array_found by reflexivity. cbn [mbind option_bind]. by apply parse_logs_eq.
Qed.

Lemma parse_receipt_answer json_text status number block_hash tx_hash logs j :
  in_width 64 status -> in_width 64 number -> Zlen block_hash = 32 -> Zlen tx_hash = 32 -> Forall wf_rpc_log logs ->
  receipt_document status number block_hash tx_hash logs j -> result_document json_parse json_text j ->
  parse_transaction_receipt_response json_parse json_text =
    Some (mkReceiptResult (mkReceipt None (Some (negb (status =? 0))) 0 (replicate 256 x00) (map rl_log logs))
      tx_hash number block_hash (map rl_log_index logs)).
Proof.
  intros Hs Hn Hb Ht Hw [fields ljs -> H1 H2 H3 H4 H5 H6] Hr. unfold parse_transaction_receipt_response, receipt_response_schema.
  rewrite (parse_result_field _ _ _ _ _ (PObject
    [(lit "status", PString (uint64_hex_quantity status)); (lit "blockNumber", PString (uint64_hex_quantity number));
     (lit "blockHash", PString (hex_string block_hash)); (lit "transactionHash", PString (hex_string tx_hash));
     (lit "logs", PArray (map (fun l => PObject (parsed_log l)) logs))]) Hr).
  2:{ unfold parse_schema_value, schema_value, receipt_result_schema, string_field. rewrite parse_schema_object_eq.
      cbn [parse_fields]. rewrite H1, H2, H3, H4, H5. cbn [parse_schema_value schema_value parse_string at_field]. by rewrite (parse_log_items logs). }
  cbn [or_none mbind option_bind]. erewrite get_object_found by reflexivity. cbn [mbind option_bind].
  do 4 (erewrite get_string_found by reflexivity; cbn [mbind option_bind]). erewrite get_array_found by reflexivity. cbn [mbind option_bind].
  rewrite (quantity_read status), (quantity_read number) by done. cbn [mbind option_bind]. unfold parse_fixed_hex_value.
  rewrite !hex_array_string by done. cbn [mbind option_bind]. by rewrite parse_logs_eq.
Qed.

Lemma parse_number_answer json_text number fields :
  in_width 64 number -> if_contains fields (lit "number") = Some (JString (uint64_hex_quantity number)) ->
  result_document json_parse json_text (JObject fields) -> parse_block_number_response json_parse json_text = Some number.
Proof.
  intros Hn Hf Hr. unfold parse_block_number_response, block_response_schema.
  rewrite (parse_result_field _ _ _ _ _ (PObject [(lit "number", PString (uint64_hex_quantity number))]) Hr).
  2:{ unfold parse_schema_value, schema_value, block_result_schema, string_field. rewrite parse_schema_object_eq. cbn [parse_fields]. by rewrite Hf. }
  cbn [or_none mbind option_bind]. erewrite get_object_found by reflexivity. cbn [mbind option_bind].
  erewrite get_string_found by reflexivity. cbn [mbind option_bind]. by apply quantity_read.
Qed.
End answers.

(** ** Theorem *)

(** The responses of a node in the standard encoding parse to what the node
    reported, whatever further fields its objects have: the logs of
    [eth_getLogs] in order, the receipt of [eth_getTransactionReceipt] with the
    status, block and logs with their indices, and the block number. *)
Theorem rpc_responses_roundtrip (json_parse : text -> option json) (json_text : text) status number block_hash tx_hash logs js j fields :
  in_width 64 status -> in_width 64 number -> Zlen block_hash = 32 -> Zlen tx_hash = 32 -> Forall wf_rpc_log logs ->
  (Forall2 log_document logs js -> result_document json_parse json_text (JArray js) ->
   parse_get_logs_response json_parse json_text = Some logs) /\
  (receipt_document status number block_hash tx_hash logs j -> result_document json_parse json_text j ->
   parse_transaction_receipt_response json_parse json_text =
     Some (mkReceiptResult (mkReceipt None (Some (negb (status =? 0))) 0 (replicate 256 x00) (map rl_log logs))
       tx_hash number block_hash (map rl_log_index logs))) /\
  (if_contains fields (lit "number") = Some (JString (uint64_hex_quantity number)) -> result_document json_parse json_text (JObject fields) ->
   parse_block_number_response json_parse json_text = Some number).
Proof.
  intros Hs Hn Hb Ht Hw. split_and!; intros.
  - by eapply parse_logs_answer.
  - by eapply parse_receipt_answer.
  - by eapply parse_number_answer.
Qed.

Module SampleRpc.
Definition log : RpcLog := mkRpcLog sample_log 5 sample_hash sample_hash 3.
Definition log_json : json := JObject
  [(lit "removed", JBool false);
   (lit "logIndex", JString (lit "0x3"));
   (lit "address", JString (hex_string sample_address));
   (lit "topics", JArray [JString (hex_string sample_hash); JString (hex_string sample_hash)]);
   (lit "data", JString (lit "0x0102"));
   (lit "blockNumber", JString (lit "0x5")); (lit "blockHash", JString (hex_string sample_hash));
   (lit "transactionHash", JString (hex_string sample_hash))].
Definition parse (t : text) : option json := Some (JObject [(lit "id", JInt64 1); (lit "result", JArray [log_json])]).
End SampleRpc.

Lemma rpc_responses_roundtrip_witness : parse_get_logs_response SampleRpc.parse [] = Some [SampleRpc.log].
Proof.
  apply (rpc_responses_roundtrip SampleRpc.parse [] 1 5 sample_hash sample_hash [SampleRpc.log] [SampleRpc.log_json] JNull []);
    try (vm_compute; intuition congruence).
  - apply Forall_singleton. split; repeat constructor; vm_compute; intuition congruence.
  - constructor; [|constructor]. eapply Build_log_document; reflexivity.
  - eexists. split; reflexivity.
Defined.
