(* ===== verification/ReceiptSource.v ===== *)
(** * Receipts from a JSON-RPC node

    [include/eth/rpc_receipt_source.hpp], [src/eth/rpc_receipt_source.cpp]
    (polling a node for the receipts of the transactions whose logs match the
    registered filters) and [src/eth/eth_receipt_source.cpp] (the bridge that
    feeds them to the watch service).

    The transport is a function from the JSON of a request to the text of the
    response; requests carry increasing ids, so a node whose answers change
    over time is such a function too.  The calls of the batch handler are
    recorded in [emitted_]. *)

From Stdlib Require Import Sorted.
From S2P Require Import Prelude ParseUtility RlpDecoder EthObjects ChainTracker EventFilter FinalityPolicy AbiDecoder BridgeEvent WatchService JsonUtility JsonRpc.

(** ** eth_receipt_source.hpp, rpc_receipt_source.hpp *)

Record ReceiptBatch := mkBatch {
  rb_receipts : list Receipt;
  rb_tx_hashes : list (list byte);
  rb_log_indices : list (list Z);
  rb_block_number : Z;
  rb_block_hash : list byte
}.

Record RpcReceiptSource := mkSource {
  finality_policy_ : FinalityPolicy;
  last_processed_block_ : Z;
  max_log_range_ : Z;
  next_rpc_id_ : Z;
  next_watch_id_ : Z;
  filters_ : list (Z * EventFilter);
  handler_ : bool;
  emitted_ : list ReceiptBatch
}.

(** The constructor. *)
Definition RpcReceiptSource_new (policy : FinalityPolicy) (last_processed_block max_log_range : Z) : RpcReceiptSource :=
  mkSource policy last_processed_block (Z.max 1 max_log_range) 1 1 [] false [].

(** ** rpc_receipt_source.cpp *)

Definition rpc_add_filter (filter : EventFilter) (s : RpcReceiptSource) : Z * RpcReceiptSource :=
  (next_watch_id_ s,
   mkSource (finality_policy_ s) (last_processed_block_ s) (max_log_range_ s) (next_rpc_id_ s) (u32 (next_watch_id_ s + 1))
     (filters_ s ++ [(next_watch_id_ s, filter)]) (handler_ s) (emitted_ s)).

Definition rpc_remove_filter (id : Z) (s : RpcReceiptSource) : RpcReceiptSource :=
  mkSource (finality_policy_ s) (last_processed_block_ s) (max_log_range_ s) (next_rpc_id_ s) (next_watch_id_ s)
    (base.filter (fun entry => entry.1 <> id) (filters_ s)) (handler_ s) (emitted_ s).

Definition rpc_set_handler (set : bool) (s : RpcReceiptSource) : RpcReceiptSource :=
  mkSource (finality_policy_ s) (last_processed_block_ s) (max_log_range_ s) (next_rpc_id_ s) (next_watch_id_ s) (filters_ s) set (emitted_ s).

Definition set_last_processed (n : Z) (s : RpcReceiptSource) : RpcReceiptSource :=
  mkSource (finality_policy_ s) n (max_log_range_ s) (next_rpc_id_ s) (next_watch_id_ s) (filters_ s) (handler_ s) (emitted_ s).

Definition emit_batch (batch : ReceiptBatch) (s : RpcReceiptSource) : RpcReceiptSource :=
  mkSource (finality_policy_ s) (last_processed_block_ s) (max_log_range_ s) (next_rpc_id_ s) (next_watch_id_ s) (filters_ s) (handler_ s)
    (emitted_ s ++ [batch]).

Notation Source := (M RpcReceiptSource Empty_set).

Definition next_request_id : Source Z := fun s =>
  (success (next_rpc_id_ s),
   mkSource (finality_policy_ s) (last_processed_block_ s) (max_log_range_ s) (u64 (next_rpc_id_ s + 1)) (next_watch_id_ s) (filters_ s)
     (handler_ s) (emitted_ s)).

Definition change (f : RpcReceiptSource -> RpcReceiptSource) : Source unit := fun s => (success tt, f s).

Definition batch_of (r : ReceiptResult) : ReceiptBatch :=
  mkBatch [rr_receipt r] [rr_tx_hash r] [rr_log_indices r] (rr_block_number r) (rr_block_hash r).

(** [range_end] of the range that starts at [range_start]. *)
Definition range_end (max_log_range range_start to_block : Z) : Z :=
  u64 (range_start + Z.min (u64 (max_log_range - 1)) (u64 (to_block - range_start))).

Section rpc.
Context (json_parse : text -> option json) (transport : json -> option text).

Definition get_receipt (tx_hash : list byte) : Source (option ReceiptResult) :=
  id ← next_request_id;
  mret (response ← transport (make_get_transaction_receipt_request tx_hash id);
        parse_transaction_receipt_response json_parse response).

Definition get_block_number (tag : RpcBlockTag) : Source (option Z) :=
  id ← next_request_id;
  mret (response ← transport (make_get_block_by_number_request tag id);
        parse_block_number_response json_parse response).

(** A head that is asked for only if the policy prefers it. *)
Definition preferred_head (prefer : bool) (tag : RpcBlockTag) : Source (option Z) :=
  if prefer then get_block_number tag else mret None.

Definition finality_head : Source (option FinalityDecision) :=
  s ← get_state;
  let policy := finality_policy_ s in
  finalized ← preferred_head (prefer_finalized policy) JsonRpc.kFinalized;
  safe ← preferred_head (prefer_safe policy) JsonRpc.kSafe;
  latest ← get_block_number kLatest;
  let decision := choose_finality_head policy (mkHeads finalized safe latest) in
  mret (if available decision then Some decision else None).

Definition emit_receipt (tx_hash : list byte) : Source bool :=
  receipt ← get_receipt tx_hash;
  match receipt with
  | None => mret false
  | Some r =>
      s ← get_state;
      (if handler_ s then change (emit_batch (batch_of r)) else mret tt) ;;
      mret true
  end.

(** The loop over the logs; [seen] are the transactions of this range so far. *)
Fixpoint logs_loop (logs : list RpcLog) (seen : gset (list byte)) : Source (option (gset (list byte))) :=
  match logs with
  | [] => mret (Some seen)
  | log :: logs' =>
      if decide (rl_tx_hash log ∈ seen) then logs_loop logs' seen else
      ok ← emit_receipt (rl_tx_hash log);
      if negb ok then mret None else logs_loop logs' ({[rl_tx_hash log]} ∪ seen)
  end.

Definition backfill_filter (filter : EventFilter) (from_block to_block : Z) (seen : gset (list byte)) : Source (option (gset (list byte))) :=
  id ← next_request_id;
  match response ← transport (make_get_logs_request filter from_block to_block id); parse_get_logs_response json_parse response with
  | None => mret None
  | Some logs => logs_loop logs seen
  end.

Fixpoint filters_loop (entries : list (Z * EventFilter)) (from_block to_block : Z) (seen : gset (list byte)) : Source bool :=
  match entries with
  | [] => mret true
  | entry :: entries' =>
      r ← backfill_filter entry.2 from_block to_block seen;
      match r with
      | None => mret false
      | Some seen' => filters_loop entries' from_block to_block seen'
      end
  end.

(** The loop over the ranges, one unit of fuel each. *)
Fixpoint ranges_loop (fuel : nat) (range_start to_block : Z) : Source bool :=
  match fuel with
  | O => crash_with Diverge
  | S fuel' =>
      if to_block <? range_start then mret true else
      s ← get_state;
      let last := range_end (max_log_range_ s) range_start to_block in
      ok ← filters_loop (filters_ s) range_start last ∅;
      if negb ok then mret false else
      change (set_last_processed last) ;;
      if last =? to_block then mret true else ranges_loop fuel' (u64 (last + 1)) to_block
  end.

Definition backfill (from_block to_block : Z) : Source bool :=
  if to_block <? from_block then mret true else
  s ← get_state;
  ranges_loop (Z.to_nat ((to_block - from_block) / max_log_range_ s + 1)) from_block to_block.

Definition poll_once : Source bool :=
  head ← finality_head;
  match head with
  | None => mret false
  | Some d =>
      s ← get_state;
      if decision_block_number d <=? last_processed_block_ s then mret true else
      backfill (u64 (last_processed_block_ s + 1)) (decision_block_number d)
  end.
End rpc.

(** ** eth_receipt_source.cpp *)

(** [IEthReceiptSource], as far as the bridge uses it. *)
Class ReceiptSource (S : Type) := {
  add_filter : EventFilter -> S -> Z * S;
  remove_filter : Z -> S -> S;
  set_receipt_batch_handler : S -> S
}.

#[global] Instance rpc_receipt_source : ReceiptSource RpcReceiptSource := {|
  add_filter := rpc_add_filter;
  remove_filter := rpc_remove_filter;
  set_receipt_batch_handler := rpc_set_handler true
|}.

Section bridge.
Context {CB S : Type} `{ReceiptSource S} (keccak256 : list byte -> list byte).

(** The bridge with the service and the source it refers to. *)
Record EthReceiptSourceBridge := mkBridge {
  br_service : EthWatchService CB;
  br_source : S;
  br_subscriptions : list (Z * Z)
}.

Definition EthReceiptSourceBridge_new (service : EthWatchService CB) (source : S) : EthReceiptSourceBridge :=
  mkBridge service (set_receipt_batch_handler source) [].

Definition bridge_watch_event (contract_address : list byte) (event_signature : string) (params : list AbiParam) (callback : CB)
    (from to : option Z) : M EthReceiptSourceBridge Empty_set Z := fun b =>
  let '(source_id, source) := add_filter (make_event_filter keccak256 contract_address event_signature from to) (br_source b) in
  let '(r, service) := watch_event keccak256 contract_address event_signature params callback from to (br_service b) in
  match r with
  | success service_id => (r, mkBridge service source (br_subscriptions b ++ [(service_id, source_id)]))
  | _ => (r, mkBridge service source (br_subscriptions b))
  end.

(** [std::find_if] and [erase] of the entry it finds. *)
Fixpoint take_subscription (id : Z) (subs : list (Z * Z)) : option (Z * list (Z * Z)) :=
  match subs with
  | [] => None
  | sub :: subs' =>
      if sub.1 =? id then Some (sub.2, subs') else
      match take_subscription id subs' with
      | None => None
      | Some (source_id, rest) => Some (source_id, sub :: rest)
      end
  end.

Definition bridge_unwatch (id : Z) (b : EthReceiptSourceBridge) : EthReceiptSourceBridge :=
  let service := service_unwatch id (br_service b) in
  match take_subscription id (br_subscriptions b) with
  | None => mkBridge service (br_source b) (br_subscriptions b)
  | Some (source_id, rest) => mkBridge service (remove_filter source_id (br_source b)) rest
  end.

Definition process_receipt_batch (batch : ReceiptBatch) : M EthReceiptSourceBridge Empty_set unit := fun b =>
  let '(r, service) := process_receipts keccak256 (rb_receipts batch) (rb_tx_hashes batch) (rb_block_number batch) (rb_block_hash batch)
                         (rb_log_indices batch) (br_service b) in
  (r, mkBridge service (br_source b) (br_subscriptions b)).
End bridge.
Arguments EthReceiptSourceBridge : clear implicits.

(** ** An honest node *)

Section honest.
Context (json_parse : text -> option json) (transport : json -> option text).
(** The logs of the chain in order, and the status of its transactions. *)
Context (all_logs : list RpcLog) (tx_status : list byte -> Z).

(** The logs [eth_getLogs] selects for the addresses and topics of a filter. *)
Definition selected (f : EventFilter) (from_block to_block : Z) : list RpcLog :=
  base.filter (fun l => accepts (mkFilter (filter_addresses f) (filter_topics f) (Some from_block) (Some to_block)) (rl_log l) (rl_block_number l)) all_logs.

Definition tx_logs (tx : list byte) : list RpcLog := base.filter (fun l => rl_tx_hash l = tx) all_logs.

(** The receipt of the transaction that emitted a log. *)
Definition tx_result (l : RpcLog) : ReceiptResult :=
  mkReceiptResult
    (mkReceipt None (Some (negb (tx_status (rl_tx_hash l) =? 0))) 0 (replicate 256 x00) (map rl_log (tx_logs (rl_tx_hash l))))
    (rl_tx_hash l) (rl_block_number l) (rl_block_hash l) (map rl_log_index (tx_logs (rl_tx_hash l))).

Record honest_node : Prop := {
  hn_wf : Forall wf_rpc_log all_logs;
  hn_status tx : in_width 64 (tx_status tx);
  hn_logs f a b id : in_width 64 a -> in_width 64 b -> exists t js, transport (make_get_logs_request f a b id) = Some t /\
    Forall2 log_document (selected f a b) js /\ result_document json_parse t (JArray js);
  hn_receipt l id : l ∈ all_logs -> exists t j, transport (make_get_transaction_receipt_request (rl_tx_hash l) id) = Some t /\
    receipt_document (tx_status (rl_tx_hash l)) (rl_block_number l) (rl_block_hash l) (rl_tx_hash l) (tx_logs (rl_tx_hash l)) j /\
    result_document json_parse t j
}.

(** The first log of every transaction that is not in [seen]. *)
Fixpoint first_logs (seen : gset (list byte)) (logs : list RpcLog) : list RpcLog :=
  match logs with
  | [] => []
  | l :: logs' =>
      if decide (rl_tx_hash l ∈ seen) then first_logs seen logs' else l :: first_logs ({[rl_tx_hash l]} ∪ seen) logs'
  end.

Definition txs_of (logs : list RpcLog) : gset (list byte) := list_to_set (map rl_tx_hash logs).

(** The logs of a range for all filters, filter by filter. *)
Definition range_logs (filters : list (Z * EventFilter)) (a b : Z) : list RpcLog :=
  concat (map (fun entry => selected entry.2 a b) filters).

(** The consecutive ranges. *)
Fixpoint ranges (fuel : nat) (m start to : Z) : list (Z * Z) :=
  match fuel with
  | O => []
  | S fuel' => let last := Z.min (start + m - 1) to in (start, last) :: if last =? to then [] else ranges fuel' m (last + 1) to
  end.

(** The transactions a backfill reports: range by range, once per range. *)
Definition reported (filters : list (Z * EventFilter)) (rs : list (Z * Z)) : list RpcLog :=
  concat (map (fun r => first_logs ∅ (range_logs filters r.1 r.2)) rs).

Definition with_emitted (id : Z) (ls : list RpcLog) (s : RpcReceiptSource) : RpcReceiptSource :=
  mkSource (finality_policy_ s) (last_processed_block_ s) (max_log_range_ s) id (next_watch_id_ s) (filters_ s) (handler_ s)
    (emitted_ s ++ map (fun l => batch_of (tx_result l)) ls).

Lemma first_logs_app seen l1 l2 : first_logs seen (l1 ++ l2) = first_logs seen l1 ++ first_logs (txs_of l1 ∪ seen) l2.
Proof.
  revert seen. induction l1 as [|l l1 IH]; intros seen; cbn [app first_logs].
  - unfold txs_of. cbn. by rewrite union_empty_l_L.
  - assert (txs_of (l :: l1) = {[rl_tx_hash l]} ∪ txs_of l1) as -> by done. case_decide as Hs; rewrite IH.
    + by replace ({[rl_tx_hash l]} ∪ txs_of l1 ∪ seen) with (txs_of l1 ∪ seen) by set_solver.
    + by replace ({[rl_tx_hash l]} ∪ txs_of l1 ∪ seen) with (txs_of l1 ∪ ({[rl_tx_hash l]} ∪ seen)) by set_solver.
Qed.

Lemma with_emitted_twice i1 i2 l1 l2 s : with_emitted i2 l2 (with_emitted i1 l1 s) = with_emitted i2 (l1 ++ l2) s.
Proof. unfold with_emitted. cbn. by rewrite map_app, app_assoc. Qed.

Context (Hhonest : honest_node).

Lemma selected_subset f a b l : l ∈ selected f a b -> l ∈ all_logs.
Proof. by intros [_ ?]%list_elem_of_filter. Qed.

Lemma wf_filtered (P : RpcLog -> Prop) `{!forall l, Decision (P l)} : Forall wf_rpc_log (base.filter P all_logs).
Proof. apply Forall_forall. intros l [_ Hl]%list_elem_of_filter. by apply (proj1 (Forall_forall _ _) (hn_wf Hhonest)). Qed.

Lemma emit_receipt_eq l s : l ∈ all_logs -> handler_ s = true ->
  exists id, emit_receipt json_parse transport (rl_tx_hash l) s = (success true, with_emitted id [l] s).
Proof.
  intros Hl Hh. destruct (hn_receipt Hhonest l (next_rpc_id_ s) Hl) as (t & j & Et & Hd & Hr).
  pose proof (proj1 (Forall_forall _ _) (hn_wf Hhonest) l Hl) as [_ _ Hn Hb Ht _].
  unfold emit_receipt, get_receipt. unfold mbind at 1, M_bind at 1, mbind at 1, M_bind at 1. cbn [next_request_id mret M_ret].
  rewrite Et. cbn [mbind option_bind].
  rewrite (parse_receipt_answer _ _ _ _ _ _ _ _ (hn_status Hhonest _) Hn Hb Ht (wf_filtered _) Hd Hr).
  unfold mbind, M_bind. cbn [get_state handler_]. rewrite Hh. exists (u64 (next_rpc_id_ s + 1)). unfold with_emitted. by rewrite <- Hh.
Qed.

Lemma logs_loop_eq logs : forall seen s, (forall l, l ∈ logs -> l ∈ all_logs) -> handler_ s = true ->
  exists id, logs_loop json_parse transport logs seen s = (success (Some (txs_of logs ∪ seen)), with_emitted id (first_logs seen logs) s).
Proof.
  induction logs as [|l logs IH]; intros seen s Hl Hh; cbn [logs_loop first_logs].
  - exists (next_rpc_id_ s). unfold with_emitted, txs_of. cbn. rewrite app_nil_r, union_empty_l_L. by destruct s.
  - assert (txs_of (l :: logs) = {[rl_tx_hash l]} ∪ txs_of logs) as -> by done. case_decide as Hs.
    + destruct (IH seen s ltac:(intros; apply Hl; by right) Hh) as (id & ->). exists id.
      by replace ({[rl_tx_hash l]} ∪ txs_of logs ∪ seen) with (txs_of logs ∪ seen) by set_solver.
    + destruct (emit_receipt_eq l s ltac:(apply Hl; by left) Hh) as (i1 & E1). rewrite (bind_success _ _ _ _ _ E1). cbn [negb].
      destruct (IH ({[rl_tx_hash l]} ∪ seen) (with_emitted i1 [l] s) ltac:(intros; apply Hl; by right) Hh) as (i2 & ->).
      exists i2. rewrite with_emitted_twice.
      by replace ({[rl_tx_hash l]} ∪ txs_of logs ∪ seen) with (txs_of logs ∪ ({[rl_tx_hash l]} ∪ seen)) by set_solver.
Qed.

Lemma backfill_filter_eq f a b seen s : in_width 64 a -> in_width 64 b -> handler_ s = true ->
  exists id, backfill_filter json_parse transport f a b seen s =
    (success (Some (txs_of (selected f a b) ∪ seen)), with_emitted id (first_logs seen (selected f a b)) s).
Proof.
  intros Ha Hb Hh. destruct (hn_logs Hhonest f a b (next_rpc_id_ s) Ha Hb) as (t & js & Et & Hd & Hr).
  unfold backfill_filter. unfold mbind at 1, M_bind at 1. cbn [next_request_id]. rewrite Et. cbn [mbind option_bind].
  rewrite (parse_logs_answer _ _ (selected f a b) js (wf_filtered _) Hd Hr).
  destruct (logs_loop_eq (selected f a b) seen
    (mkSource (finality_policy_ s) (last_processed_block_ s) (max_log_range_ s) (u64 (next_rpc_id_ s + 1)) (next_watch_id_ s) (filters_ s) (handler_ s) (emitted_ s)))
    as (id & ->); [apply selected_subset|done|]. by exists id.
Qed.

Lemma filters_loop_eq entries a b : in_width 64 a -> in_width 64 b -> forall seen s, handler_ s = true ->
  exists id, filters_loop json_parse transport entries a b seen s = (success true, with_emitted id (first_logs seen (range_logs entries a b)) s).
Proof.
  intros Ha Hb. induction entries as [|entry entries IH]; intros seen s Hh; cbn [filters_loop].
  - exists (next_rpc_id_ s). unfold with_emitted. cbn. rewrite app_nil_r. by destruct s.
  - destruct (backfill_filter_eq entry.2 a b seen s Ha Hb Hh) as (i1 & E1). rewrite (bind_success _ _ _ _ _ E1).
    destruct (IH (txs_of (selected entry.2 a b) ∪ seen) (with_emitted i1 (first_logs seen (selected entry.2 a b)) s) Hh) as (i2 & ->).
    exists i2. rewrite with_emitted_twice. unfold range_logs. cbn [map concat]. by rewrite first_logs_app.
Qed.

Lemma range_end_eq m start to : 1 <= m < 2 ^ 64 -> 0 <= start <= to -> to < 2 ^ 64 -> range_end m start to = Z.min (start + m - 1) to.
Proof. intros. unfold range_end. rewrite (u64_small (m - 1)), (u64_small (to - start)), u64_small; lia. Qed.

Lemma fuel_step m start to fuel : 1 <= m -> start + m - 1 < to -> (Z.to_nat ((to - start) / m + 1) <= S fuel)%nat ->
  (Z.to_nat ((to - (start + m)) / m + 1) <= fuel)%nat.
Proof.
  intros Hm Hlt Hf. replace (to - start) with (to - (start + m) + 1 * m) in Hf by lia. rewrite Z_div_plus in Hf by lia.
  pose proof (Z.div_pos (to - (start + m)) m ltac:(lia) ltac:(lia)). lia.
Qed.

Lemma fuel_pos m start to : 1 <= m -> start <= to -> (0 < Z.to_nat ((to - start) / m + 1))%nat.
Proof. intros. pose proof (Z.div_pos (to - start) m ltac:(lia) ltac:(lia)). lia. Qed.

Lemma ranges_loop_eq m to : 1 <= m < 2 ^ 64 -> to < 2 ^ 64 -> forall fuel start s,
  max_log_range_ s = m -> handler_ s = true -> 0 <= start <= to -> (Z.to_nat ((to - start) / m + 1) <= fuel)%nat ->
  exists id, ranges_loop json_parse transport fuel start to s =
    (success true, set_last_processed to (with_emitted id (reported (filters_ s) (ranges fuel m start to)) s)).
Proof.
  intros Hm Hto. induction fuel as [|fuel IH]; intros start s Es Hh Hs Hf.
  { pose proof (fuel_pos m start to). lia. }
  cbn [ranges_loop ranges]. rewrite (proj2 (Z.ltb_ge _ _)) by lia. rewrite (bind_success get_state _ _ _ _ eq_refl), Es, range_end_eq by lia.
  set (last := Z.min (start + m - 1) to). destruct (filters_loop_eq (filters_ s) start last ltac:(unfold in_width; lia) ltac:(unfold in_width; lia) ∅ s Hh) as (i1 & E1).
  rewrite (bind_success _ _ _ _ _ E1). cbn [negb]. rewrite (bind_success (change _) _ _ _ _ eq_refl).
  unfold reported. cbn [map concat fst snd]. destruct (Z.eqb_spec last to) as [El|El].
  - exists i1. cbn [map concat]. by rewrite app_nil_r, El.
  - assert (last = start + m - 1) as El' by lia. rewrite u64_small by lia.
    destruct (IH (last + 1) (set_last_processed last (with_emitted i1 (first_logs ∅ (range_logs (filters_ s) start last)) s)) Es Hh) as (i2 & E2).
    + lia.
    + replace (last + 1) with (start + m) by lia. apply fuel_step; lia.
    + exists i2. rewrite E2. f_equal. unfold with_emitted, set_last_processed. cbn. by rewrite map_app, app_assoc.
Qed.
End honest.

(** ** The ranges partition the blocks *)

Lemma ranges_spec m to : 1 <= m -> forall fuel start, start <= to -> (Z.to_nat ((to - start) / m + 1) <= fuel)%nat ->
  (forall n, start <= n <= to <-> exists r, r ∈ ranges fuel m start to /\ r.1 <= n <= r.2) /\
  StronglySorted (fun r1 r2 => r1.2 < r2.1) (ranges fuel m start to) /\
  Forall (fun r => start <= r.1 <= r.2 /\ r.2 - r.1 < m) (ranges fuel m start to).
Proof.
  intros Hm. induction fuel as [|fuel IH]; intros start Hs Hf; [pose proof (fuel_pos m start to); lia|]. cbn [ranges].
  set (last := Z.min (start + m - 1) to). destruct (Z.eqb_spec last to) as [El|El].
  - split_and!.
    + intros n. split; [|by intros (r & ->%list_elem_of_singleton & ?); cbn in *; lia]. intros Hn. exists (start, last). split; [by left|cbn; lia].
    + repeat constructor.
    + repeat constructor; cbn; lia.
  - assert (last = start + m - 1) as El' by lia.
    destruct (IH (last + 1)) as (H1 & H2 & H3); [lia|replace (last + 1) with (start + m) by lia; apply fuel_step; lia|].
    split_and!.
    + intros n. split.
      * intros Hn. destruct (decide (n <= last)); [exists (start, last); split; [by left|cbn; lia]|].
        destruct (proj1 (H1 n) ltac:(lia)) as (r & Hr & ?). exists r. split; [by right|done].
      * intros (r & [->|Hr]%elem_of_cons & Hn); [cbn in Hn; lia|]. pose proof (proj2 (H1 n) ltac:(by exists r)). lia.
    + constructor; [done|]. eapply Forall_impl; [exact H3|]. cbn. intros r Hr. lia.
    + constructor; [cbn; lia|]. eapply Forall_impl; [exact H3|]. cbn. intros r Hr. lia.
Qed.

Lemma first_logs_subset seen logs l : l ∈ first_logs seen logs -> l ∈ logs.
Proof.
  revert seen. induction logs as [|x logs IH]; intros seen; cbn [first_logs]; [done|].
  case_decide; [intros Hl; right; by eapply IH|]. intros [->|Hl]%elem_of_cons; [by left|right; by eapply IH].
Qed.

Lemma first_logs_txs seen logs tx : tx ∈ map rl_tx_hash (first_logs seen logs) <-> tx ∈ map rl_tx_hash logs /\ tx ∉ seen.
Proof.
  revert seen. induction logs as [|x logs IH]; intros seen; cbn [first_logs map].
  - split; [by intros ?%elem_of_nil|by intros [?%elem_of_nil _]].
  - case_decide as Hx; rewrite ?elem_of_cons; cbn [map]; rewrite ?elem_of_cons, IH; [set_solver|].
    destruct (decide (tx = rl_tx_hash x)); set_solver.
Qed.

Lemma first_logs_nodup seen logs : NoDup (map rl_tx_hash (first_logs seen logs)).
Proof.
  revert seen. induction logs as [|x logs IH]; intros seen; cbn [first_logs]; [constructor|]. case_decide; [done|]. cbn [map].
  constructor; [|done]. rewrite first_logs_txs. set_solver.
Qed.

Lemma reported_txs all_logs filters rs tx :
  tx ∈ map rl_tx_hash (reported all_logs filters rs) <->
  exists r entry l, r ∈ rs /\ entry ∈ filters /\ l ∈ selected all_logs entry.2 r.1 r.2 /\ rl_tx_hash l = tx.
Proof.
  unfold reported. rewrite concat_map, map_map, list_elem_of_In, in_concat. split.
  - intros (txs & Hin & Htx). apply in_map_iff in Hin as (r & <- & Hr). apply list_elem_of_In, first_logs_txs in Htx as [Htx _].
    unfold range_logs in Htx. rewrite concat_map, map_map, list_elem_of_In, in_concat in Htx. destruct Htx as (ls & Hls & Htx).
    apply in_map_iff in Hls as (entry & <- & He). apply in_map_iff in Htx as (l & Hl & Hsel).
    exists r, entry, l. by rewrite !list_elem_of_In.
  - intros (r & entry & l & Hr & He & Hl & <-). eexists. split; [apply in_map, list_elem_of_In, Hr|]. apply list_elem_of_In, first_logs_txs.
    split; [|set_solver]. unfold range_logs. rewrite concat_map, map_map, list_elem_of_In, in_concat. eexists. split; [apply in_map, list_elem_of_In, He|].
    by apply in_map, list_elem_of_In.
Qed.

(** The block of a transaction is the same for all its logs. *)
Definition one_block (all_logs : list RpcLog) : Prop :=
  forall l l', l ∈ all_logs -> l' ∈ all_logs -> rl_tx_hash l = rl_tx_hash l' -> rl_block_number l = rl_block_number l'.

Lemma selected_range all_logs f a b l : l ∈ selected all_logs f a b -> l ∈ all_logs /\ a <= rl_block_number l <= b.
Proof. intros [[H1 H2 _ _] Hl]%list_elem_of_filter. cbn in H1, H2. done. Qed.

Lemma reported_nodup all_logs filters rs :
  one_block all_logs -> StronglySorted (fun r1 r2 => r1.2 < r2.1) rs -> NoDup (map rl_tx_hash (reported all_logs filters rs)).
Proof.
  intros Hone. induction 1 as [|r rs Hs IH Hr]; [constructor|]. unfold reported. cbn [map concat]. rewrite map_app. apply NoDup_app.
  split; [apply first_logs_nodup|]. split; [|exact IH]. intros tx H1 H2.
  assert (reported all_logs filters [r] = first_logs ∅ (range_logs all_logs filters r.1 r.2)) as E by (unfold reported; cbn; by rewrite app_nil_r).
  rewrite <- E in H1. apply reported_txs in H1 as (r1 & e1 & l1 & ->%list_elem_of_singleton & _ & [Hl1 Hn1]%selected_range & E1).
  apply (reported_txs all_logs filters rs) in H2 as (r2 & e2 & l2 & Hr2 & _ & [Hl2 Hn2]%selected_range & E2).
  rewrite Forall_forall in Hr. specialize (Hr r2 Hr2). cbn in Hr. pose proof (Hone l1 l2 Hl1 Hl2 ltac:(congruence)). lia.
Qed.

Lemma selected_widen all_logs f a b a' b' l :
  l ∈ selected all_logs f a b <-> l ∈ selected all_logs f a' b' /\ a <= rl_block_number l <= b \/ l ∈ selected all_logs f a b /\ ~ (a' <= rl_block_number l <= b').
Proof.
  unfold selected. rewrite !list_elem_of_filter. split.
  - intros [[H1 H2 H3 H4] Hl]. cbn in *. destruct (decide (a' <= rl_block_number l <= b')).
    + left. repeat split; try done; cbn; lia.
    + right. repeat split; done.
  - intros [[[[H1 H2 H3 H4] Hl] Hn]|[[H Hl] _]]; [|done]. split; [split|]; cbn in *; try done; lia.
Qed.

(** ** Any node *)

Section any_node.
Context (json_parse : text -> option json) (transport : json -> option text).

(** Steps that only ask the node and report batches. *)
Record asks (s s' : RpcReceiptSource) : Prop := {
  as_policy : finality_policy_ s' = finality_policy_ s;
  as_last : last_processed_block_ s' = last_processed_block_ s;
  as_max : max_log_range_ s' = max_log_range_ s;
  as_filters : filters_ s' = filters_ s;
  as_emitted : emitted_ s `prefix_of` emitted_ s'
}.

#[local] Instance asks_preorder : PreOrder asks.
Proof. split; [by intros s; split|]. intros s1 s2 s3 [] []. split; try congruence. by etrans. Qed.

(** Such a step that returns. *)
Definition asking {A} (m : Source A) : Prop := forall s, exists a s', m s = (success a, s') /\ asks s s'.

Lemma asking_ret {A} (a : A) : asking (mret a).
Proof. intros s. by exists a, s. Qed.

Lemma asking_bind {A B} (m : Source A) (f : A -> Source B) : asking m -> (forall a, asking (f a)) -> asking (m ≫= f).
Proof.
  intros Hm Hf s. destruct (Hm s) as (a & s1 & E1 & H1). destruct (Hf a s1) as (b & s2 & E2 & H2). exists b, s2.
  rewrite (bind_success _ _ _ _ _ E1). split; [done|]. by etrans.
Qed.

Lemma asking_id : asking next_request_id.
Proof. intros s. eexists _, _. by split. Qed.

Lemma asking_get {A} (f : RpcReceiptSource -> Source A) : (forall s, asking (f s)) -> asking (get_state ≫= f).
Proof. intros Hf s. by apply Hf. Qed.

Lemma asking_emit tx : asking (emit_receipt json_parse transport tx).
Proof.
  apply asking_bind; [apply asking_bind; [apply asking_id|intros; apply asking_ret]|]. intros [r|]; [|apply asking_ret].
  apply asking_get. intros s. apply asking_bind; [|intros; apply asking_ret]. destruct (handler_ s); [|apply asking_ret].
  intros s'. eexists _, _. split; [done|]. split; cbn; try done. by apply prefix_app_r.
Qed.

Lemma asking_logs logs : forall seen, asking (logs_loop json_parse transport logs seen).
Proof.
  induction logs as [|l logs IH]; intros seen; cbn [logs_loop]; [apply asking_ret|]. case_decide; [done|].
  apply asking_bind; [apply asking_emit|]. intros []; cbn [negb]; [apply IH|apply asking_ret].
Qed.

Lemma asking_filters entries a b : forall seen, asking (filters_loop json_parse transport entries a b seen).
Proof.
  induction entries as [|e entries IH]; intros seen; cbn [filters_loop]; [apply asking_ret|].
  apply asking_bind; [|intros [seen'|]; [apply IH|apply asking_ret]]. apply asking_bind; [apply asking_id|]. intros id.
  case_match; [apply asking_logs|apply asking_ret].
Qed.

(** The loop over the ranges returns; when it stops early the ranges before
    the one that failed are recorded as processed. *)
Lemma ranges_loop_returns m to : 1 <= m < 2 ^ 64 -> to < 2 ^ 64 -> forall fuel start s,
  max_log_range_ s = m -> 0 <= start <= to -> (Z.to_nat ((to - start) / m + 1) <= fuel)%nat ->
  exists ok s', ranges_loop json_parse transport fuel start to s = (success ok, s') /\ emitted_ s `prefix_of` emitted_ s' /\
    if ok then last_processed_block_ s' = to
    else last_processed_block_ s' = last_processed_block_ s \/ start <= last_processed_block_ s' < to.
Proof.
  intros Hm Hto. induction fuel as [|fuel IH]; intros start s Es Hs Hf.
  { pose proof (fuel_pos m start to). lia. }
  cbn [ranges_loop]. rewrite (proj2 (Z.ltb_ge _ _)) by lia. rewrite (bind_success get_state _ _ _ _ eq_refl), Es, range_end_eq by lia.
  set (last := Z.min (start + m - 1) to). destruct (asking_filters (filters_ s) start last ∅ s) as (ok & s1 & E1 & Ha).
  rewrite (bind_success _ _ _ _ _ E1). destruct ok; cbn [negb].
  - rewrite (bind_success (change _) _ _ _ _ eq_refl). destruct (Z.eqb_spec last to) as [El|El].
    + exists true, (set_last_processed last s1). split; [done|]. split; [apply Ha|]. done.
    + assert (last = start + m - 1) as El' by lia. rewrite u64_small by lia.
      destruct (IH (last + 1) (set_last_processed last s1)) as (ok & s2 & E2 & Hp & H2).
      * cbn. by rewrite (as_max _ _ Ha).
      * lia.
      * replace (last + 1) with (start + m) by lia. apply fuel_step; lia.
      * exists ok, s2. split; [done|]. split; [etrans; [apply Ha|apply Hp]|]. destruct ok; [done|]. cbn in H2. lia.
  - exists false, s1. split; [done|]. split; [apply Ha|]. left. apply Ha.
Qed.

Lemma asking_number tag s : exists n s', get_block_number json_parse transport tag s = (success n, s') /\ asks s s' /\ on_option (in_width 64) n.
Proof.
  unfold get_block_number, mbind, M_bind. cbn [next_request_id mret M_ret]. eexists _, _. split; [done|]. split; [done|].
  destruct (transport _) as [t|]; [|done]. cbn. unfold parse_block_number_response.
  destruct (or_none _) as [p|]; [|done]. cbn. destruct (or_none _) as [r|]; [|done]. cbn. destruct (or_none _) as [x|]; [|done]. cbn.
  unfold parse_quantity_value. destruct (uint64_hex x) as [n|] eqn:E; [|done]. by apply uint64_hex_range in E.
Qed.

Lemma asking_preferred b tag s : exists n s', preferred_head json_parse transport b tag s = (success n, s') /\ asks s s' /\ on_option (in_width 64) n.
Proof. destruct b; [apply asking_number|]. by exists None, s. Qed.

Lemma choose_head_range policy heads : wf_heads heads -> in_width 64 (decision_block_number (choose_finality_head policy heads)).
Proof.
  intros [H1 H2 H3]. unfold choose_finality_head, in_width.
  assert (0 <= decision_block_number (match confirmed_head (latest_number heads) (confirmation_depth policy) with
    | Some confirmed => mkDecision kConfirmedLatest confirmed (confirmation_depth policy) | None => mkDecision kUnavailable 0 0 end) < 2 ^ 64) as Hc.
  { unfold confirmed_head. destruct (latest_number heads); [|done]. destruct (_ || _); [done|]. cbn. apply u64_range. }
  destruct (prefer_finalized policy), (finalized_number heads) as [n|], (prefer_safe policy), (safe_number heads) as [n'|]; cbn in *; done.
Qed.

Lemma finality_head_returns s : exists d s', finality_head json_parse transport s = (success d, s') /\ asks s s' /\
  on_option (fun d => in_width 64 (decision_block_number d)) d.
Proof.
  unfold finality_head. rewrite (bind_success get_state _ _ _ _ eq_refl).
  destruct (asking_preferred (prefer_finalized (finality_policy_ s)) JsonRpc.kFinalized s) as (f & s1 & E1 & A1 & W1). rewrite (bind_success _ _ _ _ _ E1).
  destruct (asking_preferred (prefer_safe (finality_policy_ s)) JsonRpc.kSafe s1) as (f2 & s2 & E2 & A2 & W2). rewrite (bind_success _ _ _ _ _ E2).
  destruct (asking_number kLatest s2) as (f3 & s3 & E3 & A3 & W3). rewrite (bind_success _ _ _ _ _ E3).
  eexists _, s3. split; [done|]. split; [by do 2 (etrans; [done|])|]. destruct (available _); [|done]. cbn. by apply choose_head_range.
Qed.
End any_node.

(** ** The bridge keeps service and source together *)

(** What the bridge needs of a source: the filters it holds, in order, and ids
    that are fresh for the first [2^32] filters. *)
Class ReceiptSourceLaws (S : Type) `{ReceiptSource S} := {
  source_filters : S -> list (Z * EventFilter);
  source_valid : Z -> S -> Prop;
  add_filter_view f s : source_filters (add_filter f s).2 = source_filters s ++ [((add_filter f s).1, f)];
  remove_filter_view id s : source_filters (remove_filter id s) = base.filter (fun e => e.1 <> id) (source_filters s);
  handler_view s : source_filters (set_receipt_batch_handler s) = source_filters s;
  add_filter_fresh k f s : 0 <= k < 2 ^ 32 -> source_valid k s -> (add_filter f s).1 ∉ (source_filters s).*1;
  add_filter_valid k f s : 0 <= k -> k + 1 < 2 ^ 32 -> source_valid k s -> source_valid (k + 1) (add_filter f s).2;
  remove_filter_valid k id s : source_valid k s -> source_valid k (remove_filter id s);
  handler_valid k s : source_valid k s -> source_valid k (set_receipt_batch_handler s)
}.

(** The ids of the RPC source are numbered through. *)
Record rpc_valid (k : Z) (s : RpcReceiptSource) : Prop := {
  rv_next : next_watch_id_ s = u32 (k + 1);
  rv_range id : id ∈ (filters_ s).*1 -> 1 <= id <= k
}.

#[global] Program Instance rpc_receipt_source_laws : ReceiptSourceLaws RpcReceiptSource := {|
  source_filters := filters_;
  source_valid := rpc_valid
|}.
Next Obligation. done. Qed.
Next Obligation. done. Qed.
Next Obligation. done. Qed.
Next Obligation.
  intros k f s Hk [Hn Hr] Hin. specialize (Hr _ Hin). cbn in Hr. rewrite Hn in Hr. destruct (decide (k + 1 < 2 ^ 32)).
  - rewrite u32_small in Hr by lia. lia.
  - replace (k + 1) with (2 ^ 32) in Hr by lia. change (u32 (2 ^ 32)) with 0 in Hr. lia.
Qed.
Next Obligation.
  intros k f s Hk0 Hk [Hn Hr]. split; cbn.
  - rewrite Hn. unfold u32. by rewrite Zplus_mod_idemp_l.
  - intros id. rewrite fmap_app, elem_of_app. intros [Hid|Hid%list_elem_of_singleton]; [specialize (Hr _ Hid); lia|].
    cbn in Hid. rewrite Hid, Hn, u32_small; lia.
Qed.
Next Obligation.
  intros k id s [Hn Hr]. split; cbn; [done|]. intros id' Hid. apply Hr. apply list_elem_of_fmap in Hid as (e & -> & [_ He]%list_elem_of_filter).
  by apply list_elem_of_fmap_2.
Qed.
Next Obligation. intros k s []. by split. Qed.

Inductive bridge_op (CB : Type) :=
  | BridgeWatch (contract : list byte) (signature : string) (params : list AbiParam) (callback : CB) (from to : option Z)
  | BridgeUnwatch (id : Z)
  | BridgeBatch (batch : ReceiptBatch).
Arguments BridgeWatch {CB} _ _ _ _ _ _.
Arguments BridgeUnwatch {CB} _.
Arguments BridgeBatch {CB} _.

Section bridge_facts.
Context {CB S : Type} `{ReceiptSourceLaws S} (keccak256 : list byte -> list byte).

Definition run_bridge_op (op : bridge_op CB) : M (EthReceiptSourceBridge CB S) Empty_set unit :=
  match op with
  | BridgeWatch contract signature params callback from to => bridge_watch_event keccak256 contract signature params callback from to ;; mret tt
  | BridgeUnwatch id => fun b => (success tt, bridge_unwatch id b)
  | BridgeBatch batch => process_receipt_batch keccak256 batch
  end.

(** The subscriptions, the watcher's filters and the source's, entry by entry. *)
Record bridge_ok (k : Z) (b : EthReceiptSourceBridge CB S) : Prop := {
  bo_ids : ids_from k (watcher_ (br_service b));
  bo_synced : synced_subscriptions (br_service b);
  bo_valid : source_valid k (br_source b);
  bo_service : (br_subscriptions b).*1 = map sub_id (subscriptions_ (watcher_ (br_service b)));
  bo_source : (br_subscriptions b).*2 = (source_filters (br_source b)).*1;
  bo_nodup : NoDup (source_filters (br_source b)).*1;
  bo_filters : (source_filters (br_source b)).*2 = map sub_filter (subscriptions_ (watcher_ (br_service b)))
}.

Lemma filter_others {A} (f : A -> Z) (l : list A) (x : Z) : x ∉ map f l -> base.filter (fun y => f y <> x) l = l.
Proof.
  induction l as [|y l IH]; intros Hx; [done|]. cbn [map] in Hx. rewrite filter_cons, decide_True by (intros E; apply Hx; rewrite E; by left).
  rewrite IH; [done|]. intros Hin. apply Hx. by right.
Qed.

(** Removing the one element with the key of [x]. *)
Lemma filter_one {A} (f : A -> Z) (l1 l2 : list A) (x : A) :
  NoDup (map f (l1 ++ x :: l2)) -> base.filter (fun y => f y <> f x) (l1 ++ x :: l2) = l1 ++ l2.
Proof.
  rewrite map_app. cbn [map]. intros (_ & H1 & [H2 _]%NoDup_cons)%NoDup_app.
  rewrite filter_app, filter_cons, decide_False by tauto. rewrite !filter_others; [done|done|].
  intros Hin. apply (H1 (f x) Hin). by left.
Qed.

Lemma take_subscription_spec id subs :
  match take_subscription id subs with
  | None => id ∉ subs.*1
  | Some (src, rest) => exists l1 l2, subs = l1 ++ (id, src) :: l2 /\ rest = l1 ++ l2
  end.
Proof.
  induction subs as [|[sid src] subs IH]; cbn [take_subscription fst snd]; [by intros ?%elem_of_nil|].
  destruct (Z.eqb_spec sid id) as [->|Hne]; [by exists [], subs|]. destruct (take_subscription id subs) as [[src' rest]|].
  - destruct IH as (l1 & l2 & -> & ->). by exists ((sid, src) :: l1), l2.
  - cbn. intros [->|Hin]%elem_of_cons; [done|]. by apply IH.
Qed.

Lemma bridge_watch_ok k contract signature params callback from to b : 0 <= k -> k + 1 < 2 ^ 32 -> bridge_ok k b ->
  bridge_ok (k + 1) (run_bridge_op (BridgeWatch contract signature params callback from to) b).2.
Proof.
  intros Hk0 Hk [Hi Hs Hv H1 H2 H3 H4]. cbn [run_bridge_op]. unfold mbind, M_bind, mret, M_ret, bridge_watch_event.
  set (f := make_event_filter _ _ _ _ _). pose proof (add_filter_view f (br_source b)) as Ev.
  pose proof (add_filter_fresh k f (br_source b) ltac:(lia) Hv) as Hfr. pose proof (add_filter_valid k f (br_source b) Hk0 Hk Hv) as Hv'.
  destruct (add_filter f (br_source b)) as [src source]. cbn [fst snd] in *. unfold watch_event. fold f.
  pose proof (synced_watch k f (br_service b) (mkWatchSub (sv_next_id (br_service b)) signature params callback) ltac:(lia) Hi Hs eq_refl) as Hs'.
  pose proof (ids_watch k f (sv_next_id (br_service b)) _ Hk0 Hk Hi) as Hi'. unfold watch in *. cbn [snd] in *.
  split; cbn [snd br_service br_source br_subscriptions]; [done|done|done|..].
  - rewrite fmap_app, H1. cbn. rewrite map_app. cbn. by rewrite (sync_next _ Hs).
  - by rewrite fmap_app, H2, Ev, fmap_app.
  - rewrite Ev, fmap_app. apply NoDup_app. split; [done|]. split; [|apply NoDup_singleton]. intros x Hx ->%list_elem_of_singleton. done.
  - rewrite Ev, fmap_app, H4. cbn. by rewrite map_app.
Qed.

Lemma bridge_unwatch_ok k id b : bridge_ok k b -> bridge_ok k (bridge_unwatch id b).
Proof.
  intros [Hi Hs Hv H1 H2 H3 H4]. pose proof (ids_unwatch k id _ Hi) as Hi'. pose proof (synced_unwatch id _ Hs) as Hs'.
  pose proof (ids_nodup _ _ Hi) as Hnd. unfold bridge_unwatch. pose proof (take_subscription_spec id (br_subscriptions b)) as Ht.
  destruct (take_subscription id (br_subscriptions b)) as [[src rest]|].
  - destruct Ht as (l1 & l2 & E & ->). rewrite E, fmap_app in H1, H2. cbn in H1, H2.
    symmetry in H1, H2. apply fmap_app_inv in H1 as (W1 & W' & HW1 & HW2 & EW). destruct W' as [|w W2]; [done|]. injection HW2 as Ew HW2.
    apply fmap_app_inv in H2 as (F1 & F' & HF1 & HF2 & EF). destruct F' as [|e F2]; [done|]. injection HF2 as Ee HF2.
    rewrite EW in *. rewrite EF in *. subst id src.
    assert (map sub_filter W1 = F1.*2 /\ map sub_filter W2 = F2.*2) as [G1 G2].
    { rewrite fmap_app, map_app in H4. cbn in H4. apply app_inj_1 in H4 as [G1 G2].
      - injection G2 as _ G2. done.
      - apply (f_equal length) in HW1 as LW. apply (f_equal length) in HF1 as LF. rewrite !length_fmap in LF.
        change (map sub_filter W1) with (sub_filter <$> W1). change (length l1.*1 = length (sub_id <$> W1)) in LW. rewrite !length_fmap in LW. rewrite !length_fmap. lia. }
    split; cbn [br_service br_source br_subscriptions service_unwatch with_subscriptions watcher_ unwatch subscriptions_].
    + done.
    + done.
    + by apply remove_filter_valid.
    + rewrite EW. rewrite (filter_one sub_id W1 W2 w) by done. rewrite fmap_app, map_app. by rewrite HW1, HW2.
    + rewrite remove_filter_view, EF, (filter_one fst F1 F2 e) by done. rewrite !fmap_app. by rewrite HF1, HF2.
    + rewrite remove_filter_view, EF, (filter_one fst F1 F2 e) by done. rewrite fmap_app in *. cbn in H3.
      apply NoDup_app in H3 as (N1 & N2 & [_ N3]%NoDup_cons). apply NoDup_app. split; [done|]. split; [|done].
      intros x Hx Hx2. apply (N2 x Hx). by right.
    + rewrite remove_filter_view, EF, EW, (filter_one fst F1 F2 e), (filter_one sub_id W1 W2 w) by done. rewrite fmap_app, map_app. by rewrite G1, G2.
  - assert (base.filter (fun w => sub_id w <> id) (subscriptions_ (watcher_ (br_service b))) = subscriptions_ (watcher_ (br_service b))) as Ef
      by (apply (filter_others sub_id); by rewrite <- H1).
    split; cbn [br_service br_source br_subscriptions service_unwatch with_subscriptions watcher_ unwatch subscriptions_]; rewrite ?Ef; done.
Qed.

Lemma bridge_batch_ok k batch b : bridge_ok k b -> bridge_ok k (run_bridge_op (BridgeBatch batch) b).2.
Proof.
  intros [Hi Hs Hv H1 H2 H3 H4]. cbn [run_bridge_op]. unfold process_receipt_batch.
  pose proof (process_receipts_answers keccak256 (rb_receipts batch) (rb_tx_hashes batch) (rb_block_number batch) (rb_block_hash batch)
    (rb_log_indices batch) (br_service b)) as Ha. destruct (process_receipts _ _ _ _ _ _ _) as [r service]. cbn [snd] in *.
  destruct Ha, Hs. split; cbn [br_service br_source br_subscriptions]; rewrite ?an_watcher; try done.
  split; rewrite ?an_watcher, ?an_subs, ?an_next; done.
Qed.
End bridge_facts.

Fixpoint bridge_watches {CB} (ops : list (bridge_op CB)) : Z :=
  match ops with [] => 0 | BridgeWatch _ _ _ _ _ _ :: ops' => 1 + bridge_watches ops' | _ :: ops' => bridge_watches ops' end.

Lemma bridge_watches_nonneg {CB} (ops : list (bridge_op CB)) : 0 <= bridge_watches ops.
Proof. induction ops as [|[] ops IH]; cbn; lia. Qed.

Lemma run_bridge_ok {CB S} `{ReceiptSourceLaws S} keccak256 (ops : list (bridge_op CB)) : forall k (b : EthReceiptSourceBridge CB S),
  0 <= k -> k + bridge_watches ops < 2 ^ 32 -> bridge_ok k b ->
  exists k', bridge_ok k' (for_each (run_bridge_op keccak256) ops b).2.
Proof.
  induction ops as [|op ops IH]; intros k b Hk0 Hk Hb; [by exists k|]. cbn [for_each]. pose proof (bridge_watches_nonneg ops).
  assert (exists k1, 0 <= k1 /\ k1 + bridge_watches ops < 2 ^ 32 /\ bridge_ok k1 (run_bridge_op keccak256 op b).2) as (k1 & ? & ? & Hb1).
  { destruct op as [contract signature params callback from to|id|batch]; cbn [bridge_watches] in Hk.
    - exists (k + 1). split; [lia|]. split; [lia|]. apply bridge_watch_ok; [lia|lia|done].
    - exists k. split; [lia|]. split; [lia|]. by apply bridge_unwatch_ok.
    - exists k. split; [lia|]. split; [lia|]. by apply bridge_batch_ok. }
  unfold mbind, M_bind. destruct (run_bridge_op keccak256 op b) as [[[]|e|f] b1]; [|eexists; exact Hb1|eexists; exact Hb1]. by apply (IH k1).
Qed.

(** ** The theorems *)

(** C3: A backfill against a node that reports the chain truthfully succeeds,
    records the last block as processed, and hands the receipts of exactly the
    transactions that have a log in the range matching a registered filter to
    the batch handler, each transaction once, whatever the size of the ranges
    the code splits the blocks into. *)
Theorem backfill_complete (json_parse : text -> option json) (transport : json -> option text) (all_logs : list RpcLog)
    (tx_status : list byte -> Z) (from_block to_block : Z) (s : RpcReceiptSource) :
  honest_node json_parse transport all_logs tx_status -> one_block all_logs ->
  handler_ s = true -> 1 <= max_log_range_ s < 2 ^ 64 -> 0 <= from_block <= to_block -> to_block < 2 ^ 64 ->
  exists s' ls, backfill json_parse transport from_block to_block s = (success true, s') /\
    last_processed_block_ s' = to_block /\ filters_ s' = filters_ s /\
    emitted_ s' = emitted_ s ++ map (fun l => batch_of (tx_result all_logs tx_status l)) ls /\
    NoDup (map rl_tx_hash ls) /\
    forall tx, tx ∈ map rl_tx_hash ls <->
      exists l entry, l ∈ all_logs /\ rl_tx_hash l = tx /\ entry ∈ filters_ s /\
        accepts (mkFilter (filter_addresses entry.2) (filter_topics entry.2) (Some from_block) (Some to_block)) (rl_log l) (rl_block_number l).
Proof.
  intros Hn Hone Hh Hm Hr Ht. unfold backfill. rewrite (proj2 (Z.ltb_ge _ _)) by lia. rewrite (bind_success get_state _ _ _ _ eq_refl).
  set (fuel := Z.to_nat _).
  destruct (ranges_loop_eq _ _ _ _ Hn (max_log_range_ s) to_block Hm Ht fuel from_block s eq_refl Hh Hr ltac:(done)) as (id & E).
  destruct (ranges_spec (max_log_range_ s) to_block ltac:(lia) fuel from_block ltac:(lia) ltac:(done)) as (Hc & Hsort & Hin).
  eexists _, (reported all_logs (filters_ s) (ranges fuel (max_log_range_ s) from_block to_block)). split; [exact E|].
  split; [done|]. split; [done|]. split; [done|]. split; [by apply reported_nodup|]. intros tx. rewrite reported_txs. split.
  - intros (r & entry & l & Hr' & He & Hl & <-). apply (selected_widen _ _ _ _ from_block to_block) in Hl as Hw. 
    assert (from_block <= rl_block_number l <= to_block) as Hb.
    { apply Hc. exists r. split; [done|]. by apply selected_range in Hl as [_ ?]. }
    destruct Hw as [[Hw _]|[_ Hw]]; [|done]. apply list_elem_of_filter in Hw as [Hacc Hall]. by exists l, entry.
  - intros (l & entry & Hall & Htx & He & Hacc). pose proof Hacc as [H1 H2 _ _]. cbn in H1, H2.
    destruct (proj1 (Hc (rl_block_number l)) ltac:(lia)) as (r & Hr' & Hb). exists r, entry, l. split; [done|]. split; [done|]. split; [|done].
    apply (selected_widen _ _ r.1 r.2 from_block to_block). left. split; [|lia]. apply list_elem_of_filter. done.
Qed.

(** Whatever the node answers, a poll returns; the blocks recorded as
    processed never decrease and never pass the finality head it was given, so
    no block above it counts as processed and a poll that failed is resumed
    behind the last range that was complete. *)
Theorem poll_progress (json_parse : text -> option json) (transport : json -> option text) (s : RpcReceiptSource) :
  in_width 64 (last_processed_block_ s) -> 1 <= max_log_range_ s < 2 ^ 64 ->
  exists ok s' head s1, poll_once json_parse transport s = (success ok, s') /\
    finality_head json_parse transport s = (success head, s1) /\
    emitted_ s `prefix_of` emitted_ s' /\
    match head with
    | None => ok = false /\ last_processed_block_ s' = last_processed_block_ s
    | Some d =>
        last_processed_block_ s <= last_processed_block_ s' <= Z.max (last_processed_block_ s) (decision_block_number d) /\
        (ok = true -> last_processed_block_ s' = Z.max (last_processed_block_ s) (decision_block_number d))
    end.
Proof.
  unfold in_width. intros Hl Hm. destruct (finality_head_returns json_parse transport s) as (head & s1 & E1 & Ha & Hd).
  unfold poll_once. rewrite (bind_success _ _ _ _ _ E1). destruct head as [d|].
  2:{ exists false, s1, None, s1. split_and!; [done|done|apply Ha|done|apply Ha]. }
  rewrite (bind_success get_state _ _ _ _ eq_refl), (as_last _ _ Ha). cbn in Hd. unfold in_width in Hd.
  destruct (Z.leb_spec (decision_block_number d) (last_processed_block_ s)) as [Hle|Hgt].
  - exists true, s1, (Some d), s1. split_and!; [done|done|apply Ha| | |]; rewrite (as_last _ _ Ha); lia.
  - unfold backfill. rewrite u64_small by lia. rewrite (proj2 (Z.ltb_ge _ _)) by lia. rewrite (bind_success get_state _ _ _ _ eq_refl), (as_max _ _ Ha).
    destruct (ranges_loop_returns json_parse transport (max_log_range_ s) (decision_block_number d) Hm ltac:(lia)
      (Z.to_nat ((decision_block_number d - (last_processed_block_ s + 1)) / max_log_range_ s + 1)) (last_processed_block_ s + 1) s1 (as_max _ _ Ha) ltac:(lia) ltac:(done))
      as (ok & s2 & E2 & Hp & H2).
    exists ok, s2, (Some d), s1. split; [done|]. split; [done|]. split; [etrans; [apply Ha|done]|]. rewrite (as_last _ _ Ha) in H2. destruct ok; lia.
Qed.

(** The bridge and any source that keeps the interface's promises: whatever
    watches are registered and removed and whatever batches arrive, the source
    holds exactly the filters of the service's live subscriptions, in the same
    order, and the bridge's table pairs their ids. *)
Theorem bridge_filters_agree {CB S} `{ReceiptSourceLaws S} (keccak256 : list byte -> list byte) (source : S) (ops : list (bridge_op CB)) :
  source_valid 0 source -> source_filters source = [] -> bridge_watches ops < 2 ^ 32 ->
  let b := (for_each (run_bridge_op keccak256) ops (EthReceiptSourceBridge_new EthWatchService_new source)).2 in
  (source_filters (br_source b)).*2 = map sub_filter (subscriptions_ (watcher_ (br_service b))) /\
  (br_subscriptions b).*1 = map sub_id (subscriptions_ (watcher_ (br_service b))) /\
  (br_subscriptions b).*2 = (source_filters (br_source b)).*1.
Proof.
  intros Hv He Hc b. destruct (run_bridge_ok keccak256 ops 0 (EthReceiptSourceBridge_new EthWatchService_new source) ltac:(lia) Hc) as (k & Hb).
  { destruct (new_service_ok (CB := CB)) as [Hi Hs _ _].
    split; cbn [EthReceiptSourceBridge_new br_service br_source br_subscriptions]; rewrite ?handler_view, ?He; try done; [by apply handler_valid|constructor]. }
  fold b in Hb. by destruct Hb.
Qed.

(** ** A concrete node *)

Module SampleNode.
Definition receipt_json : json := JObject
  [(lit "status", JString (lit "0x1")); (lit "blockNumber", JString (lit "0x5")); (lit "blockHash", JString (hex_string sample_hash));
   (lit "transactionHash", JString (hex_string sample_hash)); (lit "logs", JArray [SampleRpc.log_json])].

(** The text of a response is a tag here: [00] no logs, [01] the log, [02] its receipt. *)
Definition parse (t : text) : option json :=
  match t with
  | [x00] => Some (JObject [(lit "result", JArray [])])
  | [x01] => Some (JObject [(lit "result", JArray [SampleRpc.log_json])])
  | _ => Some (JObject [(lit "result", receipt_json)])
  end.

Definition param (j : json) (name : text) : option json :=
  match j with JObject fields => if_contains fields name | _ => None end.

(** The node reads the filter of a request. *)
Definition unhex (j : json) : list byte := match j with JString h => default [] (hex_bytes h) | _ => [] end.
Definition addresses_of (j : json) : list (list byte) :=
  match param j (lit "address") with
  | None => []
  | Some (JArray l) => map unhex l
  | Some j => [unhex j]
  end.
Definition topics_of (j : json) : list (option (list byte)) :=
  match param j (lit "topics") with
  | Some (JArray l) => map (fun t => match t with JNull => None | t => Some (unhex t) end) l
  | _ => []
  end.
Definition block_of (j : json) (name : string) : Z :=
  match param j (lit name) with Some (JString h) => default 0 (uint64_hex h) | _ => 0 end.
Definition read_filter (j : json) : EventFilter :=
  mkFilter (addresses_of j) (topics_of j) (Some (block_of j "fromBlock")) (Some (block_of j "toBlock")).

Definition transport (request : json) : option text :=
  match param request (lit "params") with
  | Some (JArray (JObject fields :: _)) =>
      if decide (accepts (read_filter (JObject fields)) sample_log 5) then Some [x01] else Some [x00]
  | _ => Some [x02]
  end.
Definition watched : EventFilter := mkFilter [sample_address] [None; Some sample_hash] None None.
Definition source : RpcReceiptSource := rpc_set_handler true (rpc_add_filter watched (RpcReceiptSource_new (mkPolicy true true 64) 0 2)).2.

Lemma unhex_string bs : unhex (JString (hex_string bs)) = bs.
Proof. unfold unhex. by rewrite hex_bytes_string. Qed.

Lemma read_filter_eq f a b : in_width 64 a -> in_width 64 b ->
  read_filter (filter_json f a b) = mkFilter (filter_addresses f) (filter_topics f) (Some a) (Some b).
Proof.
  intros Ha Hb. unfold read_filter, block_of. destruct f as [addresses topics from to]. cbn [filter_addresses filter_topics].
  replace (param (filter_json (mkFilter addresses topics from to) a b) (lit "fromBlock")) with (Some (JString (uint64_hex_quantity a))) by reflexivity.
  replace (param (filter_json (mkFilter addresses topics from to) a b) (lit "toBlock")) with (Some (JString (uint64_hex_quantity b))) by reflexivity.
  rewrite !uint64_hex_quantity_eq by done. cbn [default from_option id]. f_equal.
  - unfold addresses_of. destruct addresses as [|x [|y l]].
    + destruct topics; reflexivity.
    + replace (param (filter_json (mkFilter [x] topics from to) a b) (lit "address")) with (Some (JString (hex_string x))) by reflexivity.
      by rewrite unhex_string.
    + replace (param (filter_json (mkFilter (x :: y :: l) topics from to) a b) (lit "address"))
        with (Some (JArray (map (fun a => JString (hex_string a)) (x :: y :: l)))) by reflexivity.
      rewrite map_map. erewrite map_ext; [apply map_id|]. apply unhex_string.
  - unfold topics_of. destruct topics as [|t topics].
    + destruct addresses as [|x [|y l]]; reflexivity.
    + replace (param (filter_json (mkFilter addresses (t :: topics) from to) a b) (lit "topics"))
        with (Some (JArray (map (fun t => match t with None => JNull | Some t => JString (hex_string t) end) (t :: topics))))
        by (destruct addresses as [|x [|y l]]; reflexivity).
      rewrite map_map. erewrite map_ext; [apply map_id|]. intros [u|]; [|done]. by rewrite unhex_string.
Qed.

Lemma log_json_document : log_document SampleRpc.log SampleRpc.log_json.
Proof. eapply Build_log_document; reflexivity. Qed.

Lemma honest : honest_node parse transport [SampleRpc.log] (fun _ => 1).
Proof.
  split.
  - apply Forall_singleton. split; repeat constructor; vm_compute; intuition congruence.
  - intros tx. unfold in_width. lia.
  - intros f a b id Ha Hb.
    assert (transport (make_get_logs_request f a b id) =
      (if decide (accepts (mkFilter (filter_addresses f) (filter_topics f) (Some a) (Some b)) sample_log 5) then Some [x01] else Some [x00])) as ->.
    { rewrite <- (read_filter_eq f a b Ha Hb). reflexivity. }
    unfold selected. rewrite filter_cons, filter_nil. cbn [SampleRpc.log rl_log rl_block_number].
    destruct (decide (accepts _ _ _)).
    + exists [x01], [SampleRpc.log_json]. split; [reflexivity|]. split; [|eexists; split; reflexivity].
      constructor; [apply log_json_document|constructor].
    + exists [x00], []. split; [reflexivity|]. split; [constructor|eexists; split; reflexivity].
  - intros l id ->%list_elem_of_singleton. exists [x02], receipt_json. split; [reflexivity|]. split; [|eexists; split; reflexivity].
    eapply Build_receipt_document; try reflexivity. apply Forall2_cons. split; [apply log_json_document|constructor].
Qed.
End SampleNode.

Lemma backfill_complete_witness :
  exists s' ls, backfill SampleNode.parse SampleNode.transport 1 9 SampleNode.source = (success true, s') /\ last_processed_block_ s' = 9 /\
    NoDup (map rl_tx_hash ls).
Proof.
  destruct (backfill_complete SampleNode.parse SampleNode.transport [SampleRpc.log] (fun _ => 1) 1 9 SampleNode.source SampleNode.honest)
    as (s' & ls & H1 & H2 & _ & _ & H3 & _).
  - intros l l' ->%list_elem_of_singleton ->%list_elem_of_singleton _. reflexivity.
  - reflexivity.
  - cbn. lia.
  - lia.
  - lia.
  - exists s', ls. split; [exact H1|]. split; [exact H2|exact H3].
Defined.

Lemma poll_progress_witness :
  exists ok s', poll_once SampleNode.parse SampleNode.transport SampleNode.source = (success ok, s') /\ emitted_ SampleNode.source `prefix_of` emitted_ s'.
Proof.
  destruct (poll_progress SampleNode.parse SampleNode.transport SampleNode.source) as (ok & s' & head & s1 & H1 & _ & H2 & _).
  - split; reflexivity || (cbn; lia).
  - cbn. lia.
  - exists ok, s'. split; [exact H1|exact H2].
Defined.

Lemma bridge_filters_agree_witness :
  let b := (for_each (run_bridge_op (fun _ => sample_hash))
    [BridgeWatch sample_address "A()" [] 1%nat None None; BridgeWatch sample_address "B()" [] 2%nat (Some 7) None; BridgeUnwatch 1]
    (EthReceiptSourceBridge_new EthWatchService_new (RpcReceiptSource_new (mkPolicy true true 64) 0 1000))).2 in
  (source_filters (br_source b)).*2 = map sub_filter (subscriptions_ (watcher_ (br_service b))) /\ (br_subscriptions b).*1 = [2].
Proof.
  split; [|reflexivity].
  apply (bridge_filters_agree (fun _ => sample_hash) (RpcReceiptSource_new (mkPolicy true true 64) 0 1000)
    [BridgeWatch sample_address "A()" [] 1%nat None None; BridgeWatch sample_address "B()" [] 2%nat (Some 7) None; BridgeUnwatch 1]).
  - split; [reflexivity|]. by intros id ?%elem_of_nil.
  - reflexivity.
  - vm_compute. reflexivity.
Defined.
