(* ===== verification/Base64Url.v ===== *)
(** * Base64url

    [EnrParser::base64url_decode] and its lookup table
    ([src/discv5/discv5_enr.cpp]): the trailing padding is stripped, and every
    character shifts six bits into a 32-bit accumulator from which a byte is
    taken whenever eight bits are there.

    [base64url_decode_spec] says what the accumulator loop computes: the text is
    a number in base 64, and the bytes are its high-order part.  The reference
    encoder of RFC 4648 is stated on the same number, so that the round trip is
    arithmetic. *)

From S2P Require Import Prelude ParseUtility.

(** [enum class discv5Error]. *)
Inductive discv5Error :=
  | kEnrMissingPrefix | kEnrBase64DecodeFailed | kEnrRlpDecodeFailed | kEnrTooShort | kEnrTooLarge
  | kEnrSignatureInvalid | kEnrSignatureWrongSize | kEnrMissingSecp256k1Key | kEnrInvalidSecp256k1Key
  | kEnrMissingAddress | kEnrInvalidIp | kEnrInvalidIp6 | kEnrInvalidUdpPort | kEnrInvalidEthEntry
  | kEnrIdentityUnknown | kEnodeUriMalformed | kEnodeHexPubkeyInvalid | kContextCreationFailed
  | kCrawlerAlreadyRunning | kCrawlerNotRunning | kNetworkSendFailed | kNetworkReceiveFailed.

Definition kBase64UpperCount : Z := 26.
Definition kBase64LowerCount : Z := 26.
Definition kBase64DigitCount : Z := 10.
Definition kBase64LowerStart : Z := kBase64UpperCount.
Definition kBase64DigitStart : Z := kBase64UpperCount + kBase64LowerCount.
Definition kBase64DashIndex : Z := 62.
Definition kBase64UnderIndex : Z := 63.
Definition kBase64Invalid : Z := 0xFF.
Definition kBase64BitsPerChar : Z := 6.
Definition kBase64BitsPerByte : Z := 8.

(** [for (i = 0; i < count; ++i) t[c + i] = start + i;]. *)
Definition fill_range (c count start : Z) (t : list Z) : list Z :=
  foldl (fun t i => <[Z.to_nat (c + i) := start + i]> t) t (seqZ 0 count).

(** The initialiser of [kBase64UrlTable]. *)
Definition kBase64UrlTable : list Z :=
  let t := replicate 256 kBase64Invalid in
  let t := fill_range (u8 "A"%byte) kBase64UpperCount 0 t in
  let t := fill_range (u8 "a"%byte) kBase64LowerCount kBase64LowerStart t in
  let t := fill_range (u8 "0"%byte) kBase64DigitCount kBase64DigitStart t in
  let t := <[Z.to_nat (u8 "-"%byte) := kBase64DashIndex]> t in
  <[Z.to_nat (u8 "_"%byte) := kBase64UnderIndex]> t.

Definition table_at (ch : byte) : Z := nth (Z.to_nat (u8 ch)) kBase64UrlTable kBase64Invalid.

(** The body without its trailing ['=']: [effective_len] counts down from the end. *)
Fixpoint drop_padding (reversed : text) : text :=
  match reversed with
  | c :: r => if decide (c = "="%byte) then drop_padding r else reversed
  | [] => []
  end.

Definition effective (body : text) : text := reverse (drop_padding (reverse body)).

(** One pass of the loop per character, with the 32-bit accumulator. *)
Fixpoint decode_loop (body : text) (accumulator bits : Z) (out : list byte) : outcome discv5Error (list byte) :=
  match body with
  | [] => success out
  | ch :: body' =>
      let val := table_at ch in
      if val =? kBase64Invalid then failure kEnrBase64DecodeFailed else
      let accumulator := Z.lor (u32 (Z.shiftl accumulator kBase64BitsPerChar)) val in
      let bits := bits + kBase64BitsPerChar in
      if kBase64BitsPerByte <=? bits then
        let bits := bits - kBase64BitsPerByte in
        decode_loop body' accumulator bits (out ++ [byte_of (Z.land (Z.shiftr accumulator bits) 0xFF)])
      else decode_loop body' accumulator bits out
  end.

Definition base64url_decode (body : text) : outcome discv5Error (list byte) :=
  decode_loop (effective body) 0 0 [].

(** ** What the text means *)

Definition in_alphabet (c : byte) : bool := negb (table_at c =? kBase64Invalid).

(** The number a text writes in base 64, first character most significant. *)
Definition base64_val (s : text) : Z := foldl (fun n c => n * 64 + table_at c) 0 s.

Definition kBase64UrlAlphabet : text :=
  lit "ABCDEFGHIJKLMNOPQRSTUVWXYZabcdefghijklmnopqrstuvwxyz0123456789-_".

Definition base64_char (i : Z) : byte := nth (Z.to_nat i) kBase64UrlAlphabet x00.

(** The [k] low-order base-64 digits of [n]. *)
Fixpoint base64_digits (k : nat) (n : Z) : text :=
  match k with
  | O => []
  | S k' => base64_digits k' (n / 64) ++ [base64_char (n mod 64)]
  end.

(** The unpadded encoding of RFC 4648: the bits of the data, zeros appended up to
    a multiple of six. *)
Definition base64url_encode (data : list byte) : text :=
  let n := (Zlen data * 8 + 5) / 6 in
  base64_digits (Z.to_nat n) (be_val data * 2 ^ (6 * n - 8 * Zlen data)).

(** Bytes and leftover bits of a text of [n] characters. *)
Definition whole_bytes (n : Z) : Z := 6 * n / 8.
Definition spare_bits (n : Z) : Z := (6 * n) mod 8.

Lemma table_at_range c : 0 <= table_at c < 256.
Proof. by destruct c; vm_compute. Qed.

Lemma table_at_alphabet c : in_alphabet c = true -> 0 <= table_at c < 64.
Proof. destruct c; vm_compute; intros; try done; split; congruence. Qed.

Lemma table_at_char i : 0 <= i < 64 -> table_at (base64_char i) = i.
Proof.
  intros Hi. assert (i ∈ seqZ 0 64) as Hin by (apply elem_of_seqZ; lia). clear Hi. revert i Hin.
  apply Forall_forall. by repeat constructor.
Qed.

Lemma in_alphabet_char i : 0 <= i < 64 -> in_alphabet (base64_char i) = true.
Proof. intros Hi. unfold in_alphabet. rewrite table_at_char by done. by destruct (Z.eqb_spec i kBase64Invalid); [unfold kBase64Invalid in *; lia|]. Qed.

Lemma base64_char_not_pad i : 0 <= i < 64 -> base64_char i <> "="%byte.
Proof. intros Hi E. pose proof (in_alphabet_char i Hi) as H. by rewrite E in H. Qed.

Lemma base64_val_snoc s c : base64_val (s ++ [c]) = base64_val s * 64 + table_at c.
Proof. unfold base64_val. by rewrite foldl_app. Qed.

(** ** The accumulator loop *)

(** What the loop holds after reading [s]. *)
Definition acc_of (s : text) : Z := base64_val s mod 2 ^ 32.
Definition out_of (s : text) : list byte :=
  be_bytes (Z.to_nat (whole_bytes (Zlen s))) (base64_val s / 2 ^ spare_bits (Zlen s)).

#[local] Ltac Zify.zify_post_hook ::= Z.to_euclidean_division_equations.

Lemma spare_bits_cases n : 0 <= n -> spare_bits n = 0 \/ spare_bits n = 2 \/ spare_bits n = 4 \/ spare_bits n = 6.
Proof. unfold spare_bits. lia. Qed.

Lemma acc_of_snoc s c : in_alphabet c = true ->
  Z.lor (u32 (Z.shiftl (acc_of s) kBase64BitsPerChar)) (table_at c) = acc_of (s ++ [c]).
Proof.
  intros Hc%table_at_alphabet. unfold acc_of, u32, kBase64BitsPerChar. rewrite base64_val_snoc, Z.shiftl_mul_pow2 by lia.
  set (q := (base64_val s mod 2 ^ 32 * 2 ^ 6) mod 2 ^ 32).
  assert (q = (base64_val s mod 2 ^ 26) * 2 ^ 6) as -> by (unfold q; lia).
  rewrite lor_add by lia. lia.
Qed.

(** The byte taken from the accumulator when it is there. *)
Lemma out_of_snoc s c bits : in_alphabet c = true -> bits = spare_bits (Zlen s) ->
  let acc := acc_of (s ++ [c]) in
  spare_bits (Zlen (s ++ [c])) = (if 8 <=? bits + 6 then bits - 2 else bits + 6) /\
  out_of (s ++ [c]) =
    if 8 <=? bits + 6 then out_of s ++ [byte_of (Z.land (Z.shiftr acc (bits - 2)) 0xFF)] else out_of s.
Proof.
  intros Hc%table_at_alphabet Hb acc. unfold out_of. rewrite length_app. cbn [length].
  assert (spare_bits (Z.of_nat (length s + 1)) = if 8 <=? bits + 6 then bits - 2 else bits + 6) as E.
  { unfold spare_bits in *. case_match; zbool; lia. }
  rewrite E. split; [done|]. rewrite base64_val_snoc. unfold acc, acc_of. rewrite base64_val_snoc.
  destruct (spare_bits_cases (Zlen s)) as [H|[H|[H|H]]]; [lia| | | |]; rewrite <- Hb in H; subst bits; rewrite H in *; simpl;
    unfold spare_bits, whole_bytes in *.
  1: { rewrite !Z.add_0_l. f_equal; [lia|]. change (2 ^ 6) with 64. change (2 ^ 0) with 1. lia. }
  all: replace (Z.to_nat (6 * Z.of_nat (length s + 1) / 8)) with (S (Z.to_nat (6 * Zlen s / 8))) by lia;
    cbn [be_bytes]; change 255 with (Z.ones 8); rewrite Z.land_ones, Z.shiftr_div_pow2 by lia;
    f_equal; [f_equal; lia|f_equal; apply u8_inj; rewrite !u8_byte_of; lia].
Qed.

Lemma decode_loop_spec s done_ : forallb in_alphabet done_ = true ->
  decode_loop s (acc_of done_) (spare_bits (Zlen done_)) (out_of done_) =
    if forallb in_alphabet s then success (out_of (done_ ++ s)) else failure kEnrBase64DecodeFailed.
Proof.
  revert done_. induction s as [|c s IH]; intros d Hd; [by rewrite app_nil_r|].
  cbn [decode_loop forallb].
  destruct (table_at c =? kBase64Invalid) eqn:Hc; [by unfold in_alphabet at 1; rewrite Hc|].
  assert (in_alphabet c = true) as Hc' by (unfold in_alphabet; by rewrite Hc).
  rewrite Hc'. cbn [andb].
  destruct (out_of_snoc d c _ Hc' eq_refl) as [Es Eo]. rewrite acc_of_snoc by done.
  specialize (IH (d ++ [c])). rewrite <- app_assoc in IH. rewrite forallb_app, Hd in IH. cbn [forallb andb] in IH.
  rewrite Hc' in IH. cbn [app] in IH. rewrite <- IH by done. rewrite Es, Eo. unfold kBase64BitsPerByte, kBase64BitsPerChar.
  destruct (8 <=? spare_bits (Zlen d) + 6); [|done].
  by replace (spare_bits (Zlen d) + 6 - 8) with (spare_bits (Zlen d) - 2) by lia.
Qed.

(** ** Padding *)

Lemma effective_pad s k : effective (s ++ replicate k "="%byte) = effective s.
Proof.
  unfold effective. rewrite reverse_app, reverse_replicate. f_equal.
  induction k as [|k IH]; [done|]. cbn [replicate app drop_padding]. by rewrite decide_True.
Qed.

Lemma effective_id s : Forall (fun c => c <> "="%byte) s -> effective s = s.
Proof.
  intros Hs. unfold effective. rewrite <- (reverse_involutive s) at 2. f_equal.
  destruct (reverse s) as [|c r] eqn:E; [done|]. cbn [drop_padding]. rewrite decide_False; [done|].
  rewrite Forall_forall in Hs. apply Hs. apply elem_of_reverse. rewrite E. by left.
Qed.

(** Every text is its effective part and padding. *)
Lemma effective_split s : exists k, s = effective s ++ replicate k "="%byte.
Proof.
  cut (exists k, reverse s = replicate k "="%byte ++ drop_padding (reverse s)).
  { intros [k E]. exists k. unfold effective. rewrite <- (reverse_involutive s) at 1. rewrite E at 1.
    by rewrite reverse_app, reverse_replicate. }
  induction (reverse s) as [|c r [k IH]]; [by exists 0%nat|]. cbn [drop_padding].
  destruct (decide _) as [->|_]; [exists (S k)|by exists 0%nat]. cbn [replicate app]. by rewrite <- IH.
Qed.

(** ** Digits *)

Lemma length_base64_digits k n : length (base64_digits k n) = k.
Proof. revert n. induction k; intros n; simpl; [done|]. rewrite length_app, IHk. simpl. lia. Qed.

Lemma base64_digits_alphabet k n : forallb in_alphabet (base64_digits k n) = true.
Proof.
  revert n. induction k; intros n; simpl; [done|]. rewrite forallb_app, IHk. simpl.
  rewrite in_alphabet_char by lia. done.
Qed.

Lemma base64_digits_val k n : base64_val (base64_digits k n) = n mod 64 ^ Z.of_nat k.
Proof.
  revert n. induction k as [|k IH]; intros n; [by rewrite Z.mod_1_r|]. cbn [base64_digits].
  rewrite base64_val_snoc, IH, table_at_char by (apply Z.mod_pos_bound; lia).
  rewrite Nat2Z.inj_succ, Z.pow_succ_r by lia. rewrite Z.rem_mul_r by lia. lia.
Qed.

Lemma alphabet_not_pad s : forallb in_alphabet s = true -> Forall (fun c => c <> "="%byte) s.
Proof. rewrite forallb_forall. intros H. apply List.Forall_forall. intros c Hc%H E. by rewrite E in Hc. Qed.

Lemma base64url_encode_whole data :
  out_of (base64url_encode data) = data.
Proof.
  unfold out_of, base64url_encode. set (n := (Zlen data * 8 + 5) / 6).
  rewrite length_base64_digits, base64_digits_val. rewrite Z2Nat.id by lia.
  assert (whole_bytes n = Zlen data /\ spare_bits n = 6 * n - 8 * Zlen data) as [-> ->].
  { unfold whole_bytes, spare_bits. lia. }
  set (j := 6 * n - 8 * Zlen data). assert (0 <= j < 6) as Hj by lia. pose proof (be_val_range data) as Hr.
  rewrite Z.mod_small.
  - rewrite Z.div_mul by lia. by rewrite Nat2Z.id, be_bytes_be_val.
  - change 64 with (2 ^ 6). rewrite <- Z.pow_mul_r by lia. change 256 with (2 ^ 8) in Hr.
    rewrite <- Z.pow_mul_r in Hr by lia. replace (6 * n) with (8 * Zlen data + j) by lia. rewrite Z.pow_add_r by lia.
    split; [apply Z.mul_nonneg_nonneg; lia|]. apply Z.mul_lt_mono_pos_r; lia.
Qed.

(** Decoding is total, and exactly this function. *)
Lemma base64url_decode_eq body :
  base64url_decode body =
    if forallb in_alphabet (effective body) then success (out_of (effective body)) else failure kEnrBase64DecodeFailed.
Proof. apply (decode_loop_spec (effective body) []). done. Qed.

Lemma base64url_decode_encode data k :
  base64url_decode (base64url_encode data ++ replicate k "="%byte) = success data.
Proof.
  rewrite base64url_decode_eq, effective_pad.
  assert (forallb in_alphabet (base64url_encode data) = true) as Ha by apply base64_digits_alphabet.
  rewrite effective_id by by apply alphabet_not_pad. by rewrite Ha, base64url_encode_whole.
Qed.

(** base64url decoding accepts exactly the texts over the alphabet followed by any
    padding, fails with [kEnrBase64DecodeFailed] on every other, and returns the whole
    bytes of the number the text writes in base 64, although its accumulator keeps 32 bits
    of that number only; so it inverts the encoding of RFC 4648, padded or not. *)
Theorem base64url_exact (body : text) (data : list byte) (k : nat) :
  (exists n, body = effective body ++ replicate n "="%byte) /\
  base64url_decode body =
    (if forallb in_alphabet (effective body)
     then success (be_bytes (Z.to_nat (6 * Zlen (effective body) / 8))
                     (base64_val (effective body) / 2 ^ ((6 * Zlen (effective body)) mod 8)))
     else failure kEnrBase64DecodeFailed) /\
  base64url_decode (base64url_encode data ++ replicate k "="%byte) = success data.
Proof.
  split; [apply effective_split|]. split; [apply base64url_decode_eq|apply base64url_decode_encode].
Qed.
