(* ===== verification/Enr.v ===== *)
(** * Ethereum Node Records

    [EnrParser] ([src/discv5/discv5_enr.cpp], [include/discv5/discv5_enr.hpp]) and
    [EnrRecord] ([include/discv5/discv5_types.hpp]): decoding the URI, reading the
    record into its fields, checking the signature and turning the record into a
    peer to dial.  Keccak, libsecp256k1 and the address formatting of Boost.Asio
    are the parameters of the class [EnrPrimitives].

    The record keeps its signature and the signed content in [extra_fields] under
    two names of its own between [decode_rlp] and [verify_signature]; the model
    keeps them there too, since a record can carry the same names. *)

From S2P Require Import Prelude RlpSpec RlpCommon RlpEncoder RlpDecoder DecodeLogic ParseUtility Base64Url.

Definition kDefaultUdpPort : Z := 9000.
Definition kDefaultTcpPort : Z := 30303.
Definition kNodeIdBytes : Z := 64.
Definition kCompressedKeyBytes : Z := 33.
Definition kUncompressedPrefixLen : Z := 1.
Definition kIPv4Bytes : Z := 4.
Definition kIPv6Bytes : Z := 16.
Definition kMaxPortBytes : Z := 2.
Definition kForkHashBytes : Z := 4.
Definition kEnrMaxBytes : Z := 300.
Definition kEnrSigBytes : Z := 64.
Definition kEnrPrefixLen : Z := 4.
Definition kEnrPrefix : text := lit "enr:".

(** [discovery::ForkId]. *)
Record ForkId := mkForkId { hash : list byte; next : Z }.

Record EnrRecord := mkEnr {
  seq : Z;
  raw_rlp : list byte;
  node_id : list byte;
  compressed_pubkey : list byte;
  ip : text;
  ip6 : text;
  udp_port : Z;
  tcp_port : Z;
  udp6_port : Z;
  tcp6_port : Z;
  identity_scheme : text;
  eth_fork_id : option ForkId;
  extra_fields : gmap text (list byte)
}.

(** [std::array<uint8_t, n>{}]. *)
Definition zero_array (n : Z) : list byte := replicate (Z.to_nat n) x00.

(** A default-constructed record. *)
Definition EnrRecord_new : EnrRecord :=
  mkEnr 0 [] (zero_array kNodeIdBytes) (zero_array kCompressedKeyBytes) [] [] 0 0 0 0 [] None ∅.

(** [discovery::ValidatedPeer]. *)
Record ValidatedPeer := mkValidatedPeer {
  peer_node_id : list byte;
  peer_ip : text;
  peer_udp_port : Z;
  peer_tcp_port : Z;
  last_seen : Z;
  peer_eth_fork_id : option ForkId
}.

Definition with_seq (v : Z) (r : EnrRecord) : EnrRecord :=
  mkEnr v (raw_rlp r) (node_id r) (compressed_pubkey r) (ip r) (ip6 r) (udp_port r) (tcp_port r)
    (udp6_port r) (tcp6_port r) (identity_scheme r) (eth_fork_id r) (extra_fields r).
Definition with_raw (v : list byte) (r : EnrRecord) : EnrRecord :=
  mkEnr (seq r) v (node_id r) (compressed_pubkey r) (ip r) (ip6 r) (udp_port r) (tcp_port r)
    (udp6_port r) (tcp6_port r) (identity_scheme r) (eth_fork_id r) (extra_fields r).
Definition with_node_id (v : list byte) (r : EnrRecord) : EnrRecord :=
  mkEnr (seq r) (raw_rlp r) v (compressed_pubkey r) (ip r) (ip6 r) (udp_port r) (tcp_port r)
    (udp6_port r) (tcp6_port r) (identity_scheme r) (eth_fork_id r) (extra_fields r).
Definition with_pubkey (v : list byte) (r : EnrRecord) : EnrRecord :=
  mkEnr (seq r) (raw_rlp r) (node_id r) v (ip r) (ip6 r) (udp_port r) (tcp_port r)
    (udp6_port r) (tcp6_port r) (identity_scheme r) (eth_fork_id r) (extra_fields r).
Definition with_ip (v : text) (r : EnrRecord) : EnrRecord :=
  mkEnr (seq r) (raw_rlp r) (node_id r) (compressed_pubkey r) v (ip6 r) (udp_port r) (tcp_port r)
    (udp6_port r) (tcp6_port r) (identity_scheme r) (eth_fork_id r) (extra_fields r).
Definition with_ip6 (v : text) (r : EnrRecord) : EnrRecord :=
  mkEnr (seq r) (raw_rlp r) (node_id r) (compressed_pubkey r) (ip r) v (udp_port r) (tcp_port r)
    (udp6_port r) (tcp6_port r) (identity_scheme r) (eth_fork_id r) (extra_fields r).
Definition with_ports (udp tcp udp6 tcp6 : Z) (r : EnrRecord) : EnrRecord :=
  mkEnr (seq r) (raw_rlp r) (node_id r) (compressed_pubkey r) (ip r) (ip6 r) udp tcp udp6 tcp6
    (identity_scheme r) (eth_fork_id r) (extra_fields r).
Definition with_scheme (v : text) (r : EnrRecord) : EnrRecord :=
  mkEnr (seq r) (raw_rlp r) (node_id r) (compressed_pubkey r) (ip r) (ip6 r) (udp_port r) (tcp_port r)
    (udp6_port r) (tcp6_port r) v (eth_fork_id r) (extra_fields r).
Definition with_fork (v : option ForkId) (r : EnrRecord) : EnrRecord :=
  mkEnr (seq r) (raw_rlp r) (node_id r) (compressed_pubkey r) (ip r) (ip6 r) (udp_port r) (tcp_port r)
    (udp6_port r) (tcp6_port r) (identity_scheme r) v (extra_fields r).
Definition with_extra (f : gmap text (list byte) -> gmap text (list byte)) (r : EnrRecord) : EnrRecord :=
  mkEnr (seq r) (raw_rlp r) (node_id r) (compressed_pubkey r) (ip r) (ip6 r) (udp_port r) (tcp_port r)
    (udp6_port r) (tcp6_port r) (identity_scheme r) (eth_fork_id r) (f (extra_fields r)).

(** What the parser calls of other libraries.  A context is created or not; a
    parsed key and a parsed signature are opaque. *)
Class EnrPrimitives := {
  keccak256 : list byte -> list byte;
  context_created : bool;
  secp_pubkey : Type;
  secp_signature : Type;
  ec_pubkey_parse : list byte -> option secp_pubkey;
  signature_parse_compact : list byte -> option secp_signature;
  ecdsa_verify : secp_signature -> list byte -> secp_pubkey -> bool;
  ec_pubkey_serialize : secp_pubkey -> list byte;
  address_v4_to_string : list byte -> text;
  address_v6_to_string : list byte -> text
}.

Definition decode_uri (enr_uri : text) : outcome discv5Error (list byte) :=
  if (Zlen enr_uri <? kEnrPrefixLen) || negb (bool_decide (take (Z.to_nat kEnrPrefixLen) enr_uri = kEnrPrefix))
  then failure kEnrMissingPrefix
  else base64url_decode (drop (Z.to_nat kEnrPrefixLen) enr_uri).

(** [read_enr_value]: a string is read without its header, a list is kept whole. *)
Definition read_enr_value : M ByteView discv5Error (option (list byte)) :=
  header ← attempt (E' := discv5Error) PeekHeader;
  match header with
  | None => mret None
  | Some h =>
      if negb (is_list h) then attempt read_bytes
      else
        raw ← view (Er := discv5Error);
        let total_size := u64 (header_size_bytes h + payload_size_bytes h) in
        if Zlen raw <? total_size then mret None else
        skipped ← attempt (E' := discv5Error) SkipItem;
        mret (match skipped with Some _ => Some (take (Z.to_nat total_size) raw) | None => None end)
  end.

(** ** Field decoders *)

Definition decode_port (bytes : list byte) : outcome discv5Error Z :=
  if bool_decide (bytes = []) || (kMaxPortBytes <? Zlen bytes) then failure kEnrInvalidUdpPort else
  let port := foldl (fun port b => u16 (Z.lor (Z.shiftl port 8) (u8 b))) 0 bytes in
  if port =? 0 then failure kEnrInvalidUdpPort else success port.

(** The body of [decode_eth_entry] on its own decoder. *)
Definition decode_eth_entry_body : M ByteView discv5Error ForkId :=
  outer ← or_fail IsList kEnrInvalidEthEntry;
  if negb outer then fail kEnrInvalidEthEntry else
  or_fail ReadListHeaderBytes kEnrInvalidEthEntry ;;
  inner ← or_fail IsList kEnrInvalidEthEntry;
  if negb inner then fail kEnrInvalidEthEntry else
  or_fail ReadListHeaderBytes kEnrInvalidEthEntry ;;
  hash_bytes ← or_fail read_bytes kEnrInvalidEthEntry;
  if negb (Zlen hash_bytes =? kForkHashBytes) then fail kEnrInvalidEthEntry else
  fork_next ← or_fail (read_integral 8) kEnrInvalidEthEntry;
  mret (mkForkId hash_bytes fork_next).

Definition decode_eth_entry (bytes : list byte) : outcome discv5Error ForkId :=
  if bool_decide (bytes = []) then failure kEnrInvalidEthEntry else run_decoder decode_eth_entry_body bytes.

Section parser.
Context `{EnrPrimitives}.

Definition decode_ipv4 (bytes : list byte) : outcome discv5Error text :=
  if negb (Zlen bytes =? kIPv4Bytes) then failure kEnrInvalidIp else success (address_v4_to_string bytes).

Definition decode_ipv6 (bytes : list byte) : outcome discv5Error text :=
  if negb (Zlen bytes =? kIPv6Bytes) then failure kEnrInvalidIp6 else success (address_v6_to_string bytes).

(** [if (result) set(result.value());]. *)
Definition on_value {A} (result : outcome discv5Error A) (set : A -> EnrRecord -> EnrRecord) (r : EnrRecord) : EnrRecord :=
  match result with success a => set a r | _ => r end.

(** The chain of tests on the key of a pair. *)
Definition store_field (key : text) (val : list byte) (r : EnrRecord) : EnrRecord :=
  if decide (key = lit "id") then with_scheme val r
  else if decide (key = lit "secp256k1") then
    if Zlen val =? kCompressedKeyBytes then with_pubkey val r else r
  else if decide (key = lit "ip") then on_value (decode_ipv4 val) with_ip r
  else if decide (key = lit "ip6") then on_value (decode_ipv6 val) with_ip6 r
  else if decide (key = lit "tcp") then
    on_value (decode_port val) (fun p r => with_ports (udp_port r) p (udp6_port r) (tcp6_port r) r) r
  else if decide (key = lit "udp") then
    on_value (decode_port val) (fun p r => with_ports p (tcp_port r) (udp6_port r) (tcp6_port r) r) r
  else if decide (key = lit "tcp6") then
    on_value (decode_port val) (fun p r => with_ports (udp_port r) (tcp_port r) (udp6_port r) p r) r
  else if decide (key = lit "udp6") then
    on_value (decode_port val) (fun p r => with_ports (udp_port r) (tcp_port r) p (tcp6_port r) r) r
  else if decide (key = lit "eth") then on_value (decode_eth_entry val) (fun f => with_fork (Some f)) r
  else with_extra <[key := val]> r.

(** [while (!decoder.IsFinished())]; every pass reads a byte at least. *)
Fixpoint pairs_loop (fuel : nat) (r : EnrRecord) : M ByteView discv5Error EnrRecord :=
  match fuel with
  | O => crash_with Diverge
  | S fuel' =>
      finished ← IsFinished (Er := discv5Error);
      if finished : bool then mret r else
      key ← attempt (E' := discv5Error) read_bytes;
      match key with
      | None => mret r
      | Some key =>
          val ← read_enr_value;
          match val with
          | None => mret r
          | Some val => pairs_loop fuel' (store_field key val r)
          end
      end
  end.

Definition read_pairs (r : EnrRecord) : M ByteView discv5Error EnrRecord :=
  v ← view (Er := discv5Error); pairs_loop (S (length v)) r.

Definition kSigField : text := lit "__sig__".
Definition kContentField : text := lit "__content__".

(** The signed content: [ByteView(after_sig.data(), content_elements_len)] wrapped
    as a list, where the length is computed in [size_t]. *)
Definition signed_content (list_payload_len sig_consumed : Z) (after_sig : ByteView) : outcome discv5Error (list byte) :=
  let content_elements_len := u64 (list_payload_len - sig_consumed) in
  if Zlen after_sig <? content_elements_len then crash OutOfBounds else
  let content_enc := BeginList ;; AddRaw (take (Z.to_nat content_elements_len) after_sig) ;; EndList in
  or_error ((content_enc ;; MoveBytes) RlpEncoder_init).1 kEnrRlpDecodeFailed.

(** The body of [decode_rlp] on the decoder of the record. *)
Definition decode_rlp_body (record : EnrRecord) : M ByteView discv5Error EnrRecord :=
  outer ← or_fail IsList kEnrRlpDecodeFailed;
  if negb outer then fail kEnrRlpDecodeFailed else
  list_payload_len ← or_fail ReadListHeaderBytes kEnrRlpDecodeFailed;
  after_list_header ← view (Er := discv5Error);
  sig_bytes ← or_fail read_bytes kEnrRlpDecodeFailed;
  if negb (Zlen sig_bytes =? kEnrSigBytes) then fail kEnrSignatureWrongSize else
  let record := with_extra <[kSigField := sig_bytes]> record in
  after_sig ← view (Er := discv5Error);
  content ← lift (signed_content list_payload_len (Zlen after_list_header - Zlen after_sig) after_sig);
  let record := with_extra <[kContentField := content]> record in
  seq ← or_fail (read_integral 8) kEnrRlpDecodeFailed;
  record ← read_pairs (with_seq seq record);
  if decide (compressed_pubkey record = zero_array kCompressedKeyBytes) then fail kEnrMissingSecp256k1Key
  else mret record.

Definition decode_rlp (raw : list byte) : outcome discv5Error EnrRecord :=
  run_decoder (decode_rlp_body (with_raw raw EnrRecord_new)) raw.

Definition decompress_pubkey (compressed : list byte) : outcome discv5Error (list byte) :=
  if negb context_created then failure kContextCreationFailed else
  match ec_pubkey_parse compressed with
  | None => failure kEnrInvalidSecp256k1Key
  | Some pubkey => success (take (Z.to_nat kNodeIdBytes) (drop (Z.to_nat kUncompressedPrefixLen) (ec_pubkey_serialize pubkey)))
  end.

(** [verify_signature]: the record is changed on success only.  The compact
    signature is read through a pointer to 64 bytes. *)
Definition verify_signature (record : EnrRecord) : outcome discv5Error EnrRecord :=
  match extra_fields record !! kSigField, extra_fields record !! kContentField with
  | Some sig_bytes, Some content_bytes =>
      let hash_array := keccak256 content_bytes in
      if negb context_created then failure kContextCreationFailed else
      match ec_pubkey_parse (compressed_pubkey record) with
      | None => failure kEnrInvalidSecp256k1Key
      | Some pubkey =>
          if Zlen sig_bytes <? kEnrSigBytes then crash OutOfBounds else
          match signature_parse_compact (take (Z.to_nat kEnrSigBytes) sig_bytes) with
          | None => failure kEnrSignatureInvalid
          | Some sig =>
              if negb (ecdsa_verify sig hash_array pubkey) then failure kEnrSignatureInvalid else
              id ← decompress_pubkey (compressed_pubkey record);
              success (with_extra (fun e => delete kContentField (delete kSigField e)) (with_node_id id record))
          end
      end
  | _, _ => failure kEnrRlpDecodeFailed
  end.

Definition parse (enr_uri : text) : outcome discv5Error EnrRecord :=
  raw ← decode_uri enr_uri;
  if kEnrMaxBytes <? Zlen raw then failure kEnrTooLarge else
  record ← decode_rlp raw;
  verify_signature record.

(** [to_validated_peer]; [now] is the clock it reads. *)
Definition to_validated_peer (record : EnrRecord) (now : Z) : outcome discv5Error ValidatedPeer :=
  if bool_decide (ip record = []) && bool_decide (ip6 record = []) then failure kEnrMissingAddress else
  let port (p default : Z) := if negb (p =? 0) then p else default in
  success
    (if negb (bool_decide (ip record = [])) then
       mkValidatedPeer (node_id record) (ip record) (port (udp_port record) kDefaultUdpPort)
         (port (tcp_port record) kDefaultTcpPort) now (eth_fork_id record)
     else
       mkValidatedPeer (node_id record) (ip6 record) (port (udp6_port record) kDefaultUdpPort)
         (port (tcp6_port record) kDefaultTcpPort) now (eth_fork_id record)).
End parser.

(** ** Records on the wire *)

(** What a value is stored as: a string without its header, a list with it. *)
Definition field_value (i : item) : list byte := match i with Str bs => bs | Lst _ => rlp_encode i end.

Definition pair_wire (kv : text * item) : list byte := rlp_string kv.1 ++ rlp_encode kv.2.
Definition pairs_wire (l : list (text * item)) : list byte := concat (map pair_wire l).

(** The signed content of EIP-778, [seq, k1, v1, ...], and the record. *)
Definition content_payload (n : Z) (l : list (text * item)) : list byte := rlp_uint n ++ pairs_wire l.
Definition record_wire (sig : list byte) (n : Z) (l : list (text * item)) : list byte :=
  rlp_list (rlp_string sig ++ content_payload n l).

Definition enr_uri (raw : list byte) (padding : nat) : text :=
  kEnrPrefix ++ base64url_encode raw ++ replicate padding "="%byte.

(** The values given to a key, in order, and the last that decodes. *)
Definition values (key : text) (l : list (text * item)) : list (list byte) :=
  (fun kv => field_value kv.2) <$> filter (fun kv => kv.1 = key) l.

Definition last_ok {A} (dec : list byte -> outcome discv5Error A) (init : A) (vs : list (list byte)) : A :=
  foldl (fun a v => match dec v with success b => b | _ => a end) init vs.

Lemma decode_uri_enr raw k : decode_uri (enr_uri raw k) = success raw.
Proof.
  unfold decode_uri, enr_uri. rewrite (take_app_length' kEnrPrefix), (drop_app_length' kEnrPrefix) by done.
  rewrite (proj2 (Z.ltb_ge _ _)) by (rewrite length_app; change (length kEnrPrefix) with 4%nat; unfold kEnrPrefixLen; lia).
  rewrite bool_decide_eq_true_2 by done. cbn [orb negb]. apply base64url_decode_encode.
Qed.

Lemma pair_wire_nonnil kv : pair_wire kv <> [].
Proof.
  unfold pair_wire. pose proof (rlp_string_pos kv.1) as H. by destruct (rlp_string kv.1); simpl in *; [lia|].
Qed.

Lemma decode_uri_no_crash uri f : decode_uri uri <> crash f.
Proof. unfold decode_uri. case_match; [done|]. rewrite base64url_decode_eq. by case_match. Qed.

(** ** Reading back *)

Lemma read_enr_value_string bs rest : eats read_enr_value (rlp_string bs) (Some bs) rest.
Proof.
  intros Hf. pose proof (consumes_read_bytes bs rest Hf) as Hr. unfold read_enr_value.
  pose proof Hr as Hp. apply bind_success_inv in Hp as (h & w & Hp & Hk).
  assert (w = rlp_string bs ++ rest) as -> by (unfold PeekHeader in Hp; by injection Hp).
  unfold mbind at 1, M_bind at 1, attempt at 1. rewrite Hp. destruct (is_list h); [done|]. cbn [negb].
  unfold attempt. by rewrite Hr.
Qed.

Lemma read_enr_value_list l rest : eats read_enr_value (rlp_encode (Lst l)) (Some (rlp_encode (Lst l))) rest.
Proof.
  cbn [rlp_encode]. set (p := concat (map rlp_encode l)). intros Hf.
  pose proof (list_header_at p rest Hf) as Hh. pose proof (eats_SkipItem_list p rest Hf) as Hs.
  unfold read_enr_value, mbind, M_bind, attempt. rewrite (PeekHeader_at _ _ _ Hh).
  cbn [is_list negb header_size_bytes payload_size_bytes]. unfold view, get_state.
  assert (u64 (Zlen (rlp_header 192 (Zlen p)) + Zlen p) = Zlen (rlp_list p)) as ->.
  { unfold rlp_list. rewrite length_app, Nat2Z.inj_add. apply u64_small. unfold fits, rlp_list in Hf.
    rewrite !length_app in Hf. lia. }
  rewrite (proj2 (Z.ltb_ge _ _)) by (rewrite length_app; lia). rewrite Hs. cbn. unfold mret, M_ret.
  by rewrite take_app_Zlen.
Qed.

Lemma eats_read_enr_value i rest : eats read_enr_value (rlp_encode i) (Some (field_value i)) rest.
Proof. destruct i; [apply read_enr_value_string|apply read_enr_value_list]. Qed.

Section proofs.
Context `{EnrPrimitives}.

(** The fields after the pairs of [l]. *)
Definition stored (l : list (text * item)) (r : EnrRecord) : EnrRecord :=
  foldl (fun r kv => store_field kv.1 (field_value kv.2) r) r l.

Lemma pairs_loop_eats l : forall fuel r, (length l < fuel)%nat ->
  eats (pairs_loop fuel r) (pairs_wire l) (stored l r) [].
Proof.
  induction l as [|kv l IH]; intros fuel r Hfuel; destruct fuel as [|fuel]; try lia; [done|].
  intros Hf. cbn [pairs_loop]. unfold pairs_wire in *. cbn [map concat] in *. fold (pairs_wire l) in *.
  rewrite app_nil_r in *. unfold IsFinished. run. rewrite bool_decide_eq_false_2.
  2: { pose proof (pair_wire_nonnil kv). by destruct (pair_wire kv). }
  unfold pair_wire in *. rewrite <- !app_assoc in *. unfold attempt at 1.
  rewrite (consumes_read_bytes kv.1 _ Hf). apply fits_app_r in Hf. rewrite (eats_read_enr_value _ _ Hf).
  apply fits_app_r in Hf. specialize (IH fuel (store_field kv.1 (field_value kv.2) r) ltac:(simpl in Hfuel; lia)).
  unfold eats in IH. rewrite app_nil_r in IH. by apply IH.
Qed.

Lemma read_pairs_eats l r : eats (read_pairs r) (pairs_wire l) (stored l r) [].
Proof.
  unfold read_pairs. intros Hf. run. apply pairs_loop_eats; [|done]. rewrite app_nil_r.
  unfold pairs_wire.
  assert (length l <= length (concat (map pair_wire l)))%nat by (apply concat_map_length_ge; intros; apply pair_wire_nonnil). lia.
Qed.

(** The record before its pairs are read. *)
Definition base_record (raw sig content : list byte) (n : Z) : EnrRecord :=
  with_seq n (with_extra <[kContentField := content]> (with_extra <[kSigField := sig]> (with_raw raw EnrRecord_new))).

Definition require_pubkey (r : EnrRecord) : outcome discv5Error EnrRecord :=
  if decide (compressed_pubkey r = zero_array kCompressedKeyBytes) then failure kEnrMissingSecp256k1Key else success r.

Lemma rlp_uint_nonnil n : rlp_uint n <> [].
Proof. pose proof (rlp_string_pos (be_min n)). unfold rlp_uint. by destruct (rlp_string _); simpl in *; [lia|]. Qed.

Lemma content_nonnil n l : content_payload n l <> [].
Proof. unfold content_payload. pose proof (rlp_uint_nonnil n). by destruct (rlp_uint n). Qed.

Lemma content_app n l tail : content_payload n l ++ pairs_wire tail = rlp_uint n ++ pairs_wire (l ++ tail).
Proof. unfold content_payload, pairs_wire. by rewrite map_app, concat_app, <- app_assoc. Qed.

(** The bytes of the payload after the signature are what is signed. *)
Lemma signed_content_ok (p s rest : list byte) n :
  p <> [] -> fits (rlp_list p) -> Zlen (s ++ p) = n ->
  signed_content n (Zlen s) (p ++ rest) = success (rlp_list p).
Proof.
  intros Hp Hf <-. unfold signed_content.
  replace (Zlen (s ++ p) - Zlen s) with (Zlen p) by (rewrite length_app; lia).
  pose proof (rlp_list_length_ge p). unfold fits in Hf. rewrite u64_small by lia.
  rewrite (proj2 (Z.ltb_ge _ _)) by (rewrite length_app; lia). rewrite take_app_Zlen.
  pose proof (appends_list_try (AddRaw p) p ltac:(lia) (appends_AddRaw p Hp) RlpEncoder_init) as Ha.
  by rewrite (bind_success _ _ _ _ _ Ha).
Qed.

(** Reading a record, and whatever pairs follow it. *)
Lemma decode_rlp_wire sig n l tail :
  let raw := record_wire sig n l ++ pairs_wire tail in
  Zlen sig = kEnrSigBytes -> in_width 64 n -> fits raw ->
  decode_rlp raw = require_pubkey (stored (l ++ tail) (base_record raw sig (rlp_list (content_payload n l)) n)).
Proof.
  intros raw Hs Hn Hf. unfold decode_rlp, run_decoder, decode_rlp_body.
  set (init := with_raw raw EnrRecord_new). unfold raw at 1, record_wire at 1.
  rewrite (bind_success _ _ _ _ _ (proj2 (or_fail_success _ _ _ _ _) (IsList_list _ _ Hf))). cbn [negb].
  rewrite (bind_success _ _ _ _ _ (proj2 (or_fail_success _ _ _ _ _) (ReadListHeaderBytes_list _ _ Hf))).
  assert (fits (rlp_string sig ++ content_payload n l ++ pairs_wire tail)) as Hf1.
  { revert Hf. unfold raw, record_wire, rlp_list. rewrite <- !app_assoc. apply fits_app_r. }
  rewrite <- app_assoc. rewrite view_then.
  rewrite (bind_success _ _ _ _ _ (proj2 (or_fail_success _ _ _ _ _) (consumes_read_bytes _ _ Hf1))).
  rewrite Hs, Z.eqb_refl. cbn [negb]. rewrite view_then.
  rewrite (bind_success _ _ _ (rlp_list (content_payload n l)) (content_payload n l ++ pairs_wire tail)).
  2: { unfold lift. f_equal. set (c := content_payload n l) in *.
       replace (Zlen (rlp_string sig ++ c ++ pairs_wire tail) - Zlen (c ++ pairs_wire tail)) with (Zlen (rlp_string sig))
         by (rewrite !length_app; lia).
       unfold fits in Hf1. rewrite !length_app in Hf1. pose proof (rlp_string_length_ge sig).
       pose proof (rlp_list_length_le c). unfold kEnrSigBytes in Hs.
       apply signed_content_ok; [apply content_nonnil|unfold fits; lia|done]. }
  apply fits_app_r in Hf1. rewrite content_app in *.
  rewrite (bind_success _ _ _ _ _ (proj2 (or_fail_success _ _ _ _ _) (consumes_read_integral 8 n ltac:(unfold is_sizeof; lia) Hn _ Hf1))).
  apply fits_app_r in Hf1.
  rewrite <- (app_nil_r (pairs_wire (l ++ tail))).
  rewrite (bind_success _ _ _ _ _ (read_pairs_eats (l ++ tail) _ ltac:(by rewrite app_nil_r))).
  change (with_seq n _) with (base_record raw sig (rlp_list (content_payload n l)) n).
  unfold require_pubkey. by destruct (decide _).
Qed.

(** ** The fields of a record *)

(** A field that the pairs of one key set. *)
Lemma stored_field {A} (get : EnrRecord -> A) (dec : list byte -> outcome discv5Error A) key :
  (forall k v r, get (store_field k v r) =
     if decide (k = key) then match dec v with success a => a | _ => get r end else get r) ->
  forall l r, get (stored l r) = last_ok dec (get r) (values key l).
Proof.
  intros Hg l. induction l as [|[k i] l IH]; intros r; [done|].
  change (stored ((k, i) :: l) r) with (stored l (store_field k (field_value i) r)).
  rewrite IH, Hg. unfold values. rewrite filter_cons. cbn [fst]. by repeat case_decide.
Qed.

(** The keys the parser knows. *)
Definition known_keys : list text :=
  lit <$> ["id"; "secp256k1"; "ip"; "ip6"; "tcp"; "udp"; "tcp6"; "udp6"; "eth"]%string.

Definition pubkey_field (v : list byte) : outcome discv5Error (list byte) :=
  if Zlen v =? kCompressedKeyBytes then success v else failure kEnrInvalidSecp256k1Key.
Definition fork_field (v : list byte) : outcome discv5Error (option ForkId) :=
  f ← decode_eth_entry v; success (Some f).

(** What the pairs make of each field. *)
Record fields_of (l : list (text * item)) (r0 r : EnrRecord) : Prop := {
  of_scheme : identity_scheme r = last_ok success (identity_scheme r0) (values (lit "id") l);
  of_pubkey : compressed_pubkey r = last_ok pubkey_field (compressed_pubkey r0) (values (lit "secp256k1") l);
  of_ip : ip r = last_ok decode_ipv4 (ip r0) (values (lit "ip") l);
  of_ip6 : ip6 r = last_ok decode_ipv6 (ip6 r0) (values (lit "ip6") l);
  of_tcp : tcp_port r = last_ok decode_port (tcp_port r0) (values (lit "tcp") l);
  of_udp : udp_port r = last_ok decode_port (udp_port r0) (values (lit "udp") l);
  of_tcp6 : tcp6_port r = last_ok decode_port (tcp6_port r0) (values (lit "tcp6") l);
  of_udp6 : udp6_port r = last_ok decode_port (udp6_port r0) (values (lit "udp6") l);
  of_fork : eth_fork_id r = last_ok fork_field (eth_fork_id r0) (values (lit "eth") l);
  of_extra k : k ∉ known_keys -> extra_fields r !! k = last_ok (success ∘ Some) (extra_fields r0 !! k) (values k l)
}.

(** Case analysis on the key of a pair. *)
Ltac by_key :=
  intros ? ? ?; unfold store_field, on_value;
  repeat (destruct (decide (_ = lit _)) as [->|?]; [try by repeat (cbn || case_match)|]);
  try by repeat (cbn || case_match).

Lemma store_field_extra key k v r : key ∉ known_keys ->
  extra_fields (store_field k v r) !! key = if decide (k = key) then Some v else extra_fields r !! key.
Proof.
  intros Hkey. unfold store_field, on_value.
  repeat (destruct (decide (k = lit _)) as [->|?];
    [destruct (decide (lit _ = key)) as [<-|_]; [by destruct Hkey; repeat constructor|by repeat (cbn || case_match)]|]).
  cbn. destruct (decide (k = key)) as [->|]; [by rewrite lookup_insert_eq|by rewrite lookup_insert_ne].
Qed.

Lemma stored_fields l r : fields_of l r (stored l r).
Proof.
  split.
  - apply (stored_field identity_scheme success). by_key.
  - apply (stored_field compressed_pubkey pubkey_field). unfold pubkey_field. by_key.
  - apply (stored_field ip decode_ipv4). by_key.
  - apply (stored_field ip6 decode_ipv6). by_key.
  - apply (stored_field tcp_port decode_port). by_key.
  - apply (stored_field udp_port decode_port). by_key.
  - apply (stored_field tcp6_port decode_port). by_key.
  - apply (stored_field udp6_port decode_port). by_key.
  - apply (stored_field eth_fork_id fork_field). unfold fork_field. by_key.
  - intros key Hk. apply (stored_field (fun r => extra_fields r !! key) (success ∘ Some)).
    intros k v r'. by apply store_field_extra.
Qed.

(** ** Verification *)

Definition reserved (key : text) : bool := bool_decide (key = kSigField) || bool_decide (key = kContentField).

(** The record without the two bookkeeping entries. *)
Definition unbook (r : EnrRecord) : EnrRecord := with_extra (fun e => delete kContentField (delete kSigField e)) r.

Lemma unbook_store k v r : reserved k = false -> unbook (store_field k v r) = store_field k v (unbook r).
Proof.
  unfold reserved. intros [Hs Hc]%orb_false_iff. apply bool_decide_eq_false in Hs, Hc.
  unfold store_field, on_value.
  repeat (destruct (decide (k = lit _)) as [->|?]; [by repeat (cbn || case_match)|]).
  unfold unbook, with_extra. cbn. by rewrite !delete_insert_ne by done.
Qed.

Lemma unbook_stored l r : Forall (fun kv => reserved kv.1 = false) l -> unbook (stored l r) = stored l (unbook r).
Proof.
  intros Hl. revert r. induction Hl as [|[k i] l Hk Hl IH]; intros r; [done|].
  change (unbook (stored l (store_field k (field_value i) r)) = stored l (store_field k (field_value i) (unbook r))).
  by rewrite IH, unbook_store.
Qed.

(** The key [pk], the signature and the content agree. *)
Definition verifies (pk sig content : list byte) (pubkey : secp_pubkey) : Prop :=
  context_created = true /\ ec_pubkey_parse pk = Some pubkey /\
  exists s, signature_parse_compact (take (Z.to_nat kEnrSigBytes) sig) = Some s /\
    ecdsa_verify s (keccak256 content) pubkey = true.

Definition node_id_of (pubkey : secp_pubkey) : list byte :=
  take (Z.to_nat kNodeIdBytes) (drop (Z.to_nat kUncompressedPrefixLen) (ec_pubkey_serialize pubkey)).

Lemma verify_signature_ok r sig content pubkey :
  extra_fields r !! kSigField = Some sig -> extra_fields r !! kContentField = Some content ->
  kEnrSigBytes <= Zlen sig -> verifies (compressed_pubkey r) sig content pubkey ->
  verify_signature r = success (unbook (with_node_id (node_id_of pubkey) r)).
Proof.
  intros Es Ec Hl (Hctx & Hpk & s & Hs & Hv). unfold verify_signature. rewrite Es, Ec, Hctx, Hpk. cbn [negb].
  rewrite (proj2 (Z.ltb_ge _ _)) by done. rewrite Hs, Hv. cbn [negb]. unfold decompress_pubkey.
  by rewrite Hctx, Hpk.
Qed.

(** What is parsed of a record that decodes to [r]. *)
Lemma parse_wire sig n l tail k :
  let raw := record_wire sig n l ++ pairs_wire tail in
  let r := stored (l ++ tail) (base_record raw sig (rlp_list (content_payload n l)) n) in
  Zlen sig = kEnrSigBytes -> in_width 64 n -> Zlen raw <= kEnrMaxBytes ->
  compressed_pubkey r <> zero_array kCompressedKeyBytes ->
  parse (enr_uri raw k) = verify_signature r.
Proof.
  intros raw r Hs Hn Hraw Hk. unfold parse. rewrite decode_uri_enr. cbn [mbind outcome_bind].
  rewrite (proj2 (Z.ltb_ge _ _)) by done. unfold raw. rewrite decode_rlp_wire by (try done; unfold fits, kEnrMaxBytes in *; fold raw; lia).
  cbn [mbind outcome_bind]. fold raw. fold r. unfold require_pubkey. by rewrite decide_False.
Qed.

Lemma store_field_header k v r : seq (store_field k v r) = seq r /\ raw_rlp (store_field k v r) = raw_rlp r.
Proof. unfold store_field, on_value. split; by repeat case_match. Qed.

Lemma stored_header l r : seq (stored l r) = seq r /\ raw_rlp (stored l r) = raw_rlp r.
Proof.
  revert r. induction l as [|[k i] l IH]; intros r; [done|].
  destruct (IH (store_field k (field_value i) r)) as [IH1 IH2].
  destruct (store_field_header k (field_value i) r) as [E1 E2]. split; [by rewrite <- E1|by rewrite <- E2].
Qed.

Lemma unbook_base raw sig content n : unbook (base_record raw sig content n) = with_seq n (with_raw raw EnrRecord_new).
Proof.
  unfold unbook, base_record, with_seq, with_extra, with_raw, EnrRecord_new. cbn. f_equal.
Qed.

(** A record whose pairs are [l] and which is accepted for [pubkey]. *)
Record parsed_as (raw : list byte) (n : Z) (l : list (text * item)) (pubkey : secp_pubkey) (r : EnrRecord) : Prop := {
  pa_seq : seq r = n;
  pa_raw : raw_rlp r = raw;
  pa_node_id : node_id r = node_id_of pubkey;
  pa_fields : fields_of l EnrRecord_new r
}.

(** The public key the pairs give. *)
Definition pubkey_of (l : list (text * item)) : list byte :=
  last_ok pubkey_field (zero_array kCompressedKeyBytes) (values (lit "secp256k1") l).

(** A signed record: what an honest node publishes. *)
Record signed_record (sig : list byte) (n : Z) (l : list (text * item)) (pubkey : secp_pubkey) : Prop := {
  sr_sig : Zlen sig = kEnrSigBytes;
  sr_seq : in_width 64 n;
  sr_keys : Forall (fun kv => reserved kv.1 = false) l;
  sr_key : pubkey_of l <> zero_array kCompressedKeyBytes;
  sr_verifies : verifies (pubkey_of l) sig (rlp_list (content_payload n l)) pubkey
}.

Lemma values_app key l1 l2 : values key (l1 ++ l2) = values key l1 ++ values key l2.
Proof. unfold values. by rewrite filter_app, fmap_app. Qed.

Lemma reserved_unknown key : reserved key = true -> key ∉ known_keys.
Proof.
  intros Hk Hin. revert Hin Hk. revert key.
  apply (proj1 (Forall_forall (fun key => reserved key = true -> False) known_keys)). by repeat constructor.
Qed.

Lemma reserved_values l key : Forall (fun kv => reserved kv.1 = false) l -> reserved key = true -> values key l = [].
Proof.
  intros Hl Hk. unfold values. induction Hl as [|[k i] l Hk' Hl IH]; [done|]. rewrite filter_cons.
  case_decide as E; [|done]. cbn in E, Hk'. congruence.
Qed.

(** A signed record is accepted together with any pairs after it that leave its key. *)
Lemma decode_accepts sig n l tail pubkey :
  let raw := record_wire sig n l ++ pairs_wire tail in
  signed_record sig n l pubkey -> Forall (fun kv => reserved kv.1 = false) tail ->
  pubkey_of (l ++ tail) = pubkey_of l -> fits raw ->
  exists r0 r, decode_rlp raw = success r0 /\ verify_signature r0 = success r /\ parsed_as raw n (l ++ tail) pubkey r.
Proof.
  intros raw [Hs Hn Hl Hpk Hv] Htail Hkey Hraw.
  set (r := stored (l ++ tail) (base_record raw sig (rlp_list (content_payload n l)) n)).
  assert (Forall (fun kv => reserved kv.1 = false) (l ++ tail)) as Hall by by apply Forall_app.
  assert (compressed_pubkey r = pubkey_of l) as Hr by (rewrite <- Hkey; apply stored_fields).
  assert (forall key, reserved key = true -> extra_fields r !! key = extra_fields (base_record raw sig (rlp_list (content_payload n l)) n) !! key) as Hx.
  { intros key Hk. unfold r. rewrite of_extra with (l := l ++ tail) (r0 := base_record raw sig (rlp_list (content_payload n l)) n).
    - by rewrite (reserved_values _ _ Hall Hk).
    - apply stored_fields.
    - by apply reserved_unknown. }
  exists r. eexists. split; [|split].
  - unfold raw. rewrite decode_rlp_wire by done. fold raw. fold r. unfold require_pubkey. by rewrite Hr, decide_False.
  - apply (verify_signature_ok r sig (rlp_list (content_payload n l)) pubkey); rewrite ?Hx, ?Hr by done; [done|done|lia|done].
  - change (unbook (with_node_id ?i r)) with (with_node_id i (unbook r)).
    unfold r. rewrite unbook_stored, unbook_base by done.
    set (r1 := with_seq n (with_raw raw EnrRecord_new)). destruct (stored_header (l ++ tail) r1) as [E1 E2].
    destruct (stored_fields (l ++ tail) r1). by split.
Qed.

Lemma parse_accepts sig n l tail pubkey k :
  let raw := record_wire sig n l ++ pairs_wire tail in
  signed_record sig n l pubkey -> Forall (fun kv => reserved kv.1 = false) tail ->
  pubkey_of (l ++ tail) = pubkey_of l -> Zlen raw <= kEnrMaxBytes ->
  exists r, parse (enr_uri raw k) = success r /\ parsed_as raw n (l ++ tail) pubkey r.
Proof.
  intros raw Hr Htail Hkey Hraw. destruct (decode_accepts sig n l tail pubkey Hr Htail Hkey) as (r0 & r & Ed & Ev & Hp).
  { unfold fits, kEnrMaxBytes in *. fold raw. lia. }
  exists r. split; [|done]. unfold parse. rewrite decode_uri_enr. cbn [mbind outcome_bind].
  rewrite (proj2 (Z.ltb_ge _ _)) by done. fold raw in Ed. by rewrite Ed.
Qed.

(** ** Every input *)

Definition fork_ok (f : ForkId) : Prop := Zlen (hash f) = kForkHashBytes /\ in_width 64 (next f).
Definition opt_fork_ok (o : option ForkId) : Prop := forall f, o = Some f -> fork_ok f.

(** What the fields hold whatever was read. *)
Record enr_ok (r : EnrRecord) : Prop := {
  ok_seq : in_width 64 (seq r);
  ok_pubkey : Zlen (compressed_pubkey r) = kCompressedKeyBytes;
  ok_ports : Forall (in_width 16) [udp_port r; tcp_port r; udp6_port r; tcp6_port r];
  ok_fork : opt_fork_ok (eth_fork_id r)
}.

Lemma decode_port_ok v p : decode_port v = success p -> 1 <= p < 2 ^ 16.
Proof.
  unfold decode_port. case_match; [done|]. case_match eqn:E; [done|]. intros [= <-]. zbool.
  destruct v as [|b v _] using rev_ind; [done|]. rewrite foldl_app in *. cbn [foldl] in *.
  unfold u16 in *. set (x := Z.lor _ _) in *. pose proof (Z.mod_pos_bound x (2 ^ 16)). lia.
Qed.

Lemma safe_eth_entry_body : safe 1 decode_eth_entry_body fork_ok.
Proof.
  unfold decode_eth_entry_body. eapply safe_bind_0; [apply safe_or_fail, safe_IsList|]. intros [] _; [|apply safe_fail].
  cbn [negb]. eapply safe_bind_1; [apply safe_or_fail, safe_ReadListHeaderBytes|done|]. intros _ _.
  eapply safe_bind_0; [apply safe_or_fail, safe_IsList|]. intros [] _; [|apply safe_fail]. cbn [negb].
  eapply safe_bind_1; [apply safe_or_fail, safe_ReadListHeaderBytes|lia|]. intros _ _.
  eapply safe_bind_1; [apply safe_or_fail, safe_read_bytes|lia|]. intros h _.
  destruct (Z.eqb_spec (Zlen h) kForkHashBytes); [|apply safe_fail]. cbn [negb].
  eapply safe_bind_1; [apply safe_or_fail, (safe_read_integral 8); unfold is_sizeof; lia|lia|]. intros n Hn.
  by apply safe_ret.
Qed.

Lemma decode_eth_entry_ok v f : fits v -> decode_eth_entry v = success f -> fork_ok f.
Proof.
  intros Hv. unfold decode_eth_entry. case_match; [done|]. intros E.
  eapply run_decoder_post in E; [|apply safe_eth_entry_body|done]. exact E.
Qed.

Lemma safe_read_enr_value : safe 0 read_enr_value (fun o => match o with Some v => fits v | None => True end).
Proof.
  unfold read_enr_value. eapply safe_bind_0; [eapply safe_attempt, safe_PeekHeader|]. intros [h|] _; [|by apply safe_ret].
  destruct (is_list h); cbn [negb]; [|eapply safe_attempt, safe_read_bytes].
  eapply safe_bind_0; [apply safe_view|]. intros raw Hraw.
  destruct (_ <? _) eqn:?; [by apply safe_ret|].
  eapply safe_bind_0; [eapply safe_attempt, safe_SkipItem|]. intros o _. apply safe_ret. destruct o; [|done].
  unfold fits in *. rewrite length_take. lia.
Qed.

Lemma store_field_ok k v r : fits v -> enr_ok r -> enr_ok (store_field k v r).
Proof.
  intros Hv [Hs Hp Hports Hf].
  assert (forall p, decode_port v = success p -> in_width 16 p) as Hport by (intros p Hp'%decode_port_ok; unfold in_width; lia).
  assert (forall f, decode_eth_entry v = success f -> opt_fork_ok (Some f)) as Hfork.
  { intros f E f' [= <-]. by eapply decode_eth_entry_ok. }
  rewrite !Forall_cons in Hports. destruct Hports as (? & ? & ? & ? & _).
  unfold store_field, on_value.
  repeat (destruct (decide (k = lit _)) as [->|?]; [repeat case_match; try done; split; cbn; zbool; try done;
    rewrite ?Forall_cons, ?Forall_nil; eauto 10|]).
  by split; cbn; rewrite ?Forall_cons, ?Forall_nil.
Qed.

(** The loop ends, and without a fault. *)
Lemma pairs_loop_ok fuel : forall r v, fits v -> (length v < fuel)%nat -> enr_ok r ->
  match (pairs_loop fuel r v).1 with success r' => enr_ok r' | failure _ => True | crash _ => False end.
Proof.
  induction fuel as [|fuel IH]; intros r v Hv Hfuel Hr; [lia|]. cbn [pairs_loop]. unfold IsFinished. run.
  destruct (bool_decide (v = [])); [exact Hr|]. pose proof (safe_read_bytes v Hv) as Hk. unfold attempt.
  destruct (read_bytes v) as [[key|e|f] w]; [|exact Hr|done]. destruct Hk as (Hw & Hl & _).
  pose proof (safe_read_enr_value w (fits_suffix _ _ Hw Hv)) as Hval.
  destruct (read_enr_value w) as [[[val|]|e|f] w'] eqn:E; [|exact Hr|done|done].
  destruct Hval as (Hw' & Hl' & Hval). apply IH; [|lia|by apply store_field_ok].
  eapply fits_suffix; [exact Hw'|]. by eapply fits_suffix.
Qed.

Lemma read_pairs_ok r v : fits v -> enr_ok r ->
  match (read_pairs r v).1 with success r' => enr_ok r' | failure _ => True | crash _ => False end.
Proof. intros Hv Hr. unfold read_pairs. rewrite view_then. apply pairs_loop_ok; [done|lia|done]. Qed.

Lemma base_ok raw sig content n : in_width 64 n -> enr_ok (base_record raw sig content n).
Proof.
  intros Hn. split; [done|done| |done]. unfold in_width. cbn. rewrite !Forall_cons, Forall_nil. lia.
Qed.

(** The length of the signature item. *)
Lemma sig_item_length sig : Zlen sig = kEnrSigBytes -> Zlen (rlp_string sig) = 66.
Proof.
  intros Hs. unfold kEnrSigBytes in Hs.
  assert (rlp_string sig = rlp_header 128 64 ++ sig) as ->.
  { rewrite <- Hs. unfold rlp_string. by destruct sig as [|? []]. }
  rewrite length_app. change (length (rlp_header 128 64)) with 2%nat. lia.
Qed.

(** The content is read past the record exactly when the list ends before its
    first element does. *)
Lemma signed_content_cases n rest :
  0 <= n <= 66 + Zlen rest -> Zlen rest < 2 ^ 64 - 66 ->
  match signed_content n 66 rest with
  | success _ => 66 <= n
  | failure e => 66 <= n /\ e = kEnrRlpDecodeFailed
  | crash f => f = OutOfBounds /\ n < 66
  end.
Proof.
  intros Hn Hr. unfold signed_content, u64. destruct (Z_lt_ge_dec n 66).
  - assert ((n - 66) mod 2 ^ 64 = n - 66 + 2 ^ 64) as ->.
    { rewrite <- (Z_mod_plus_full _ 1). apply Z.mod_small. lia. }
    by rewrite (proj2 (Z.ltb_lt _ _)) by lia.
  - rewrite Z.mod_small by lia. rewrite (proj2 (Z.ltb_ge _ _)) by lia.
    set (p := take _ rest). destruct (decide (p = [])) as [->|Hp]; [split; [lia|done]|].
    assert (Zlen p < 2 ^ 64) as Hlp by (unfold p; rewrite length_take; lia).
    pose proof (appends_list_try (AddRaw p) p Hlp (appends_AddRaw p Hp) RlpEncoder_init) as Ha.
    rewrite (bind_success _ _ _ _ _ Ha). cbn. lia.
Qed.

(** Reading a record ends without a fault unless its list is shorter than the
    signature item it starts with. *)
Lemma decode_rlp_cases raw : fits raw ->
  match decode_rlp raw with
  | success r => enr_ok r
  | failure _ => True
  | crash f => f = OutOfBounds /\ exists n sig rest, 0 <= n < 66 /\ Zlen sig = kEnrSigBytes /\
      raw = rlp_header 192 n ++ rlp_string sig ++ rest
  end.
Proof.
  intros Hf. unfold decode_rlp, run_decoder, decode_rlp_body. rewrite or_fail_bind.
  destruct (IsList_cases raw) as [[e ->]|[[] ->]]; [done| |done]. cbn [negb]. rewrite or_fail_bind.
  pose proof (safe_ReadListHeaderBytes raw Hf) as Hn. destruct (ReadListHeaderBytes raw) as [[n|e|f] v] eqn:E; [|done|done].
  apply ReadListHeaderBytes_iff in E as [-> Hnl]; [|done]. assert (fits v) as Hv by by eapply fits_app_r.
  rewrite view_then, or_fail_bind. pose proof (safe_read_bytes v Hv) as Hs.
  destruct (read_bytes v) as [[sig|e|f] rest] eqn:E; [|done|done]. apply read_bytes_iff in E as ->; [|done].
  destruct (Z.eqb_spec (Zlen sig) kEnrSigBytes) as [Hsig|]; [|done]. cbn [negb]. rewrite view_then.
  pose proof (sig_item_length sig Hsig) as H66. assert (fits rest) as Hrest by by eapply fits_app_r.
  replace (Zlen (rlp_string sig ++ rest) - Zlen rest) with 66 by (rewrite length_app; lia).
  assert (0 <= n <= 66 + Zlen rest /\ Zlen rest < 2 ^ 64 - 66) as [Hn1 Hn2].
  { unfold fits in Hv. rewrite length_app in Hv, Hnl. lia. }
  pose proof (signed_content_cases n rest Hn1 Hn2) as Hc. unfold lift, mbind at 1, M_bind at 1.
  destruct (signed_content n 66 rest) as [content|e|f]; [|done|].
  2: { destruct Hc as [-> Hc]. split; [done|]. exists n, sig, rest. split; [lia|done]. }
  rewrite or_fail_bind. pose proof (safe_read_integral 8 ltac:(unfold is_sizeof; lia) rest Hrest) as Hseq.
  destruct (read_integral 8 rest) as [[q|e|f] w]; [|done|done]. destruct Hseq as (Hw & _ & Hq).
  unfold mbind, M_bind. set (raw := _ ++ _ ++ _). pose proof (read_pairs_ok (base_record raw sig content q) w) as Hp.
  specialize (Hp (fits_suffix _ _ Hw Hrest) (base_ok raw sig content q Hq)). unfold base_record in Hp.
  destruct (read_pairs _ w) as [[r|e|f] w']; [|done|done]. by destruct (decide _).
Qed.

Lemma verify_signature_cases r : enr_ok r ->
  match verify_signature r with
  | success r' => enr_ok r'
  | failure _ => True
  | crash f => f = OutOfBounds /\ exists sig, extra_fields r !! kSigField = Some sig /\ Zlen sig < kEnrSigBytes
  end.
Proof.
  intros Hr. unfold verify_signature.
  destruct (extra_fields r !! kSigField) as [sig|]; [|done]. destruct (extra_fields r !! kContentField) as [content|]; [|done].
  destruct context_created eqn:Hctx; [|done]. cbn [negb]. destruct (ec_pubkey_parse _) as [pubkey|] eqn:Hpk; [|done].
  destruct (Z.ltb_spec (Zlen sig) kEnrSigBytes); [by eauto|].
  destruct (signature_parse_compact _) as [s|]; [|done]. destruct (ecdsa_verify _ _ _); [|done]. cbn [negb].
  unfold decompress_pubkey. rewrite Hctx, Hpk. by destruct Hr.
Qed.

(** C5: an [enr:] URI made of a signed record parses, padded or not: the sequence number,
    the raw record and the node id derived from the key are set, every known field holds
    the last value of its key that decodes, and every other key is kept with its last
    value. *)
Theorem enr_roundtrip sig n l pubkey padding :
  signed_record sig n l pubkey -> Zlen (record_wire sig n l) <= kEnrMaxBytes ->
  exists r, parse (enr_uri (record_wire sig n l) padding) = success r /\
    parsed_as (record_wire sig n l) n l pubkey r.
Proof.
  intros Hr Hl. pose proof (parse_accepts sig n l [] pubkey padding Hr) as Hp. unfold pairs_wire in Hp. cbn in Hp.
  rewrite !app_nil_r in Hp. by apply Hp.
Qed.

(** the pairs are read up to the end of the input and not of the signed list, so
    that a pair appended to a signed record, which its signature does not cover, is taken:
    anyone who passes the record on can replace the address of the node. *)
Theorem unsigned_address_accepted sig n l pubkey address padding :
  signed_record sig n l pubkey -> Zlen address = kIPv4Bytes ->
  let raw := record_wire sig n l in
  let raw' := raw ++ pairs_wire [(lit "ip", Str address)] in
  Zlen raw' <= kEnrMaxBytes ->
  exists r r', parse (enr_uri raw padding) = success r /\ parse (enr_uri raw' padding) = success r' /\
    node_id r' = node_id r /\ seq r' = seq r /\ ip r' = address_v4_to_string address.
Proof.
  intros Hr Ha raw raw' Hl.
  pose proof (parse_accepts sig n l [] pubkey padding Hr) as Hp. unfold pairs_wire in Hp. cbn in Hp.
  rewrite !app_nil_r in Hp. destruct Hp as (r & Hp & [E1 _ E2 _]); [done|done|unfold raw', raw in Hl; rewrite length_app in Hl; lia|].
  destruct (parse_accepts sig n l [(lit "ip", Str address)] pubkey padding Hr) as (r' & Hp' & [E1' _ E2' Hf']).
  { by repeat constructor. }
  { unfold pubkey_of. rewrite values_app. by rewrite app_nil_r. }
  { done. }
  exists r, r'. split; [done|]. split; [done|]. split; [congruence|]. split; [congruence|].
  rewrite (of_ip _ _ _ Hf'), values_app. unfold last_ok. rewrite foldl_app.
  change (values (lit "ip") [(lit "ip", Str address)]) with [address]. cbn [foldl]. unfold decode_ipv4. by rewrite Ha.
Qed.

(** The pairs of a record that borrows the signature of another. *)
Definition forged_pairs (pk address sig0 content0 : list byte) : list (text * item) :=
  [(lit "secp256k1", Str pk); (lit "ip", Str address); (kSigField, Str sig0); (kContentField, Str content0)].


(** A list shorter than the signature item it starts with. *)
Lemma decode_rlp_short_list n sig rest :
  0 <= n < 66 -> Zlen sig = kEnrSigBytes -> n <= 66 + Zlen rest ->
  fits (rlp_header 192 n ++ rlp_string sig ++ rest) ->
  decode_rlp (rlp_header 192 n ++ rlp_string sig ++ rest) = crash OutOfBounds.
Proof.
  intros Hn Hs Hr Hf. pose proof (sig_item_length sig Hs) as H66.
  unfold decode_rlp, run_decoder, decode_rlp_body. set (raw := _ ++ _ ++ _) in *. rewrite or_fail_bind.
  assert (ReadListHeaderBytes raw = (success n, rlp_string sig ++ rest)) as Hh.
  { apply ReadListHeaderBytes_iff; [done|]. split; [done|]. rewrite length_app. lia. }
  rewrite (IsList_true raw n _ Hf Hh). cbn [negb]. rewrite or_fail_bind, Hh, view_then, or_fail_bind.
  rewrite (consumes_read_bytes sig rest) by by eapply fits_app_r. rewrite Hs, Z.eqb_refl. cbn [negb]. rewrite view_then.
  replace (Zlen (rlp_string sig ++ rest) - Zlen rest) with 66 by (rewrite length_app; lia).
  assert (Zlen rest < 2 ^ 64 - 66) as Hrest.
  { unfold fits, raw in Hf. rewrite !length_app in Hf. lia. }
  pose proof (signed_content_cases n rest ltac:(lia) Hrest) as Hc. unfold lift, mbind, M_bind.
  destruct (signed_content n 66 rest); [lia|lia|by destruct Hc as [-> _]].
Qed.


(** on every text the parser returns.  The record it accepts holds ports of 16 bits, a
    key of 33 bytes and a fork hash of 4; it reads out of bounds only for a list shorter than
    its signature item, or when a record names its own short signature. *)
Theorem enr_parse_faults uri :
  match parse uri with
  | success r => enr_ok r
  | failure _ => True
  | crash f => f = OutOfBounds /\ exists raw, decode_uri uri = success raw /\
      ((exists n sig rest, 0 <= n < 66 /\ Zlen sig = kEnrSigBytes /\ raw = rlp_header 192 n ++ rlp_string sig ++ rest) \/
       (exists r sig, decode_rlp raw = success r /\ extra_fields r !! kSigField = Some sig /\ Zlen sig < kEnrSigBytes))
  end.
Proof.
  unfold parse. destruct (decode_uri uri) as [raw|e|f] eqn:Hu; [|done|by destruct (decode_uri_no_crash uri f)].
  cbn [mbind outcome_bind]. destruct (Z.ltb_spec kEnrMaxBytes (Zlen raw)); [done|].
  assert (fits raw) as Hf by (unfold fits, kEnrMaxBytes in *; lia). pose proof (decode_rlp_cases raw Hf) as Hd.
  destruct (decode_rlp raw) as [r|e|f] eqn:Hr; [|done|]; cbn [mbind outcome_bind].
  - pose proof (verify_signature_cases r Hd) as Hv. destruct (verify_signature r) as [r'|e|f]; [done|done|].
    destruct Hv as [-> Hv]. split; [done|]. exists raw. destruct Hv as (sig & ? & ?). eauto 10.
  - destruct Hd as [-> Hd]. split; [done|]. eauto 10.
Qed.

(** a parsed record becomes a peer exactly when it has an address: the IPv4 endpoint
    if there is one, otherwise the IPv6 one, with the default ports for those that are
    missing, so that no peer has a port 0. *)
Theorem validated_peer_exact r now :
  enr_ok r ->
  match to_validated_peer r now with
  | success p =>
      peer_node_id p = node_id r /\ peer_eth_fork_id p = eth_fork_id r /\ peer_ip p <> [] /\
      1 <= peer_udp_port p < 2 ^ 16 /\ 1 <= peer_tcp_port p < 2 ^ 16 /\
      (ip r <> [] -> peer_ip p = ip r /\ (udp_port r <> 0 -> peer_udp_port p = udp_port r) /\ (tcp_port r <> 0 -> peer_tcp_port p = tcp_port r)) /\
      (ip r = [] -> peer_ip p = ip6 r /\ (udp6_port r <> 0 -> peer_udp_port p = udp6_port r) /\ (tcp6_port r <> 0 -> peer_tcp_port p = tcp6_port r))
  | failure e => e = kEnrMissingAddress /\ ip r = [] /\ ip6 r = []
  | crash _ => False
  end.
Proof.
  intros [_ _ Hp _]. rewrite !Forall_cons in Hp. unfold in_width in Hp. unfold to_validated_peer.
  destruct (bool_decide_reflect (ip r = [])) as [E|E], (bool_decide_reflect (ip6 r = [])) as [E6|E6];
    cbn [andb negb peer_node_id peer_eth_fork_id peer_ip peer_udp_port peer_tcp_port]; [done| | |];
    unfold kDefaultUdpPort, kDefaultTcpPort; (repeat split; try done; repeat case_match; zbool; try done; lia).
Qed.
End proofs.

(** ** A concrete node *)

Module SampleEnr.
(** A hash that keeps the low bytes, and a signature made of the key and the hash. *)
#[global] Instance sample_primitives : EnrPrimitives := {|
  keccak256 l := be_bytes 32 (be_val l);
  context_created := true;
  secp_pubkey := list byte;
  secp_signature := list byte;
  ec_pubkey_parse k := if Zlen k =? 33 then Some k else None;
  signature_parse_compact s := Some s;
  ecdsa_verify s h k := bool_decide (s = k ++ drop 1 h);
  ec_pubkey_serialize k := x04 :: k ++ replicate 31 x00;
  address_v4_to_string b := b;
  address_v6_to_string b := b
|}.

Definition pk : list byte := replicate 33 x02.
Definition pairs : list (text * item) :=
  [(lit "id", Str (lit "v4")); (lit "ip", Str [x7f; x00; x00; x01]); (lit "secp256k1", Str pk);
   (lit "udp", Str [x76; x5f])].
Definition sig : list byte := pk ++ drop 1 (keccak256 (rlp_list (content_payload 1 pairs))).

Definition node_key : secp_pubkey := pk.

Lemma sample_signed : signed_record sig 1 pairs node_key.
Proof.
  split; [done|done|by repeat constructor|done|]. split; [done|]. split; [done|].
  exists sig. split; [done|]. by apply bool_decide_eq_true_2; vm_compute.
Qed.
End SampleEnr.

Import SampleEnr.

Lemma enr_roundtrip_witness :
  exists r, parse (enr_uri (record_wire sig 1 pairs) 2) = success r /\
    parsed_as (record_wire sig 1 pairs) 1 pairs node_key r.
Proof. apply enr_roundtrip; [exact sample_signed|vm_compute; discriminate]. Defined.

Lemma unsigned_address_accepted_witness :
  exists r r', parse (enr_uri (record_wire sig 1 pairs) 0) = success r /\
    parse (enr_uri (record_wire sig 1 pairs ++ pairs_wire [(lit "ip", Str [x0a; x00; x00; x09])]) 0) = success r' /\
    node_id r' = node_id r /\ seq r' = seq r /\ ip r' = [x0a; x00; x00; x09].
Proof.
  apply (unsigned_address_accepted sig 1 pairs node_key [x0a; x00; x00; x09] 0);
    [exact sample_signed|reflexivity|vm_compute; discriminate].
Defined.



Definition sample_record : EnrRecord := with_ip6 (replicate 16 x01) EnrRecord_new.

Lemma validated_peer_exact_witness :
  exists p, to_validated_peer sample_record 0 = success p /\ 1 <= peer_udp_port p < 2 ^ 16.
Proof.
  eexists. split; [reflexivity|].
  assert (enr_ok sample_record) as Hok.
  { split; [done|done| |done]. unfold in_width. cbn. rewrite !Forall_cons, Forall_nil. lia. }
  exact (proj1 (proj2 (proj2 (proj2 (validated_peer_exact sample_record 0 Hok))))).
Defined.
