(* ===== verification/Discv5Crawler.v ===== *)
(** * The discv5 crawler

    [discv5_crawler] ([src/discv5/discv5_crawler.cpp],
    [include/discv5/discv5_crawler.hpp]): the queue of peers to query, the sets of
    measured, failed and discovered nodes, the fork filter and the counters.  A
    member function is a computation on the crawler; what the peer callback is
    called with is recorded in [emitted_], what the error callback is called with
    in [errors_].  The mutex makes every function one step. *)

From S2P Require Import Prelude ParseUtility Base64Url Enr.

(** The fields of [discv5Config] the crawler reads. *)
Record discv5Config := mkDiscv5Config {
  bootstrap_enrs : list text;
  required_fork_id : option ForkId
}.

(** The activity counters. *)
Inductive crawl_stat := stat_discovered | stat_invalid_enr | stat_wrong_chain | stat_no_eth_entry | stat_duplicates.

#[global] Instance crawl_stat_eq_dec : EqDecision crawl_stat.
Proof. solve_decision. Defined.

Record discv5_crawler := mkCrawler {
  config_ : discv5Config;
  queued_peers_ : list ValidatedPeer;
  measured_ids_ : gset text;
  failed_ids_ : gset text;
  discovered_ids_ : gset text;
  stat_ : crawl_stat -> Z;
  running_ : bool;
  peer_callback_ : bool;
  error_callback_ : bool;
  emitted_ : list ValidatedPeer;
  errors_ : list text
}.

Notation Crawl := (M discv5_crawler discv5Error).

Definition discv5_crawler_new (config : discv5Config) : discv5_crawler :=
  mkCrawler config [] ∅ ∅ ∅ (fun _ => 0) false false false [] [].

Definition modify (f : discv5_crawler -> discv5_crawler) : Crawl unit := fun c => (success tt, f c).

Definition set_queue (q : list ValidatedPeer) (c : discv5_crawler) : discv5_crawler :=
  mkCrawler (config_ c) q (measured_ids_ c) (failed_ids_ c) (discovered_ids_ c) (stat_ c) (running_ c)
    (peer_callback_ c) (error_callback_ c) (emitted_ c) (errors_ c).
Definition set_ids (measured failed discovered : gset text) (c : discv5_crawler) : discv5_crawler :=
  mkCrawler (config_ c) (queued_peers_ c) measured failed discovered (stat_ c) (running_ c)
    (peer_callback_ c) (error_callback_ c) (emitted_ c) (errors_ c).
Definition set_running (b : bool) (c : discv5_crawler) : discv5_crawler :=
  mkCrawler (config_ c) (queued_peers_ c) (measured_ids_ c) (failed_ids_ c) (discovered_ids_ c) (stat_ c) b
    (peer_callback_ c) (error_callback_ c) (emitted_ c) (errors_ c).
Definition set_callbacks (peer error : bool) (c : discv5_crawler) : discv5_crawler :=
  mkCrawler (config_ c) (queued_peers_ c) (measured_ids_ c) (failed_ids_ c) (discovered_ids_ c) (stat_ c) (running_ c)
    peer error (emitted_ c) (errors_ c).

(** [++stat_x_;]. *)
Definition count_stat (s : crawl_stat) : Crawl unit := modify (fun c =>
  mkCrawler (config_ c) (queued_peers_ c) (measured_ids_ c) (failed_ids_ c) (discovered_ids_ c)
    (fun s' => if decide (s' = s) then u64 (stat_ c s + 1) else stat_ c s') (running_ c)
    (peer_callback_ c) (error_callback_ c) (emitted_ c) (errors_ c)).

(** [if (peer_callback_) peer_callback_(peer);]. *)
Definition call_peer (peer : ValidatedPeer) : Crawl unit := modify (fun c =>
  mkCrawler (config_ c) (queued_peers_ c) (measured_ids_ c) (failed_ids_ c) (discovered_ids_ c) (stat_ c) (running_ c)
    (peer_callback_ c) (error_callback_ c) (if peer_callback_ c then emitted_ c ++ [peer] else emitted_ c) (errors_ c)).

Definition call_error (message : text) : Crawl unit := modify (fun c =>
  mkCrawler (config_ c) (queued_peers_ c) (measured_ids_ c) (failed_ids_ c) (discovered_ids_ c) (stat_ c) (running_ c)
    (peer_callback_ c) (error_callback_ c) (emitted_ c) (if error_callback_ c then errors_ c ++ [message] else errors_ c)).

(** The raw bytes of the node id as a key. *)
Definition crawl_key (id : list byte) : text := id.

Definition is_queued (key : text) (queue : list ValidatedPeer) : bool :=
  existsb (fun qp => bool_decide (crawl_key (peer_node_id qp) = key)) queue.

(** One pass of the loop of [process_found_peers]. *)
Definition process_found_peer (peer : ValidatedPeer) : Crawl unit :=
  c ← get_state;
  let key := crawl_key (peer_node_id peer) in
  if bool_decide (key ∈ discovered_ids_ c) then count_stat stat_duplicates
  else if is_queued key (queued_peers_ c) then count_stat stat_duplicates
  else modify (set_queue (queued_peers_ c ++ [peer])).

Definition process_found_peers (peers : list ValidatedPeer) : Crawl unit := for_each process_found_peer peers.

(** [emit_peer]. *)
Definition fork_matches (required actual : ForkId) : bool :=
  bool_decide (hash required = hash actual) && (next required =? next actual).

Definition emit_unique (peer : ValidatedPeer) : Crawl unit :=
  c ← get_state;
  let key := crawl_key (peer_node_id peer) in
  if bool_decide (key ∈ discovered_ids_ c) then count_stat stat_duplicates
  else
    modify (set_ids (measured_ids_ c) (failed_ids_ c) ({[key]} ∪ discovered_ids_ c)) ;;
    count_stat stat_discovered ;;
    call_peer peer.

Definition emit_peer (peer : ValidatedPeer) : Crawl unit :=
  c ← get_state;
  match required_fork_id (config_ c) with
  | None => emit_unique peer
  | Some required =>
      match peer_eth_fork_id peer with
      | None => count_stat stat_no_eth_entry
      | Some actual =>
          if fork_matches required actual then emit_unique peer else count_stat stat_wrong_chain
      end
  end.

(** One pass of the loop of [ingest_discovered_peers]. *)
Definition ingest_discovered_peer (peer : ValidatedPeer) : Crawl unit :=
  c ← get_state;
  let key := crawl_key (peer_node_id peer) in
  let already_discovered := bool_decide (key ∈ discovered_ids_ c) in
  let already_queued := is_queued key (queued_peers_ c) in
  (if negb already_discovered && negb already_queued then modify (set_queue (queued_peers_ c ++ [peer])) else mret tt) ;;
  if already_discovered then count_stat stat_duplicates else emit_peer peer.

Definition ingest_discovered_peers (peers : list ValidatedPeer) : Crawl unit := for_each ingest_discovered_peer peers.

Section crawler.
Context `{EnrPrimitives}.

Definition add_bootstrap (record : EnrRecord) (now : Z) : Crawl unit :=
  match to_validated_peer record now with
  | success peer => process_found_peers [peer]
  | _ => count_stat stat_invalid_enr
  end.

Definition enqueue_enr_uri (uri : text) (now : Z) : Crawl unit :=
  match parse uri with
  | crash f => crash_with f
  | failure _ =>
      count_stat stat_invalid_enr ;;
      call_error (lit "Invalid ENR URI: " ++ take 60 uri)
  | success record =>
      match to_validated_peer record now with
      | success peer => process_found_peers [peer]
      | _ => count_stat stat_invalid_enr
      end
  end.

Definition kEnodePrefix : text := lit "enode://".
Definition kPubkeyHexLen : Z := 128.

(** [hex_to_nibble]. *)
Definition hex_to_nibble (c : byte) : Z :=
  if (u8 "0"%byte <=? u8 c) && (u8 c <=? u8 "9"%byte) then u8 c - u8 "0"%byte
  else if (u8 "a"%byte <=? u8 c) && (u8 c <=? u8 "f"%byte) then 10 + (u8 c - u8 "a"%byte)
  else if (u8 "A"%byte <=? u8 c) && (u8 c <=? u8 "F"%byte) then 10 + (u8 c - u8 "A"%byte)
  else 0xFF.

(** The loop over the characters of the key, two per byte. *)
Fixpoint decode_hex_key (hex_key : text) : option (list byte) :=
  match hex_key with
  | hi_char :: lo_char :: rest =>
      let hi := hex_to_nibble hi_char in
      let lo := hex_to_nibble lo_char in
      if (hi =? 0xFF) || (lo =? 0xFF) then None
      else (fun l => byte_of (Z.lor (Z.shiftl hi 4) lo) :: l) <$> decode_hex_key rest
  | _ => Some []
  end.

(** [s.find(c)] and [s.rfind(c)]. *)
Definition find_char (c : byte) (s : text) : option nat := fst <$> list_find (c =.) s.
Definition rfind_char (c : byte) (s : text) : option nat :=
  (fun i => (length s - 1 - i)%nat) <$> find_char c (reverse s).

(** The port loop; [None] is a character that is no digit. *)
Fixpoint parse_port (port : Z) (s : text) : option Z :=
  match s with
  | [] => Some port
  | c :: s' =>
      if (u8 c <? u8 "0"%byte) || (u8 "9"%byte <? u8 c) then None
      else parse_port (u16 (port * 10 + u16 (u8 c - u8 "0"%byte))) s'
  end.

(** The checks of [enqueue_enode_uri] up to the peer. *)
Definition parse_enode_uri (uri : text) (now : Z) : option ValidatedPeer :=
  if Zlen uri <? Zlen kEnodePrefix + kPubkeyHexLen + 2 then None else
  let body := drop (length kEnodePrefix) uri in
  at_pos ← find_char "@"%byte body;
  if negb (Z.of_nat at_pos =? kPubkeyHexLen) then None else
  node_id ← decode_hex_key (take (Z.to_nat kPubkeyHexLen) body);
  let host_port := drop (at_pos + 1) body in
  colon_pos ← rfind_char ":"%byte host_port;
  let host := take colon_pos host_port in
  let port_str := drop (colon_pos + 1) host_port in
  port ← parse_port 0 port_str;
  if port =? 0 then None
  else Some (mkValidatedPeer node_id host port port now None).

Definition enqueue_enode_uri (uri : text) (now : Z) : Crawl unit :=
  match parse_enode_uri uri now with
  | None => count_stat stat_invalid_enr
  | Some peer => process_found_peers [peer]
  end.

(** One bootstrap URI of [start]. *)
Definition enqueue_bootstrap (now : Z) (uri : text) : Crawl unit :=
  if bool_decide (take 4 uri = lit "enr:") then enqueue_enr_uri uri now
  else if bool_decide (take 8 uri = kEnodePrefix) then enqueue_enode_uri uri now
  else mret tt.

Definition start (now : Z) : Crawl unit :=
  c ← get_state;
  modify (set_running true) ;;
  if running_ c then fail kCrawlerAlreadyRunning
  else for_each (enqueue_bootstrap now) (bootstrap_enrs (config_ c)).
End crawler.

Definition stop : Crawl unit :=
  c ← get_state;
  modify (set_running false) ;;
  if running_ c then mret tt else fail kCrawlerNotRunning.

Definition mark_measured (id : list byte) : Crawl unit := modify (fun c =>
  set_ids ({[crawl_key id]} ∪ measured_ids_ c) (failed_ids_ c) (discovered_ids_ c) c).

Definition mark_failed (id : list byte) : Crawl unit := modify (fun c =>
  set_ids (measured_ids_ c) ({[crawl_key id]} ∪ failed_ids_ c) (discovered_ids_ c) c).

Definition dequeue_next : Crawl (option ValidatedPeer) :=
  c ← get_state;
  match queued_peers_ c with
  | [] => mret None
  | peer :: rest => modify (set_queue rest) ;; mret (Some peer)
  end.

Definition is_discovered (c : discv5_crawler) (id : list byte) : bool := bool_decide (crawl_key id ∈ discovered_ids_ c).

Definition is_running (c : discv5_crawler) : bool := running_ c.

(** The snapshot of [stats]. *)
Record CrawlerStats := mkCrawlerStats {
  queued : Z; measured : Z; failed : Z; discovered : Z; invalid_enr : Z; wrong_chain : Z; no_eth_entry : Z; duplicates : Z
}.

Definition stats (c : discv5_crawler) : CrawlerStats :=
  mkCrawlerStats (Zlen (queued_peers_ c)) (Z.of_nat (size (measured_ids_ c))) (Z.of_nat (size (failed_ids_ c)))
    (stat_ c stat_discovered) (stat_ c stat_invalid_enr) (stat_ c stat_wrong_chain) (stat_ c stat_no_eth_entry)
    (stat_ c stat_duplicates).

(** [set_peer_discovered_callback] and [set_error_callback], with a callback or an
    empty function. *)
Definition set_peer_discovered_callback (callback : bool) : Crawl unit := modify (fun c => set_callbacks callback (error_callback_ c) c).
Definition set_error_callback (callback : bool) : Crawl unit := modify (fun c => set_callbacks (peer_callback_ c) callback c).

(** ** Runs of a crawler *)

Inductive crawl_op :=
  | OpStart (now : Z)
  | OpStop
  | OpBootstrap (record : EnrRecord) (now : Z)
  | OpFound (peers : list ValidatedPeer)
  | OpIngest (peers : list ValidatedPeer)
  | OpMeasured (id : list byte)
  | OpFailed (id : list byte)
  | OpDequeue
  | OpErrorCallback (callback : bool).

Definition run_crawl_op `{EnrPrimitives} (op : crawl_op) (c : discv5_crawler) : discv5_crawler :=
  match op with
  | OpStart now => (start now c).2
  | OpStop => (stop c).2
  | OpBootstrap record now => (add_bootstrap record now c).2
  | OpFound peers => (process_found_peers peers c).2
  | OpIngest peers => (ingest_discovered_peers peers c).2
  | OpMeasured id => (mark_measured id c).2
  | OpFailed id => (mark_failed id c).2
  | OpDequeue => (dequeue_next c).2
  | OpErrorCallback callback => (set_error_callback callback c).2
  end.

Definition run_crawl `{EnrPrimitives} (ops : list crawl_op) (c : discv5_crawler) : discv5_crawler :=
  foldl (fun c op => run_crawl_op op c) c ops.

Definition keys (peers : list ValidatedPeer) : list text := (fun p => crawl_key (peer_node_id p)) <$> peers.

(** A peer the fork filter lets through. *)
Definition wanted (config : discv5Config) (peer : ValidatedPeer) : bool :=
  match required_fork_id config, peer_eth_fork_id peer with
  | None, _ => true
  | Some required, Some actual => fork_matches required actual
  | Some _, None => false
  end.

Record crawl_ok (config : discv5Config) (callback : bool) (c : discv5_crawler) : Prop := {
  co_config : config_ c = config;
  co_callback : peer_callback_ c = callback;
  co_queue : NoDup (keys (queued_peers_ c));
  co_once : NoDup (keys (emitted_ c));
  co_emitted : list_to_set (keys (emitted_ c)) = if callback then discovered_ids_ c else ∅;
  co_wanted : Forall (fun p => wanted config p = true) (emitted_ c);
  co_count : stat_ c stat_discovered = u64 (Z.of_nat (size (discovered_ids_ c)))
}.

(** A computation that keeps a property of the crawler, whatever its result. *)
Definition maintains {A} (I : discv5_crawler -> Prop) (m : Crawl A) : Prop := forall c, I c -> I (m c).2.

Section invariant.
Context (config : discv5Config) (callback : bool).
Notation ok := (crawl_ok config callback).

Lemma maintains_ret {A} (a : A) : maintains ok (mret a).
Proof. by intros c. Qed.

Lemma maintains_fail {A} e : maintains ok (fail (A := A) e).
Proof. by intros c. Qed.

Lemma maintains_bind {A B} (m : Crawl A) (k : A -> Crawl B) :
  maintains ok m -> (forall a, maintains ok (k a)) -> maintains ok (m ≫= k).
Proof.
  intros Hm Hk c Hc. specialize (Hm c Hc). unfold mbind, M_bind. destruct (m c) as [[a|e|f] c']; [by apply Hk|done|done].
Qed.

Lemma maintains_get {B} (k : discv5_crawler -> Crawl B) :
  (forall c, ok c -> ok (k c c).2) -> maintains ok (get_state ≫= k).
Proof. intros Hk c Hc. by apply Hk. Qed.

Lemma maintains_for_each {A} (f : A -> Crawl unit) l : (forall x, maintains ok (f x)) -> maintains ok (for_each f l).
Proof. intros Hf. induction l; [apply maintains_ret|]. by apply maintains_bind. Qed.

Lemma maintains_stat s : s <> stat_discovered -> maintains ok (count_stat s).
Proof. intros Hs c []. split; try done. cbn. by rewrite decide_False by congruence. Qed.

Lemma maintains_error m : maintains ok (call_error m).
Proof. by intros c []. Qed.

Lemma is_queued_spec key q : is_queued key q = true <-> key ∈ keys q.
Proof.
  unfold is_queued, keys. rewrite existsb_exists, list_elem_of_fmap. split.
  - intros (p & Hin & E%bool_decide_eq_true). exists p. split; [done|]. by apply list_elem_of_In.
  - intros (p & -> & Hin). exists p. split; [by apply list_elem_of_In|by apply bool_decide_eq_true].
Qed.

(** A peer that is not queued yet may be queued. *)
Lemma enqueue_ok peer c : ok c -> is_queued (crawl_key (peer_node_id peer)) (queued_peers_ c) = false ->
  ok (set_queue (queued_peers_ c ++ [peer]) c).
Proof.
  intros [] Hq. split; try done. cbn. unfold keys. rewrite fmap_app. apply NoDup_app. split; [done|]. split.
  - intros k Hk Hin%list_elem_of_singleton. subst k. apply is_queued_spec in Hk. congruence.
  - apply NoDup_singleton.
Qed.

Lemma process_ok peer : maintains ok (process_found_peer peer).
Proof.
  apply maintains_get. intros c Hc; cbv beta zeta. case_bool_decide; [by apply maintains_stat|].
  destruct (is_queued _ _) eqn:E; [by apply maintains_stat|]. by apply enqueue_ok.
Qed.

Lemma emit_unique_ok peer : wanted config peer = true -> maintains ok (emit_unique peer).
Proof.
  intros Hw. apply maintains_get. intros c Hc; cbv beta zeta. set (key := crawl_key (peer_node_id peer)).
  case_bool_decide as Hk; [by apply maintains_stat|]. destruct Hc as [Hcfg Hcb Hq Ho He Hwt Hn].
  unfold count_stat, call_peer, modify, mbind, M_bind. split; cbn; try done.
  - rewrite Hcb. destruct callback; [|done]. unfold keys. rewrite fmap_app. apply NoDup_app. split; [done|].
    split; [|apply NoDup_singleton]. intros k Hin ->%list_elem_of_singleton. apply Hk. rewrite <- He.
    by apply elem_of_list_to_set.
  - rewrite Hcb. destruct callback; [|done]. unfold keys in *. rewrite fmap_app, list_to_set_app_L, He. cbn.
    fold key. set_solver.
  - rewrite Hcb. destruct callback; [|done]. apply Forall_app. split; [done|]. by apply Forall_singleton.
  - rewrite Hn. rewrite size_union, size_singleton by set_solver. unfold u64. rewrite Zplus_mod_idemp_l. f_equal. lia.
Qed.

Lemma emit_ok peer : maintains ok (emit_peer peer).
Proof.
  apply maintains_get. intros c Hc; cbv beta zeta. pose proof (co_config _ _ _ Hc) as Hcfg. rewrite Hcfg.
  destruct (required_fork_id config) as [required|] eqn:Hr.
  - destruct (peer_eth_fork_id peer) as [actual|] eqn:Ha; [|by apply maintains_stat].
    destruct (fork_matches required actual) eqn:Hf; [|by apply maintains_stat].
    apply emit_unique_ok; [|done]. unfold wanted. by rewrite Hr, Ha.
  - apply emit_unique_ok; [|done]. unfold wanted. by rewrite Hr.
Qed.

Lemma ingest_ok peer : maintains ok (ingest_discovered_peer peer).
Proof.
  apply maintains_get. intros c Hc; cbv beta zeta. set (d := bool_decide _). destruct (is_queued _ _) eqn:Eq.
  - rewrite andb_false_r. destruct d; [by apply maintains_stat|by apply emit_ok].
  - destruct d; cbn [negb andb]; [by apply maintains_stat|]. apply emit_ok. by apply enqueue_ok.
Qed.

Lemma bootstrap_ok `{EnrPrimitives} record now : maintains ok (add_bootstrap record now).
Proof.
  unfold add_bootstrap, process_found_peers. destruct (to_validated_peer _ _); [|by apply maintains_stat ..].
  apply maintains_for_each, process_ok.
Qed.

Lemma enqueue_bootstrap_ok `{EnrPrimitives} now uri : maintains ok (enqueue_bootstrap now uri).
Proof.
  unfold enqueue_bootstrap, enqueue_enr_uri, enqueue_enode_uri, process_found_peers.
  pose proof (maintains_for_each process_found_peer) as Hp. specialize (fun l => Hp l process_ok).
  case_match; [|case_match; [|apply maintains_ret]].
  - destruct (parse uri) as [r|e|f]; [|apply maintains_bind; [by apply maintains_stat|intros _; apply maintains_error]|by intros c].
    destruct (to_validated_peer _ _); [apply maintains_for_each, process_ok|by apply maintains_stat ..].
  - case_match; [apply maintains_for_each, process_ok|by apply maintains_stat].
Qed.

Lemma run_crawl_op_ok `{EnrPrimitives} op c : ok c -> ok (run_crawl_op op c).
Proof.
  intros Hc. destruct op; cbn [run_crawl_op].
  - revert c Hc. apply maintains_get. intros c Hc; cbv beta zeta. apply maintains_bind; [by intros c' []| |done]. intros _.
    case_match; [apply maintains_fail|]. apply maintains_for_each, enqueue_bootstrap_ok.
  - revert c Hc. apply maintains_get. intros c Hc; cbv beta zeta. apply maintains_bind; [by intros c' []| |done]. intros _.
    case_match; [apply maintains_ret|apply maintains_fail].
  - by apply bootstrap_ok.
  - by apply maintains_for_each, Hc; apply process_ok.
  - by apply maintains_for_each, Hc; apply ingest_ok.
  - by destruct Hc.
  - by destruct Hc.
  - revert c Hc. apply maintains_get. intros c Hc; cbv beta zeta. destruct (queued_peers_ c) as [|p rest] eqn:E; [done|].
    destruct Hc as [? ? Hq ? ? ? ?]. split; try done. rewrite E in Hq. by apply NoDup_cons in Hq as [_ ?].
  - by destruct Hc.
Qed.

Lemma run_crawl_ok `{EnrPrimitives} ops : forall c, ok c -> ok (run_crawl ops c).
Proof. induction ops as [|op ops IH]; intros c Hc; [done|]. by apply IH, run_crawl_op_ok. Qed.
End invariant.

(** ** What is emitted *)

(** The peers of [l] a crawler that has forwarded [seen] forwards: each wanted node once. *)
Fixpoint fresh (config : discv5Config) (seen : gset text) (l : list ValidatedPeer) : list ValidatedPeer :=
  match l with
  | [] => []
  | p :: l' =>
      let key := crawl_key (peer_node_id p) in
      if bool_decide (key ∈ seen) then fresh config seen l'
      else if wanted config p then p :: fresh config ({[key]} ∪ seen) l'
      else fresh config seen l'
  end.

Lemma emit_peer_spec p c : peer_callback_ c = true -> bool_decide (crawl_key (peer_node_id p) ∈ discovered_ids_ c) = false ->
  exists c', emit_peer p c = (success tt, c') /\ config_ c' = config_ c /\ peer_callback_ c' = true /\
    emitted_ c' = emitted_ c ++ (if wanted (config_ c) p then [p] else []) /\
    discovered_ids_ c' = (if wanted (config_ c) p then {[crawl_key (peer_node_id p)]} ∪ discovered_ids_ c else discovered_ids_ c).
Proof.
  intros Hcb Hd. unfold emit_peer, wanted, mbind, M_bind, get_state.
  assert (exists c', emit_unique p c = (success tt, c') /\ config_ c' = config_ c /\ peer_callback_ c' = true /\
    emitted_ c' = emitted_ c ++ [p] /\ discovered_ids_ c' = {[crawl_key (peer_node_id p)]} ∪ discovered_ids_ c) as Hu.
  { unfold emit_unique, mbind, M_bind, get_state. rewrite Hd. eexists. split; [done|]. cbn. by rewrite Hcb. }
  destruct (required_fork_id (config_ c)); [|exact Hu]. destruct (peer_eth_fork_id p).
  - destruct (fork_matches _ _); [exact Hu|]. eexists. split; [done|]. cbn. by rewrite app_nil_r.
  - eexists. split; [done|]. cbn. by rewrite app_nil_r.
Qed.

Lemma ingest_emits l : forall c, peer_callback_ c = true ->
  exists c', ingest_discovered_peers l c = (success tt, c') /\
    emitted_ c' = emitted_ c ++ fresh (config_ c) (discovered_ids_ c) l.
Proof.
  induction l as [|p l IH]; intros c Hcb; [exists c; by rewrite app_nil_r|].
  unfold ingest_discovered_peers. cbn [for_each fresh]. set (key := crawl_key (peer_node_id p)).
  unfold ingest_discovered_peer. unfold mbind, M_bind, get_state at 1. fold key.
  destruct (bool_decide (key ∈ discovered_ids_ c)) eqn:Hd; cbn [negb andb].
  - apply (IH (count_stat stat_duplicates c).2). done.
  - set (c1 := if is_queued key (queued_peers_ c) then c else set_queue (queued_peers_ c ++ [p]) c).
    destruct (emit_peer_spec p c1) as (c' & E & Ecfg & Ecb & Eem & Eds).
    { unfold c1. by destruct (is_queued _ _). }
    { unfold c1. by destruct (is_queued _ _). }
    assert (config_ c1 = config_ c /\ emitted_ c1 = emitted_ c /\ discovered_ids_ c1 = discovered_ids_ c) as (E1 & E2 & E3).
    { unfold c1. by destruct (is_queued _ _). }
    destruct (IH c' Ecb) as (c2 & Ei & Ee). exists c2. split.
    + unfold c1 in E. destruct (is_queued _ _); cbn; by rewrite E.
    + rewrite Ee, Eem, Ecfg, Eds, E1, E2, E3. fold key. destruct (wanted (config_ c) p); by rewrite <- app_assoc.
Qed.

(** C13: whatever the calls in whatever order, a crawler with a callback calls it once per
    node and only with peers its fork filter lets through; the counter of discovered peers
    counts exactly these calls, no node is queued twice, and from every such state a NODES
    answer forwards exactly the wanted peers that were not forwarded before. *)
Theorem crawler_emits_once `{EnrPrimitives} config errors ops peers :
  let c := run_crawl ops (set_callbacks true errors (discv5_crawler_new config)) in
  NoDup (keys (emitted_ c)) /\ Forall (fun p => wanted config p = true) (emitted_ c) /\
  discovered (stats c) = u64 (Zlen (emitted_ c)) /\
  (forall id, is_discovered c id = true <-> id ∈ keys (emitted_ c)) /\
  NoDup (keys (queued_peers_ c)) /\
  exists c', ingest_discovered_peers peers c = (success tt, c') /\
    emitted_ c' = emitted_ c ++ fresh config (discovered_ids_ c) peers.
Proof.
  assert (crawl_ok config true (run_crawl ops (set_callbacks true errors (discv5_crawler_new config)))) as Hok.
  { apply run_crawl_ok. by split; cbn; try constructor. }
  destruct Hok as [Hcfg Hcb Hq Ho He Hw Hn]. cbv zeta. set (c := run_crawl _ _) in *.
  destruct (ingest_emits peers c Hcb) as (c' & E1 & E2). rewrite Hcfg in E2.
  split; [done|]. split; [done|]. split; [|split; [|by eauto]].
  - cbn. rewrite Hn, <- He. rewrite size_list_to_set by done. unfold keys. by rewrite length_fmap.
  - intros id. unfold is_discovered. rewrite bool_decide_eq_true, <- He. apply elem_of_list_to_set.
Qed.

(** ** enode URIs *)

Definition hex_key (id : list byte) : text :=
  concat (map (fun b => [hex_digit (Z.shiftr (u8 b) 4); hex_digit (Z.land (u8 b) 0x0f)]) id).

Definition enode_uri (id : list byte) (host port : text) : text :=
  kEnodePrefix ++ hex_key id ++ ["@"%byte] ++ host ++ [":"%byte] ++ port.

Definition is_digit (c : byte) : bool := (u8 "0"%byte <=? u8 c) && (u8 c <=? u8 "9"%byte).
Definition decimal_val (n : Z) (s : text) : Z := foldl (fun n c => n * 10 + (u8 c - u8 "0"%byte)) n s.

Lemma hex_to_nibble_pairs c : hex_to_nibble c = default 0xFF (hex_nibble c).
Proof. by destruct c. Qed.

Lemma hex_nibble_small c n : hex_nibble c = Some n -> n <> 0xFF.
Proof. destruct c; vm_compute; congruence. Qed.

Lemma decode_hex_key_eq s : decode_hex_key s = hex_pairs s.
Proof.
  cut (decode_hex_key s = hex_pairs s /\ forall c, decode_hex_key (c :: s) = hex_pairs (c :: s)); [by intros []|].
  induction s as [|c s [IH1 IH2]]; [done|]. split; [apply IH2|]. intros c'. cbn [decode_hex_key hex_pairs].
  rewrite !hex_to_nibble_pairs. destruct (hex_nibble c') as [hi|] eqn:E1; [|done].
  destruct (hex_nibble c) as [lo|] eqn:E2; cbn [default]; [|by rewrite orb_true_r].
  apply hex_nibble_small in E1, E2. rewrite !(proj2 (Z.eqb_neq _ _)) by done. cbn [orb]. rewrite IH1. by destruct (hex_pairs s).
Qed.

Lemma find_char_app c s1 s2 : c ∉ s1 -> find_char c (s1 ++ c :: s2) = Some (length s1).
Proof.
  intros Hc. unfold find_char. rewrite list_find_app_r.
  - cbn. by rewrite decide_True.
  - apply list_find_None. apply Forall_forall. intros x Hx <-. done.
Qed.

Lemma rfind_char_app c s1 s2 : c ∉ s2 -> rfind_char c (s1 ++ c :: s2) = Some (length s1).
Proof.
  intros Hc. unfold rfind_char. rewrite reverse_app, reverse_cons, <- app_assoc. cbn [app].
  rewrite find_char_app by by rewrite elem_of_reverse. cbn. f_equal. rewrite length_app, length_reverse. cbn. lia.
Qed.

Lemma find_char_none c s : c ∉ s -> find_char c s = None.
Proof. intros Hc. unfold find_char. rewrite (proj2 (list_find_None _ _)); [done|]. apply Forall_forall. by intros x Hx <-. Qed.

Lemma drop_past {A} (s1 : list A) c s2 : drop (length s1 + 1) (s1 ++ c :: s2) = s2.
Proof. rewrite (cons_middle c), app_assoc, drop_app_length' by (rewrite length_app; cbn; lia). done. Qed.

Lemma find_char_split c s :
  match find_char c s with
  | None => c ∉ s
  | Some i => c ∉ take i s /\ exists rest, drop i s = c :: rest
  end.
Proof.
  unfold find_char. destruct (list_find _ s) as [[i x]|] eqn:E; cbn.
  - apply list_find_Some in E as (Hl & <- & Hn). split; [|exists (drop (S i) s); by apply drop_S].
    intros (j & Hj)%list_elem_of_lookup. apply lookup_take_Some in Hj as [Hj Hlt]. by apply (Hn j c Hj Hlt).
  - apply list_find_None in E. rewrite Forall_forall in E. intros Hin. by apply (E c Hin).
Qed.

Lemma rfind_char_split c s :
  match rfind_char c s with
  | None => c ∉ s
  | Some i => exists rest, s = take i s ++ c :: rest /\ rest = drop (i + 1) s /\ c ∉ rest
  end.
Proof.
  unfold rfind_char. pose proof (find_char_split c (reverse s)) as Hs. destruct (find_char c (reverse s)) as [i|]; cbn.
  - destruct Hs as (Hn & rest & Hd). set (r := take i (reverse s)) in *.
    assert (reverse s = r ++ c :: rest) as E by (rewrite <- Hd; symmetry; apply take_drop).
    apply (f_equal reverse) in E. rewrite reverse_involutive, reverse_app, reverse_cons, <- app_assoc in E. cbn [app] in E.
    assert (i = length r) as Hi. { unfold r. apply (f_equal length) in Hd. rewrite length_drop in Hd. cbn in Hd. rewrite length_take. lia. }
    exists (reverse r). rewrite elem_of_reverse. assert (length s - 1 - i = length (reverse rest))%nat as ->.
    { rewrite E, length_app. cbn. rewrite !length_reverse. lia. }
    rewrite E at 2 3. by rewrite take_app_length, drop_past.
  - by rewrite elem_of_reverse in Hs.
Qed.

Lemma hex_key_no_at id : "@"%byte ∉ hex_key id.
Proof.
  unfold hex_key. induction id as [|b id IH]; [apply not_elem_of_nil|]. cbn [map concat app].
  destruct (nibbles_range b) as [H1 H2].
  pose proof (hex_digit_cases (fun _ c => c <> "@"%byte) ltac:(by repeat constructor)) as Hd.
  rewrite !not_elem_of_cons. split; [by apply not_eq_sym, Hd|]. split; [by apply not_eq_sym, Hd|done].
Qed.

Lemma parse_port_digits s : forall n, forallb is_digit s = true -> parse_port (u16 n) s = Some (u16 (decimal_val n s)).
Proof.
  induction s as [|c s IH]; intros n Hs; [done|]. cbn [forallb] in Hs. apply andb_prop in Hs as [Hc Hs].
  cbn [parse_port]. unfold is_digit in Hc. zbool. rewrite !(proj2 (Z.ltb_ge _ _)) by done. cbn [orb].
  change (decimal_val n (c :: s)) with (decimal_val (n * 10 + (u8 c - u8 "0"%byte)) s). rewrite <- IH by done. f_equal.
  unfold u16. by rewrite Zplus_mod_idemp_r, Zplus_mod, Zmult_mod_idemp_l, <- Zplus_mod.
Qed.

Lemma digits_no_colon s : forallb is_digit s = true -> ":"%byte ∉ s.
Proof. rewrite forallb_forall. intros H Hin%list_elem_of_In%H. done. Qed.

Lemma parse_enode_uri_eq id host port now :
  Zlen id = kNodeIdBytes -> forallb is_digit port = true -> port <> [] ->
  parse_enode_uri (enode_uri id host port) now =
    let p := u16 (decimal_val 0 port) in
    if p =? 0 then None else Some (mkValidatedPeer id host p p now None).
Proof.
  intros Hid Hp Hne. unfold parse_enode_uri, enode_uri.
  assert (Zlen (hex_key id) = 128) as Hk by (unfold hex_key; rewrite length_hex_pairs; unfold kNodeIdBytes in Hid; lia).
  rewrite (proj2 (Z.ltb_ge _ _)).
  2: { unfold kPubkeyHexLen. rewrite !length_app. cbn [length]. destruct port; [done|]. cbn [length]. lia. }
  rewrite drop_app_length. cbn [app]. rewrite find_char_app by apply hex_key_no_at. cbn [mbind option_bind].
  unfold kPubkeyHexLen. rewrite (proj2 (Z.eqb_eq _ _) Hk). cbn [negb].
  rewrite <- Hk, take_app_Zlen, decode_hex_key_eq, (hex_pairs_string id : hex_pairs (hex_key id) = Some id). cbn [mbind option_bind].
  replace (length (hex_key id) + 1)%nat with (length (hex_key id ++ ["@"%byte])) by (by rewrite length_app).
  change (hex_key id ++ "@"%byte :: host ++ ":"%byte :: port) with (hex_key id ++ ["@"%byte] ++ host ++ ":"%byte :: port).
  rewrite (app_assoc (hex_key id)), drop_app_length.
  rewrite rfind_char_app by by apply digits_no_colon. cbn [mbind option_bind]. rewrite take_app_length.
  replace (length host + 1)%nat with (length (host ++ [":"%byte])) by (by rewrite length_app).
  change (host ++ ":"%byte :: port) with (host ++ [":"%byte] ++ port). rewrite app_assoc, drop_app_length.
  by rewrite (parse_port_digits port 0 Hp : parse_port 0 port = _).
Qed.

(** an enode URI with the 64 bytes of a node in hexadecimal, a host and a decimal port is
    queued as that node at that host and port; the port is the number modulo 2^16, so that
    a number beyond 65535 is taken for another port, and only the multiples of 65536 are
    rejected. *)
Theorem enode_uri_exact id host port now c :
  Zlen id = kNodeIdBytes -> forallb is_digit port = true -> port <> [] ->
  let p := decimal_val 0 port mod 2 ^ 16 in
  enqueue_enode_uri (enode_uri id host port) now c =
    if p =? 0 then count_stat stat_invalid_enr c
    else process_found_peers [mkValidatedPeer id host p p now None] c.
Proof.
  intros Hid Hp Hne p. unfold enqueue_enode_uri. rewrite parse_enode_uri_eq by done. cbv zeta.
  change (u16 (decimal_val 0 port)) with p. by destruct (p =? 0).
Qed.

Module SampleCrawl.
Definition id : list byte := replicate 64 x07.
Definition crawler : discv5_crawler := discv5_crawler_new (mkDiscv5Config [] None).
End SampleCrawl.

Lemma enode_uri_exact_witness :
  enqueue_enode_uri (enode_uri SampleCrawl.id (lit "10.0.0.1") (lit "65537")) 0 SampleCrawl.crawler =
    process_found_peers [mkValidatedPeer SampleCrawl.id (lit "10.0.0.1") 1 1 0 None] SampleCrawl.crawler.
Proof.
  exact (enode_uri_exact SampleCrawl.id (lit "10.0.0.1") (lit "65537") 0 SampleCrawl.crawler eq_refl eq_refl ltac:(discriminate)).
Defined.
