(* ===== verification/EnrTree.v ===== *)
(** * DNS trees of node records

    [EnrTreeResolver] ([src/discv5/enr_tree.cpp], [include/discv5/enr_tree.hpp]):
    the tree of EIP-1459 is walked breadth first from the root records of a domain,
    one TXT lookup per label, and the valid records found are returned.  The lookup
    is the parameter [lookup]; [system_txt_lookup] is modelled on the answer of
    [res_query].  [tree_complete] relates the walk to reachability in the tree. *)

From S2P Require Import Prelude ParseUtility Base64Url Enr.

Definition kEnrTreePrefix : text := lit "enrtree://".
Definition kRootPrefix : text := lit "enrtree-root:v1".
Definition kBranchPrefix : text := lit "enrtree-branch:".
Definition kTreeEnrPrefix : text := lit "enr:".
Definition kMaxTreeLookups : Z := 8192.

(** [std::isspace] in the C locale. *)
Definition isspace (c : byte) : bool := ((9 <=? u8 c) && (u8 c <=? 13)) || (u8 c =? 32).

Fixpoint skip_space (s : text) : text :=
  match s with
  | c :: s' => if isspace c then skip_space s' else s
  | [] => []
  end.

Definition trim_copy (value : text) : text := reverse (skip_space (reverse (skip_space value))).

Definition starts_with (value prefix : text) : bool :=
  (length prefix <=? length value)%nat && bool_decide (take (length prefix) value = prefix).

(** The tokens [input >> token] yields, [cur] being the token read so far. *)
Fixpoint tokens (cur s : text) : list text :=
  match s with
  | [] => if bool_decide (cur = []) then [] else [cur]
  | c :: s' =>
      if isspace c then (if bool_decide (cur = []) then tokens [] s' else cur :: tokens [] s')
      else tokens (cur ++ [c]) s'
  end.

Definition root_entry_label (root : text) : text :=
  match list_find (fun t => starts_with t (lit "e=") = true) (tokens [] root) with
  | Some (_, token) => drop 2 token
  | None => []
  end.

(** The parts between commas. *)
Fixpoint comma_parts (cur s : text) : list text :=
  match s with
  | [] => [cur]
  | c :: s' => if decide (c = ","%byte) then cur :: comma_parts [] s' else comma_parts (cur ++ [c]) s'
  end.

Definition split_branch_labels (branch : text) : list text :=
  if negb (starts_with branch kBranchPrefix) then []
  else filter (fun l => l <> []) (trim_copy <$> comma_parts [] (drop (length kBranchPrefix) branch)).

Record EnrTreeUrl := mkEnrTreeUrl { public_key : text; domain : text }.

Definition is_enr_tree_url (value : text) : bool := starts_with value kEnrTreePrefix.

Definition parse_url (value : text) : option EnrTreeUrl :=
  if negb (is_enr_tree_url value) then None else
  let rest := drop (length kEnrTreePrefix) value in
  match list_find (fun c => c = "@"%byte) rest with
  | None => None
  | Some (at_pos, _) =>
      if (at_pos =? 0)%nat || (length rest <=? at_pos + 1)%nat then None
      else
        let url := mkEnrTreeUrl (take at_pos rest) (drop (at_pos + 1) rest) in
        if negb (bool_decide (public_key url = [])) && negb (bool_decide (domain url = [])) then Some url else None
  end.

(** The character strings of one TXT record; [None] when a length runs past the data. *)
Fixpoint txt_chunks (fuel : nat) (data : list byte) (acc : text) : text :=
  match fuel, data with
  | S fuel', len :: data' =>
      let chunk := Z.to_nat (u8 len) in
      if (length data' <? chunk)%nat then []
      else txt_chunks fuel' (drop chunk data') (acc ++ take chunk data')
  | _, _ => acc
  end.

(** [system_txt_lookup] on an answer of [res_query]: the data of its records, [None]
    for a record that is no TXT record or does not parse. *)
Definition system_txt_lookup (answer : option (list (option (list byte)))) : list text :=
  match answer with
  | None => []
  | Some records =>
      filter (fun t => t <> []) (omap (fun rr => (fun data => txt_chunks (length data) data []) <$> rr) records)
  end.

Section resolver.
Context `{EnrPrimitives}.
Context (lookup : text -> list text).

(** [append_valid_enr]; [true] when the entry is appended. *)
Definition append_valid_enr (entry : text) : outcome Empty_set bool :=
  if negb (starts_with entry kTreeEnrPrefix) then success false else
  match parse entry with
  | crash f => crash f
  | failure _ => success false
  | success record => success (is_success (to_validated_peer record 0))
  end.

(** The entries of one lookup; a branch adds the labels not yet looked up. *)
Fixpoint scan_entries (max_records : Z) (seen : gset text) (entries : list text) (pending out : list text) :
    outcome Empty_set (list text * list text) :=
  match entries with
  | [] => success (pending, out)
  | raw_entry :: entries' =>
      let entry := trim_copy raw_entry in
      appended ← append_valid_enr entry;
      if (appended : bool) then
        let out := out ++ [entry] in
        if max_records <=? Zlen out then success (pending, out)
        else scan_entries max_records seen entries' pending out
      else
        scan_entries max_records seen entries'
          (pending ++ filter (fun child => child ∉ seen) (split_branch_labels entry)) out
  end.

(** The next pending label that was not looked up. *)
Fixpoint next_label (seen : gset text) (pending : list text) : option (text * list text) :=
  match pending with
  | [] => None
  | label :: rest => if decide (label ∈ seen) then next_label seen rest else Some (label, rest)
  end.

Definition label_name (dom label : text) : text := label ++ lit "." ++ dom.

(** The walk, with the lookups that are left. *)
Fixpoint tree_loop (lookups : nat) (dom : text) (max_records : Z) (pending : list text) (seen : gset text)
    (out : list text) : outcome Empty_set (list text) :=
  match lookups with
  | O => success out
  | S lookups' =>
      if max_records <=? Zlen out then success out else
      match next_label seen pending with
      | None => success out
      | Some (label, rest) =>
          let seen := {[label]} ∪ seen in
          '(pending, out) ← scan_entries max_records seen (lookup (label_name dom label)) rest out;
          tree_loop lookups' dom max_records pending seen out
      end
  end.

(** The labels of the root records. *)
Definition root_labels (dom : text) : list text :=
  filter (fun l => l <> []) (root_entry_label <$> filter (fun root => starts_with root kRootPrefix = true) (lookup dom)).

Definition lookup_budget : nat := Z.to_nat kMaxTreeLookups.

(** Conversion does not unroll the walk. *)
#[global] Opaque lookup_budget.

Definition resolve_url (url : EnrTreeUrl) (max_records : Z) : outcome Empty_set (list text) :=
  tree_loop lookup_budget (domain url) max_records (root_labels (domain url)) ∅ [].

(** The loop of [resolve] over the records of one tree; [true] when the limit is reached. *)
Fixpoint add_records (max_records : Z) (records : list text) (seen : gset text) (out : list text) :
    bool * gset text * list text :=
  match records with
  | [] => (false, seen, out)
  | enr :: records' =>
      if decide (enr ∈ seen) then add_records max_records records' seen out
      else
        let out := out ++ [enr] in
        if max_records <=? Zlen out then (true, {[enr]} ∪ seen, out)
        else add_records max_records records' ({[enr]} ∪ seen) out
  end.

Fixpoint resolve_urls (max_records : Z) (urls : list text) (seen : gset text) (out : list text) :
    outcome Empty_set (list text) :=
  match urls with
  | [] => success out
  | url_string :: urls' =>
      match parse_url url_string with
      | None => resolve_urls max_records urls' seen out
      | Some url =>
          records ← resolve_url url max_records;
          match add_records max_records records seen out with
          | (true, _, out) => success out
          | (false, seen, out) => resolve_urls max_records urls' seen out
          end
      end
  end.

Definition resolve (urls : list text) (max_records : Z) : outcome Empty_set (list text) :=
  resolve_urls max_records urls ∅ [].

(** ** The tree *)

(** A label reached from the root records through the branch entries. *)
Inductive reach (dom : text) : text -> Prop :=
  | reach_root label : label ∈ root_labels dom -> reach dom label
  | reach_child label raw child :
      reach dom label -> raw ∈ lookup (label_name dom label) ->
      append_valid_enr (trim_copy raw) = success false -> child ∈ split_branch_labels (trim_copy raw) ->
      reach dom child.

(** A valid record of the tree. *)
Definition in_tree (dom entry : text) : Prop :=
  exists label raw, reach dom label /\ raw ∈ lookup (label_name dom label) /\ entry = trim_copy raw /\
    append_valid_enr entry = success true.

(** The entries [raws] of a label are accounted for. *)
Definition covered (raws : list text) (labels : gset text) (out : list text) : Prop :=
  forall raw, raw ∈ raws ->
    (append_valid_enr (trim_copy raw) = success true -> trim_copy raw ∈ out) /\
    (append_valid_enr (trim_copy raw) = success false -> forall c, c ∈ split_branch_labels (trim_copy raw) -> c ∈ labels).

Lemma covered_weaken (raws : list text) (l1 l2 : gset text) (out1 out2 : list text) : covered raws l1 out1 -> l1 ⊆ l2 -> out1 ⊆ out2 -> covered raws l2 out2.
Proof. intros Hc Hl Ho raw Hr. destruct (Hc raw Hr) as [H1 H2]. split; [set_solver|intros; apply Hl; eauto]. Qed.

Lemma scan_entries_spec dom label max seen entries : forall pending out pending' out',
  scan_entries max seen entries pending out = success (pending', out') ->
  reach dom label -> entries ⊆ lookup (label_name dom label) ->
  Forall (in_tree dom) out -> (forall l, l ∈ pending -> reach dom l) -> Zlen out < max ->
  Forall (in_tree dom) out' /\ (forall l, l ∈ pending' -> reach dom l) /\ out ⊆ out' /\ pending ⊆ pending' /\
  Zlen out <= Zlen out' <= max /\
  (Zlen out' < max -> covered entries (seen ∪ list_to_set pending') out').
Proof.
  induction entries as [|raw entries IH]; intros pending out pending' out' E Hl He Ho Hp Hm; cbn [scan_entries] in E.
  { injection E as <- <-. do 4 (split; [done|]). split; [lia|]. intros _ raw Hr. by apply not_elem_of_nil in Hr. }
  assert (raw ∈ lookup (label_name dom label)) as Hraw by (apply He; by left).
  assert (entries ⊆ lookup (label_name dom label)) as He' by (intros x Hx; apply He; by right).
  destruct (append_valid_enr (trim_copy raw)) as [[]|[]|f] eqn:Ea; [| |done]; cbn [mbind outcome_bind] in E.
  - assert (Forall (in_tree dom) (out ++ [trim_copy raw])) as Ho'.
    { apply Forall_app. split; [done|]. apply Forall_singleton. by exists label, raw. }
    destruct (Z.leb_spec max (Zlen (out ++ [trim_copy raw]))) as [Hmax|Hmax].
    + injection E as <- <-. rewrite length_app in *. cbn [length] in *.
      split; [done|]. split; [done|]. split; [set_solver|]. split; [done|]. split; lia.
    + destruct (IH _ _ _ _ E Hl He' Ho' Hp ltac:(lia)) as (H1 & H2 & H3 & H4 & H5 & H6).
      rewrite length_app in *. cbn [length] in *. split; [done|]. split; [done|]. split; [set_solver|]. split; [done|].
      split; [lia|]. intros Hlt. specialize (H6 Hlt). intros raw' [->|Hr]%elem_of_cons; [|by apply H6].
      split; [intros _; set_solver|congruence].
  - destruct (IH _ _ _ _ E Hl He' Ho) as (H1 & H2 & H3 & H4 & H5 & H6); [|done|].
    { intros l [Hin|[_ Hin]%list_elem_of_filter]%elem_of_app; [by apply Hp|]. by eapply reach_child. }
    split; [done|]. split; [done|]. split; [done|]. split; [set_solver|]. split; [lia|].
    intros Hlt. specialize (H6 Hlt). intros raw' [->|Hr]%elem_of_cons; [|by apply H6]. split; [congruence|].
    intros _ c Hc. rewrite elem_of_union, elem_of_list_to_set. destruct (decide (c ∈ seen)); [by left|right].
    apply H4, elem_of_app. right. by apply list_elem_of_filter.
Qed.

(** What the walk knows between two lookups. *)
Record walk (dom : text) (pending : list text) (seen : gset text) (out : list text) : Prop := {
  wk_reach : forall l, l ∈ pending \/ l ∈ seen -> reach dom l;
  wk_roots : forall l, l ∈ root_labels dom -> l ∈ seen ∪ list_to_set pending;
  wk_covered : forall l, l ∈ seen -> covered (lookup (label_name dom l)) (seen ∪ list_to_set pending) out;
  wk_sound : Forall (in_tree dom) out
}.

Lemma next_label_some seen pending label rest : next_label seen pending = Some (label, rest) ->
  label ∉ seen /\ label ∈ pending /\ rest ⊆ pending /\ (forall l, l ∈ pending -> l ∈ seen \/ l = label \/ l ∈ rest).
Proof.
  induction pending as [|l pending IH]; [done|]. cbn [next_label]. case_decide as Hd.
  - intros (H1 & H2 & H3 & H4)%IH. split; [done|]. split; [by right|]. split; [set_solver|]. intros l' [->|Hl]%elem_of_cons; auto.
  - intros [= <- <-]. split; [done|]. split; [by left|]. split; [set_solver|]. intros l' [->|Hl]%elem_of_cons; auto.
Qed.

Lemma next_label_none seen pending : next_label seen pending = None -> forall l, l ∈ pending -> l ∈ seen.
Proof.
  induction pending as [|l pending IH]; intros E l' Hl; [by apply not_elem_of_nil in Hl|]. cbn [next_label] in E.
  case_decide; [|done]. apply elem_of_cons in Hl as [->|Hl]; auto.
Qed.

Lemma walk_start dom : walk dom (root_labels dom) ∅ [].
Proof.
  split.
  - intros l [Hl|Hl]; [by apply reach_root|by apply not_elem_of_empty in Hl].
  - intros l Hl. apply elem_of_union. right. by apply elem_of_list_to_set.
  - intros l Hl. by apply not_elem_of_empty in Hl.
  - constructor.
Qed.

(** What the walk knows at its end. *)
Lemma tree_loop_spec dom max lookups : forall pending seen out out',
  tree_loop lookups dom max pending seen out = success out' -> walk dom pending seen out -> Zlen out <= max ->
  Forall (in_tree dom) out' /\ Zlen out' <= max /\
  (Zlen out' < max -> exists pending' seen', walk dom pending' seen' out' /\
    ((forall l, l ∈ pending' -> l ∈ seen') \/ size seen' = (size seen + lookups)%nat)).
Proof.
  induction lookups as [|lookups IH]; intros pending seen out out' E Hw Hm; cbn [tree_loop] in E.
  { injection E as <-. split; [apply Hw|]. split; [done|]. intros _. exists pending, seen. split; [done|]. right. lia. }
  destruct (Z.leb_spec max (Zlen out)); [injection E as <-; split; [apply Hw|split; [done|lia]]|].
  destruct (next_label seen pending) as [[label rest]|] eqn:En.
  2: { injection E as <-. split; [apply Hw|]. split; [done|]. intros _. exists pending, seen. split; [done|]. left. by apply next_label_none. }
  apply next_label_some in En as (Hn1 & Hn2 & Hn3 & Hn4). destruct Hw as [Hr Hroots Hc Hs].
  destruct (scan_entries _ _ _ _ _) as [[pending1 out1]|[]|f] eqn:Esc; [|done]. cbn [mbind outcome_bind] in E.
  assert (reach dom label) as Hlabel by (apply Hr; by left).
  destruct (scan_entries_spec dom label max _ _ _ _ _ _ Esc Hlabel) as (H1 & H2 & H3 & H4 & H5 & H6); [done|done| |done|].
  { intros l Hl. apply Hr. left. by apply Hn3. }
  assert (forall l, l ∈ seen ∪ list_to_set pending -> l ∈ ({[label]} ∪ seen) ∪ list_to_set pending1) as Hsub.
  { intros l. rewrite !elem_of_union, !elem_of_list_to_set, elem_of_singleton.
    intros [Hl|Hl%Hn4]; [tauto|]. destruct Hl as [Hl|[Hl|Hl%H4]]; tauto. }
  destruct (Z_lt_ge_dec (Zlen out1) max) as [Hlt|Hge].
  - destruct (IH _ _ _ _ E) as (Hs' & Hm' & Hend); [|lia|].
    { split.
      - intros l [Hl|Hl]; [by apply H2|]. apply elem_of_union in Hl as [->%elem_of_singleton|Hl]; [done|]. apply Hr. by right.
      - intros l Hl. by apply Hsub, Hroots.
      - intros l [->%elem_of_singleton|Hl]%elem_of_union; [by apply H6|]. eapply covered_weaken; [by apply Hc| |done].
        intros x Hx. by apply Hsub.
      - done. }
    split; [done|]. split; [done|]. intros Hlt'. destruct (Hend Hlt') as (p' & s' & Hw' & Hfin). exists p', s'. split; [done|].
    destruct Hfin as [|Hfin]; [by left|right]. rewrite Hfin, size_union, size_singleton by set_solver. lia.
  - assert (out' = out1) as ->.
    { destruct lookups; cbn [tree_loop] in E; [by injection E|]. rewrite (proj2 (Z.leb_le _ _)) in E by lia. by injection E. }
    split; [done|]. split; [lia|]. lia.
Qed.

Lemma lookup_budget_eq : lookup_budget = Z.to_nat kMaxTreeLookups.
Proof. exact eq_refl. Qed.

(** The walk with any budget of lookups. *)
Lemma tree_loop_complete (dom : text) (max : Z) (lookups : nat) (out : list text) (labels : gset text) :
  0 <= max -> tree_loop lookups dom max (root_labels dom) ∅ [] = success out ->
  (forall l, reach dom l -> l ∈ labels) -> (size labels <= lookups)%nat ->
  Forall (in_tree dom) out /\ Zlen out <= max /\ (Zlen out < max -> forall entry, in_tree dom entry -> entry ∈ out).
Proof.
  intros Hmax E Hlab Hsize. apply tree_loop_spec in E as (Hs & Hm & Hend); [|apply walk_start|done].
  split; [done|]. split; [done|]. intros Hlt. destruct (Hend Hlt) as (p & s & [Hr Hroots Hc _] & Hfin).
    assert (forall l, reach dom l -> l ∈ s) as Hall.
    { destruct Hfin as [Hp|Hfull].
      - induction 1 as [l Hl|l raw c Hl IH Hraw Ha Hchild].
        + apply Hroots in Hl. rewrite elem_of_union, elem_of_list_to_set in Hl. destruct Hl; auto.
        + destruct (Hc l IH raw Hraw) as [_ Hc']. specialize (Hc' Ha c Hchild).
          rewrite elem_of_union, elem_of_list_to_set in Hc'. destruct Hc'; auto.
      - intros l Hl%Hlab. assert (s = labels) as ->; [|done]. apply set_subseteq_size_eq.
        + intros x Hx. apply Hlab, Hr. by right.
        + rewrite Hfull, size_empty. lia. }
  intros entry (l & raw & Hl & Hraw & -> & Ha). by apply (Hc l (Hall l Hl) raw Hraw).
Qed.

(** C14: the walk of a DNS tree returns records of the tree only, at most the limit; and when
    it stays below the limit and the tree has at most 8192 labels, it returns every valid
    record that can be reached from the root records, however the branches are linked. *)
Theorem tree_complete (url : EnrTreeUrl) (max : Z) (out : list text) (labels : gset text) :
  0 <= max -> resolve_url url max = success out ->
  (forall l, reach (domain url) l -> l ∈ labels) -> Z.of_nat (size labels) <= kMaxTreeLookups ->
  Forall (in_tree (domain url)) out /\ Zlen out <= max /\
  (Zlen out < max -> forall entry, in_tree (domain url) entry -> entry ∈ out).
Proof.
  intros Hmax E Hlab Hsize. unfold resolve_url in E. refine (tree_loop_complete (domain url) max lookup_budget out labels Hmax E Hlab _).
  clear E. rewrite lookup_budget_eq. lia.
Qed.

(** ** Every answer *)

Lemma append_valid_enr_cases entry :
  match append_valid_enr entry with success _ => True | failure _ => False | crash f => parse entry = crash f end.
Proof. unfold append_valid_enr. destruct (negb _); [done|]. by destruct (parse entry). Qed.

(** A fault is one of the record parser. *)
Definition faults_in_parse {A} (r : outcome Empty_set A) : Prop :=
  match r with success _ => True | failure _ => False | crash f => exists entry, parse entry = crash f end.

Lemma faults_bind {A B} (r : outcome Empty_set A) (k : A -> outcome Empty_set B) :
  faults_in_parse r -> (forall a, faults_in_parse (k a)) -> faults_in_parse (r ≫= k).
Proof. intros Hr Hk. destruct r as [a|[]|f]; [apply Hk|done]. Qed.

Lemma scan_entries_faults max seen entries : forall pending out, faults_in_parse (scan_entries max seen entries pending out).
Proof.
  induction entries as [|raw entries IH]; intros pending out; [done|]. cbn [scan_entries]. apply faults_bind.
  - pose proof (append_valid_enr_cases (trim_copy raw)) as Ha. destruct (append_valid_enr _) as [a|[]|f]; [done|]. by eexists.
  - intros []; [|apply IH]. destruct (max <=? _); [done|apply IH].
Qed.

Lemma tree_loop_faults lookups dom max : forall pending seen out, faults_in_parse (tree_loop lookups dom max pending seen out).
Proof.
  induction lookups as [|lookups IH]; intros pending seen out; [done|]. cbn [tree_loop]. destruct (max <=? _); [done|].
  destruct (next_label seen pending) as [[label rest]|]; [|done]. apply faults_bind; [apply scan_entries_faults|].
  intros []. apply IH.
Qed.

Lemma add_records_spec max records : forall seen out full seen' out',
  add_records max records seen out = (full, seen', out') ->
  seen = list_to_set out -> NoDup out -> Zlen out < max ->
  seen' = list_to_set out' /\ NoDup out' /\ (if full then Zlen out' = max else Zlen out' < max) /\
  out ⊆ out' /\ (full = false -> records ⊆ out') /\ (forall e, e ∈ out' -> e ∈ out \/ e ∈ records).
Proof.
  induction records as [|r records IH]; intros seen out full seen' out' E Hs Hn Hm; cbn [add_records] in E.
  { injection E as <- <- <-. do 4 (split; [done|]). split; [by intros _ x Hx; apply not_elem_of_nil in Hx|auto]. }
  case_decide as Hr.
  - destruct (IH _ _ _ _ _ E Hs Hn Hm) as (H1 & H2 & H3 & H4 & H5 & H6). do 4 (split; [done|]). split.
    + intros Hf x [->|Hx]%elem_of_cons; [|by apply H5]. apply H4. subst seen. by apply elem_of_list_to_set in Hr.
    + intros e [He|He]%H6; [by left|right; by right].
  - assert (NoDup (out ++ [r])) as Hn'.
    { apply NoDup_app. split; [done|]. split; [|apply NoDup_singleton]. intros x Hx ->%list_elem_of_singleton.
      subst seen. by apply Hr, elem_of_list_to_set. }
    assert ({[r]} ∪ seen = list_to_set (out ++ [r])) as Hs' by (rewrite list_to_set_app_L, Hs; cbn; set_solver).
    rewrite length_app in E. cbn [length] in E. destruct (Z.leb_spec max (Z.of_nat (length out + 1))).
    + injection E as <- <- <-. split; [done|]. split; [done|]. rewrite length_app. cbn [length]. split; [lia|].
      split; [set_solver|]. split; [done|]. intros e [He| ->%list_elem_of_singleton]%elem_of_app; [by left|right; by left].
    + destruct (IH _ _ _ _ _ E Hs' Hn') as (H1 & H2 & H3 & H4 & H5 & H6); [rewrite length_app; cbn [length]; lia|].
      split; [done|]. split; [done|]. split; [done|]. split; [set_solver|]. split; [intros Hf; specialize (H5 Hf); set_solver|].
      intros e [He|He]%H6; [|right; by right]. apply elem_of_app in He as [He| ->%list_elem_of_singleton]; [by left|right; by left].
Qed.

Lemma resolve_url_sound url max out : 0 <= max -> resolve_url url max = success out -> Forall (in_tree (domain url)) out.
Proof.
  intros Hmax E. unfold resolve_url in E. apply tree_loop_spec in E as (Hs & _); [exact Hs|apply walk_start|exact Hmax].
Qed.

Lemma resolve_urls_faults max urls : forall seen out, faults_in_parse (resolve_urls max urls seen out).
Proof.
  induction urls as [|u urls IH]; intros seen out; [done|]. cbn [resolve_urls]. destruct (parse_url u) as [url|]; [|apply IH].
  apply faults_bind; [apply tree_loop_faults|]. intros records. destruct (add_records _ _ _ _) as [[[] ?] ?]; [done|apply IH].
Qed.

(** A record of one of the trees. *)
Definition in_trees (urls : list text) (entry : text) : Prop :=
  exists u url, u ∈ urls /\ parse_url u = Some url /\ in_tree (domain url) entry.

Lemma resolve_urls_spec max all : 0 < max -> forall urls seen out out',
  resolve_urls max urls seen out = success out' -> urls ⊆ all ->
  seen = list_to_set out -> NoDup out -> Zlen out < max -> Forall (in_trees all) out ->
  NoDup out' /\ Zlen out' <= max /\ Forall (in_trees all) out'.
Proof.
  intros Hmax urls. induction urls as [|u urls IH]; intros seen out out' E Hall Hs Hn Hm Ho; cbn [resolve_urls] in E.
  { injection E as <-. split; [done|]. split; [lia|done]. }
  assert (urls ⊆ all) as Hall' by (intros x Hx; apply Hall; by right).
  destruct (parse_url u) as [url|] eqn:Eu; [|by eapply IH].
  destruct (resolve_url url max) as [records|[]|f] eqn:Er; [|done]. cbn [mbind outcome_bind] in E.
  destruct (add_records max records seen out) as [[full seen1] out1] eqn:Ea.
  destruct (add_records_spec _ _ _ _ _ _ _ Ea Hs Hn Hm) as (H1 & H2 & H3 & H4 & H5 & H6).
  assert (Forall (in_tree (domain url)) records) as Hrec by (apply (resolve_url_sound url max); [lia|exact Er]).
  assert (Forall (in_trees all) out1) as Ho1.
  { apply Forall_forall. intros e [He|He]%H6; [by eapply Forall_forall in Ho|]. exists u, url.
    split; [apply Hall; by left|]. split; [done|]. by eapply Forall_forall in Hrec. }
  destruct full; [injection E as <-; split; [done|]; split; [lia|done]|]. by eapply IH.
Qed.

(** for any trees [resolve] returns, unless the record parser faults on an entry; what it
    returns has no record twice, at most the limit, and only valid records reachable in one of
    the trees. *)
Theorem resolve_sound urls max :
  0 < max ->
  match resolve urls max with
  | success out => NoDup out /\ Zlen out <= max /\ Forall (in_trees urls) out
  | failure _ => False
  | crash f => exists entry, parse entry = crash f
  end.
Proof.
  intros Hmax. pose proof (resolve_urls_faults max urls ∅ []) as Hf. unfold resolve.
  destruct (resolve_urls max urls ∅ []) as [out|e|f] eqn:E; [|done|done].
  eapply resolve_urls_spec in E; try done. constructor.
Qed.
End resolver.

(** ** A concrete tree *)

Module SampleTree.
Import SampleEnr.

Definition record : text := enr_uri (record_wire sig 1 pairs) 0.

(** A root, a branch that lists itself, and a leaf. *)
Definition lookup (name : text) : list text :=
  if decide (name = lit "nodes.org") then [lit "enrtree-root:v1 e=AA l=BB seq=1 sig=x"]
  else if decide (name = lit "AA.nodes.org") then [lit "enrtree-branch:CC, AA"]
  else if decide (name = lit "CC.nodes.org") then [record]
  else [].

Definition url : EnrTreeUrl := mkEnrTreeUrl (lit "KEY") (lit "nodes.org").
Definition labels : gset text := {[lit "AA"; lit "CC"]}.

Lemma labels_closed l : reach lookup (domain url) l -> l ∈ labels.
Proof.
  assert (forall l, l ∈ labels <-> l = lit "AA" \/ l = lit "CC") as HL by (intros; unfold labels; set_solver).
  intros Hr. apply HL. induction Hr as [l Hl|l raw c Hl IH Hraw Ha Hc].
  - vm_compute in Hl. left. by apply list_elem_of_singleton in Hl.
  - destruct IH as [-> | ->].
    + change (lookup (label_name (domain url) (lit "AA"))) with [lit "enrtree-branch:CC, AA"] in Hraw.
      apply list_elem_of_singleton in Hraw as ->. vm_compute in Hc.
      apply elem_of_cons in Hc as [-> | Hc]; [by right|]. apply list_elem_of_singleton in Hc as ->. by left.
    + change (lookup (label_name (domain url) (lit "CC"))) with [record] in Hraw.
      apply list_elem_of_singleton in Hraw as ->. vm_compute in Ha. discriminate.
Qed.
End SampleTree.

Lemma tree_complete_witness :
  resolve_url SampleTree.lookup SampleTree.url 4 = success [SampleTree.record] /\
  Forall (in_tree SampleTree.lookup (lit "nodes.org")) [SampleTree.record].
Proof.
  assert (resolve_url SampleTree.lookup SampleTree.url 4 = success [SampleTree.record]) as E by (vm_compute; reflexivity).
  split; [exact E|].
  exact (proj1 (tree_complete SampleTree.lookup SampleTree.url 4 [SampleTree.record] SampleTree.labels
    ltac:(lia) E SampleTree.labels_closed ltac:(vm_compute; discriminate))).
Defined.

Lemma resolve_sound_witness :
  match resolve SampleTree.lookup [lit "enrtree://KEY@nodes.org"] 4 with
  | success out => NoDup out /\ Zlen out <= 4 /\ Forall (in_trees SampleTree.lookup [lit "enrtree://KEY@nodes.org"]) out
  | failure _ => False
  | crash f => exists entry, parse entry = crash f
  end.
Proof. apply resolve_sound. lia. Defined.
