(* ===== verification/Discv4Packets.v ===== *)
(** * discv4 packets

    [include/discv4/discv4_constants.hpp], [src/discv4/discv4_ping.cpp],
    [discv4_pong.cpp], [discv4_enr_request.cpp], [discv4_enr_response.cpp],
    [discv4_packet.cpp], [packet_factory.cpp] (without its socket) and the signing
    and verification of [discv4_client.cpp]: the bodies of the packets and the
    envelope hash, signature, type.  Keccak-256 is a parameter, libsecp256k1 the
    class [Secp256k1] of [BridgeEvent]. *)

From S2P Require Import Prelude RlpSpec RlpCommon RlpEncoder RlpDecoder DecodeLogic Base64Url Enr EthObjects DialScheduler BridgeEvent.

Definition kWireHashSize : Z := 32.
Definition kWireSigSize : Z := 65.
Definition kWirePacketTypeSize : Z := 1.
Definition kWireRecoveryIdSize : Z := 1.
Definition kWireCompactSigSize : Z := kWireSigSize - kWireRecoveryIdSize.
Definition kWireHeaderSize : Z := kWireHashSize + kWireSigSize + kWirePacketTypeSize.
Definition kWirePacketTypeOffset : Z := kWireHashSize + kWireSigSize.
Definition kNodeIdSize : Z := 64.
Definition kUncompressedPubKeySize : Z := kNodeIdSize + kWirePacketTypeSize.
Definition kIPv4Size : Z := 4.
Definition kPacketTypePing : Z := 0x01.
Definition kPacketTypePong : Z := 0x02.
Definition kPacketTypeFindNode : Z := 0x03.
Definition kPacketTypeNeighbours : Z := 0x04.
Definition kPacketTypeEnrRequest : Z := 0x05.
Definition kPacketTypeEnrResponse : Z := 0x06.
Definition kDiscProtocolVersion : Z := 0x04.
Definition kPacketExpirySeconds : Z := 60.

(** [enum class discv4Error]. *)
Module discv4Error.
Inductive t :=
  | kNetworkSendFailed | kNetworkReceiveFailed | kPacketTooSmall | kInvalidPacketType | kHashMismatch
  | kSignatureParseFailed | kSignatureRecoveryFailed | kSigningFailed | kContextCreationFailed | kInvalidPublicKey
  | kRlpPayloadEmpty | kPongTimeout | kPongParseFailed.

(** [to_string]; the enumeration has no other value. *)
Definition to_string (error : t) : string :=
  match error with
  | kNetworkSendFailed => "Failed to send UDP packet"
  | kNetworkReceiveFailed => "Failed to receive UDP packet"
  | kPacketTooSmall => "Packet size below minimum (98 bytes)"
  | kInvalidPacketType => "Unknown or invalid packet type"
  | kHashMismatch => "Packet hash verification failed"
  | kSignatureParseFailed => "Failed to parse ECDSA signature"
  | kSignatureRecoveryFailed => "Failed to recover public key from signature"
  | kSigningFailed => "Failed to sign packet with private key"
  | kContextCreationFailed => "Failed to create secp256k1 context"
  | kInvalidPublicKey => "Invalid or malformed public key"
  | kRlpPayloadEmpty => "RLP payload generation returned empty"
  | kPongTimeout => "PONG response timeout"
  | kPongParseFailed => "Failed to parse PONG packet"
  end.
End discv4Error.

(** ** Bodies *)

(** An endpoint [[ip, udp, tcp]] of a packet. *)
Record Endpoint := mkEndpoint { ep_ip : list byte; ep_udp : Z; ep_tcp : Z }.

(** The constructor from a text; an address that does not parse leaves zeros. *)
Definition Endpoint_new (make_address_v4 : string -> option (list byte)) (ip : string) (udp tcp : Z) : Endpoint :=
  mkEndpoint (default (replicate 4 x00) (make_address_v4 ip)) udp tcp.

Definition add_endpoint (ep : Endpoint) : Enc unit :=
  BeginList ;; (add_bytes (ep_ip ep) ;; add_integral 2 (ep_udp ep) ;; add_integral 2 (ep_tcp ep)) ;; EndList.

(** [Endpoint::encode]. *)
Definition encode_endpoint (ep : Endpoint) : outcome EncodingError (list byte) := finish_encoder (add_endpoint ep).

(** The payload with its type byte; empty on an error. *)
Definition typed_payload (packet_type : Z) (body : outcome EncodingError (list byte)) : list byte :=
  match body with success bytes => byte_of packet_type :: bytes | _ => [] end.

(** [static_cast<uint32_t>(std::time(nullptr)) + kPacketExpirySeconds]. *)
Definition expiry (now : Z) : Z := u32 (u32 now + kPacketExpirySeconds).

(** [discv4_ping::RlpPayload]. *)
Definition ping_payload (from_ep to_ep : Endpoint) (now : Z) : list byte :=
  typed_payload kPacketTypePing
    (from_encoded ← encode_endpoint from_ep;
     to_encoded ← encode_endpoint to_ep;
     finish_encoder
       (BeginList ;;
        (add_integral 1 kDiscProtocolVersion ;; AddRaw from_encoded ;; AddRaw to_encoded ;; add_integral 4 (expiry now)) ;;
        EndList)).

(** The PONG that [handle_ping] answers with. *)
Definition pong_payload (to_ep : Endpoint) (ping_hash : list byte) (now : Z) : list byte :=
  typed_payload kPacketTypePong
    (finish_encoder
       (BeginList ;; (add_endpoint to_ep ;; add_bytes ping_hash ;; add_integral 4 (expiry now)) ;; EndList)).

(** The body of [find_node]. *)
Definition find_node_payload (target_id : list byte) (now : Z) : list byte :=
  typed_payload kPacketTypeFindNode
    (finish_encoder (BeginList ;; (add_bytes target_id ;; add_integral 4 (expiry now)) ;; EndList)).

(** [discv4_enr_request::RlpPayload]. *)
Definition enr_request_payload (expiration : Z) : list byte :=
  typed_payload kPacketTypeEnrRequest (finish_encoder (BeginList ;; add_integral 8 expiration ;; EndList)).

Record discv4_pong := mkPong {
  toEndpoint : Endpoint;
  pingHash : list byte;
  pong_expiration : Z;
  ersErq : Z
}.

(** [discv4_pong::ParseEndpoint]. *)
Definition ParseEndpoint : Dec Endpoint :=
  is_lst ← IsList;
  if negb is_lst then fail kUnexpectedString else
  ReadListHeaderBytes ;;
  ip ← read_array 4;
  udp ← read_integral 2;
  tcp ← read_integral 2;
  mret (mkEndpoint ip udp tcp).

(** The body of [discv4_pong::Parse] on its decoder. *)
Definition parse_pong_body : Dec discv4_pong :=
  is_lst ← IsList;
  if negb is_lst then fail kUnexpectedString else
  ReadListHeaderBytes ;;
  ep ← ParseEndpoint;
  ping_hash ← read_array 32;
  expiration ← read_integral 8;
  finished ← IsFinished;
  seq ← (if finished : bool then mret 0 else read_integral 8);
  while_above 0 SkipItem ;;
  mret (mkPong ep ping_hash (u32 expiration) seq).

Definition pong_Parse (raw : ByteView) : outcome DecodingError discv4_pong :=
  if Zlen raw <=? kWireHeaderSize - kWirePacketTypeSize then failure kUnexpectedString else
  t ← byte_at raw kWirePacketTypeOffset;
  if negb (u8 t =? kPacketTypePong) then failure kUnexpectedString else
  run_decoder parse_pong_body (drop (Z.to_nat kWireHeaderSize) raw).

Record discv4_enr_response := mkEnrResponse { request_hash : list byte; record_rlp : list byte }.

(** The body of [discv4_enr_response::Parse]: the record is kept undecoded. *)
Definition parse_enr_response_body : Dec discv4_enr_response :=
  is_lst ← IsList;
  if negb is_lst then fail kUnexpectedString else
  ReadListHeaderBytes ;;
  request_hash ← read_array 32;
  record_header ← PeekHeader;
  let record_total := u64 (header_size_bytes record_header + payload_size_bytes record_header) in
  v ← view;
  if Zlen v <? record_total then fail kInputTooShort else
  SkipItem ;;
  mret (mkEnrResponse request_hash (take (Z.to_nat record_total) v)).

Definition enr_response_Parse (raw : ByteView) : outcome DecodingError discv4_enr_response :=
  if Zlen raw <=? kWireHeaderSize then failure kInputTooShort else
  t ← byte_at raw kWirePacketTypeOffset;
  if negb (u8 t =? kPacketTypeEnrResponse) then failure kUnexpectedString else
  run_decoder parse_enr_response_body (drop (Z.to_nat kWireHeaderSize) raw).

Definition kEthKey : list byte := [x65; x74; x68].

(** The value of the eth pair. *)
Definition parse_eth_value : Dec PeerForkId :=
  val_is_list ← IsList;
  if negb val_is_list then fail kUnexpectedString else
  ReadListHeaderBytes ;;
  fork_is_list ← IsList;
  if negb fork_is_list then fail kUnexpectedString else
  ReadListHeaderBytes ;;
  h ← read_array 4;
  n ← read_integral 8;
  mret (mkPeerForkId h n).

(** The loop over the pairs; every pass reads a byte at least. *)
Fixpoint find_eth (fuel : nat) : Dec PeerForkId :=
  match fuel with
  | O => crash_with Diverge
  | S fuel' =>
      finished ← IsFinished;
      if finished : bool then fail kUnexpectedString else
      key ← read_bytes;
      if bool_decide (key = kEthKey) then parse_eth_value else SkipItem ;; find_eth fuel'
  end.

Definition parse_fork_body : Dec PeerForkId :=
  is_lst ← IsList;
  if negb is_lst then fail kUnexpectedString else
  ReadListHeaderBytes ;;
  SkipItem ;;
  SkipItem ;;
  v ← view;
  find_eth (S (length v)).

(** [discv4_enr_response::ParseEthForkId]. *)
Definition ParseEthForkId (response : discv4_enr_response) : outcome DecodingError PeerForkId :=
  if bool_decide (record_rlp response = []) then failure kInputTooShort
  else run_decoder parse_fork_body (record_rlp response).

(** ** The envelope *)

Inductive PacketError := kNullPacket | kSignFailure.

Section envelope.
Context (keccak256 : list byte -> list byte) (context_created : bool) `{Secp256k1}.

(** [discv4_packet::ValidateHash]. *)
Definition ValidateHash (payload hash : list byte) : bool :=
  bool_decide (keccak256 payload = take (Z.to_nat kWireHashSize) hash).

(** [discv4_client::sign_packet]. *)
Definition sign_packet (private_key payload : list byte) : outcome discv4Error.t (list byte) :=
  let msg_hash := keccak256 payload in
  if negb context_created then failure discv4Error.kContextCreationFailed else
  match sign_recoverable msg_hash private_key with
  | None => failure discv4Error.kSigningFailed
  | Some sig =>
      let '(compact, recid) := serialize_compact sig in
      let sig_bytes := take (Z.to_nat kWireCompactSigSize) compact ++ [byte_of recid] in
      let outer_hash := keccak256 (sig_bytes ++ payload) in
      success (outer_hash ++ sig_bytes ++ payload)
  end.

(** [discv4_client::verify_packet]. *)
Definition verify_packet (data : list byte) : outcome discv4Error.t (list byte) :=
  if Zlen data <? kWireHeaderSize then failure discv4Error.kPacketTooSmall else
  let hash_data := take (Z.to_nat kWireHashSize) data in
  let sig_data := take (Z.to_nat kWireSigSize) (drop (Z.to_nat kWireHashSize) data) in
  let payload := drop (Z.to_nat (kWireHashSize + kWireSigSize)) data in
  if negb (bool_decide (hash_data = keccak256 (sig_data ++ payload))) then failure discv4Error.kHashMismatch else
  let msg_hash := keccak256 payload in
  if negb context_created then failure discv4Error.kContextCreationFailed else
  match sig_data !! Z.to_nat (kWireSigSize - 1) with
  | None => crash OutOfBounds
  | Some recid =>
      match parse_compact (take (Z.to_nat kWireCompactSigSize) sig_data) (u8 recid) with
      | None => failure discv4Error.kSignatureParseFailed
      | Some sig =>
          match ecdsa_recover sig msg_hash with
          | None => failure discv4Error.kSignatureRecoveryFailed
          | Some pubkey =>
              let pubkey_bytes := default (replicate 65 x00) (pubkey_serialize pubkey) in
              success (take (Z.to_nat kNodeIdSize) (drop 1 pubkey_bytes))
          end
      end
  end.

(** [PacketFactory::SignAndBuildPacket]: the packet is appended to [out], and the hash is
    written at its front. *)
Definition SignAndBuildPacket (packet : option (list byte)) (private_key out : list byte) : outcome PacketError (list byte) :=
  match packet with
  | None => failure kNullPacket
  | Some payload =>
      match sign_recoverable (keccak256 payload) private_key with
      | None => failure kSignFailure
      | Some sig =>
          let '(compact, recid) := serialize_compact sig in
          let out := out ++ replicate (Z.to_nat kWireHashSize) x00 ++ take (Z.to_nat kWireCompactSigSize) compact
                     ++ [byte_of recid] ++ payload in
          let hash := keccak256 (drop (Z.to_nat kWireHashSize) out) in
          success (hash ++ drop (length hash) out)
      end
  end.
End envelope.

(** ** Wire forms *)

Definition rlp_endpoint (ep : Endpoint) : list byte :=
  rlp_list (rlp_string (ep_ip ep) ++ rlp_uint (ep_udp ep) ++ rlp_uint (ep_tcp ep)).

Definition wf_endpoint (ep : Endpoint) : Prop :=
  Zlen (ep_ip ep) = kIPv4Size /\ in_width 16 (ep_udp ep) /\ in_width 16 (ep_tcp ep).

Definition ping_wire (from_ep to_ep : Endpoint) (now : Z) : list byte :=
  byte_of kPacketTypePing :: rlp_list (rlp_uint kDiscProtocolVersion ++ rlp_endpoint from_ep ++ rlp_endpoint to_ep ++ rlp_uint (expiry now)).

(** A PONG as EIP-868 has it: the sequence number is optional, and further items may follow. *)
Definition pong_body (p : discv4_pong) (expiration : Z) (seq : option Z) (tail : list item) : list byte :=
  rlp_list (rlp_endpoint (toEndpoint p) ++ rlp_string (pingHash p) ++ rlp_uint expiration ++
    match seq with Some n => rlp_uint n ++ concat (map rlp_encode tail) | None => [] end).

Lemma expiry_range now : in_width 32 (expiry now).
Proof. unfold expiry, u32, in_width. apply Z.mod_pos_bound. lia. Qed.

Lemma emits_endpoint ep : wf_endpoint ep -> emits (add_endpoint ep) (rlp_endpoint ep).
Proof.
  intros (_ & Hu & Ht). apply emits_list_try. apply emits_seq; [apply emits_add_bytes|].
  apply emits_seq; apply emits_add_integral; unfold is_sizeof; (lia || done).
Qed.

Lemma length_endpoint ep : wf_endpoint ep -> Zlen (rlp_endpoint ep) <= 300.
Proof.
  intros (Hi & Hu & Ht). unfold kIPv4Size in Hi. unfold rlp_endpoint, rlp_uint, in_width in *.
  pose proof (rlp_string_length_le (ep_ip ep)). 
  pose proof (rlp_string_length_le (be_min (ep_udp ep))). pose proof (rlp_string_length_le (be_min (ep_tcp ep))).
  rewrite !length_be_min in *. pose proof (nbytes_u64 (ep_udp ep)). pose proof (nbytes_u64 (ep_tcp ep)).
  set (p := _ ++ _ ++ _). assert (Zlen p <= 60) as Hp by (unfold p; rewrite !length_app; lia).
  pose proof (rlp_list_length_le p). lia.
Qed.

Lemma ping_payload_wire from_ep to_ep now :
  wf_endpoint from_ep -> wf_endpoint to_ep -> ping_payload from_ep to_ep now = ping_wire from_ep to_ep now.
Proof.
  intros Hf Ht. pose proof (length_endpoint _ Hf). pose proof (length_endpoint _ Ht). unfold ping_payload, encode_endpoint.
  assert (forall ep, rlp_endpoint ep <> []) as Hn.
  { intros ep E. pose proof (rlp_list_pos (rlp_string (ep_ip ep) ++ rlp_uint (ep_udp ep) ++ rlp_uint (ep_tcp ep))).
    unfold rlp_endpoint in E. rewrite E in *. cbn in *. lia. }
  rewrite (finish_encoder_emits (add_endpoint from_ep) (rlp_endpoint from_ep)) by (lia || by apply emits_endpoint).
  cbn [mbind outcome_bind].
  rewrite (finish_encoder_emits (add_endpoint to_ep) (rlp_endpoint to_ep)) by (lia || by apply emits_endpoint).
  cbn [mbind outcome_bind].
  pose proof (expiry_range now) as He. unfold in_width in He.
  rewrite (finish_encoder_emits _ (rlp_list (rlp_uint kDiscProtocolVersion ++ rlp_endpoint from_ep ++ rlp_endpoint to_ep ++ rlp_uint (expiry now)))).
  - done.
  - set (p := _ ++ _). assert (Zlen p <= 620) as Hp.
    { unfold p. rewrite !length_app. change (length (rlp_uint kDiscProtocolVersion)) with 1%nat. unfold rlp_uint.
      pose proof (rlp_string_length_le (be_min (expiry now))) as Hl. rewrite length_be_min in Hl.
      pose proof (nbytes_u64 (expiry now)). lia. }
    pose proof (rlp_list_length_le p). lia.
  - apply emits_list_try. apply emits_seq; [apply emits_add_integral; unfold is_sizeof, kDiscProtocolVersion; lia|].
    apply emits_seq; [by apply emits_AddRaw|]. apply emits_seq; [by apply emits_AddRaw|].
    apply emits_add_integral; unfold is_sizeof; lia.
Qed.

Lemma pong_payload_wire to_ep ping_hash now :
  wf_endpoint to_ep -> Zlen ping_hash = kWireHashSize ->
  pong_payload to_ep ping_hash now =
    byte_of kPacketTypePong :: pong_body (mkPong to_ep ping_hash (expiry now) 0) (expiry now) None [].
Proof.
  intros Ht Hh. pose proof (length_endpoint _ Ht). pose proof (expiry_range now) as He. unfold in_width in He.
  unfold pong_payload, pong_body. cbn [toEndpoint pingHash]. rewrite app_nil_r.
  rewrite (finish_encoder_emits _ (rlp_list (rlp_endpoint to_ep ++ rlp_string ping_hash ++ rlp_uint (expiry now)))).
  - done.
  - set (p := _ ++ _). assert (Zlen p <= 420) as Hp.
    { unfold p, rlp_uint. rewrite !length_app. pose proof (rlp_string_length_le (be_min (expiry now))) as Hl.
      rewrite length_be_min in Hl. pose proof (rlp_string_length_le ping_hash). pose proof (nbytes_u64 (expiry now)).
      unfold kWireHashSize in Hh. lia. }
    pose proof (rlp_list_length_le p). lia.
  - apply emits_list_try. apply emits_seq; [by apply emits_endpoint|]. apply emits_seq; [apply emits_add_bytes|].
    apply emits_add_integral; unfold is_sizeof; lia.
Qed.

(** ** Reading back *)

Lemma eats_IsList_list p rest : eats IsList [] true (rlp_list p ++ rest).
Proof. intros Hf. by apply IsList_list. Qed.

(** A list whose kind is checked before its header is read. *)
Lemma eats_checked_list {A} (k : Dec A) p a rest (e : DecodingError) :
  eats k p a rest ->
  eats (is_lst ← IsList; if negb is_lst then fail e else ReadListHeaderBytes ;; k) (rlp_list p) a rest.
Proof.
  intros H. eapply eats_bind_0; [apply eats_IsList_list|]. cbn [negb]. unfold rlp_list.
  eapply eats_bind; [apply eats_ReadListHeaderBytes|done].
Qed.

Lemma eats_ParseEndpoint ep rest : wf_endpoint ep -> eats ParseEndpoint (rlp_endpoint ep) ep rest.
Proof.
  intros (Hi & Hu & Ht). unfold ParseEndpoint, rlp_endpoint. apply eats_checked_list. destruct ep as [i u t]. cbn in *.
  eapply eats_bind; [apply consumes_read_array; done|].
  eapply eats_bind; [apply consumes_read_integral; [unfold is_sizeof; lia|exact Hu]|].
  eapply eats_bind_last; [apply consumes_read_integral; [unfold is_sizeof; lia|exact Ht]|]. apply eats_ret.
Qed.

Definition wf_pong (p : discv4_pong) (expiration : Z) (seq : option Z) : Prop :=
  wf_endpoint (toEndpoint p) /\ Zlen (pingHash p) = kWireHashSize /\ in_width 64 expiration /\
  pong_expiration p = u32 expiration /\ match seq with Some n => in_width 64 n /\ ersErq p = n | None => ersErq p = 0 end.

Lemma rlp_string_app_nonnil bs rest : rlp_string bs ++ rest <> [].
Proof. pose proof (rlp_string_pos bs). by destruct (rlp_string bs); [cbn in *; lia|]. Qed.

Lemma eats_IsFinished_false {Er} b r : eats (Er := Er) IsFinished [] false (b :: r).
Proof. by intros _. Qed.

Lemma parse_pong_body_eats p expiration seq tail :
  wf_pong p expiration seq -> eats parse_pong_body (pong_body p expiration seq tail) p [].
Proof.
  intros (He & Hh & Hx & Ee & Hs). destruct p as [ep h e n]. cbn in *. unfold parse_pong_body, pong_body. cbn [toEndpoint pingHash].
  apply eats_checked_list. eapply eats_bind; [by apply eats_ParseEndpoint|].
  eapply eats_bind; [by apply consumes_read_array|].
  eapply eats_bind; [apply consumes_read_integral; [unfold is_sizeof; lia|exact Hx]|].
  destruct seq as [n'|].
  - destruct Hs as [Hn ->]. 
    destruct (rlp_uint n' ++ concat (map rlp_encode tail)) as [|b r] eqn:E; [by destruct (rlp_string_app_nonnil _ _ E)|].
    eapply eats_bind_0; [rewrite app_nil_r; apply eats_IsFinished_false|]. rewrite <- E. cbn iota.
    eapply eats_bind; [apply consumes_read_integral; [unfold is_sizeof; lia|exact Hn]|].
    eapply eats_bind_last; [apply eats_skip_items|]. rewrite Ee. apply eats_ret.
  - eapply eats_bind_0; [by intros _|]. cbn iota. eapply eats_bind_0; [apply eats_ret|].
    eapply eats_bind_0; [by intros _|]. rewrite Ee, Hs. apply eats_ret.
Qed.

(** A packet of the type, with any hash and signature in front. *)
Lemma envelope_split (hdr : list byte) (t : Z) body :
  Zlen hdr = kWirePacketTypeOffset ->
  let raw := hdr ++ byte_of t :: body in
  byte_at (Er := DecodingError) raw kWirePacketTypeOffset = success (byte_of t) /\
  drop (Z.to_nat kWireHeaderSize) raw = body /\ Zlen raw = kWireHeaderSize + Zlen body.
Proof.
  unfold kWirePacketTypeOffset, kWireHeaderSize, kWireHashSize, kWireSigSize, kWirePacketTypeSize. intros Hh. cbn zeta. split; [|split].
  - unfold byte_at. rewrite lookup_app_r by lia. replace (Z.to_nat (32 + 65) - length hdr)%nat with 0%nat by lia. done.
  - change (byte_of t :: body) with ([byte_of t] ++ body). rewrite app_assoc. apply drop_app_length'.
    rewrite length_app. cbn. lia.
  - rewrite length_app. cbn [length]. lia.
Qed.

Lemma pong_Parse_wire hdr p expiration seq tail :
  Zlen hdr = kWirePacketTypeOffset -> wf_pong p expiration seq ->
  fits (hdr ++ byte_of kPacketTypePong :: pong_body p expiration seq tail) ->
  pong_Parse (hdr ++ byte_of kPacketTypePong :: pong_body p expiration seq tail) = success p.
Proof.
  intros Hh Hp Hf. destruct (envelope_split hdr kPacketTypePong (pong_body p expiration seq tail) Hh) as (Hb & Hd & Hl).
  unfold pong_Parse. rewrite (proj2 (Z.leb_gt _ _)) by (rewrite Hl; unfold kWireHeaderSize, kWirePacketTypeSize, kWireHashSize, kWireSigSize; lia).
  rewrite Hb. cbn [mbind outcome_bind]. rewrite u8_byte_of. change (kPacketTypePong mod 256 =? kPacketTypePong) with true. cbn [negb].
  rewrite Hd. apply run_decoder_eats; [|by apply parse_pong_body_eats].
  change (byte_of kPacketTypePong :: ?b) with ([byte_of kPacketTypePong] ++ b) in Hf. by apply fits_app_r, fits_app_r in Hf.
Qed.

(** ** ENR responses *)

Definition enr_response_body (request_hash record : list byte) : list byte := rlp_list (rlp_string request_hash ++ record).

Lemma parse_enr_response_eats h i :
  Zlen h = kWireHashSize -> eats parse_enr_response_body (enr_response_body h (rlp_encode i)) (mkEnrResponse h (rlp_encode i)) [].
Proof.
  intros Hh. unfold parse_enr_response_body, enr_response_body. apply eats_checked_list.
  eapply eats_bind; [by apply consumes_read_array|]. intros Hf. rewrite app_nil_r in *.
  pose proof (consumes_SkipItem i []) as Hs. unfold eats in Hs. rewrite app_nil_r in Hs. specialize (Hs Hf).
  assert (exists hd, PeekHeader (rlp_encode i) = (success hd, rlp_encode i) /\
    header_size_bytes hd + payload_size_bytes hd = Zlen (rlp_encode i)) as (hd & Hp & Ht).
  { pose proof Hs as Hs'. apply bind_success_inv in Hs' as (hd & w & Hp & Hk).
    assert (w = rlp_encode i) as -> by (unfold PeekHeader in Hp; by injection Hp).
    exists hd. split; [done|]. destruct (PeekHeader_cases (rlp_encode i)) as [[e E]|(h' & w & Ha)]; [congruence|].
    pose proof (PeekHeader_at _ _ _ Ha) as E. assert (h' = hd) as -> by congruence.
    rewrite (bind_success _ _ _ _ _ (skip_header_internal_spec _ _ _ Ha)), view_then in Hk.
    destruct (Zlen w <? payload_size_bytes hd) eqn:El; [done|]. zbool. unfold remove_prefix in Hk.
    rewrite (proj2 (Z.ltb_ge _ _)) in Hk by done. injection Hk as Hk.
    apply (f_equal length) in Hk. rewrite length_drop in Hk. cbn in Hk.
    inversion Ha as [b r Hb Hv Hh'|lst len w' Hl1 Hl2 Hl3 Hv Hh']; subst; cbn in *; rewrite ?length_app; lia. }
  rewrite (bind_success _ _ _ _ _ Hp), view_then, Ht, u64_small by (unfold fits in Hf; lia).
  rewrite (proj2 (Z.ltb_ge _ _)) by lia. rewrite (bind_success _ _ _ _ _ Hs).
  unfold mret, M_ret. by rewrite Nat2Z.id, take_ge by lia.
Qed.

Lemma enr_response_Parse_wire hdr h i :
  Zlen hdr = kWirePacketTypeOffset -> Zlen h = kWireHashSize ->
  fits (hdr ++ byte_of kPacketTypeEnrResponse :: enr_response_body h (rlp_encode i)) ->
  enr_response_Parse (hdr ++ byte_of kPacketTypeEnrResponse :: enr_response_body h (rlp_encode i)) =
    success (mkEnrResponse h (rlp_encode i)).
Proof.
  intros Hh Hl Hf. destruct (envelope_split hdr kPacketTypeEnrResponse (enr_response_body h (rlp_encode i)) Hh) as (Hb & Hd & Hlen).
  unfold enr_response_Parse. rewrite (proj2 (Z.leb_gt _ _)).
  2: { rewrite Hlen. pose proof (rlp_list_pos (rlp_string h ++ rlp_encode i)). unfold enr_response_body. lia. }
  rewrite Hb. cbn [mbind outcome_bind]. rewrite u8_byte_of. change (kPacketTypeEnrResponse mod 256 =? kPacketTypeEnrResponse) with true.
  cbn [negb]. rewrite Hd. apply run_decoder_eats; [|by apply parse_enr_response_eats].
  change (byte_of kPacketTypeEnrResponse :: ?b) with ([byte_of kPacketTypeEnrResponse] ++ b) in Hf. by apply fits_app_r, fits_app_r in Hf.
Qed.

(** The value of an eth pair: a list with the fork id as its only element. *)
Definition eth_item (h : list byte) (n : Z) : item := Lst [Lst [Str h; Str (be_min n)]].

Lemma eats_parse_eth_value h n rest :
  Zlen h = 4 -> in_width 64 n -> eats parse_eth_value (rlp_encode (eth_item h n)) (mkPeerForkId h n) rest.
Proof.
  intros Hh Hn. unfold parse_eth_value, eth_item. cbn [rlp_encode map concat]. rewrite !app_nil_r.
  apply eats_checked_list, eats_checked_list. eapply eats_bind; [by apply consumes_read_array|].
  eapply eats_bind_last; [apply (consumes_read_integral 8); [unfold is_sizeof; lia|exact Hn]|]. apply eats_ret.
Qed.

Lemma not_finished_then {Er B} (k : bool -> M ByteView Er B) v : v <> [] -> (IsFinished ≫= k) v = k false v.
Proof. by destruct v. Qed.

Lemma find_eth_spec h n l1 l2 : Zlen h = 4 -> in_width 64 n -> Forall (fun kv : list byte * item => kv.1 <> kEthKey) l1 ->
  forall fuel, (length l1 < fuel)%nat -> fits (pairs_wire (l1 ++ (kEthKey, eth_item h n) :: l2)) ->
  (find_eth fuel (pairs_wire (l1 ++ (kEthKey, eth_item h n) :: l2))).1 = success (mkPeerForkId h n).
Proof.
  intros Hh Hn Hl1. induction Hl1 as [|[k i] l1 Hk Hl1 IH]; intros fuel Hfuel Hf; destruct fuel as [|fuel]; cbn in Hfuel; try lia;
    cbn [find_eth app]; unfold pairs_wire in *; cbn [map concat app] in *; fold (pairs_wire l2) in *;
    unfold pair_wire in * |- *; cbn [fst snd] in *; rewrite <- !app_assoc in *.
  - rewrite not_finished_then by apply rlp_string_app_nonnil. cbn iota. rewrite (bind_success _ _ _ _ _ (consumes_read_bytes _ _ Hf)). apply fits_app_r in Hf.
    rewrite bool_decide_eq_true_2 by done. by rewrite (eats_parse_eth_value h n _ Hh Hn Hf).
  - rewrite not_finished_then by apply rlp_string_app_nonnil. cbn iota. rewrite (bind_success _ _ _ _ _ (consumes_read_bytes _ _ Hf)). apply fits_app_r in Hf. cbn in Hk.
    rewrite bool_decide_eq_false_2 by done. rewrite (bind_success _ _ _ _ _ (consumes_SkipItem i _ Hf)).
    apply fits_app_r in Hf. apply IH; [lia|done].
Qed.

Lemma ParseEthForkId_wire h n sig m l1 l2 :
  Zlen h = 4 -> in_width 64 n -> Forall (fun kv : list byte * item => kv.1 <> kEthKey) l1 ->
  let record := record_wire sig m (l1 ++ (kEthKey, eth_item h n) :: l2) in
  fits record -> forall hash, ParseEthForkId (mkEnrResponse hash record) = success (mkPeerForkId h n).
Proof.
  intros Hh Hn Hl record Hf hash. unfold ParseEthForkId. cbn [record_rlp]. rewrite bool_decide_eq_false_2.
  2: { intros E. pose proof (rlp_list_pos (rlp_string sig ++ content_payload m (l1 ++ (kEthKey, eth_item h n) :: l2))).
       unfold record, record_wire in E. rewrite E in *. cbn in *. lia. }
  unfold run_decoder, parse_fork_body. unfold record, record_wire in *. set (p := _ ++ _) in *.
  pose proof (IsList_list p [] ltac:(by rewrite app_nil_r)) as H1. pose proof (ReadListHeaderBytes_list p [] ltac:(by rewrite app_nil_r)) as H2.
  rewrite !app_nil_r in *. rewrite (bind_success _ _ _ _ _ H1). cbn [negb]. rewrite (bind_success _ _ _ _ _ H2).
  assert (fits p) as Hp by (unfold rlp_list in Hf; by apply fits_app_r in Hf). unfold p, content_payload in *.
  rewrite (bind_success _ _ _ _ _ (eats_SkipItem_string sig _ Hp)). apply fits_app_r in Hp.
  rewrite (bind_success _ _ _ _ _ (eats_SkipItem_string (be_min m) _ Hp)). apply fits_app_r in Hp. rewrite view_then.
  apply find_eth_spec; [done|done|done| |done].
  pose proof (concat_map_length_ge pair_wire (l1 ++ (kEthKey, eth_item h n) :: l2)) as Hc.
  specialize (Hc ltac:(intros; apply pair_wire_nonnil)). unfold pairs_wire. rewrite length_app in Hc. cbn [length] in Hc. lia.
Qed.

(** ** Arbitrary input *)

#[export] Hint Resolve safe_IsList : safe.

Lemma safe_ParseEndpoint : safe 1 ParseEndpoint wf_endpoint.
Proof.
  unfold ParseEndpoint. safe_steps. unfold wf_endpoint, in_width, kIPv4Size. cbn. auto.
Qed.
#[export] Hint Resolve safe_ParseEndpoint : safe.

Lemma safe_pong_body : safe 1 parse_pong_body
  (fun p => wf_endpoint (toEndpoint p) /\ Zlen (pingHash p) = kWireHashSize /\ in_width 32 (pong_expiration p) /\ in_width 64 (ersErq p)).
Proof.
  unfold parse_pong_body. eapply safe_bind_0; [apply safe_IsList|]. intros is_lst _. destruct is_lst; [|apply safe_fail]. cbn [negb].
  eapply safe_bind_1; [apply safe_ReadListHeaderBytes|lia|]. intros _ _.
  eapply safe_bind_1; [apply safe_ParseEndpoint|lia|]. intros ep Hep.
  eapply safe_bind_1; [apply safe_read_array|lia|]. intros h Hh.
  eapply safe_bind_1; [apply (safe_read_integral 8); unfold is_sizeof; lia|lia|]. intros x Hx.
  eapply safe_bind_0; [apply safe_IsFinished|]. intros fin _.
  eapply (safe_bind_0 _ _ _ (in_width 64)).
  - destruct fin; [by apply safe_ret|]. eapply safe_weaken; [apply (safe_read_integral 8); unfold is_sizeof; lia|lia|done].
  - intros q Hq. eapply safe_bind_0; [apply safe_while_above, safe_SkipItem|]. intros _ _. apply safe_ret. cbn.
    split; [done|]. split; [done|]. split; [|done]. unfold u32, in_width. apply Z.mod_pos_bound. lia.
Qed.

Lemma safe_enr_response_body : safe 1 parse_enr_response_body (fun r => Zlen (request_hash r) = kWireHashSize).
Proof.
  unfold parse_enr_response_body. eapply safe_bind_0; [apply safe_IsList|]. intros is_lst _. destruct is_lst; [|apply safe_fail]. cbn [negb].
  eapply safe_bind_1; [apply safe_ReadListHeaderBytes|lia|]. intros _ _.
  eapply safe_bind_1; [apply safe_read_array|lia|]. intros h Hh.
  eapply safe_bind_0; [apply safe_PeekHeader|]. intros hd _. eapply safe_bind_0; [apply safe_view|]. intros v _.
  destruct (_ <? _); [apply safe_fail|]. eapply safe_bind_1; [apply safe_SkipItem|lia|]. intros _ _. by apply safe_ret.
Qed.

Lemma safe_parse_eth_value : safe 1 parse_eth_value (fun f => Zlen (fork_hash_4 f) = 4 /\ in_width 64 (fork_next f)).
Proof.
  unfold parse_eth_value. eapply safe_bind_0; [apply safe_IsList|]. intros b1 _. destruct b1; [|apply safe_fail]. cbn [negb].
  eapply safe_bind_1; [apply safe_ReadListHeaderBytes|lia|]. intros _ _.
  eapply safe_bind_0; [apply safe_IsList|]. intros b2 _. destruct b2; [|apply safe_fail]. cbn [negb].
  eapply safe_bind_1; [apply safe_ReadListHeaderBytes|lia|]. intros _ _.
  eapply safe_bind_1; [apply safe_read_array|lia|]. intros h Hh.
  eapply safe_bind_1; [apply (safe_read_integral 8); unfold is_sizeof; lia|lia|]. intros n Hn. by apply safe_ret.
Qed.

Lemma find_eth_safe fuel : forall v, fits v -> (length v < fuel)%nat ->
  match find_eth fuel v with
  | (success f, w) => w `suffix_of` v /\ Zlen (fork_hash_4 f) = 4 /\ in_width 64 (fork_next f)
  | (failure _, w) => w `suffix_of` v
  | (crash _, _) => False
  end.
Proof.
  induction fuel as [|fuel IH]; intros v Hv Hfuel; [lia|]. cbn [find_eth]. destruct v as [|b v]; [by apply suffix_nil|].
  rewrite not_finished_then by done. cbn iota. pose proof (safe_read_bytes (b :: v) Hv) as Hk. unfold mbind, M_bind.
  destruct (read_bytes (b :: v)) as [[key|e|f] w]; [|done|done]. destruct Hk as (Hw & Hl & _).
  assert (fits w) as Hfw by by eapply fits_suffix. destruct (bool_decide _).
  - pose proof (safe_parse_eth_value w Hfw) as Hp. destruct (parse_eth_value w) as [[f|e|f] u]; [|by etrans|done].
    destruct Hp as (? & _ & ?). split; [by etrans|done].
  - pose proof (safe_SkipItem w Hfw) as Hs. destruct (SkipItem w) as [[[]|e|f] w']; [|by etrans|done].
    destruct Hs as (Hw' & Hl' & _). specialize (IH w' ltac:(by eapply fits_suffix) ltac:(lia)).
    destruct (find_eth fuel w') as [[f|e|f] u]; [destruct IH as [? ?]; split; [by do 2 etrans|done]|by do 2 etrans|done].
Qed.

Lemma safe_find_eth : safe 0 (v ← view; find_eth (S (length v))) (fun f => Zlen (fork_hash_4 f) = 4 /\ in_width 64 (fork_next f)).
Proof.
  intros v Hv. rewrite view_then. pose proof (find_eth_safe (S (length v)) v Hv ltac:(lia)) as H.
  destruct (find_eth _ v) as [[f|e|f] w]; [|done|done]. destruct H as (Hw & Hq). split; [done|]. split; [|done].
  destruct Hw as [u ->]. rewrite length_app. lia.
Qed.

Lemma safe_fork_body : safe 0 parse_fork_body (fun f => Zlen (fork_hash_4 f) = 4 /\ in_width 64 (fork_next f)).
Proof.
  unfold parse_fork_body. eapply safe_bind_0; [apply safe_IsList|]. intros b _. destruct b; [|apply safe_fail]. cbn [negb].
  eapply safe_bind_1; [apply safe_ReadListHeaderBytes|lia|]. intros _ _.
  eapply safe_bind_1; [apply safe_SkipItem|lia|]. intros _ _.
  eapply safe_bind_1; [apply safe_SkipItem|lia|]. intros _ _. apply safe_find_eth.
Qed.

(** A result or an error, never a fault. *)
Definition yields {E A} (r : outcome E A) (Q : A -> Prop) : Prop :=
  match r with success a => Q a | failure _ => True | crash _ => False end.

Lemma run_decoder_yields {Er A} n (m : M ByteView Er A) Q v : safe n m Q -> fits v -> yields (run_decoder m v) Q.
Proof. intros H Hv. specialize (H v Hv). unfold run_decoder, yields. by destruct (m v) as [[a|e|f] w]; [destruct H as (_ & _ & ?)| |]. Qed.

(** The common head of the packet parsers. *)
Lemma packet_yields {A} n t (m : Dec A) Q raw e bound :
  bound <= kWireHeaderSize -> kWirePacketTypeOffset <= bound -> safe n m Q -> fits raw ->
  yields (if Zlen raw <=? bound then failure e else
          b ← byte_at raw kWirePacketTypeOffset;
          if negb (u8 b =? t) then failure kUnexpectedString else
          run_decoder m (drop (Z.to_nat kWireHeaderSize) raw)) Q.
Proof.
  intros Hb Hb' Hm Hf. destruct (Z.leb_spec (Zlen raw) bound) as [|Hl]; [done|]. unfold byte_at.
  destruct (raw !! Z.to_nat kWirePacketTypeOffset) as [b|] eqn:E; cbn [mbind outcome_bind].
  - destruct (negb _); [done|]. eapply run_decoder_yields; [done|]. eapply fits_suffix; [|done]. apply suffix_drop.
  - apply lookup_ge_None in E. unfold kWirePacketTypeOffset, kWireHashSize, kWireSigSize in *. lia.
Qed.

Lemma pong_Parse_safe raw : fits raw -> yields (pong_Parse raw)
  (fun p => wf_endpoint (toEndpoint p) /\ Zlen (pingHash p) = kWireHashSize /\ in_width 32 (pong_expiration p) /\ in_width 64 (ersErq p)).
Proof.
  intros Hf. eapply packet_yields; [..|done]; [| |apply safe_pong_body];
    unfold kWireHeaderSize, kWirePacketTypeOffset, kWirePacketTypeSize; lia.
Qed.

Lemma enr_response_Parse_safe raw : fits raw -> yields (enr_response_Parse raw) (fun r => Zlen (request_hash r) = kWireHashSize).
Proof.
  intros Hf. eapply packet_yields; [..|done]; [| |apply safe_enr_response_body];
    unfold kWireHeaderSize, kWirePacketTypeOffset, kWirePacketTypeSize; lia.
Qed.

Lemma ParseEthForkId_safe r : fits (record_rlp r) ->
  yields (ParseEthForkId r) (fun f => Zlen (fork_hash_4 f) = 4 /\ in_width 64 (fork_next f)).
Proof.
  intros Hf. unfold ParseEthForkId. destruct (bool_decide _); [done|]. by eapply run_decoder_yields; [apply safe_fork_body|].
Qed.

(** ** Signing and verifying *)

Section envelope_laws.
Context (keccak256 : list byte -> list byte) (context_created : bool) `{Secp256k1Laws}.
Hypothesis keccak256_length : forall b, Zlen (keccak256 b) = kWireHashSize.

(** A signed packet is the hash, 65 bytes of signature and the payload. *)
Lemma sign_packet_shape key payload packet :
  sign_packet keccak256 context_created key payload = success packet ->
  context_created = true /\
  exists sig, sign_recoverable (keccak256 payload) key = Some sig /\
  let sig_bytes := (serialize_compact sig).1 ++ [byte_of (serialize_compact sig).2] in
  Zlen sig_bytes = kWireSigSize /\ packet = keccak256 (sig_bytes ++ payload) ++ sig_bytes ++ payload.
Proof.
  unfold sign_packet. destruct context_created; [|done]. cbn [negb].
  destruct (sign_recoverable (keccak256 payload) key) as [sig|] eqn:E; [|done].
  destruct (sign_compact _ _ _ E) as (Hl & Hr & Hp). destruct (serialize_compact sig) as [compact recid] eqn:Es. cbn [fst snd] in *.
  rewrite take_ge by (unfold kWireCompactSigSize, kWireSigSize, kWireRecoveryIdSize; lia). intros [= <-].
  split; [done|]. exists sig. split; [done|]. rewrite Es. cbn [fst snd]. split; [|done].
  rewrite length_app. cbn. unfold kWireSigSize. lia.
Qed.

Lemma verify_packet_parts (h sig_bytes payload : list byte) :
  Zlen h = kWireHashSize -> Zlen sig_bytes = kWireSigSize -> payload <> [] ->
  let data := h ++ sig_bytes ++ payload in
  Zlen data >= kWireHeaderSize /\ take (Z.to_nat kWireHashSize) data = h /\
  take (Z.to_nat kWireSigSize) (drop (Z.to_nat kWireHashSize) data) = sig_bytes /\
  drop (Z.to_nat (kWireHashSize + kWireSigSize)) data = payload.
Proof.
  unfold kWireHashSize, kWireSigSize, kWireHeaderSize. intros Hh Hs Hp. unfold kWirePacketTypeSize, kWireHashSize, kWireSigSize.
  split; [rewrite !length_app; destruct payload; [done|]; cbn [length]; lia|].
  split; [by apply take_app_length'; lia|]. split.
  - rewrite drop_app_length' by lia. apply take_app_length'. lia.
  - rewrite app_assoc. apply drop_app_length'. rewrite length_app. lia.
Qed.

(** A packet signed by [sign_packet] is accepted by [verify_packet], which
    returns the node id of the signing key (its uncompressed public key without
    the prefix byte), and [SignAndBuildPacket] builds the same bytes. *)
Theorem packet_authentic key payload packet pub id :
  sign_packet keccak256 context_created key payload = success packet -> payload <> [] ->
  pubkey_create key = Some pub -> pubkey_serialize pub = Some (x04 :: id) -> Zlen id = kNodeIdSize ->
  verify_packet keccak256 context_created packet = success id /\
  SignAndBuildPacket keccak256 (Some payload) key [] = success packet.
Proof.
  intros Hs Hp Hk Hser Hid. destruct (sign_packet_shape _ _ _ Hs) as (Hc & sig & Esig & Hl & ->). cbn zeta in Hl.
  destruct (sign_compact _ _ _ Esig) as (Hl' & Hr & Hparse).
  destruct (serialize_compact sig) as [compact recid] eqn:Es. cbn [fst snd] in *.
  set (sig_bytes := compact ++ [byte_of recid]) in *.
  destruct (verify_packet_parts (keccak256 (sig_bytes ++ payload)) sig_bytes payload (keccak256_length _) Hl Hp) as (H1 & H2 & H3 & H4).
  split.
  - unfold verify_packet. rewrite (proj2 (Z.ltb_ge _ _)) by lia. rewrite H2, H3, H4. cbn zeta.
    rewrite bool_decide_eq_true_2 by done. rewrite Hc. cbn [negb].
    assert (sig_bytes !! Z.to_nat (kWireSigSize - 1) = Some (byte_of recid)) as ->.
    { unfold sig_bytes. rewrite lookup_app_r by (unfold kWireSigSize; lia).
      replace (_ - _)%nat with 0%nat by (unfold kWireSigSize; lia). done. }
    unfold sig_bytes. rewrite take_app_length' by (unfold kWireCompactSigSize, kWireSigSize, kWireRecoveryIdSize; lia).
    rewrite u8_byte_of, Z.mod_small by lia. rewrite Hparse, (sign_recover _ _ _ Esig), Hk, Hser. cbn [default option_map drop].
    f_equal. apply take_ge. unfold kNodeIdSize in *. cbn. lia.
  - unfold SignAndBuildPacket. rewrite Esig, Es. cbn [app].
    rewrite take_ge by (unfold kWireCompactSigSize, kWireSigSize, kWireRecoveryIdSize; lia).
    assert (compact ++ byte_of recid :: payload = sig_bytes ++ payload) as -> by (unfold sig_bytes; by rewrite <- app_assoc).
    rewrite drop_app_length' by (by rewrite length_replicate).
    rewrite drop_app_length'; [done|]. rewrite length_replicate. pose proof (keccak256_length (sig_bytes ++ payload)). lia.
Qed.
End envelope_laws.

(** No received datagram makes the packet parsers read outside their input: on any
    bytes, [discv4_pong::Parse], [discv4_enr_response::Parse] and [ParseEthForkId]
    return a packet or an error, and a parsed packet has its fixed-size fields at
    their size and its integers in their width. *)
Theorem packet_parsers_safe raw : fits raw ->
  yields (pong_Parse raw) (fun p => wf_endpoint (toEndpoint p) /\ Zlen (pingHash p) = kWireHashSize /\
    in_width 32 (pong_expiration p) /\ in_width 64 (ersErq p)) /\
  yields (enr_response_Parse raw) (fun r => Zlen (request_hash r) = kWireHashSize) /\
  forall hash, yields (ParseEthForkId (mkEnrResponse hash raw)) (fun f => Zlen (fork_hash_4 f) = 4 /\ in_width 64 (fork_next f)).
Proof.
  intros Hf. split; [by apply pong_Parse_safe|]. split; [by apply enr_response_Parse_safe|].
  intros hash. by apply ParseEthForkId_safe.
Qed.

#[local] Existing Instance toy_secp.
#[local] Existing Instance toy_laws.

Lemma packet_authentic_witness :
  exists packet, sign_packet (fun _ => replicate 32 x07) true (replicate 32 x01) [x05; xc0] = success packet /\
    verify_packet (fun _ => replicate 32 x07) true packet = success (replicate 64 x01).
Proof.
  eexists. split; [vm_compute; reflexivity|].
  apply (packet_authentic (fun _ => replicate 32 x07) true ltac:(done) (replicate 32 x01) [x05; xc0] _ (replicate 32 x01) (replicate 64 x01));
    [vm_compute; reflexivity|done|done|done|done].
Defined.

Lemma packet_parsers_safe_witness : yields (enr_response_Parse (replicate 97 x00 ++ [x06; xc1])) (fun r => Zlen (request_hash r) = kWireHashSize).
Proof.
  assert (fits (replicate 97 x00 ++ [x06; xc1])) as Hf by (vm_compute; reflexivity).
  exact (proj1 (proj2 (packet_parsers_safe _ Hf))).
Defined.
