(* ===== verification/Discv4Client.v ===== *)
(** * discv4 client

    [include/discv4/discv4_client.hpp] and [src/discv4/discv4_client.cpp]: the state
    of the client, the packet handlers, the coroutines (ping, find_node,
    request_enr, the tasks the handlers spawn) as resumptions, and the executor as a
    step relation.  Signing and the packet bodies are those of [Discv4Packets].

    A coroutine is a [proc]: it runs until [async_send_to] or a timer's
    [async_wait], where other handlers and coroutines of the [io_context] may run.
    Objects held by [shared_ptr] are entries of a store with allocated references.
    Asio's address conversions are the class [AsioIp].  A spawned coroutine is put in
    the list of tasks and starts in a later step. *)

From stdpp Require Import pretty.
From S2P Require Import Prelude RlpSpec RlpCommon RlpEncoder RlpDecoder DecodeLogic EthObjects DialScheduler PeerQueue BridgeEvent Discv4Packets.

(** ** Data *)

(** The text [a.b.c.d] of an IPv4 address. *)
Definition octet (ip : list byte) (i : nat) : string := pretty (u8 (default x00 (ip !! i))).
Definition dotted (ip : list byte) : string :=
  octet ip 0 +:+ "." +:+ octet ip 1 +:+ "." +:+ octet ip 2 +:+ "." +:+ octet ip 3.

(** [make_address], [make_address_v4] and [address::to_string] of asio. *)
Class AsioIp := {
  make_address : string -> option (list byte);
  make_address_v4 : string -> option (list byte);
  address_to_string : list byte -> string
}.

Class AsioIpLaws `{AsioIp} := {
  address_to_string_v4 ip : Zlen ip = kIPv4Size -> address_to_string ip = dotted ip;
  make_address_dotted ip : Zlen ip = kIPv4Size -> make_address (dotted ip) = Some ip;
  make_address_v4_length s ip : make_address_v4 s = Some ip -> Zlen ip = kIPv4Size
}.

Record discv4Config := mkConfig {
  bind_ip : string;
  bind_port : Z;
  config_tcp_port : Z;
  private_key : list byte;
  public_key : list byte;
  ping_timeout : Z
}.

(** [udp::endpoint]: the bytes of the address and the port. *)
Definition udp_endpoint : Type := list byte * Z.

(** [PendingReply]; the shared pointers are references into the store. *)
Record PendingReply := mkPending {
  timer : nat;
  pending_pong : option nat;
  pending_enr : option nat;
  expected_hash : list byte
}.

(** The members of [discv4_client], the store of shared objects and timers, the clocks,
    and what went through the socket and the callbacks. *)
Record Client := mkClient {
  running_ : bool;
  peers_ : gmap string DiscoveredPeer;
  pending_replies_ : gmap string PendingReply;
  bonded_set_ : gset string;
  discovered_set_ : gset string;
  peer_callback_ : bool;
  error_callback_ : bool;
  pong_slots : gmap nat discv4_pong;
  enr_slots : gmap nat discv4_enr_response;
  expiry_times : gmap nat Z;
  waiting : gset nat;
  woken : gset nat;
  next_ref : nat;
  steady : Z;
  wall : Z;
  sent : list (list byte * udp_endpoint);
  received : list (list byte * udp_endpoint);
  reported : list DiscoveredPeer;
  errors : list string
}.

Definition Client_init (steady wall : Z) : Client :=
  mkClient false ∅ ∅ ∅ ∅ false false ∅ ∅ ∅ ∅ ∅ 0 steady wall [] [] [] [].

Definition set_running b (c : Client) : Client :=
  mkClient b (peers_ c) (pending_replies_ c) (bonded_set_ c) (discovered_set_ c) (peer_callback_ c) (error_callback_ c)
    (pong_slots c) (enr_slots c) (expiry_times c) (waiting c) (woken c) (next_ref c) (steady c) (wall c)
    (sent c) (received c) (reported c) (errors c).
Definition set_peers m (c : Client) : Client :=
  mkClient (running_ c) m (pending_replies_ c) (bonded_set_ c) (discovered_set_ c) (peer_callback_ c) (error_callback_ c)
    (pong_slots c) (enr_slots c) (expiry_times c) (waiting c) (woken c) (next_ref c) (steady c) (wall c)
    (sent c) (received c) (reported c) (errors c).
Definition set_pending m (c : Client) : Client :=
  mkClient (running_ c) (peers_ c) m (bonded_set_ c) (discovered_set_ c) (peer_callback_ c) (error_callback_ c)
    (pong_slots c) (enr_slots c) (expiry_times c) (waiting c) (woken c) (next_ref c) (steady c) (wall c)
    (sent c) (received c) (reported c) (errors c).
Definition add_bonded k (c : Client) : Client :=
  mkClient (running_ c) (peers_ c) (pending_replies_ c) ({[k]} ∪ bonded_set_ c) (discovered_set_ c) (peer_callback_ c) (error_callback_ c)
    (pong_slots c) (enr_slots c) (expiry_times c) (waiting c) (woken c) (next_ref c) (steady c) (wall c)
    (sent c) (received c) (reported c) (errors c).
Definition add_discovered k (c : Client) : Client :=
  mkClient (running_ c) (peers_ c) (pending_replies_ c) (bonded_set_ c) ({[k]} ∪ discovered_set_ c) (peer_callback_ c) (error_callback_ c)
    (pong_slots c) (enr_slots c) (expiry_times c) (waiting c) (woken c) (next_ref c) (steady c) (wall c)
    (sent c) (received c) (reported c) (errors c).
Definition set_callbacks p e (c : Client) : Client :=
  mkClient (running_ c) (peers_ c) (pending_replies_ c) (bonded_set_ c) (discovered_set_ c) p e
    (pong_slots c) (enr_slots c) (expiry_times c) (waiting c) (woken c) (next_ref c) (steady c) (wall c)
    (sent c) (received c) (reported c) (errors c).
Definition set_pong s p (c : Client) : Client :=
  mkClient (running_ c) (peers_ c) (pending_replies_ c) (bonded_set_ c) (discovered_set_ c) (peer_callback_ c) (error_callback_ c)
    (<[s := p]> (pong_slots c)) (enr_slots c) (expiry_times c) (waiting c) (woken c) (next_ref c) (steady c) (wall c)
    (sent c) (received c) (reported c) (errors c).
Definition set_enr s r (c : Client) : Client :=
  mkClient (running_ c) (peers_ c) (pending_replies_ c) (bonded_set_ c) (discovered_set_ c) (peer_callback_ c) (error_callback_ c)
    (pong_slots c) (<[s := r]> (enr_slots c)) (expiry_times c) (waiting c) (woken c) (next_ref c) (steady c) (wall c)
    (sent c) (received c) (reported c) (errors c).
Definition set_timer t e (c : Client) : Client :=
  mkClient (running_ c) (peers_ c) (pending_replies_ c) (bonded_set_ c) (discovered_set_ c) (peer_callback_ c) (error_callback_ c)
    (pong_slots c) (enr_slots c) (<[t := e]> (expiry_times c)) (waiting c) (woken c) (next_ref c) (steady c) (wall c)
    (sent c) (received c) (reported c) (errors c).
Definition set_waits wt wk (c : Client) : Client :=
  mkClient (running_ c) (peers_ c) (pending_replies_ c) (bonded_set_ c) (discovered_set_ c) (peer_callback_ c) (error_callback_ c)
    (pong_slots c) (enr_slots c) (expiry_times c) wt wk (next_ref c) (steady c) (wall c)
    (sent c) (received c) (reported c) (errors c).
Definition set_next n (c : Client) : Client :=
  mkClient (running_ c) (peers_ c) (pending_replies_ c) (bonded_set_ c) (discovered_set_ c) (peer_callback_ c) (error_callback_ c)
    (pong_slots c) (enr_slots c) (expiry_times c) (waiting c) (woken c) n (steady c) (wall c)
    (sent c) (received c) (reported c) (errors c).
Definition set_clocks s w (c : Client) : Client :=
  mkClient (running_ c) (peers_ c) (pending_replies_ c) (bonded_set_ c) (discovered_set_ c) (peer_callback_ c) (error_callback_ c)
    (pong_slots c) (enr_slots c) (expiry_times c) (waiting c) (woken c) (next_ref c) s w
    (sent c) (received c) (reported c) (errors c).
Definition log_io s r p e (c : Client) : Client :=
  mkClient (running_ c) (peers_ c) (pending_replies_ c) (bonded_set_ c) (discovered_set_ c) (peer_callback_ c) (error_callback_ c)
    (pong_slots c) (enr_slots c) (expiry_times c) (waiting c) (woken c) (next_ref c) (steady c) (wall c)
    (sent c ++ s) (received c ++ r) (reported c ++ p) (errors c ++ e).

Definition ep_key (ip : string) (port : Z) : string := ip +:+ (":" +:+ pretty port).

(** [discv4_client::reply_key]. *)
Definition reply_key (ip : string) (port ptype : Z) : string := ip +:+ ":" +:+ pretty port +:+ ":" +:+ pretty ptype.

(** [timer->cancel()]: wakes the coroutine that waits, and does nothing when none does. *)
Definition cancel (t : nat) (c : Client) : Client :=
  if bool_decide (t ∈ waiting c) then set_waits (waiting c) ({[t]} ∪ woken c) c else c.

(** ** Coroutines *)

Inductive proc (A : Type) : Type :=
  | Ret (a : A)
  | Get (k : Client -> proc A)
  | Put (c : Client) (k : proc A)
  | SendTo (packet : list byte) (destination : udp_endpoint) (k : option string -> proc A)
  | WaitTimer (t : nat) (k : proc A)
  | Throw.
Arguments Ret {A} a.
Arguments Get {A} k.
Arguments Put {A} c k.
Arguments SendTo {A} packet destination k.
Arguments WaitTimer {A} t k.
Arguments Throw {A}.

Fixpoint proc_bind {A B} (k : A -> proc B) (p : proc A) : proc B :=
  match p with
  | Ret a => k a
  | Get g => Get (fun c => proc_bind k (g c))
  | Put c p' => Put c (proc_bind k p')
  | SendTo packet destination g => SendTo packet destination (fun r => proc_bind k (g r))
  | WaitTimer t p' => WaitTimer t (proc_bind k p')
  | Throw => Throw
  end.
#[export] Instance proc_MBind : MBind proc := @proc_bind.
#[export] Instance proc_MRet : MRet proc := @Ret.

Definition get_client : proc Client := Get Ret.
Definition modify (f : Client -> Client) : proc unit := Get (fun c => Put (f c) (Ret tt)).

(** The executor runs a coroutine until it suspends. *)
Fixpoint run {A} (p : proc A) (c : Client) : Client * proc A :=
  match p with
  | Get k => run (k c) c
  | Put c' p' => run p' c'
  | SendTo packet destination k => (log_io [(packet, destination)] [] [] [] c, p)
  | WaitTimer t k => (set_waits ({[t]} ∪ waiting c) (woken c) c, p)
  | Ret _ | Throw => (c, p)
  end.

(** The executor's list of coroutines, and whether the receive loop is alive. *)
Inductive status := Ready (p : proc unit) | Suspended (p : proc unit).

Record Node := mkNode { client : Client; tasks : list status; listening : bool }.

(** The handlers: state passing over the node; no error is reported. *)
Definition H := M Node Empty_set.

Definition client_of : H Client := fun n => (success (client n), n).
Definition update (f : Client -> Client) : H unit := fun n => (success tt, mkNode (f (client n)) (tasks n) (listening n)).
Definition spawn (p : proc unit) : H unit := fun n => (success tt, mkNode (client n) (tasks n ++ [Ready p]) (listening n)).

(** ** NEIGHBOURS *)

(** A node of a NEIGHBOURS packet. *)
Record Neighbour := mkNeighbour { nb_ip : list byte; nb_udp : Z; nb_tcp : Z; nb_id : list byte }.

(** One pass of the loop of [handle_neighbours] up to the end of the node's list; a
    failure is a [break] of the loop.  Further fields of the node are skipped with a
    decoder of their own. *)
Definition read_neighbour : Dec Neighbour :=
  node_len ← ReadListHeaderBytes;
  node_start ← view;
  ip_bytes ← read_bytes;
  if negb (Zlen ip_bytes =? kIPv4Size) then fail kUnexpectedString else
  udp ← read_integral 2;
  tcp ← read_integral 2;
  pubkey_bytes ← read_bytes;
  if negb (Zlen pubkey_bytes =? kNodeIdSize) then fail kUnexpectedString else
  rest ← view;
  let node_consumed := Zlen node_start - Zlen rest in
  (if node_consumed <? node_len then
     let skip_view := take (Z.to_nat (node_len - node_consumed)) rest in
     match while_above 0 SkipItem skip_view with
     | (crash f, _) => crash_with f
     | (_, unread) => put_state (drop (length skip_view - length unread) rest)
     end
   else mret tt) ;;
  mret (mkNeighbour ip_bytes udp tcp pubkey_bytes).

(** The loop over the nodes: the nodes read before it ends or breaks.  The fuel bounds
    the passes by the bytes that remain, of which each pass takes one at least. *)
Fixpoint neighbours_loop (fuel : nat) (start nodes_byte_len : Z) : Dec (list Neighbour) :=
  match fuel with
  | O => crash_with Diverge
  | S fuel' =>
      finished ← IsFinished;
      if finished : bool then mret [] else
      v ← view;
      if nodes_byte_len <=? start - Zlen v then mret [] else
      node ← attempt read_neighbour;
      match node with
      | None => mret []
      | Some nb => nodes ← neighbours_loop fuel' start nodes_byte_len; mret (nb :: nodes)
      end
  end.

Definition read_neighbours : Dec (list Neighbour) :=
  ReadListHeaderBytes ;;
  nodes_byte_len ← ReadListHeaderBytes;
  after_nodes_start ← view;
  neighbours_loop (S (length after_nodes_start)) (Zlen after_nodes_start) nodes_byte_len.

Definition peer_of (nb : Neighbour) (now : Z) : DiscoveredPeer :=
  mkPeer (nb_id nb) (dotted (nb_ip nb)) (nb_udp nb) (nb_tcp nb) now None.

(** ** The client *)

Section discv4_client.
Context (config_ : discv4Config) (keccak256 : list byte -> list byte) (context_created : bool).
Context `{SK : Secp256k1} `{AI : AsioIp}.

Definition sign (payload : list byte) : outcome discv4Error.t (list byte) :=
  sign_packet keccak256 context_created (private_key config_) payload.

(** [std::make_shared] of a timer, with [expires_after], and of the reply slots. *)
Definition new_timer : proc nat :=
  c ← get_client;
  modify (fun c => set_next (S (next_ref c)) (set_timer (next_ref c) (steady c + ping_timeout config_) c)) ;;
  mret (next_ref c).

Definition pong_default : discv4_pong := mkPong (mkEndpoint (replicate 4 x00) 0 0) (replicate 32 x00) 0 0.

Definition new_pong_slot : proc nat :=
  c ← get_client;
  modify (fun c => set_next (S (next_ref c)) (set_pong (next_ref c) pong_default c)) ;;
  mret (next_ref c).

Definition new_enr_slot : proc nat :=
  c ← get_client;
  modify (fun c => set_next (S (next_ref c)) (set_enr (next_ref c) (mkEnrResponse (replicate 32 x00) []) c)) ;;
  mret (next_ref c).

(** [udp::endpoint(make_address(ip), port)]: [make_address] throws on a bad text. *)
Definition destination_of (ip : string) (port : Z) : proc udp_endpoint :=
  match make_address ip with Some address => mret (address, port) | None => Throw end.

Definition register (key : string) (entry : PendingReply) : proc unit :=
  modify (fun c => set_pending (<[key := entry]> (pending_replies_ c)) c).
Definition erase (key : string) : proc unit := modify (fun c => set_pending (delete key (pending_replies_ c)) c).

(** [discv4_client::send_packet]. *)
Definition send_packet (packet : list byte) (destination : udp_endpoint) : proc (outcome discv4Error.t unit) :=
  ec ← SendTo packet destination Ret;
  match ec with
  | None => mret (success tt)
  | Some message =>
      modify (fun c => if error_callback_ c then log_io [] [] [] ["Send error: " +:+ message] c else c) ;;
      mret (failure discv4Error.kNetworkSendFailed)
  end.

(** [discv4_client::ping]. *)
Definition ping (ip : string) (port : Z) : proc (outcome discv4Error.t discv4_pong) :=
  c ← get_client;
  if negb (running_ c) then mret (failure discv4Error.kNetworkSendFailed) else
  let payload := ping_payload (Endpoint_new make_address_v4 (bind_ip config_) (bind_port config_) (config_tcp_port config_))
                   (Endpoint_new make_address_v4 ip port port) (wall c) in
  if bool_decide (payload = []) then mret (failure discv4Error.kRlpPayloadEmpty) else
  match sign payload with
  | success signed_packet =>
      let sent_hash := take (Z.to_nat kWireHashSize) signed_packet in
      let key := reply_key ip port kPacketTypePong in
      t ← new_timer;
      pong_slot ← new_pong_slot;
      register key (mkPending t (Some pong_slot) None sent_hash) ;;
      destination ← destination_of ip port;
      send_result ← send_packet signed_packet destination;
      match send_result with
      | success _ =>
          WaitTimer t (Ret tt) ;;
          erase key ;;
          c ← get_client;
          let pong := default pong_default (pong_slots c !! pong_slot) in
          if negb (pong_expiration pong =? 0)
          then modify (add_bonded (ep_key ip port)) ;; mret (success pong)
          else mret (failure discv4Error.kPongTimeout)
      | _ => erase key ;; mret (failure discv4Error.kNetworkSendFailed)
      end
  | _ => mret (failure discv4Error.kSigningFailed)
  end.

(** [discv4_client::ensure_bond]. *)
Definition ensure_bond (ip : string) (port : Z) : proc unit :=
  c ← get_client;
  if bool_decide (ep_key ip port ∈ bonded_set_ c) then mret tt else
  result ← ping ip port;
  match result with success _ => modify (add_bonded (ep_key ip port)) | _ => mret tt end.

(** [discv4_client::find_node]; every outcome of the source is success. *)
Definition find_node (ip : string) (port : Z) (target_id : list byte) : proc unit :=
  c ← get_client;
  if negb (running_ c) then mret tt else
  ensure_bond ip port ;;
  c ← get_client;
  let payload := find_node_payload target_id (wall c) in
  if bool_decide (payload = []) then mret tt else
  match sign payload with
  | success signed_packet =>
      let key := reply_key ip port kPacketTypeNeighbours in
      t ← new_timer;
      register key (mkPending t None None (replicate 32 x00)) ;;
      destination ← destination_of ip port;
      send_result ← send_packet signed_packet destination;
      match send_result with
      | success _ => WaitTimer t (Ret tt) ;; erase key
      | _ => erase key
      end
  | _ => mret tt
  end.

(** [discv4_client::request_enr]. *)
Definition request_enr (ip : string) (port : Z) : proc (outcome discv4Error.t discv4_enr_response) :=
  c ← get_client;
  if negb (running_ c) then mret (failure discv4Error.kNetworkSendFailed) else
  let payload := enr_request_payload (u64 (u64 (wall c) + kPacketExpirySeconds)) in
  if bool_decide (payload = []) then mret (failure discv4Error.kRlpPayloadEmpty) else
  match sign payload with
  | success signed_packet =>
      let sent_hash := take (Z.to_nat kWireHashSize) signed_packet in
      let key := reply_key ip port kPacketTypeEnrResponse in
      t ← new_timer;
      enr_slot ← new_enr_slot;
      register key (mkPending t None (Some enr_slot) sent_hash) ;;
      destination ← destination_of ip port;
      send_result ← send_packet signed_packet destination;
      match send_result with
      | success _ =>
          WaitTimer t (Ret tt) ;;
          erase key ;;
          c ← get_client;
          let response := default (mkEnrResponse [] []) (enr_slots c !! enr_slot) in
          if negb (bool_decide (record_rlp response = [])) then mret (success response)
          else mret (failure discv4Error.kPongTimeout)
      | _ => erase key ;; mret (failure discv4Error.kNetworkSendFailed)
      end
  | _ => mret (failure discv4Error.kSigningFailed)
  end.

(** The coroutine [handle_ping] spawns: the PONG, then FIND_NODE for the own id. *)
Definition pong_task (ip : string) (port : Z) (packet : list byte) : proc unit :=
  destination ← destination_of ip port;
  send_result ← send_packet packet destination;
  match send_result with
  | success _ => find_node ip port (public_key config_)
  | _ => mret tt
  end.

Definition with_fork_id (f : PeerForkId) (p : DiscoveredPeer) : DiscoveredPeer :=
  mkPeer (node_id p) (peer_ip p) (udp_port p) (tcp_port p) (last_seen p) (Some f).

(** The coroutine [handle_neighbours] spawns for a new endpoint. *)
Definition neighbour_task (peer : DiscoveredPeer) : proc unit :=
  let disc_ip := peer_ip peer in
  let disc_port := udp_port peer in
  ensure_bond disc_ip disc_port ;;
  enr_result ← request_enr disc_ip disc_port;
  let enriched_peer :=
    match enr_result with
    | success response =>
        match ParseEthForkId response with success f => with_fork_id f peer | _ => peer end
    | _ => peer
    end in
  modify (fun c => if peer_callback_ c then log_io [] [] [enriched_peer] [] c else c) ;;
  find_node disc_ip disc_port (node_id peer).

(** ** Handlers *)

(** [discv4_client::handle_ping]; [data] has the length of the header at least. *)
Definition handle_ping (data : list byte) (sender : udp_endpoint) : H unit :=
  if Zlen data <? kWireHeaderSize then mret tt else
  c ← client_of;
  let ping_hash := take (Z.to_nat kWireHashSize) data in
  let payload := pong_payload (mkEndpoint sender.1 sender.2 (config_tcp_port config_)) ping_hash (wall c) in
  if bool_decide (payload = []) then mret tt else
  match sign payload with
  | success signed_packet =>
      let ip := address_to_string sender.1 in
      update (add_bonded (ep_key ip sender.2)) ;;
      spawn (pong_task ip sender.2 signed_packet)
  | _ => mret tt
  end.

(** [discv4_client::handle_pong]. *)
Definition handle_pong (data : list byte) (sender : udp_endpoint) : H unit :=
  if Zlen data <? kWireHeaderSize then mret tt else
  match pong_Parse data with
  | crash f => crash_with f
  | failure _ => mret tt
  | success pong =>
      c ← client_of;
      match pending_replies_ c !! reply_key (address_to_string sender.1) sender.2 kPacketTypePong with
      | None => mret tt
      | Some entry =>
          if negb (bool_decide (pingHash pong = expected_hash entry)) then mret tt else
          match pending_pong entry with
          | None => crash_with OutOfBounds
          | Some slot => update (set_pong slot pong) ;; update (cancel (timer entry))
          end
      end
  end.

(** [discv4_client::handle_enr_response]. *)
Definition handle_enr_response (data : list byte) (sender : udp_endpoint) : H unit :=
  if Zlen data <? kWireHeaderSize then mret tt else
  match enr_response_Parse data with
  | crash f => crash_with f
  | failure _ => mret tt
  | success response =>
      c ← client_of;
      match pending_replies_ c !! reply_key (address_to_string sender.1) sender.2 kPacketTypeEnrResponse with
      | None => mret tt
      | Some entry =>
          if negb (bool_decide (request_hash response = expected_hash entry)) then mret tt else
          match pending_enr entry with
          | None => crash_with OutOfBounds
          | Some slot => update (set_enr slot response) ;; update (cancel (timer entry))
          end
      end
  end.

Definition handle_find_node (data : list byte) (sender : udp_endpoint) : H unit := mret tt.
Definition handle_enr_request (data : list byte) (sender : udp_endpoint) : H unit := mret tt.

(** The rest of a pass of the loop: the peer table, and a coroutine for a new endpoint. *)
Definition add_neighbour (nb : Neighbour) : H unit :=
  if nb_tcp nb =? 0 then mret tt else
  c ← client_of;
  let peer := peer_of nb (steady c) in
  update (fun c => set_peers (<[node_key (node_id peer) := peer]> (peers_ c)) c) ;;
  let key := ep_key (peer_ip peer) (udp_port peer) in
  if running_ c && negb (bool_decide (key ∈ discovered_set_ c))
  then update (add_discovered key) ;; spawn (neighbour_task peer)
  else mret tt.

(** [discv4_client::handle_neighbours]; what is done with a node does not touch the
    decoder, so the nodes are read first. *)
Definition handle_neighbours (data : list byte) (sender : udp_endpoint) : H unit :=
  if Zlen data <? kWireHeaderSize then mret tt else
  c ← client_of;
  match pending_replies_ c !! reply_key (address_to_string sender.1) sender.2 kPacketTypeNeighbours with
  | None => mret tt
  | Some entry =>
      update (cancel (timer entry)) ;;
      match run_decoder read_neighbours (drop (Z.to_nat kWireHeaderSize) data) with
      | crash f => crash_with f
      | failure _ => mret tt
      | success nodes => for_each add_neighbour nodes
      end
  end.

(** [discv4_client::handle_packet]. *)
Definition handle_packet (data : list byte) (sender : udp_endpoint) : H unit :=
  if Zlen data <? kWireHeaderSize then mret tt else
  b ← lift (byte_at data kWirePacketTypeOffset);
  let packet_type := u8 b in
  if packet_type =? kPacketTypePing then handle_ping data sender
  else if packet_type =? kPacketTypePong then handle_pong data sender
  else if packet_type =? kPacketTypeFindNode then handle_find_node data sender
  else if packet_type =? kPacketTypeNeighbours then handle_neighbours data sender
  else if packet_type =? kPacketTypeEnrRequest then handle_enr_request data sender
  else if packet_type =? kPacketTypeEnrResponse then handle_enr_response data sender
  else update (fun c => if error_callback_ c then log_io [] [] [] ["Unknown packet type: " +:+ pretty packet_type] c else c).

(** ** The receive loop *)

(** What [async_receive_from] ends with. *)
Inductive received_datagram :=
  | Aborted
  | ReceiveError (message : string)
  | Datagram (data : list byte) (sender : udp_endpoint).

Definition kUdpBufferSize : Z := 2048.

Definition set_listening (b : bool) : H unit := fun n => (success tt, mkNode (client n) (tasks n) b).

(** One pass of [receive_loop]; the loop ends on [operation_aborted] and when the client
    is not running. *)
Definition receive_once (d : received_datagram) : H unit :=
  match d with
  | Aborted => set_listening false
  | ReceiveError message =>
      update (fun c => if error_callback_ c then log_io [] [] [] ["Receive error: " +:+ message] c else c) ;;
      c ← client_of; set_listening (running_ c)
  | Datagram data sender =>
      update (log_io [] [(data, sender)] [] []) ;;
      (if 0 <? Zlen data then handle_packet data sender else mret tt) ;;
      c ← client_of; set_listening (running_ c)
  end.

(** [discv4_client::start]: a second call changes nothing. *)
Definition start : H unit :=
  c ← client_of;
  if running_ c then mret tt else update (set_running true) ;; set_listening true.

(** [discv4_client::stop]. *)
Definition stop : H unit :=
  update (set_running false) ;;
  c ← client_of;
  for_each (fun kv : string * PendingReply => update (cancel (timer kv.2))) (map_to_list (pending_replies_ c)) ;;
  update (set_pending ∅).

(** [discv4_client::get_peers]. *)
Definition get_peers (c : Client) : list DiscoveredPeer := (map_to_list (peers_ c)).*2.

(** ** The executor *)

(** Task [i] runs [p] until it suspends. *)
Definition resume (i : nat) (p : proc unit) (n : Node) : Node :=
  let '(c', p') := run p (client n) in mkNode c' (<[i := Suspended p']> (tasks n)) (listening n).

Definition rearm (t : nat) (c : Client) : Client := set_waits (waiting c ∖ {[t]}) (woken c ∖ {[t]}) c.

Definition on_client (f : Client -> Client) (n : Node) : Node := mkNode (f (client n)) (tasks n) (listening n).

(** The coroutines a user of the client runs. *)
Inductive call := CallPing (ip : string) (port : Z) | CallFindNode (ip : string) (port : Z) (target : list byte) | CallRequestEnr (ip : string) (port : Z).

Definition call_ip (x : call) : string :=
  match x with CallPing ip _ | CallFindNode ip _ _ | CallRequestEnr ip _ => ip end.

Definition call_proc (x : call) : proc unit :=
  match x with
  | CallPing ip port => ping ip port ;; mret tt
  | CallFindNode ip port target => find_node ip port target
  | CallRequestEnr ip port => request_enr ip port ;; mret tt
  end.

Definition wf_datagram (d : received_datagram) : Prop :=
  match d with
  | Datagram data sender => Zlen data <= kUdpBufferSize /\ Zlen sender.1 = kIPv4Size
  | _ => True
  end.

(** A step of the executor: a datagram, a coroutine that starts or goes on after its
    send or its timer, the clocks, the calls of the user. *)
Inductive step : Node -> Node -> Prop :=
  | step_receive d n n' : listening n = true -> wf_datagram d -> receive_once d n = (success tt, n') -> step n n'
  | step_begin i p n : tasks n !! i = Some (Ready p) -> step n (resume i p n)
  | step_sent i packet destination k ec n :
      tasks n !! i = Some (Suspended (SendTo packet destination k)) -> step n (resume i (k ec) n)
  | step_timer i t k n :
      tasks n !! i = Some (Suspended (WaitTimer t k)) ->
      t ∈ woken (client n) \/ (exists e, expiry_times (client n) !! t = Some e /\ e <= steady (client n)) ->
      step n (resume i k (on_client (rearm t) n))
  | step_clock s w n : steady (client n) <= s -> step n (on_client (set_clocks s w) n)
  | step_call x n : make_address (call_ip x) <> None -> step n (mkNode (client n) (tasks n ++ [Ready (call_proc x)]) (listening n))
  | step_callbacks p e n : step n (on_client (set_callbacks p e) n)
  | step_start n n' : start n = (success tt, n') -> step n n'
  | step_stop n n' : stop n = (success tt, n') -> step n n'.

Definition reachable (n : Node) : Prop := exists s w, rtc step (mkNode (Client_init s w) [] false) n.

End discv4_client.
