(* ===== verification/Discv4Logic.v ===== *)
(** * Reasoning about the discv4 client

    A rely/guarantee logic for the coroutines of [Discv4Client]: [wp] is the weakest
    precondition of a coroutine that other handlers and coroutines interrupt where it
    suspends, [Inv] the invariant the client keeps at every suspension.  The reachable
    nodes satisfy it, which gives where bonds, peers and reports come from, and that
    no datagram makes a handler fault. *)

From stdpp Require Import pretty.
From S2P Require Import Prelude RlpSpec RlpCommon RlpEncoder RlpDecoder DecodeLogic EthObjects DialScheduler PeerQueue BridgeEvent Discv4Packets Discv4Client.

(** ** Keys *)

Lemma string_app_nil (s : string) : "" +:+ s = s.
Proof. done. Qed.
Lemma string_app_cons a (s t : string) : String a s +:+ t = String a (s +:+ t).
Proof. done. Qed.

Lemma string_app_assoc (s t u : string) : (s +:+ t) +:+ u = s +:+ t +:+ u.
Proof. induction s as [|a s IH]; [done|]. by rewrite !string_app_cons, IH. Qed.
Lemma string_app_length (s t : string) : String.length (s +:+ t) = (String.length s + String.length t)%nat.
Proof. induction s as [|a s IH]; [done|]. rewrite string_app_cons. cbn. by rewrite IH. Qed.

Lemma string_app_suffix (s1 s2 t1 t2 : string) :
  String.length t1 = String.length t2 -> s1 +:+ t1 = s2 +:+ t2 -> s1 = s2 /\ t1 = t2.
Proof.
  revert s2. induction s1 as [|a s1 IH]; intros [|b s2] Hl E; rewrite ?string_app_nil, ?string_app_cons in E.
  - done.
  - subst t1. cbn [String.length] in Hl. rewrite string_app_length in Hl. lia.
  - subst t2. cbn [String.length] in Hl. rewrite string_app_length in Hl. lia.
  - injection E as -> E. destruct (IH s2 Hl E) as [-> ->]. done.
Qed.

Definition type_suffix (t : Z) : string := ":" +:+ pretty t.

Lemma reply_key_split ip port t : reply_key ip port t = ep_key ip port +:+ type_suffix t.
Proof. unfold reply_key, ep_key, type_suffix. rewrite !string_app_assoc. done. Qed.

Lemma suffix_length_1 t : 0 <= t < 10 -> String.length (type_suffix t) = 2%nat.
Proof. intros Ht. assert (t = 0 \/ t = 1 \/ t = 2 \/ t = 3 \/ t = 4 \/ t = 5 \/ t = 6 \/ t = 7 \/ t = 8 \/ t = 9) as Hc by lia.
  by repeat destruct Hc as [->|Hc]; subst.
Qed.

Lemma suffix_inj t1 t2 : 0 <= t1 < 10 -> 0 <= t2 < 10 -> type_suffix t1 = type_suffix t2 -> t1 = t2.
Proof. unfold type_suffix. intros _ _ E. by apply (inj (String.append ":")), (inj pretty) in E. Qed.

Lemma key_inj k1 k2 t1 t2 : 0 <= t1 < 10 -> 0 <= t2 < 10 ->
  k1 +:+ type_suffix t1 = k2 +:+ type_suffix t2 -> k1 = k2 /\ t1 = t2.
Proof.
  intros H1 H2 E. apply string_app_suffix in E as [-> E]; [|by rewrite !suffix_length_1].
  split; [done|]. by apply suffix_inj in E.
Qed.

Definition peer_ep (p : DiscoveredPeer) : string := ep_key (peer_ip p) (udp_port p).

(** ** Reading NEIGHBOURS *)

Definition wf_neighbour (nb : Neighbour) : Prop :=
  Zlen (nb_ip nb) = kIPv4Size /\ in_width 16 (nb_udp nb) /\ in_width 16 (nb_tcp nb) /\ Zlen (nb_id nb) = kNodeIdSize.

Lemma while_skip_safe v : fits v -> forall f w, while_above 0 SkipItem v <> (crash f, w).
Proof.
  intros Hv f w E. pose proof (safe_while_above SkipItem _ 0 safe_SkipItem v Hv) as Hs. by rewrite E in Hs.
Qed.

Lemma safe_read_neighbour : safe 1 read_neighbour wf_neighbour.
Proof.
  unfold read_neighbour. eapply safe_bind_1; [apply safe_ReadListHeaderBytes|lia|]. intros len _.
  eapply safe_bind_0; [apply safe_view|]. intros v0 _. eapply safe_bind_1; [apply safe_read_bytes|lia|]. intros ip _.
  destruct (Z.eqb_spec (Zlen ip) kIPv4Size) as [Hip|]; [|apply safe_fail]. cbn [negb].
  eapply safe_bind_1; [apply (safe_read_integral 2); unfold is_sizeof; lia|lia|]. intros udp Hu.
  eapply safe_bind_1; [apply (safe_read_integral 2); unfold is_sizeof; lia|lia|]. intros tcp Ht.
  eapply safe_bind_1; [apply safe_read_bytes|lia|]. intros id _.
  destruct (Z.eqb_spec (Zlen id) kNodeIdSize) as [Hid|]; [|apply safe_fail]. cbn [negb].
  intros v Hv. rewrite view_then. cbn zeta. set (len' := len - _).
  destruct (_ <? len); [|cbn; split; [done|]; split; [lia|done]]. unfold mbind, M_bind.
  assert (fits (take (Z.to_nat len') v)) as Ht' by (unfold fits in *; rewrite length_take; lia).
  pose proof (while_skip_safe _ Ht') as Hsafe.
  destruct (while_above 0 SkipItem _) as [[l|e|f] w]; [| |by destruct (Hsafe f w)]; cbn;
    (split; [apply drop_suffix|]; rewrite length_drop; split; [lia|done]).
Qed.

Lemma neighbours_loop_safe fuel start len : forall v, fits v -> (length v < fuel)%nat ->
  match neighbours_loop fuel start len v with
  | (success nodes, w) => w `suffix_of` v /\ Forall wf_neighbour nodes
  | (failure _, w) => w `suffix_of` v
  | (crash _, _) => False
  end.
Proof.
  induction fuel as [|fuel IH]; intros v Hv Hf; [lia|]. cbn [neighbours_loop]. destruct v as [|b v]; [by cbn|].
  rewrite not_finished_then by done. cbn iota. rewrite view_then. destruct (len <=? _); [by cbn|].
  pose proof (safe_read_neighbour (b :: v) Hv) as Hr. unfold attempt, mbind, M_bind.
  destruct (read_neighbour (b :: v)) as [[nb|e|f] w]; [|by cbn|done]. destruct Hr as (Hw & Hl & Hnb).
  specialize (IH w ltac:(by eapply fits_suffix) ltac:(lia)).
  destruct (neighbours_loop fuel start len w) as [[l|e|f] u]; [|by etrans|done]. destruct IH as [? ?].
  split; [by etrans|]. by constructor.
Qed.

Lemma safe_read_neighbours : safe 0 read_neighbours (Forall wf_neighbour).
Proof.
  unfold read_neighbours. eapply safe_bind_1; [apply safe_ReadListHeaderBytes|lia|]. intros _ _.
  eapply safe_bind_1; [apply safe_ReadListHeaderBytes|lia|]. intros len _. intros v Hv. rewrite view_then.
  pose proof (neighbours_loop_safe (S (length v)) (Zlen v) len v Hv ltac:(lia)) as Hl.
  destruct (neighbours_loop _ _ _ v) as [[l|e|f] w]; [|done|done]. destruct Hl as [Hw ?]. split; [done|]. split; [|done].
  by apply suffix_length in Hw.
Qed.

(** ** The invariant *)

Section logic.
Context (config_ : discv4Config) (keccak256 : list byte -> list byte) (context_created : bool).
Context `{SK : Secp256k1} `{AI : AsioIp} `{AL : !AsioIpLaws}.

Notation sign := (sign config_ keccak256 context_created).
Notation traffic := (list (list byte * udp_endpoint)).

(** A packet of type [t] signed with the client's key. *)
Definition own_packet (t : Z) (packet : list byte) : Prop :=
  exists payload, head payload = Some (byte_of t) /\ sign payload = success packet.

(** A packet of type [t] was handed to the socket for the endpoint with key [k]. *)
Definition sent_to (s : traffic) (t : Z) (k : string) (packet : list byte) : Prop :=
  exists ip port address, k = ep_key ip port /\ make_address ip = Some address /\ (packet, (address, port)) ∈ s /\ own_packet t packet.

(** A datagram of type [t] came from the endpoint with key [k]. *)
Definition got (r : traffic) (t : Z) (k : string) (data : list byte) : Prop :=
  exists sender, (data, sender) ∈ r /\ k = ep_key (address_to_string sender.1) sender.2 /\
  byte_at (Er := Empty_set) data kWirePacketTypeOffset = success (byte_of t).

(** A PONG that echoes [hash] came from [k]. *)
Definition ponged (r : traffic) (k : string) (hash : list byte) : Prop :=
  exists data pong, got r kPacketTypePong k data /\ pong_Parse data = success pong /\ pingHash pong = hash.

(** Why [k] is bonded: it sent a PING, or it answered a PING of ours with its hash. *)
Definition bond_evidence (s r : traffic) (k : string) : Prop :=
  (exists data, got r kPacketTypePing k data) \/
  (exists packet, sent_to s kPacketTypePing k packet /\ ponged r k (take (Z.to_nat kWireHashSize) packet)).

(** Why a peer is known: a node of a NEIGHBOURS packet of an endpoint that was asked. *)
Definition peer_evidence (s r : traffic) (p : DiscoveredPeer) : Prop :=
  exists k data packet nodes nb now, got r kPacketTypeNeighbours k data /\ sent_to s kPacketTypeFindNode k packet /\
  run_decoder read_neighbours (drop (Z.to_nat kWireHeaderSize) data) = success nodes /\ nb ∈ nodes /\
  nb_tcp nb <> 0 /\ p = peer_of nb now.

(** The peer that was found, with or without the fork id of its record. *)
Definition enriched (p q : DiscoveredPeer) : Prop := q = p \/ exists f, q = with_fork_id f p.

(** The ghost state: the endpoint and the hash of the PING a pong slot was made for. *)
Notation owners := (gmap nat (string * list byte)).
Definition world : Type := owners * Client.

Record Inv (w : world) : Prop := mkInv {
  inv_bonded k : k ∈ bonded_set_ w.2 -> bond_evidence (sent w.2) (received w.2) k;
  inv_pong k e : pending_replies_ w.2 !! (k +:+ type_suffix kPacketTypePong) = Some e ->
    exists s, pending_pong e = Some s /\ w.1 !! s = Some (k, expected_hash e);
  inv_find k e : pending_replies_ w.2 !! (k +:+ type_suffix kPacketTypeNeighbours) = Some e ->
    exists packet, sent_to (sent w.2) kPacketTypeFindNode k packet;
  inv_enr k e : pending_replies_ w.2 !! (k +:+ type_suffix kPacketTypeEnrResponse) = Some e -> is_Some (pending_enr e);
  inv_owner s k h : w.1 !! s = Some (k, h) ->
    (s < next_ref w.2)%nat /\
    (exists packet, sent_to (sent w.2) kPacketTypePing k packet /\ take (Z.to_nat kWireHashSize) packet = h) /\
    forall p, pong_slots w.2 !! s = Some p -> pong_expiration p <> 0 -> ponged (received w.2) k h;
  inv_peers k p : peers_ w.2 !! k = Some p -> k = node_key (node_id p) /\ peer_evidence (sent w.2) (received w.2) p;
  inv_reported_once : NoDup (peer_ep <$> reported w.2);
  inv_reported q : q ∈ reported w.2 -> peer_ep q ∈ discovered_set_ w.2 /\
    exists p, peer_evidence (sent w.2) (received w.2) p /\ enriched p q
}.

(** ** Evidence lasts *)

Definition rep (w : world) : list string := peer_ep <$> reported w.2.

Record mono (w w' : world) : Prop := mkMono {
  mono_owners : w.1 ⊆ w'.1;
  mono_sent : sent w.2 ⊆ sent w'.2;
  mono_received : received w.2 ⊆ received w'.2;
  mono_discovered : discovered_set_ w.2 ⊆ discovered_set_ w'.2
}.

(** What the others may do while a coroutine sleeps, and what it may do itself: only the
    holder of an endpoint's token reports it. *)
Definition Rely (tok : option string) (w w' : world) : Prop :=
  mono w w' /\ forall k, tok = Some k -> k ∈ rep w' -> k ∈ rep w.
Definition Guar (tok : option string) (w w' : world) : Prop :=
  mono w w' /\ forall k, k ∈ rep w' -> k ∈ rep w \/ tok = Some k.

#[export] Instance mono_preorder : PreOrder mono.
Proof.
  split; [by split|]. intros ??? [] []. split; by etrans.
Qed.
#[export] Instance Rely_preorder tok : PreOrder (Rely tok).
Proof.
  split; [split; [done|auto]|]. intros ??? [] []. split; [by etrans|]. auto.
Qed.
#[export] Instance Guar_preorder tok : PreOrder (Guar tok).
Proof.
  split; [split; [done|auto]|]. intros ??? [? H1] [? H2]. split; [by etrans|]. intros k [Hk|Hk]%H2; auto.
Qed.

Lemma Guar_Rely tok tok' w w' : Guar tok w w' -> (forall k, tok = Some k -> tok' <> Some k) -> Rely tok' w w'.
Proof. intros [Hm Hr] Hd. split; [done|]. intros k Hk Hin. destruct (Hr k Hin) as [|E]; [done|]. by destruct (Hd k E). Qed.

Lemma sent_to_mono s s' t k packet : s ⊆ s' -> sent_to s t k packet -> sent_to s' t k packet.
Proof. unfold sent_to. naive_solver. Qed.
Lemma got_mono r r' t k data : r ⊆ r' -> got r t k data -> got r' t k data.
Proof. unfold got. naive_solver. Qed.
Lemma ponged_mono r r' k h : r ⊆ r' -> ponged r k h -> ponged r' k h.
Proof. intros Hr (d & p & Hg & ?). exists d, p. split; [by eapply got_mono|done]. Qed.
Lemma bond_evidence_mono s s' r r' k : s ⊆ s' -> r ⊆ r' -> bond_evidence s r k -> bond_evidence s' r' k.
Proof.
  intros Hs Hr [[d Hd]|(p & Hp & Hq)]; [left|right]; [exists d; by eapply got_mono|].
  exists p. split; [by eapply sent_to_mono|by eapply ponged_mono].
Qed.
Lemma peer_evidence_mono s s' r r' p : s ⊆ s' -> r ⊆ r' -> peer_evidence s r p -> peer_evidence s' r' p.
Proof.
  intros Hs Hr (k & d & pk & nodes & nb & now & Hg & Ht & ?). exists k, d, pk, nodes, nb, now.
  split; [by eapply got_mono|]. split; [by eapply sent_to_mono|done].
Qed.

(** ** Weakest preconditions *)

(** [w0] is the world in which the current run began, [c] the client now. *)
Fixpoint wp {A} (tok : option string) (p : proc A) (Q : A -> world -> Client -> Prop) (w0 : world) (c : Client) : Prop :=
  match p with
  | Ret a => Q a w0 c
  | Get k => wp tok (k c) Q w0 c
  | Put c' p' => wp tok p' Q w0 c'
  | SendTo packet destination k => exists o1,
      let w1 := (o1, log_io [(packet, destination)] [] [] [] c) in
      Guar tok w0 w1 /\ Inv w1 /\ forall ec w, Rely tok w1 w -> Inv w -> wp tok (k ec) Q w w.2
  | WaitTimer t p' => exists o1,
      let w1 := (o1, set_waits ({[t]} ∪ waiting c) (woken c) c) in
      Guar tok w0 w1 /\ Inv w1 /\ forall w, Rely tok w1 w -> Inv w -> wp tok p' Q w w.2
  | Throw => False
  end.

Lemma wp_mono {A} tok (p : proc A) (Q Q' : A -> world -> Client -> Prop) w0 c :
  (forall a w c', Q a w c' -> Q' a w c') -> wp tok p Q w0 c -> wp tok p Q' w0 c.
Proof.
  intros HQ. revert w0 c. induction p as [a|k IH|c1 p IH|pk d k IH|t p IH|]; cbn; intros w0 c; auto.
  - intros (o1 & ? & ? & Hk). exists o1. split; [done|]. split; [done|]. intros ec w Hr Hi. apply IH. by apply Hk.
  - intros (o1 & ? & ? & Hk). exists o1. split; [done|]. split; [done|]. intros w Hr Hi. apply IH. by apply Hk.
Qed.

Lemma wp_bind {A B} tok (p : proc A) (k : A -> proc B) Q w0 c :
  wp tok p (fun a w c' => wp tok (k a) Q w c') w0 c -> wp tok (p ≫= k) Q w0 c.
Proof.
  change (p ≫= k) with (proc_bind k p).
  revert w0 c. induction p as [a|g IH|c1 p IH|pk d g IH|t p IH|]; cbn; intros w0 c; auto.
  - intros (o1 & ? & ? & Hk). exists o1. split; [done|]. split; [done|]. intros ec w Hr Hi. apply IH. by apply Hk.
  - intros (o1 & ? & ? & Hk). exists o1. split; [done|]. split; [done|]. intros w Hr Hi. apply IH. by apply Hk.
Qed.

(** A coroutine that reports nothing, started from and ended in the invariant. *)
Definition quiet {A} tok (Pre : Client -> Prop) (p : proc A) (Post : A -> Client -> Prop) : Prop :=
  forall Q w0 c, Guar tok w0 (w0.1, c) -> Inv (w0.1, c) -> Pre c ->
  (forall a w c', Rely tok (w0.1, c) (w.1, c') -> Guar tok w (w.1, c') -> Inv (w.1, c') -> Post a c' -> Q a w c') ->
  wp tok p Q w0 c.

Lemma quiet_bind {A B} tok (p : proc A) (k : A -> proc B) Pre P1 P2 :
  quiet tok Pre p P1 -> (forall a, quiet tok (P1 a) (k a) P2) -> quiet tok Pre (p ≫= k) P2.
Proof.
  intros Hp Hk Q w0 c Hg Hi Hpre HQ. apply wp_bind. apply Hp; [done|done|done|]. intros a w c' Hr Hg' Hi' Hpost.
  apply Hk; [done|done|done|]. intros b w2 c2 Hr2 Hg2 Hi2 Hb. apply HQ; [|done|done|done]. by etrans.
Qed.

Lemma quiet_ret {A} tok Pre (a : A) (Post : A -> Client -> Prop) : (forall c, Pre c -> Post a c) -> quiet tok Pre (Ret a) Post.
Proof. intros HP Q w0 c Hg Hi Hpre HQ. apply HQ; [done|done|done|auto]. Qed.

Lemma quiet_weaken {A} tok (Pre Pre' : Client -> Prop) (p : proc A) (Post Post' : A -> Client -> Prop) :
  quiet tok Pre p Post -> (forall c, Pre' c -> Pre c) -> (forall a c, Post a c -> Post' a c) -> quiet tok Pre' p Post'.
Proof. intros Hp H1 H2 Q w0 c Hg Hi Hpre HQ. apply Hp; auto. Qed.

Lemma quiet_get {A} tok Pre (k : Client -> proc A) Post :
  (forall c, quiet tok (fun c' => c' = c /\ Pre c) (k c) Post) -> quiet tok Pre (c ← get_client; k c) Post.
Proof. intros Hk Q w0 c Hg Hi Hpre HQ. cbn. by apply Hk. Qed.

(** A change of the client that keeps the traffic and the reports. *)
Record still (c c' : Client) : Prop := mkStill {
  still_sent : sent c' = sent c;
  still_received : received c' = received c;
  still_reported : reported c' = reported c;
  still_discovered : discovered_set_ c ⊆ discovered_set_ c'
}.

Lemma still_Rely tok o c c' : still c c' -> Rely tok (o, c) (o, c').
Proof.
  intros [Hs Hr Hp Hd]. split; [split; cbn; rewrite ?Hs, ?Hr; done|]. intros k _. unfold rep. cbn. by rewrite Hp.
Qed.
Lemma still_Guar tok o c c' : still c c' -> Guar tok (o, c) (o, c').
Proof.
  intros [Hs Hr Hp Hd]. split; [split; cbn; rewrite ?Hs, ?Hr; done|]. intros k Hk. left. revert Hk. unfold rep. cbn. by rewrite Hp.
Qed.

Lemma quiet_modify tok f Pre (Post : unit -> Client -> Prop) :
  (forall o c, Inv (o, c) -> Pre c -> Inv (o, f c) /\ still c (f c) /\ Post tt (f c)) -> quiet tok Pre (modify f) Post.
Proof.
  intros Hf Q w0 c Hg Hi Hpre HQ. cbn. destruct (Hf _ _ Hi Hpre) as (Hi' & Hs & Hp).
  apply HQ; [by apply still_Rely| |done|done]. etrans; [done|]. by apply still_Guar.
Qed.

(** ** Changes that keep the invariant *)

Lemma Inv_same o c c' : Inv (o, c) -> bonded_set_ c' ⊆ bonded_set_ c -> pending_replies_ c' ⊆ pending_replies_ c ->
  pong_slots c' = pong_slots c -> (next_ref c <= next_ref c')%nat -> peers_ c' = peers_ c -> still c c' -> Inv (o, c').
Proof.
  intros [] Hb Hp Hs Hn Hpe [E1 E2 E3 E4]. split; cbn [fst snd] in *; rewrite ?E1, ?E2, ?E3, ?Hpe, ?Hs; eauto.
  - intros k e Hk. by eapply inv_pong0, lookup_weaken.
  - intros k e Hk. by eapply inv_find0, lookup_weaken.
  - intros k e Hk. by eapply inv_enr0, lookup_weaken.
  - intros s k h Hk. destruct (inv_owner0 s k h Hk) as (? & ? & ?). split; [lia|]. auto.
  - intros q Hq. destruct (inv_reported0 q Hq). split; [set_solver|done].
Qed.

Lemma Inv_erase o c key : Inv (o, c) -> Inv (o, set_pending (delete key (pending_replies_ c)) c).
Proof. intros Hi. eapply Inv_same; [done|done|apply delete_subseteq|done|done|done|done]. Qed.

Lemma Inv_bond o c k : Inv (o, c) -> bond_evidence (sent c) (received c) k -> Inv (o, add_bonded k c).
Proof.
  intros [] He. split; cbn [fst snd add_bonded sent received bonded_set_ pending_replies_ pong_slots peers_ reported discovered_set_ next_ref] in *; eauto.
  intros k' Hk. apply elem_of_union in Hk as [->%elem_of_singleton|Hk]; auto.
Qed.

Lemma Inv_log_errors o c e : Inv (o, c) -> Inv (o, log_io [] [] [] e c) /\ still c (log_io [] [] [] e c).
Proof.
  intros Hi. assert (still c (log_io [] [] [] e c)) as Hs by (split; cbn; rewrite ?app_nil_r; done).
  split; [|done]. eapply Inv_same; [done|done|done|done|done|done|done].
Qed.

Lemma Inv_log_sent o c m : Inv (o, c) -> Inv (o, log_io m [] [] [] c).
Proof.
  intros []. assert (sent c ⊆ sent c ++ m) as Hm by set_solver.
  split; cbn [fst snd log_io sent received bonded_set_ pending_replies_ pong_slots peers_ reported discovered_set_ next_ref] in *; rewrite ?app_nil_r; auto.
  - intros k Hk. eapply bond_evidence_mono; eauto.
  - intros k e Hk. destruct (inv_find0 k e Hk) as [packet Hs]. exists packet. by eapply sent_to_mono.
  - intros s k h Hs. destruct (inv_owner0 s k h Hs) as (? & (pk & ? & ?) & ?). split; [done|]. split; [|done].
    exists pk. split; [by eapply sent_to_mono|done].
  - intros k p Hk. destruct (inv_peers0 k p Hk). split; [done|]. eapply peer_evidence_mono; eauto.
  - intros q Hq. destruct (inv_reported0 q Hq) as (? & p & ? & ?). split; [done|]. exists p. split; [|done].
    eapply peer_evidence_mono; eauto.
Qed.

Lemma Inv_fresh o c n : Inv (o, c) -> (next_ref c <= n)%nat -> o !! n = None.
Proof.
  intros Hi Hn. destruct (o !! n) as [[k h]|] eqn:E; [|done]. destruct (inv_owner _ Hi n k h E) as [Hl _]. cbn in Hl. lia.
Qed.

Lemma Inv_new_pong o c p : Inv (o, c) -> Inv (o, set_next (S (next_ref c)) (set_pong (next_ref c) p c)).
Proof.
  intros Hi. pose proof (Inv_fresh o c (next_ref c) Hi ltac:(lia)) as Hn. destruct Hi.
  split; cbn [fst snd set_next set_pong sent received bonded_set_ pending_replies_ pong_slots peers_ reported discovered_set_ next_ref] in *; auto.
  intros s k h Hs. destruct (inv_owner0 s k h Hs) as (? & ? & Hp). split; [lia|]. split; [done|].
  assert (s <> next_ref c) by congruence. intros q Hq. rewrite lookup_insert_ne in Hq by done. by apply Hp.
Qed.

Definition small t := 0 <= t < 10.

(** A new pending entry of type [t]. *)
Lemma pending_insert (m : gmap string PendingReply) k k' t t' e e' : small t -> small t' ->
  <[k +:+ type_suffix t := e]> m !! (k' +:+ type_suffix t') = Some e' ->
  (k' = k /\ t' = t /\ e' = e) \/ m !! (k' +:+ type_suffix t') = Some e'.
Proof.
  intros Ht Ht' Hl. apply lookup_insert_Some in Hl as [[Hk ->]|[_ Hl]]; [|auto].
  apply key_inj in Hk as [-> ->]; auto.
Qed.

Ltac pending_cases Hk := apply pending_insert in Hk as [(-> & ? & ->)|Hk]; [| |unfold small, kPacketTypePong, kPacketTypeNeighbours, kPacketTypeEnrResponse; lia ..].

Lemma Inv_register_pong o c k t s packet p :
  Inv (o, c) -> sent_to (sent c) kPacketTypePing k packet -> (s < next_ref c)%nat -> o !! s = None ->
  pong_slots c !! s = Some p -> pong_expiration p = 0 ->
  let hash := take (Z.to_nat kWireHashSize) packet in
  Inv (<[s := (k, hash)]> o,
       set_pending (<[k +:+ type_suffix kPacketTypePong := mkPending t (Some s) None hash]> (pending_replies_ c)) c).
Proof.
  intros [] Hs Hl Ho Hp Hz hash.
  split; cbn [fst snd set_pending sent received bonded_set_ pending_replies_ pong_slots peers_ reported discovered_set_ next_ref] in *; auto.
  - intros k' e Hk. pending_cases Hk; [exists s; by rewrite lookup_insert_eq|].
    destruct (inv_pong0 _ _ Hk) as (s' & ? & Hs'). exists s'. split; [done|]. rewrite lookup_insert_ne by congruence. done.
  - intros k' e Hk. pending_cases Hk; [done|eauto].
  - intros k' e Hk. pending_cases Hk; [done|eauto].
  - intros s' k' h' Hs'. apply lookup_insert_Some in Hs' as [[<- [= <- <-]]|[? Hs']]; [|auto].
    split; [done|]. split; [by exists packet|]. intros p' Hp' Hz'. congruence.
Qed.

Lemma Inv_register_find o c k e packet :
  Inv (o, c) -> sent_to (sent c) kPacketTypeFindNode k packet ->
  Inv (o, set_pending (<[k +:+ type_suffix kPacketTypeNeighbours := e]> (pending_replies_ c)) c).
Proof.
  intros [] Hs. split; cbn [fst snd set_pending sent received bonded_set_ pending_replies_ pong_slots peers_ reported discovered_set_ next_ref] in *; auto;
    intros k' e' Hk; pending_cases Hk; eauto; done.
Qed.

Lemma Inv_register_enr o c k e :
  Inv (o, c) -> is_Some (pending_enr e) ->
  Inv (o, set_pending (<[k +:+ type_suffix kPacketTypeEnrResponse := e]> (pending_replies_ c)) c).
Proof.
  intros [] Hs. split; cbn [fst snd set_pending sent received bonded_set_ pending_replies_ pong_slots peers_ reported discovered_set_ next_ref] in *; auto;
    intros k' e' Hk; pending_cases Hk; eauto; done.
Qed.

(** ** Coroutines *)

(** The common end of the three requests: send, wait, erase. *)
Lemma wp_exchange {A} tok key t packet d (fin err : proc A) Q w0 c o1 :
  let w1 := (o1, log_io [(packet, d)] [] [] [] c) in
  Guar tok w0 w1 -> Inv w1 ->
  (forall w c', Rely tok w1 (w.1, c') -> Guar tok w (w.1, c') -> Inv (w.1, c') -> wp tok fin Q w c' /\ wp tok err Q w c') ->
  wp tok (send_result ← send_packet packet d;
          match send_result with
          | success _ => WaitTimer t (Ret tt) ;; erase key ;; fin
          | _ => erase key ;; err
          end) Q w0 c.
Proof.
  intros w1 Hg Hi Hk. cbn. exists o1. split; [done|]. split; [done|]. intros [message|] w Hr Hw; cbn.
  - set (c2 := if error_callback_ w.2 then _ else _).
    assert (Inv (w.1, c2) /\ still w.2 c2) as [Hi2 Hs2].
    { unfold c2. destruct w as [o c']. cbn [fst snd] in *. destruct (error_callback_ c'); [by apply Inv_log_errors|done]. }
    apply Hk; [| |by apply Inv_erase].
    + etrans; [exact Hr|]. destruct w as [o c']. cbn [fst snd] in *. etrans; [by apply (still_Rely _ _ _ c2)|]. by apply still_Rely.
    + destruct w as [o c']. cbn [fst snd] in *. etrans; [by apply (still_Guar _ _ _ c2)|]. by apply still_Guar.
  - destruct w as [o c']. cbn [fst snd] in *. exists o. split; [by apply still_Guar|].
    assert (Inv (o, set_waits ({[t]} ∪ waiting c') (woken c') c')) as Hi2 by (eapply Inv_same; done).
    split; [done|]. intros [o2 c2] Hr2 Hi3. cbn [fst snd]. apply Hk; [|by apply still_Guar|by apply Inv_erase].
    etrans; [exact Hr|]. etrans; [by apply (still_Rely _ _ _ (set_waits ({[t]} ∪ waiting c') (woken c') c'))|].
    etrans; [exact Hr2|]. by apply still_Rely.
Qed.

Lemma typed_payload_head t b : typed_payload t b <> [] -> head (typed_payload t b) = Some (byte_of t).
Proof. by destruct b. Qed.

Lemma sent_to_last s ip port address packet t : make_address ip = Some address -> own_packet t packet ->
  sent_to (s ++ [(packet, (address, port))]) t (ep_key ip port) packet.
Proof. intros Ha Hp. exists ip, port, address. split; [done|]. split; [done|]. split; [set_solver|done]. Qed.

Section steps.
Context {A : Type} (tok : option string) (Q : A -> world -> Client -> Prop) (w0 : world) (c : Client).

Definition timed (c : Client) : Client := set_next (S (next_ref c)) (set_timer (next_ref c) (steady c + ping_timeout config_) c).

Lemma wp_new_timer k : wp tok (k (next_ref c)) Q w0 (timed c) -> wp tok (t ← new_timer config_; k t) Q w0 c.
Proof. done. Qed.
Lemma wp_new_pong_slot k :
  wp tok (k (next_ref c)) Q w0 (set_next (S (next_ref c)) (set_pong (next_ref c) pong_default c)) -> wp tok (s ← new_pong_slot; k s) Q w0 c.
Proof. done. Qed.
Lemma wp_new_enr_slot k :
  wp tok (k (next_ref c)) Q w0 (set_next (S (next_ref c)) (set_enr (next_ref c) (mkEnrResponse (replicate 32 x00) []) c)) ->
  wp tok (s ← new_enr_slot; k s) Q w0 c.
Proof. done. Qed.
Lemma wp_register key e k : wp tok (k tt) Q w0 (set_pending (<[key := e]> (pending_replies_ c)) c) -> wp tok (u ← register key e; k u) Q w0 c.
Proof. done. Qed.
Lemma wp_destination ip port address k : make_address ip = Some address ->
  wp tok (k (address, port)) Q w0 c -> wp tok (d ← destination_of ip port; k d) Q w0 c.
Proof. unfold destination_of. by intros ->. Qed.
End steps.

Lemma timed_still tok o c : still c (timed c) /\ (Inv (o, c) -> Inv (o, timed c)) /\ Rely tok (o, c) (o, timed c).
Proof.
  assert (still c (timed c)) as Hs by done. split; [done|]. split; [|by apply still_Rely].
  intros Hi. eapply Inv_same; [done|done|done|done|cbn; lia|done|done].
Qed.

Lemma app_subseteq {B} (l m : list B) : l ⊆ l ++ m.
Proof. intros x Hx. apply elem_of_app. by left. Qed.

(** What sending a request adds to the run so far. *)
Lemma send_Guar tok w0 o o1 c c1 m : Guar tok w0 (o, c) -> still c c1 -> o ⊆ o1 -> Guar tok w0 (o1, log_io m [] [] [] c1).
Proof.
  intros Hg [Hs Hr Hp Hd] Ho. etrans; [done|]. split; [split; cbn; [done|rewrite Hs; apply app_subseteq|rewrite Hr; apply app_subseteq|done]|].
  intros k Hk. left. revert Hk. unfold rep. cbn. by rewrite app_nil_r, Hp.
Qed.
Lemma send_Rely tok o o1 c c1 m : still c c1 -> o ⊆ o1 -> Rely tok (o, c) (o1, log_io m [] [] [] c1).
Proof.
  intros [Hs Hr Hp Hd] Ho. split; [split; cbn; [done|rewrite Hs; apply app_subseteq|rewrite Hr; apply app_subseteq|done]|].
  intros k _. unfold rep. cbn. by rewrite app_nil_r, Hp.
Qed.

Lemma quiet_ping tok ip port : make_address ip <> None ->
  quiet tok (fun _ => True) (ping config_ keccak256 context_created ip port)
    (fun r c => forall p, r = success p -> bond_evidence (sent c) (received c) (ep_key ip port)).
Proof.
  intros Ha. destruct (make_address ip) as [address|] eqn:Ea; [|done]. apply quiet_get. intros c.
  destruct (running_ c); [|apply quiet_ret; by intros ? _ ? [=]]. cbn [negb].
  set (payload := ping_payload _ _ _). destruct (bool_decide (payload = [])) eqn:Hn; [apply quiet_ret; by intros ? _ ? [=]|].
  apply bool_decide_eq_false in Hn. assert (head payload = Some (byte_of kPacketTypePing)) as Hh by by apply typed_payload_head.
  clearbody payload.
  destruct (sign payload) as [packet|e|f] eqn:Es; [|apply quiet_ret; by intros ? _ ? [=]|apply quiet_ret; by intros ? _ ? [=]].
  assert (own_packet kPacketTypePing packet) as Hown by by exists payload.
  intros Q w0 c' Hg Hi [-> _] HQ. rewrite reply_key_split.
  set (hash := take _ packet). set (k := ep_key ip port). destruct (timed_still tok w0.1 c) as (Hst & Hit & _).
  apply wp_new_timer, wp_new_pong_slot, wp_register, (wp_destination _ _ _ _ _ _ address); [done|].
  set (s := next_ref (timed c)). set (c1 := set_pending _ _).
  assert (w0.1 !! s = None) as Hfresh by (apply (Inv_fresh _ (timed c)); [auto|lia]).
  assert (w0.1 ⊆ <[s := (k, hash)]> w0.1) as Hsub by by apply insert_subseteq.
  assert (still c c1) as Hs1 by done.
  assert (Inv (<[s := (k, hash)]> w0.1, log_io [(packet, (address, port))] [] [] [] c1)) as Hi1.
  { pose proof (Inv_log_sent _ _ [(packet, (address, port))] (Inv_new_pong _ _ pong_default (Hit Hi))) as Hi2.
    refine (Inv_register_pong _ _ k (next_ref c) s packet pong_default Hi2 _ _ Hfresh _ _); [|cbn; lia|by apply lookup_insert_eq|done].
    by apply sent_to_last. }
  apply (wp_exchange _ _ _ _ _ _ _ _ _ _ (<[s := (k, hash)]> w0.1)); [by eapply send_Guar|done|].
  intros w c2 Hr2 Hg2 Hi2. assert (Rely tok (w0.1, c) (w.1, c2)) as Hr by (etrans; [|exact Hr2]; by apply send_Rely).
  split; [|apply HQ; [done|done|done|by intros ? [=]]]. cbn [wp mbind proc_MBind proc_bind get_client].
  assert (w.1 !! s = Some (k, hash)) as Hw.
  { destruct Hr2 as [[Ho _ _ _] _]. cbn [fst] in Ho. eapply lookup_weaken; [|exact Ho]. apply lookup_insert_eq. }
  destruct (Z.eqb_spec (pong_expiration (default pong_default (pong_slots c2 !! s))) 0) as [|Hz]; cbn [negb];
    [apply HQ; [done|done|done|by intros ? [=]]|].
  assert (bond_evidence (sent c2) (received c2) k) as He.
  { right. destruct (inv_owner _ Hi2 s k hash Hw) as (_ & (pk & Hpk & Hh') & Hp). cbn [snd] in *. exists pk. rewrite Hh'. split; [done|].
    destruct (pong_slots c2 !! s) as [p|]; [|done]. by apply (Hp p). }
  apply HQ; [|etrans; [done|by apply still_Guar]|by apply Inv_bond|].
  - etrans; [done|]. by apply still_Rely.
  - by intros p _.
Qed.

Lemma quiet_ensure_bond tok ip port : make_address ip <> None ->
  quiet tok (fun _ => True) (ensure_bond config_ keccak256 context_created ip port) (fun _ _ => True).
Proof.
  intros Ha. apply quiet_get. intros c. destruct (bool_decide _); [by apply quiet_ret|].
  eapply quiet_bind; [eapply quiet_weaken; [by apply quiet_ping|done|done]|].
  intros [p|e|f]; [|by apply quiet_ret|by apply quiet_ret]. apply quiet_modify. intros o c' Hi He.
  split; [apply Inv_bond; [done|by eapply He]|done].
Qed.

Lemma quiet_find_node tok ip port target : make_address ip <> None ->
  quiet tok (fun _ => True) (find_node config_ keccak256 context_created ip port target) (fun _ _ => True).
Proof.
  intros Ha. apply quiet_get. intros c0. destruct (running_ c0); [|by apply quiet_ret]. cbn [negb].
  apply (quiet_bind _ _ _ _ (fun _ _ => True)); [eapply quiet_weaken; [by apply quiet_ensure_bond|done|done]|]. intros _. apply quiet_get. intros c.
  destruct (make_address ip) as [address|] eqn:Ea; [|done].
  set (payload := find_node_payload _ _). destruct (bool_decide (payload = [])) eqn:Hn; [by apply quiet_ret|].
  apply bool_decide_eq_false in Hn. assert (head payload = Some (byte_of kPacketTypeFindNode)) as Hh by by apply typed_payload_head.
  clearbody payload. destruct (sign payload) as [packet|e|f] eqn:Es; [|by apply quiet_ret|by apply quiet_ret].
  assert (own_packet kPacketTypeFindNode packet) as Hown by by exists payload.
  intros Q w0 c' Hg Hi (-> & _) HQ. rewrite reply_key_split. destruct (timed_still tok w0.1 c) as (Hst & Hit & _).
  apply wp_new_timer, wp_register, (wp_destination _ _ _ _ _ _ address); [done|]. set (c1 := set_pending _ _).
  assert (Inv (w0.1, log_io [(packet, (address, port))] [] [] [] c1)) as Hi1.
  { refine (Inv_register_find _ _ (ep_key ip port) _ packet (Inv_log_sent _ _ [(packet, (address, port))] (Hit Hi)) _). by apply sent_to_last. }
  refine (wp_exchange _ _ _ _ _ (Ret tt) (Ret tt) _ _ _ w0.1 _ Hi1 _); [by eapply send_Guar|].
  intros w c2 Hr2 Hg2 Hi2. assert (Rely tok (w0.1, c) (w.1, c2)) as Hr by (etrans; [|exact Hr2]; by apply send_Rely).
  split; by apply HQ.
Qed.

Lemma quiet_request_enr tok ip port : make_address ip <> None ->
  quiet tok (fun _ => True) (request_enr config_ keccak256 context_created ip port) (fun _ _ => True).
Proof.
  intros Ha. apply quiet_get. intros c. destruct (running_ c); [|by apply quiet_ret]. cbn [negb].
  destruct (make_address ip) as [address|] eqn:Ea; [|done].
  set (payload := enr_request_payload _). destruct (bool_decide (payload = [])) eqn:Hn; [by apply quiet_ret|]. clearbody payload.
  destruct (sign payload) as [packet|e|f] eqn:Es; [|by apply quiet_ret|by apply quiet_ret].
  intros Q w0 c' Hg Hi [-> _] HQ. rewrite reply_key_split. destruct (timed_still tok w0.1 c) as (Hst & Hit & _).
  apply wp_new_timer, wp_new_enr_slot, wp_register, (wp_destination _ _ _ _ _ _ address); [done|]. set (c1 := set_pending _ _).
  assert (Inv (w0.1, log_io [(packet, (address, port))] [] [] [] c1)) as Hi1.
  { apply Inv_log_sent. apply Inv_register_enr; [|done]. eapply Inv_same; [exact (Hit Hi)|done|done|done|cbn; lia|done|done]. }
  apply (wp_exchange _ _ _ _ _ _ _ _ _ _ w0.1); [by eapply send_Guar|done|].
  intros w c2 Hr2 Hg2 Hi2. assert (Rely tok (w0.1, c) (w.1, c2)) as Hr by (etrans; [|exact Hr2]; by apply send_Rely).
  split; [cbn; destruct (negb _)|]; by apply HQ.
Qed.

(** ** Tasks *)

(** A coroutine that ends in the invariant. *)
Definition finished {A} (a : A) (w0 : world) (c : Client) (tok : option string) : Prop :=
  exists o, Guar tok w0 (o, c) /\ Inv (o, c).

Definition wp_task (tok : option string) (p : proc unit) (w : world) : Prop :=
  wp tok p (fun a w0 c => finished a w0 c tok) w w.2.

Definition task_ok (w : world) (tok : option string) (st : status) : Prop :=
  match st with
  | Ready p => forall w', Rely tok w w' -> Inv w' -> wp_task tok p w'
  | Suspended (SendTo _ _ k) => forall ec w', Rely tok w w' -> Inv w' -> wp_task tok (k ec) w'
  | Suspended (WaitTimer _ k) => forall w', Rely tok w w' -> Inv w' -> wp_task tok k w'
  | Suspended (Ret _) => True
  | Suspended _ => False
  end.

Lemma task_ok_Rely w w' tok st : Rely tok w w' -> task_ok w tok st -> task_ok w' tok st.
Proof.
  intros Hr. destruct st as [p|[a|k|c p|pk d k|t p|]]; cbn; try done; intros Hk; intros; apply Hk; try done; by etrans.
Qed.

Lemma quiet_task tok p : quiet tok (fun _ => True) p (fun _ _ => True) -> forall w, Inv w -> wp_task tok p w.
Proof.
  intros Hq [o c] Hi. apply Hq; [done|done|done|]. intros a w c' _ Hg Hi' _. by exists w.1.
Qed.

Lemma quiet_pong_task tok ip port packet : make_address ip <> None ->
  quiet tok (fun _ => True) (pong_task config_ keccak256 context_created ip port packet) (fun _ _ => True).
Proof.
  intros Ha Q w0 c Hg Hi _ HQ. destruct (make_address ip) as [address|] eqn:Ea; [|done].
  apply (wp_destination _ _ _ _ _ _ address); [done|]. cbn. exists w0.1. split; [by eapply send_Guar|].
  split; [by apply Inv_log_sent|]. intros [message|] [o c'] Hr Hi'; cbn [wp fst snd proc_bind mbind proc_MBind modify mret proc_MRet].
  - assert (Rely tok (w0.1, c) (o, c')) as Hr' by (etrans; [|exact Hr]; by apply send_Rely).
    assert (Inv (o, if error_callback_ c' then log_io [] [] [] ["Send error: " +:+ message] c' else c') /\
            still c' (if error_callback_ c' then log_io [] [] [] ["Send error: " +:+ message] c' else c')) as [Hi2 Hs2].
    { destruct (error_callback_ c'); [by apply Inv_log_errors|done]. }
    apply HQ; [etrans; [done|]; by apply still_Rely|by apply still_Guar|done|done].
  - eapply quiet_find_node; [by rewrite Ea|done|done|done|]. intros a w c2 Hr2 Hg2 Hi2 _. apply HQ; [|done|done|done].
    etrans; [|etrans; [exact Hr|done]]. by apply send_Rely.
Qed.

Lemma Inv_report o c p q : Inv (o, c) -> peer_ep q ∉ rep (o, c) -> peer_ep q ∈ discovered_set_ c ->
  peer_evidence (sent c) (received c) p -> enriched p q -> Inv (o, log_io [] [] [q] [] c).
Proof.
  intros [] Hn Hd He Hq. unfold rep in Hn.
  split; cbn [fst snd log_io sent received bonded_set_ pending_replies_ pong_slots peers_ reported discovered_set_ next_ref] in *; rewrite ?app_nil_r; auto.
  - rewrite fmap_app. apply NoDup_app. split; [done|]. split; [|apply NoDup_singleton].
    intros k Hk ->%list_elem_of_singleton. done.
  - intros q' [Hq'| ->%list_elem_of_singleton]%elem_of_app; [auto|]. split; [done|]. by exists p.
Qed.

Lemma enriched_ep p q : enriched p q -> peer_ep q = peer_ep p.
Proof. by intros [->|[f ->]]. Qed.

Lemma wp_neighbour_task peer w : make_address (peer_ip peer) <> None -> Inv w ->
  peer_ep peer ∉ rep w -> peer_ep peer ∈ discovered_set_ w.2 -> peer_evidence (sent w.2) (received w.2) peer ->
  wp_task (Some (peer_ep peer)) (neighbour_task config_ keccak256 context_created peer) w.
Proof.
  destruct w as [o c]. cbn [snd]. intros Ha Hi Hn Hd He. set (tok := Some (peer_ep peer)). unfold wp_task, neighbour_task.
  apply wp_bind. apply quiet_ensure_bond; [done|done|done|done|]. intros _ w1 c1 Hr1 Hg1 Hi1 _.
  apply wp_bind. apply quiet_request_enr; [done|done|done|done|]. intros r w2 c2 Hr2 Hg2 Hi2 _.
  set (q := match r with success _ => _ | _ => _ end).
  assert (enriched peer q) as Hq.
  { unfold q. destruct r as [r|e|f]; [|by left|by left]. destruct (ParseEthForkId r) as [f|e|f]; [right; by exists f|by left|by left]. }
  assert (Rely tok (o, c) (w2.1, c2)) as [[Ho Hs Hr Hd'] Hrep] by (etrans; [exact Hr1|exact Hr2]). cbn [fst snd] in *.
  apply wp_bind. cbn [wp modify].
  assert (forall c3, Guar tok w2 (w2.1, c3) -> Inv (w2.1, c3) ->
    wp tok (find_node config_ keccak256 context_created (peer_ip peer) (udp_port peer) (node_id peer)) (fun a w0 c => finished a w0 c tok) w2 c3) as Hfin.
  { intros c3 Hg3 Hi3. apply quiet_find_node; [done|done|done|done|]. intros a w c' _ Hg Hi' _. by exists w.1. }
  destruct (peer_callback_ c2); apply Hfin; [|..|done|done].
  - etrans; [exact Hg2|]. split; [split; cbn; rewrite ?app_nil_r; done|]. intros k. unfold rep. cbn. rewrite fmap_app.
    intros [Hk| ->%list_elem_of_singleton]%elem_of_app; [by left|right]. unfold tok. by rewrite (enriched_ep _ _ Hq).
  - apply (Inv_report _ _ peer); [done| | |by eapply peer_evidence_mono|done]; rewrite (enriched_ep _ _ Hq); [|by apply Hd'].
    intros Hin. apply Hn. by apply Hrep.
Qed.

(** ** Nodes *)

Record node_inv (n : Node) (o : owners) (toks : list (option string)) : Prop := mkNodeInv {
  node_Inv : Inv (o, client n);
  node_tasks : Forall2 (task_ok (o, client n)) toks (tasks n);
  node_toks i j k : toks !! i = Some (Some k) -> toks !! j = Some (Some k) -> i = j;
  node_found k : Some k ∈ toks -> k ∈ discovered_set_ (client n)
}.
Definition node_ok (n : Node) : Prop := exists o toks, node_inv n o toks.

(** A handler's change of the client. *)
Lemma node_inv_client n o toks c' l : node_inv n o toks -> Inv (o, c') -> Guar None (o, client n) (o, c') ->
  node_inv (mkNode c' (tasks n) l) o toks.
Proof.
  intros [Hi Ht Hn Hf] Hi' Hg. split; cbn; [done| |done|].
  - eapply Forall2_impl; [done|]. intros tok st. apply task_ok_Rely. by eapply Guar_Rely.
  - intros k Hk. destruct Hg as [[_ _ _ Hd] _]. apply Hd. by apply Hf.
Qed.

Lemma node_inv_spawn n o toks tok p l : node_inv n o toks -> task_ok (o, client n) tok (Ready p) ->
  (forall k, tok = Some k -> Some k ∉ toks /\ k ∈ discovered_set_ (client n)) ->
  node_inv (mkNode (client n) (tasks n ++ [Ready p]) l) o (toks ++ [tok]).
Proof.
  intros [Hi Ht Hn Hf] Hp Htok. split; cbn; [done| | |].
  - apply Forall2_app; [done|]. by constructor.
  - intros i j k Hi1 Hj1.
    apply lookup_app_Some in Hi1 as [Hi1|[Hi0 Hi1]]; apply lookup_app_Some in Hj1 as [Hj1|[Hj0 Hj1]]; [by eapply Hn|..].
    + apply list_lookup_singleton_Some in Hj1 as [_ ->]. apply list_elem_of_lookup_2 in Hi1. by destruct (Htok k eq_refl).
    + apply list_lookup_singleton_Some in Hi1 as [_ ->]. apply list_elem_of_lookup_2 in Hj1. by destruct (Htok k eq_refl).
    + apply list_lookup_singleton_Some in Hi1 as [? _]. apply list_lookup_singleton_Some in Hj1 as [? _]. lia.
  - intros k [Hk|Hk%list_elem_of_singleton]%elem_of_app; [by apply Hf|]. by apply Htok.
Qed.

(** A run of task [i]. *)
Lemma wp_run tok p : forall w0 c, wp tok p (fun a w0 c => finished a w0 c tok) w0 c ->
  exists o', Guar tok w0 (o', (run p c).1) /\ Inv (o', (run p c).1) /\ task_ok (o', (run p c).1) tok (Suspended (run p c).2).
Proof.
  induction p as [a|k IH|c1 p IH|pk d k IH|t p IH|]; cbn [wp run fst snd]; intros w0 c Hp.
  - destruct Hp as (o & ? & ?). by exists o.
  - by apply IH.
  - by apply IH.
  - destruct Hp as (o & ? & ? & Hk). exists o. split; [done|]. split; [done|]. cbn. intros ec w' Hr Hi. by apply Hk.
  - destruct Hp as (o & ? & ? & Hk). exists o. split; [done|]. split; [done|]. cbn. intros w' Hr Hi. by apply Hk.
  - done.
Qed.

Lemma node_ok_resume n o toks i tok st p : node_inv n o toks -> tasks n !! i = Some st -> toks !! i = Some tok ->
  wp_task tok p (o, client n) -> node_ok (resume i p n).
Proof.
  intros [Hi Ht Hn Hf] Hst Htok Hp. destruct (wp_run tok p _ _ Hp) as (o' & Hg & Hi' & Hk). cbn [snd] in *.
  unfold resume. destruct (run p (client n)) as [c' p']. cbn [fst snd] in *. exists o', toks. split; cbn; [done| |done|].
  - apply Forall2_lookup. intros j. destruct (decide (j = i)) as [->|Hji].
    + rewrite Htok, list_lookup_insert_eq by (by eapply lookup_lt_Some). by constructor.
    + rewrite list_lookup_insert_ne by done. pose proof (proj1 (Forall2_lookup _ _ _) Ht j) as Hj.
      destruct (toks !! j) as [tok'|] eqn:Ej; inversion Hj as [? st' Hok E1 E2|]; subst; constructor.
      eapply task_ok_Rely; [|done]. eapply Guar_Rely; [done|]. intros k -> ->. apply Hji. by eapply Hn.
  - intros k Hk'. destruct Hg as [[_ _ _ Hd] _]. apply Hd. by apply Hf.
Qed.

(** ** Handlers *)

Definition handles (m : H unit) (n : Node) : Prop := exists n', m n = (success tt, n') /\ node_ok n'.

Lemma handles_ret n : node_ok n -> handles (mret tt) n.
Proof. intros Hn. by exists n. Qed.

Lemma handles_bind {A} (m : H A) (k : A -> H unit) a n n1 : m n = (success a, n1) -> handles (k a) n1 -> handles (m ≫= k) n.
Proof. intros E (n' & Hk & Hn). exists n'. split; [|done]. unfold mbind, M_bind. by rewrite E. Qed.

Lemma handles_seq (m k : H unit) n : handles m n -> (forall n', node_ok n' -> handles k n') -> handles (m ;; k) n.
Proof. intros (n1 & E & Hn) Hk. eapply handles_bind; [done|]. auto. Qed.

(** A silent change. *)
Lemma node_ok_silent n f l : (forall o c, Inv (o, c) -> Inv (o, f c) /\ still c (f c)) ->
  node_ok n -> node_ok (mkNode (f (client n)) (tasks n) l).
Proof.
  intros Hf (o & toks & Hn). exists o, toks. destruct (Hf o (client n) (node_Inv _ _ _ Hn)) as [Hi Hs].
  apply (node_inv_client n); [done|done|by apply still_Guar].
Qed.

Lemma handles_silent f n : (forall o c, Inv (o, c) -> Inv (o, f c) /\ still c (f c)) -> node_ok n -> handles (update f) n.
Proof. intros Hf Hn. eexists. split; [done|]. by apply node_ok_silent. Qed.

Lemma cancel_silent t o c : Inv (o, c) -> Inv (o, cancel t c) /\ still c (cancel t c).
Proof. intros Hi. unfold cancel. destruct (bool_decide _); [|done]. split; [by eapply Inv_same|done]. Qed.

Lemma error_silent msg o c : Inv (o, c) ->
  Inv (o, if error_callback_ c then log_io [] [] [] msg c else c) /\ still c (if error_callback_ c then log_io [] [] [] msg c else c).
Proof. intros Hi. destruct (error_callback_ c); [by apply Inv_log_errors|done]. Qed.

Lemma got_packet n data sender t b : (data, sender) ∈ received (client n) ->
  byte_at (Er := Empty_set) data kWirePacketTypeOffset = success b -> u8 b = t ->
  got (received (client n)) t (ep_key (address_to_string sender.1) sender.2) data.
Proof. intros Hr Hb <-. exists sender. split; [done|]. split; [done|]. by rewrite byte_of_u8. Qed.

Section receiving.
Context (n : Node) (data : list byte) (sender : udp_endpoint).
Context (Hn : node_ok n) (Hsender : Zlen sender.1 = kIPv4Size) (Hfits : fits data).
Let key := ep_key (address_to_string sender.1) sender.2.

Lemma sender_address : make_address (address_to_string sender.1) <> None.
Proof. rewrite address_to_string_v4 by done. by rewrite make_address_dotted. Qed.

Lemma handle_ping_ok : got (received (client n)) kPacketTypePing key data ->
  handles (handle_ping config_ keccak256 context_created data sender) n.
Proof.
  intros Hgot. unfold handle_ping. destruct (_ <? _); [by apply handles_ret|]. eapply handles_bind; [done|].
  set (payload := pong_payload _ _ _). destruct (bool_decide _); [by apply handles_ret|].
  destruct (Discv4Client.sign _ _ _ payload) as [packet|e|f]; [|by apply handles_ret|by apply handles_ret].
  destruct Hn as (o & toks & Hni). pose proof (node_Inv _ _ _ Hni) as Hi.
  eexists. split; [done|]. exists o, (toks ++ [None]). cbn [client tasks listening].
  set (n1 := mkNode (add_bonded key (client n)) (tasks n) (listening n)).
  assert (node_inv n1 o toks) as Hn1.
  { apply (node_inv_client n); [done| |by apply still_Guar]. apply Inv_bond; [done|]. left. by exists data. }
  apply (node_inv_spawn n1); [done| |done]. intros w' Hr Hw. apply quiet_task; [|done].
  apply quiet_pong_task, sender_address.
Qed.

Lemma handle_pong_ok : got (received (client n)) kPacketTypePong key data -> handles (handle_pong data sender) n.
Proof.
  intros Hgot. unfold handle_pong. destruct (_ <? _); [by apply handles_ret|].
  pose proof (pong_Parse_safe data Hfits) as Hs. destruct (pong_Parse data) as [pong|e|f] eqn:Ep; [|by apply handles_ret|done].
  eapply handles_bind; [done|]. rewrite reply_key_split. fold key.
  destruct (pending_replies_ (client n) !! _) as [entry|] eqn:El; [|by apply handles_ret].
  destruct (decide (pingHash pong = expected_hash entry)) as [Hh|]; [|rewrite bool_decide_eq_false_2 by done; by apply handles_ret].
  rewrite bool_decide_eq_true_2 by done. cbn [negb]. destruct Hn as (o & toks & Hni). pose proof (node_Inv _ _ _ Hni) as Hi.
  destruct (inv_pong _ Hi key entry El) as (s & -> & Ho). cbn [fst] in Ho.
  apply handles_seq; [|intros n' Hn'; apply handles_silent; [intros; by apply cancel_silent|done]].
  eexists. split; [done|]. exists o, toks. apply (node_inv_client n); [done| |by apply still_Guar].
  destruct Hi. split; cbn [fst snd set_pong sent received bonded_set_ pending_replies_ pong_slots peers_ reported discovered_set_ next_ref] in *; auto.
  intros s' k' h' Hs'. destruct (inv_owner0 s' k' h' Hs') as (? & ? & Hp). split; [done|]. split; [done|].
  intros p' [[<- <-]|[? Hp']]%lookup_insert_Some Hz; [|by apply (Hp p')].
  assert (k' = key /\ h' = expected_hash entry) as [-> ->] by (split; congruence). by exists data, pong.
Qed.

Lemma handle_enr_response_ok : handles (handle_enr_response data sender) n.
Proof.
  unfold handle_enr_response. destruct (_ <? _); [by apply handles_ret|].
  pose proof (enr_response_Parse_safe data Hfits) as Hs. destruct (enr_response_Parse data) as [r|e|f] eqn:Ep; [|by apply handles_ret|done].
  eapply handles_bind; [done|]. rewrite reply_key_split. fold key.
  destruct (pending_replies_ (client n) !! _) as [entry|] eqn:El; [|by apply handles_ret].
  destruct (bool_decide _); [|by apply handles_ret]. cbn [negb].
  assert (is_Some (pending_enr entry)) as [s ->].
  { destruct Hn as (o & toks & Hni). by apply (inv_enr _ (node_Inv _ _ _ Hni) key entry). }
  apply handles_seq; [|intros n' Hn'; apply handles_silent; [intros; by apply cancel_silent|done]].
  apply handles_silent; [|done]. intros o c Hi. split; [by eapply Inv_same|done].
Qed.

(** One node of the packet: the traffic stays, so the evidence for the next nodes does. *)
Lemma add_neighbour_ok nb m : node_ok m -> wf_neighbour nb ->
  (nb_tcp nb <> 0 -> forall now, peer_evidence (sent (client m)) (received (client m)) (peer_of nb now)) ->
  exists m', add_neighbour config_ keccak256 context_created nb m = (success tt, m') /\ node_ok m' /\
    sent (client m') = sent (client m) /\ received (client m') = received (client m).
Proof.
  intros Hm (Hip & _) He. unfold add_neighbour. destruct (Z.eqb_spec (nb_tcp nb) 0) as [|Ht]; [by exists m|]. specialize (He Ht).
  rewrite (bind_success client_of _ m (client m) m eq_refl). cbn zeta. set (peer := peer_of nb (steady (client m))).
  set (c1 := set_peers (<[node_key (node_id peer) := peer]> (peers_ (client m))) (client m)).
  set (m1 := mkNode c1 (tasks m) (listening m)). rewrite (bind_success (update (fun c => set_peers (<[node_key (node_id peer) := peer]> (peers_ c)) c)) _ m tt m1 eq_refl). cbn zeta.
  destruct Hm as (o & toks & Hni). pose proof (node_Inv _ _ _ Hni) as Hi.
  assert (Inv (o, c1)) as Hi1.
  { destruct Hi. split; cbn [fst snd c1 set_peers sent received bonded_set_ pending_replies_ pong_slots peers_ reported discovered_set_ next_ref] in *; auto.
    intros k p [[<- <-]|[? Hp]]%lookup_insert_Some; [split; [done|apply He]|auto]. }
  assert (node_inv m1 o toks) as Hn1 by (apply (node_inv_client m); [done|done|by apply still_Guar]).
  change (ep_key _ _) with (peer_ep peer).
  destruct (running_ (client m) && _) eqn:Hg; [|exists m1; split; [done|]; split; [by exists o, toks|done]].
  apply andb_true_iff in Hg as [_ Hg]. apply negb_true_iff, bool_decide_eq_false in Hg.
  eexists. split; [done|]. split; [|done]. exists o, (toks ++ [Some (peer_ep peer)]).
  set (m2 := mkNode (add_discovered (peer_ep peer) c1) (tasks m) (listening m)).
  assert (still c1 (add_discovered (peer_ep peer) c1)) as Hs by (split; cbn; [done|done|done|set_solver]).
  assert (node_inv m2 o toks) as Hn2.
  { apply (node_inv_client m1); [done| |by apply still_Guar]. eapply Inv_same; [exact Hi1|done|done|done|done|done|done]. }
  apply (node_inv_spawn m2); [done| |].
  - intros w' [[_ Hs' Hr' Hd'] Hrep] Hw. cbn [fst snd] in *. apply wp_neighbour_task; [|done| | |].
    + cbn. by rewrite make_address_dotted.
    + intros Hin%(Hrep _ eq_refl). unfold rep in Hin. apply list_elem_of_fmap in Hin as (q & Hq & Hin).
      destruct (inv_reported _ Hi q Hin) as [Hd _]. cbn in Hd. congruence.
    + apply Hd'. cbn. set_solver.
    + eapply peer_evidence_mono; [exact Hs'|exact Hr'|]. apply He.
  - intros k [= <-]. split; [|cbn; set_solver]. intros Hin. apply Hg. by apply (node_found _ _ _ Hni).
Qed.

Lemma add_neighbours_ok nodes : Forall wf_neighbour nodes -> forall m, node_ok m ->
  (forall nb, nb ∈ nodes -> nb_tcp nb <> 0 -> forall now, peer_evidence (sent (client m)) (received (client m)) (peer_of nb now)) ->
  handles (for_each (add_neighbour config_ keccak256 context_created) nodes) m.
Proof.
  induction 1 as [|nb nodes Hnb Hnodes IH]; intros m Hm He; [by apply handles_ret|]. cbn [for_each].
  destruct (add_neighbour_ok nb m Hm Hnb ltac:(apply He; set_solver)) as (m' & E & Hm' & Es & Er).
  eapply handles_bind; [exact E|]. apply IH; [done|]. rewrite Es, Er. intros nb' Hin. apply He. set_solver.
Qed.

Lemma handle_neighbours_ok : got (received (client n)) kPacketTypeNeighbours key data ->
  handles (handle_neighbours config_ keccak256 context_created data sender) n.
Proof.
  intros Hgot. unfold handle_neighbours. destruct (_ <? _); [by apply handles_ret|]. eapply handles_bind; [done|].
  rewrite reply_key_split. fold key. destruct (pending_replies_ (client n) !! _) as [entry|] eqn:El; [|by apply handles_ret].
  eapply handles_bind; [done|]. cbn [client tasks listening].
  assert (exists packet, sent_to (sent (client n)) kPacketTypeFindNode key packet) as [packet Hpk].
  { destruct Hn as (o & toks & Hni). by apply (inv_find _ (node_Inv _ _ _ Hni) key entry). }
  assert (still (client n) (cancel (timer entry) (client n))) as [Es Er _ _].
  { destruct Hn as (o & toks & Hni). by apply (cancel_silent _ o), (node_Inv _ _ _ Hni). }
  set (m := mkNode _ _ _). assert (node_ok m) as Hm by (apply node_ok_silent; [intros; by apply cancel_silent|done]).
  assert (fits (drop (Z.to_nat kWireHeaderSize) data)) as Hf by (eapply fits_suffix; [apply drop_suffix|done]).
  pose proof (run_decoder_yields 0 read_neighbours _ _ safe_read_neighbours Hf) as Hy.
  destruct (run_decoder read_neighbours _) as [nodes|e|f] eqn:Ed; [|by apply handles_ret|done]. cbn in Hy.
  apply add_neighbours_ok; [done|done|]. unfold m. cbn [client]. rewrite Es, Er. intros nb Hnb Ht now.
  by exists key, data, packet, nodes, nb, now.
Qed.

Lemma handle_packet_ok : (data, sender) ∈ received (client n) ->
  handles (handle_packet config_ keccak256 context_created data sender) n.
Proof.
  intros Hr. unfold handle_packet. destruct (Z.ltb_spec (Zlen data) kWireHeaderSize) as [|Hl]; [by apply handles_ret|].
  destruct (byte_at (Er := Empty_set) data kWirePacketTypeOffset) as [b|[]|f] eqn:Eb.
  2: { unfold byte_at in Eb. destruct (data !! _) eqn:Ed; [done|]. apply lookup_ge_None in Ed.
       unfold kWirePacketTypeOffset, kWireHeaderSize, kWirePacketTypeSize, kWireHashSize, kWireSigSize in *. lia. }
  eapply handles_bind; [done|]. cbn zeta.
  destruct (Z.eqb_spec (u8 b) kPacketTypePing); [apply handle_ping_ok; by eapply got_packet|].
  destruct (Z.eqb_spec (u8 b) kPacketTypePong); [apply handle_pong_ok; by eapply got_packet|].
  destruct (u8 b =? kPacketTypeFindNode); [by apply handles_ret|].
  destruct (Z.eqb_spec (u8 b) kPacketTypeNeighbours); [apply handle_neighbours_ok; by eapply got_packet|].
  destruct (u8 b =? kPacketTypeEnrRequest); [by apply handles_ret|].
  destruct (u8 b =? kPacketTypeEnrResponse); [by apply handle_enr_response_ok|].
  apply handles_silent; [|done]. intros. by apply error_silent.
Qed.
End receiving.

(** ** Steps *)

Lemma Inv_log_received o c m : Inv (o, c) -> Inv (o, log_io [] m [] [] c).
Proof.
  intros []. assert (received c ⊆ received c ++ m) as Hm by apply app_subseteq.
  split; cbn [fst snd log_io sent received bonded_set_ pending_replies_ pong_slots peers_ reported discovered_set_ next_ref] in *; rewrite ?app_nil_r; auto.
  - intros k Hk. eapply bond_evidence_mono; eauto.
  - intros s k h Hs. destruct (inv_owner0 s k h Hs) as (? & ? & Hp). split; [done|]. split; [done|].
    intros p Hl Hz. eapply ponged_mono; eauto.
  - intros k p Hk. destruct (inv_peers0 k p Hk). split; [done|]. eapply peer_evidence_mono; eauto.
  - intros q Hq. destruct (inv_reported0 q Hq) as (? & p & ? & ?). split; [done|]. exists p. split; [|done].
    eapply peer_evidence_mono; eauto.
Qed.

Lemma log_received_Guar tok o c m : Guar tok (o, c) (o, log_io [] m [] [] c).
Proof.
  split; [split; cbn; rewrite ?app_nil_r; [done|done|apply app_subseteq|done]|].
  intros k Hk. left. revert Hk. unfold rep. cbn. by rewrite app_nil_r.
Qed.

Lemma handles_listening n : node_ok n -> handles (c ← client_of; set_listening (running_ c)) n.
Proof. intros (o & toks & []). eexists. split; [done|]. exists o, toks. by split. Qed.

Lemma receive_once_ok d n : node_ok n -> wf_datagram d -> handles (receive_once config_ keccak256 context_created d) n.
Proof.
  intros Hn Hd. destruct d as [|message|data sender]; cbn [receive_once].
  - destruct Hn as (o & toks & []). eexists. split; [done|]. exists o, toks. by split.
  - apply handles_seq; [apply handles_silent; [intros; by apply error_silent|done]|]. intros n' Hn'.
    by apply handles_listening.
  - destruct Hd as [Hl Hs]. eapply handles_bind; [done|]. set (m := mkNode _ _ _).
    assert (node_ok m) as Hm.
    { destruct Hn as (o & toks & Hni). exists o, toks.
      apply (node_inv_client n); [done|by apply Inv_log_received, (node_Inv _ _ _ Hni)|apply log_received_Guar]. }
    apply handles_seq; [|intros n' Hn'; by apply handles_listening].
    destruct (0 <? Zlen data); [|by apply handles_ret]. apply handle_packet_ok; [done|done| |].
    + unfold fits. unfold kUdpBufferSize in Hl. lia.
    + unfold m. cbn. apply elem_of_app. right. apply list_elem_of_singleton. done.
Qed.

Lemma node_ok_init s w : node_ok (mkNode (Client_init s w) [] false).
Proof.
  exists ∅, []. split; cbn; [|constructor|done|set_solver].
  split; cbn; try (intros; by rewrite lookup_empty in * ); try set_solver. constructor.
Qed.

Lemma handles_cancels (l : list (string * PendingReply)) n : node_ok n ->
  handles (for_each (fun kv : string * PendingReply => update (cancel (timer kv.2))) l) n.
Proof.
  revert n. induction l as [|kv l IH]; intros n Hn; [by apply handles_ret|]. cbn [for_each].
  apply handles_seq; [|done]. apply handles_silent; [intros; by apply cancel_silent|done].
Qed.

Lemma start_ok n : node_ok n -> handles start n.
Proof.
  intros Hn. eapply handles_bind; [done|]. destruct (running_ (client n)); [by apply handles_ret|].
  apply handles_seq; [apply handles_silent; [|done]|].
  - intros o c Hi. split; [by eapply Inv_same|done].
  - intros n' (o & toks & []). eexists. split; [done|]. exists o, toks. by split.
Qed.

Lemma stop_ok n : node_ok n -> handles stop n.
Proof.
  intros Hn. apply handles_seq; [apply handles_silent; [|done]|].
  - intros o c Hi. split; [by eapply Inv_same|done].
  - intros n1 Hn1. eapply handles_bind; [done|]. apply handles_seq; [by apply handles_cancels|]. intros n2 Hn2.
    apply handles_silent; [|done]. intros o c Hi. split; [|done]. eapply Inv_same; [done|done|apply map_empty_subseteq|done|done|done|done].
Qed.

Lemma handles_det m n n' : handles m n -> m n = (success tt, n') -> node_ok n'.
Proof. intros (n1 & E & Hn) E'. congruence. Qed.

Lemma call_ok tok x : make_address (call_ip x) <> None -> quiet tok (fun _ => True) (call_proc config_ keccak256 context_created x) (fun _ _ => True).
Proof.
  intros Ha. destruct x as [ip port|ip port target|ip port]; cbn [call_proc call_ip] in *.
  - eapply quiet_bind; [by apply quiet_ping|]. intros r. by apply quiet_ret.
  - by apply quiet_find_node.
  - eapply quiet_bind; [by apply quiet_request_enr|]. intros r. by apply quiet_ret.
Qed.

Lemma task_at n o toks i st : node_inv n o toks -> tasks n !! i = Some st -> exists tok, toks !! i = Some tok /\ task_ok (o, client n) tok st.
Proof.
  intros [_ Ht _ _] Hst. pose proof (proj1 (Forall2_lookup _ _ _) Ht i) as Hi. rewrite Hst in Hi.
  inversion Hi as [tok st' Hok E1 E2|]; subst. by exists tok.
Qed.

Lemma step_ok n n' : step config_ keccak256 context_created n n' -> node_ok n -> node_ok n'.
Proof.
  intros Hs Hn. destruct Hs as [d n n' _ Hd E|i p n Hi|i pk d k ec n Hi|i t k n Hi _|s w n _|x n Hx|p e n|n n' E|n n' E].
  - eapply handles_det; [|exact E]. by apply receive_once_ok.
  - destruct Hn as (o & toks & Hni). destruct (task_at _ _ _ _ _ Hni Hi) as (tok & Ht & Hok).
    eapply node_ok_resume; [done|done|done|]. apply Hok; [done|]. by apply node_Inv in Hni.
  - destruct Hn as (o & toks & Hni). destruct (task_at _ _ _ _ _ Hni Hi) as (tok & Ht & Hok).
    eapply node_ok_resume; [done|done|done|]. apply Hok; [done|]. by apply node_Inv in Hni.
  - assert (forall o c, Inv (o, c) -> Inv (o, rearm t c) /\ still c (rearm t c)) as Hrearm by (intros o c Hc; split; [by eapply Inv_same|done]).
    destruct Hn as (o & toks & Hni). pose proof (node_Inv _ _ _ Hni) as Hin. destruct (Hrearm _ _ Hin) as [Hi2 Hs2].
    assert (node_inv (on_client (rearm t) n) o toks) as Hn2 by (apply (node_inv_client n); [done|done|by apply still_Guar]).
    destruct (task_at _ _ _ _ _ Hn2 Hi) as (tok & Ht & Hok). eapply node_ok_resume; [done|done|done|]. by apply Hok.
  - apply (node_ok_silent n (set_clocks s w)); [|done]. intros o c Hc. split; [by eapply Inv_same|done].
  - destruct Hn as (o & toks & Hni). exists o, (toks ++ [None]). apply node_inv_spawn; [done| |done].
    intros w' _ Hw. apply quiet_task; [by apply call_ok|done].
  - apply (node_ok_silent n (set_callbacks p e)); [|done]. intros o c Hc. split; [by eapply Inv_same|done].
  - eapply handles_det; [|exact E]. by apply start_ok.
  - eapply handles_det; [|exact E]. by apply stop_ok.
Qed.

Lemma reachable_ok n : reachable config_ keccak256 context_created n -> node_ok n.
Proof.
  intros (s & w & Hr). assert (node_ok (mkNode (Client_init s w) [] false)) as H0 by apply node_ok_init.
  induction Hr as [|x y z Hxy Hyz IH]; [done|]. apply IH. by eapply step_ok.
Qed.

(** C10: An endpoint is bonded only on evidence: in every reachable state, whatever was
    received and however the coroutines interleaved, a bonded endpoint has sent a PING,
    or the client sent it a PING and received from it a PONG with that PING's hash. *)
Theorem bond_sound n k : reachable config_ keccak256 context_created n ->
  k ∈ bonded_set_ (client n) -> bond_evidence (sent (client n)) (received (client n)) k.
Proof. intros (o & toks & Hn)%reachable_ok Hk. by apply (inv_bonded _ (node_Inv _ _ _ Hn)). Qed.

(** C11: Peers come only from NEIGHBOURS packets of endpoints that were asked: in every
    reachable state each peer of the table is stored under its node id and is a node, with
    a TCP port, of a received NEIGHBOURS packet whose sender was sent a FIND_NODE; the
    callback got only such peers, and no UDP endpoint twice. *)
Theorem discovery_sound n : reachable config_ keccak256 context_created n ->
  (forall k p, peers_ (client n) !! k = Some p -> k = node_key (node_id p) /\ peer_evidence (sent (client n)) (received (client n)) p) /\
  NoDup (peer_ep <$> reported (client n)) /\
  (forall q, q ∈ reported (client n) -> exists p, peer_evidence (sent (client n)) (received (client n)) p /\ enriched p q).
Proof.
  intros (o & toks & [Hi _ _ _])%reachable_ok. split; [by apply (inv_peers _ Hi)|]. split; [by apply (inv_reported_once _ Hi)|].
  intros q Hq. by destruct (inv_reported _ Hi q Hq).
Qed.

(** No datagram and no order of events makes the client fault: in every reachable
    state the receive loop handles any datagram (no pending entry lacks the slot its
    handler writes to, no read leaves the packet), and no coroutine has thrown. *)
Theorem client_never_faults n : reachable config_ keccak256 context_created n ->
  (forall d, wf_datagram d -> exists n', receive_once config_ keccak256 context_created d n = (success tt, n')) /\
  (forall i, tasks n !! i <> Some (Suspended Throw)).
Proof.
  intros Hn%reachable_ok. split.
  - intros d Hd. destruct (receive_once_ok d n Hn Hd) as (n' & E & _). by exists n'.
  - intros i Hi. destruct Hn as (o & toks & Hni). by destruct (task_at _ _ _ _ _ Hni Hi) as (tok & _ & []).
Qed.
End logic.
