(* ===== verification/Discv4Bond.v ===== *)
(** * Exchanges of the discv4 client

    What the handlers and coroutines of [Discv4Client] achieve together: a PING that
    is answered bonds both ends, a NEIGHBOURS packet is read back node by node; and
    what the client accepts without checking: packets whose hash and signature are
    wrong.  The witnesses run on a toy signature scheme and a text parser for IPv4. *)

From stdpp Require Import pretty.
From S2P Require Import Prelude RlpSpec RlpCommon RlpEncoder RlpDecoder DecodeLogic EthObjects DialScheduler PeerQueue BridgeEvent Discv4Packets Discv4Client Discv4Logic.

(** ** NEIGHBOURS on the wire *)

(** A node with the further items of its list. *)
Definition neighbour_payload (x : Neighbour * list item) : list byte :=
  rlp_string (nb_ip x.1) ++ rlp_uint (nb_udp x.1) ++ rlp_uint (nb_tcp x.1) ++ rlp_string (nb_id x.1) ++ concat (map rlp_encode x.2).
Definition neighbour_wire (x : Neighbour * list item) : list byte := rlp_list (neighbour_payload x).

(** The nodes, then whatever follows them (the expiration, further items). *)
Definition neighbours_wire (l : list (Neighbour * list item)) (tail : list byte) : list byte :=
  rlp_list (rlp_list (concat (map neighbour_wire l)) ++ tail).

Lemma eats_read_neighbour x rest : wf_neighbour x.1 -> eats read_neighbour (neighbour_wire x) x.1 rest.
Proof.
  destruct x as [[ip udp tcp id] extra]. intros (Hip & Hu & Ht & Hid). cbn [fst snd nb_ip nb_udp nb_tcp nb_id] in *.
  unfold read_neighbour, neighbour_wire, rlp_list. set (p := neighbour_payload _).
  eapply eats_bind; [apply eats_ReadListHeaderBytes|]. intros Hf. rewrite view_then.
  unfold p, neighbour_payload in *. cbn [fst snd nb_ip nb_udp nb_tcp nb_id] in *. rewrite <- !app_assoc in *.
  set (ex := concat _) in *.
  rewrite (bind_success _ _ _ _ _ (consumes_read_bytes _ _ Hf)). rewrite Hip. cbn [negb Z.eqb kIPv4Size Pos.eqb].
  apply fits_app_r in Hf as Hf1. rewrite (bind_success _ _ _ _ _ (consumes_read_integral 2 udp ltac:(unfold is_sizeof; lia) Hu _ Hf1)).
  apply fits_app_r in Hf1 as Hf2. rewrite (bind_success _ _ _ _ _ (consumes_read_integral 2 tcp ltac:(unfold is_sizeof; lia) Ht _ Hf2)).
  apply fits_app_r in Hf2 as Hf3. rewrite (bind_success _ _ _ _ _ (consumes_read_bytes _ _ Hf3)). rewrite Hid. cbn [negb Z.eqb kNodeIdSize Pos.eqb].
  apply fits_app_r in Hf3 as Hf4. rewrite view_then. cbn zeta. set (len := Zlen (_ ++ _) - _).
  set (total := Zlen (_ ++ _)).
  assert (total - len = Zlen ex) as Hlen. { unfold total, len. rewrite !length_app. lia. }
  destruct (Z.ltb_spec len total) as [Hlt|Hge].
  - replace (Z.to_nat (total - len)) with (length ex) by lia. rewrite take_app_length.
    assert (while_above 0 SkipItem ex = (success (map (fun _ : item => tt) extra), [])) as ->.
    { pose proof (eats_skip_items extra) as Hs. unfold eats in Hs. rewrite app_nil_r in Hs. apply Hs. change (fits ex). unfold fits in *. rewrite length_app in Hf4. lia. }
    unfold mbind, M_bind, put_state, mret, M_ret. cbn [length]. rewrite Nat.sub_0_r, drop_app_length. done.
  - assert (ex = []) as -> by (destruct ex; [done|cbn [length] in Hlen; lia]). done.
Qed.

Lemma neighbours_loop_wire tail len start : start = len + Zlen tail -> forall l fuel,
  Forall (fun x : Neighbour * list item => wf_neighbour x.1) l -> (length l < fuel)%nat ->
  Zlen (concat (map neighbour_wire l)) <= len -> fits (concat (map neighbour_wire l) ++ tail) ->
  (neighbours_loop fuel start len (concat (map neighbour_wire l) ++ tail)).1 = success (map fst l).
Proof.
  intros Hstart l. induction l as [|x l IH]; intros fuel Hwf Hfuel Hlen Hf; (destruct fuel as [|fuel]; [lia|]); cbn [neighbours_loop].
  - cbn [map concat app]. destruct tail as [|b tail]; [done|]. rewrite not_finished_then by done. cbn iota. rewrite view_then.
    rewrite (proj2 (Z.leb_le _ _)) by lia. done.
  - cbn [map concat] in *. inversion Hwf as [|? ? Hx Hl]; subst. rewrite <- app_assoc in *. set (v := neighbour_wire x ++ _ ++ _) in *.
    assert (0 < Zlen (neighbour_wire x)) as Hpos by (pose proof (rlp_list_pos (neighbour_payload x)); unfold neighbour_wire; lia).
    assert (Zlen v > Zlen tail) as Hv by (unfold v; rewrite !length_app; lia).
    rewrite not_finished_then by (intros E; rewrite E in Hv; cbn in Hv; lia). cbn iota. rewrite view_then.
    rewrite (proj2 (Z.leb_gt _ _)) by lia.
    pose proof (eats_read_neighbour x _ Hx Hf) as E. unfold attempt, mbind, M_bind. fold v in E. rewrite E.
    specialize (IH fuel Hl). cbn [length] in Hfuel. rewrite length_app in Hlen.
    specialize (IH ltac:(lia) ltac:(lia) ltac:(by apply fits_app_r in Hf)).
    by destruct (neighbours_loop fuel _ len _) as [[l'|e|f] w]; cbn in IH; simplify_eq.
Qed.

Lemma read_neighbours_wire l tail : Forall (fun x : Neighbour * list item => wf_neighbour x.1) l -> fits (neighbours_wire l tail) ->
  run_decoder read_neighbours (neighbours_wire l tail) = success (map fst l).
Proof.
  intros Hwf Hf. unfold run_decoder, read_neighbours, neighbours_wire in *. set (nodes := concat _) in *.
  assert (exists h, rlp_list (rlp_list nodes ++ tail) = h ++ rlp_list nodes ++ tail) as [h0 E0] by (by eexists).
  pose proof (ReadListHeaderBytes_list (rlp_list nodes ++ tail) [] ltac:(by rewrite app_nil_r)) as H1. rewrite !app_nil_r in H1.
  rewrite (bind_success _ _ _ _ _ H1). rewrite E0 in Hf. apply fits_app_r in Hf.
  rewrite (bind_success _ _ _ _ _ (ReadListHeaderBytes_list nodes tail Hf)). rewrite view_then.
  unfold rlp_list in Hf. rewrite <- app_assoc in Hf. apply fits_app_r in Hf.
  apply neighbours_loop_wire; [rewrite length_app; lia|done| |done|done].
  pose proof (concat_map_length_ge neighbour_wire l) as Hc. rewrite length_app. fold nodes in Hc.
  specialize (Hc ltac:(intros x _ E; pose proof (rlp_list_pos (neighbour_payload x)) as Hp; unfold neighbour_wire in E; rewrite E in Hp; cbn in Hp; lia)). lia.
Qed.

(** ** The envelope of the client's packets *)

Section exchange.
Context (keccak256 : list byte -> list byte) (context_created : bool).
Context `{SK : Secp256k1} `{SL : !Secp256k1Laws} `{AI : AsioIp} `{AL : !AsioIpLaws}.

Lemma header_sizes : kWirePacketTypeOffset = 97 /\ kWireHeaderSize = 98 /\ kWireHashSize = 32.
Proof. done. Qed.

(** [handle_packet] on a packet of the envelope. *)
Lemma handle_packet_type cfg hdr t body sender n : Zlen hdr = kWirePacketTypeOffset -> 0 <= t < 256 ->
  handle_packet cfg keccak256 context_created (hdr ++ byte_of t :: body) sender n =
  (if t =? kPacketTypePing then handle_ping cfg keccak256 context_created (hdr ++ byte_of t :: body) sender
   else if t =? kPacketTypePong then handle_pong (hdr ++ byte_of t :: body) sender
   else if t =? kPacketTypeFindNode then handle_find_node (hdr ++ byte_of t :: body) sender
   else if t =? kPacketTypeNeighbours then handle_neighbours cfg keccak256 context_created (hdr ++ byte_of t :: body) sender
   else if t =? kPacketTypeEnrRequest then handle_enr_request (hdr ++ byte_of t :: body) sender
   else if t =? kPacketTypeEnrResponse then handle_enr_response (hdr ++ byte_of t :: body) sender
   else update (fun c => if error_callback_ c then log_io [] [] [] ["Unknown packet type: " +:+ pretty t] c else c)) n.
Proof.
  intros Hh Ht. destruct header_sizes as (E1 & E2 & _). unfold handle_packet.
  assert (Zlen (hdr ++ byte_of t :: body) >= kWireHeaderSize) as Hl by (rewrite length_app; cbn [length]; lia).
  rewrite (proj2 (Z.ltb_ge _ _)) by lia.
  assert (byte_at (Er := Empty_set) (hdr ++ byte_of t :: body) kWirePacketTypeOffset = success (byte_of t)) as Hb.
  { unfold byte_at. rewrite lookup_app_r by lia. replace (_ - _)%nat with 0%nat by lia. done. }
  etrans; [apply (bind_success _ _ n (byte_of t) n); unfold lift; by rewrite Hb|]. cbn zeta. by rewrite u8_byte_of_small.
Qed.

(** Signing works with this key. *)
Definition can_sign (cfg : discv4Config) : Prop := context_created = true /\ forall payload, sign_recoverable (keccak256 payload) (private_key cfg) <> None.

Lemma can_sign_success cfg payload : can_sign cfg -> exists packet, sign cfg keccak256 context_created payload = success packet.
Proof.
  intros [Hc Hs]. unfold sign, sign_packet. rewrite Hc. cbn [negb]. specialize (Hs payload).
  destruct (sign_recoverable _ _) as [sig|]; [|done]. destruct (serialize_compact sig). eauto.
Qed.

Lemma pong_payload_nonnil ep h now : wf_endpoint ep -> Zlen h = kWireHashSize -> pong_payload ep h now <> [].
Proof. intros He Hh. by rewrite pong_payload_wire. Qed.

Lemma ping_payload_nonnil a b now : wf_endpoint a -> wf_endpoint b -> ping_payload a b now <> [].
Proof. intros Ha Hb. by rewrite ping_payload_wire. Qed.

Lemma wf_Endpoint_new ip udp tcp : in_width 16 udp -> in_width 16 tcp -> wf_endpoint (Endpoint_new make_address_v4 ip udp tcp).
Proof.
  intros Hu Ht. split; [|done]. unfold Endpoint_new. cbn. destruct (make_address_v4 ip) as [a|] eqn:E; [|done].
  by eapply make_address_v4_length.
Qed.

(** ** Answering a PING *)

Lemma handle_ping_effect cfg data sender n :
  kWireHeaderSize <= Zlen data -> can_sign cfg -> in_width 16 (config_tcp_port cfg) -> Zlen sender.1 = kIPv4Size -> in_width 16 sender.2 ->
  exists packet,
    sign cfg keccak256 context_created (pong_payload (mkEndpoint sender.1 sender.2 (config_tcp_port cfg))
      (take (Z.to_nat kWireHashSize) data) (wall (client n))) = success packet /\
    handle_ping cfg keccak256 context_created data sender n =
      (success tt, mkNode (add_bonded (ep_key (address_to_string sender.1) sender.2) (client n))
         (tasks n ++ [Ready (pong_task cfg keccak256 context_created (address_to_string sender.1) sender.2 packet)]) (listening n)).
Proof.
  intros Hl Hs Ht Hip Hp. destruct header_sizes as (E1 & E2 & E3). unfold handle_ping.
  rewrite (proj2 (Z.ltb_ge _ _)) by lia. rewrite (bind_success client_of _ n (client n) n eq_refl). cbn zeta.
  set (payload := pong_payload _ _ _).
  assert (payload <> []) as Hn. { apply pong_payload_nonnil; [by split_and!|]. rewrite length_take. lia. }
  destruct (can_sign_success cfg payload Hs) as [packet Hpk]. exists packet. split; [done|].
  rewrite bool_decide_eq_false_2 by done. by rewrite Hpk.
Qed.

(** The client answers and bonds on any datagram whose type byte says PING: the
    hash and the signature before it, and the body after it, are not looked at, so a
    packet [verify_packet] rejects bonds its sender all the same. *)
Theorem unverified_ping_bonds cfg hdr body sender n :
  Zlen hdr = kWirePacketTypeOffset -> can_sign cfg -> in_width 16 (config_tcp_port cfg) ->
  Zlen sender.1 = kIPv4Size -> in_width 16 sender.2 ->
  exists n', handle_packet cfg keccak256 context_created (hdr ++ byte_of kPacketTypePing :: body) sender n = (success tt, n') /\
    ep_key (address_to_string sender.1) sender.2 ∈ bonded_set_ (client n') /\ length (tasks n') = S (length (tasks n)).
Proof.
  intros Hh Hs Ht Hip Hp. rewrite handle_packet_type by done. cbn [Z.eqb kPacketTypePing Pos.eqb].
  destruct (handle_ping_effect cfg (hdr ++ byte_of kPacketTypePing :: body) sender n) as (packet & _ & E); [|done..|].
  - destruct header_sizes as (E1 & E2 & _). rewrite length_app. cbn [length]. lia.
  - eexists. split; [exact E|]. cbn. split; [set_solver|]. rewrite length_app. cbn. lia.
Qed.

(** ** Recording NEIGHBOURS *)

Definition nb_ep (nb : Neighbour) : string := ep_key (dotted (nb_ip nb)) (nb_udp nb).

(** The peer table after the nodes of a packet, in their order. *)
Definition record_peers (now : Z) (nodes : list Neighbour) (m : gmap string DiscoveredPeer) : gmap string DiscoveredPeer :=
  foldl (fun m nb => <[node_key (nb_id nb) := peer_of nb now]> m) m nodes.

Definition dialable (nodes : list Neighbour) : list Neighbour := filter (fun nb => nb_tcp nb <> 0) nodes.

Lemma add_neighbour_exact cfg nb n : running_ (client n) = true -> nb_tcp nb <> 0 ->
  exists n1, add_neighbour cfg keccak256 context_created nb n = (success tt, n1) /\
    running_ (client n1) = true /\ steady (client n1) = steady (client n) /\
    peers_ (client n1) = <[node_key (nb_id nb) := peer_of nb (steady (client n))]> (peers_ (client n)) /\
    discovered_set_ (client n1) = {[nb_ep nb]} ∪ discovered_set_ (client n) /\
    (length (tasks n1) + size (discovered_set_ (client n)) = length (tasks n) + size (discovered_set_ (client n1)))%nat.
Proof.
  intros Hrun Hz. unfold add_neighbour. rewrite (proj2 (Z.eqb_neq _ _) Hz). change (ep_key _ _) with (nb_ep nb).
  unfold client_of, update, spawn, mbind, M_bind. cbn [client tasks listening]. rewrite Hrun. cbn [andb].
  destruct (decide (nb_ep nb ∈ discovered_set_ (client n))) as [Hin|Hnin].
  - rewrite bool_decide_eq_true_2 by done. eexists. split; [done|]. cbn. split_and!; [done|done|done|set_solver|done].
  - rewrite bool_decide_eq_false_2 by done. eexists. split; [done|]. cbn. split_and!; [done|done|done|done|].
    rewrite length_app, size_union, size_singleton by set_solver. cbn. lia.
Qed.

Lemma add_neighbours_exact cfg nodes : forall n, running_ (client n) = true ->
  exists n', for_each (add_neighbour cfg keccak256 context_created) nodes n = (success tt, n') /\
    peers_ (client n') = record_peers (steady (client n)) (dialable nodes) (peers_ (client n)) /\
    discovered_set_ (client n') = discovered_set_ (client n) ∪ list_to_set (nb_ep <$> dialable nodes) /\
    (length (tasks n') + size (discovered_set_ (client n)) = length (tasks n) + size (discovered_set_ (client n')))%nat.
Proof.
  induction nodes as [|nb nodes IH]; intros n Hrun; cbn [for_each].
  - exists n. split; [done|]. split; [done|]. split; [set_solver|done].
  - unfold dialable. rewrite filter_cons. destruct (decide (nb_tcp nb <> 0)) as [Hz|Hz].
    + destruct (add_neighbour_exact cfg nb n Hrun Hz) as (n1 & E & Hrun1 & Hst & Hp & Hd & Ht). rewrite (bind_success _ _ _ _ _ E).
      destruct (IH n1 Hrun1) as (n' & E' & E1 & E2 & E3). exists n'. split; [done|]. rewrite E1, Hst, Hp.
      split; [done|]. rewrite E2, Hd. split; [rewrite fmap_cons; cbn; set_solver|]. rewrite <- Hd, <- E2. lia.
    + rewrite (bind_success _ _ n tt n); [by apply IH|]. unfold add_neighbour. destruct (Z.eqb_spec (nb_tcp nb) 0); [done|].
      by destruct Hz.
Qed.

(** A NEIGHBOURS packet from an endpoint with a pending FIND_NODE is taken whole:
    every node of it with a TCP port, however many further fields the nodes and the
    packet carry, is stored under its id, the last one winning, its endpoint becomes
    known, and one coroutine is spawned for each endpoint that was not known before. *)
Theorem neighbours_recorded cfg hdr l tail sender entry n :
  Zlen hdr = kWirePacketTypeOffset -> Forall (fun x : Neighbour * list item => wf_neighbour x.1) l ->
  fits (neighbours_wire l tail) -> running_ (client n) = true ->
  pending_replies_ (client n) !! reply_key (address_to_string sender.1) sender.2 kPacketTypeNeighbours = Some entry ->
  let found := dialable (map fst l) in
  exists n', handle_packet cfg keccak256 context_created (hdr ++ byte_of kPacketTypeNeighbours :: neighbours_wire l tail) sender n = (success tt, n') /\
    peers_ (client n') = record_peers (steady (client n)) found (peers_ (client n)) /\
    discovered_set_ (client n') = discovered_set_ (client n) ∪ list_to_set (nb_ep <$> found) /\
    (length (tasks n') + size (discovered_set_ (client n)) = length (tasks n) + size (discovered_set_ (client n')))%nat.
Proof.
  intros Hh Hwf Hf Hrun Hp. cbn zeta. rewrite handle_packet_type by done. cbn [Z.eqb kPacketTypePing kPacketTypePong kPacketTypeFindNode kPacketTypeNeighbours Pos.eqb].
  destruct (envelope_split hdr kPacketTypeNeighbours (neighbours_wire l tail) Hh) as (_ & Hd & Hl). unfold handle_neighbours.
  rewrite (proj2 (Z.ltb_ge _ _)) by lia. rewrite (bind_success client_of _ n (client n) n eq_refl). rewrite Hp.
  set (n1 := mkNode (cancel (timer entry) (client n)) (tasks n) (listening n)).
  rewrite (bind_success (update (cancel (timer entry))) _ n tt n1 eq_refl).
  change (byte_of 4) with (byte_of kPacketTypeNeighbours). rewrite Hd, read_neighbours_wire by done.
  assert (forall {B} (f : Client -> B), (forall wk, f (set_waits (waiting (client n)) wk (client n)) = f (client n)) ->
    f (client n1) = f (client n)) as Hcancel.
  { intros B f Hfl. unfold n1, cancel. cbn [client]. destruct (bool_decide _); [apply Hfl|done]. }
  destruct (add_neighbours_exact cfg (map fst l) n1) as (n' & E & E1 & E2 & E3); [by rewrite (Hcancel _ running_)|].
  exists n'. rewrite E1, E2, (Hcancel _ steady), (Hcancel _ peers_), (Hcancel _ discovered_set_) in * by done. done.
Qed.
(** ** A PING that is answered *)

Hypothesis keccak256_length : forall b, Zlen (keccak256 b) = kWireHashSize.

Lemma sign_header cfg payload packet : sign cfg keccak256 context_created payload = success packet ->
  exists hdr, packet = hdr ++ payload /\ Zlen hdr = kWirePacketTypeOffset.
Proof.
  intros E. destruct (sign_packet_shape keccak256 context_created _ _ _ E) as (_ & sig & _ & Hl & ->). cbn zeta in Hl. eexists. split; [by rewrite app_assoc|].
  rewrite length_app, Nat2Z.inj_add, keccak256_length, Hl. done.
Qed.

(** The runs of [ping] between its suspensions. *)
Definition pinged (cfg : discv4Config) (ip : string) (port : Z) (packet : list byte) (c : Client) : Client :=
  let s := next_ref (timed cfg c) in
  set_pending (<[reply_key ip port kPacketTypePong := mkPending (next_ref c) (Some s) None (take (Z.to_nat kWireHashSize) packet)]> (pending_replies_ c))
    (set_next (S s) (set_pong s pong_default (timed cfg c))).

Lemma ping_phases cfg ip port address packet c :
  running_ c = true -> make_address ip = Some address ->
  let payload := ping_payload (Endpoint_new make_address_v4 (bind_ip cfg) (bind_port cfg) (config_tcp_port cfg))
                   (Endpoint_new make_address_v4 ip port port) (wall c) in
  payload <> [] -> sign cfg keccak256 context_created payload = success packet ->
  exists K K2,
    run (call_proc cfg keccak256 context_created (CallPing ip port)) c =
      (log_io [(packet, (address, port))] [] [] [] (pinged cfg ip port packet c), SendTo packet (address, port) K) /\
    (forall c1, run (K None) c1 = (set_waits ({[next_ref c]} ∪ waiting c1) (woken c1) c1, WaitTimer (next_ref c) K2)) /\
    (forall c2 p, pong_slots c2 !! S (next_ref c) = Some p -> pong_expiration p <> 0 ->
       run K2 c2 = (add_bonded (ep_key ip port) (set_pending (delete (reply_key ip port kPacketTypePong) (pending_replies_ c2)) c2), Ret tt)).
Proof.
  intros Hr Ha payload Hn Hs. cbn [call_proc]. unfold ping. cbn [get_client mbind proc_MBind proc_bind run]. rewrite Hr. cbn [negb].
  fold payload. rewrite bool_decide_eq_false_2 by done. rewrite Hs. unfold destination_of. rewrite Ha.
  eexists _, _. split; [reflexivity|]. split; [reflexivity|]. intros c2 p Hp Hz.
  cbn [run erase modify get_client mbind proc_MBind proc_bind mret proc_MRet pending_replies_ pong_slots set_pending].
  change (next_ref (set_next _ _)) with (S (next_ref c)). rewrite Hp. unfold default, id. rewrite (proj2 (Z.eqb_neq _ _) Hz). reflexivity.
Qed.

(** The run of the coroutine that answers a PING. *)
Lemma pong_task_phase cfg ip port address packet c : make_address ip = Some address ->
  exists K, run (pong_task cfg keccak256 context_created ip port packet) c =
    (log_io [(packet, (address, port))] [] [] [] c, SendTo packet (address, port) K).
Proof. intros Ha. unfold pong_task, destination_of. rewrite Ha. eexists. reflexivity. Qed.

(** The PONG for a pending PING: the slot is written and the coroutine woken. *)
Lemma handle_pong_effect data sender pong entry s n :
  kWireHeaderSize <= Zlen data -> pong_Parse data = success pong ->
  pending_replies_ (client n) !! reply_key (address_to_string sender.1) sender.2 kPacketTypePong = Some entry ->
  pingHash pong = expected_hash entry -> pending_pong entry = Some s ->
  handle_pong data sender n = (success tt, mkNode (cancel (timer entry) (set_pong s pong (client n))) (tasks n) (listening n)).
Proof.
  intros Hl Hp He Hh Hs. unfold handle_pong. rewrite (proj2 (Z.ltb_ge _ _)) by lia. rewrite Hp.
  rewrite (bind_success client_of _ n (client n) n eq_refl). rewrite He, bool_decide_eq_true_2 by done. cbn [negb]. by rewrite Hs.
Qed.

Lemma pong_packet_length ep h now hdr : wf_endpoint ep -> Zlen h = kWireHashSize -> Zlen hdr = kWirePacketTypeOffset ->
  fits (hdr ++ pong_payload ep h now).
Proof.
  intros He Hh Hhdr. rewrite pong_payload_wire by done. unfold pong_body. cbn [toEndpoint pingHash]. rewrite app_nil_r.
  pose proof (length_endpoint _ He). pose proof (expiry_range now) as Hx. unfold in_width in Hx. set (p := _ ++ _ ++ rlp_uint _).
  assert (Zlen p <= 420) as Hp.
  { unfold p, rlp_uint. rewrite !length_app. pose proof (rlp_string_length_le (be_min (expiry now))) as Hl.
    rewrite length_be_min in Hl. pose proof (rlp_string_length_le h). pose proof (nbytes_u64 (expiry now)).
    unfold kWireHashSize in Hh. lia. }
  pose proof (rlp_list_length_le p). unfold fits. rewrite length_app. cbn [length].
  destruct header_sizes as (E1 & _ & _). lia.
Qed.

Lemma pong_packet_parses cfg ep h now packet : wf_endpoint ep -> Zlen h = kWireHashSize ->
  sign cfg keccak256 context_created (pong_payload ep h now) = success packet ->
  exists hdr body, packet = hdr ++ byte_of kPacketTypePong :: body /\ Zlen hdr = kWirePacketTypeOffset /\
    pong_Parse packet = success (mkPong ep h (expiry now) 0).
Proof.
  intros He Hh Hs. destruct (sign_header _ _ _ Hs) as (hdr & -> & Hhdr).
  pose proof (pong_packet_length ep h now hdr He Hh Hhdr) as Hf. rewrite pong_payload_wire in * by done.
  exists hdr. eexists. split; [done|]. split; [done|]. apply pong_Parse_wire; [done| |done].
  pose proof (expiry_range now) as Hx. unfold in_width in Hx. split_and!; [done|done|unfold in_width; cbn; lia| |done].
  cbn. unfold u32. by rewrite Z.mod_small.
Qed.

Lemma receive_datagram cfg data sender n n1 : 0 < Zlen data ->
  handle_packet cfg keccak256 context_created data sender (on_client (log_io [] [(data, sender)] [] []) n) = (success tt, n1) ->
  receive_once cfg keccak256 context_created (Datagram data sender) n = (success tt, mkNode (client n1) (tasks n1) (running_ (client n1))).
Proof.
  intros Hl Hp. cbn [receive_once].
  rewrite (bind_success (update _) _ n tt (on_client (log_io [] [(data, sender)] [] []) n) eq_refl).
  rewrite (proj2 (Z.ltb_lt _ _)) by done. by rewrite (bind_success _ _ _ _ _ Hp).
Qed.

Definition ready_to_bond (cfg : discv4Config) (address : list byte) (port : Z) : Prop :=
  can_sign cfg /\ in_width 16 (bind_port cfg) /\ in_width 16 (config_tcp_port cfg) /\ Zlen address = kIPv4Size /\ in_width 16 port.

(** What B does with A's PING. *)
Lemma answer_ping cfg packet hdr body address port n :
  ready_to_bond cfg address port -> packet = hdr ++ byte_of kPacketTypePing :: body -> Zlen hdr = kWirePacketTypeOffset ->
  let endpoint := mkEndpoint address port (config_tcp_port cfg) in
  exists reply n1 n2,
    receive_once cfg keccak256 context_created (Datagram packet (address, port)) n = (success tt, n1) /\
    ep_key (address_to_string address) port ∈ bonded_set_ (client n1) /\
    rtc (step cfg keccak256 context_created) n1 n2 /\ last (sent (client n2)) = Some (reply, (address, port)) /\
    sign cfg keccak256 context_created (pong_payload endpoint (take (Z.to_nat kWireHashSize) packet) (wall (client n))) = success reply.
Proof.
  intros (Hs & _ & Ht & Hip & Hp) -> Hh. cbn zeta. destruct header_sizes as (E1 & E2 & _).
  set (packet := hdr ++ _). set (n0 := on_client (log_io [] [(packet, (address, port))] [] []) n).
  assert (Zlen packet >= kWireHeaderSize) as Hl by (unfold packet; rewrite length_app; cbn [length]; lia).
  destruct (handle_ping_effect cfg packet (address, port) n0) as (reply & Hreply & E); [lia|done..|]. cbn [fst snd] in *.
  assert (handle_packet cfg keccak256 context_created packet (address, port) n0 = (success tt, mkNode (add_bonded (ep_key (address_to_string address) port) (client n0))
    (tasks n0 ++ [Ready (pong_task cfg keccak256 context_created (address_to_string address) port reply)]) (listening n0))) as E'.
  { unfold packet. rewrite handle_packet_type by done. exact E. }
  apply receive_datagram in E'; [|lia]. cbn [client tasks listening] in E'. set (n1 := mkNode _ _ _) in E'.
  destruct (pong_task_phase cfg (address_to_string address) port address reply (client n1)) as (K & EK).
  { rewrite address_to_string_v4 by done. by apply make_address_dotted. }
  exists reply, n1, (resume (length (tasks n)) (pong_task cfg keccak256 context_created (address_to_string address) port reply) n1).
  split; [done|]. split; [cbn; set_solver|]. split; [|split; [|done]].
  - apply rtc_once. apply step_begin. cbn. by apply list_lookup_middle.
  - unfold resume. rewrite EK. cbn. by rewrite last_snoc.
Qed.

(** A's [ping] up to its wait for the reply. *)
Lemma send_ping cfg n address port :
  ready_to_bond cfg address port -> running_ (client n) = true ->
  let ip := address_to_string address in
  exists packet hdr body t n1 K2,
    rtc (step cfg keccak256 context_created) n n1 /\ last (sent (client n1)) = Some (packet, (address, port)) /\
    packet = hdr ++ byte_of kPacketTypePing :: body /\ Zlen hdr = kWirePacketTypeOffset /\
    pending_replies_ (client n1) !! reply_key ip port kPacketTypePong =
      Some (mkPending t (Some (S t)) None (take (Z.to_nat kWireHashSize) packet)) /\
    t ∈ waiting (client n1) /\ tasks n1 !! length (tasks n) = Some (Suspended (WaitTimer t K2)) /\
    steady (client n1) = steady (client n) /\
    (forall c2 p, pong_slots c2 !! S t = Some p -> pong_expiration p <> 0 ->
       run K2 c2 = (add_bonded (ep_key ip port) (set_pending (delete (reply_key ip port kPacketTypePong) (pending_replies_ c2)) c2), Ret tt)).
Proof.
  intros (Hs & Hb & Ht & Hip & Hp) Hrun ip. set (c := client n). set (i := length (tasks n)).
  assert (make_address ip = Some address) as Ha by (unfold ip; rewrite address_to_string_v4 by done; by apply make_address_dotted).
  set (payload := ping_payload (Endpoint_new make_address_v4 (bind_ip cfg) (bind_port cfg) (config_tcp_port cfg))
                   (Endpoint_new make_address_v4 ip port port) (wall c)).
  assert (exists body, payload = byte_of kPacketTypePing :: body) as [body Hbody].
  { unfold payload. rewrite ping_payload_wire by by apply wf_Endpoint_new. unfold ping_wire. by eexists. }
  destruct (can_sign_success cfg payload Hs) as [packet Hpk]. destruct (sign_header _ _ _ Hpk) as (hdr & Hpacket & Hhdr).
  assert (payload <> []) as Hne by (rewrite Hbody; done).
  destruct (ping_phases cfg ip port address packet c Hrun Ha Hne Hpk) as (K & K2 & R1 & R2 & R3).
  set (n0 := mkNode c (tasks n ++ [Ready (call_proc cfg keccak256 context_created (CallPing ip port))]) (listening n)).
  set (c1 := log_io [(packet, (address, port))] [] [] [] (pinged cfg ip port packet c)) in *.
  set (n1 := mkNode c1 (<[i := Suspended (SendTo packet (address, port) K)]> (tasks n0)) (listening n)).
  set (c2 := set_waits ({[next_ref c]} ∪ waiting c1) (woken c1) c1).
  set (n2 := mkNode c2 (<[i := Suspended (WaitTimer (next_ref c) K2)]> (tasks n1)) (listening n)).
  assert (i < length (tasks n0))%nat as Hi by (unfold i, n0; cbn; rewrite length_app; cbn; lia).
  exists packet, hdr, body, (next_ref c), n2, K2. split_and!; [|cbn; by rewrite last_snoc|by rewrite Hpacket, Hbody|done| |cbn; set_solver| |done|done].
  - apply (rtc_l _ _ n0); [by apply step_call; cbn; rewrite Ha|].
    apply (rtc_l _ _ n1); [|apply rtc_once].
    + replace n1 with (resume i (call_proc cfg keccak256 context_created (CallPing ip port)) n0).
      * apply step_begin. cbn. by apply list_lookup_middle.
      * unfold resume. cbn [client n0]. by rewrite R1.
    + replace n2 with (resume i (K None) n1).
      * eapply step_sent. cbn. by apply list_lookup_insert_eq.
      * unfold resume. cbn [client n1]. by rewrite R2.
  - cbn. by rewrite lookup_insert_eq.
  - cbn. apply list_lookup_insert_eq. by rewrite length_insert.
Qed.

(** C9: A ping that is answered bonds both ends.  From any state of A that is running
    and any state of B: A's [ping] hands B's endpoint a PING; B's receive loop answers
    it with a PONG and records A as bonded; when A's receive loop gets that PONG while
    [ping] waits, [ping] wakes without its timeout, ends, and A records B as bonded. *)
Theorem ping_bonds_both cfgA cfgB nA nB addressA portA addressB portB :
  ready_to_bond cfgA addressB portB -> ready_to_bond cfgB addressA portA ->
  running_ (client nA) = true -> expiry (wall (client nB)) <> 0 ->
  exists ping_packet pong_packet nA1 nB1 nB2 nA2 nA3,
    rtc (step cfgA keccak256 context_created) nA nA1 /\ last (sent (client nA1)) = Some (ping_packet, (addressB, portB)) /\
    receive_once cfgB keccak256 context_created (Datagram ping_packet (addressA, portA)) nB = (success tt, nB1) /\
    ep_key (address_to_string addressA) portA ∈ bonded_set_ (client nB1) /\
    rtc (step cfgB keccak256 context_created) nB1 nB2 /\ last (sent (client nB2)) = Some (pong_packet, (addressA, portA)) /\
    receive_once cfgA keccak256 context_created (Datagram pong_packet (addressB, portB)) nA1 = (success tt, nA2) /\
    rtc (step cfgA keccak256 context_created) nA2 nA3 /\ steady (client nA3) = steady (client nA) /\
    ep_key (address_to_string addressB) portB ∈ bonded_set_ (client nA3) /\
    tasks nA3 !! length (tasks nA) = Some (Suspended (Ret tt)).
Proof.
  intros HA HB Hrun Hx. destruct (send_ping cfgA nA addressB portB HA Hrun)
    as (packet & hdr & body & t & nA1 & K2 & Hr1 & Hl1 & Hpk & Hhdr & Hpend & Hwait & Htask & Hst & HK2).
  destruct (answer_ping cfgB packet hdr body addressA portA nB HB Hpk Hhdr) as (reply & nB1 & nB2 & Hrecv & Hbond & Hr2 & Hl2 & Hsign).
  destruct HB as (_ & _ & HtB & HipB & HpB). destruct header_sizes as (E1 & E2 & E3).
  assert (Zlen (take (Z.to_nat kWireHashSize) packet) = kWireHashSize) as Hh.
  { rewrite length_take, Hpk, length_app. cbn [length]. lia. }
  assert (wf_endpoint (mkEndpoint addressA portA (config_tcp_port cfgB))) as Hwf by by split_and!.
  destruct (pong_packet_parses cfgB _ _ _ reply Hwf Hh Hsign) as (hdr' & body' & Hreply & Hhdr' & Hparse).
  set (pong := mkPong _ _ _ _) in Hparse.
  set (nA1' := on_client (log_io [] [(reply, (addressB, portB))] [] []) nA1).
  assert (Zlen reply >= kWireHeaderSize) as Hlen by (rewrite Hreply, length_app; cbn [length]; lia).
  pose proof (handle_pong_effect reply (addressB, portB) pong _ _ nA1' ltac:(lia) Hparse Hpend eq_refl eq_refl) as Epong.
  assert (handle_packet cfgA keccak256 context_created reply (addressB, portB) nA1' =
    (success tt, mkNode (cancel t (set_pong (S t) pong (client nA1'))) (tasks nA1') (listening nA1'))) as E.
  { etrans; [|exact Epong]. rewrite Hreply. by rewrite handle_packet_type. }
  apply receive_datagram in E; [|lia]. cbn [client tasks listening] in E. set (nA2 := mkNode _ _ _) in E.
  assert (cancel t (set_pong (S t) pong (client nA1')) = set_waits (waiting (client nA1)) ({[t]} ∪ woken (client nA1)) (set_pong (S t) pong (client nA1'))) as Hcancel.
  { unfold cancel. by rewrite bool_decide_eq_true_2. }
  assert (pong_slots (client (on_client (rearm t) nA2)) !! S t = Some pong) as Hslot.
  { unfold nA2, on_client. cbn [client]. rewrite Hcancel. cbn. by apply lookup_insert_eq. }
  exists packet, reply, nA1, nB1, nB2, nA2, (resume (length (tasks nA)) K2 (on_client (rearm t) nA2)).
  split_and!; [done|done|done|done|done|done|done| |unfold resume; rewrite (HK2 _ pong Hslot Hx)..].
  - apply rtc_once, step_timer; [done|]. left. unfold nA2. cbn [client]. rewrite Hcancel. cbn. set_solver.
  - unfold nA2, on_client. cbn [client]. by rewrite Hcancel.
  - cbn. set_solver.
  - cbn. apply list_lookup_insert_eq. by eapply lookup_lt_Some.
Qed.

End exchange.

(** ** Instances *)

Module SampleDiscv4.

(** Reading [a.b.c.d]: the numbers between the dots. *)
Fixpoint octets (acc : Z) (s : string) : list Z :=
  match s with
  | EmptyString => [acc]
  | String ch s' =>
      if decide (ch = Ascii.ascii_of_nat 46) then acc :: octets 0 s'
      else octets (10 * acc + (Z.of_nat (Ascii.nat_of_ascii ch) - 48)) s'
  end.

Definition parse_v4 (s : string) : option (list byte) :=
  let bytes := byte_of <$> octets 0 s in if Zlen bytes =? kIPv4Size then Some bytes else None.

#[export] Instance toy_ip : AsioIp := {| make_address := parse_v4; make_address_v4 := parse_v4; address_to_string := dotted |}.

Lemma octets_dot b rest : octets 0 (pretty (u8 b) +:+ "." +:+ rest) = u8 b :: octets 0 rest.
Proof. destruct b; reflexivity. Qed.
Lemma octets_last b : octets 0 (pretty (u8 b)) = [u8 b].
Proof. destruct b; reflexivity. Qed.

#[export] Instance toy_ip_laws : AsioIpLaws.
Proof.
  split; cbn.
  - done.
  - intros [|a [|b [|c [|d [|? ?]]]]] Hl; try done; [|cbn in Hl; unfold kIPv4Size in Hl; lia].
    unfold parse_v4, dotted, octet. cbn [lookup list_lookup default from_option id].
    rewrite !octets_dot, octets_last. cbn [fmap list_fmap]. by rewrite !byte_of_u8.
  - intros s ip. unfold parse_v4. destruct (Z.eqb_spec (Zlen (byte_of <$> octets 0 s)) kIPv4Size); [|done]. by intros [= <-].
Qed.

#[export] Existing Instance toy_secp.
#[export] Existing Instance toy_laws.

Definition hash32 (_ : list byte) : list byte := replicate 32 x07.
Definition config (key : byte) : discv4Config := mkConfig "0.0.0.0" 30303 30303 (replicate 32 key) (replicate 64 key) 5000.
Definition addressA : list byte := [x0a; x00; x00; x01].
Definition addressB : list byte := [x0a; x00; x00; x02].

Definition node (c : Client) : Node := mkNode (set_running true c) [] true.
Definition fresh : Node := node (Client_init 0 1700000000).

(** A PING with a hash and a signature of zeros. *)
Definition forged_ping : list byte := replicate 97 x00 ++ [x01; xc0].

Definition after_ping : Node :=
  (receive_once (config x01) hash32 true (Datagram forged_ping (addressB, 30303)) fresh).2.

Lemma fresh_reachable : reachable (config x01) hash32 true fresh.
Proof. exists 0, 1700000000. apply rtc_once. by apply step_start. Qed.

Lemma receive_reachable d n : listening n = true -> wf_datagram d ->
  reachable (config x01) hash32 true n -> reachable (config x01) hash32 true (receive_once (config x01) hash32 true d n).2.
Proof.
  intros Hl Hd Hr. destruct (receive_once_ok (config x01) hash32 true d n) as (n' & E & _); [exact (reachable_ok _ _ _ _ Hr)|done|].
  destruct Hr as (s & w & Hr). exists s, w. eapply rtc_r; [exact Hr|]. rewrite E. by eapply (step_receive _ _ _ d).
Qed.

Lemma after_ping_reachable : reachable (config x01) hash32 true after_ping.
Proof. apply receive_reachable; [done|by split|exact fresh_reachable]. Qed.

(** Task [i] starts, or goes on after a send that worked. *)
Definition advance (i : nat) (n : Node) : Node :=
  match tasks n !! i with
  | Some (Ready p) => resume i p n
  | Some (Suspended (SendTo _ _ k)) => resume i (k None) n
  | _ => n
  end.

Lemma advance_reachable i n : reachable (config x01) hash32 true n -> reachable (config x01) hash32 true (advance i n).
Proof.
  intros (s & w & Hr). exists s, w. unfold advance. destruct (tasks n !! i) as [[p|[]]|] eqn:E; try done.
  - eapply rtc_r; [exact Hr|]. by apply step_begin.
  - eapply rtc_r; [exact Hr|]. by eapply step_sent.
Qed.

(** B is sent the PONG, then the FIND_NODE, and answers with two nodes. *)
Definition asking : Node := advance 0 (advance 0 after_ping).
Definition neighbour1 : Neighbour := mkNeighbour [x0a; x00; x00; x03] 30303 30303 (replicate 64 x03).
Definition neighbour2 : Neighbour := mkNeighbour [x0a; x00; x00; x04] 30304 0 (replicate 64 x04).
Definition answer : list byte := neighbours_wire [(neighbour1, [Str [x01]]); (neighbour2, [])] (rlp_uint 1700000060).
Definition after_answer : Node :=
  (receive_once (config x01) hash32 true (Datagram (replicate 97 x00 ++ byte_of kPacketTypeNeighbours :: answer) (addressB, 30303)) asking).2.

Lemma after_answer_reachable : reachable (config x01) hash32 true after_answer.
Proof.
  apply receive_reachable; [by vm_compute|split; [by vm_compute|done]|]. apply advance_reachable, advance_reachable, after_ping_reachable.
Qed.

Lemma config_ready key address : Zlen address = kIPv4Size -> ready_to_bond hash32 true (config key) address 30303.
Proof. intros Ha. by split_and!. Qed.
End SampleDiscv4.
Import SampleDiscv4.

Lemma bond_sound_witness :
  reachable (config x01) hash32 true after_ping /\
  bond_evidence (config x01) hash32 true (sent (client after_ping)) (received (client after_ping)) (ep_key "10.0.0.2" 30303).
Proof.
  split; [exact after_ping_reachable|]. apply (bond_sound (config x01) hash32 true after_ping); [exact after_ping_reachable|].
  apply (bool_decide_eq_true_1 (ep_key "10.0.0.2" 30303 ∈ bonded_set_ (client after_ping))). vm_compute. reflexivity.
Defined.

Lemma discovery_sound_witness :
  exists p, peers_ (client after_answer) !! node_key (replicate 64 x03) = Some p /\
    peer_evidence (config x01) hash32 true (sent (client after_answer)) (received (client after_answer)) p.
Proof.
  destruct (discovery_sound (config x01) hash32 true after_answer after_answer_reachable) as [Hp _].
  assert (is_Some (peers_ (client after_answer) !! node_key (replicate 64 x03))) as [p E].
  { apply (bool_decide_eq_true_1 (is_Some (peers_ (client after_answer) !! node_key (replicate 64 x03)))). vm_compute. reflexivity. }
  exists p. split; [exact E|]. exact (proj2 (Hp _ _ E)).
Defined.

Lemma client_never_faults_witness :
  exists n', receive_once (config x01) hash32 true (Datagram (replicate 97 x00 ++ [x04; xf8]) (addressB, 30303)) after_answer = (success tt, n').
Proof.
  apply (proj1 (client_never_faults (config x01) hash32 true after_answer after_answer_reachable)). by split.
Defined.

Lemma unverified_ping_bonds_witness :
  verify_packet hash32 true forged_ping = failure discv4Error.kHashMismatch /\
  exists n', handle_packet (config x01) hash32 true forged_ping (addressB, 30303) fresh = (success tt, n') /\
    ep_key (address_to_string addressB) 30303 ∈ bonded_set_ (client n').
Proof.
  split; [vm_compute; reflexivity|].
  destruct (unverified_ping_bonds hash32 true (config x01) (replicate 97 x00) [xc0] (addressB, 30303) fresh) as (n' & E & Hb & _);
    [done|by split|done|done|done|]. exists n'. split; [exact E|exact Hb].
Defined.

Lemma ping_bonds_both_witness :
  exists nB1, ep_key (dotted addressA) 30303 ∈ bonded_set_ (client nB1).
Proof.
  destruct (ping_bonds_both hash32 true (fun _ => eq_refl) (config x01) (config x02) fresh fresh addressA 30303 addressB 30303
    (config_ready x01 addressB eq_refl) (config_ready x02 addressA eq_refl) eq_refl ltac:(by vm_compute))
    as (pi & po & nA1 & nB1 & nB2 & nA2 & nA3 & _ & _ & _ & Hb & _).
  exists nB1. exact Hb.
Defined.

Lemma neighbours_recorded_witness :
  exists n', handle_packet (config x01) hash32 true (replicate 97 x00 ++ byte_of kPacketTypeNeighbours :: answer) (addressB, 30303) asking = (success tt, n') /\
    peers_ (client n') = record_peers (steady (client asking)) [neighbour1] (peers_ (client asking)).
Proof.
  destruct (pending_replies_ (client asking) !! reply_key (address_to_string addressB) 30303 kPacketTypeNeighbours) as [entry|] eqn:E;
    [|vm_compute in E; discriminate E].
  destruct (neighbours_recorded hash32 true (config x01) (replicate 97 x00) [(neighbour1, [Str [x01]]); (neighbour2, [])] (rlp_uint 1700000060)
    (addressB, 30303) entry asking) as (n' & Hn & Hp & _); [done| | |by vm_compute|exact E|].
  - repeat constructor; done.
  - by vm_compute.
  - exists n'. split; [exact Hn|exact Hp].
Defined.
