(* ===== verification/RpcManager.v ===== *)
(** * RPC endpoints

    [rpc_manager_config.hpp], [rpc_manager.hpp/.cpp], [rpc_probe.cpp] and
    [rpc_config_audit.cpp]: rendering endpoint URLs, grouping endpoints by chain, the
    pool that serves the best usable endpoint and backs off failing ones, the probe of
    a pool and the audit of a configuration.  The environment, the clock and the HTTP
    transport are parameters; times are nanoseconds of the steady clock. *)

From Stdlib Require Import Sorting.Sorted.
From stdpp Require Import pretty.
From S2P Require Import Prelude ParseUtility JsonUtility FinalityPolicy JsonRpc ReceiptSource.

(** ** Configuration *)

Record RpcEndpointConfig := mkEndpointConfig {
  ec_chain_name : text;
  ec_chain_id : Z;
  ec_url_template : text;
  ec_api_key_env_var : option text;
  ec_api_key_literal : option text;
  ec_priority : Z;
  ec_weight : Z;
  ec_rate_limit_per_second : Z;
  ec_is_paid : bool;
  ec_is_public : bool;
  ec_verified : bool
}.

Record RpcManagerConfig := mkManagerConfig { mc_max_endpoints_per_chain : Z; mc_endpoints : list RpcEndpointConfig }.

Module RpcEndpointState.
Inductive t := kAvailable | kTemporarilyFailed | kDisabled.

Definition to_string (state : t) : string :=
  match state with kAvailable => "available" | kTemporarilyFailed => "temporarily_failed" | kDisabled => "disabled" end.

#[global] Instance t_eq_dec : EqDecision t.
Proof. solve_decision. Defined.
End RpcEndpointState.

Inductive RpcEndpointErrorCode := kMissingApiKey | kInvalidTemplate.

Definition RpcEndpointErrorCode_to_string (code : RpcEndpointErrorCode) : string :=
  match code with kMissingApiKey => "missing_api_key" | kInvalidTemplate => "invalid_template" end.

Record RpcEndpointError := mkEndpointError { ee_code : RpcEndpointErrorCode; ee_detail : text }.

Record RpcEndpoint := mkRpcEndpoint {
  re_chain_name : text;
  re_chain_id : Z;
  re_url : text;
  re_priority : Z;
  re_weight : Z;
  re_rate_limit_per_second : Z;
  re_is_paid : bool;
  re_is_public : bool;
  re_verified : bool;
  re_state : RpcEndpointState.t;
  re_last_failure_time : Z;
  re_failure_count : Z;
  re_backoff_until : Z
}.

Record RpcEndpointGroup := mkGroup { rg_chain_name : text; rg_chain_id : Z; rg_endpoints : list RpcEndpoint }.

(** ** Texts *)

(** [find]: the first position of [pattern]. *)
Fixpoint text_find (pattern s : text) : option nat :=
  if decide (pattern `prefix_of` s) then Some 0%nat
  else match s with [] => None | _ :: s' => S <$> text_find pattern s' end.

Definition placeholder : text := lit "{key}".

Definition contains_key_placeholder (template_text : text) : bool := bool_decide (is_Some (text_find placeholder template_text)).

(** The loop of [replace_all_key_placeholders]; every pass shortens what follows [pos]. *)
Fixpoint replace_loop (fuel : nat) (template_text : text) (pos : nat) (key : text) : outcome Empty_set text :=
  match fuel with
  | O => crash Diverge
  | S fuel' =>
      match text_find placeholder (drop pos template_text) with
      | None => success template_text
      | Some i =>
          let pos := (pos + i)%nat in
          replace_loop fuel' (take pos template_text ++ key ++ drop (pos + length placeholder) template_text) (pos + length key) key
      end
  end.

Definition replace_all_key_placeholders (template_text key : text) : outcome Empty_set text :=
  replace_loop (S (length template_text)) template_text 0 key.

(** [<] on [std::string]: bytes are compared as unsigned. *)
Fixpoint text_ltb (a b : text) : bool :=
  match a, b with
  | _, [] => false
  | [], _ :: _ => true
  | x :: a', y :: b' => if u8 x =? u8 y then text_ltb a' b' else u8 x <? u8 y
  end.

Definition endpoint_less (lhs rhs : RpcEndpoint) : bool :=
  if negb (re_priority lhs =? re_priority rhs) then re_priority lhs <? re_priority rhs
  else if negb (re_weight lhs =? re_weight rhs) then re_weight rhs <? re_weight lhs
  else if negb (bool_decide (re_chain_name lhs = re_chain_name rhs)) then text_ltb (re_chain_name lhs) (re_chain_name rhs)
  else if negb (re_chain_id lhs =? re_chain_id rhs) then re_chain_id lhs <? re_chain_id rhs
  else text_ltb (re_url lhs) (re_url rhs).

Definition chain_key (chain_name : text) (chain_id : Z) : text := chain_name ++ lit "#" ++ lit (pretty chain_id).

(** [std::sort]; the order of equivalent elements, which the standard leaves open, is
    kept. *)
Fixpoint sorted_insert {A} (less : A -> A -> bool) (x : A) (l : list A) : list A :=
  match l with
  | [] => [x]
  | y :: l' => if less y x then y :: sorted_insert less x l' else x :: l
  end.
Definition sort_by {A} (less : A -> A -> bool) (l : list A) : list A := foldr (sorted_insert less) [] l.

(** ** rpc_manager.cpp *)

Section rpc_manager.
(** [env_lookup], or [getenv] when none is given. *)
Context (env_lookup : text -> option text).

Definition render_rpc_endpoint_url (config : RpcEndpointConfig) : outcome RpcEndpointError text :=
  let key := match ec_api_key_literal config with
             | Some key => Some key
             | None => name ← ec_api_key_env_var config; env_lookup name
             end in
  if negb (contains_key_placeholder (ec_url_template config)) then success (ec_url_template config) else
  match key with
  | None => failure (mkEndpointError kMissingApiKey
              (match ec_api_key_literal config with
               | Some _ => lit "apiKeyLiteral"
               | None => match ec_api_key_env_var config with Some name => name | None => lit "urlTemplate" end
               end))
  | Some key => match replace_all_key_placeholders (ec_url_template config) key with
                | success url => success url
                | failure e => match e with end
                | crash f => crash f
                end
  end.

Definition build_rpc_endpoint (config : RpcEndpointConfig) : outcome RpcEndpointError RpcEndpoint :=
  url ← render_rpc_endpoint_url config;
  success (mkRpcEndpoint (ec_chain_name config) (ec_chain_id config) url (ec_priority config) (ec_weight config)
    (ec_rate_limit_per_second config) (ec_is_paid config) (ec_is_public config) (ec_verified config)
    RpcEndpointState.kAvailable 0 0 0).

(** [groups[key]] of the ordered map: the entry is made when it is missing. *)
Fixpoint add_to_group (key : text) (name : text) (id : Z) (e : RpcEndpoint) (groups : list (text * RpcEndpointGroup)) : list (text * RpcEndpointGroup) :=
  match groups with
  | [] => [(key, mkGroup name id [e])]
  | (k, g) :: groups' =>
      if decide (k = key) then (k, mkGroup name id (rg_endpoints g ++ [e])) :: groups'
      else if text_ltb key k then (key, mkGroup name id [e]) :: groups
      else (k, g) :: add_to_group key name id e groups'
  end.

(** The first loop of [group_rpc_endpoints]. *)
Fixpoint group_loop (configs : list RpcEndpointConfig) (groups : list (text * RpcEndpointGroup)) : outcome Empty_set (list (text * RpcEndpointGroup)) :=
  match configs with
  | [] => success groups
  | config :: configs' =>
      match build_rpc_endpoint config with
      | crash f => crash f
      | failure _ => group_loop configs' groups
      | success endpoint =>
          group_loop configs' (add_to_group (chain_key (ec_chain_name config) (ec_chain_id config)) (ec_chain_name config) (ec_chain_id config) endpoint groups)
      end
  end.

(** The second loop: sorted, and cut to the limit when there is one. *)
Definition finish_group (max : Z) (g : RpcEndpointGroup) : RpcEndpointGroup :=
  let sorted := sort_by endpoint_less (rg_endpoints g) in
  mkGroup (rg_chain_name g) (rg_chain_id g)
    (if negb (max =? 0) && (max <? Zlen sorted) then take (Z.to_nat max) sorted else sorted).

Definition group_less (lhs rhs : RpcEndpointGroup) : bool :=
  if negb (bool_decide (rg_chain_name lhs = rg_chain_name rhs)) then text_ltb (rg_chain_name lhs) (rg_chain_name rhs)
  else if negb (rg_chain_id lhs =? rg_chain_id rhs) then rg_chain_id lhs <? rg_chain_id rhs
  else Zlen (rg_endpoints lhs) <? Zlen (rg_endpoints rhs).

Definition group_rpc_endpoints (config : RpcManagerConfig) : outcome Empty_set (list RpcEndpointGroup) :=
  groups ← group_loop (mc_endpoints config) [];
  success (sort_by group_less (finish_group (mc_max_endpoints_per_chain config) <$> groups.*2)).
End rpc_manager.

(** ** RpcEndpointPool *)

Definition seconds (n : Z) : Z := n * 1000000000.
Definition kMaxBackoff : Z := 60.
Definition kEscalationWindow : Z := seconds 300.
Definition kEscalationThreshold : Z := 3.

(** [RpcEndpointPool] is its vector of endpoints. *)
Notation RpcEndpointPool := (list RpcEndpoint).

Definition RpcEndpointPool_new (endpoints : list RpcEndpoint) : RpcEndpointPool := sort_by endpoint_less endpoints.

Definition is_usable (now : Z) (endpoint : RpcEndpoint) : bool :=
  bool_decide (re_state endpoint = RpcEndpointState.kAvailable) ||
  (bool_decide (re_state endpoint = RpcEndpointState.kTemporarilyFailed) && (re_backoff_until endpoint <=? now)).

Fixpoint next_endpoint (now : Z) (pool : RpcEndpointPool) : option RpcEndpoint :=
  match pool with
  | [] => None
  | endpoint :: pool' => if is_usable now endpoint then Some endpoint else next_endpoint now pool'
  end.

Definition with_state (state : RpcEndpointState.t) (e : RpcEndpoint) : RpcEndpoint :=
  mkRpcEndpoint (re_chain_name e) (re_chain_id e) (re_url e) (re_priority e) (re_weight e) (re_rate_limit_per_second e)
    (re_is_paid e) (re_is_public e) (re_verified e) state (re_last_failure_time e) (re_failure_count e) (re_backoff_until e).
Definition with_verified (e : RpcEndpoint) : RpcEndpoint :=
  mkRpcEndpoint (re_chain_name e) (re_chain_id e) (re_url e) (re_priority e) (re_weight e) (re_rate_limit_per_second e)
    (re_is_paid e) (re_is_public e) true (re_state e) (re_last_failure_time e) (re_failure_count e) (re_backoff_until e).
Definition with_failure (state : RpcEndpointState.t) (last count until : Z) (e : RpcEndpoint) : RpcEndpoint :=
  mkRpcEndpoint (re_chain_name e) (re_chain_id e) (re_url e) (re_priority e) (re_weight e) (re_rate_limit_per_second e)
    (re_is_paid e) (re_is_public e) (re_verified e) state last count until.

(** The body of [mark_temporary_failure] for a matching endpoint; a shift of [1ULL] by 64
    or more is undefined. *)
Definition mark_failure (now : Z) (e : RpcEndpoint) : outcome Empty_set RpcEndpoint :=
  let count := if (0 <? re_failure_count e) && (kEscalationWindow <? now - re_last_failure_time e) then 0 else re_failure_count e in
  let failure_count := u32 (count + 1) in
  let shift := u32 (failure_count - 1) in
  if 64 <=? shift then crash Indeterminate else
  let backoff_seconds := Z.min (2 ^ shift) kMaxBackoff in
  let state := if kEscalationThreshold <=? failure_count then RpcEndpointState.kDisabled else RpcEndpointState.kTemporarilyFailed in
  success (with_failure state now failure_count (now + seconds backoff_seconds) e).

Fixpoint mark_temporary_failure (now : Z) (url : text) (pool : RpcEndpointPool) : outcome Empty_set RpcEndpointPool :=
  match pool with
  | [] => success []
  | e :: pool' =>
      e' ← (if decide (re_url e = url) then mark_failure now e else success e);
      rest ← mark_temporary_failure now url pool';
      success (e' :: rest)
  end.

Definition disable (url : text) (pool : RpcEndpointPool) : RpcEndpointPool :=
  (fun e => if decide (re_url e = url) then with_state RpcEndpointState.kDisabled e else e) <$> pool.

Definition reset_temporary_failures (pool : RpcEndpointPool) : RpcEndpointPool :=
  (fun e => if decide (re_state e = RpcEndpointState.kTemporarilyFailed)
            then with_failure RpcEndpointState.kAvailable (re_last_failure_time e) 0 0 e else e) <$> pool.

(** ** RpcManager *)

Record RpcManager := mkManager { groups_ : list RpcEndpointGroup; pools_ : list (RpcEndpointGroup * RpcEndpointPool) }.

Definition RpcManager_new (env_lookup : text -> option text) (config : RpcManagerConfig) : outcome Empty_set RpcManager :=
  groups ← group_rpc_endpoints env_lookup config;
  success (mkManager groups ((fun g => (g, RpcEndpointPool_new (rg_endpoints g))) <$> groups)).

Fixpoint find_pool (key : text) (pools : list (RpcEndpointGroup * RpcEndpointPool)) : option RpcEndpointPool :=
  match pools with
  | [] => None
  | (g, p) :: pools' => if decide (chain_key (rg_chain_name g) (rg_chain_id g) = key) then Some p else find_pool key pools'
  end.

Definition pool (chain_name : text) (chain_id : Z) (manager : RpcManager) : option RpcEndpointPool :=
  find_pool (chain_key chain_name chain_id) (pools_ manager).

(** [make_receipt_source]: the URL of the transport, and the source. *)
Definition make_receipt_source (now : Z) (chain_name : text) (chain_id : Z) (finality_policy : FinalityPolicy) (manager : RpcManager) :
    option (text * RpcReceiptSource) :=
  p ← pool chain_name chain_id manager;
  endpoint ← next_endpoint now p;
  Some (re_url endpoint, RpcReceiptSource_new finality_policy 0 1000).

(** ** rpc_probe.cpp *)

Inductive ProbeStatus := kSuccess | kChainIdMismatch | kTransportError | kParseError.

Definition ProbeStatus_to_string (status : ProbeStatus) : string :=
  match status with
  | kSuccess => "success"
  | kChainIdMismatch => "chain_id_mismatch"
  | kTransportError => "transport_error"
  | kParseError => "parse_error"
  end.

Record ProbeResult := mkProbe { pr_url : text; pr_expected_chain_id : Z; pr_status : ProbeStatus; pr_detail : text }.

Section rpc_probe.
(** The JSON parser, and [RpcHttpTransport::call] on a URL. *)
Context (json_parse : text -> option json) (http_call : text -> json -> option text).

Definition probe_endpoint_chain_id (url : text) (expected_chain_id : Z) : ProbeResult :=
  match http_call url (make_eth_chain_id_request 1) with
  | None => mkProbe url expected_chain_id kTransportError (lit "HTTP transport call failed")
  | Some response =>
      match parse_chain_id_response json_parse response with
      | None => mkProbe url expected_chain_id kParseError (lit "Failed to parse chain_id response")
      | Some chain_id =>
          if negb (chain_id =? expected_chain_id)
          then mkProbe url expected_chain_id kChainIdMismatch
                 (lit "Expected chain_id " ++ lit (pretty expected_chain_id) ++ lit ", got " ++ lit (pretty chain_id))
          else mkProbe url expected_chain_id kSuccess []
      end
  end.

(** The loop of [probe_endpoint_pool] from index [i] on; the clock is read in each
    [mark_temporary_failure]. *)
Fixpoint probe_loop (expected_chain_id : Z) (clock : nat -> Z) (i n : nat) (p : RpcEndpointPool) : outcome Empty_set (list ProbeResult * RpcEndpointPool) :=
  match n with
  | O => success ([], p)
  | S n' =>
      match p !! i with
      | None => crash OutOfBounds
      | Some endpoint =>
          let result := probe_endpoint_chain_id (re_url endpoint) expected_chain_id in
          p' ← match pr_status result with
               | kSuccess => success (<[i := with_verified endpoint]> p)
               | _ => mark_temporary_failure (clock i) (re_url endpoint) p
               end;
          '(results, p'') ← probe_loop expected_chain_id clock (S i) n' p';
          success (result :: results, p'')
      end
  end.

Definition probe_endpoint_pool (expected_chain_id : Z) (clock : nat -> Z) (p : RpcEndpointPool) : outcome Empty_set (list ProbeResult * RpcEndpointPool) :=
  probe_loop expected_chain_id clock 0 (length p) p.
End rpc_probe.

(** ** rpc_config_audit.cpp *)

Inductive AuditSeverity := kInfo | kWarning | kError.

Definition AuditSeverity_to_string (severity : AuditSeverity) : string :=
  match severity with kInfo => "INFO" | kWarning => "WARN" | kError => "ERROR" end.

Record AuditFinding := mkFinding { af_severity : AuditSeverity; af_chain_name : text; af_chain_id : Z; af_message : text }.
Record AuditSummary := mkSummary { as_passed : bool; as_findings : list AuditFinding }.

Definition add_error (chain_name : text) (chain_id : Z) (message : string) (s : AuditSummary) : AuditSummary :=
  mkSummary false (as_findings s ++ [mkFinding kError chain_name chain_id (lit message)]).

(** The checks of one endpoint. *)
Definition audit_endpoint (ep : RpcEndpointConfig) (s : AuditSummary) : AuditSummary :=
  let s := if decide (ec_chain_name ep = []) then add_error [] (ec_chain_id ep) "Endpoint has empty chain_name" s else s in
  let s := if ec_chain_id ep =? 0 then add_error (ec_chain_name ep) 0 "Endpoint has zero chain_id" s else s in
  if decide (ec_url_template ep = []) then add_error (ec_chain_name ep) (ec_chain_id ep) "Endpoint has empty url_template" s else s.

Definition dedup_key (ep : RpcEndpointConfig) : text := lit (pretty (ec_chain_id ep)) ++ lit "|" ++ ec_url_template ep.

Record AuditState := mkAudit { au_summary : AuditSummary; au_counts : gmap Z Z; au_seen : gset text }.

Definition audit_step (st : AuditState) (ep : RpcEndpointConfig) : AuditState :=
  let s := audit_endpoint ep (au_summary st) in
  let s := if decide (dedup_key ep ∈ au_seen st)
           then mkSummary (as_passed s) (as_findings s ++ [mkFinding kWarning (ec_chain_name ep) (ec_chain_id ep) (lit "Duplicate endpoint: " ++ ec_url_template ep)])
           else s in
  mkAudit s (<[ec_chain_id ep := default 0 (au_counts st !! ec_chain_id ep) + 1]> (au_counts st)) ({[dedup_key ep]} ∪ au_seen st).

(** The last loop: a chain with no endpoint. *)
Definition audit_count (s : AuditSummary) (kv : Z * Z) : AuditSummary :=
  if kv.2 =? 0 then
    let chain_label := if negb (kv.1 =? 0) then lit "chain_id=" ++ lit (pretty kv.1) else lit "(unknown chain)" in
    mkSummary false (as_findings s ++ [mkFinding kError [] kv.1 (lit "No usable endpoints for " ++ chain_label)])
  else s.

Definition audit_rpc_config (config : RpcManagerConfig) (policy : FinalityPolicy) : AuditSummary :=
  if decide (mc_endpoints config = [])
  then add_error [] 0 "No RPC endpoints configured — at least one endpoint per chain is required" (mkSummary true [])
  else
    let s := if (confirmation_depth policy =? 0) && negb (prefer_finalized policy) && negb (prefer_safe policy)
             then add_error [] 0 "Confirmation depth is zero and neither 'prefer_finalized' nor 'prefer_safe' is set — no finality guarantee" (mkSummary true [])
             else mkSummary true [] in
    let st := foldl audit_step (mkAudit s ∅ ∅) (mc_endpoints config) in
    foldl audit_count (au_summary st) (sort_by (fun a b : Z * Z => a.1 <? b.1) (map_to_list (au_counts st))).

(** ** Orders *)

Record strict_total {K} (lt : K -> K -> bool) : Prop := mkStrictTotal {
  st_irrefl a : lt a a = false;
  st_trans a b c : lt a b = true -> lt b c = true -> lt a c = true;
  st_eq a b : lt a b = false -> lt b a = false -> a = b
}.

Lemma strict_total_Z : strict_total Z.ltb.
Proof. split; intros; rewrite ?Z.ltb_lt, ?Z.ltb_ge in *; lia. Qed.

Lemma strict_total_flip {K} (lt : K -> K -> bool) : strict_total lt -> strict_total (fun a b => lt b a).
Proof. intros [H1 H2 H3]. split; [done| |]; [intros a b c ? ?; by eapply H2|intros a b ? ?; by apply H3]. Qed.

Lemma strict_total_text : strict_total text_ltb.
Proof.
  split.
  - intros a. induction a as [|x a IH]; [done|]. cbn. by rewrite Z.eqb_refl.
  - intros a. induction a as [|x a IH]; intros [|y b] [|z c]; cbn; try done.
    destruct (Z.eqb_spec (u8 x) (u8 y)), (Z.eqb_spec (u8 y) (u8 z)), (Z.eqb_spec (u8 x) (u8 z)); intros H1 H2;
      rewrite ?Z.ltb_lt in *; try lia. by eapply IH.
  - intros a. induction a as [|x a IH]; intros [|y b]; cbn; try done.
    destruct (Z.eqb_spec (u8 x) (u8 y)) as [E|E], (Z.eqb_spec (u8 y) (u8 x)); intros H1 H2; rewrite ?Z.ltb_ge in *; try lia.
    apply u8_inj in E as ->. f_equal. by apply IH.
Qed.

Definition lex {A B} `{EqDecision A} (lt1 : A -> A -> bool) (lt2 : B -> B -> bool) (p q : A * B) : bool :=
  if decide (p.1 = q.1) then lt2 p.2 q.2 else lt1 p.1 q.1.

Lemma strict_total_lex {A B} `{EqDecision A} (lt1 : A -> A -> bool) (lt2 : B -> B -> bool) :
  strict_total lt1 -> strict_total lt2 -> strict_total (lex lt1 lt2).
Proof.
  intros [I1 T1 E1] [I2 T2 E2]. split; unfold lex.
  - intros [a b]. cbn. by rewrite decide_True.
  - intros [a b] [c d] [e f]. cbn. destruct (decide (a = c)) as [->|Hac], (decide (c = e)) as [->|Hce]; intros H1 H2.
    + by eapply T2.
    + done.
    + by rewrite decide_False.
    + destruct (decide (a = e)) as [->|]; [|by eapply T1].
      pose proof (T1 _ _ _ H1 H2) as H3. by rewrite I1 in H3.
  - intros [a b] [c d]. cbn. destruct (decide (a = c)) as [->|Hac].
    + rewrite decide_True by done. intros. f_equal. by apply E2.
    + rewrite decide_False by done. intros. destruct Hac. by apply E1.
Qed.

(** ** Sorting by a key *)

Section sorting.
Context {A K : Type} (lt : K -> K -> bool) (key : A -> K) (less : A -> A -> bool).
Hypothesis lt_total : strict_total lt.
Hypothesis less_key : forall a b, less a b = lt (key a) (key b).

Definition not_after (a b : A) : Prop := less b a = false.

Lemma not_after_trans a b c : not_after a b -> not_after b c -> not_after a c.
Proof.
  unfold not_after. rewrite !less_key. destruct lt_total as [I T E]. intros H1 H2.
  destruct (lt (key c) (key a)) eqn:H3; [|done]. destruct (lt (key a) (key b)) eqn:H4.
  - pose proof (T _ _ _ H3 H4). congruence.
  - assert (key a = key b) as Hab by by apply E. rewrite Hab in H3. congruence.
Qed.

Lemma sorted_insert_perm x l : sorted_insert less x l ≡ₚ x :: l.
Proof.
  induction l as [|y l IH]; [done|]. cbn. destruct (less y x); [|done]. rewrite IH. apply Permutation_swap.
Qed.

Lemma sort_by_perm l : sort_by less l ≡ₚ l.
Proof. unfold sort_by. induction l as [|x l IH]; [done|]. cbn. rewrite sorted_insert_perm. by rewrite IH. Qed.

Lemma sorted_insert_sorted x l : StronglySorted not_after l -> StronglySorted not_after (sorted_insert less x l).
Proof.
  induction 1 as [|y l Hl IH Hy]; cbn; [by repeat constructor|]. destruct (less y x) eqn:E.
  - constructor; [done|]. rewrite sorted_insert_perm. constructor; [|done]. unfold not_after. rewrite less_key in *.
    destruct lt_total as [I T _]. destruct (lt (key x) (key y)) eqn:E'; [|done]. pose proof (T _ _ _ E E') as H. by rewrite I in H.
  - constructor; [by constructor|]. constructor; [done|]. eapply Forall_impl; [done|]. intros z Hz. by eapply not_after_trans.
Qed.

Lemma sort_by_sorted l : StronglySorted not_after (sort_by less l).
Proof. induction l as [|x l IH]; [constructor|]. by apply sorted_insert_sorted. Qed.

Lemma sort_by_id l : StronglySorted not_after l -> sort_by less l = l.
Proof.
  unfold sort_by. induction 1 as [|x l Hl IH Hx]; [done|]. cbn. rewrite IH. destruct l as [|y l]; [done|]. cbn.
  inversion Hx as [|? ? Hy]; subst. unfold not_after in Hy. by rewrite Hy.
Qed.
End sorting.

Definition endpoint_key (e : RpcEndpoint) := (re_priority e, (re_weight e, (re_chain_name e, (re_chain_id e, re_url e)))).
Definition endpoint_lt := lex Z.ltb (lex (fun a b => Z.ltb b a) (lex text_ltb (lex Z.ltb text_ltb))).

Lemma endpoint_lt_total : strict_total endpoint_lt.
Proof.
  repeat apply strict_total_lex; try apply strict_total_Z; try apply strict_total_text. apply (strict_total_flip Z.ltb), strict_total_Z.
Qed.

Lemma endpoint_less_key a b : endpoint_less a b = endpoint_lt (endpoint_key a) (endpoint_key b).
Proof.
  unfold endpoint_less, endpoint_lt, lex, endpoint_key. cbn.
  repeat match goal with |- context [negb (?x =? ?y)] => destruct (Z.eqb_spec x y); [rewrite decide_True by done|rewrite decide_False by done]; cbn [negb]; try done end;
  repeat match goal with |- context [bool_decide (?x = ?y)] => destruct (decide (x = y)); [rewrite bool_decide_eq_true_2 by done|rewrite bool_decide_eq_false_2 by done]; cbn [negb]; try done end;
  repeat match goal with |- context [negb (?x =? ?y)] => destruct (Z.eqb_spec x y); [rewrite decide_True by done|rewrite decide_False by done]; cbn [negb]; try done end.
Qed.

(** ** The pool *)

Notation by_rank := (StronglySorted (not_after endpoint_less)).

(** The fields no operation of a pool changes. *)
Definition identity (e : RpcEndpoint) :=
  (endpoint_key e, re_rate_limit_per_second e, re_is_paid e, re_is_public e).

Lemma sorted_by_identity p p' : identity <$> p' = identity <$> p -> by_rank p -> by_rank p'.
Proof.
  intros E Hp. revert p' E. induction Hp as [|e p Hp IH He]; intros [|e' p'] E; try done; [constructor|].
  rewrite !fmap_cons in E. apply (inj2 cons) in E as [E1 E2]. constructor; [by apply IH|]. clear IH Hp. revert p' E2.
  induction He as [|x p Hx Hp IH]; intros [|x' p'] E2; try done. rewrite !fmap_cons in E2. apply (inj2 cons) in E2 as [E3 E4].
  constructor; [|by apply IH]. unfold not_after in *. rewrite endpoint_less_key in *.
  unfold identity in *. congruence.
Qed.

(** The backoff of an endpoint that failed a short while ago. *)
Definition backed_off (e : RpcEndpoint) : Prop :=
  re_state e = RpcEndpointState.kTemporarilyFailed ->
  1 <= re_failure_count e <= 2 /\ re_backoff_until e = re_last_failure_time e + seconds (2 ^ (re_failure_count e - 1)).

Lemma mark_failure_ok now e e' : mark_failure now e = success e' -> identity e' = identity e /\ backed_off e'.
Proof.
  unfold mark_failure. generalize (if (0 <? re_failure_count e) && (kEscalationWindow <? now - re_last_failure_time e) then 0 else re_failure_count e) as count.
  intros count. cbn zeta. set (fc := u32 (count + 1)).
  destruct (Z.leb_spec 64 (u32 (fc - 1))) as [|Hs]; [done|]. intros [= <-]. split; [done|]. unfold backed_off. cbn.
  destruct (Z.leb_spec kEscalationThreshold fc) as [|Hf]; [done|]. intros _. unfold kEscalationThreshold in Hf.
  assert (0 <= fc < 2 ^ 32) as Hr by (unfold fc, u32; apply Z.mod_pos_bound; lia).
  destruct (Z.eq_dec fc 0) as [E|].
  - rewrite E in Hs. discriminate Hs.
  - split; [lia|]. unfold u32 in *. rewrite Z.mod_small by lia. assert (fc = 1 \/ fc = 2) as [-> | ->] by lia; done.
Qed.

Lemma mark_temporary_failure_ok now url p : forall p', mark_temporary_failure now url p = success p' ->
  identity <$> p' = identity <$> p /\ (Forall backed_off p -> Forall backed_off p').
Proof.
  induction p as [|e p IH]; intros p'; cbn [mark_temporary_failure].
  - by intros [= <-].
  - destruct (decide (re_url e = url)) as [_|_].
    + destruct (mark_failure now e) as [e'|[]|f] eqn:E; [|done]. cbn [mbind outcome_bind].
      destruct (mark_temporary_failure now url p) as [rest|[]|f]; [|done]. intros [= <-]. destruct (IH rest eq_refl) as [E1 E2].
      destruct (mark_failure_ok _ _ _ E) as [E3 E4]. cbn. split; [by rewrite E1, E3|]. inversion 1; subst. constructor; auto.
    + cbn [mbind outcome_bind]. destruct (mark_temporary_failure now url p) as [rest|[]|f]; [|done]. intros [= <-].
      destruct (IH rest eq_refl) as [E1 E2]. cbn. split; [by rewrite E1|]. inversion 1; subst. constructor; auto.
Qed.

Lemma disable_ok url p : identity <$> disable url p = identity <$> p /\ (Forall backed_off p -> Forall backed_off (disable url p)).
Proof.
  unfold disable. split.
  - rewrite <- list_fmap_compose. apply list_fmap_ext. intros i e _. cbn. by destruct (decide _).
  - intros H. apply Forall_fmap. eapply Forall_impl; [done|]. intros e He. cbn. by destruct (decide _).
Qed.

Lemma reset_ok p : identity <$> reset_temporary_failures p = identity <$> p /\
  (Forall backed_off p -> Forall backed_off (reset_temporary_failures p)).
Proof.
  unfold reset_temporary_failures. split.
  - rewrite <- list_fmap_compose. apply list_fmap_ext. intros i e _. cbn. by destruct (decide _).
  - intros H. apply Forall_fmap. eapply Forall_impl; [done|]. intros e He. cbn. by destruct (decide _).
Qed.

Section pool_ops.
Context (json_parse : text -> option json) (http_call : text -> json -> option text).

Lemma probe_loop_ok expected clock n : forall i p r p', probe_loop json_parse http_call expected clock i n p = success (r, p') ->
  identity <$> p' = identity <$> p /\ (Forall backed_off p -> Forall backed_off p').
Proof.
  induction n as [|n IH]; intros i p r p'; cbn [probe_loop]; [by intros [= <- <-]|].
  destruct (p !! i) as [e|] eqn:Ei; [|done]. set (res := probe_endpoint_chain_id _ _ _ _).
  set (m := match pr_status res with kSuccess => _ | _ => _ end).
  destruct m as [p1|[]|f] eqn:Em; [|done]. cbn [mbind outcome_bind].
  destruct (probe_loop _ _ expected clock (S i) n p1) as [[r' p2]|[]|f] eqn:El; [|done]. intros [= <- <-].
  destruct (IH _ _ _ _ El) as [E1 E2].
  assert (identity <$> p1 = identity <$> p /\ (Forall backed_off p -> Forall backed_off p1)) as [E3 E4].
  { unfold m in Em. destruct (pr_status res); [|by eapply mark_temporary_failure_ok..]. injection Em as <-. split.
    - rewrite list_fmap_insert. apply list_insert_id. by rewrite list_lookup_fmap, Ei.
    - intros H. apply Forall_insert; [done|]. by apply (Forall_lookup_1 _ _ _ _ H Ei). }
  split; [by rewrite E1|auto].
Qed.

Inductive pool_op := OpMark (now : Z) (url : text) | OpDisable (url : text) | OpReset | OpProbe (expected : Z) (clock : nat -> Z).

Definition run_pool_op (op : pool_op) (p : RpcEndpointPool) : outcome Empty_set RpcEndpointPool :=
  match op with
  | OpMark now url => mark_temporary_failure now url p
  | OpDisable url => success (disable url p)
  | OpReset => success (reset_temporary_failures p)
  | OpProbe expected clock => rp ← probe_endpoint_pool json_parse http_call expected clock p; success rp.2
  end.

Fixpoint run_pool (ops : list pool_op) (p : RpcEndpointPool) : outcome Empty_set RpcEndpointPool :=
  match ops with [] => success p | op :: ops' => p' ← run_pool_op op p; run_pool ops' p' end.

Lemma run_pool_ok ops : forall p p', run_pool ops p = success p' ->
  identity <$> p' = identity <$> p /\ (Forall backed_off p -> Forall backed_off p').
Proof.
  induction ops as [|op ops IH]; intros p p'; cbn [run_pool]; [by intros [= <-]|].
  destruct (run_pool_op op p) as [p1|[]|f] eqn:E; [|done]. cbn [mbind outcome_bind]. intros [E1 E2]%IH.
  assert (identity <$> p1 = identity <$> p /\ (Forall backed_off p -> Forall backed_off p1)) as [E3 E4].
  { destruct op; cbn [run_pool_op] in E.
    - by eapply mark_temporary_failure_ok.
    - injection E as <-. apply disable_ok.
    - injection E as <-. apply reset_ok.
    - destruct (probe_endpoint_pool _ _ _ _ p) as [[r p2]|[]|f] eqn:Ep; [|done]. injection E as <-.
      by eapply probe_loop_ok. }
  split; [by rewrite E1|auto].
Qed.

Lemma next_endpoint_spec now p : by_rank p ->
  match next_endpoint now p with
  | Some e => e ∈ p /\ is_usable now e = true /\ forall e', e' ∈ p -> is_usable now e' = true -> endpoint_less e' e = false
  | None => forall e, e ∈ p -> is_usable now e = false
  end.
Proof.
  induction 1 as [|e p Hp IH He]; cbn [next_endpoint]; [by intros e ?%not_elem_of_nil|].
  destruct (is_usable now e) eqn:Hu.
  - split; [set_solver|]. split; [done|]. intros e' [->|Hin]%elem_of_cons _.
    + rewrite endpoint_less_key. apply endpoint_lt_total.
    + by apply (proj1 (Forall_forall _ _) He).
  - destruct (next_endpoint now p) as [e0|].
    + destruct IH as (H1 & H2 & H3). split; [set_solver|]. split; [done|]. intros e' [->|Hin]%elem_of_cons Hu'; [congruence|]. by apply H3.
    + intros e' [->|Hin]%elem_of_cons; [done|]. by apply IH.
Qed.

(** C31: Whatever failures, probes, disablings and resets a pool goes through, it serves
    the best endpoint it can: [next_endpoint] returns a usable endpoint that no usable
    one of the pool precedes in the order of priority, weight, chain and URL, and
    nothing only when no endpoint is usable; the endpoints keep their configuration,
    and one that failed without being disabled is usable again after two seconds. *)
Theorem pool_serves_best endpoints ops p now :
  Forall (fun e => re_state e <> RpcEndpointState.kTemporarilyFailed) endpoints ->
  run_pool ops (RpcEndpointPool_new endpoints) = success p ->
  identity <$> p ≡ₚ identity <$> endpoints /\
  match next_endpoint now p with
  | Some e => e ∈ p /\ is_usable now e = true /\ forall e', e' ∈ p -> is_usable now e' = true -> endpoint_less e' e = false
  | None => forall e, e ∈ p -> is_usable now e = false
  end /\
  forall e, e ∈ p -> re_state e = RpcEndpointState.kTemporarilyFailed -> is_usable (re_last_failure_time e + seconds 2) e = true.
Proof.
  intros He Hr. destruct (run_pool_ok _ _ _ Hr) as [E1 E2]. unfold RpcEndpointPool_new in *.
  assert (by_rank (sort_by endpoint_less endpoints)) as Hs by (eapply sort_by_sorted; [apply endpoint_lt_total|apply endpoint_less_key]).
  split; [rewrite E1; by rewrite sort_by_perm|]. split; [by apply next_endpoint_spec, (sorted_by_identity _ _ E1)|].
  assert (Forall backed_off p) as Hb.
  { apply E2. rewrite sort_by_perm. eapply Forall_impl; [done|]. by intros e Hne ?. }
  intros e Hin Ht. destruct (proj1 (Forall_forall _ _) Hb e Hin Ht) as [Hc Hu]. unfold is_usable. rewrite Ht. cbn.
  apply Z.leb_le. rewrite Hu. assert (re_failure_count e = 1 \/ re_failure_count e = 2) as [-> | ->] by lia; unfold seconds; cbn; lia.
Qed.
End pool_ops.

(** The failures that still count at [now]. *)
Definition recent_failures (now : Z) (e : RpcEndpoint) : Z :=
  if (0 <? re_failure_count e) && (kEscalationWindow <? now - re_last_failure_time e) then 0 else re_failure_count e.

(** A failure report looks at the recent failures only and not at the state: a report
    for a disabled endpoint (disabled by hand, or by three failures more than five
    minutes ago) puts it back among the temporarily failed ones, usable two seconds
    later; after 64 recent failures the backoff is computed by an undefined shift. *)
Theorem failure_report_exact now e : in_width 32 (re_failure_count e) ->
  (recent_failures now e < 2 -> exists e', mark_failure now e = success e' /\
     re_state e' = RpcEndpointState.kTemporarilyFailed /\ is_usable (now + seconds 2) e' = true) /\
  (2 <= recent_failures now e < 64 -> exists e', mark_failure now e = success e' /\
     re_state e' = RpcEndpointState.kDisabled /\ forall t, is_usable t e' = false) /\
  (64 <= recent_failures now e < 2 ^ 32 - 1 -> mark_failure now e = crash Indeterminate).
Proof.
  intros Hw. unfold in_width in Hw. assert (0 <= recent_failures now e <= re_failure_count e) as Hr.
  { unfold recent_failures. destruct (_ && _); lia. }
  unfold mark_failure. change (if (0 <? _) && _ then 0 else _) with (recent_failures now e). cbn zeta.
  set (r := recent_failures now e) in *. split_and!; intros Hrange; unfold u32;
    rewrite !(Z.mod_small (r + 1)) by lia; replace (r + 1 - 1) with r by lia; rewrite (Z.mod_small r) by lia.
  - rewrite (proj2 (Z.leb_gt _ _)) by lia. rewrite (proj2 (Z.leb_gt _ _)) by (unfold kEscalationThreshold; lia).
    eexists. split; [done|]. split; [done|]. unfold is_usable. cbn. apply Z.leb_le. unfold seconds.
    assert (r = 0 \/ r = 1) as [-> | ->] by lia; cbn; lia.
  - rewrite (proj2 (Z.leb_gt _ _)) by lia. rewrite (proj2 (Z.leb_le _ _)) by (unfold kEscalationThreshold; lia).
    eexists. split; [done|]. split; [done|]. done.
  - by rewrite (proj2 (Z.leb_le _ _)) by lia.
Qed.

(** ** Rendering *)

Lemma text_find_prefix pattern s : pattern `prefix_of` s -> text_find pattern s = Some 0%nat.
Proof. intros Hp. destruct s; cbn; by rewrite decide_True. Qed.

Lemma text_find_app pattern a s : (forall i, (i < length a)%nat -> ~ pattern `prefix_of` drop i a ++ s) -> pattern `prefix_of` s ->
  text_find pattern (a ++ s) = Some (length a).
Proof.
  induction a as [|x a IH]; intros Hn Hs; [by apply text_find_prefix|]. cbn [app text_find].
  rewrite decide_False by (apply (Hn 0%nat); cbn; lia). cbn [length]. rewrite IH; [done| |done].
  intros i Hi. apply (Hn (S i)). cbn. lia.
Qed.

Lemma text_find_none pattern s : (forall i, (i <= length s)%nat -> ~ pattern `prefix_of` drop i s) -> text_find pattern s = None.
Proof.
  induction s as [|x s IH]; intros Hn; cbn [text_find].
  - rewrite decide_False; [done|]. apply (Hn 0%nat). lia.
  - rewrite decide_False by (apply (Hn 0%nat); lia). rewrite IH; [done|]. intros i Hi. apply (Hn (S i)). cbn. lia.
Qed.

Lemma text_find_bound pattern s i : text_find pattern s = Some i -> pattern `prefix_of` drop i s /\ (i + length pattern <= length s)%nat.
Proof.
  revert i. induction s as [|x s IH]; intros i; cbn [text_find].
  - destruct (decide _) as [Hp|]; [|done]. intros [= <-]. split; [done|]. by apply prefix_length in Hp.
  - destruct (decide (_ `prefix_of` x :: s)) as [Hp|]; [intros [= <-]; split; [done|by apply prefix_length in Hp]|].
    destruct (text_find pattern s) as [j|]; [|done]. cbn. intros [= <-]. destruct (IH j eq_refl). split; [done|]. cbn. lia.
Qed.

(** Replacing ends, whatever the key contains. *)
Lemma replace_loop_ok fuel : forall s pos key, (pos <= length s)%nat -> (length s - pos < fuel)%nat -> exists r, replace_loop fuel s pos key = success r.
Proof.
  induction fuel as [|fuel IH]; intros s pos key Hp Hf; [lia|]. cbn [replace_loop].
  destruct (text_find placeholder (drop pos s)) as [i|] eqn:E; [|by eexists].
  apply text_find_bound in E as [_ Hi]. rewrite length_drop in Hi. apply IH; rewrite !length_app, length_take, length_drop; cbn in *; lia.
Qed.

Lemma replace_all_ok s key : exists r, replace_all_key_placeholders s key = success r.
Proof. apply replace_loop_ok; lia. Qed.

(** Text without a placeholder in it. *)
Definition plain (s : text) : Prop := forall i, ~ placeholder `prefix_of` drop i s.

Lemma plain_before_placeholder a rest i : plain a -> (i < length a)%nat -> ~ placeholder `prefix_of` drop i a ++ placeholder ++ rest.
Proof.
  intros Ha Hi [k E]. destruct (decide (5 <= length (drop i a))%nat) as [Hl|Hl].
  - apply (Ha i). exists (drop 5 (drop i a)).
    assert (take 5 (drop i a ++ placeholder ++ rest) = placeholder) as Ht by (rewrite E; done).
    rewrite take_app_le in Ht by done. rewrite <- Ht at 1. by rewrite take_drop.
  - assert (0 < length (drop i a))%nat as H0 by (rewrite length_drop; lia).
    destruct (drop i a) as [|x0 [|x1 [|x2 [|x3 [|x4 q]]]]]; cbn in E, Hl, H0; try lia; by injection E.
Qed.

Lemma replace_loop_parts key parts last : Forall plain parts -> plain last -> forall fuel pre,
  (length (concat (map (fun p => p ++ placeholder) parts) ++ last) < fuel)%nat ->
  replace_loop fuel (pre ++ concat (map (fun p => p ++ placeholder) parts) ++ last) (length pre) key =
    success (pre ++ concat (map (fun p => p ++ key) parts) ++ last).
Proof.
  intros Hparts Hlast. induction Hparts as [|p parts Hp Hparts IH]; intros [|fuel] pre Hf; [lia|..|lia|]; cbn [replace_loop];
    rewrite drop_app_length; cbn [map concat] in *.
  - rewrite text_find_none; [done|]. intros i _. apply Hlast.
  - rewrite <- !app_assoc in *. rewrite text_find_app; [|intros i Hi; by apply plain_before_placeholder|by eexists].
    rewrite !length_app in Hf. assert (length placeholder = 5%nat) as H5 by done.
    specialize (IH fuel (pre ++ p ++ key)). rewrite <- !app_assoc in IH.
    rewrite <- IH by (rewrite length_app; lia). f_equal.
    + rewrite (app_assoc pre p). rewrite take_app_length' by (by rewrite length_app). rewrite <- !app_assoc. do 3 f_equal.
      rewrite (app_assoc pre p), (app_assoc (pre ++ p) placeholder). apply drop_app_length'. rewrite !length_app. lia.
    + rewrite !length_app. lia.
Qed.

Lemma replace_parts key parts last : Forall plain parts -> plain last ->
  replace_all_key_placeholders (concat (map (fun p => p ++ placeholder) parts) ++ last) key =
    success (concat (map (fun p => p ++ key) parts) ++ last).
Proof. intros Hp Hl. apply (replace_loop_parts key parts last Hp Hl _ []). lia. Qed.

Lemma render_ok env_lookup config : no_crash (render_rpc_endpoint_url env_lookup config).
Proof.
  unfold render_rpc_endpoint_url. destruct (negb _); [done|]. destruct (match ec_api_key_literal config with Some _ => _ | None => _ end) as [key|]; [|done].
  destruct (replace_all_ok (ec_url_template config) key) as [r ->]. done.
Qed.

(** ** Chain keys *)

Lemma pretty_N_go_no_hash x : forall s, x23 ∉ lit s -> x23 ∉ lit (pretty_N_go x s).
Proof.
  induction (N.lt_wf_0 x) as [x _ IH]. intros s Hs. destruct (decide (x = 0)%N) as [->|Hx]; [by rewrite pretty_N_go_0|].
  rewrite pretty_N_go_step by lia. apply IH; [apply N.div_lt; lia|].
  assert (x `mod` 10 < 10)%N as Hm by (apply N.mod_lt; lia). revert Hm. generalize (x `mod` 10)%N as d. intros d Hd.
  assert (d = 0 \/ d = 1 \/ d = 2 \/ d = 3 \/ d = 4 \/ d = 5 \/ d = 6 \/ d = 7 \/ d = 8 \/ d = 9)%N as Hc by lia.
  change (lit (String ?a s)) with (Ascii.byte_of_ascii a :: lit s).
  repeat destruct Hc as [->|Hc]; subst; intros [E|E]%elem_of_cons; done.
Qed.

Lemma pretty_no_hash n : 0 <= n -> x23 ∉ lit (pretty n).
Proof.
  intros Hn. destruct n as [|p|p]; [by intros ?%list_elem_of_singleton| |lia].
  change (pretty (Z.pos p)) with (pretty (N.pos p)). unfold pretty, pretty_N. rewrite decide_False by done.
  apply pretty_N_go_no_hash. set_solver.
Qed.

Lemma split_last {A} (x : A) l1 l2 t1 t2 : x ∉ t1 -> x ∉ t2 -> l1 ++ x :: t1 = l2 ++ x :: t2 -> l1 = l2 /\ t1 = t2.
Proof.
  revert l2. induction l1 as [|a l1 IH]; intros [|b l2] H1 H2 E; cbn in E; simplify_eq.
  - done.
  - destruct H1. apply elem_of_app. right. by left.
  - destruct H2. apply elem_of_app. right. by left.
  - destruct (IH l2 H1 H2) as [-> ->]; [done|]. done.
Qed.

Lemma lit_inj s1 s2 : lit s1 = lit s2 -> s1 = s2.
Proof.
  unfold lit. intros E. rewrite <- (String.string_of_list_byte_of_string s1), <- (String.string_of_list_byte_of_string s2). by rewrite E.
Qed.

Lemma chain_key_inj n1 i1 n2 i2 : 0 <= i1 -> 0 <= i2 -> chain_key n1 i1 = chain_key n2 i2 -> n1 = n2 /\ i1 = i2.
Proof.
  intros H1 H2 E. unfold chain_key in E. change (lit "#" ++ ?t) with (x23 :: t) in E.
  apply split_last in E as [-> E]; [|by apply pretty_no_hash..]. split; [done|]. by apply lit_inj, (inj pretty) in E.
Qed.

(** ** Groups *)

Section groups.
Context (env_lookup : text -> option text).

(** The endpoint of a configuration, when it renders and is of the chain. *)
Definition chain_endpoint (name : text) (id : Z) (c : RpcEndpointConfig) : option RpcEndpoint :=
  if decide (ec_chain_name c = name /\ ec_chain_id c = id)
  then match build_rpc_endpoint env_lookup c with success e => Some e | _ => None end else None.

Definition chain_endpoints (name : text) (id : Z) (configs : list RpcEndpointConfig) : list RpcEndpoint :=
  omap (chain_endpoint name id) configs.

(** The entry of the map of groups. *)
Fixpoint find_group (key : text) (groups : list (text * RpcEndpointGroup)) : list RpcEndpoint :=
  match groups with
  | [] => []
  | (k, g) :: groups' => if decide (k = key) then rg_endpoints g else find_group key groups'
  end.

Record groups_ok (groups : list (text * RpcEndpointGroup)) : Prop := mkGroupsOk {
  gs_sorted : StronglySorted (fun a b => text_ltb a b = true) groups.*1;
  gs_keys : Forall (fun kg => kg.1 = chain_key (rg_chain_name kg.2) (rg_chain_id kg.2) /\ rg_endpoints kg.2 <> [] /\ 0 <= rg_chain_id kg.2) groups
}.

Lemma find_group_above key groups : Forall (fun k => text_ltb key k = true) groups.*1 -> find_group key groups = [].
Proof.
  induction groups as [|[k g] groups IH]; [done|]. cbn. intros [Hk Hg]%Forall_cons. rewrite decide_False; [by apply IH|].
  intros ->. by rewrite (st_irrefl _ strict_total_text) in Hk.
Qed.

Lemma text_ltb_trans a b c : text_ltb a b = true -> text_ltb b c = true -> text_ltb a c = true.
Proof. apply strict_total_text. Qed.

Lemma add_to_group_keys key name id e groups k : k ∈ (add_to_group key name id e groups).*1 -> k = key \/ k ∈ groups.*1.
Proof.
  induction groups as [|[k' g] groups IH]; cbn; [set_solver|].
  destruct (decide (k' = key)) as [->|]; [cbn; set_solver|]. destruct (text_ltb key k'); cbn; set_solver.
Qed.

Lemma add_to_group_ok name id e groups : 0 <= id -> groups_ok groups ->
  groups_ok (add_to_group (chain_key name id) name id e groups) /\
  forall k, find_group k (add_to_group (chain_key name id) name id e groups) =
    if decide (k = chain_key name id) then find_group k groups ++ [e] else find_group k groups.
Proof.
  intros Hid [Hs Hk]. set (key := chain_key name id). induction groups as [|[k0 g] groups IH]; cbn [add_to_group].
  - split; [split; cbn; [by repeat constructor|constructor; [by cbn|constructor]]|]. intros k. cbn. destruct (decide (key = k)), (decide (k = key)); [by subst|congruence..|done].
  - cbn [fmap list_fmap fst] in Hs. inversion Hs as [|? ? Hs' Hf]; subst. inversion Hk as [|? ? Hk0 Hk']; subst. cbn [fst snd] in Hk0.
    destruct (decide (k0 = key)) as [->|Hne].
    + split; [split; cbn; [done|]|].
      * constructor; [|done]. cbn. split; [done|]. split; [by destruct (rg_endpoints g)|done].
      * intros k. cbn. destruct (decide (key = k)), (decide (k = key)); [by subst|congruence..|done].
    + destruct (text_ltb key k0) eqn:El.
      * split; [split; cbn|].
        -- constructor; [done|]. constructor; [done|]. eapply Forall_impl; [exact Hf|]. intros k Hlt. by eapply text_ltb_trans.
        -- constructor; [|done]. by cbn.
        -- intros k. cbn. destruct (decide (key = k)) as [E|]; destruct (decide (k = key)); [subst k|congruence..|done].
           rewrite decide_False by done. rewrite find_group_above; [done|].
           eapply Forall_impl; [exact Hf|]. intros k' Hlt. by eapply text_ltb_trans.
      * destruct (IH Hs' Hk') as [[IH1 IH2] IH3]. split; [split; cbn|].
        -- constructor; [done|]. apply Forall_forall. intros k [->|Hin]%add_to_group_keys; [|by apply (proj1 (Forall_forall _ _) Hf)].
           destruct (text_ltb k0 key) eqn:El'; [done|]. destruct Hne. by apply (st_eq _ strict_total_text).
        -- by constructor.
        -- intros k. cbn. destruct (decide (k0 = k)) as [->|]; [|apply IH3]. by destruct (decide (k = key)).
Qed.

Lemma group_loop_ok configs : Forall (fun c => 0 <= ec_chain_id c) configs -> forall groups, groups_ok groups ->
  exists groups', group_loop env_lookup configs groups = success groups' /\ groups_ok groups' /\
    forall name id, 0 <= id -> find_group (chain_key name id) groups' = find_group (chain_key name id) groups ++ chain_endpoints name id configs.
Proof.
  induction 1 as [|c configs Hc Hcs IH]; intros groups Hg; cbn [group_loop].
  - exists groups. split; [done|]. split; [done|]. intros. by rewrite app_nil_r.
  - assert (build_rpc_endpoint env_lookup c <> crash Diverge /\ forall f, build_rpc_endpoint env_lookup c <> crash f) as [_ Hnc].
    { unfold build_rpc_endpoint. pose proof (render_ok env_lookup c) as Hr. by destruct (render_rpc_endpoint_url env_lookup c). }
    unfold chain_endpoints. cbn [omap list_omap]. unfold chain_endpoint at 1.
    destruct (build_rpc_endpoint env_lookup c) as [e|err|f] eqn:E; [| |by destruct (Hnc f)].
    + destruct (add_to_group_ok (ec_chain_name c) (ec_chain_id c) e groups Hc Hg) as [Hg' Hf].
      destruct (IH _ Hg') as (groups' & E' & Hok & Hfind). exists groups'. split; [done|]. split; [done|]. intros name id Hid.
      rewrite Hfind, Hf by done. destruct (decide (ec_chain_name c = name /\ ec_chain_id c = id)) as [[<- <-]|Hne].
      * rewrite decide_True by done. cbn. by rewrite <- app_assoc.
      * rewrite decide_False; [done|]. intros Hk. apply Hne. apply chain_key_inj in Hk as [-> ->]; done.
    + destruct (IH _ Hg) as (groups' & E' & Hok & Hfind). exists groups'. split; [done|]. split; [done|]. intros name id Hid.
      rewrite Hfind by done. by destruct (decide _).
Qed.

Definition group_key (g : RpcEndpointGroup) : text := chain_key (rg_chain_name g) (rg_chain_id g).

Lemma find_pool_in (f : RpcEndpointGroup -> RpcEndpointPool) g gs : NoDup (group_key <$> gs) -> g ∈ gs ->
  find_pool (group_key g) ((fun g => (g, f g)) <$> gs) = Some (f g).
Proof.
  induction gs as [|g' gs IH]; intros Hn Hg; [by apply not_elem_of_nil in Hg|]. cbn in *. apply NoDup_cons in Hn as [Hn1 Hn2].
  fold (group_key g'). apply elem_of_cons in Hg as [->|Hg]; [by rewrite decide_True|].
  rewrite decide_False; [by apply IH|]. intros E. apply Hn1. rewrite E. by apply list_elem_of_fmap_2.
Qed.

Lemma find_pool_none (f : RpcEndpointGroup -> RpcEndpointPool) key gs : key ∉ (group_key <$> gs) -> find_pool key ((fun g => (g, f g)) <$> gs) = None.
Proof.
  induction gs as [|g gs IH]; intros Hk; [done|]. cbn in *. fold (group_key g). rewrite decide_False by set_solver. apply IH. set_solver.
Qed.

Lemma find_group_cases key groups : (exists g, (key, g) ∈ groups /\ find_group key groups = rg_endpoints g) \/ (find_group key groups = [] /\ key ∉ groups.*1).
Proof.
  induction groups as [|[k g] groups IH]; [right; cbn; set_solver|]. cbn. destruct (decide (k = key)) as [->|]; [left; exists g; set_solver|].
  destruct IH as [(g' & ? & ?)|[? ?]]; [left; exists g'; set_solver|right; set_solver].
Qed.

Lemma sorted_keys_NoDup ks : StronglySorted (fun a b => text_ltb a b = true) ks -> NoDup ks.
Proof.
  induction 1 as [|k ks _ IH Hk]; constructor; [|done]. intros Hin. pose proof (proj1 (Forall_forall _ _) Hk k Hin) as E. cbn in E.
  by rewrite (st_irrefl _ strict_total_text) in E.
Qed.

Lemma take_sorted {A} (R : A -> A -> Prop) n l : StronglySorted R l -> StronglySorted R (take n l).
Proof.
  intros H. revert n. induction H as [|x l Hl IH Hx]; intros [|n]; cbn; try constructor; [done|]. by apply Forall_take.
Qed.

(** The endpoints a pool gets: the best [max] of them, in order; 0 is no limit. *)
Definition best_of (max : Z) (es : list RpcEndpoint) : list RpcEndpoint :=
  let sorted := sort_by endpoint_less es in
  if negb (max =? 0) && (max <? Zlen sorted) then take (Z.to_nat max) sorted else sorted.

Lemma best_of_sorted max es : sort_by endpoint_less (best_of max es) = best_of max es.
Proof.
  eapply sort_by_id. unfold best_of. cbn zeta.
  assert (by_rank (sort_by endpoint_less es)) as Hs by (eapply sort_by_sorted; [apply endpoint_lt_total|apply endpoint_less_key]).
  destruct (_ && _); [by apply take_sorted|done].
Qed.

(** The manager has a pool for exactly the chains with an endpoint whose URL can be
    rendered: building it never faults, and the pool of a chain holds the best
    endpoints configured for that name and id, in the order of priority and weight,
    cut to the limit of the configuration. *)
Theorem manager_pools_exact config : Forall (fun c => 0 <= ec_chain_id c) (mc_endpoints config) ->
  exists m, RpcManager_new env_lookup config = success m /\
  forall name id, 0 <= id ->
    pool name id m = match chain_endpoints name id (mc_endpoints config) with
                     | [] => None
                     | es => Some (best_of (mc_max_endpoints_per_chain config) es)
                     end.
Proof.
  intros Hc. destruct (group_loop_ok _ Hc [] ltac:(split; constructor)) as (groups & E & [Hs Hk] & Hf).
  set (max := mc_max_endpoints_per_chain config). set (gs := finish_group max <$> groups.*2).
  assert (group_key <$> gs = groups.*1) as Hkeys.
  { unfold gs. rewrite <- list_fmap_compose. clear -Hk. induction Hk as [|[k g] groups [Hg _] _ IH]; [done|]. cbn in *. by rewrite IH, Hg. }
  assert (group_key <$> sort_by group_less gs ≡ₚ groups.*1) as Hperm by (rewrite <- Hkeys; by rewrite sort_by_perm).
  unfold RpcManager_new, group_rpc_endpoints. rewrite E. cbn [mbind outcome_bind]. eexists. split; [reflexivity|].
  intros name id Hid. unfold pool. cbn [pools_]. fold max gs. specialize (Hf name id Hid). cbn [find_group app] in Hf. rewrite <- Hf.
  destruct (find_group_cases (chain_key name id) groups) as [(g & Hg & Eg)|[Eg Hn]].
  - destruct (proj1 (Forall_forall _ _) Hk _ Hg) as (Hkey & Hne & _). cbn [fst snd] in Hkey, Hne. rewrite Eg.
    rewrite Hkey. change (chain_key _ _) with (group_key (finish_group max g)).
    rewrite find_pool_in.
    + destruct (rg_endpoints g) eqn:Er; [done|]. f_equal. unfold RpcEndpointPool_new. cbn [finish_group rg_endpoints]. rewrite Er.
      apply best_of_sorted.
    + rewrite Hperm. by apply sorted_keys_NoDup.
    + rewrite sort_by_perm. unfold gs. apply list_elem_of_fmap_2. by apply (list_elem_of_fmap_2 snd) in Hg.
  - rewrite Eg. apply find_pool_none. by rewrite Hperm.
Qed.
End groups.

(** ** The audit *)

Definition endpoint_complete (ep : RpcEndpointConfig) : Prop := ec_chain_name ep <> [] /\ ec_chain_id ep <> 0 /\ ec_url_template ep <> [].

Lemma audit_endpoint_passed ep s : as_passed (audit_endpoint ep s) = true <-> as_passed s = true /\ endpoint_complete ep.
Proof.
  unfold audit_endpoint, endpoint_complete. destruct (decide (ec_chain_name ep = [])), (Z.eqb_spec (ec_chain_id ep) 0), (decide (ec_url_template ep = []));
    cbn; split; intros; tauto || (by destruct_and?).
Qed.

Lemma audit_steps_passed l : forall st, Forall (fun kv => 1 <= kv.2) (map_to_list (au_counts st)) ->
  Forall (fun kv => 1 <= kv.2) (map_to_list (au_counts (foldl audit_step st l))) /\
  (as_passed (au_summary (foldl audit_step st l)) = true <-> as_passed (au_summary st) = true /\ Forall endpoint_complete l).
Proof.
  induction l as [|ep l IH]; intros st Hc; [split; [done|]; split; [by split; [|constructor]|by intros [? _]]|].
  cbn [foldl]. destruct (IH (audit_step st ep)) as [H1 H2].
  - unfold audit_step. cbn [au_counts]. apply Forall_forall. intros [k v] Hin. apply elem_of_map_to_list, lookup_insert_Some in Hin. cbn.
    destruct Hin as [[<- <-]|[_ Hin]].
    + destruct (au_counts st !! ec_chain_id ep) as [n|] eqn:E; cbn; [|lia].
      apply elem_of_map_to_list, (proj1 (Forall_forall _ _) Hc) in E. cbn in E. lia.
    + apply elem_of_map_to_list, (proj1 (Forall_forall _ _) Hc) in Hin. done.
  - split; [done|]. rewrite H2, Forall_cons. unfold audit_step. cbn [au_summary].
    assert (forall s : AuditSummary, as_passed (if decide (dedup_key ep ∈ au_seen st) then mkSummary (as_passed s)
      (as_findings s ++ [mkFinding kWarning (ec_chain_name ep) (ec_chain_id ep) (lit "Duplicate endpoint: " ++ ec_url_template ep)]) else s) = as_passed s) as ->.
    { intros s. by destruct (decide _). }
    rewrite audit_endpoint_passed. tauto.
Qed.

Lemma audit_counts_pass l s : Forall (fun kv : Z * Z => 1 <= kv.2) l -> foldl audit_count s l = s.
Proof.
  induction 1 as [|kv l Hkv _ IH]; [done|]. cbn. unfold audit_count at 2. destruct (Z.eqb_spec kv.2 0); [lia|]. done.
Qed.

(** The audit passes exactly the configurations that have an endpoint, a policy with some
    finality, and a name, an id and a URL in every endpoint; its last check, for chains
    without endpoints, never finds one. *)
Theorem audit_exact config policy :
  as_passed (audit_rpc_config config policy) = true <->
  mc_endpoints config <> [] /\
  (confirmation_depth policy <> 0 \/ prefer_finalized policy = true \/ prefer_safe policy = true) /\
  Forall endpoint_complete (mc_endpoints config).
Proof.
  unfold audit_rpc_config. destruct (decide (mc_endpoints config = [])) as [E|E]; [split; [done|by intros [? _]]|]. cbn zeta.
  set (s := if (confirmation_depth policy =? 0) && _ && _ then _ else mkSummary true []). destruct (audit_steps_passed (mc_endpoints config) (mkAudit s ∅ ∅)) as [H1 H2]; [cbn [au_counts]; rewrite map_to_list_empty; constructor|].
  rewrite audit_counts_pass by (by rewrite sort_by_perm). rewrite H2. cbn [au_summary].
  assert (as_passed s = true <-> confirmation_depth policy <> 0 \/ prefer_finalized policy = true \/ prefer_safe policy = true) as ->; [|tauto].
  unfold s. destruct (Z.eqb_spec (confirmation_depth policy) 0), (prefer_finalized policy), (prefer_safe policy); cbn; split; intros; (tauto || done || (by destruct_or?)).
Qed.

(** ** Examples *)

Module SampleRpc.
Definition config : RpcManagerConfig := mkManagerConfig 1
  [mkEndpointConfig (lit "eth") 1 (lit "https://a/{key}") None (Some (lit "k")) 1 5 0 false true false;
   mkEndpointConfig (lit "eth") 1 (lit "https://b") None None 0 5 0 false true false;
   mkEndpointConfig (lit "eth") 1 (lit "https://c/{key}") (Some (lit "NONE")) None 0 9 0 false true false].
Definition endpoint : RpcEndpoint := mkRpcEndpoint (lit "eth") 1 (lit "https://b") 0 5 0 false true false RpcEndpointState.kDisabled 0 0 0.
Definition available (url : string) (weight : Z) : RpcEndpoint := mkRpcEndpoint (lit "eth") 1 (lit url) 0 weight 0 false true false RpcEndpointState.kAvailable 0 0 0.
End SampleRpc.
Import SampleRpc.

Lemma manager_pools_exact_witness :
  exists m, RpcManager_new (fun _ => None) config = success m /\ pool (lit "eth") 1 m = Some [available "https://b" 5].
Proof.
  destruct (manager_pools_exact (fun _ => None) config) as (m & E & Hp); [repeat constructor; done|].
  exists m. split; [exact E|]. rewrite (Hp (lit "eth") 1) by done. vm_compute. reflexivity.
Defined.

Lemma failure_report_exact_witness : exists e', mark_failure 5 endpoint = success e' /\
  re_state e' = RpcEndpointState.kTemporarilyFailed /\ is_usable (5 + seconds 2) e' = true.
Proof. apply (failure_report_exact 5 endpoint); [split; vm_compute; congruence|vm_compute; reflexivity]. Defined.

Lemma pool_serves_best_witness :
  exists p, run_pool (fun _ => None) (fun _ _ => None) [OpMark 0 (lit "https://a")]
      (RpcEndpointPool_new [available "https://b" 5; available "https://a" 7]) = success p /\
    next_endpoint 5 p = Some (available "https://b" 5) /\
    (forall e', e' ∈ p -> is_usable 5 e' = true -> endpoint_less e' (available "https://b" 5) = false).
Proof.
  eexists. split; [vm_compute; reflexivity|]. split; [vm_compute; reflexivity|].
  exact (proj2 (proj2 (proj1 (proj2 (pool_serves_best (fun _ => None) (fun _ _ => None) [available "https://b" 5; available "https://a" 7]
    [OpMark 0 (lit "https://a")] _ 5 ltac:(repeat constructor; done) eq_refl))))).
Defined.
