(* ===== verification/RpcConfig.v ===== *)
(** * RPC configuration

    [rpc_manager_config.cpp]: the configuration of the RPC manager read from JSON, and
    [chainlist_provider.cpp]: endpoints from a public list of chains.  The JSON parser
    and the file system are parameters. *)

From stdpp Require Import pretty.
From S2P Require Import Prelude ParseUtility JsonUtility RpcManager.

(** ** rpc_manager_config.cpp *)

Definition schema_field (name : string) (type : JsonFieldType) (required : bool) (default_value : option json) : JsonSchemaField :=
  mkSchemaField (lit name) type required default_value None None.

Definition endpoint_schema : JsonSchemaObject := mkSchemaObject
  [schema_field "chainName" kString true None;
   schema_field "chainId" kU64 true None;
   schema_field "urlTemplate" kString true None;
   schema_field "apiKeyEnvVar" kString false None;
   schema_field "apiKeyLiteral" kString false None;
   schema_field "priority" kU32 true None;
   schema_field "weight" kU32 true None;
   schema_field "rateLimitPerSecond" kU32 true None;
   schema_field "paid" kBool false (Some (JBool false));
   schema_field "public" kBool false (Some (JBool true));
   schema_field "verified" kBool false (Some (JBool false))].

Definition endpoints_schema : JsonSchemaArray := mkSchemaArray kObject (Some endpoint_schema) None.

Definition rpc_manager_schema : JsonSchemaObject := mkSchemaObject
  [schema_field "maxEndpointsPerChain" kSize true None;
   mkSchemaField (lit "endpoints") kArray true None None (Some endpoints_schema)].

(** A string that is read only when the field is there. *)
Definition optional_parsed_string (object : JsonParsedObject) (name : text) : JsonResult (option text) :=
  match parsed_find object name with
  | None => success None
  | Some _ => s ← get_parsed_string object name; success (Some s)
  end.

Definition build_endpoint (object : JsonParsedObject) : JsonResult RpcEndpointConfig :=
  chain_name ← get_parsed_string object (lit "chainName");
  chain_id ← get_parsed_u64 object (lit "chainId");
  url_template ← get_parsed_string object (lit "urlTemplate");
  api_key_env_var ← optional_parsed_string object (lit "apiKeyEnvVar");
  api_key_literal ← optional_parsed_string object (lit "apiKeyLiteral");
  priority ← get_parsed_u32 object (lit "priority");
  weight ← get_parsed_u32 object (lit "weight");
  rate_limit ← get_parsed_u32 object (lit "rateLimitPerSecond");
  paid ← get_parsed_bool object (lit "paid");
  public_endpoint ← get_parsed_bool object (lit "public");
  verified ← get_parsed_bool object (lit "verified");
  success (mkEndpointConfig chain_name chain_id url_template api_key_env_var api_key_literal priority weight rate_limit
    paid public_endpoint verified).

(** The loop over the endpoints. *)
Fixpoint build_endpoints (values : list JsonParsedValue) : JsonResult (list RpcEndpointConfig) :=
  match values with
  | [] => success []
  | PObject object :: values' =>
      endpoint ← build_endpoint object;
      rest ← build_endpoints values';
      success (endpoint :: rest)
  | _ :: _ => failure (mkJsonError kWrongType (lit "endpoints[]"))
  end.

Section loading.
Context (json_parse : text -> option json) (read_file : text -> option text).

Definition load_rpc_manager_config_result_from_json_text (json_text : text) : JsonResult RpcManagerConfig :=
  root ← parse_schema_object json_parse json_text rpc_manager_schema;
  max_endpoints ← get_parsed_size root (lit "maxEndpointsPerChain");
  endpoints ← get_parsed_array root (lit "endpoints");
  configs ← build_endpoints endpoints;
  success (mkManagerConfig max_endpoints configs).

Definition load_rpc_manager_config_result_from_json (json_path : text) : JsonResult RpcManagerConfig :=
  match read_file json_path with
  | None => failure (mkJsonError kFileOpenFailed json_path)
  | Some json_text => load_rpc_manager_config_result_from_json_text json_text
  end.

Definition load_rpc_manager_config_from_json_text (json_text : text) : option RpcManagerConfig :=
  match load_rpc_manager_config_result_from_json_text json_text with success config => Some config | _ => None end.

Definition load_rpc_manager_config_from_json (json_path : text) : option RpcManagerConfig :=
  match load_rpc_manager_config_result_from_json json_path with success config => Some config | _ => None end.
End loading.

(** ** chainlist_provider.cpp *)

Definition rpc_array_schema : JsonSchemaArray := mkSchemaArray kString None None.

Definition chain_entry_schema : JsonSchemaObject := mkSchemaObject
  [schema_field "name" kString true None;
   schema_field "chainId" kU64 true None;
   mkSchemaField (lit "rpc") kArray true None None (Some rpc_array_schema);
   schema_field "status" kString false (Some (JString (lit "active")));
   schema_field "shortName" kString false (Some (JString []))].

Definition kApiKeyPlaceholders : list text :=
  lit <$> ["${INFURA_API_KEY}"; "${ALCHEMY_API_KEY}"; "${ANKR_API_KEY}"; "${POKT_API_KEY}"; "${BLASTAPI_API_KEY}"]%string.

(** [url.find(s) == 0] *)
Definition found_at_start (s url : text) : bool := bool_decide (text_find s url = Some 0%nat).

Definition is_filtered_url (url : text) : bool :=
  if decide (url = []) then true
  else if existsb (fun p => bool_decide (is_Some (text_find p url))) kApiKeyPlaceholders then true
  else if found_at_start (lit "wss://") url || found_at_start (lit "ws://") url then true
  else if negb (found_at_start (lit "https://") url) && negb (found_at_start (lit "http://") url) then true
  else false.

(** The fields the loop takes from an element; [None] is a [continue]. *)
Definition chain_entry (element : json) : option (text * Z * list JsonParsedValue) :=
  match element with
  | JObject obj =>
      match parse_schema_object_at_path chain_entry_schema obj [] with
      | success entry =>
          match get_parsed_string entry (lit "status") with
          | success status =>
              if decide (status = lit "deprecated") then None else
              match get_parsed_string entry (lit "name"), get_parsed_u64 entry (lit "chainId"), get_parsed_array entry (lit "rpc") with
              | success name, success chain_id, success rpc_urls => Some (name, chain_id, rpc_urls)
              | _, _, _ => None
              end
          | _ => None
          end
      | _ => None
      end
  | _ => None
  end.

Definition public_endpoint_config (name : text) (chain_id : Z) (url : text) : RpcEndpointConfig :=
  mkEndpointConfig name chain_id url None None 0 0 0 false true false.

(** The inner loop, over the URLs of an entry. *)
Fixpoint add_urls (name : text) (chain_id : Z) (urls : list JsonParsedValue) (st : list RpcEndpointConfig * gset text) : list RpcEndpointConfig * gset text :=
  match urls with
  | [] => st
  | PString url :: urls' =>
      let endpoint := public_endpoint_config name chain_id url in
      if decide (url = []) then add_urls name chain_id urls' st
      else if is_filtered_url url then add_urls name chain_id urls' st
      else if decide (dedup_key endpoint ∈ st.2) then add_urls name chain_id urls' st
      else add_urls name chain_id urls' (st.1 ++ [endpoint], {[dedup_key endpoint]} ∪ st.2)
  | _ :: urls' => add_urls name chain_id urls' st
  end.

Fixpoint entries_loop (entries : list json) (st : list RpcEndpointConfig * gset text) : list RpcEndpointConfig * gset text :=
  match entries with
  | [] => st
  | element :: entries' =>
      match chain_entry element with
      | None => entries_loop entries' st
      | Some (name, chain_id, urls) => entries_loop entries' (add_urls name chain_id urls st)
      end
  end.

Definition parse_chain_entries (entries : list json) : list RpcEndpointConfig := (entries_loop entries ([], ∅)).1.

Definition load_chainlist_from_json_text (json_parse : text -> option json) (json_text : text) : JsonResult (list RpcEndpointConfig) :=
  match json_parse json_text with
  | None => failure (mkJsonError kParseFailed [])
  | Some (JArray entries) => success (parse_chain_entries entries)
  | Some _ => failure (mkJsonError kRootNotObject [])
  end.

Definition filter_to_configured_chains (endpoints : list RpcEndpointConfig) (configured_chain_ids : list Z) : list RpcEndpointConfig :=
  filter (fun ep => ec_chain_id ep ∈ configured_chain_ids) endpoints.

(** ** Documents *)

(** A flag may be left out when it has its default value. *)
Definition flag_field (fields : list (text * json)) (name : string) (b default : bool) : Prop :=
  if_contains fields (lit name) = Some (JBool b) \/ (if_contains fields (lit name) = None /\ b = default).

(** The object of an endpoint: the fields of the schema among any others. *)
Record endpoint_document (c : RpcEndpointConfig) (j : json) : Prop := {
  edoc_fields : list (text * json);
  edoc_object : j = JObject edoc_fields;
  edoc_name : if_contains edoc_fields (lit "chainName") = Some (JString (ec_chain_name c));
  edoc_id : if_contains edoc_fields (lit "chainId") = Some (JInt64 (ec_chain_id c));
  edoc_url : if_contains edoc_fields (lit "urlTemplate") = Some (JString (ec_url_template c));
  edoc_env : if_contains edoc_fields (lit "apiKeyEnvVar") = JString <$> ec_api_key_env_var c;
  edoc_literal : if_contains edoc_fields (lit "apiKeyLiteral") = JString <$> ec_api_key_literal c;
  edoc_priority : if_contains edoc_fields (lit "priority") = Some (JInt64 (ec_priority c));
  edoc_weight : if_contains edoc_fields (lit "weight") = Some (JInt64 (ec_weight c));
  edoc_limit : if_contains edoc_fields (lit "rateLimitPerSecond") = Some (JInt64 (ec_rate_limit_per_second c));
  edoc_paid : flag_field edoc_fields "paid" (ec_is_paid c) false;
  edoc_public : flag_field edoc_fields "public" (ec_is_public c) true;
  edoc_verified : flag_field edoc_fields "verified" (ec_verified c) false
}.

Definition wf_endpoint_config (c : RpcEndpointConfig) : Prop :=
  0 <= ec_chain_id c < 2 ^ 63 /\ in_width 32 (ec_priority c) /\ in_width 32 (ec_weight c) /\ in_width 32 (ec_rate_limit_per_second c).

Definition parsed_endpoint (c : RpcEndpointConfig) : JsonParsedObject :=
  (lit "chainName", PString (ec_chain_name c)) :: (lit "chainId", PU64 (ec_chain_id c)) :: (lit "urlTemplate", PString (ec_url_template c)) ::
  emplace (lit "apiKeyEnvVar") (PString <$> ec_api_key_env_var c) (emplace (lit "apiKeyLiteral") (PString <$> ec_api_key_literal c)
  [(lit "priority", PU32 (ec_priority c)); (lit "weight", PU32 (ec_weight c)); (lit "rateLimitPerSecond", PU32 (ec_rate_limit_per_second c));
   (lit "paid", PBool (ec_is_paid c)); (lit "public", PBool (ec_is_public c)); (lit "verified", PBool (ec_verified c))]).

Lemma parse_unsigned_ok bits n : 0 <= n < 2 ^ bits -> parse_unsigned_integer bits (JInt64 n) = success n.
Proof. intros Hn. cbn. rewrite !(proj2 (Z.ltb_ge _ _)) by lia. done. Qed.

Lemma build_parsed_endpoint c : build_endpoint (parsed_endpoint c) = success c.
Proof. destruct c as [? ? ? [?|] [?|] ? ? ? ? ? ?]; reflexivity. Qed.

(** A flag, or its default, parses to its value. *)
Lemma flag_parses fields name b d path : flag_field fields name b d ->
  match if_contains fields (lit name) with
  | Some value => v ← parse_schema_value value kBool None None path; success (Some v)
  | None => v ← parse_schema_value (JBool d) kBool None None path; success (Some v)
  end = success (Some (PBool b)).
Proof. intros [-> | [-> ->]]; done. Qed.

Lemma parse_endpoint_document c j path : wf_endpoint_config c -> endpoint_document c j ->
  parse_schema_value j kObject (Some endpoint_schema) None path = success (PObject (parsed_endpoint c)).
Proof.
  intros (Hi & Hp & Hw & Hl) [fields -> H1 H2 H3 H4 H5 H6 H7 H8 H9 H10 H11]. unfold in_width in *.
  unfold parse_schema_value, schema_value, endpoint_schema, schema_field. rewrite parse_schema_object_eq. cbn [parse_fields].
  rewrite H1, H2, H3, H4, H5, H6, H7, H8. rewrite !(flag_parses _ _ _ _ _ H9), !(flag_parses _ _ _ _ _ H10), !(flag_parses _ _ _ _ _ H11).
  unfold parse_schema_value. cbn [schema_value parse_string]. unfold parse_u64, parse_u32.
  rewrite !parse_unsigned_ok by lia. cbn [at_field mbind outcome_bind].
  unfold parsed_endpoint. destruct (ec_api_key_env_var c), (ec_api_key_literal c); reflexivity.
Qed.

Lemma parse_endpoint_items cs js path : Forall wf_endpoint_config cs -> Forall2 endpoint_document cs js ->
  parse_schema_array_at_path endpoints_schema js path = success (map (fun c => PObject (parsed_endpoint c)) cs).
Proof.
  intros Hw Hd. unfold endpoints_schema. cbn [parse_schema_array_at_path]. generalize 0%nat. revert path Hw.
  induction Hd as [|c j cs js Hj _ IH]; intros path Hw i; [done|]. inversion Hw; subst. cbn [parse_items].
  change (schema_value _ _ ?v ?t ?o ?a ?p) with (parse_schema_value v t o a p) in *. rewrite (parse_endpoint_document c) by done.
  cbn [mbind outcome_bind]. by rewrite IH.
Qed.

Lemma build_parsed_endpoints cs : build_endpoints (map (fun c => PObject (parsed_endpoint c)) cs) = success cs.
Proof. induction cs as [|c cs IH]; [done|]. cbn [map build_endpoints]. rewrite build_parsed_endpoint. cbn [mbind outcome_bind]. by rewrite IH. Qed.

Lemma root_size n v : get_parsed_size [(lit "maxEndpointsPerChain", PSize n); (lit "endpoints", v)] (lit "maxEndpointsPerChain") = success n.
Proof. done. Qed.
Lemma root_array n vs : get_parsed_array [(lit "maxEndpointsPerChain", PSize n); (lit "endpoints", PArray vs)] (lit "endpoints") = success vs.
Proof. done. Qed.

(** A configuration written as JSON is read back: a document with the limit and the
    endpoints of a configuration, with any further fields and with flags left out where
    they have their default, loads to exactly this configuration. *)
Theorem config_roundtrip json_parse read_file json_text path config root js :
  in_width 63 (mc_max_endpoints_per_chain config) -> Forall wf_endpoint_config (mc_endpoints config) ->
  json_parse json_text = Some (JObject root) ->
  if_contains root (lit "maxEndpointsPerChain") = Some (JInt64 (mc_max_endpoints_per_chain config)) ->
  if_contains root (lit "endpoints") = Some (JArray js) -> Forall2 endpoint_document (mc_endpoints config) js ->
  read_file path = Some json_text ->
  load_rpc_manager_config_from_json json_parse read_file path = Some config.
Proof.
  intros Hm Hw Hp H1 H2 Hd Hf. unfold load_rpc_manager_config_from_json, load_rpc_manager_config_result_from_json. rewrite Hf.
  unfold load_rpc_manager_config_result_from_json_text, parse_schema_object, parse_object. rewrite Hp. cbn [mbind outcome_bind].
  unfold rpc_manager_schema, schema_field. rewrite parse_schema_object_eq. cbn [parse_fields]. rewrite H1, H2. unfold parse_schema_value. cbn [schema_value].
  unfold parse_size_t. rewrite parse_unsigned_ok by (unfold in_width in Hm; lia). cbn [at_field mbind outcome_bind].
  rewrite (parse_endpoint_items (mc_endpoints config)) by done. cbn [mbind outcome_bind emplace].
  rewrite root_size, root_array. cbn [mbind outcome_bind]. rewrite build_parsed_endpoints. cbn. by destruct config.
Qed.

(** ** The list of chains *)

(** The endpoints the list offers, before duplicates are dropped. *)
Definition url_candidate (name : text) (chain_id : Z) (v : JsonParsedValue) : option RpcEndpointConfig :=
  match v with
  | PString url => if is_filtered_url url then None else Some (public_endpoint_config name chain_id url)
  | _ => None
  end.
Definition entry_candidates (element : json) : list RpcEndpointConfig :=
  match chain_entry element with Some (name, chain_id, urls) => omap (url_candidate name chain_id) urls | None => [] end.
Definition candidates (entries : list json) : list RpcEndpointConfig := concat (map entry_candidates entries).

Definition add_candidate (st : list RpcEndpointConfig * gset text) (ep : RpcEndpointConfig) : list RpcEndpointConfig * gset text :=
  if decide (dedup_key ep ∈ st.2) then st else (st.1 ++ [ep], {[dedup_key ep]} ∪ st.2).

Lemma add_urls_eq name chain_id urls : forall st, add_urls name chain_id urls st = foldl add_candidate st (omap (url_candidate name chain_id) urls).
Proof.
  induction urls as [|v urls IH]; intros st; [done|]. destruct v as [url|?|?|?|?|?|?|?]; cbn [add_urls omap list_omap url_candidate]; try apply IH.
  destruct (decide (url = [])) as [->|]; [apply IH|]. destruct (is_filtered_url url); [apply IH|]. cbn [foldl]. unfold add_candidate at 2.
  destruct (decide _); apply IH.
Qed.

Lemma entries_loop_eq entries : forall st, entries_loop entries st = foldl add_candidate st (candidates entries).
Proof.
  unfold candidates. induction entries as [|element entries IH]; intros st; [done|]. cbn [entries_loop map concat]. unfold entry_candidates at 1.
  destruct (chain_entry element) as [[[name chain_id] urls]|]; [|apply IH]. rewrite IH, add_urls_eq. by rewrite foldl_app.
Qed.

Lemma add_candidates_ok l : forall st, st.2 = list_to_set (dedup_key <$> st.1) -> NoDup (dedup_key <$> st.1) ->
  let st' := foldl add_candidate st l in
  NoDup (dedup_key <$> st'.1) /\ (forall ep, ep ∈ st'.1 -> ep ∈ st.1 \/ ep ∈ l) /\
  (forall k, k ∈ (dedup_key <$> st.1) \/ k ∈ (dedup_key <$> l) -> k ∈ (dedup_key <$> st'.1)).
Proof.
  induction l as [|ep l IH]; intros st Hs Hn; cbn [foldl].
  - split; [done|]. split; [auto|]. intros k [?|?]; set_solver.
  - unfold add_candidate at 2 4 6. destruct (decide (dedup_key ep ∈ st.2)) as [Hin|Hnin].
    + destruct (IH st Hs Hn) as (H1 & H2 & H3). split; [done|]. split; [set_solver|]. intros k Hk. apply H3.
      rewrite Hs, elem_of_list_to_set in Hin. set_solver.
    + destruct (IH (st.1 ++ [ep], {[dedup_key ep]} ∪ st.2)) as (H1 & H2 & H3); cbn [fst snd].
      * rewrite fmap_app, list_to_set_app_L, Hs. cbn. set_solver.
      * rewrite fmap_app. apply NoDup_app. split; [done|]. split; [|apply NoDup_singleton].
        intros k Hk ->%list_elem_of_singleton. apply Hnin. by rewrite Hs, elem_of_list_to_set.
      * split; [done|]. split; [set_solver|]. intros k Hk. apply H3. cbn [fst]. set_solver.
Qed.

(** The endpoints taken from a public list of chains are those it offers, without
    duplicates: each is an HTTP URL without a placeholder for a key, of a chain that is
    not deprecated, no chain has a URL twice, and no URL that passes the filter is lost. *)
Theorem chainlist_exact entries :
  let result := parse_chain_entries entries in
  NoDup (dedup_key <$> result) /\
  (forall ep, ep ∈ result -> ep ∈ candidates entries) /\
  (forall ep, ep ∈ candidates entries -> dedup_key ep ∈ (dedup_key <$> result)).
Proof.
  cbn zeta. unfold parse_chain_entries. rewrite entries_loop_eq.
  destruct (add_candidates_ok (candidates entries) ([], ∅) eq_refl ltac:(constructor)) as (H1 & H2 & H3).
  split; [done|]. split; [intros ep [?|?]%H2; set_solver|]. intros ep Hep. apply H3. right. by apply list_elem_of_fmap_2.
Qed.

(** ** Example *)

Module SampleRpcConfig.
Definition config : RpcManagerConfig := mkManagerConfig 3
  [mkEndpointConfig (lit "eth") 1 (lit "https://a/{key}") None (Some (lit "k")) 1 5 0 false true false].
Definition document : list (text * json) :=
  [(lit "chainName", JString (lit "eth")); (lit "note", JNull); (lit "chainId", JInt64 1); (lit "urlTemplate", JString (lit "https://a/{key}"));
   (lit "apiKeyLiteral", JString (lit "k")); (lit "priority", JInt64 1); (lit "weight", JInt64 5); (lit "rateLimitPerSecond", JInt64 0)].
Definition root : list (text * json) := [(lit "maxEndpointsPerChain", JInt64 3); (lit "endpoints", JArray [JObject document])].
End SampleRpcConfig.

Lemma config_roundtrip_witness :
  load_rpc_manager_config_from_json (fun _ => Some (JObject SampleRpcConfig.root)) (fun p => Some p) [] = Some SampleRpcConfig.config.
Proof.
  apply (config_roundtrip _ _ [] [] SampleRpcConfig.config SampleRpcConfig.root [JObject SampleRpcConfig.document]); try reflexivity.
  - split; vm_compute; congruence.
  - constructor; [|constructor]. unfold wf_endpoint_config, in_width; cbn; lia.
  - constructor; [|constructor]. exists SampleRpcConfig.document; try reflexivity; right; split; reflexivity.
Defined.
