(* ===== verification/WatchRunner.v ===== *)
(** * The watch runner

    [src/eth/eth_watch_runner.cpp]: the glue between a session channel and its watch
    service.  The runner is proved against the interface [EthChannel]; over an RLPx
    session the last part follows a block from a peer's announcement through both
    transports to the notification of the application. *)

From S2P Require Import Prelude RlpSpec RlpCommon RlpDecoder DecodeLogic EthObjects EthMessages EthStatus ChainTracker.
From S2P Require Import EventFilter AbiDecoder WatchService RlpxMessages FrameCipher RlpxSession EthHandshake.

(** ** eth_watch_service.hpp *)

Record WatchEventContext := mkContext {
  cx_chain_name : string;
  cx_network_id : Z;
  cx_peer_client_id : list byte;
  cx_peer_address : list byte
}.

Record WatchEventNotification := mkNotification {
  nt_context : WatchEventContext;
  nt_event : MatchedEvent;
  nt_values : list AbiValue;
  nt_event_signature : string
}.

(** The callbacks registered with the runner's service: the lambda of
    [EthWatchRunner::watch_event], which captures the signature, and callbacks that a
    user registers through [service()]. *)
Inductive RunnerCallback := NotifyEvent (event_signature : string) | DirectCallback (n : nat).

(** ** eth_watch_runner.cpp *)

Section runner.
Context {C : Type} `{EthChannel C} (keccak256 : list byte -> list byte).

(** The members; [channel_] may be a null pointer, [rn_notifications] is what
    [event_callback_] was called with. *)
Record EthWatchRunner := mkRunner {
  rn_channel : option C;
  rn_chain_name : string;
  rn_network_id : Z;
  rn_genesis_hash : list byte;
  rn_fork_id : ForkId;
  rn_eth_message_schemas : list EthMessageSchema;
  rn_service : EthWatchService RunnerCallback;
  rn_event_callback : bool;
  rn_notifications : list WatchEventNotification
}.

Notation Runner := (M EthWatchRunner Empty_set).

Definition EthWatchRunner_new (channel : option C) (chain_name : string) (network_id : Z) (genesis_hash : list byte) (fork_id : ForkId)
    (eth_message_schemas : list EthMessageSchema) : EthWatchRunner :=
  mkRunner channel chain_name network_id genesis_hash fork_id eth_message_schemas
    (set_eth_message_schemas eth_message_schemas EthWatchService_new) false [].

Definition with_channel (c : option C) (r : EthWatchRunner) : EthWatchRunner :=
  mkRunner c (rn_chain_name r) (rn_network_id r) (rn_genesis_hash r) (rn_fork_id r) (rn_eth_message_schemas r) (rn_service r)
    (rn_event_callback r) (rn_notifications r).
Definition with_service (s : EthWatchService RunnerCallback) (r : EthWatchRunner) : EthWatchRunner :=
  mkRunner (rn_channel r) (rn_chain_name r) (rn_network_id r) (rn_genesis_hash r) (rn_fork_id r) (rn_eth_message_schemas r) s
    (rn_event_callback r) (rn_notifications r).
Definition with_notifications (l : list WatchEventNotification) (r : EthWatchRunner) : EthWatchRunner :=
  mkRunner (rn_channel r) (rn_chain_name r) (rn_network_id r) (rn_genesis_hash r) (rn_fork_id r) (rn_eth_message_schemas r)
    (rn_service r) (rn_event_callback r) l.

Definition set_event_callback (set : bool) (r : EthWatchRunner) : EthWatchRunner :=
  mkRunner (rn_channel r) (rn_chain_name r) (rn_network_id r) (rn_genesis_hash r) (rn_fork_id r) (rn_eth_message_schemas r)
    (rn_service r) set (rn_notifications r).

(** [context]; the object it returns is static, its value is taken at once. *)
Definition context (r : EthWatchRunner) : WatchEventContext :=
  mkContext (rn_chain_name r) (rn_network_id r)
    (match rn_channel r with Some c => pi_client_id (ch_peer_info c) | None => [] end)
    (match rn_channel r with Some c => pi_remote_address (ch_peer_info c) | None => [] end).

Definition notify_event (event_signature : string) (event : MatchedEvent) (values : list AbiValue) : Runner unit := fun r =>
  if negb (rn_event_callback r) then (success tt, r) else
  (success tt, with_notifications (rn_notifications r ++ [mkNotification (context r) event values event_signature]) r).

(** A call through [channel_->]: a null pointer must not be dereferenced. *)
Definition on_channel_ptr {A} (f : C -> outcome Empty_set A * C) : Runner A := fun r =>
  match rn_channel r with
  | None => (crash OutOfBounds, r)
  | Some c => let '(a, c') := f c in (a, with_channel (Some c') r)
  end.

(** [post_message] of which only the success is looked at. *)
Definition posted (m : Message) (c : C) : outcome Empty_set bool * C :=
  match ch_post_message m c with
  | (success _, c') => (success true, c')
  | (failure _, c') => (success false, c')
  | (crash f, c') => (crash f, c')
  end.

Definition send_local_status : Runner bool := fun r =>
  on_channel_ptr (fun c =>
    let version := ch_eth_version c in
    let offset := ch_eth_offset c in
    if (version =? 0) || (offset =? 0) then (success false, c) else
    match encode_status (BuildLocalStatusMessage version (rn_network_id r) (rn_genesis_hash r) (rn_fork_id r)) with
    | success encoded => posted (mkMessage ((offset + kStatusMessageId) mod 256) encoded) c
    | failure _ => (success false, c)
    | crash f => (crash f, c)
    end) r.

(** The send callback of [install_session_bridge]. *)
Definition bridge_send (m : Z * list byte) : Runner unit :=
  on_channel_ptr (fun c =>
    let offset := ch_eth_offset c in
    if offset =? 0 then (success tt, c) else
    match posted (mkMessage ((offset + m.1) mod 256) m.2) c with
    | (success _, c') => (success tt, c')
    | (failure e, c') => (failure e, c')
    | (crash f, c') => (crash f, c')
    end).

(** Send callback first, then the handler of the channel. *)
Definition install_session_bridge : Runner unit := fun r =>
  on_channel_ptr (fun c => (success tt, ch_set_eth_message_handler c)) (with_service (set_send_callback true (rn_service r)) r).

Definition run_callback (call : EventCall RunnerCallback) : Runner unit :=
  let '(cb, event, values) := call in
  match cb with
  | NotifyEvent event_signature => notify_event event_signature event values
  | DirectCallback _ => mret tt
  end.

(** The ETH message handler of [install_session_bridge]: [process_message], with the
    calls of the send callback and of the event callbacks it makes.  The ones only touch
    the channel and the others only the notifications, so that their order relative to
    each other does not show. *)
Definition on_eth_message (eth_msg_id : Z) (payload : list byte) : Runner unit := fun r =>
  let s := rn_service r in
  let '(result, s') := process_message keccak256 eth_msg_id payload s in
  (for_each bridge_send (drop (length (sv_sent s)) (sv_sent s')) ;;
   for_each run_callback (drop (length (sv_calls s)) (sv_calls s')) ;;
   lift result) (with_service s' r).

Definition runner_watch_event (contract_address : list byte) (event_signature : string) (params : list AbiParam)
    (from_block to_block : option Z) : Runner Z := fun r =>
  let '(id, s) := watch_event keccak256 contract_address event_signature params (NotifyEvent event_signature) from_block to_block (rn_service r) in
  (id, with_service s r).
End runner.
Arguments EthWatchRunner : clear implicits.

(** ** A runner on an RLPx session *)

Section rlpx_runner.
Context `{FramePrimitives, Snappy} (keccak256 : list byte -> list byte).
Notation RlpxRunner := (EthWatchRunner RlpxEthSessionChannel).

(** The second constructor wraps the session in an adapter. *)
Definition EthWatchRunner_of_session (session : RlpxSession) (arrivals : list (list (list Message))) (chain_name : string) (network_id : Z)
    (genesis_hash : list byte) (fork_id : ForkId) (schemas : list EthMessageSchema) : RlpxRunner :=
  EthWatchRunner_new (Some (mkChannel session arrivals)) chain_name network_id genesis_hash fork_id schemas.

(** What the session's handlers do: only the ETH handler is the runner's. *)
Definition on_handler_call (call : HandlerCall) : M RlpxRunner Empty_set unit :=
  match call with
  | EthCall id payload => on_eth_message keccak256 id payload
  | _ => mret tt
  end.

(** An iteration of the session's receive loop, with its handlers: how the loop goes
    on, and whether the handlers faulted. *)
Definition runner_receive (r : RlpxRunner) : option (outcome SessionError.t unit) * outcome Empty_set unit * RlpxRunner :=
  match rn_channel r with
  | None => (Some (crash OutOfBounds), success tt, r)
  | Some c =>
      let '(result, calls, session) := receive_iteration (ch_session c) in
      let '(handled, r') := for_each on_handler_call calls (with_channel (Some (mkChannel session (ch_arrivals c))) r) in
      (result, handled, r')
  end.
End rlpx_runner.

(** ** What a message handler does *)

Section bridge_facts.
Context {C : Type} `{EthChannel C} (keccak256 : list byte -> list byte).
Notation Rn := (EthWatchRunner C).

Definition notification (r : Rn) (call : EventCall RunnerCallback) : list WatchEventNotification :=
  match call with
  | (NotifyEvent sig, event, values) => if rn_event_callback r then [mkNotification (context r) event values sig] else []
  | (DirectCallback _, _, _) => []
  end.

Definition notified (calls : list (EventCall RunnerCallback)) (r : Rn) : Rn :=
  with_notifications (rn_notifications r ++ concat (map (notification r) calls)) r.

Lemma run_callbacks calls (r : Rn) : for_each run_callback calls r = (success tt, notified calls r).
Proof.
  unfold notified. revert r. induction calls as [|[[cb ev] vs] calls IH]; intros r; cbn [for_each].
  { cbn. rewrite app_nil_r. by destruct r. }
  destruct cb as [sig|n].
  - unfold run_callback, notify_event. unfold mbind, M_bind. destruct r as [c ? ? ? ? ? ? [] l]; cbn [negb rn_event_callback].
    + rewrite IH. unfold with_notifications, context. cbn. by rewrite <- app_assoc.
    + rewrite IH. by cbn.
  - unfold run_callback. rewrite (bind_success (mret tt) _ _ _ _ eq_refl). rewrite IH. by cbn.
Qed.
End bridge_facts.

(** ** Two connected sessions *)

(** The bytes that [a] wrote travel to [b]. *)
Definition drain (s : RlpxSession) : RlpxSession :=
  let st := stream_ s in let t := transport st in
  set_stream (mkStream (cipher st) (mkTransport (rx t) [] (socket_open t) (peer_reset t)) (compression_enabled st)) s.
Definition travel (a b : RlpxSession) : RlpxSession * RlpxSession := (drain a, arrive (tx (transport (stream_ a))) false b).

Section paired_sessions.
Context `{FramePrimitivesLaws, SnappyLaws}.

(** Connected in both directions, with nothing on the wire. *)
Record paired (a b : RlpxSession) : Prop := {
  pd_ab : connected a b;
  pd_ba : connected b a;
  pd_tx_a : tx (transport (stream_ a)) = [];
  pd_rx_a : rx (transport (stream_ a)) = [];
  pd_tx_b : tx (transport (stream_ b)) = [];
  pd_rx_b : rx (transport (stream_ b)) = []
}.

Lemma paired_sym a b : paired a b -> paired b a.
Proof. intros []. by split. Qed.

Lemma paired_queues a b qa qb ra rb : paired a b ->
  paired (set_send_channel qa (set_recv_channel ra a)) (set_send_channel qb (set_recv_channel rb b)).
Proof. intros [[] [] ? ? ? ?]. split; [by split|by split|done..]. Qed.

(** The first message in the queue of [a] reaches [b]: one iteration of the send loop,
    the bytes, one iteration of the receive loop. *)
Lemma message_travels a b m q : paired a b -> send_channel a = m :: q -> wf_message (compression_enabled (stream_ a)) m ->
  exists a1 sta stb, send_iteration a = (None, a1) /\
    (travel a1 b).1 = set_stream sta (set_send_channel q a) /\
    receive_iteration (travel a1 b).2 = (None, route_message b m, set_recv_channel (recv_channel b ++ [m]) (set_stream stb b)) /\
    paired (set_stream sta a) (set_stream stb b) /\
    compression_enabled sta = compression_enabled (stream_ a) /\ compression_enabled stb = compression_enabled (stream_ b).
Proof.
  intros [[Aa Ab Ac [As1 As2] Ao Ar Aob] [Ba Bb Bc [Bs1 Bs2] Bo Br Bob] Txa Rxa Txb Rxb] Hq Hm.
  pose proof (send_message_eq m (stream_ a) Hm Ao Ar) as Es.
  set (data := message_data (compression_enabled (stream_ a)) m) in *. cbn zeta in Es.
  unfold send_iteration. rewrite decide_True, Hq by done. unfold send_popped. cbn [stream_ set_send_channel]. rewrite Es.
  eexists _, _, (mkStream (after_receive data (cipher (stream_ a)) (cipher (stream_ b))) (mkTransport [] [] true (peer_reset (transport (stream_ b)))) (compression_enabled (stream_ b))).
  split; [reflexivity|]. split; [reflexivity|]. split.
  - unfold travel, drain. cbn [fst snd set_stream stream_ transport cipher compression_enabled rx tx socket_open peer_reset].
    rewrite Txa. cbn [app]. unfold receive_iteration. rewrite decide_True by done. unfold receive_one.
    erewrite (receive_message_eq m (cipher (stream_ a)) _ []).
    + cbn [arrive stream_ set_stream cipher compression_enabled transport tx rx peer_reset]. rewrite Ac, Txb, Br, orb_false_l.
      by destruct b.
    + cbn. by rewrite Ac.
    + split; done.
    + cbn. rewrite Rxb, Ac. cbn [app]. by rewrite app_nil_r.
    + done.
  - split; [|done]. rewrite Br. split; cbn; try done.
Qed.
End paired_sessions.

(** ** A runner and its peer *)

(** The message of the wire for an ETH message. *)
Definition eth_message (offset : Z) (m : Z * list byte) : Message := mkMessage ((offset + m.1) mod 256) m.2.

Section conversation.
Context `{FramePrimitives, Snappy} (keccak256 : list byte -> list byte).
Notation System := (EthWatchRunner RlpxEthSessionChannel * RlpxSession)%type.

(** The peer posts a message, its send loop writes it and the receive loop of the
    runner's session reads it. *)
Definition peer_says (m : Message) (st : System) : option System :=
  let '(r, b) := st in
  match rn_channel r, post_message m b with
  | Some c, (success _, b1) =>
      match send_iteration b1 with
      | (None, b2) =>
          let '(b3, a) := travel b2 (ch_session c) in
          match runner_receive keccak256 (with_channel (Some (mkChannel a (ch_arrivals c))) r) with
          | (None, success _, r') => Some (r', b3)
          | _ => None
          end
      | _ => None
      end
  | _, _ => None
  end.

(** The send loop of the runner's session writes a message and the peer's receive loop
    reads it. *)
Definition runner_sends (st : System) : option System :=
  let '(r, b) := st in
  match rn_channel r with
  | Some c =>
      match send_iteration (ch_session c) with
      | (None, a) =>
          let '(a', b1) := travel a b in
          match receive_iteration b1 with
          | (None, _, b2) => Some (with_channel (Some (mkChannel a' (ch_arrivals c))) r, b2)
          | _ => None
          end
      | _ => None
      end
  | None => None
  end.
End conversation.

Section conversation_facts.
Context `{FramePrimitivesLaws, SnappyLaws} (keccak256 : list byte -> list byte).
Notation Rn := (EthWatchRunner RlpxEthSessionChannel).

Lemma route_eth a id payload : on_eth (handlers a) = true -> 16 <= negotiated_eth_offset_ a -> 0 <= id -> negotiated_eth_offset_ a + id < 256 ->
  route_message a (eth_message (negotiated_eth_offset_ a) (id, payload)) = [EthCall id payload].
Proof.
  intros Hh Ho Hi Hs. unfold route_message, eth_message. cbn [msg_id msg_payload fst snd]. rewrite Z.mod_small by lia.
  unfold kHelloMessageId, kDisconnectMessageId, kPingMessageId, kPongMessageId. rewrite !(proj2 (Z.eqb_neq _ _)) by lia.
  rewrite Hh. unfold normalize_eth_message_id. rewrite (proj2 (Z.ltb_ge _ _)) by lia. unfold u8_wrap.
  by replace (negotiated_eth_offset_ a + id - negotiated_eth_offset_ a) with id by lia; rewrite Z.mod_small by lia.
Qed.

Lemma post_active m s : state_ s = SessionState.kActive -> post_message m s = (success tt, set_send_channel (send_channel s ++ [m]) s).
Proof. intros Ha. unfold post_message, require_active, mbind, M_bind. by rewrite Ha. Qed.

Lemma bridge_sends out : forall a arrivals (r : Rn), rn_channel r = Some (mkChannel a arrivals) -> state_ a = SessionState.kActive ->
  negotiated_eth_offset_ a <> 0 ->
  for_each bridge_send out r =
    (success tt, with_channel (Some (mkChannel (set_send_channel (send_channel a ++ map (eth_message (negotiated_eth_offset_ a)) out) a) arrivals)) r).
Proof.
  induction out as [|m out IH]; intros a arrivals r Hr Ha Ho; cbn [for_each map].
  { rewrite app_nil_r. by destruct r, a; cbn in *; subst. }
  rewrite (bind_success _ _ _ tt (with_channel (Some (mkChannel (set_send_channel (send_channel a ++ [eth_message (negotiated_eth_offset_ a) m]) a) arrivals)) r)).
  - erewrite IH by done. unfold with_channel, set_send_channel. cbn. by rewrite <- app_assoc.
  - unfold bridge_send, on_channel_ptr. rewrite Hr. cbn [ch_eth_offset rlpx_eth_channel ch_session].
    rewrite (proj2 (Z.eqb_neq _ _)) by done. unfold posted. cbn [ch_post_message rlpx_eth_channel]. unfold adapter_post_message.
    cbn [ch_session ch_arrivals]. by rewrite post_active.
Qed.

Lemma on_eth_message_eq id payload a arrivals (r : Rn) s' out calls :
  rn_channel r = Some (mkChannel a arrivals) -> state_ a = SessionState.kActive -> negotiated_eth_offset_ a <> 0 ->
  process_message keccak256 id payload (rn_service r) = (success tt, s') ->
  sv_sent s' = sv_sent (rn_service r) ++ out -> sv_calls s' = sv_calls (rn_service r) ++ calls ->
  on_eth_message keccak256 id payload r =
    (success tt, notified calls (with_service s'
       (with_channel (Some (mkChannel (set_send_channel (send_channel a ++ map (eth_message (negotiated_eth_offset_ a)) out) a) arrivals)) r))).
Proof.
  intros Hr Ha Ho E Hs Hc. unfold on_eth_message. rewrite E, Hs, Hc, !drop_app_length.
  rewrite (bind_success _ _ _ _ _ (bridge_sends out a arrivals (with_service s' r) Hr Ha Ho)).
  rewrite (bind_success _ _ _ _ _ (run_callbacks calls _)). done.
Qed.

(** A message of the peer runs the runner's handler. *)
Lemma peer_says_eq id payload a b arrivals (r : Rn) :
  rn_channel r = Some (mkChannel a arrivals) -> paired a b -> send_channel b = [] -> on_eth (handlers a) = true ->
  16 <= negotiated_eth_offset_ a -> 0 <= id -> negotiated_eth_offset_ a + id < 256 ->
  let m := eth_message (negotiated_eth_offset_ a) (id, payload) in
  wf_message (compression_enabled (stream_ a)) m ->
  exists sta stb, paired (set_stream sta a) (set_stream stb b) /\ compression_enabled sta = compression_enabled (stream_ a) /\
    forall r', on_eth_message keccak256 id payload (with_channel (Some (mkChannel (set_recv_channel (recv_channel a ++ [m]) (set_stream sta a)) arrivals)) r)
      = (success tt, r') -> peer_says keccak256 m (r, b) = Some (r', set_stream stb b).
Proof.
  intros Hr Hp Hq Hh Ho Hi Hs m Hm. pose proof (pd_ba _ _ Hp) as [Bb Ba Bc _ _ _ _].
  destruct (message_travels (set_send_channel [m] b) a m []) as (b1 & stb & sta & E1 & E2 & E3 & E4 & E5 & E6).
  { apply paired_sym in Hp. apply (paired_queues _ _ [m] (send_channel a) (recv_channel b) (recv_channel a)) in Hp. by destruct a, b. }
  { done. } { cbn [stream_ set_send_channel]. by rewrite <- Bc. }
  exists sta, stb. split; [|split; [done|]].
  { apply paired_sym in E4. apply (paired_queues _ _ (send_channel a) [] (recv_channel a) (recv_channel b)) in E4. destruct a, b; cbn in *. by subst. }
  intros r' E. unfold peer_says. rewrite Hr. rewrite post_active by done. rewrite Hq. cbn [app ch_session ch_arrivals]. rewrite E1.
  destruct (travel b1 a) as [b3 a1]. cbn [fst snd] in E2, E3. unfold runner_receive. cbn [rn_channel with_channel ch_session ch_arrivals].
  rewrite E3. unfold m at 1. rewrite route_eth by done. cbn [for_each on_handler_call].
  rewrite (bind_success _ _ _ _ _ E). cbn. subst b3. destruct b; cbn in *. by subst.
Qed.
End conversation_facts.

Section conversation_theorem.
Context `{FramePrimitivesLaws, SnappyLaws} (keccak256 : list byte -> list byte).
Notation Rn := (EthWatchRunner RlpxEthSessionChannel).

(** The first message in the queue of the runner's session reaches the peer. *)
Lemma runner_sends_eq m a b arrivals (r : Rn) :
  rn_channel r = Some (mkChannel a arrivals) -> paired a b -> send_channel a = [m] -> wf_message (compression_enabled (stream_ a)) m ->
  exists sta stb, paired (set_stream sta a) (set_stream stb b) /\ compression_enabled sta = compression_enabled (stream_ a) /\
    runner_sends (r, b) = Some (with_channel (Some (mkChannel (set_stream sta (set_send_channel [] a)) arrivals)) r,
                                set_recv_channel (recv_channel b ++ [m]) (set_stream stb b)).
Proof.
  intros Hr Hp Hq Hm. destruct (message_travels a b m [] Hp Hq Hm) as (a1 & sta & stb & E1 & E2 & E3 & E4 & E5 & E6).
  exists sta, stb. split; [done|]. split; [done|]. unfold runner_sends. rewrite Hr. cbn [ch_session ch_arrivals]. rewrite E1.
  destruct (travel a1 b) as [a2 b1]. cbn [fst snd] in E2, E3. by rewrite E3, E2.
Qed.

(** C1: From a peer's announcement to the application, through both transports: when the
    peer of a runner with an installed bridge announces a block, the runner's session
    sends it a GetReceipts request for this block, and the peer's answer makes the runner
    notify the application of exactly the events of the block that the registered watches
    accept, with the name and network id of the chain and the client id of the peer; no
    notification is made before the answer, and the two sessions stay in step. *)
Theorem announced_block_notified k (r : Rn) a b arrivals h number receipts announcement request answer :
  let s := rn_service r in
  let offset := negotiated_eth_offset_ a in
  let reply := mkRequest (Some (next_req_id_ s)) [receipts] in
  rn_channel r = Some (mkChannel a arrivals) -> paired a b -> send_channel a = [] -> send_channel b = [] ->
  on_eth (handlers a) = true -> 16 <= offset <= 239 ->
  service_ok k s -> send_cb_ s = true -> eth_message_schemas_ s = [] -> pending_requests_ s !! next_req_id_ s = None ->
  wf_new_block_hash (mkNewBlockHashEntry h number) -> is_seen h (chain_tracker_ s) = false ->
  sendable (Forall (Forall wf_rc)) (rlp_seq (rlp_seq rlp_receipt)) reply ->
  Forall (fun rc => Forall (log_safe keccak256 (sv_subscriptions s)) (rc_logs rc)) receipts ->
  encode_new_block_hashes [mkNewBlockHashEntry h number] = success announcement ->
  encode_get_receipts (mkRequest (Some (next_req_id_ s)) [h]) = success request -> encode_receipts reply = success answer ->
  Forall (fun m => wf_message (compression_enabled (stream_ a)) (eth_message offset m))
    [(kNewBlockHashesMessageId, announcement); (kGetReceiptsMessageId, request); (kReceiptsMessageId, answer)] ->
  exists r1 b1 r2 b2 r3 b3,
    peer_says keccak256 (eth_message offset (kNewBlockHashesMessageId, announcement)) (r, b) = Some (r1, b1) /\
    rn_notifications r1 = rn_notifications r /\
    runner_sends (r1, b1) = Some (r2, b2) /\
    recv_channel b2 = recv_channel b ++ [eth_message offset (kGetReceiptsMessageId, request)] /\
    peer_says keccak256 (eth_message offset (kReceiptsMessageId, answer)) (r2, b2) = Some (r3, b3) /\
    rn_notifications r3 = rn_notifications r ++
      concat (map (notification r) (concat (map (event_deliveries keccak256 (live s))
        (block_events 0 (combine receipts (replicate (length receipts) zero_hash)) 0 number h [])))) /\
    exists a3, rn_channel r3 = Some (mkChannel a3 arrivals) /\ paired a3 b3 /\ send_channel a3 = [] /\ send_channel b3 = [].
Proof.
  intros s offset reply Hr Hp Hqa Hqb Hh Ho Hs Hcb Hsch Hnone Hwf Hseen Hreply Hsafe Ea Er Ean Hm.
  apply Forall_cons in Hm as [Hm1 Hm]. apply Forall_cons in Hm as [Hm2 Hm]. apply Forall_cons in Hm as [Hm3 _].
  destruct (announced_block_delivered keccak256 s k h number receipts Hs Hcb Hsch Hnone Hwf Hseen Hreply Hsafe)
    as (an & rq & aw & s1 & s2 & E1 & P1 & S1 & C1 & E2 & _ & E3 & P2 & _ & S2 & C2).
  rewrite Ea in E1. injection E1 as <-. rewrite Er in E2. injection E2 as <-. fold reply in E3. rewrite Ean in E3. injection E3 as <-.
  assert (state_ a = SessionState.kActive) as Ha by apply Hp.
  (* the announcement *)
  destruct (peer_says_eq keccak256 kNewBlockHashesMessageId announcement a b arrivals r Hr Hp Hqb Hh) as (sta1 & stb1 & Hp1 & Hc1 & Hsay1);
    [fold offset; lia|done|fold offset; unfold kNewBlockHashesMessageId; lia|done|].
  fold offset in Hsay1. set (m1 := eth_message offset (kNewBlockHashesMessageId, announcement)) in *.
  pose proof (on_eth_message_eq keccak256 kNewBlockHashesMessageId announcement (set_recv_channel (recv_channel a ++ [m1]) (set_stream sta1 a)) arrivals
    (with_channel (Some (mkChannel (set_recv_channel (recv_channel a ++ [m1]) (set_stream sta1 a)) arrivals)) r) s1 [(kGetReceiptsMessageId, request)] []
    eq_refl Ha ltac:(cbn; fold offset; lia) P1 S1 ltac:(by rewrite app_nil_r)) as O1.
  specialize (Hsay1 _ O1). cbn [set_recv_channel set_stream negotiated_eth_offset_ send_channel recv_channel map] in O1, Hsay1. fold offset in O1, Hsay1.
  rewrite Hqa in Hsay1. cbn [app] in Hsay1. set (m2 := eth_message offset (kGetReceiptsMessageId, request)) in *.
  match type of Hsay1 with _ = Some (?x, _) => set (r1 := x) in Hsay1 end.
  (* the request *)
  destruct (runner_sends_eq m2 (set_send_channel [m2] (set_recv_channel (recv_channel a ++ [m1]) (set_stream sta1 a))) (set_stream stb1 b) arrivals r1)
    as (sta2 & stb2 & Hp2 & Hc2 & Hsend); [done| |done|by cbn; rewrite Hc1|].
  { apply (paired_queues _ _ [m2] [] (recv_channel a ++ [m1]) (recv_channel b)) in Hp1. destruct b; cbn in *; by subst. }
  cbn [set_recv_channel set_stream set_send_channel recv_channel] in Hsend.
  match type of Hsend with _ = Some (?x, ?y) => set (r2 := x) in Hsend; set (b2 := y) in Hsend end.
  (* the answer *)
  match eval unfold r2 in r2 with with_channel (Some (mkChannel ?x _)) _ => set (a2 := x) in r2 end.
  assert (paired a2 b2) as Hpa.
  { apply (paired_queues _ _ [] [] (recv_channel a ++ [m1]) (recv_channel b ++ [m2])) in Hp2. destruct b; cbn in *; by subst. }
  destruct (peer_says_eq keccak256 kReceiptsMessageId answer a2 b2 arrivals r2 eq_refl Hpa) as (sta3 & stb3 & Hp3 & Hc3 & Hsay3);
    [done|done|change (negotiated_eth_offset_ a2) with offset; lia|done|change (negotiated_eth_offset_ a2) with offset; unfold kReceiptsMessageId; lia|cbn; rewrite Hc2; cbn; by rewrite Hc1|].
  change (negotiated_eth_offset_ a2) with offset in Hsay3. set (m3 := eth_message offset (kReceiptsMessageId, answer)) in *.
  pose proof (on_eth_message_eq keccak256 kReceiptsMessageId answer (set_recv_channel (recv_channel a2 ++ [m3]) (set_stream sta3 a2)) arrivals
    (with_channel (Some (mkChannel (set_recv_channel (recv_channel a2 ++ [m3]) (set_stream sta3 a2)) arrivals)) r2) s2 [] _
    eq_refl Ha ltac:(cbn; fold offset; lia) P2 ltac:(by rewrite app_nil_r) ltac:(cbn; rewrite C1; exact C2)) as O3.
  specialize (Hsay3 _ O3).
  eexists r1, _, r2, b2, _, _. split; [exact Hsay1|]. split; [cbn; by rewrite app_nil_r|]. split; [exact Hsend|]. split; [done|].
  split; [exact Hsay3|]. split.
  - unfold notified. cbn [rn_notifications with_notifications with_service with_channel r2 r1]. f_equal; [cbn; by rewrite app_nil_r|].
    unfold notification, context. cbn. by rewrite Hr.
  - eexists. split; [reflexivity|]. split; [|done].
    by apply (paired_queues _ _ [] (send_channel b2) (recv_channel a2 ++ [m3]) (recv_channel b2)) in Hp3.
Qed.
End conversation_theorem.

(** ** A concrete runner and its peer *)

Module SampleRunner.
Import FrameCipher.Toy.
Definition session (secrets : FrameSecrets) (initiator : bool) : RlpxSession :=
  mkSession SessionState.kActive (stream_new (FrameCipher_new secrets) idle) (mkPeerInfo [] [x67] 0 [] 0) 68 16 initiator [] [] no_handlers.
Definition runner : EthWatchRunner RlpxEthSessionChannel :=
  let r := set_event_callback true (EthWatchRunner_of_session (session initiator true) [] "mainnet" 1 sample_hash (mkForkId [x01; x02; x03; x04] 0) []) in
  let r := (runner_watch_event SampleService.keccak sample_address "Transfer(address)" SampleService.transfer (Some 5) None r).2 in
  (install_session_bridge r).2.
Definition peer : RlpxSession := session responder false.
Definition block : list byte := replicate 32 x22.
Definition announcement : list byte := Eval vm_compute in match encode_new_block_hashes [mkNewBlockHashEntry block 6] with success p => p | _ => [] end.
Definition request : list byte := Eval vm_compute in match encode_get_receipts (mkRequest (Some 1) [block]) with success p => p | _ => [] end.
Definition answer : list byte := Eval vm_compute in match encode_receipts (mkRequest (Some 1) [[sample_receipt]]) with success p => p | _ => [] end.

Lemma runner_ok : service_ok 1 (rn_service runner).
Proof.
  change (rn_service runner) with (for_each (run_service_op SampleService.keccak)
    [SetSchemas []; WatchEvent sample_address "Transfer(address)" SampleService.transfer (NotifyEvent "Transfer(address)") (Some 5) None; SetSendCallback true]
    EthWatchService_new).2.
  apply (run_op_ok SampleService.keccak (SetSendCallback true) 1); cbn; try done.
  apply (run_op_ok SampleService.keccak (WatchEvent sample_address "Transfer(address)" SampleService.transfer (NotifyEvent "Transfer(address)") (Some 5) None) 0); cbn; try done.
  apply (run_op_ok SampleService.keccak (SetSchemas []) 0); cbn; try done. apply new_service_ok.
Qed.

Lemma sessions_paired : paired (match rn_channel runner with Some c => ch_session c | None => peer end) peer.
Proof. split; [split|split|..]; try done; split; reflexivity. Qed.
End SampleRunner.

Import FrameCipher.Toy.

Lemma announced_block_notified_witness :
  exists r2 b2 r3 b3,
    peer_says SampleService.keccak (eth_message 16 (kReceiptsMessageId, SampleRunner.answer)) (r2, b2) = Some (r3, b3) /\
    rn_notifications r3 = [mkNotification (mkContext "mainnet" 1 [x67] []) (mkEvent sample_log 6 SampleRunner.block zero_hash 0)
      [AbiAddress (replicate 20 x11)] "Transfer(address)"].
Proof.
  destruct (announced_block_notified SampleService.keccak 1 SampleRunner.runner
    (match rn_channel SampleRunner.runner with Some c => ch_session c | None => SampleRunner.peer end) SampleRunner.peer []
    SampleRunner.block 6 [sample_receipt] SampleRunner.announcement SampleRunner.request SampleRunner.answer)
    as (r1 & b1 & r2 & b2 & r3 & b3 & _ & _ & _ & _ & E & En & _).
  - reflexivity.
  - apply SampleRunner.sessions_paired.
  - reflexivity.
  - reflexivity.
  - reflexivity.
  - vm_compute. intuition congruence.
  - apply SampleRunner.runner_ok.
  - reflexivity.
  - reflexivity.
  - reflexivity.
  - split; vm_compute; intuition congruence.
  - vm_compute. reflexivity.
  - split; [|split; [by eexists|by vm_compute]]. split; [wf_closed|]. repeat constructor. all: apply sample_receipt_wf.
  - repeat constructor. intros sub Hs. apply list_elem_of_singleton in Hs. subst sub. by vm_compute.
  - vm_compute. reflexivity.
  - vm_compute. reflexivity.
  - vm_compute. reflexivity.
  - repeat constructor; vm_compute; intuition congruence.
  - exists r2, b2, r3, b3. split; [exact E|]. rewrite En. vm_compute. reflexivity.
Defined.
