(* ===== verification/ChainPeers.v ===== *)
(** * The chain peer cache

    [include/discv4/chain_peers.hpp] and [src/discv4/chain_peers.cpp]: the configuration of
    the chains with their nodes, read from a JSON file that may be compressed and signed,
    and its refresh from a URL.

    Parameters: the text parser and printer of Boost.JSON, zlib, SHA-256, Keccak,
    libsecp256k1, the HTTP client and the files.  A result that can be missing is an
    [option]; the parser of node records can fault, so that the readers of nodes return an
    [outcome].  The search for the cache file is in [ChainConfig]. *)

From S2P Require Import Prelude ParseUtility Base64Url Enr Discv5Crawler BridgeEvent EthStatus JsonUtility DialScheduler.

(** ** chain_peers.hpp *)

Inductive ChainDiscoveryDefault := kAuto | kDiscv4 | kCacheEnrDiscv5 | kEnrTree.

Inductive DiscoveryForkFilter := kRequire | kDisabled.

#[global] Instance ChainDiscoveryDefault_eq_dec : EqDecision ChainDiscoveryDefault.
Proof. solve_decision. Defined.
#[global] Instance DiscoveryForkFilter_eq_dec : EqDecision DiscoveryForkFilter.
Proof. solve_decision. Defined.

Record ChainPeerCacheRefreshResult := mkRefresh { cache_path : text; cache_available : bool; cache_updated : bool }.

Record ChainPeerConfig := mkChain {
  canonical_name : text;
  cc_network_id : Z;
  cc_genesis_hash : list byte;
  cc_nodes : list ValidatedPeer;
  cc_bootnodes : list ValidatedPeer;
  cc_discv5_bootnodes : list text;
  cc_enr_trees : list text;
  cc_discovery_default : ChainDiscoveryDefault;
  cc_discovery_fork_filter : DiscoveryForkFilter;
  cc_fork_id : option ForkId;
  cc_eth_message_schemas : list EthMessageSchema;
  cc_signature : text;
  cc_signer_address : text
}.

Record ChainPeerCacheSignatureVerificationResult := mkVerification {
  has_signature : bool;
  signature_valid : bool;
  signer_address : text
}.

(** ** Constants *)

Definition kSchemeHttps : text := lit "https://".
Definition kSchemeHttp : text := lit "http://".
Definition kEnrTreeUrlPrefix : text := lit "enrtree://".
Definition kSignatureFieldName : text := lit "signature".
Definition kSignerAddressFieldName : text := lit "signerAddress".
Definition kTrustedChainPeerCacheSignerAddress : text := lit "0x7c91841f3594cb02dba5aae5909ceaaf2211d454".
Definition kRecoverableSignatureSize : Z := 65.

(** ** URLs and bodies *)

Record HttpUrlParts := mkUrl { is_https : bool; url_host : text; url_port : text; url_target : text }.

(** [url.rfind(prefix, 0) == 0] *)
Definition starts_with (prefix s : text) : bool := bool_decide (prefix `prefix_of` s).

Definition parse_http_url (url : text) : option HttpUrlParts :=
  '(https, rest) ← (if starts_with kSchemeHttps url then Some (true, drop (length kSchemeHttps) url)
                    else if starts_with kSchemeHttp url then Some (false, drop (length kSchemeHttp) url) else None);
  let '(host_port, target) := match find_char "/"%byte rest with
                              | None => (rest, lit "/")
                              | Some slash => (take slash rest, drop slash rest)
                              end in
  if decide (host_port = []) then None else
  let '(host, port) := match rfind_char ":"%byte host_port with
                       | Some colon => (take colon host_port, drop (colon + 1) host_port)
                       | None => (host_port, if https : bool then lit "443" else lit "80")
                       end in
  if decide (host = [] \/ port = []) then None else Some (mkUrl https host port target).

Definition is_success_status (status_code : Z) : bool := (200 <=? status_code) && (status_code <? 300).

(** ** Schemas of the document *)

Definition optional_field (name : text) (type : JsonFieldType) : JsonSchemaField := mkSchemaField name type false None None None.
Definition required_field (name : text) (type : JsonFieldType) : JsonSchemaField := mkSchemaField name type true None None None.
Definition optional_array (name : text) (schema : JsonSchemaArray) : JsonSchemaField := mkSchemaField name kArray false None None (Some schema).
Definition required_array (name : text) (schema : JsonSchemaArray) : JsonSchemaField := mkSchemaField name kArray true None None (Some schema).

Definition string_array_schema : JsonSchemaArray := mkSchemaArray kString None None.

Definition enr_tree_fields_schema : JsonSchemaObject := mkSchemaObject
  [optional_field (lit "enrTree") kString; optional_field (lit "sourceUrl") kString; optional_array (lit "enrTrees") string_array_schema].

Definition eth_message_field_schema : JsonSchemaObject := mkSchemaObject
  [required_field (lit "name") kString; required_field (lit "type") kString;
   optional_field (lit "size") kSize; optional_field (lit "offset") kSize].
Definition eth_message_fields_schema : JsonSchemaArray := mkSchemaArray kObject (Some eth_message_field_schema) None.

Definition eth_message_schema : JsonSchemaObject := mkSchemaObject
  [required_field (lit "name") kString; required_field (lit "id") kU8; optional_field (lit "protocolVersion") kU8;
   required_array (lit "fields") eth_message_fields_schema].
Definition eth_message_schema_array_schema : JsonSchemaArray := mkSchemaArray kObject (Some eth_message_schema) None.

Definition eth_message_filter_schema : JsonSchemaObject := mkSchemaObject
  [optional_field (lit "id") kU8; optional_field (lit "protocolVersion") kU8; optional_field (lit "name") kString].
Definition eth_message_filter_array_schema : JsonSchemaArray := mkSchemaArray kObject (Some eth_message_filter_schema) None.

Definition eth_message_schema_set_schema : JsonSchemaObject := mkSchemaObject
  [optional_field (lit "extends") kString; optional_array (lit "remove") eth_message_filter_array_schema;
   optional_array (lit "prepend") eth_message_schema_array_schema; optional_array (lit "append") eth_message_schema_array_schema].

Definition chain_peer_node_schema : JsonSchemaObject := mkSchemaObject
  [optional_field (lit "enr") kString; optional_field (lit "enode") kString; optional_field (lit "pubkey") kString;
   optional_field (lit "ip") kString; optional_field (lit "port") kU32; optional_field (lit "forkId") kString].
Definition chain_peer_node_array_schema : JsonSchemaArray := mkSchemaArray kObject (Some chain_peer_node_schema) None.

Definition chain_peer_config_schema : JsonSchemaObject := mkSchemaObject
  [required_field (lit "networkId") kU64; required_field (lit "genesisHex") kString;
   required_array (lit "nodes") chain_peer_node_array_schema; required_array (lit "bootnodes") chain_peer_node_array_schema;
   optional_field (lit "forkId") kString; optional_array (lit "ethMessageSchemas") eth_message_schema_array_schema;
   optional_field (lit "ethMessageSchemaSet") kString; optional_field (lit "enrTree") kString; optional_field (lit "sourceUrl") kString;
   optional_array (lit "enrTrees") string_array_schema].

Definition chain_peer_signature_schema : JsonSchemaObject := mkSchemaObject
  [optional_field kSignatureFieldName kString; optional_field kSignerAddressFieldName kString].

(** ** Reading parsed objects *)

(** A result of which only the value is used. *)
Definition parsed_value {A} (r : JsonResult A) : option A := match r with success a => Some a | _ => None end.

Definition parsed_optional_string (object : JsonParsedObject) (field_name : text) : option text :=
  match parsed_find object field_name with
  | None => None
  | Some _ => parsed_value (get_parsed_string object field_name)
  end.

(** [entry] when it is the URL of a tree. *)
Definition enr_tree_url (entry : text) : list text := if starts_with kEnrTreeUrlPrefix entry then [entry] else [].

Definition append_string_field (chain_object : JsonParsedObject) (field_name : text) (out : list text) : list text :=
  match parsed_optional_string chain_object field_name with None => out | Some entry => out ++ enr_tree_url entry end.

Definition parse_enr_tree_urls (chain_object : list (text * json)) : list text :=
  match parse_schema_fields chain_object enr_tree_fields_schema with
  | success parsed =>
      let out := append_string_field parsed (lit "enrTree") [] in
      let out := append_string_field parsed (lit "sourceUrl") out in
      match get_parsed_array parsed (lit "enrTrees") with
      | success trees => out ++ concat (map (fun value => match value with PString entry => enr_tree_url entry | _ => [] end) trees)
      | _ => out
      end
  | _ => []
  end.

(** ** Message schemas *)

Definition field_types : list (text * EthMessageFieldType) :=
  [(lit "uint8", kUint8); (lit "uint16", kUint16); (lit "uint32", kUint32); (lit "uint64", kUint64); (lit "uint256", kUint256);
   (lit "hash32", kHash32); (lit "hash4", kHash4); (lit "forkid", kForkId); (lit "bytes", kBytes); (lit "bool", EthStatus.kBool);
   (lit "hash_or_number", kHashOrNumber); (lit "hash_list", kHashList); (lit "uint_list", kUintList); (lit "uint32_list", kUint32List);
   (lit "bytes_list", kBytesList); (lit "block_hash_entries", kBlockHashEntries); (lit "get_block_headers_query", kGetBlockHeadersQuery);
   (lit "block_headers", kBlockHeaders); (lit "block_bodies", kBlockBodies); (lit "block", kBlock); (lit "transactions", kTransactions);
   (lit "receipts", kReceipts); (lit "pooled_transactions", kPooledTransactions)].

Definition parse_eth_message_field_type (value : text) : option EthMessageFieldType :=
  snd <$> head (filter (fun e => e.1 = value) field_types).

(** [std::string] as the strings of the message codecs. *)
Definition to_string : text -> string := String.string_of_list_byte.

(** A field that may be left out but must be right when it is there. *)
Definition optional_size (object : JsonParsedObject) (field_name : text) : option (option Z) :=
  match parsed_find object field_name with
  | None => Some None
  | Some _ => Some <$> parsed_value (get_parsed_size object field_name)
  end.

(** The inner loop of [parse_eth_message_schema_array], from position [index] on; [None]
    is an invalid schema. *)
Fixpoint parse_message_fields (index : Z) (values : list JsonParsedValue) : option (list EthMessageFieldSchema) :=
  match values with
  | [] => Some []
  | PObject field_object :: values' =>
      name ← parsed_value (get_parsed_string field_object (lit "name"));
      type_name ← parsed_value (get_parsed_string field_object (lit "type"));
      type ← parse_eth_message_field_type type_name;
      size ← optional_size field_object (lit "size");
      offset ← optional_size field_object (lit "offset");
      fields ← parse_message_fields (index + 1) values';
      Some (mkField (to_string name) type size (Some (default index offset)) :: fields)
  | _ => None
  end.

Definition message_schema (schema_value : JsonParsedValue) : option EthMessageSchema :=
  match schema_value with
  | PObject schema_object =>
      name ← parsed_value (get_parsed_string schema_object (lit "name"));
      message_id ← parsed_value (get_parsed_u8 schema_object (lit "id"));
      fields_value ← parsed_value (get_parsed_array schema_object (lit "fields"));
      protocol_version ← (match parsed_find schema_object (lit "protocolVersion") with
                          | None => Some None
                          | Some _ => Some <$> parsed_value (get_parsed_u8 schema_object (lit "protocolVersion"))
                          end);
      fields ← parse_message_fields 0 fields_value;
      if decide (fields = []) then None else Some (mkSchema (to_string name) message_id protocol_version fields)
  | _ => None
  end.

Definition parse_eth_message_schema_array (schemas_value : json) : list EthMessageSchema :=
  match parse_schema_value schemas_value kArray None (Some eth_message_schema_array_schema) (lit "ethMessageSchemas") with
  | success (PArray values) => omap message_schema values
  | _ => []
  end.

Definition schema_matches_filter (schema : EthMessageSchema) (filter : JsonParsedObject) : bool :=
  let has_id := bool_decide (is_Some (parsed_find filter (lit "id"))) in
  let has_version := bool_decide (is_Some (parsed_find filter (lit "protocolVersion"))) in
  let has_name := bool_decide (is_Some (parsed_find filter (lit "name"))) in
  if has_id && negb (bool_decide (parsed_value (get_parsed_u8 filter (lit "id")) = Some (schema_message_id schema))) then false
  else if has_version && negb (match schema_protocol_version schema with
                               | None => false
                               | Some v => bool_decide (parsed_value (get_parsed_u8 filter (lit "protocolVersion")) = Some v)
                               end) then false
  else if has_name && negb (match parsed_value (get_parsed_string filter (lit "name")) with
                            | None => false
                            | Some name => bool_decide (schema_name schema = to_string name)
                            end) then false
  else has_id || has_version || has_name.

(** The loop over the filters of [remove]. *)
Fixpoint remove_schemas (filters : list JsonParsedValue) (schemas : list EthMessageSchema) : list EthMessageSchema :=
  match filters with
  | [] => schemas
  | PObject filter :: filters' => remove_schemas filters' (base.filter (fun s => schema_matches_filter s filter = false) schemas)
  | _ :: filters' => remove_schemas filters' schemas
  end.

(** [parse_eth_message_schema_set]; [levels] is what is left of the 9 levels (depths 0 to
    8) of [extends]. *)
Fixpoint parse_eth_message_schema_set (levels : nat) (sets : list (text * json)) (set_value : json) : list EthMessageSchema :=
  match levels with
  | O => []
  | S levels' =>
      match set_value with
      | JArray _ => parse_eth_message_schema_array set_value
      | JObject set_object =>
          match parse_schema_fields set_object eth_message_schema_set_schema with
          | success parsed_set =>
              let schemas := match parsed_optional_string parsed_set (lit "extends") with
                             | Some base_name => match if_contains sets base_name with
                                                 | Some base_set => parse_eth_message_schema_set levels' sets base_set
                                                 | None => []
                                                 end
                             | None => []
                             end in
              let schemas := match get_parsed_array parsed_set (lit "remove") with
                             | success filters => remove_schemas filters schemas
                             | _ => schemas
                             end in
              let schemas := match parsed_find parsed_set (lit "prepend"), if_contains set_object (lit "prepend") with
                             | Some _, Some prepend_value => parse_eth_message_schema_array prepend_value ++ schemas
                             | _, _ => schemas
                             end in
              match parsed_find parsed_set (lit "append"), if_contains set_object (lit "append") with
              | Some _, Some append_value => schemas ++ parse_eth_message_schema_array append_value
              | _, _ => schemas
              end
          | _ => []
          end
      | _ => []
      end
  end.

Definition parse_eth_message_schemas (parsed : json) (chain_object : list (text * json)) : list EthMessageSchema :=
  match if_contains chain_object (lit "ethMessageSchemas") with
  | Some schemas_value => parse_eth_message_schema_array schemas_value
  | None =>
      match if_contains chain_object (lit "ethMessageSchemaSet"), parsed with
      | Some (JString set_name), JObject root =>
          match if_contains root (lit "_ethMessageSchemaSets") with
          | Some (JObject sets) =>
              match if_contains sets set_name with
              | Some selected_set => parse_eth_message_schema_set 9 sets selected_set
              | None => []
              end
          | _ => []
          end
      | _, _ => []
      end
  end.

Definition parse_fork_next_value (value : json) : option Z :=
  match value with
  | JInt64 n => if 0 <=? n then Some n else None
  | JString s => uint64_hex s
  | _ => None
  end.

(** ** Peers *)

Definition make_validated_peer_from_enode (now : Z) (enode : text) : option ValidatedPeer :=
  if negb (starts_with kEnodePrefix enode) then None else
  let without_prefix := drop (length kEnodePrefix) enode in
  at_pos ← find_char "@"%byte without_prefix;
  let pubkey_hex := take at_pos without_prefix in
  if negb (Zlen pubkey_hex =? 128) then None else
  let address_part := drop (at_pos + 1) without_prefix in
  let host_port := match find_char "?"%byte address_part with Some query_pos => take query_pos address_part | None => address_part end in
  colon_pos ← rfind_char ":"%byte host_port;
  port_value ← uint16_decimal (drop (colon_pos + 1) host_port);
  id ← hex_array 64 pubkey_hex;
  Some (mkValidated (mkPeer id (to_string (take colon_pos host_port)) port_value port_value now None) id).

Definition make_validated_peer_from_generated_node_fields (now : Z) (node : JsonParsedObject) : option ValidatedPeer :=
  pubkey ← parsed_value (get_parsed_string node (lit "pubkey"));
  ip ← parsed_value (get_parsed_string node (lit "ip"));
  port ← parsed_value (get_parsed_u32 node (lit "port"));
  if (port =? 0) || (65535 <? port) then None else
  id ← hex_array 64 pubkey;
  Some (mkValidated (mkPeer id (to_string ip) port port now None) id).

Definition parsed_node (field_name : text) (item : json) : option JsonParsedObject :=
  match parse_schema_value item kObject (Some chain_peer_node_schema) None field_name with
  | success (PObject node) => Some node
  | _ => None
  end.

Definition find_chain_peer_cache_chain_object (parsed : json) (chain_name : text) : option (list (text * json)) :=
  match parsed with
  | JObject root => match if_contains root chain_name with Some (JObject chain_object) => Some chain_object | _ => None end
  | _ => None
  end.

Definition find_chain_peer_cache_chain_peer_array (parsed : json) (chain_name field_name : text) : option (list json) :=
  chain_object ← find_chain_peer_cache_chain_object parsed chain_name;
  match if_contains chain_object field_name with Some (JArray nodes) => Some nodes | _ => None end.

(** The loop of [parse_enr_uris_from_json_value]. *)
Fixpoint enr_uris_loop (field_name : text) (items : list json) (seen : gset text) : list text :=
  match items with
  | [] => []
  | item :: items' =>
      match node ← parsed_node field_name item; parsed_optional_string node (lit "enr") with
      | None => enr_uris_loop field_name items' seen
      | Some uri => if decide (uri ∈ seen) then enr_uris_loop field_name items' seen
                    else uri :: enr_uris_loop field_name items' ({[uri]} ∪ seen)
      end
  end.

Definition parse_enr_uris_from_json_value (parsed : json) (chain_name field_name : text) : list text :=
  match find_chain_peer_cache_chain_peer_array parsed chain_name field_name with
  | None => []
  | Some arr => enr_uris_loop field_name arr ∅
  end.

Definition apply_chain_fork_id_to_peers (chain_fork_id : ForkId) (peers : list ValidatedPeer) : list ValidatedPeer :=
  map (fun vp =>
    let p := vp_peer vp in
    match eth_fork_id p with
    | Some _ => vp
    | None => mkValidated (mkPeer (node_id p) (peer_ip p) (udp_port p) (tcp_port p) (last_seen p)
                (Some (mkPeerForkId (fork_hash chain_fork_id) (next_fork chain_fork_id)))) (vp_pubkey vp)
    end) peers.

(** The loop of [parse_chain_fork_id_hash_from_json_value]. *)
Fixpoint fork_hash_loop (items : list json) : option (list byte) :=
  match items with
  | [] => None
  | item :: items' =>
      match node ← parsed_node (lit "nodes") item; fork_id ← parsed_optional_string node (lit "forkId"); hex_array 4 fork_id with
      | Some hash => Some hash
      | None => fork_hash_loop items'
      end
  end.

Definition parse_chain_fork_id_hash_from_json_value (parsed : json) (chain_name : text) : option (list byte) :=
  arr ← find_chain_peer_cache_chain_peer_array parsed chain_name (lit "nodes");
  fork_hash_loop arr.

(** ** The signature *)

Definition signature_fields (root : list (text * json)) (field_name : text) : option text :=
  parsed ← parsed_value (parse_schema_fields root chain_peer_signature_schema);
  parsed_optional_string parsed field_name.

Definition parse_signature_string (root : list (text * json)) : option text := signature_fields root kSignatureFieldName.
Definition parse_signer_address_string (root : list (text * json)) : option text := signature_fields root kSignerAddressFieldName.

Definition is_signature_field (name : text) : bool :=
  bool_decide (name = kSignatureFieldName) || bool_decide (name = kSignerAddressFieldName).

(** The keys of an object are distinct, so that assigning the entries one by one copies
    them. *)
Definition make_unsigned_chain_peer_cache_object (root : list (text * json)) : list (text * json) :=
  filter (fun entry => is_signature_field entry.1 = false) root.

Section chain_peers.
Context `{EnrPrimitives, Secp256k1} (keccak sha256 : list byte -> list byte).
(** [boost::json::parse], [boost::json::serialize], zlib's [inflate] of a whole gzip body,
    and the clock. *)
Context (json_parse : text -> option json) (json_serialize : json -> text) (inflate : text -> option text) (now : Z).

Definition decode_chain_peer_cache_body (body : text) : option text :=
  match body with
  | b0 :: b1 :: _ => if decide (b0 = x1f /\ b1 = x8b) then inflate body else Some body
  | _ => Some body
  end.

Definition make_validated_peer_from_enr (enr_uri : text) : outcome Empty_set (option ValidatedPeer) :=
  match Enr.parse enr_uri with
  | crash f => crash f
  | failure _ => success None
  | success record =>
      match Enr.to_validated_peer record now with
      | crash f => crash f
      | failure _ => success None
      | success peer =>
          success (Some (mkValidated
            (mkPeer (Enr.peer_node_id peer) (to_string (Enr.peer_ip peer)) (Enr.peer_udp_port peer) (Enr.peer_tcp_port peer)
               (Enr.last_seen peer) ((fun f => mkPeerForkId (Enr.hash f) (Enr.next f)) <$> Enr.peer_eth_fork_id peer))
            (Enr.peer_node_id peer)))
      end
  end.

(** A node: its record when that is valid, else its generated fields, else its enode. *)
Definition chain_peer_of_node (node : JsonParsedObject) : outcome Empty_set (option ValidatedPeer) :=
  enr_peer ← match parsed_optional_string node (lit "enr") with
             | Some enr => make_validated_peer_from_enr enr
             | None => success None
             end;
  success match enr_peer with
          | Some vp => Some vp
          | None =>
              match make_validated_peer_from_generated_node_fields now node with
              | Some vp => Some vp
              | None => enode ← parsed_optional_string node (lit "enode"); make_validated_peer_from_enode now enode
              end
          end.

(** The loop of [parse_chain_peers_from_json_value]. *)
Fixpoint chain_peers_loop (field_name : text) (items : list json) : outcome Empty_set (list ValidatedPeer) :=
  match items with
  | [] => success []
  | item :: items' =>
      peer ← match parsed_node field_name item with Some node => chain_peer_of_node node | None => success None end;
      peers ← chain_peers_loop field_name items';
      success (option_list peer ++ peers)
  end.

Definition parse_chain_peers_from_json_value (parsed : json) (chain_name field_name : text) : outcome Empty_set (list ValidatedPeer) :=
  match find_chain_peer_cache_chain_peer_array parsed chain_name field_name with
  | None => success []
  | Some arr => chain_peers_loop field_name arr
  end.

(** [secp256k1_ecdsa_recoverable_signature_parse_compact] calls the library's illegal
    argument callback, which aborts, for a recovery id above 3. *)
Definition recover_signer_address (message_hash signature_bytes : list byte) : outcome Empty_set (option text) :=
  let recovery_id := u8 (nth 64 signature_bytes x00) in
  if 3 <? recovery_id then crash Terminate else
  success (
    signature ← parse_compact (take 64 signature_bytes) recovery_id;
    public_key ← ecdsa_recover signature message_hash;
    public_key_bytes ← pubkey_serialize public_key;
    if negb (Zlen public_key_bytes =? 65) || negb (bool_decide (head public_key_bytes = Some x04)) then None
    else Some (hex_string (address_from_uncompressed_public_key keccak public_key_bytes))).

Definition verify_chain_peer_cache_json_signature_impl (parsed : json) (expected_signer_address : text) :
    outcome Empty_set (option ChainPeerCacheSignatureVerificationResult) :=
  match parsed with
  | JObject root =>
      match parse_signature_string root, parse_signer_address_string root with
      | Some signature, Some signer =>
          let unverified := mkVerification true false signer in
          match hex_array kRecoverableSignatureSize signature with
          | None => success (Some unverified)
          | Some signature_bytes =>
              let unsigned_json := json_serialize (JObject (make_unsigned_chain_peer_cache_object root)) in
              recovered ← recover_signer_address (sha256 unsigned_json) signature_bytes;
              success (Some match recovered with
                | None => unverified
                | Some recovered =>
                    let expected := ascii_lower expected_signer_address in
                    mkVerification true
                      (negb (bool_decide (expected = [])) && bool_decide (ascii_lower recovered = expected) &&
                       bool_decide (ascii_lower signer = expected)) signer
                end)
          end
      | _, _ => success (Some (mkVerification false false []))
      end
  | _ => success None
  end.

Definition verify_chain_peer_cache_json_signature (json_text expected_signer_address : text) :
    outcome Empty_set ChainPeerCacheSignatureVerificationResult :=
  match json_parse json_text with
  | None => success (mkVerification false false [])
  | Some parsed =>
      result ← verify_chain_peer_cache_json_signature_impl parsed expected_signer_address;
      success (default (mkVerification false false []) result)
  end.

(** ** The configuration of a chain *)

(** The fork id: the chain's own when it gives one, else the first that a node gives. *)
Definition chain_fork_id (parsed : json) (chain_name : text) (chain_object : list (text * json)) (parsed_chain : JsonParsedObject) : option ForkId :=
  match parsed_optional_string parsed_chain (lit "forkId") with
  | Some fork_id_value =>
      hash ← hex_array 4 fork_id_value;
      Some (mkForkId hash (default 0 (fork_next_value ← if_contains chain_object (lit "forkNext"); parse_fork_next_value fork_next_value)))
  | None => hash ← parse_chain_fork_id_hash_from_json_value parsed chain_name; Some (mkForkId hash 0)
  end.

(** [parse_chain_peer_config_from_json_value] up to the check of the signature. *)
Definition chain_config_of (parsed : json) (chain_name : text) : outcome Empty_set (option ChainPeerConfig) :=
  match (chain_object ← find_chain_peer_cache_chain_object parsed chain_name;
         parsed_chain ← parsed_value (parse_schema_fields chain_object chain_peer_config_schema);
         network_id ← parsed_value (get_parsed_u64 parsed_chain (lit "networkId"));
         genesis_hex ← parsed_value (get_parsed_string parsed_chain (lit "genesisHex"));
         genesis_hash ← hex_array 32 genesis_hex;
         Some (chain_object, parsed_chain, network_id, genesis_hash)) with
  | None => success None
  | Some (chain_object, parsed_chain, network_id, genesis_hash) =>
      nodes ← parse_chain_peers_from_json_value parsed chain_name (lit "nodes");
      bootnodes ← parse_chain_peers_from_json_value parsed chain_name (lit "bootnodes");
      let discv5_bootnodes := parse_enr_uris_from_json_value parsed chain_name (lit "bootnodes") ++
                              parse_enr_uris_from_json_value parsed chain_name (lit "nodes") in
      let fork_id := chain_fork_id parsed chain_name chain_object parsed_chain in
      let apply := match fork_id with Some f => apply_chain_fork_id_to_peers f | None => id end in
      success (Some (mkChain chain_name network_id genesis_hash (apply nodes) (apply bootnodes) discv5_bootnodes
        (parse_enr_tree_urls chain_object) kAuto kRequire fork_id (parse_eth_message_schemas parsed chain_object) [] []))
  end.

Definition with_signature (signature signer : text) (c : ChainPeerConfig) : ChainPeerConfig :=
  mkChain (canonical_name c) (cc_network_id c) (cc_genesis_hash c) (cc_nodes c) (cc_bootnodes c) (cc_discv5_bootnodes c) (cc_enr_trees c)
    (cc_discovery_default c) (cc_discovery_fork_filter c) (cc_fork_id c) (cc_eth_message_schemas c) signature signer.

Definition parse_chain_peer_config_from_json_value (parsed : json) (chain_name : text) : outcome Empty_set (option ChainPeerConfig) :=
  config ← chain_config_of parsed chain_name;
  match config with
  | None => success None
  | Some config =>
      verification ← verify_chain_peer_cache_json_signature_impl parsed kTrustedChainPeerCacheSignerAddress;
      success match verification with
              | None => Some config
              | Some v =>
                  if has_signature v && negb (signature_valid v) then None
                  else Some (with_signature (if has_signature v then lit "present" else []) (signer_address v) config)
              end
  end.

(** ** Loading *)

(** The files by path; a file that cannot be opened for reading is missing. *)
Notation Files := (gmap text text).

Definition load_chain_peers_from_json_text (chain_name json_text : text) : outcome Empty_set (list ValidatedPeer) :=
  if decide (chain_name = []) then success [] else
  match json_parse json_text with
  | None => success []
  | Some parsed => parse_chain_peers_from_json_value parsed chain_name (lit "nodes")
  end.

Definition load_chain_peers_from_json (chain_name json_path : text) (files : Files) : outcome Empty_set (list ValidatedPeer) :=
  if decide (chain_name = []) then success [] else
  match files !! json_path ≫= decode_chain_peer_cache_body with
  | None => success []
  | Some json_text => load_chain_peers_from_json_text chain_name json_text
  end.

Definition load_chain_fork_id_hash_from_json_text (chain_name json_text : text) : option (list byte) :=
  parsed ← json_parse json_text; parse_chain_fork_id_hash_from_json_value parsed chain_name.

Definition load_chain_fork_id_hash_from_json (chain_name json_path : text) (files : Files) : option (list byte) :=
  raw ← files !! json_path;
  decoded ← decode_chain_peer_cache_body raw;
  load_chain_fork_id_hash_from_json_text chain_name decoded.

Definition load_chain_peer_config_from_json_text (chain_name json_text : text) : outcome Empty_set (option ChainPeerConfig) :=
  if decide (chain_name = []) then success None else
  match json_parse json_text with
  | None => success None
  | Some parsed => parse_chain_peer_config_from_json_value parsed chain_name
  end.

Definition load_chain_peer_config_from_json (chain_name json_path : text) (files : Files) : outcome Empty_set (option ChainPeerConfig) :=
  if decide (chain_name = []) then success None else
  match files !! json_path ≫= decode_chain_peer_cache_body with
  | None => success None
  | Some json_text => load_chain_peer_config_from_json_text chain_name json_text
  end.

(** ** Refreshing *)

(** The HTTP client: the status and the body of the answer, or nothing when a step of the
    connection fails. *)
Context (http_get : HttpUrlParts -> option (Z * text)).

Definition download_chain_peer_cache_json (url : text) : option text :=
  parts ← parse_http_url url;
  '(status, body) ← http_get parts;
  if negb (is_success_status status) then None else decode_chain_peer_cache_body body.

(** What becomes of an open output file: how many bytes are written, and what the stream
    reports; [None] when it cannot be opened. *)
Definition write_chain_peer_cache_json_if_changed (disk : option (nat * bool)) (json_path json_text : text) (files : Files) : bool * Files :=
  if decide (files !! json_path = Some json_text) then (false, files) else
  match disk with
  | None => (false, files)
  | Some (written, good) => (good, <[json_path := take written json_text]> files)
  end.

Definition refresh_chain_peer_cache_json (disk : option (nat * bool)) (json_path url : text) (files : Files) :
    outcome Empty_set (option ChainPeerCacheRefreshResult) * Files :=
  match download_chain_peer_cache_json url with
  | None => (success None, files)
  | Some json_text =>
      match verify_chain_peer_cache_json_signature json_text kTrustedChainPeerCacheSignerAddress with
      | success verification =>
          if negb (has_signature verification) || negb (signature_valid verification) then (success None, files) else
          let '(updated, files') := write_chain_peer_cache_json_if_changed disk json_path json_text files in
          (success (Some (mkRefresh json_path (updated || bool_decide (is_Some (files' !! json_path))) updated)), files')
      | failure e => (failure e, files)
      | crash f => (crash f, files)
      end
  end.
End chain_peers.

(** ** Enodes *)

Lemma read_decimal s : forall n, forallb is_digit s = true -> read_digits 10 n s = (decimal_val n s, []).
Proof.
  induction s as [|c s IH]; intros n Hs; [done|]. cbn [forallb] in Hs. apply andb_prop in Hs as [Hc Hs].
  assert (digit_value 10 c = Some (u8 c - u8 "0"%byte)) as Hd.
  { unfold is_digit in Hc. zbool. change (u8 "0"%byte) with 48 in *. change (u8 "9"%byte) with 57 in *. unfold digit_value.
    rewrite !(proj2 (Z.leb_le _ _)) by done. cbn [andb]. by rewrite (proj2 (Z.ltb_lt _ _)) by lia. }
  cbn [read_digits]. rewrite Hd, IH by done. done.
Qed.

Lemma uint16_decimal_digits s : forallb is_digit s = true -> s <> [] -> decimal_val 0 s < 2 ^ 16 -> uint16_decimal s = Some (decimal_val 0 s).
Proof.
  intros Hs Hne Hv. unfold uint16_decimal, from_chars. rewrite read_decimal by done. cbn [fst snd length].
  rewrite bool_decide_false by (destruct s; [done|cbn; lia]). by rewrite (proj2 (Z.ltb_lt _ _)) by done.
Qed.

(** An enode URI, with or without a query, gives its node: the 64 bytes in hexadecimal, the
    host and the port; a port beyond 16 bits is refused. *)
Theorem enode_exact now id host port query :
  Zlen id = 64 -> forallb is_digit port = true -> port <> [] -> "?"%byte ∉ host -> (query = [] \/ exists q, query = "?"%byte :: q) ->
  make_validated_peer_from_enode now (enode_uri id host port ++ query) =
    if decimal_val 0 port <? 2 ^ 16
    then Some (mkValidated (mkPeer id (to_string host) (decimal_val 0 port) (decimal_val 0 port) now None) id) else None.
Proof.
  intros Hid Hp Hne Hh Hq. unfold make_validated_peer_from_enode, enode_uri, starts_with. rewrite <- !app_assoc. cbn [app].
  rewrite bool_decide_true by by apply prefix_app_r. cbn [negb]. rewrite drop_app_length.
  rewrite find_char_app by apply hex_key_no_at. cbn [mbind option_bind]. rewrite take_app_length.
  assert (Zlen (hex_key id) = 128) as Hk by (unfold hex_key; rewrite length_hex_pairs; lia).
  rewrite Hk. cbn [negb Z.eqb Pos.eqb]. rewrite drop_past.
  assert ("?"%byte ∉ host ++ ":"%byte :: port) as Hnq.
  { rewrite elem_of_app, elem_of_cons. intros [?|[?|Hin]]; [done|done|]. rewrite forallb_forall in Hp. by apply list_elem_of_In, Hp in Hin. }
  assert (match find_char "?"%byte (host ++ ":"%byte :: port ++ query) with
          | Some query_pos => take query_pos (host ++ ":"%byte :: port ++ query)
          | None => host ++ ":"%byte :: port ++ query end = host ++ ":"%byte :: port) as ->.
  { destruct Hq as [->|[q ->]]; [rewrite app_nil_r, find_char_none by done; done|].
    rewrite app_comm_cons, app_assoc, find_char_app by done. by rewrite take_app_length. }
  rewrite rfind_char_app by by apply digits_no_colon. cbn [mbind option_bind]. rewrite drop_past, take_app_length.
  destruct (Z.ltb_spec (decimal_val 0 port) (2 ^ 16)) as [Hl|Hl].
  - rewrite uint16_decimal_digits by done. cbn [mbind option_bind]. unfold hex_array.
    assert (trim_hex_prefix (hex_key id) = hex_key id) as ->.
    { destruct id as [|b id']; [done|]. cbn [hex_key map concat app trim_hex_prefix].
      pose proof (hex_digit_cases (fun _ c => (u8 c =? 120) || (u8 c =? 88) = false) ltac:(by repeat constructor)) as Hd.
      rewrite (Hd (Z.land (u8 b) 15)) by apply nibbles_range. by rewrite andb_false_r. }
    rewrite Hk. cbn [negb Z.eqb Z.mul Pos.mul Pos.eqb]. by rewrite (hex_pairs_string id : hex_pairs (hex_key id) = Some id).
  - unfold uint16_decimal, from_chars. rewrite read_decimal by done. cbn [fst snd length].
    rewrite bool_decide_false by (destruct port; [done|cbn; lia]). by rewrite (proj2 (Z.ltb_ge _ _)) by lia.
Qed.

(** ** What the signature protects *)

Section signature_facts.
Context `{EnrPrimitives, Secp256k1} (keccak sha256 : list byte -> list byte).
Context (json_parse : text -> option json) (json_serialize : json -> text) (inflate : text -> option text) (now : Z).

Lemma if_contains_unsigned root name :
  if_contains (make_unsigned_chain_peer_cache_object root) name = if is_signature_field name then None else if_contains root name.
Proof.
  unfold make_unsigned_chain_peer_cache_object. induction root as [|[k v] root IH]; [by destruct (is_signature_field name)|].
  rewrite filter_cons. cbn [fst]. destruct (decide (is_signature_field k = false)) as [Hk|Hk]; cbn [if_contains].
  - destruct (decide (k = name)) as [->|]; [by rewrite Hk|done].
  - rewrite IH. destruct (decide (k = name)) as [->|]; [|done]. by apply not_false_is_true in Hk as ->.
Qed.

(** The configuration depends on the entries of the chain and of the schema sets only. *)
Lemma chain_object_ext root root' name : if_contains root' name = if_contains root name ->
  find_chain_peer_cache_chain_object (JObject root') name = find_chain_peer_cache_chain_object (JObject root) name.
Proof. intros E. cbn. by rewrite E. Qed.

Lemma chain_config_ext root root' name :
  if_contains root' name = if_contains root name ->
  if_contains root' (lit "_ethMessageSchemaSets") = if_contains root (lit "_ethMessageSchemaSets") ->
  chain_config_of now (JObject root') name = chain_config_of now (JObject root) name.
Proof.
  intros E1 E2. unfold chain_config_of, parse_chain_peers_from_json_value, parse_enr_uris_from_json_value, chain_fork_id,
    parse_chain_fork_id_hash_from_json_value, find_chain_peer_cache_chain_peer_array, parse_eth_message_schemas.
  rewrite (chain_object_ext root root' name E1). by rewrite E2.
Qed.

Lemma unsigned_signature_fields root field : is_signature_field field = true ->
  signature_fields (make_unsigned_chain_peer_cache_object root) field = None.
Proof.
  intros Hf. unfold signature_fields, parse_schema_fields, chain_peer_signature_schema, optional_field. rewrite parse_schema_object_eq.
  cbn [parse_fields]. by rewrite !if_contains_unsigned.
Qed.

Lemma verify_unsigned root expected :
  verify_chain_peer_cache_json_signature_impl keccak sha256 json_serialize (JObject (make_unsigned_chain_peer_cache_object root)) expected =
  success (Some (mkVerification false false [])).
Proof. cbn. unfold parse_signature_string. by rewrite unsigned_signature_fields. Qed.

(** The signature of the cache can be stripped: whatever its signature is, and also when
    it is the signature of another document or of another signer, the document with the
    fields [signature] and [signerAddress] deleted is accepted with every field of the
    configuration. *)
Theorem stripped_signature_accepted root chain_name :
  is_signature_field chain_name = false ->
  parse_chain_peer_config_from_json_value keccak sha256 json_serialize now (JObject (make_unsigned_chain_peer_cache_object root)) chain_name =
  chain_config_of now (JObject root) chain_name.
Proof.
  intros Hn. unfold parse_chain_peer_config_from_json_value.
  rewrite (chain_config_ext root) by (rewrite if_contains_unsigned; by rewrite ?Hn).
  destruct (chain_config_of now (JObject root) chain_name) as [[c|]|[]|f] eqn:E; [|done..]. cbn [mbind outcome_bind].
  rewrite verify_unsigned. cbn [mbind outcome_bind has_signature andb]. do 2 f_equal.
  revert E. unfold chain_config_of. destruct (_ ≫= _) as [[[[co pc] ni] gh]|]; [|done].
  destruct (parse_chain_peers_from_json_value _ _ _ (lit "nodes")) as [ns|[]|f]; [|done]. cbn [mbind outcome_bind].
  destruct (parse_chain_peers_from_json_value _ _ _ (lit "bootnodes")) as [bs|[]|f]; [|done]. by intros [= <-].
Qed.

(** The document [root] carries a signature of its other fields by [signer]. *)
Definition signed_by (signer : text) (root : list (text * json)) : Prop :=
  exists signature bytes declared recovered,
    parse_signature_string root = Some signature /\ hex_array kRecoverableSignatureSize signature = Some bytes /\
    parse_signer_address_string root = Some declared /\ ascii_lower declared = ascii_lower signer /\
    recover_signer_address keccak (sha256 (json_serialize (JObject (make_unsigned_chain_peer_cache_object root)))) bytes = success (Some recovered) /\
    ascii_lower recovered = ascii_lower signer.

Lemma verification_sound parsed expected v :
  verify_chain_peer_cache_json_signature_impl keccak sha256 json_serialize parsed expected = success (Some v) -> signature_valid v = true ->
  exists root, parsed = JObject root /\ signed_by expected root.
Proof.
  destruct parsed as [| | | | | | |root]; try done. cbn. destruct (parse_signature_string root) as [sg|] eqn:E1; [|by intros [= <-]].
  destruct (parse_signer_address_string root) as [sa|] eqn:E2; [|by intros [= <-]].
  destruct (hex_array _ sg) as [bytes|] eqn:E3; [|by intros [= <-]].
  destruct (recover_signer_address _ _ _) as [[rc|]|[]|f] eqn:E4; [|by intros [= <-]|done]. cbn [mbind outcome_bind].
  intros [= <-]. cbn [signature_valid]. rewrite !andb_true_iff, !bool_decide_eq_true. intros [[_ Hr] Hd].
  exists root. split; [done|]. by exists sg, bytes, sa, rc.
Qed.


(** A recovery id out of range ends the process: a document whose signature is 65 bytes
    of which the last is above 3 aborts the verification, and with it the refresh that
    downloaded it and the loading of any chain of it, whatever its other fields. *)
Theorem bad_recovery_id_aborts root signature bytes signer expected :
  parse_signature_string root = Some signature -> parse_signer_address_string root = Some signer ->
  hex_array kRecoverableSignatureSize signature = Some bytes -> 3 < u8 (nth 64 bytes x00) ->
  verify_chain_peer_cache_json_signature_impl keccak sha256 json_serialize (JObject root) expected = crash Terminate /\
  (forall chain_name config, chain_config_of now (JObject root) chain_name = success (Some config) ->
     parse_chain_peer_config_from_json_value keccak sha256 json_serialize now (JObject root) chain_name = crash Terminate) /\
  (forall http_get disk json_path url files json_text,
     download_chain_peer_cache_json inflate http_get url = Some json_text -> json_parse json_text = Some (JObject root) ->
     refresh_chain_peer_cache_json keccak sha256 json_parse json_serialize inflate http_get disk json_path url files = (crash Terminate, files)).
Proof.
  intros E1 E2 E3 Hr.
  assert (forall e, verify_chain_peer_cache_json_signature_impl keccak sha256 json_serialize (JObject root) e = crash Terminate) as Ev.
  { intros e. cbn [verify_chain_peer_cache_json_signature_impl]. rewrite E1, E2, E3. unfold recover_signer_address.
    by rewrite (proj2 (Z.ltb_lt _ _)) by done. }
  split; [apply Ev|]. split.
  - intros name c Ec. unfold parse_chain_peer_config_from_json_value. rewrite Ec. cbn [mbind outcome_bind]. by rewrite Ev.
  - intros get disk path url files txt Ed Ep. unfold refresh_chain_peer_cache_json, verify_chain_peer_cache_json_signature. by rewrite Ed, Ep, Ev.
Qed.
End signature_facts.

(** ** Reading back a document *)

Section documents.
Context `{EnrPrimitives, Secp256k1} (keccak sha256 : list byte -> list byte).
Context (json_parse : text -> option json) (json_serialize : json -> text) (now : Z).

(** The object of a node: public key, host and port, among any others but a record. *)
Record node_document (vp : ValidatedPeer) (j : json) : Prop := {
  nd_fields : list (text * json);
  nd_ip : text;
  nd_port : Z;
  nd_enode : option text;
  nd_fork : option text;
  nd_object : j = JObject nd_fields;
  nd_no_enr : if_contains nd_fields (lit "enr") = None;
  nd_has_enode : if_contains nd_fields (lit "enode") = JString <$> nd_enode;
  nd_has_pubkey : if_contains nd_fields (lit "pubkey") = Some (JString (hex_string (vp_pubkey vp)));
  nd_has_ip : if_contains nd_fields (lit "ip") = Some (JString nd_ip);
  nd_has_port : if_contains nd_fields (lit "port") = Some (JInt64 nd_port);
  nd_has_fork : if_contains nd_fields (lit "forkId") = JString <$> nd_fork;
  nd_key : Zlen (vp_pubkey vp) = 64;
  nd_range : 1 <= nd_port < 2 ^ 16;
  nd_peer : vp = mkValidated (mkPeer (vp_pubkey vp) (to_string nd_ip) nd_port nd_port now None) (vp_pubkey vp)
}.

Definition node_fields (vp : ValidatedPeer) (ip : text) (port : Z) (enode fork : option text) : JsonParsedObject :=
  emplace (lit "enode") (PString <$> enode) ((lit "pubkey", PString (hex_string (vp_pubkey vp))) :: (lit "ip", PString ip) ::
    (lit "port", PU32 port) :: emplace (lit "forkId") (PString <$> fork) []).

Lemma parse_node_document vp j path : node_document vp j ->
  exists ip port enode fork, parse_schema_value j kObject (Some chain_peer_node_schema) None path = success (PObject (node_fields vp ip port enode fork)) /\
    1 <= port < 2 ^ 16 /\ vp = mkValidated (mkPeer (vp_pubkey vp) (to_string ip) port port now None) (vp_pubkey vp) /\ Zlen (vp_pubkey vp) = 64.
Proof.
  intros [fs ip port enode fork -> H1 H2 H3 H4 H5 H6 Hk Hp Hv]. exists ip, port, enode, fork. split; [|done].
  unfold parse_schema_value, schema_value, chain_peer_node_schema, optional_field. rewrite parse_schema_object_eq. cbn [parse_fields].
  rewrite H1, H2, H3, H4, H5, H6. unfold parse_schema_value. cbn [schema_value parse_string].
  assert (parse_u32 (JInt64 port) = success port) as ->.
  { cbn. by rewrite !(proj2 (Z.ltb_ge _ _)) by lia. }
  unfold node_fields. destruct enode, fork; reflexivity.
Qed.

Lemma node_document_peer vp j field : node_document vp j ->
  exists node, parsed_node field j = Some node /\ chain_peer_of_node now node = success (Some vp) /\ parsed_optional_string node (lit "enr") = None.
Proof.
  intros Hd. destruct (parse_node_document vp j field Hd) as (ip & port & enode & fork & E & Hp & Hv & Hk).
  exists (node_fields vp ip port enode fork). unfold parsed_node. rewrite E. split; [done|].
  assert (parsed_optional_string (node_fields vp ip port enode fork) (lit "enr") = None) as He by (by destruct enode, fork).
  split; [|done]. unfold chain_peer_of_node. rewrite He. cbn [mbind outcome_bind].
  assert (make_validated_peer_from_generated_node_fields now (node_fields vp ip port enode fork) = Some vp) as ->; [|done].
  unfold make_validated_peer_from_generated_node_fields.
  assert (get_parsed_string (node_fields vp ip port enode fork) (lit "pubkey") = success (hex_string (vp_pubkey vp))) as -> by (by destruct enode, fork).
  assert (get_parsed_string (node_fields vp ip port enode fork) (lit "ip") = success ip) as -> by (by destruct enode, fork).
  assert (get_parsed_u32 (node_fields vp ip port enode fork) (lit "port") = success port) as -> by (by destruct enode, fork).
  cbn [parsed_value mbind option_bind]. rewrite (proj2 (Z.eqb_neq _ _)), (proj2 (Z.ltb_ge _ _)) by lia. cbn [orb].
  rewrite hex_array_string by done. cbn [mbind option_bind]. by rewrite <- Hv.
Qed.

Lemma node_documents vps js : Forall2 node_document vps js -> forall field,
  chain_peers_loop now field js = success vps /\ (forall seen, enr_uris_loop field js seen = []).
Proof.
  induction 1 as [|vp j vps js Hj _ IH]; intros field; [done|].
  destruct (node_document_peer vp j field Hj) as (node & E1 & E2 & E3). destruct (IH field) as [E4 E5].
  cbn [chain_peers_loop enr_uris_loop]. rewrite E1. cbn [mbind outcome_bind option_bind]. rewrite E2, E3. cbn [mbind outcome_bind]. by rewrite E4.
Qed.

Lemma node_documents_parse vps js : Forall2 node_document vps js -> forall path,
  exists vs, parse_schema_array_at_path chain_peer_node_array_schema js path = success vs.
Proof.
  intros Hd path. unfold chain_peer_node_array_schema. cbn [parse_schema_array_at_path]. generalize 0%nat.
  induction Hd as [|vp j vps js Hj _ IH]; intros i; [by exists []|]. cbn [parse_items].
  destruct (parse_node_document vp j (array_path path i) Hj) as (ip & port & enode & fork & E & _).
  unfold parse_schema_value in E. rewrite E. cbn [mbind outcome_bind]. destruct (IH (S i)) as [vs ->]. by eexists.
Qed.

Lemma string_array_parse ss path : parse_schema_array_at_path string_array_schema (JString <$> ss) path = success (PString <$> ss).
Proof.
  unfold string_array_schema. cbn [parse_schema_array_at_path]. generalize 0%nat. induction ss as [|s ss IH]; intros i; [done|].
  rewrite !fmap_cons. cbn [parse_items schema_value parse_string at_field mbind outcome_bind]. by rewrite IH.
Qed.

(** The object of a chain, among any other entries but message schemas. *)
Record chain_document (network_id : Z) (genesis : list byte) (nodes bootnodes : list ValidatedPeer) (fork : option ForkId) (trees : list text)
    (fields : list (text * json)) : Prop := {
  cd_nodes : list json;
  cd_bootnodes : list json;
  cd_network : if_contains fields (lit "networkId") = Some (JInt64 network_id);
  cd_genesis : if_contains fields (lit "genesisHex") = Some (JString (hex_string genesis));
  cd_has_nodes : if_contains fields (lit "nodes") = Some (JArray cd_nodes);
  cd_has_bootnodes : if_contains fields (lit "bootnodes") = Some (JArray cd_bootnodes);
  cd_fork : if_contains fields (lit "forkId") = (fun f => JString (hex_string (fork_hash f))) <$> fork;
  cd_next : if_contains fields (lit "forkNext") = (fun f => JInt64 (next_fork f)) <$> fork;
  cd_schemas : if_contains fields (lit "ethMessageSchemas") = None;
  cd_schema_set : if_contains fields (lit "ethMessageSchemaSet") = None;
  cd_tree : if_contains fields (lit "enrTree") = None;
  cd_source : if_contains fields (lit "sourceUrl") = None;
  cd_trees : if_contains fields (lit "enrTrees") = Some (JArray (JString <$> trees));
  cd_nodes_ok : Forall2 node_document nodes cd_nodes;
  cd_bootnodes_ok : Forall2 node_document bootnodes cd_bootnodes
}.

(** The parsed fields of a chain object. *)
Definition chain_fields (network_id : Z) (genesis : list byte) (nodes bootnodes : list JsonParsedValue) (fork : option ForkId) (trees : list text) :
    JsonParsedObject :=
  [(lit "networkId", PU64 network_id); (lit "genesisHex", PString (hex_string genesis)); (lit "nodes", PArray nodes); (lit "bootnodes", PArray bootnodes)] ++
  emplace (lit "forkId") ((fun f => PString (hex_string (fork_hash f))) <$> fork) [(lit "enrTrees", PArray (PString <$> trees))].

Lemma parse_chain_document network_id genesis nodes bootnodes fork trees fields :
  in_width 63 network_id -> chain_document network_id genesis nodes bootnodes fork trees fields ->
  exists ns bs, parse_schema_fields fields chain_peer_config_schema = success (chain_fields network_id genesis ns bs fork trees) /\
    parse_enr_tree_urls fields = concat (map enr_tree_url trees).
Proof.
  intros Hn [ns bs H1 H2 H3 H4 H5 H6 H7 H8 H9 H10 H11 H12 H13].
  destruct (node_documents_parse _ _ H12 (lit "nodes")) as [nvs En]. destruct (node_documents_parse _ _ H13 (lit "bootnodes")) as [bvs Eb].
  exists nvs, bvs. split.
  - unfold parse_schema_fields, chain_peer_config_schema, optional_field, required_field, optional_array, required_array.
    rewrite parse_schema_object_eq. cbn [parse_fields]. rewrite H1, H2, H3, H4, H5, H7, H8, H9, H10, H11. unfold parse_schema_value.
    cbn [schema_value parse_string]. assert (parse_u64 (JInt64 network_id) = success network_id) as ->.
    { unfold in_width in Hn. cbn. by rewrite !(proj2 (Z.ltb_ge _ _)) by lia. }
    change (join_path [] (lit "nodes")) with (lit "nodes"). change (join_path [] (lit "bootnodes")) with (lit "bootnodes").
    rewrite En, Eb, string_array_parse. by destruct fork.
  - unfold parse_enr_tree_urls, parse_schema_fields, enr_tree_fields_schema, optional_field, optional_array. rewrite parse_schema_object_eq.
    cbn [parse_fields]. rewrite H9, H10, H11. unfold parse_schema_value. cbn [schema_value]. rewrite string_array_parse. cbn [mbind outcome_bind].
    change (get_parsed_array _ _) with (success (E := JsonError) (PString <$> trees)).
    change (append_string_field _ (lit "sourceUrl") _) with (@nil text). cbn [app]. clear. induction trees as [|t trees IH]; [done|].
    rewrite fmap_cons. cbn [map concat]. by rewrite IH.
Qed.

(** A cache document is read back: for an unsigned document that has a chain with its
    network id, genesis hash, nodes, bootnodes, fork id and trees, each of its nodes by
    public key, host and port, the loader returns exactly this configuration, with the
    fork id of the chain given to every node. *)
Theorem chain_config_roundtrip json_text root chain_name fields network_id genesis nodes bootnodes fork trees :
  json_parse json_text = Some (JObject root) -> parse_signature_string root = None ->
  chain_name <> [] -> if_contains root chain_name = Some (JObject fields) ->
  chain_document network_id genesis nodes bootnodes fork trees fields ->
  in_width 63 network_id -> Zlen genesis = 32 -> Forall (fun t => kEnrTreeUrlPrefix `prefix_of` t) trees ->
  (forall f, fork = Some f -> Zlen (fork_hash f) = 4 /\ 0 <= next_fork f) -> (fork = None -> parse_chain_fork_id_hash_from_json_value (JObject root) chain_name = None) ->
  let apply := match fork with Some f => apply_chain_fork_id_to_peers f | None => id end in
  load_chain_peer_config_from_json_text keccak sha256 json_parse json_serialize now chain_name json_text =
    success (Some (mkChain chain_name network_id genesis (apply nodes) (apply bootnodes) [] trees kAuto kRequire fork [] [] [])).
Proof.
  intros Hp Hsig Hne Hr Hd Hn Hg Ht Hf Hf' apply. destruct (parse_chain_document _ _ _ _ _ _ _ Hn Hd) as (ns & bs & Ep & Et).
  unfold load_chain_peer_config_from_json_text. rewrite decide_False, Hp by done.
  assert (find_chain_peer_cache_chain_object (JObject root) chain_name = Some fields) as Ho by (cbn; by rewrite Hr).
  unfold parse_chain_peer_config_from_json_value, chain_config_of. rewrite Ho. cbn [mbind option_bind]. rewrite Ep. cbn [parsed_value mbind option_bind].
  change (get_parsed_u64 _ _) with (success (E := JsonError) network_id).
  change (get_parsed_string _ _) with (success (E := JsonError) (hex_string genesis)). cbn [parsed_value mbind option_bind].
  rewrite hex_array_string by done. cbn [mbind option_bind].
  unfold parse_chain_peers_from_json_value, parse_enr_uris_from_json_value, find_chain_peer_cache_chain_peer_array. rewrite Ho. cbn [mbind option_bind].
  destruct Hd as [njs bjs H1 H2 H3 H4 H5 H6 H7 H8 H9 H10 H11 H12 H13]. rewrite H3, H4.
  destruct (node_documents _ _ H12 (lit "nodes")) as [En Eun]. destruct (node_documents _ _ H13 (lit "bootnodes")) as [Eb Eub].
  rewrite En, Eb, Eun, Eub. cbn [mbind outcome_bind app]. unfold parse_eth_message_schemas. rewrite H7, H8, Et.
  assert (concat (map enr_tree_url trees) = trees) as ->.
  { clear -Ht. induction Ht as [|t trees Hpre _ IH]; [done|]. cbn [map concat]. unfold enr_tree_url at 1, starts_with. rewrite bool_decide_true by done. cbn [app]. by rewrite IH. }
  assert (chain_fork_id (JObject root) chain_name fields (chain_fields network_id genesis ns bs fork trees) = fork) as ->.
  { unfold chain_fork_id. destruct fork as [f|].
    - destruct (Hf f eq_refl) as [Hl Hx]. change (parsed_optional_string _ _) with (Some (hex_string (fork_hash f))). cbn [mbind option_bind].
      rewrite hex_array_string by done. cbn [mbind option_bind]. rewrite H6. cbn. rewrite (proj2 (Z.leb_le _ _)) by done. by destruct f.
    - change (parsed_optional_string _ _) with (@None text). by rewrite Hf'. }
  cbn [verify_chain_peer_cache_json_signature_impl]. by rewrite Hsig.
Qed.
End documents.

(** ** A concrete cache *)

Module SampleCache.
#[local] Existing Instance toy_secp.
(** A hash whose address is the trusted signer's. *)
Definition keccak (m : list byte) : list byte := replicate 12 x00 ++ default [] (hex_array 20 kTrustedChainPeerCacheSignerAddress).
Definition sha256 (m : list byte) : list byte := replicate 32 x07.
Definition serialize (j : json) : text := [].
Definition signature (v : byte) : list byte := replicate 32 x01 ++ replicate 32 x07 ++ [v].
Definition node : ValidatedPeer := mkValidated (mkPeer (replicate 64 x05) "10.0.0.1" 30303 30303 9 None) (replicate 64 x05).
Definition node_json : list (text * json) :=
  [(lit "pubkey", JString (hex_string (replicate 64 x05))); (lit "ip", JString (lit "10.0.0.1")); (lit "port", JInt64 30303)].
Definition fork : ForkId := mkForkId [x01; x02; x03; x04] 7.
Definition chain_json : list (text * json) :=
  [(lit "networkId", JInt64 1); (lit "genesisHex", JString (hex_string (replicate 32 x06))); (lit "nodes", JArray [JObject node_json]);
   (lit "bootnodes", JArray []); (lit "forkId", JString (hex_string [x01; x02; x03; x04])); (lit "forkNext", JInt64 7);
   (lit "enrTrees", JArray [JString (lit "enrtree://a")])].
Definition root (v : byte) : list (text * json) :=
  [(lit "mainnet", JObject chain_json); (kSignatureFieldName, JString (hex_string (signature v)));
   (kSignerAddressFieldName, JString kTrustedChainPeerCacheSignerAddress)].
Definition parse (t : text) : option json :=
  if decide (t = lit "signed") then Some (JObject (root x00))
  else if decide (t = lit "aborts") then Some (JObject (root x1b))
  else if decide (t = lit "plain") then Some (JObject [(lit "mainnet", JObject chain_json)]) else None.
Definition get (parts : HttpUrlParts) : option (Z * text) := Some (200, drop 1 (url_target parts)).
Definition config : ChainPeerConfig :=
  mkChain (lit "mainnet") 1 (replicate 32 x06) (apply_chain_fork_id_to_peers fork [node]) [] [] [lit "enrtree://a"] kAuto kRequire (Some fork) [] [] [].
End SampleCache.
#[local] Existing Instance toy_secp.
Import SampleCache.

Lemma stripped_signature_accepted_witness :
  parse_chain_peer_config_from_json_value keccak sha256 serialize 9 (JObject (make_unsigned_chain_peer_cache_object (root xff))) (lit "mainnet") =
    success (Some config).
Proof. rewrite stripped_signature_accepted by reflexivity. vm_compute. reflexivity. Defined.


Lemma bad_recovery_id_aborts_witness :
  refresh_chain_peer_cache_json keccak sha256 parse serialize (fun _ => None) get None (lit "cache.json") (lit "http://host/aborts") ∅ = (crash Terminate, ∅).
Proof.
  apply (bad_recovery_id_aborts keccak sha256 parse serialize (fun _ => None) 9 (root x1b) (hex_string (signature x1b)) (signature x1b)
    kTrustedChainPeerCacheSignerAddress kTrustedChainPeerCacheSignerAddress) with (json_text := lit "aborts"); vm_compute; reflexivity.
Defined.

Lemma chain_config_roundtrip_witness :
  load_chain_peer_config_from_json_text keccak sha256 parse serialize 9 (lit "mainnet") (lit "plain") = success (Some config).
Proof.
  apply (chain_config_roundtrip keccak sha256 parse serialize 9 (lit "plain") [(lit "mainnet", JObject chain_json)] (lit "mainnet") chain_json
    1 (replicate 32 x06) [node] [] (Some fork) [lit "enrtree://a"]).
  - reflexivity.
  - reflexivity.
  - discriminate.
  - reflexivity.
  - apply (Build_chain_document 9 _ _ _ _ _ _ _ [JObject node_json] []); try reflexivity; repeat constructor.
    apply (Build_node_document 9 node _ node_json (lit "10.0.0.1") 30303 None None); try reflexivity. lia.
  - unfold in_width. lia.
  - reflexivity.
  - repeat constructor. by exists (lit "a").
  - intros f [= <-]. cbn. lia.
  - discriminate.
Defined.
