(* ===== verification/WatchDialer.v ===== *)
(** * Dialling for the watch service

    [EthWatchService::make_default_dial_fn] of [src/eth/eth_watch_service.cpp]: the function
    that a chain's scheduler runs for every peer it dials.  It connects an RLPx session,
    runs the Status handshake, counts what happens and makes a runner with the configured
    watches.  What the network and the random generator do is given by [DialEnv]; the log
    output is left out. *)

From S2P Require Import Prelude RlpSpec RlpCommon RlpDecoder DecodeLogic EthObjects EthMessages EthStatus ChainTracker.
From S2P Require Import EventFilter AbiDecoder WatchService ParseUtility DialScheduler PeerQueue ChainPeers RlpxMessages FrameCipher.
From S2P Require Import RlpxCrypto RlpxAuth RlpxSession EthHandshake WatchRunner.

(** ** eth_watch_service.hpp *)

Record EthWatchEventSpec := mkEventSpec {
  es_contract_address : list byte;
  es_event_signature : string;
  es_params : list AbiParam;
  es_from_block : option Z;
  es_to_block : option Z
}.

(** The counters of [EthWatchRuntimeStatsSnapshot], by name; the two arrays are counters
    with an index. *)
Inductive runtime_stat :=
  | tcp_connect_failures | tcp_connected | auth_success | local_hello_sent | peer_disconnect_before_hello | peer_hello_accepted
  | eth_status_sent | remote_status_accepted | remote_status_rejected
  | rejected_disconnect_reason (reason : Z) | rejected_validation_error (error : Z).

#[global] Instance runtime_stat_eq_dec : EqDecision runtime_stat.
Proof. solve_decision. Defined.

Notation RuntimeStats := (runtime_stat -> Z).

Definition no_runtime_stats : RuntimeStats := fun _ => 0.

(** [++stats->c] *)
Definition increment (c : runtime_stat) (stats : RuntimeStats) : RuntimeStats :=
  fun c' => if decide (c' = c) then u64 (stats c' + 1) else stats c'.

(** ** make_default_dial_fn *)

(** [DisconnectReason::kTcpError] and [kSubprotocolError]. *)
Definition kTcpErrorReason : Z := 0x01.
Definition kSubprotocolErrorReason : Z := 0x10.

(** The progress handler. *)
Definition count_phase (stats : RuntimeStats) (phase : ConnectProgressPhase) : RuntimeStats :=
  increment match phase with
            | kTcpConnected => tcp_connected
            | kAuthSucceeded => auth_success
            | kLocalHelloSent => local_hello_sent
            | kPeerDisconnectBeforeHello => peer_disconnect_before_hello
            | kPeerHelloAccepted => peer_hello_accepted
            end stats.

(** [static_cast<size_t>(error)] *)
Definition error_index (e : StatusValidationError) : Z :=
  match e with kProtocolVersionMismatch => 0 | kNetworkIDMismatch => 1 | kGenesisMismatch => 2 | kInvalidBlockRange => 3 end.

(** What a dial meets: the draws of the key generator, the TCP connection, the random
    values of the handshake, whether the Hello timer fires, and the messages that arrive
    during the Status handshake. *)
Record DialEnv := mkDialEnv {
  de_keys : list (option (list byte));
  de_tcp : outcome SessionError.t Transport;
  de_random : HandshakeRandom;
  de_timer_fires : bool;
  de_arrivals : list (list (list Message))
}.

(** How the dial function ends: [on_done] was called with a reason, behind a failed Status
    handshake with the disconnected session, or [on_connected] was called and the runner
    is in [active_runners_]. *)
Inductive DialResult :=
  | DialFailed (reason : Z) (dropped : option RlpxSession)
  | DialConnected (runner : EthWatchRunner RlpxEthSessionChannel)
  | DialFault (f : fault).

(** The handshake's parameters; the fork id of a chain without one is all zero. *)
Definition dial_start (chain : ChainPeerConfig) : EthStatusHandshakeStart :=
  mkStart (cc_network_id chain) (cc_genesis_hash chain) (default (mkForkId (replicate 4 x00) 0) (cc_fork_id chain)) (cc_eth_message_schemas chain).

Section dial.
Context `{FramePrimitives, Snappy, Hashes, CtrCiphers, Curve} (keccak : list byte -> list byte).
Notation Rn := (EthWatchRunner RlpxEthSessionChannel).

(** The loop over the configured watches. *)
Fixpoint register_watches (watches : list EthWatchEventSpec) (r : Rn) : Rn :=
  match watches with
  | [] => r
  | w :: watches' =>
      register_watches watches'
        (runner_watch_event keccak (es_contract_address w) (es_event_signature w) (es_params w) (es_from_block w) (es_to_block w) r).2
  end.

(** The runner is made before the handshake on the session that the handshake then uses:
    its channel is the session after it. *)
Definition connected_runner (chain : ChainPeerConfig) (fork_id : ForkId) (watches : list EthWatchEventSpec) (callback : bool)
    (channel : RlpxEthSessionChannel) : outcome Empty_set unit * Rn :=
  let r := EthWatchRunner_new (Some channel) (to_string (canonical_name chain)) (cc_network_id chain) (cc_genesis_hash chain) fork_id
             (cc_eth_message_schemas chain) in
  install_session_bridge (register_watches watches (set_event_callback callback r)).

(** The part behind a connected session. *)
Definition shake_hands (chain : ChainPeerConfig) (watches : list EthWatchEventSpec) (callback : bool) (env : DialEnv) (session : RlpxSession)
    (stats : RuntimeStats) : DialResult * RuntimeStats :=
  let stats := increment eth_status_sent stats in
  match PerformEthStatusHandshake (dial_start chain) (mkHS (mkChannel session (de_arrivals env)) []) with
  | (failure e, hs) =>
      let stats := increment remote_status_rejected stats in
      let stats := match last (hs_disconnects hs) with
                   | Some reason => increment (rejected_disconnect_reason reason) stats
                   | None => increment (rejected_validation_error (error_index e)) stats
                   end in
      (DialFailed kSubprotocolErrorReason (Some (disconnect kSubprotocolErrorReason (ch_session (hs_channel hs))).2), stats)
  | (crash f, _) => (DialFault f, stats)
  | (success _, hs) =>
      let stats := increment remote_status_accepted stats in
      match connected_runner chain (start_fork_id (dial_start chain)) watches callback (hs_channel hs) with
      | (success _, runner) => (DialConnected runner, stats)
      | (failure e, _) => match e with end
      | (crash f, _) => (DialFault f, stats)
      end
  end.

Definition default_dial (chain : ChainPeerConfig) (watches : list EthWatchEventSpec) (callback : bool) (vp : ValidatedPeer) (env : DialEnv)
    (stats : RuntimeStats) : DialResult * RuntimeStats :=
  match generate_ephemeral_keypair (de_keys env) with
  | failure _ => (DialFailed kProtocolError None, stats)
  | crash f => (DialFault f, stats)
  | success keypair =>
      let params := mkConnectParams (tcp_port (vp_peer vp)) (public_key keypair) (private_key keypair) (vp_pubkey vp) (lit "rlp-eth-watch") 0 in
      let '(session_result, log) := connect params (de_tcp env) (de_random env) (de_timer_fires env) (mkConnectLog [] None) in
      let stats := foldl count_phase stats (cl_progress log).*1 in
      let disconnect_reason := default kTcpErrorReason (cl_reason log) in
      match session_result with
      | failure _ => (DialFailed disconnect_reason None, if disconnect_reason =? kTcpErrorReason then increment tcp_connect_failures stats else stats)
      | crash f => (DialFault f, stats)
      | success session => shake_hands chain watches callback env session stats
      end
  end.
End dial.

(** ** The slots of the scheduler *)

#[local] Notation World := DialScheduler.World.

(** What the scheduler learns from a dial function that returned: [on_done] or
    [on_connected], never both; [feedback] are the peers that the feedback function
    enqueues again. *)
Definition dial_report (result : DialResult) (w : World) (c : nat) (ch : Chain) (vp : ValidatedPeer) (l1 l2 : list Dial)
    (feedback : list ValidatedPeer) (now : Z) : World :=
  match result with
  | DialFailed _ _ => after_call w c ch (l1 ++ l2) now (on_done false feedback now (ch_sched ch) (w_pool w))
  | DialConnected _ =>
      DialScheduler.mkWorld (w_pool w) (<[c := DialScheduler.mkChain (on_connected vp (ch_sched ch)) (ch_dialed ch)]> (w_chains w))
        (l1 ++ mkDial c vp true false :: l2) (w_clock w)
  | DialFault _ => w
  end.

(** The world of all chains with the default dial function: peers are enqueued, dials
    return, connected sessions receive disconnect messages, schedulers stop. *)
Inductive dstep : World -> World -> Prop :=
  | ds_enqueue w c ch vp now :
      w_chains w !! c = Some ch -> w_clock w <= now ->
      dstep w (after_call w c ch (w_live w) now (enqueue vp now (ch_sched ch) (w_pool w)))
  | ds_dial w c ch vp l1 l2 result feedback now :
      w_chains w !! c = Some ch -> w_live w = l1 ++ mkDial c vp false false :: l2 -> w_clock w <= now ->
      dstep w (dial_report result w c ch vp l1 l2 feedback now)
  | ds_disconnect_message w c ch vp reported l1 l2 feedback now :
      w_chains w !! c = Some ch -> w_live w = l1 ++ mkDial c vp true reported :: l2 -> w_clock w <= now ->
      dstep w (after_call w c ch (l1 ++ mkDial c vp true true :: l2) now (enqueue_all feedback now (ch_sched ch) (w_pool w)))
  | ds_stop w c ch :
      w_chains w !! c = Some ch ->
      dstep w (DialScheduler.mkWorld (w_pool w) (<[c := DialScheduler.mkChain (stop (ch_sched ch)) (ch_dialed ch)]> (w_chains w)) (w_live w) (w_clock w)).

Lemma dstep_wstep w w' : dstep w w' -> rtc wstep w w'.
Proof.
  intros [v c ch vp now H1 H2|v c ch vp l1 l2 result feedback now H1 H2 H3|v c ch vp reported l1 l2 feedback now H1 H2 H3|v c ch H1].
  - apply rtc_once. by constructor.
  - destruct result as [reason dropped|r|f]; cbn [dial_report]; [|apply rtc_once; by eapply step_connected|done].
    apply rtc_once. by eapply step_done with (validated := false) (reported := false).
  - apply rtc_once. by eapply step_disconnect_message.
  - apply rtc_once. by constructor.
Qed.

Lemma validated_le_chain c l : count_validated c l <= count_chain c l.
Proof.
  unfold count_validated, count_chain. induction l as [|d l IH]; [done|]. rewrite !filter_cons.
  destruct (decide (d_chain d = c /\ d_validated d = true)) as [[H1 H2]|Hn], (decide (d_chain d = c)) as [H3|H3]; cbn [length]; (lia || tauto).
Qed.

(** A call on a chain whose slots are all taken starts nothing. *)
Lemma full_chain_starts_nothing now s p s' p' sp : advances now s p s' p' sp -> active s = max_per_chain p -> sp = [].
Proof. intros [Ha _ _ _ [Hs|[Hc _]] _ _ _] Hf; [done|]. destruct sp; [done|]. cbn [length] in Ha. lia. Qed.

(** Every slot of chain [c] is held by a dial that has connected. *)
Record exhausted (per_chain : Z) (c : nat) (dialed : list (node_id_t * Z)) (w : World) : Prop := {
  ex_ok : exists total, world_ok total per_chain w;
  ex_full : count_validated c (w_live w) = per_chain;
  ex_dialed : forall ch, w_chains w !! c = Some ch -> ch_dialed ch = dialed
}.

Lemma exhausted_full per_chain c dialed w ch : exhausted per_chain c dialed w -> w_chains w !! c = Some ch ->
  active (ch_sched ch) = max_per_chain (w_pool w) /\ count_chain c (w_live w) = per_chain.
Proof.
  intros [[total [_ Hm _ _ Hc]] Hf _] Hl. destruct (Hc c ch Hl) as [Ha Hcap _ _ _].
  pose proof (validated_le_chain c (w_live w)). rewrite Hm. lia.
Qed.

(** After a call on any chain that may start dials. *)
Lemma exhausted_call per_chain c dialed w c' ch live now r :
  exhausted per_chain c dialed w -> w_chains w !! c' = Some ch -> count_validated c live = per_chain ->
  (let '(s', p', sp) := r in exists s p, advances now s p s' p' sp /\ (c' = c -> active s = max_per_chain p)) ->
  (exists total, world_ok total per_chain (after_call w c' ch live now r)) ->
  exhausted per_chain c dialed (after_call w c' ch live now r).
Proof.
  intros He Hl Hlive Hr Hok. destruct r as [[s' p'] sp]. destruct Hr as (s & p & Ha & Hc). split; [done| |].
  - unfold after_call. cbn [w_live]. rewrite count_validated_app, count_validated_new. lia.
  - unfold after_call. cbn [w_chains]. intros ch'. destruct (decide (c' = c)) as [->|Hne].
    + rewrite list_lookup_insert_eq by (by eapply lookup_lt_Some). intros [= <-]. cbn [ch_dialed].
      rewrite (full_chain_starts_nothing _ _ _ _ _ _ Ha (Hc eq_refl)). cbn. by eapply ex_dialed.
    + rewrite list_lookup_insert_ne by done. by eapply ex_dialed.
Qed.

Lemma exhausted_step per_chain c dialed w w' : dstep w w' -> exhausted per_chain c dialed w -> exhausted per_chain c dialed w'.
Proof.
  intros Hst He. assert (exists total, world_ok total per_chain w') as Hok.
  { destruct (ex_ok _ _ _ _ He) as [total Hw]. exists total. apply dstep_wstep in Hst. clear He.
    induction Hst as [|x y z Hxy _ IH]; [done|]. apply IH. by eapply wstep_world_ok. }
  pose proof He as [_ Hfull Hdial].
  destruct Hst as [v c' ch vp now H1 H2|v c' ch vp l1 l2 result feedback now H1 H2 H3|v c' ch vp reported l1 l2 feedback now H1 H2 H3|v c' ch H1].
  - apply exhausted_call with (r := enqueue vp now (ch_sched ch) (w_pool v)); try done. destruct (enqueue vp now (ch_sched ch) (w_pool v)) as [[s' p'] sp] eqn:E. exists (ch_sched ch), (w_pool v).
    split; [by eapply enqueue_advances|]. intros ->. by eapply exhausted_full.
  - assert (c' = c -> False) as Hne.
    { intros ->. destruct (exhausted_full _ _ _ _ _ He H1) as [_ Hcc]. rewrite H2 in Hcc, Hfull.
      rewrite count_chain_app, count_chain_cons in Hcc. rewrite count_validated_app, count_validated_cons in Hfull. cbn in Hcc, Hfull.
      pose proof (validated_le_chain c l1). pose proof (validated_le_chain c l2).
      destruct (decide (c = c)); [|done]. destruct (decide _) as [[_ ?]|_] in Hfull; [done|]. lia. }
    assert (count_validated c (l1 ++ l2) = per_chain) as Hv.
    { rewrite H2, count_validated_app, count_validated_cons in Hfull. rewrite count_validated_app. cbn in Hfull.
      destruct (decide _) as [[? _]|_] in Hfull; [by destruct Hne|lia]. }
    destruct result as [reason dropped|r|f]; cbn [dial_report] in *; [| |done].
    + split; [done| |].
      * unfold after_call. destruct (on_done _ _ _ _ _) as [[s' p'] sp]. cbn [w_live]. rewrite count_validated_app, count_validated_new. lia.
      * unfold after_call. destruct (on_done _ _ _ _ _) as [[s' p'] sp]. cbn [w_chains]. intros ch'. rewrite list_lookup_insert_ne by (by intros ->; destruct Hne). apply Hdial.
    + split; [done| |].
      * cbn [w_live]. rewrite count_validated_app, count_validated_cons. rewrite count_validated_app in Hv. cbn.
        destruct (decide _) as [[? _]|_]; [by destruct Hne|lia].
      * cbn [w_chains]. intros ch'. rewrite list_lookup_insert_ne by (by intros ->; destruct Hne). apply Hdial.
  - apply exhausted_call with (r := enqueue_all feedback now (ch_sched ch) (w_pool v)); try done.
    + rewrite H2 in Hfull. rewrite count_validated_app, count_validated_cons in *. exact Hfull.
    + destruct (enqueue_all feedback now (ch_sched ch) (w_pool v)) as [[s' p'] sp] eqn:E. exists (ch_sched ch), (w_pool v).
      split; [by eapply enqueue_all_advances|]. intros ->. by eapply exhausted_full.
  - split; [done|done|]. cbn [w_chains]. intros ch'. destruct (decide (c' = c)) as [->|Hn].
    + rewrite list_lookup_insert_eq by (by eapply lookup_lt_Some). intros [= <-]. cbn [ch_dialed]. by apply Hdial.
    + rewrite list_lookup_insert_ne by done. apply Hdial.
Qed.

(** ** What a dial counts *)

(** *** Counting *)

Definition count_all (cs : list runtime_stat) (stats : RuntimeStats) : RuntimeStats := foldl (fun st c => increment c st) stats cs.

Definition tally (c : runtime_stat) (cs : list runtime_stat) : Z := Zlen (filter (fun c' => c' = c) cs).

Lemma tally_nonneg c cs : 0 <= tally c cs.
Proof. unfold tally. lia. Qed.

Lemma tally_app c cs cs' : tally c (cs ++ cs') = tally c cs + tally c cs'.
Proof. unfold tally. rewrite filter_app, length_app. lia. Qed.

Lemma tally_cons c d cs : tally c (d :: cs) = (if decide (d = c) then 1 else 0) + tally c cs.
Proof. unfold tally. rewrite filter_cons. destruct (decide (d = c)); cbn [length]; lia. Qed.

Lemma tally_le c cs : tally c cs <= Zlen cs.
Proof. unfold tally. pose proof (length_filter (fun c' => c' = c) cs). lia. Qed.

#[global] Instance tally_proper c : Proper ((≡ₚ) ==> eq) (tally c).
Proof. intros l l' Hl. unfold tally. by rewrite Hl. Qed.

Lemma count_all_exact cs : forall stats, (forall c, 0 <= stats c) -> (forall c, stats c + tally c cs < 2 ^ 64) ->
  forall c, count_all cs stats c = stats c + tally c cs.
Proof.
  induction cs as [|d cs IH]; intros stats H0 Hlt c; [unfold tally; cbn; lia|]. unfold count_all. cbn [foldl]. change (count_all cs (increment d stats) c = stats c + tally c (d :: cs)).
  assert (forall c', increment d stats c' = stats c' + (if decide (d = c') then 1 else 0)) as Hi.
  { intros c'. specialize (H0 c'). specialize (Hlt c'). rewrite tally_cons in Hlt. pose proof (tally_nonneg c' cs). unfold increment.
    destruct (decide (c' = d)) as [->|Hn], (decide _); try congruence; [rewrite u64_small by lia|]; lia. }
  rewrite IH; [rewrite Hi, tally_cons; lia|..].
  - intros c'. rewrite Hi. specialize (H0 c'). destruct (decide _); lia.
  - intros c'. rewrite Hi. specialize (Hlt c'). rewrite tally_cons in Hlt. lia.
Qed.
Section dial_facts.
Context `{FramePrimitives, Snappy, Hashes, CtrCiphers, Curve} (keccak : list byte -> list byte).

(** The phases that [connect] can have reported. *)
Definition all_phases : list ConnectProgressPhase := [kTcpConnected; kAuthSucceeded; kLocalHelloSent; kPeerHelloAccepted].
Definition failed_phases : list (list ConnectProgressPhase) :=
  [[]; [kTcpConnected]; [kTcpConnected; kAuthSucceeded]; [kTcpConnected; kAuthSucceeded; kLocalHelloSent];
   [kTcpConnected; kAuthSucceeded; kLocalHelloSent; kPeerDisconnectBeforeHello]].

Lemma connect_phases params tcp rnd timer :
  match connect params tcp rnd timer (mkConnectLog [] None) with
  | (success _, log) => (cl_progress log).*1 = all_phases
  | (failure _, log) => (cl_progress log).*1 ∈ failed_phases
  | (crash _, _) => True
  end.
Proof.
  unfold connect, mbind, M_bind, lift, report, report_reason, on_object, failed_phases. destruct tcp as [t|e|f]; [|set_solver|done].
  destruct (execute _ rnd t) as [[hs|e|f] t1]; [|set_solver|done]. destruct (frame_secrets hs) as [sec|]; [|done]. cbn [initialised].
  destruct (hello_encode _) as [he|e|f]; cbn [or_error]; [|set_solver|done]. destruct (send_message _ _) as [[u|e|f] st2]; [|set_solver|done].
  destruct (receive_stream_message_with_timeout timer st2) as [[pm|e|f] st3]; [|set_solver|done]. cbn [cl_progress cl_reason app].
  destruct (msg_id pm =? kHelloMessageId).
  - destruct (hello_decode (msg_payload pm)) as [h|e|f]; [done|set_solver|done].
  - destruct (msg_id pm =? kDisconnectMessageId); [|set_solver]. destruct (disconnect_decode (msg_payload pm)) as [r|e|f]; [set_solver|set_solver|done].
Qed.

(** What one dial adds to the counters. *)
Record dial_counts (result : DialResult) (cs : list runtime_stat) : Prop := {
  dc_accepted : tally remote_status_accepted cs = match result with DialConnected _ => 1 | _ => 0 end;
  dc_sent : tally eth_status_sent cs = tally peer_hello_accepted cs;
  dc_shaken : tally eth_status_sent cs = tally remote_status_accepted cs + tally remote_status_rejected cs;
  dc_hello : tally peer_hello_accepted cs + tally peer_disconnect_before_hello cs <= tally local_hello_sent cs;
  dc_auth : tally local_hello_sent cs <= tally auth_success cs;
  dc_tcp : tally auth_success cs <= tally tcp_connected cs;
  dc_failed : tally tcp_connect_failures cs + tally peer_hello_accepted cs <= 1;
  dc_once c : tally c cs <= 1
}.

Definition phase_stat (phase : ConnectProgressPhase) : runtime_stat :=
  match phase with
  | kTcpConnected => tcp_connected
  | kAuthSucceeded => auth_success
  | kLocalHelloSent => local_hello_sent
  | kPeerDisconnectBeforeHello => peer_disconnect_before_hello
  | kPeerHelloAccepted => peer_hello_accepted
  end.

Lemma count_phases phases stats : foldl count_phase stats phases = count_all (phase_stat <$> phases) stats.
Proof. revert stats. induction phases as [|ph phases IH]; intros stats; [done|]. cbn [foldl fmap list_fmap]. rewrite IH. by destruct ph. Qed.

Definition no_fault (result : DialResult) : Prop := match result with DialFault _ => False | _ => True end.

(** The counters that a dial increments do not depend on their values. *)
Lemma shake_hands_counts chain watches callback env session : exists result cs,
  (forall stats, shake_hands keccak chain watches callback env session stats = (result, count_all cs stats)) /\
  (no_fault result -> dial_counts result ((phase_stat <$> all_phases) ++ cs)).
Proof.
  unfold shake_hands. destruct (PerformEthStatusHandshake _ _) as [[st|e|f] hs].
  - destruct (connected_runner _ _ _ _ _ _) as [[[]|[]|f] runner].
    + eexists _, [eth_status_sent; remote_status_accepted]. split; [done|]. intros _. split; try by vm_compute. intros c. destruct c; by vm_compute.
    + eexists _, [eth_status_sent; remote_status_accepted]. by split.
  - destruct (last (hs_disconnects hs)) as [reason|].
    + eexists _, [eth_status_sent; remote_status_rejected; rejected_disconnect_reason reason]. split; [done|]. intros _.
      split; try by vm_compute. intros c. rewrite !tally_app. destruct c; try by vm_compute. cbn [fmap list_fmap all_phases phase_stat]. rewrite !tally_cons. repeat case_decide; try done; cbn; lia.
    + eexists _, [eth_status_sent; remote_status_rejected; rejected_validation_error (error_index e)]. split; [done|]. intros _.
      split; try by vm_compute. intros c. rewrite !tally_app. destruct c; try by vm_compute. cbn [fmap list_fmap all_phases phase_stat]. rewrite !tally_cons. repeat case_decide; try done; cbn; lia.
  - eexists _, [eth_status_sent]. by split.
Qed.

Lemma default_dial_counts chain watches callback vp env : exists result cs,
  (forall stats, default_dial keccak chain watches callback vp env stats = (result, count_all cs stats)) /\
  (no_fault result -> dial_counts result cs).
Proof.
  unfold default_dial. destruct (generate_ephemeral_keypair (de_keys env)) as [kp|e|f].
  - set (params := mkConnectParams _ _ _ _ _ _). pose proof (connect_phases params (de_tcp env) (de_random env) (de_timer_fires env)) as Hp.
    destruct (connect _ _ _ _ _) as [[session|e|f] log].
    + destruct (shake_hands_counts chain watches callback env session) as (result & cs & He & Hc).
      eexists result, ((phase_stat <$> all_phases) ++ cs). split; [|done]. intros stats. rewrite count_phases, Hp, He. unfold count_all. by rewrite foldl_app.
    + set (reason := default kTcpErrorReason (cl_reason log)).
      eexists (DialFailed reason None), ((phase_stat <$> (cl_progress log).*1) ++ if reason =? kTcpErrorReason then [tcp_connect_failures] else []).
      split; [intros stats; rewrite count_phases; unfold count_all; rewrite foldl_app; by destruct (reason =? kTcpErrorReason)|]. intros _.
      unfold failed_phases in Hp. destruct (reason =? kTcpErrorReason);
        repeat (apply elem_of_cons in Hp as [->|Hp]; [split; try (by vm_compute); intros c; destruct c; by vm_compute|]); by apply elem_of_nil in Hp.
    + eexists _, _. split; [intros stats; by rewrite count_phases|done].
  - eexists _, []. split; [done|]. intros _. by split.
  - eexists _, []. by split.
Qed.

(** *** The connected runner *)

Definition watch_op (w : EthWatchEventSpec) : service_op RunnerCallback :=
  WatchEvent (es_contract_address w) (es_event_signature w) (es_params w) (NotifyEvent (es_event_signature w)) (es_from_block w) (es_to_block w).

Definition subscription_of (w : EthWatchEventSpec) : string * list AbiParam * RunnerCallback :=
  (es_event_signature w, es_params w, NotifyEvent (es_event_signature w)).
Definition filter_of (w : EthWatchEventSpec) : EventFilter :=
  make_event_filter keccak (es_contract_address w) (es_event_signature w) (es_from_block w) (es_to_block w).

(** What the services of a dialled runner watch. *)
Record watching (watches : list EthWatchEventSpec) (s : EthWatchService RunnerCallback) : Prop := {
  wa_ok : service_ok (Zlen watches) s;
  wa_subscriptions : map (fun sub => (ws_event_signature sub, ws_params sub, ws_callback sub)) (sv_subscriptions s) = subscription_of <$> watches;
  wa_filters : map sub_filter (subscriptions_ (watcher_ s)) = filter_of <$> watches;
  wa_sent : sv_sent s = [];
  wa_calls : sv_calls s = []
}.

Lemma watching_more watches w s : Zlen watches + 1 < 2 ^ 32 -> watching watches s ->
  watching (watches ++ [w]) (run_service_op keccak (watch_op w) s).2.
Proof.
  intros Hl [Hok Hs Hf Hse Hc]. pose proof (run_op_ok keccak (watch_op w) (Zlen watches) s ltac:(lia) Hl I Hok) as Hok'.
  split; [rewrite length_app, Nat2Z.inj_add; exact Hok'|..].
  - rewrite fmap_app, <- Hs. exact (map_app _ (sv_subscriptions s) [mkWatchSub _ _ _ _]).
  - rewrite fmap_app, <- Hf. exact (map_app _ (subscriptions_ (watcher_ s)) [mkSub _ _ _]).
  - done.
  - done.
Qed.

Lemma register_watches_spec todo : forall watches (r : EthWatchRunner RlpxEthSessionChannel),
  Zlen watches + Zlen todo < 2 ^ 32 -> watching watches (rn_service r) ->
  exists s, register_watches keccak todo r = with_service s r /\ watching (watches ++ todo) s.
Proof.
  induction todo as [|w todo IH]; intros watches r Hl Hw; cbn [register_watches].
  - exists (rn_service r). rewrite app_nil_r. split; [by destruct r|done].
  - cbn [length] in Hl. pose proof (watching_more watches w _ ltac:(lia) Hw) as Hw'.
    destruct (IH (watches ++ [w]) (with_service (run_service_op keccak (watch_op w) (rn_service r)).2 r)) as (s & E & Hs).
    + rewrite length_app. cbn [length]. lia.
    + exact Hw'.
    + exists s. rewrite <- app_assoc in Hs. split; [|exact Hs]. exact E.
Qed.

(** Polls that find the queue empty, then a batch. *)
Lemma poll_arriving n m q polls s : recv_channel s = [] ->
  poll_until (replicate n [] ++ (m :: q) :: polls) s = (success m, set_recv_channel q s).
Proof.
  revert s. induction n as [|n IH]; intros s Hq; cbn [replicate app poll_until]; rewrite Hq; cbn [app].
  - by destruct polls.
  - replace (set_recv_channel [] s) with s by (destruct s; cbn in Hq |- *; by rewrite Hq). by apply IH.
Qed.

Lemma receive_arriving n m q polls rest s : state_ s = SessionState.kActive -> recv_channel s = [] ->
  ch_receive_message_with_timeout (mkChannel s ((replicate n [] ++ (m :: q) :: polls) :: rest)) = (success m, mkChannel (set_recv_channel q s) rest).
Proof.
  intros Ha Hq. cbn [ch_receive_message_with_timeout rlpx_eth_channel]. unfold adapter_receive_message_with_timeout, receive_message_with_timeout, mbind, M_bind, require_active.
  cbn [ch_session ch_arrivals]. rewrite Ha. by rewrite poll_arriving.
Qed.

(** The handshake on a session as [connect] left it. *)
Lemma handshake_arriving ours theirs s n ignored after polls arrivals :
  let version := negotiated_eth_version_ s in
  let offset := negotiated_eth_offset_ s in
  wf_start ours -> wf_start theirs -> same_chain ours theirs -> start_eth_message_schemas ours = [] ->
  66 <= version <= 69 -> 16 <= offset < 256 -> state_ s = SessionState.kActive -> recv_channel s = [] -> Forall (skipped offset) ignored ->
  PerformEthStatusHandshake ours
    (mkHS (mkChannel s ((replicate n [] ++ (ignored ++ status_message theirs version offset :: after) :: polls) :: arrivals)) []) =
    (success (local_status theirs version),
     mkHS (mkChannel (set_recv_channel after (set_send_channel (send_channel s ++ [status_message ours version offset]) s))
             (drop (length ignored) arrivals)) []).
Proof.
  intros version offset Hw Hw' Hsame Hs Hv Ho Ha Hq Hi. unfold PerformEthStatusHandshake, handshake_with.
  rewrite (bind_success get_state _ _ _ _ eq_refl). cbn [hs_channel ch_eth_version ch_eth_offset rlpx_eth_channel ch_session].
  fold version offset. rewrite (proj2 (Z.eqb_neq version 0)), (proj2 (Z.eqb_neq offset 0)) by lia. cbn [orb].
  rewrite local_status_encodes by done. cbn [or_error]. rewrite (bind_success (lift _) _ _ _ _ eq_refl).
  unfold mbind at 1, M_bind at 1, on_channel at 1. cbn [hs_channel ch_post_message rlpx_eth_channel].
  unfold adapter_post_message, post_message, mbind at 1, M_bind at 1, require_active. cbn [ch_session]. rewrite Ha.
  cbn [channel_push or_error ch_arrivals hs_disconnects]. rewrite (bind_success get_state _ _ _ _ eq_refl).
  unfold kStatusMessageId. rewrite Z.add_0_r, Z.mod_small by lia. set (s1 := set_send_channel _ s).
  change (rlp_status (BuildLocalStatusMessage version (start_network_id ours) (start_genesis_hash ours) (start_fork_id ours)))
    with (msg_payload (status_message ours version offset)) in s1.
  assert (inbound ours version offset (status_message theirs version offset) = (None, Some (success (local_status theirs version)))) as Hst
    by (by apply inbound_peer_status).
  cbn [handshake_loop]. unfold mbind at 1, M_bind at 1, on_channel at 1. cbn [hs_channel]. destruct ignored as [|i ignored]; cbn [app].
  - rewrite receive_arriving by done. cbn [or_error]. rewrite Hst. unfold mbind, M_bind, report_disconnect. cbn. by rewrite drop_0.
  - apply Forall_cons in Hi as [Hi1 Hi]. rewrite receive_arriving by done. cbn [or_error]. rewrite inbound_skipped by done.
    unfold mbind, M_bind, report_disconnect. cbn [hs_channel hs_disconnects option_list app].
    rewrite (loop_until_status ours version offset _ _ after [] Hst ignored); [done|done|done|done|].
    cbn [ch_pending rlpx_eth_channel ch_session ch_arrivals sum_list_with]. unfold arriving. rewrite concat_app. cbn [concat].
    rewrite !length_app. cbn [length]. rewrite length_app. cbn [length]. lia.
Qed.

Lemma new_runner_watching channel name network genesis fork schemas :
  watching [] (rn_service (EthWatchRunner_new (C := RlpxEthSessionChannel) channel name network genesis fork schemas)).
Proof.
  split; try done. apply (run_op_ok keccak (SetSchemas schemas) 0); try done. apply new_service_ok.
Qed.

Lemma connected_runner_spec chain fork_id watches callback channel : Zlen watches < 2 ^ 32 ->
  exists r, connected_runner keccak chain fork_id watches callback channel = (success tt, r) /\
    rn_chain_name r = to_string (canonical_name chain) /\ rn_channel r = Some (ch_set_eth_message_handler channel) /\
    send_cb_ (rn_service r) = true /\ watching watches (rn_service r) /\ rn_event_callback r = callback /\ rn_notifications r = [].
Proof.
  intros Hl. unfold connected_runner, install_session_bridge. set (r := set_event_callback callback _).
  destruct (register_watches_spec watches [] r) as (sv & -> & Hwa); [cbn; lia|apply new_runner_watching|].
  eexists. split; [done|]. repeat (split; [done|]). split; [|done].
  destruct Hwa as [Hok H5 H6 H7 H8]. split; try done.
  pose proof (run_op_ok keccak (SetSendCallback true) (Zlen watches) sv ltac:(lia) ltac:(cbn; lia) I Hok) as Hok'. by rewrite Z.add_0_r in Hok'.
Qed.

Lemma shake_hands_connected chain watches callback env s stats r stats' : Zlen watches < 2 ^ 32 ->
  shake_hands keccak chain watches callback env s stats = (DialConnected r, stats') ->
  rn_chain_name r = to_string (canonical_name chain) /\ watching watches (rn_service r) /\ rn_event_callback r = callback.
Proof.
  intros Hl. unfold shake_hands. destruct (PerformEthStatusHandshake _ _) as [[st|e|f] hs]; [|done|done].
  destruct (connected_runner_spec chain (start_fork_id (dial_start chain)) watches callback (hs_channel hs) Hl) as (r' & -> & Hn & _ & _ & Hw & Hc & _).
  intros [= <- <-]. done.
Qed.
End dial_facts.

(** ** Claims *)


(** A finished dial with the counters it incremented. *)
Definition dialled `{FramePrimitives, Snappy, Hashes, CtrCiphers, Curve} (keccak : list byte -> list byte)
    (run : DialResult * list runtime_stat) : Prop :=
  no_fault run.1 /\ Zlen run.2 < 2 ^ 64 /\ exists chain watches callback vp env,
    forall stats, default_dial keccak chain watches callback vp env stats = (run.1, count_all run.2 stats).

Definition is_connected (result : DialResult) : bool := match result with DialConnected _ => true | _ => false end.

Definition connected_dials (runs : list (DialResult * list runtime_stat)) : Z :=
  Zlen (filter (fun run => is_connected run.1 = true) runs).

(** The sums over all dials. *)
Lemma funnel_sums `{FramePrimitives, Snappy, Hashes, CtrCiphers, Curve} keccak runs : Forall (dialled keccak) runs ->
  let cs := concat (map snd runs) in
  tally remote_status_accepted cs = connected_dials runs /\
  tally eth_status_sent cs = tally peer_hello_accepted cs /\
  tally eth_status_sent cs = tally remote_status_accepted cs + tally remote_status_rejected cs /\
  tally peer_hello_accepted cs + tally peer_disconnect_before_hello cs <= tally local_hello_sent cs /\
  tally local_hello_sent cs <= tally auth_success cs /\ tally auth_success cs <= tally tcp_connected cs /\
  tally tcp_connect_failures cs + tally peer_hello_accepted cs <= Zlen runs /\
  forall c, tally c cs <= Zlen runs.
Proof.
  unfold connected_dials. induction 1 as [|[result cs] runs (Hf & Hlen & chain & watches & callback & vp & env & Hd) Hall IH].
  { cbn. repeat split; try done. }
  cbn [fst snd] in *. destruct (default_dial_counts keccak chain watches callback vp env) as (result' & cs' & He & Hc).
  assert (result' = result) as -> by (specialize (Hd no_runtime_stats); rewrite He in Hd; congruence). specialize (Hc Hf).
  assert (forall c, tally c cs = tally c cs') as Hcs.
  { intros c. specialize (Hd no_runtime_stats). rewrite He in Hd. injection Hd as Hd. apply (f_equal (fun f => f c)) in Hd.
    rewrite !count_all_exact in Hd by (unfold no_runtime_stats; try done; intros c'; (pose proof (tally_le c' cs); lia) || (pose proof (dc_once _ _ Hc c'); lia)).
    unfold no_runtime_stats in Hd. lia. }
  cbn [map concat]. setoid_rewrite tally_app. rewrite filter_cons. cbn [fst]. destruct IH as (H1' & IH). destruct Hc as [Hc1 Hc2 Hc3 Hc4 Hc5 Hc6 Hc7 Hc8].
  rewrite !Hcs. setoid_rewrite Hcs. destruct IH as (IH1 & IH2 & IH3 & IH4 & IH5 & IH6 & IH7).
  split; [destruct result; cbn [is_connected] in *; destruct (decide _); try done; cbn [length] in *; lia|].
  cbn [length]. split_and!; try lia. intros c. specialize (Hc8 c). specialize (IH7 c). lia.
Qed.

(** The runtime counters are a funnel.  When fewer than 2^64 dials of a chain have
    ended, in whatever order their coroutines incremented the counters: the accepted
    Statuses are exactly the dials that connected, every dial that passed the Hello sent a
    Status that was accepted or rejected, no later phase was counted more often than an
    earlier one, and no counter exceeds the number of dials. *)
Theorem dial_funnel `{FramePrimitives, Snappy, Hashes, CtrCiphers, Curve} keccak runs order :
  Forall (dialled keccak) runs -> Zlen runs < 2 ^ 64 -> order ≡ₚ concat (map snd runs) ->
  let stats := count_all order no_runtime_stats in
  stats remote_status_accepted = connected_dials runs /\
  stats eth_status_sent = stats remote_status_accepted + stats remote_status_rejected /\
  stats eth_status_sent = stats peer_hello_accepted /\
  stats peer_hello_accepted + stats peer_disconnect_before_hello <= stats local_hello_sent /\
  stats local_hello_sent <= stats auth_success /\ stats auth_success <= stats tcp_connected /\
  stats tcp_connect_failures + stats peer_hello_accepted <= Zlen runs /\
  forall c, 0 <= stats c <= Zlen runs.
Proof.
  intros Hall Hlen Hord stats. destruct (funnel_sums keccak runs Hall) as (S1 & S2 & S3 & S4 & S5 & S6 & S7 & S8).
  assert (forall c, stats c = tally c (concat (map snd runs))) as Hs.
  { intros c. unfold stats. rewrite count_all_exact; [|done|].
    - by rewrite Hord.
    - intros c'. rewrite Hord. unfold no_runtime_stats. specialize (S8 c'). lia. }
  rewrite !Hs. split_and!; try lia. intros c. rewrite Hs. specialize (S8 c). pose proof (tally_nonneg c (concat (map snd runs))). lia.
Qed.


(** ** Concrete dials *)

Module SampleDialer.
Definition dialing : World := after_call (initial_world 1 1 [None] 0) 0 (DialScheduler.mkChain (DialScheduler_new None) []) [] 1
  (enqueue (ex_peer x01) 1 (DialScheduler_new None) (mkPool 1 1 0)).
Definition sched_of (w : World) : Chain := default (DialScheduler.mkChain (DialScheduler_new None) []) (w_chains w !! 0%nat).
Definition connected : World := dial_report (DialConnected SampleRunner.runner) dialing 0 (sched_of dialing) (ex_peer x01) [] [] [] 2.
Definition disconnected : World := after_call connected 0 (sched_of connected) [mkDial 0 (ex_peer x01) true true] 3
  (enqueue_all [ex_peer x02] 3 (ch_sched (sched_of connected)) (w_pool connected)).

Lemma connected_reachable : rtc dstep (initial_world 1 1 [None] 0) connected.
Proof.
  eapply rtc_l; [by apply (ds_enqueue (initial_world 1 1 [None] 0) 0 (DialScheduler.mkChain (DialScheduler_new None) []) (ex_peer x01) 1)|].
  apply rtc_once. by apply (ds_dial dialing 0 (sched_of dialing) (ex_peer x01) [] [] (DialConnected SampleRunner.runner) [] 2).
Qed.

Lemma disconnected_reachable : rtc dstep connected disconnected.
Proof. apply rtc_once. by apply (ds_disconnect_message connected 0 (sched_of connected) (ex_peer x01) false [] [] [ex_peer x02] 3). Qed.

(** A dial whose key generation fails and one whose TCP connection is refused. *)
Definition chain : ChainPeerConfig :=
  ChainPeers.mkChain (lit "mainnet") 1 (SampleHandshake.hash 7) [] [] [] [] kAuto kRequire (Some SampleHandshake.fork) [] [] [].
Definition env (keys : list (option (list byte))) (arrivals : list (list (list Message))) : DialEnv :=
  mkDialEnv keys (failure SessionError.kConnectionFailed) (mkHandshakeRandom [] None (mkAuthRandom [] (mkEciesRandom [] []))) false arrivals.
Definition spec : EthWatchEventSpec := mkEventSpec sample_address "Transfer(address)" SampleService.transfer (Some 5) None.
Definition session : RlpxSession := set_recv_channel [] SampleHandshake.session.
End SampleDialer.
Import SampleDialer ToyCrypto FrameCipher.Toy.


Lemma dial_funnel_witness :
  count_all [tcp_connect_failures] no_runtime_stats tcp_connect_failures <= 2.
Proof.
  destruct (dial_funnel SampleService.keccak [(DialFailed kTcpErrorReason None, [tcp_connect_failures]); (DialFailed kProtocolError None, [])]
    [tcp_connect_failures]) as (_ & _ & _ & _ & _ & _ & _ & Hle); [|vm_compute; reflexivity|reflexivity|apply Hle].
  apply Forall_cons. split; [|apply Forall_singleton]; (split; [exact I|split; [vm_compute; reflexivity|]]).
  - exists chain, [], true, (ex_peer x01), (env [Some (replicate 32 x01)] []). intros stats. reflexivity.
  - exists chain, [], true, (ex_peer x01), (env [None] []). intros stats. reflexivity.
Defined.

