(* ===== verification/WatchOrchestrator.v ===== *)
(** * The watch orchestration

    The part of [EthWatchService] ([src/eth/eth_watch_service.cpp],
    [include/eth/eth_watch_service.hpp]) that runs a whole set of chains: the choice of the
    peer sources, [initialize], [run], [stop], and the aggregated counters.  Every chain
    gets a scheduler, a peer queue and at most one discovery; the dials that the schedulers
    start are those of [WatchDialer].

    The factories and starters of the configuration, the DNS lookup and what the discovery
    clients do when they are made and started are parameters.  The counters of a chain are
    shared between the chain and its dials: they are cells of a store, and a chain holds
    the number of its cell. *)

From S2P Require Import Prelude ParseUtility Base64Url Enr EnrTree Discv5Crawler Discv4Client RlpSpec EthObjects.
From S2P Require Import EthStatus ChainTracker EventFilter WatchService DialScheduler PeerQueue ChainPeers RlpxCrypto RlpxAuth.
From S2P Require Import FrameCipher RlpxSession EthHandshake WatchRunner WatchDialer.

(** ** eth_watch_service.hpp *)

Record EthWatchConnectionConfig := mkConnectionConfig { max_total_connections : Z; max_connections_per_chain : Z }.

Inductive EthWatchDiscoveryMode := kCacheOnly | kDiscoverIfNeeded | kDiscoverFirst | kHybrid.

(** What making and starting a discovery client comes to. *)
Inductive ClientStart := ClientThrows | ClientNull | ClientStartFails | ClientStarts.

(** The configuration.  The test seams may use the queue they are given. *)
Record EthWatchServiceConfig := mkServiceConfig {
  wc_connection : EthWatchConnectionConfig;
  wc_peer_queue : EthPeerQueueConfig;
  wc_chains : list ChainPeerConfig;
  wc_watches : list EthWatchEventSpec;
  wc_discovery_mode : EthWatchDiscoveryMode;
  wc_enable_discv4_fallback : bool;
  wc_enable_enr_tree_discovery : bool;
  wc_attach_peer_dialer : bool;
  wc_discovery : discv4Config;
  wc_discv5_discovery : discv5Config;
  wc_dial_fn_factory : bool;
  wc_enr_tree_resolver : option (ChainPeerConfig -> list text -> list text);
  wc_discv4_fallback_starter : option (ChainPeerConfig -> Q bool);
  wc_discv5_enr_tree_starter : option (ChainPeerConfig -> list text -> Q bool)
}.

(** ** Peer sources *)

Definition allows_enr_tree_discovery (chain : ChainPeerConfig) : bool :=
  match cc_discovery_default chain with kAuto | kEnrTree => true | _ => false end.

Definition allows_cache_enr_discv5_discovery (chain : ChainPeerConfig) : bool :=
  match cc_discovery_default chain with kAuto | kCacheEnrDiscv5 => true | _ => false end.

Definition allows_discv4_discovery (chain : ChainPeerConfig) : bool :=
  match cc_discovery_default chain with kAuto | kDiscv4 | kEnrTree => true | _ => false end.

(** [!v.empty()] *)
Definition nonempty {A} (l : list A) : bool := match l with [] => false | _ => true end.

Definition chain_config_matches_discovery_mode (chain : ChainPeerConfig) (mode : EthWatchDiscoveryMode)
    (enable_discv4_fallback enable_enr_tree_discovery : bool) : bool :=
  let has_cached_nodes := nonempty (cc_nodes chain) in
  let has_bootnodes := nonempty (cc_bootnodes chain) in
  let has_enr_tree := enable_enr_tree_discovery && allows_enr_tree_discovery chain && nonempty (cc_enr_trees chain) in
  let has_discv5_bootnodes := enable_enr_tree_discovery && allows_cache_enr_discv5_discovery chain && nonempty (cc_discv5_bootnodes chain) in
  let has_discovery_source := has_enr_tree || has_discv5_bootnodes || (enable_discv4_fallback && allows_discv4_discovery chain && has_bootnodes) in
  match mode with
  | kCacheOnly => has_cached_nodes
  | kDiscoverFirst => has_discovery_source
  | kDiscoverIfNeeded | kHybrid => has_cached_nodes || has_discovery_source
  end.

Definition should_preload_cached_peers (mode : EthWatchDiscoveryMode) : bool :=
  match mode with kDiscoverFirst => false | _ => true end.

(** The [switch] shared by the three decisions; [needed] is the answer for
    [kDiscoverIfNeeded]. *)
Definition mode_starts (mode : EthWatchDiscoveryMode) (needed : bool) : bool :=
  match mode with kCacheOnly => false | kDiscoverIfNeeded => needed | kDiscoverFirst | kHybrid => true end.

Definition should_start_discv4_discovery (q : EthPeerQueue) (chain : ChainPeerConfig) (mode : EthWatchDiscoveryMode) (enable_discv4_fallback : bool) : bool :=
  if negb enable_discv4_fallback || negb (allows_discv4_discovery chain) || negb (nonempty (discovery_bootnodes q)) then false
  else mode_starts mode (needs_discovery q).

Definition configured_enr_tree_urls (chain : ChainPeerConfig) : list text := cc_enr_trees chain.

Definition should_start_enr_tree_discovery (q : EthPeerQueue) (chain : ChainPeerConfig) (mode : EthWatchDiscoveryMode) (enable_enr_tree_discovery : bool) : bool :=
  if negb enable_enr_tree_discovery || negb (allows_enr_tree_discovery chain) || negb (nonempty (configured_enr_tree_urls chain)) then false
  else mode_starts mode (counters_ q cached_peer_count =? 0).

Definition should_start_cache_enr_discovery (q : EthPeerQueue) (chain : ChainPeerConfig) (mode : EthWatchDiscoveryMode) (enable_enr_tree_discovery : bool) : bool :=
  if negb enable_enr_tree_discovery || negb (allows_cache_enr_discv5_discovery chain) || negb (nonempty (cc_discv5_bootnodes chain)) then false
  else mode_starts mode (counters_ q cached_peer_count =? 0).

Definition make_optional_fork_id_filter (expected_hash : list byte) (peer : DiscoveredPeer) : bool :=
  match DialScheduler.eth_fork_id peer with
  | None => true
  | Some f => bool_decide (fork_hash_4 f = expected_hash)
  end.

Definition direct_enr_tree_peer_allowed (chain : ChainPeerConfig) (peer : Enr.ValidatedPeer) : bool :=
  match cc_fork_id chain, cc_discovery_fork_filter chain with
  | None, _ | _, kDisabled => true
  | Some fork, kRequire =>
      match peer_eth_fork_id peer with
      | None => false
      | Some f => bool_decide (Enr.hash f = fork_hash fork) && (Enr.next f =? next_fork fork)
      end
  end.

(** [discovery::ValidatedPeer] as the queue takes it. *)
Definition discovery_peer (peer : Enr.ValidatedPeer) : DiscoveredPeer :=
  mkPeer (peer_node_id peer) (to_string (Enr.peer_ip peer)) (peer_udp_port peer) (peer_tcp_port peer) (Enr.last_seen peer)
    ((fun f => mkPeerForkId (Enr.hash f) (Enr.next f)) <$> peer_eth_fork_id peer).

(** The configuration a discv5 client is made with: the crawler's part, and the keys when
    they were generated. *)
Record Discv5Start := mkDiscv5Start { d5_config : discv5Config; d5_keys : option KeyPair }.

(** What one chain meets when it is started. *)
Record ChainEnv := mkChainEnv {
  ce_now : Z;
  ce_keys : list (option (list byte));
  ce_discv5_client : Discv5Start -> ClientStart;
  ce_discv4_client : discv4Config -> ClientStart
}.

(** [RuntimeChain]; the queue and the counters are never null.  [rc_dialing] are the dials
    its scheduler has started, [rc_find_nodes] the lookups spawned on the discv4 client. *)
Record RuntimeChain := mkRuntimeChain {
  rc_config : ChainPeerConfig;
  rc_scheduler : option DialScheduler;
  rc_peer_queue : EthPeerQueue;
  rc_dialing : list ValidatedPeer;
  rc_discovery_client : option discv4Config;
  rc_find_nodes : list (string * Z * list byte);
  rc_discv5_client : option Discv5Start;
  rc_discv4_fallback_started : bool;
  rc_discv5_enr_tree_started : bool;
  rc_discv5_cache_enr_started : bool;
  rc_stats : nat
}.

Section orchestration.
Context `{EnrPrimitives, Curve} (lookup : text -> list text).

(** [enqueue_resolved_enr_tree_peers]; the queue is never null. *)
Fixpoint enqueue_resolved_enr_tree_peers (chain : ChainPeerConfig) (enrs : list text) (enqueued : Z) (now : Z) : Q Z :=
  match enrs with
  | [] => mret enqueued
  | enr :: enrs' =>
      if negb (starts_with enr (lit "enr:")) then enqueue_resolved_enr_tree_peers chain enrs' enqueued now else
      match Enr.parse enr with
      | crash f => crash_with f
      | failure _ => enqueue_resolved_enr_tree_peers chain enrs' enqueued now
      | success record =>
          match to_validated_peer record now with
          | crash f => crash_with f
          | failure _ => enqueue_resolved_enr_tree_peers chain enrs' enqueued now
          | success peer =>
              if negb (direct_enr_tree_peer_allowed chain peer) then enqueue_resolved_enr_tree_peers chain enrs' enqueued now else
              accepted ← enqueue_validated_discovery_peer (discovery_peer peer) now;
              enqueue_resolved_enr_tree_peers chain enrs' (if accepted : bool then u64 (enqueued + 1) else enqueued) now
          end
      end
  end.

(** The generated keys; without them the configured ones stay. *)
Definition optional_keys (draws : list (option (list byte))) : Q (option KeyPair) :=
  match generate_ephemeral_keypair draws with
  | success keypair => mret (Some keypair)
  | failure _ => mret None
  | crash f => crash_with f
  end.

(** [start_discv5_discovery]: whether discovery was started, and the client. *)
Definition start_discv5_discovery (config : EthWatchServiceConfig) (env : ChainEnv) (chain : ChainPeerConfig) (bootstrap : list text) :
    Q (bool * option Discv5Start) :=
  if negb (nonempty bootstrap) then mret (false, None) else
  match wc_discv5_enr_tree_starter config with
  | Some starter => started ← starter chain bootstrap; mret (started, None)
  | None =>
      let required := match cc_fork_id chain, cc_discovery_fork_filter chain with
                      | Some fork, kRequire => Some (Enr.mkForkId (fork_hash fork) (next_fork fork))
                      | _, _ => required_fork_id (wc_discv5_discovery config)
                      end in
      keys ← optional_keys (ce_keys env);
      let client := mkDiscv5Start (mkDiscv5Config bootstrap required) keys in
      mret match ce_discv5_client env client with
           | ClientThrows | ClientNull | ClientStartFails => (false, None)
           | ClientStarts => (true, Some client)
           end
  end.

Definition start_enr_tree_discovery (config : EthWatchServiceConfig) (env : ChainEnv) (chain : ChainPeerConfig) : Q (bool * option Discv5Start) :=
  let urls := configured_enr_tree_urls chain in
  if negb (nonempty urls) then mret (false, None) else
  bootstrap ← match wc_enr_tree_resolver config with
              | Some resolver => mret (resolver chain urls)
              | None => lift (resolve lookup urls 128)
              end;
  if negb (nonempty bootstrap) then mret (false, None) else
  _ ← enqueue_resolved_enr_tree_peers chain bootstrap 0 (ce_now env);
  start_discv5_discovery config env chain bootstrap.

(** [start_discv4_fallback]: whether it was started, the client, and the lookups of the
    bootnodes. *)
Definition start_discv4_fallback (config : EthWatchServiceConfig) (env : ChainEnv) (chain : ChainPeerConfig) :
    Q (bool * option discv4Config * list (string * Z * list byte)) :=
  match wc_discv4_fallback_starter config with
  | Some starter => started ← starter chain; mret (started, None, [])
  | None =>
      keys ← optional_keys (ce_keys env);
      let base := wc_discovery config in
      let client := match keys with
                    | Some keypair => Discv4Client.mkConfig (bind_ip base) (bind_port base) (config_tcp_port base)
                                        (RlpxCrypto.private_key keypair) (RlpxCrypto.public_key keypair) (ping_timeout base)
                    | None => base
                    end in
      match ce_discv4_client env client with
      | ClientThrows | ClientNull | ClientStartFails => mret (false, None, [])
      | ClientStarts =>
          st ← get_state;
          mret (true, Some client,
                (fun b => (DialScheduler.peer_ip (vp_peer b), DialScheduler.udp_port (vp_peer b), DialScheduler.node_id (vp_peer b))) <$>
                  discovery_bootnodes (st_queue st))
      end
  end.

(** The three decisions in the loop of [run], in their order. *)
Definition start_sources (config : EthWatchServiceConfig) (env : ChainEnv) (chain : ChainPeerConfig) :
    Q (bool * bool * option Discv5Start * (bool * option discv4Config * list (string * Z * list byte))) :=
  let mode := wc_discovery_mode config in
  st ← get_state;
  '(tree_started, client) ←
    (if should_start_enr_tree_discovery (st_queue st) chain mode (wc_enable_enr_tree_discovery config)
     then start_enr_tree_discovery config env chain else mret (false, None));
  st ← get_state;
  '(cache_started, client) ←
    (if negb tree_started && should_start_cache_enr_discovery (st_queue st) chain mode (wc_enable_enr_tree_discovery config)
     then start_discv5_discovery config env chain (cc_discv5_bootnodes chain) else mret (false, client));
  st ← get_state;
  discv4 ←
    (if negb tree_started && negb cache_started && should_start_discv4_discovery (st_queue st) chain mode (wc_enable_discv4_fallback config)
     then start_discv4_fallback config env chain else mret (false, None, []));
  mret (tree_started, cache_started, client, discv4).

(** The scheduler of a chain. *)
Definition make_scheduler (config : EthWatchServiceConfig) (chain : ChainPeerConfig) : option DialScheduler :=
  if wc_attach_peer_dialer config then
    Some (DialScheduler_new
            match cc_fork_id chain, cc_discovery_fork_filter chain with
            | Some fork, kRequire => Some (make_optional_fork_id_filter (fork_hash fork))
            | _, _ => None
            end)
  else None.

(** One pass through the loop of [run]; [stats] is the chain's cell. *)
Definition start_chain (config : EthWatchServiceConfig) (env : ChainEnv) (chain : ChainPeerConfig) (stats : nat) (pool : WatcherPool) :
    outcome Empty_set (RuntimeChain * WatcherPool) :=
  let program : Q _ :=
    make_eth_peer_queue (cc_nodes chain) (cc_bootnodes chain) (should_preload_cached_peers (wc_discovery_mode config)) (ce_now env) ;;
    start_sources config env chain in
  match program (EthPeerQueue_new (make_scheduler config chain) pool (wc_peer_queue config)) with
  | (success (tree_started, cache_started, client, (fallback, client4, lookups)), st) =>
      success (mkRuntimeChain chain (st_scheduler st) (st_queue st) (st_spawned st) client4 lookups client fallback tree_started cache_started stats,
               st_pool st)
  | (failure e, _) => match e with end
  | (crash f, _) => crash f
  end.

(** ** The service *)

Notation Rn := (EthWatchRunner RlpxEthSessionChannel).

(** The members of the orchestration, the store of counters, and the chains that [stop]
    has released, in the order in which they were stopped. *)
Record Orchestration := mkOrchestration {
  orchestration_initialized_ : bool;
  orchestration_running_ : bool;
  orchestration_config_ : EthWatchServiceConfig;
  orchestration_callback_ : bool;
  runtime_chains_ : list RuntimeChain;
  active_runners_ : list Rn;
  runtime_stats_by_chain_ : gmap text nat;
  stats_store : list RuntimeStats;
  stopped_chains : list RuntimeChain
}.

Definition default_service_config : EthWatchServiceConfig :=
  mkServiceConfig (mkConnectionConfig 24 3) default_queue_config [] [] kDiscoverIfNeeded true true true
    (Discv4Client.mkConfig "0.0.0.0" 30303 30303 (replicate 32 x00) (replicate 64 x00) 5000) (mkDiscv5Config [] None) false None None None.

Definition Orchestration_new : Orchestration := mkOrchestration false false default_service_config false [] [] ∅ [] [].

(** What [stop] does to a chain; the clients are stopped with it. *)
Definition stop_chain (c : RuntimeChain) : RuntimeChain :=
  mkRuntimeChain (rc_config c) (DialScheduler.stop <$> rc_scheduler c) (rc_peer_queue c) (rc_dialing c) None (rc_find_nodes c) None
    (rc_discv4_fallback_started c) (rc_discv5_enr_tree_started c) (rc_discv5_cache_enr_started c) (rc_stats c).

Definition service_stop (o : Orchestration) : Orchestration :=
  mkOrchestration (orchestration_initialized_ o) false (orchestration_config_ o) (orchestration_callback_ o) [] [] ∅ (stats_store o)
    (stopped_chains o ++ (stop_chain <$> runtime_chains_ o)).

(** The checks of [initialize], chain by chain. *)
Definition chain_valid (config : EthWatchServiceConfig) (chain : ChainPeerConfig) : bool :=
  nonempty (canonical_name chain) &&
  chain_config_matches_discovery_mode chain (wc_discovery_mode config) (wc_enable_discv4_fallback config) (wc_enable_enr_tree_discovery config).

Definition initialize (config : EthWatchServiceConfig) (callback : bool) (o : Orchestration) : bool * Orchestration :=
  let o := service_stop o in
  let reset := mkOrchestration false false default_service_config false (runtime_chains_ o) (active_runners_ o) (runtime_stats_by_chain_ o)
                 (stats_store o) (stopped_chains o) in
  if negb (nonempty (wc_chains config)) then (false, reset) else
  if negb (forallb (chain_valid config) (wc_chains config)) then (false, reset) else
  (true, mkOrchestration true false config callback (runtime_chains_ o) (active_runners_ o) (runtime_stats_by_chain_ o) (stats_store o) (stopped_chains o)).

Definition make_eth_watcher_pool (config : EthWatchConnectionConfig) : WatcherPool :=
  mkPool (max_total_connections config) (max_connections_per_chain config) 0.

(** [start_eth_watch_chain_peer_dialing]: the scheduler, the pool and the dials started. *)
Definition start_eth_watch_chain_peer_dialing (pool : WatcherPool) (peers : list ValidatedPeer) (now : Z) : sched_result :=
  enqueue_all peers now (DialScheduler_new None) pool.

(** The loop of [run]: every chain gets a fresh cell. *)
Fixpoint start_chains (config : EthWatchServiceConfig) (chains : list (ChainPeerConfig * ChainEnv)) (pool : WatcherPool) (store : list RuntimeStats)
    (by_chain : gmap text nat) (started : list RuntimeChain) :
    outcome Empty_set (list RuntimeChain * gmap text nat * list RuntimeStats) :=
  match chains with
  | [] => success (started, by_chain, store)
  | (chain, env) :: chains' =>
      let cell := length store in
      let by_chain := <[canonical_name chain := cell]> by_chain in
      '(runtime, pool) ← start_chain config env chain cell pool;
      start_chains config chains' pool (store ++ [no_runtime_stats]) by_chain (started ++ [runtime])
  end.

(** [run]; [envs i] is what the chain at index [i] meets. *)
Definition run (envs : nat -> ChainEnv) : M Orchestration Empty_set unit := fun o =>
  if negb (orchestration_initialized_ o) || orchestration_running_ o then (success tt, o) else
  let config := orchestration_config_ o in
  match start_chains config (imap (fun i chain => (chain, envs i)) (wc_chains config)) (make_eth_watcher_pool (wc_connection config)) (stats_store o) ∅ [] with
  | success (chains, by_chain, store) =>
      (success tt, mkOrchestration true true config (orchestration_callback_ o) chains [] by_chain store (stopped_chains o))
  | failure e => match e with end
  | crash f => (crash f, o)
  end.

(** A dial of the default dial function goes on to its end: [dial] is [default_dial], or
    [shake_hands] for one whose session is connected.  It counts in [cell]; the watches and
    the callback are those of the moment. *)
Definition dial_ends (cell : nat) (dial : list EthWatchEventSpec -> bool -> RuntimeStats -> DialResult * RuntimeStats) (o : Orchestration) :
    DialResult * Orchestration :=
  let '(result, stats) := dial (wc_watches (orchestration_config_ o)) (orchestration_callback_ o) (default no_runtime_stats (stats_store o !! cell)) in
  (result,
   mkOrchestration (orchestration_initialized_ o) (orchestration_running_ o) (orchestration_config_ o) (orchestration_callback_ o)
     (runtime_chains_ o) (active_runners_ o ++ match result with DialConnected r => [r] | _ => [] end) (runtime_stats_by_chain_ o)
     (<[cell := stats]> (stats_store o)) (stopped_chains o)).

(** *** Observers *)

Definition runtime_chain_count (o : Orchestration) : Z := Zlen (runtime_chains_ o).
Definition scheduler_count (o : Orchestration) : Z := Zlen (filter (fun c => is_Some (rc_scheduler c)) (runtime_chains_ o)).
(** The queue of a chain is never null. *)
Definition peer_queue_count (o : Orchestration) : Z := Zlen (runtime_chains_ o).
Definition discovery_client_count (o : Orchestration) : Z := Zlen (filter (fun c => is_Some (rc_discovery_client c)) (runtime_chains_ o)).
Definition discv4_fallback_count (o : Orchestration) : Z := Zlen (filter (fun c => rc_discv4_fallback_started c = true) (runtime_chains_ o)).
Definition active_runner_count (o : Orchestration) : Z := Zlen (active_runners_ o).

Definition peer_queue (chain_name : text) (o : Orchestration) : option EthPeerQueue :=
  rc_peer_queue <$> head (filter (fun c => canonical_name (rc_config c) = chain_name) (runtime_chains_ o)).

(** [aggregate += stats], field by field. *)
Definition add_stats (a b : WatchStats) : WatchStats :=
  mkStats (u64 (eth_messages_seen a + eth_messages_seen b)) (u64 (new_block_hashes_messages a + new_block_hashes_messages b))
    (u64 (new_block_messages a + new_block_messages b)) (u64 (receipts_messages a + receipts_messages b))
    (u64 (decode_failures a + decode_failures b)) (u64 (receipts_requested a + receipts_requested b))
    (u64 (receipts_processed a + receipts_processed b)) (u64 (logs_seen a + logs_seen b))
    (u64 (matched_logs a + matched_logs b)) (u64 (discarded_logs a + discarded_logs b)).

Definition aggregate_runtime_stats (o : Orchestration) : WatchStats :=
  foldl (fun a r => add_stats a (stats_ (rn_service r))) no_stats (active_runners_ o).

Definition aggregate_connection_stats (o : Orchestration) : RuntimeStats * (counter -> Z) :=
  foldl (fun '(rs, qs) c =>
           ((fun name => u64 (rs name + default no_runtime_stats (stats_store o !! rc_stats c) name)) : RuntimeStats,
            fun name => u64 (qs name + PeerQueue.stats (rc_peer_queue c) name)))
    (no_runtime_stats, fun _ => 0) (runtime_chains_ o).
End orchestration.

(** ** The queue while a chain is started *)

Definition passes (F : option (DiscoveredPeer -> bool)) (vp : ValidatedPeer) : Prop :=
  match F with Some f => f (vp_peer vp) = true | None => True end.

(** The bootnodes stay, the scheduler keeps its filter, and the peers that wait or are
    dialled pass it. *)
Record starting (F : option (DiscoveredPeer -> bool)) (bootnodes : list ValidatedPeer) (st : QueueState) : Prop := {
  sg_bootnodes : discovery_bootnodes_ (st_queue st) = bootnodes;
  sg_filter s : st_scheduler st = Some s -> filter_fn s = F /\ Forall (passes F) (queue s);
  sg_spawned : Forall (passes F) (st_spawned st)
}.

Lemma enqueue_passes F vp now s p s' p' sp : enqueue vp now s p = (s', p', sp) -> filter_fn s = F -> Forall (passes F) (queue s) ->
  filter_fn s' = F /\ Forall (passes F) (queue s') /\ Forall (passes F) sp.
Proof.
  intros E Hf Hq. unfold enqueue in E. destruct (stopping s); [by injection E as <- <- <-|].
  destruct (match filter_fn s with Some f => negb (f (vp_peer vp)) | None => false end) eqn:Ep; [by injection E as <- <- <-|].
  assert (passes F vp) as Hp.
  { rewrite Hf in Ep. unfold passes. destruct F as [f|]; [|done]. by destruct (f (vp_peer vp)). }
  destruct (history_contains _ _ _); [by injection E as <- <- <-|].
  destruct (has_slot _ p); injection E as <- <- <-; (split; [done|split]); cbn; auto using Forall_app_2.
Qed.

#[global] Instance starting_invariant F bootnodes : EnqueueInvariant (fun _ => True) (starting F bootnodes).
Proof.
  split.
  - intros c st []. eexists tt, _. split; [done|]. by split.
  - intros vp now _ st [Hb Hs Hsp]. destruct st as [q sched p h sp]. unfold enqueue_candidate, get_state, bump, set_backoff, set_seen, with_peer_queue, mbind, M_bind.
    qsimpl. destruct (match backoff_until_ q !! peer_key vp with Some until => now <? until | None => false end).
    { eexists _, _. split; [done|]. by split. }
    destruct (negb _ && negb false). { eexists _, _. split; [done|]. by split. }
    destruct sched as [s|]; [|eexists _, _; split; [done|]; by split].
    destruct (negb (has_slot s p) && _). { destruct (bool_decide _); (eexists _, _; split; [done|]; by split). }
    unfold hand_over. qsimpl. destruct (enqueue vp now s p) as [[s' p'] sp'] eqn:E. destruct (Hs s eq_refl) as [Hf Hq].
    destruct (enqueue_passes _ _ _ _ _ _ _ _ E Hf Hq) as (H1 & H2 & H3). eexists _, _. split; [done|].
    split; [done|intros ? [= <-]; by split|]. qsimpl. by apply Forall_app_2.
Qed.

(** [m] keeps [I] when it returns. *)
Definition preserves {A} (I : QueueState -> Prop) (m : Q A) : Prop := forall st a st', I st -> m st = (success a, st') -> I st'.

Lemma preserves_keeps {A} I (m : Q A) : keeps I m -> preserves I m.
Proof. intros Hk st a st' Hi E. destruct (Hk st Hi) as (a' & st1 & E1 & H1). congruence. Qed.

Lemma preserves_pure {A} I (a : A) : preserves I (mret a).
Proof. by intros st a' st' Hi [= <- <-]. Qed.

Lemma preserves_get I : preserves I get_state.
Proof. by intros st a' st' Hi [= <- <-]. Qed.

Lemma preserves_lift {A} I (r : outcome Empty_set A) : preserves I (lift r).
Proof. intros st a st' Hi [= -> <-]. done. Qed.

Lemma preserves_crash {A} I f : preserves (A := A) I (crash_with f).
Proof. by intros st a st' Hi [= ]. Qed.

Lemma preserves_bind {A B} I (m : Q A) (k : A -> Q B) : preserves I m -> (forall a, preserves I (k a)) -> preserves I (m ≫= k).
Proof.
  intros Hm Hk st b st' Hi E. unfold mbind, M_bind in E. destruct (m st) as [[a|[]|f] st1] eqn:E1; [|done]. by eapply Hk, E; eapply Hm.
Qed.

Section start_facts.
Context `{EnrPrimitives, Curve} (lookup : text -> list text).
Context (I : QueueState -> Prop) `{!EnqueueInvariant (fun _ => True) I}.
Context (config : EthWatchServiceConfig).

(** The test seams, where the configuration has them, keep the predicate. *)
Definition seams_keep : Prop :=
  (forall f chain, wc_discv4_fallback_starter config = Some f -> preserves I (f chain)) /\
  (forall f chain enrs, wc_discv5_enr_tree_starter config = Some f -> preserves I (f chain enrs)).

Lemma enqueue_resolved_preserves chain enrs now : forall n, preserves I (enqueue_resolved_enr_tree_peers chain enrs n now).
Proof.
  induction enrs as [|enr enrs IH]; intros n; cbn [enqueue_resolved_enr_tree_peers]; [apply preserves_pure|].
  destruct (negb _); [done|]. destruct (Enr.parse enr) as [r|e|f]; [|done|apply preserves_crash].
  destruct (to_validated_peer r now) as [peer|e|f]; [|done|apply preserves_crash]. destruct (negb _); [done|].
  apply preserves_bind; [|done]. by apply preserves_keeps, validated_keeps.
Qed.

Lemma preload_preserves peers now : preserves I (preload_cached_peers peers now).
Proof.
  unfold preload_cached_peers. apply preserves_bind; [apply preserves_get|intros st]. apply preserves_bind; [apply preserves_lift|].
  intros l. apply preserves_keeps. induction l as [|vp l IH]; [apply keeps_ret|]. apply keeps_bind; [by apply ei_candidate|]. intros accepted.
  apply keeps_bind; [|done]. destruct accepted; [apply ei_bump|apply keeps_ret].
Qed.

Lemma optional_keys_preserves draws : preserves I (optional_keys draws).
Proof. unfold optional_keys. destruct (generate_ephemeral_keypair draws); [apply preserves_pure..|apply preserves_crash]. Qed.

Lemma start_discv5_preserves env chain enrs : seams_keep -> preserves I (start_discv5_discovery config env chain enrs).
Proof.
  intros [_ Hs]. unfold start_discv5_discovery. destruct (negb _); [apply preserves_pure|].
  destruct (wc_discv5_enr_tree_starter config) as [f|] eqn:E; [apply preserves_bind; [by apply Hs|intros; apply preserves_pure]|].
  apply preserves_bind; [apply optional_keys_preserves|]. intros keys. apply preserves_pure.
Qed.

Lemma start_enr_tree_preserves env chain : seams_keep -> preserves I (start_enr_tree_discovery lookup config env chain).
Proof.
  intros Hs. unfold start_enr_tree_discovery. destruct (negb _); [apply preserves_pure|]. apply preserves_bind.
  - destruct (wc_enr_tree_resolver config); [apply preserves_pure|apply preserves_lift].
  - intros enrs. destruct (negb _); [apply preserves_pure|]. apply preserves_bind; [apply enqueue_resolved_preserves|intros _].
    by apply start_discv5_preserves.
Qed.

Lemma start_discv4_preserves env chain : seams_keep -> preserves I (start_discv4_fallback config env chain).
Proof.
  intros [Hs _]. unfold start_discv4_fallback. destruct (wc_discv4_fallback_starter config) as [f|] eqn:E.
  - apply preserves_bind; [by apply Hs|intros; apply preserves_pure].
  - apply preserves_bind; [apply optional_keys_preserves|]. intros keys. destruct (ce_discv4_client env _); try apply preserves_pure.
    apply preserves_bind; [apply preserves_get|]. intros st. apply preserves_pure.
Qed.

Lemma start_sources_preserves env chain : seams_keep -> preserves I (start_sources lookup config env chain).
Proof.
  intros Hs. unfold start_sources. apply preserves_bind; [apply preserves_get|intros st]. apply preserves_bind.
  { destruct (should_start_enr_tree_discovery _ _ _ _); [by apply start_enr_tree_preserves|apply preserves_pure]. }
  intros [tree client]. apply preserves_bind; [apply preserves_get|intros st1]. apply preserves_bind.
  { destruct (_ && _); [by apply start_discv5_preserves|apply preserves_pure]. }
  intros [cache client']. apply preserves_bind; [apply preserves_get|intros st2]. apply preserves_bind.
  { destruct (_ && _); [by apply start_discv4_preserves|apply preserves_pure]. }
  intros d. apply preserves_pure.
Qed.
End start_facts.

(** Whether a chain has a scheduler does not change. *)
Definition has_scheduler (b : bool) (st : QueueState) : Prop := bool_decide (is_Some (st_scheduler st)) = b.

#[global] Instance has_scheduler_invariant b : EnqueueInvariant (fun _ => True) (has_scheduler b).
Proof.
  split.
  - intros c st Hs. by eexists tt, _.
  - intros vp now _ st Hs. destruct st as [q sched p h sp]. unfold enqueue_candidate, get_state, bump, set_backoff, set_seen, with_peer_queue, mbind, M_bind.
    qsimpl. destruct (match backoff_until_ q !! peer_key vp with Some until => now <? until | None => false end); [by eexists _, _|].
    destruct (negb _ && negb false); [by eexists _, _|]. destruct sched as [s|]; [|by eexists _, _].
    destruct (negb (has_slot s p) && _); [destruct (bool_decide _); by eexists _, _|].
    unfold hand_over. qsimpl. destruct (enqueue vp now s p) as [[s' p'] sp']. by eexists _, _.
Qed.

(** ** Which sources are started *)

Section plan_facts.
Context `{EnrPrimitives, Curve} (lookup : text -> list text) (config : EthWatchServiceConfig) (env : ChainEnv) (chain : ChainPeerConfig).

(** A discv5 client has seeds, and the fork id of a chain that requires one. *)
Definition client_for (client : Discv5Start) : Prop :=
  bootstrap_enrs (d5_config client) <> [] /\
  forall fork, cc_fork_id chain = Some fork -> cc_discovery_fork_filter chain = kRequire ->
    required_fork_id (d5_config client) = Some (Enr.mkForkId (fork_hash fork) (next_fork fork)).

Lemma start_discv5_result enrs st started client st' : start_discv5_discovery config env chain enrs st = (success (started, client), st') ->
  forall d, client = Some d -> started = true /\ client_for d.
Proof.
  unfold start_discv5_discovery. destruct enrs as [|enr enrs]; cbn [nonempty negb]; [by intros [= <- <- <-]|].
  destruct (wc_discv5_enr_tree_starter config) as [f|].
  { intros (b & st1 & _ & E)%bind_success_inv. by injection E as <- <- <-. }
  intros (keys & st1 & _ & E)%bind_success_inv. set (c := mkDiscv5Start _ _) in E. destruct (ce_discv5_client env c); try (by injection E as <- <- <-).
  injection E as <- <- <-. intros d [= <-]. split; [done|]. split; [done|]. intros fork Hf Hr. cbn. by rewrite Hf, Hr.
Qed.

Lemma start_enr_tree_result st started client st' : start_enr_tree_discovery lookup config env chain st = (success (started, client), st') ->
  forall d, client = Some d -> started = true /\ client_for d.
Proof.
  unfold start_enr_tree_discovery. destruct (negb _); [by intros [= <- <- <-]|]. intros (enrs & st1 & _ & E)%bind_success_inv.
  destruct (negb _); [by injection E as <- <- <-|]. apply bind_success_inv in E as (n & st2 & _ & E). by eapply start_discv5_result.
Qed.

(** What [start_sources] may have done, given the queue it found. *)
Record plan (q : EthPeerQueue) (tree cache : bool) (client : option Discv5Start) (fallback : bool) (client4 : option discv4Config) : Prop := {
  pl_exclusive : (if tree then 1 else 0) + (if cache then 1 else 0) + (if fallback then 1 else 0) <= 1;
  pl_mode : tree || cache || fallback = true -> mode_starts (wc_discovery_mode config) (counters_ q cached_peer_count =? 0) = true;
  pl_tree : tree = true -> wc_enable_enr_tree_discovery config = true /\ allows_enr_tree_discovery chain = true /\ cc_enr_trees chain <> [];
  pl_cache : cache = true -> wc_enable_enr_tree_discovery config = true /\ allows_cache_enr_discv5_discovery chain = true /\ cc_discv5_bootnodes chain <> [];
  pl_fallback : fallback = true -> wc_enable_discv4_fallback config = true /\ allows_discv4_discovery chain = true;
  pl_client d : client = Some d -> tree || cache = true /\ client_for d;
  pl_client4 c : client4 = Some c -> fallback = true
}.

Lemma should_tree q mode e : should_start_enr_tree_discovery q chain mode e = true ->
  e = true /\ allows_enr_tree_discovery chain = true /\ cc_enr_trees chain <> [] /\ mode_starts mode (counters_ q cached_peer_count =? 0) = true.
Proof. unfold should_start_enr_tree_discovery, configured_enr_tree_urls. destruct e, (allows_enr_tree_discovery chain), (cc_enr_trees chain); cbn; try done. Qed.

Lemma should_cache q mode e : should_start_cache_enr_discovery q chain mode e = true ->
  e = true /\ allows_cache_enr_discv5_discovery chain = true /\ cc_discv5_bootnodes chain <> [] /\ mode_starts mode (counters_ q cached_peer_count =? 0) = true.
Proof. unfold should_start_cache_enr_discovery. destruct e, (allows_cache_enr_discv5_discovery chain), (cc_discv5_bootnodes chain); cbn; try done. Qed.

Lemma should_discv4 q mode e : should_start_discv4_discovery q chain mode e = true ->
  e = true /\ allows_discv4_discovery chain = true /\ discovery_bootnodes q <> [] /\ mode_starts mode (counters_ q cached_peer_count =? 0) = true.
Proof.
  unfold should_start_discv4_discovery. destruct e, (allows_discv4_discovery chain), (discovery_bootnodes q) eqn:Eb; cbn; try done.
  intros Hm. repeat split; try done. destruct mode; try done. cbn in *. by apply andb_prop in Hm as [-> _].
Qed.

Lemma start_sources_plan st tree cache client fallback client4 lookups st' :
  start_sources lookup config env chain st = (success (tree, cache, client, (fallback, client4, lookups)), st') ->
  plan (st_queue st) tree cache client fallback client4.
Proof.
  unfold start_sources. rewrite (bind_success get_state _ _ _ _ eq_refl). set (mode := wc_discovery_mode config).
  intros ([tree' client'] & st1 & E1 & E)%bind_success_inv. rewrite (bind_success get_state _ _ _ _ eq_refl) in E.
  apply bind_success_inv in E as ([cache' client''] & st2 & E2 & E). rewrite (bind_success get_state _ _ _ _ eq_refl) in E.
  apply bind_success_inv in E as ([[fb c4] lk] & st3 & E3 & E). injection E as <- <- <- <- <- <- <-.
  assert (forall d, client' = Some d -> tree' = true /\ client_for d) as Hc1.
  { destruct (should_start_enr_tree_discovery _ _ _ _); [by eapply start_enr_tree_result|by injection E1 as <- <- <-]. }
  assert (tree' = true -> should_start_enr_tree_discovery (st_queue st) chain mode (wc_enable_enr_tree_discovery config) = true) as Ht.
  { destruct (should_start_enr_tree_discovery _ _ _ _); [done|by injection E1 as <- <- <-]. }
  assert (mode_starts mode (counters_ (st_queue st) cached_peer_count =? 0) = true \/ st1 = st) as Hst1.
  { destruct (should_start_enr_tree_discovery _ _ _ _) eqn:Es; [left; by apply should_tree in Es as (_ & _ & _ & ?)|right; by injection E1]. }
  assert (cache' = true -> tree' = false /\ should_start_cache_enr_discovery (st_queue st1) chain mode (wc_enable_enr_tree_discovery config) = true) as Hca.
  { destruct tree'; cbn [negb andb] in E2; [by injection E2 as <- <- <-|]. destruct (should_start_cache_enr_discovery _ _ _ _); [done|by injection E2 as <- <- <-]. }
  assert (forall d, client'' = Some d -> tree' || cache' = true /\ client_for d) as Hc2.
  { destruct (negb tree' && _) in E2.
    - intros d Hd. destruct (start_discv5_result _ _ _ _ _ E2 d Hd) as [-> ?]. by rewrite orb_true_r.
    - injection E2 as <- <- <-. intros d Hd. destruct (Hc1 d Hd) as [-> ?]. done. }
  assert (mode_starts mode (counters_ (st_queue st) cached_peer_count =? 0) = true \/ st2 = st) as Hst2.
  { destruct Hst1 as [?|Hs1]; [by left|]. destruct (negb tree' && _) eqn:Es in E2; [|right; by injection E2 as <- <- <-].
    left. apply andb_prop in Es as [_ (_ & _ & _ & Hm)%should_cache]. by rewrite <- Hs1. }
  assert (fb = true -> tree' = false /\ cache' = false /\ should_start_discv4_discovery (st_queue st2) chain mode (wc_enable_discv4_fallback config) = true) as Hfb.
  { destruct tree', cache'; cbn [negb andb] in E3; try (by injection E3 as <- <- <- <-). destruct (should_start_discv4_discovery _ _ _ _); [done|by injection E3 as <- <- <- <-]. }
  split.
  - destruct tree', cache', fb; try done; (specialize (Hca eq_refl) as [? _] || idtac); (specialize (Hfb eq_refl) as (? & ? & _) || idtac); done.
  - intros [[Ht1|Hc]%orb_prop|Hf]%orb_prop.
    + specialize (Ht Ht1). by apply should_tree in Ht as (_ & _ & _ & ?).
    + specialize (Hca Hc) as [_ (_ & _ & _ & Hm)%should_cache]. destruct Hst1 as [?|<-]; done.
    + specialize (Hfb Hf) as (_ & _ & (_ & _ & _ & Hm)%should_discv4). destruct Hst2 as [?|<-]; done.
  - intros Ht1. specialize (Ht Ht1). by apply should_tree in Ht as (? & ? & ? & _).
  - intros Hc. specialize (Hca Hc) as [_ (? & ? & ? & _)%should_cache]. done.
  - intros Hf. specialize (Hfb Hf) as (_ & _ & (? & ? & _)%should_discv4). done.
  - done.
  - intros c ->. destruct (_ && _) in E3; [|done]. unfold start_discv4_fallback in E3. destruct (wc_discv4_fallback_starter config).
    + apply bind_success_inv in E3 as (b & s4 & _ & E3). done.
    + apply bind_success_inv in E3 as (ks & s4 & _ & E3). set (cl := match ks with Some _ => _ | None => _ end) in E3. destruct (ce_discv4_client env cl); try done.
      rewrite (bind_success get_state _ _ _ _ eq_refl) in E3. by injection E3 as <-.
Qed.
End plan_facts.

(** ** Sequences of operations *)

Inductive orchestration_op :=
  | OpInitialize (config : EthWatchServiceConfig) (callback : bool)
  | OpRun (envs : nat -> ChainEnv)
  | OpStop
  | OpDialEnds (cell : nat) (dial : list EthWatchEventSpec -> bool -> RuntimeStats -> DialResult * RuntimeStats).

Section lifecycle.
Context `{EnrPrimitives, Curve} (lookup : text -> list text).

Definition run_orchestration_op (op : orchestration_op) : M Orchestration Empty_set unit := fun o =>
  match op with
  | OpInitialize config callback => (success tt, (initialize config callback o).2)
  | OpRun envs => run lookup envs o
  | OpStop => (success tt, service_stop o)
  | OpDialEnds cell dial => (success tt, (dial_ends cell dial o).2)
  end.

(** A chain as [run] leaves it. *)
Record chain_runs (config : EthWatchServiceConfig) (store : list RuntimeStats) (c : RuntimeChain) : Prop := {
  cr_scheduler : is_Some (rc_scheduler c) <-> wc_attach_peer_dialer config = true;
  cr_cell : (rc_stats c < length store)%nat;
  cr_client4 : is_Some (rc_discovery_client c) -> rc_discv4_fallback_started c = true
}.

Definition chain_stopped (c : RuntimeChain) : Prop :=
  rc_discovery_client c = None /\ rc_discv5_client c = None /\
  forall s, rc_scheduler c = Some s -> stopping s = true /\ queue s = [].

Record orchestration_ok (o : Orchestration) : Prop := {
  oo_running : orchestration_running_ o = true -> orchestration_initialized_ o = true;
  oo_valid : orchestration_initialized_ o = true ->
    wc_chains (orchestration_config_ o) <> [] /\ Forall (fun c => chain_valid (orchestration_config_ o) c = true) (wc_chains (orchestration_config_ o));
  oo_chains : rc_config <$> runtime_chains_ o = if orchestration_running_ o then wc_chains (orchestration_config_ o) else [];
  oo_each : Forall (chain_runs (orchestration_config_ o) (stats_store o)) (runtime_chains_ o);
  oo_cells : NoDup (rc_stats <$> runtime_chains_ o);
  oo_stopped : Forall chain_stopped (stopped_chains o)
}.

(** The seams use the queue, and leave it its scheduler. *)
Definition seams_ok (config : EthWatchServiceConfig) : Prop := forall b, seams_keep (has_scheduler b) config.

Lemma start_chain_runs config env chain store pool runtime pool' : seams_ok config ->
  start_chain lookup config env chain (length store) pool = success (runtime, pool') ->
  rc_config runtime = chain /\ rc_stats runtime = length store /\ chain_runs config (store ++ [no_runtime_stats]) runtime.
Proof.
  intros Hs. unfold start_chain. set (m := make_eth_peer_queue _ _ _ _). set (st0 := EthPeerQueue_new _ _ _).
  destruct ((m ;; start_sources lookup config env chain) st0) as [[[[[tree cache] client] [[fb c4] lk]]|[]|f] st] eqn:E; [|done].
  intros [= <- <-]. split; [done|]. split; [done|].
  assert (has_scheduler (wc_attach_peer_dialer config) st) as Hsch.
  { revert E. apply preserves_bind; [|intros _; apply start_sources_preserves, Hs; apply _|].
    - apply preserves_bind; [by intros ? ? ? Hi [= <- <-]|intros _]. destruct (should_preload_cached_peers _); [apply preload_preserves; apply _|apply preserves_pure].
    - unfold has_scheduler, st0, make_scheduler. cbn. by destruct (wc_attach_peer_dialer config). }
  apply bind_success_inv in E as ([] & st1 & _ & E). apply start_sources_plan in E. split; cbn.
  - unfold has_scheduler in Hsch. rewrite <- Hsch. symmetry. apply bool_decide_eq_true.
  - rewrite length_app. cbn. lia.
  - intros [c Hc]. by eapply pl_client4.
Qed.

Lemma start_chains_ok config chains : seams_ok config -> forall pool store by_chain started result by_chain' store',
  start_chains lookup config chains pool store by_chain started = success (result, by_chain', store') ->
  Forall (chain_runs config store) started -> NoDup (rc_stats <$> started) ->
  rc_config <$> result = (rc_config <$> started) ++ chains.*1 /\ Forall (chain_runs config store') result /\ NoDup (rc_stats <$> result).
Proof.
  intros Hs. induction chains as [|[chain env] chains IH]; intros pool store by_chain started result by_chain' store' E Hst Hnd; cbn [start_chains] in E.
  { injection E as <- <- <-. by rewrite app_nil_r. }
  unfold mbind, outcome_bind in E. destruct (start_chain lookup config env chain (length store) pool) as [[runtime pool']|[]|f] eqn:Ec; [|done].
  destruct (start_chain_runs _ _ _ _ _ _ _ Hs Ec) as (Hc & Hcell & Hr). apply IH in E as (E1 & E2 & E3).
  - split; [|by split]. rewrite E1, fmap_app. cbn. by rewrite Hc, <- app_assoc.
  - apply Forall_app. split; [|by apply Forall_singleton]. eapply Forall_impl; [exact Hst|]. intros c []. split; try done. rewrite length_app. lia.
  - rewrite fmap_app. apply NoDup_app. split; [done|]. split; [|apply NoDup_singleton]. intros x Hx Hx'. cbn in Hx'. apply list_elem_of_singleton in Hx' as ->.
    apply list_elem_of_fmap in Hx as (c & Ex & Hc'). rewrite Forall_forall in Hst. destruct (Hst c Hc'). rewrite Hcell in Ex. lia.
Qed.

Lemma run_ok envs o : seams_ok (orchestration_config_ o) -> orchestration_ok o -> orchestration_ok (run lookup envs o).2.
Proof.
  intros Hs Ho. unfold run. destruct (negb (orchestration_initialized_ o) || orchestration_running_ o) eqn:Eg; [done|].
  apply orb_false_elim in Eg as [Ei _]. apply negb_false_iff in Ei.
  destruct (start_chains _ _ _ _ _ _ _) as [[[chains by_chain] store]|[]|f] eqn:E; [|done].
  apply start_chains_ok in E as (E1 & E2 & E3); [|done|constructor|constructor]. destruct Ho. split; try done; cbn; [by intros _; apply oo_valid0|].
  rewrite E1. cbn. rewrite fmap_imap. apply list_eq. intros i. rewrite list_lookup_imap. by destruct (wc_chains _ !! i).
Qed.

Lemma stop_chain_stopped c : chain_stopped (stop_chain c).
Proof. split; [done|split; [done|]]. intros s. cbn. destruct (rc_scheduler c); [|done]. by intros [= <-]. Qed.

Lemma service_stop_ok o : orchestration_ok o -> orchestration_ok (service_stop o).
Proof.
  intros []. split; try done; cbn; [constructor|]. apply Forall_app. split; [done|]. apply Forall_fmap, Forall_true. apply stop_chain_stopped.
Qed.

Lemma initialize_ok config callback o : orchestration_ok o -> orchestration_ok (initialize config callback o).2.
Proof.
  intros Ho%service_stop_ok. unfold initialize. destruct Ho. destruct (nonempty (wc_chains config)) eqn:En; cbn [negb]; [|by split].
  destruct (forallb (chain_valid config) (wc_chains config)) eqn:Ev; cbn [negb]; [|by split]. split; try done. intros _. cbn. split.
  - by destruct (wc_chains config).
  - apply Forall_forall. intros c Hc. rewrite forallb_forall in Ev. apply Ev. by apply list_elem_of_In.
Qed.

Lemma dial_ends_ok cell dial o : orchestration_ok o -> orchestration_ok (dial_ends cell dial o).2.
Proof.
  intros []. unfold dial_ends. destruct (dial _ _ _) as [result stats]. split; try done. cbn.
  eapply Forall_impl; [done|]. intros c []. split; try done. by rewrite length_insert.
Qed.

Definition op_seams_ok (op : orchestration_op) : Prop := match op with OpInitialize config _ => seams_ok config | _ => True end.

Lemma initialize_seams config callback o : seams_ok config -> seams_ok (orchestration_config_ (initialize config callback o).2).
Proof. intros Hs. unfold initialize. destruct (negb _); [by split|]. destruct (negb _); [by split|done]. Qed.

Lemma run_keeps_config envs o : orchestration_config_ (run lookup envs o).2 = orchestration_config_ o.
Proof. unfold run. destruct (_ || _); [done|]. by destruct (start_chains _ _ _ _ _ _ _) as [[[? ?] ?]|[]|f]. Qed.

Lemma run_ops_keep ops : Forall op_seams_ok ops -> forall o, seams_ok (orchestration_config_ o) -> orchestration_ok o ->
  orchestration_ok (for_each run_orchestration_op ops o).2.
Proof.
  induction 1 as [|op ops Hop _ IH]; intros o Hs Ho; [done|]. cbn [for_each].
  assert (orchestration_ok (run_orchestration_op op o).2 /\ seams_ok (orchestration_config_ (run_orchestration_op op o).2)) as [Ho' Hs'].
  { destruct op as [config callback|envs| |cell dial]; cbn [run_orchestration_op snd].
    - split; [by apply initialize_ok|by apply initialize_seams].
    - split; [by apply run_ok|by rewrite run_keeps_config].
    - split; [by apply service_stop_ok|done].
    - split; [by apply dial_ends_ok|]. unfold dial_ends. by destruct (dial _ _ _). }
  unfold mbind, M_bind. destruct (run_orchestration_op op o) as [[[]|[]|f] o1]; [by apply IH|done].
Qed.

Lemma new_orchestration_ok : orchestration_ok Orchestration_new.
Proof. split; try done; constructor. Qed.

End lifecycle.

(** ** Claims on the start of a chain *)

(** A chain is started with at most one discovery: the ENR tree, the cached records or discv4, each only if the
    configuration enables it, the chain's default allows it and the chain has a source for it.  In the cache-only mode, and in
    the on-demand mode once a cached peer was accepted, nothing is started.  A discv5 client has seeds and, on a chain that
    requires its fork id, filters by it; a discv4 client exists only behind a started fallback. *)
Theorem discovery_plan `{EnrPrimitives, Curve} lookup config env chain cell pool runtime pool' :
  start_chain lookup config env chain cell pool = success (runtime, pool') ->
  exists st, make_eth_peer_queue (cc_nodes chain) (cc_bootnodes chain) (should_preload_cached_peers (wc_discovery_mode config)) (ce_now env)
      (EthPeerQueue_new (make_scheduler config chain) pool (wc_peer_queue config)) = (success tt, st) /\
    plan config chain (st_queue st) (rc_discv5_enr_tree_started runtime) (rc_discv5_cache_enr_started runtime) (rc_discv5_client runtime)
      (rc_discv4_fallback_started runtime) (rc_discovery_client runtime).
Proof.
  unfold start_chain. set (m := make_eth_peer_queue _ _ _ _). set (st0 := EthPeerQueue_new _ _ _).
  destruct ((m ;; start_sources lookup config env chain) st0) as [[[[[tree cache] client] [[fb c4] lk]]|[]|f] st] eqn:E; [|done]. intros [= <- <-].
  apply bind_success_inv in E as ([] & st1 & E1 & E2). exists st1. split; [done|]. by eapply start_sources_plan.
Qed.

Lemma start_chain_starting `{EnrPrimitives, Curve} lookup config env chain cell pool runtime pool' F :
  F = match make_scheduler config chain with Some s => filter_fn s | None => None end ->
  seams_keep (starting F (cc_bootnodes chain)) config ->
  start_chain lookup config env chain cell pool = success (runtime, pool') ->
  Forall (passes F) (rc_dialing runtime) /\ forall s, rc_scheduler runtime = Some s -> Forall (passes F) (queue s).
Proof.
  intros HF Hs. unfold start_chain. set (m := make_eth_peer_queue _ _ _ _). set (st0 := EthPeerQueue_new _ _ _).
  destruct ((m ;; start_sources lookup config env chain) st0) as [[[[[tree cache] client] [[fb c4] lk]]|[]|f] st] eqn:E; [|done].
  intros [= <- <-]. assert (starting F (cc_bootnodes chain) st) as [_ Hf Hsp].
  { unfold m, make_eth_peer_queue in E. apply bind_success_inv in E as ([] & st1 & E1 & E).
    apply bind_success_inv in E1 as ([] & st2 & E2 & E1). injection E2 as <-.
    eapply start_sources_preserves; [apply _|exact Hs| |exact E]. set (st2 := mkState _ _ _ _ _) in E1.
    assert (starting F (cc_bootnodes chain) st2) as H2.
    { split; [done| |constructor]. unfold st2, st0. cbn. unfold make_scheduler in *. destruct (wc_attach_peer_dialer config); [|done].
      intros s [= <-]. by split; [|constructor]. }
    destruct (should_preload_cached_peers _); [eapply preload_preserves; [apply _|exact H2|exact E1]|by injection E1 as <-]. }
  cbn. split; [done|]. intros s Hsch. by apply Hf.
Qed.

(** On a chain that requires its fork id, every peer that the start of the chain dials or leaves waiting, from the cache or
    from the ENR tree, either announces no fork id or the chain's fork hash. *)
Theorem started_on_fork `{EnrPrimitives, Curve} lookup config env chain cell pool runtime pool' fork :
  cc_fork_id chain = Some fork -> cc_discovery_fork_filter chain = kRequire -> wc_attach_peer_dialer config = true ->
  seams_keep (starting (Some (make_optional_fork_id_filter (fork_hash fork))) (cc_bootnodes chain)) config ->
  start_chain lookup config env chain cell pool = success (runtime, pool') ->
  forall vp f, vp ∈ rc_dialing runtime ++ match rc_scheduler runtime with Some s => queue s | None => [] end ->
    DialScheduler.eth_fork_id (vp_peer vp) = Some f -> fork_hash_4 f = fork_hash fork.
Proof.
  intros Hf Hr Ha Hs E vp f Hin Hfork.
  destruct (start_chain_starting lookup config env chain cell pool runtime pool' (Some (make_optional_fork_id_filter (fork_hash fork)))) as [Hd Hq].
  { unfold make_scheduler. by rewrite Ha, Hf, Hr. }
  { done. }
  { done. }
  assert (passes (Some (make_optional_fork_id_filter (fork_hash fork))) vp) as Hp.
  { apply elem_of_app in Hin as [Hin|Hin]; [by eapply Forall_forall in Hd|]. destruct (rc_scheduler runtime) as [s|]; [|by apply elem_of_nil in Hin].
    specialize (Hq s eq_refl). by eapply Forall_forall in Hq. }
  cbn in Hp. unfold make_optional_fork_id_filter in Hp. rewrite Hfork in Hp. by apply bool_decide_eq_true in Hp.
Qed.

(** A dial outlives the configuration it belongs to.  When a dial is in its Status handshake while the service is
    initialised again, and the peer accepts, the dial registers its runner with the stopped service: no chain runs, but the
    runner of the old chain is active, with the watches and the callback of the new configuration. *)
Theorem late_dial_crosses `{FramePrimitives, Snappy} keccak o config callback chain cell env s r stats :
  let o1 := (initialize config callback o).2 in
  let dial watches callback := shake_hands keccak chain watches callback env s in
  (initialize config callback o).1 = true -> Zlen (wc_watches config) < 2 ^ 32 ->
  dial (wc_watches config) callback (default no_runtime_stats (stats_store o1 !! cell)) = (DialConnected r, stats) ->
  let o2 := (dial_ends cell dial o1).2 in
  orchestration_running_ o2 = false /\ runtime_chain_count o2 = 0 /\ active_runners_ o2 = [r] /\
  rn_chain_name r = to_string (canonical_name chain) /\ watching keccak (wc_watches config) (rn_service r) /\ rn_event_callback r = callback.
Proof.
  intros o1 dial Hi Hl Hd o2.
  assert (wc_watches (orchestration_config_ o1) = wc_watches config /\ orchestration_callback_ o1 = callback /\
    orchestration_running_ o1 = false /\ runtime_chains_ o1 = [] /\ active_runners_ o1 = []) as (E1 & E2 & E3 & E4 & E5).
  { unfold o1, initialize in *. destruct (negb (nonempty _)); [done|]. destruct (negb (forallb _ _)); [done|]. done. }
  unfold o2, dial_ends. rewrite E1, E2, Hd. unfold runtime_chain_count. cbn. rewrite E3, E4, E5. repeat (split; [done|]).
  by eapply shake_hands_connected.
Qed.

(** ** A concrete service *)

Module SampleOrchestration.
Definition fork : ForkId := SampleHandshake.fork.
Definition peer (n : byte) (hash : list byte) : ValidatedPeer :=
  mkValidated (mkPeer (replicate 64 n) "10.0.0.1" 30303 30303 0 (Some (mkPeerForkId hash 0))) (replicate 64 n).
Definition chain : ChainPeerConfig :=
  ChainPeers.mkChain (lit "mainnet") 1 (SampleHandshake.hash 7) [peer x01 (fork_hash fork); peer x02 [x09; x09; x09; x09]; peer x03 (fork_hash fork)]
    [peer x04 (fork_hash fork)] [] [] kAuto kRequire (Some fork) [] [] [].
Definition config : EthWatchServiceConfig :=
  mkServiceConfig (mkConnectionConfig 2 1) default_queue_config [chain] [SampleDialer.spec] kHybrid true true true (wc_discovery default_service_config)
    (mkDiscv5Config [] None) false None None None.
Definition env : ChainEnv := mkChainEnv 100 [Some (replicate 32 x01)] (fun _ => ClientStartFails) (fun _ => ClientStarts).
Definition lookup (name : text) : list text := [].
End SampleOrchestration.
Import SampleOrchestration.
Import ToyCrypto FrameCipher.Toy.

Lemma sample_chain_starts : exists runtime pool,
  start_chain SampleOrchestration.lookup SampleOrchestration.config SampleOrchestration.env SampleOrchestration.chain 0 (mkPool 2 1 0) = success (runtime, pool) /\
  map vp_peer (rc_dialing runtime) = [vp_peer (peer x01 (fork_hash fork))] /\
  option_map (fun s => map vp_peer (queue s)) (rc_scheduler runtime) = Some [vp_peer (peer x03 (fork_hash fork))] /\
  rc_discv4_fallback_started runtime = true.
Proof. eexists _, _. split; [vm_compute; reflexivity|]. split_and!; vm_compute; reflexivity. Qed.

Lemma no_seams I : seams_keep I SampleOrchestration.config.
Proof. by split. Qed.


Lemma discovery_plan_witness : exists runtime pool st,
  start_chain SampleOrchestration.lookup SampleOrchestration.config SampleOrchestration.env SampleOrchestration.chain 0 (mkPool 2 1 0) = success (runtime, pool) /\
  rc_discv4_fallback_started runtime = true /\
  plan SampleOrchestration.config SampleOrchestration.chain (st_queue st) (rc_discv5_enr_tree_started runtime) (rc_discv5_cache_enr_started runtime)
    (rc_discv5_client runtime) (rc_discv4_fallback_started runtime) (rc_discovery_client runtime).
Proof.
  destruct sample_chain_starts as (runtime & pool & E & _ & _ & Hf).
  destruct (discovery_plan _ _ _ _ _ _ _ _ E) as (st & _ & Hp). exists runtime, pool, st. split; [exact E|]. split; [exact Hf|exact Hp].
Defined.

Lemma started_on_fork_witness : exists runtime pool vp f,
  start_chain SampleOrchestration.lookup SampleOrchestration.config SampleOrchestration.env SampleOrchestration.chain 0 (mkPool 2 1 0) = success (runtime, pool) /\
  vp ∈ rc_dialing runtime /\ DialScheduler.eth_fork_id (vp_peer vp) = Some f /\ fork_hash_4 f = fork_hash fork.
Proof.
  destruct sample_chain_starts as (runtime & pool & E & Hd & _ & _). exists runtime, pool.
  destruct (rc_dialing runtime) as [|vp l] eqn:El; [discriminate Hd|]. injection Hd as Hv _.
  exists vp, (mkPeerForkId (fork_hash fork) 0). split; [exact E|]. split; [left|]. split; [by rewrite Hv|].
  apply (started_on_fork SampleOrchestration.lookup SampleOrchestration.config SampleOrchestration.env SampleOrchestration.chain 0 (mkPool 2 1 0) runtime pool
    fork eq_refl eq_refl eq_refl (no_seams _) E vp).
  - rewrite El. left.
  - by rewrite Hv.
Defined.

Lemma late_dial_crosses_witness : exists r,
  active_runners_ (dial_ends 0 (fun watches callback => shake_hands SampleService.keccak SampleDialer.chain watches callback
      (SampleDialer.env [] [[[]; [status_message SampleHandshake.theirs 68 16]]]) SampleDialer.session)
      (initialize SampleOrchestration.config true Orchestration_new).2).2 = [r] /\ rn_chain_name r = "mainnet".
Proof.
  destruct (shake_hands SampleService.keccak SampleDialer.chain (wc_watches SampleOrchestration.config) true
    (SampleDialer.env [] [[[]; [status_message SampleHandshake.theirs 68 16]]]) SampleDialer.session no_runtime_stats) as [[|r|] stats] eqn:E;
    try (apply (f_equal (fun x => is_connected x.1)) in E; vm_compute in E; discriminate E).
  destruct (late_dial_crosses SampleService.keccak Orchestration_new SampleOrchestration.config true SampleDialer.chain 0
    (SampleDialer.env [] [[[]; [status_message SampleHandshake.theirs 68 16]]]) SampleDialer.session r stats) as (_ & _ & Hr & Hn & _).
  - vm_compute. reflexivity.
  - vm_compute. reflexivity.
  - exact E.
  - exists r. split; [exact Hr|]. rewrite Hn. vm_compute. reflexivity.
Defined.
