(* ===== verification/Discv5Packets.v ===== *)
(** * discv5 packets

    The anonymous namespace of [src/discv5/discv5_client.cpp] and the wire
    constants of [include/discv5/discv5_constants.hpp]: the masked packet header,
    the session keys and the identity proof of the handshake, the local node
    record, and the FINDNODE and NODES messages.

    OpenSSL and libsecp256k1 are parameters: the curve shares the keys of
    [EnrPrimitives], so that a record and a handshake speak of the same library;
    [Discv5Primitives] adds what only this file calls.  [evp_ok] says which
    OpenSSL calls succeed.  A read through a pointer or an iterator that the code
    does not guard itself is [byte_at] or [bytes_at], which fault past the end. *)

From stdpp Require Import pretty.
From S2P Require Import Prelude RlpSpec RlpCommon RlpEncoder RlpDecoder DecodeLogic ParseUtility Base64Url FrameCipher RlpxCrypto Enr.

Definition kPrivateKeyBytes : Z := 32.
Definition kUncompressedKeyBytes : Z := 65.
Definition kKeccak256Bytes : Z := 32.
Definition kProtocolIdBytes : Z := 6.
Definition kProtocolId : list byte := lit "discv5".
Definition kGcmNonceBytes : Z := 12.
Definition kMaskingIvBytes : Z := 16.
Definition kWhoareyouIdNonceBytes : Z := 16.
Definition kMinPacketBytes : Z := 63.
Definition kMaxPacketBytes : Z := 1280.
Definition kAes128KeyBytes : Z := 16.
Definition kGcmTagBytes : Z := 16.
Definition kRandomMessageCiphertextBytes : Z := 20.
Definition kFindNodeDistanceAll : Z := 256.
Definition kHkdfFirstBlockCounter : byte := x01.
Definition kMessageTypePrefixBytes : Z := 1.
Definition kNodesResponseCountSingle : Z := 1.
Definition kInitialEnrSeq : Z := 1.
Definition kIdentitySchemeV4 : list byte := lit "v4".
Definition kEnrKeyId : list byte := lit "id".
Definition kEnrKeyIp : list byte := lit "ip".
Definition kEnrKeySecp256k1 : list byte := lit "secp256k1".
Definition kEnrKeyTcp : list byte := lit "tcp".
Definition kEnrKeyUdp : list byte := lit "udp".

(** The packed [StaticHeaderWire]: protocol id, version, flag, nonce, size of the
    authentication data. *)
Definition kStaticHeaderVersionOffset : Z := kProtocolIdBytes.
Definition kStaticHeaderFlagOffset : Z := kStaticHeaderVersionOffset + 2.
Definition kStaticHeaderNonceOffset : Z := kStaticHeaderFlagOffset + 1.
Definition kStaticHeaderAuthSizeOffset : Z := kStaticHeaderNonceOffset + kGcmNonceBytes.
Definition kStaticHeaderBytes : Z := kStaticHeaderAuthSizeOffset + 2.
Definition kStaticPacketBytes : Z := kMaskingIvBytes + kStaticHeaderBytes.
Definition kWhoareyouAuthDataBytes : Z := kWhoareyouIdNonceBytes + 8.
Definition kHandshakeAuthSizeFieldBytes : Z := 1.
Definition kHandshakeAuthSizeFieldCount : Z := 2.
Definition kHandshakeAuthSigSizeOffset : Z := kKeccak256Bytes.
Definition kHandshakeAuthPubkeySizeOffset : Z := kHandshakeAuthSigSizeOffset + kHandshakeAuthSizeFieldBytes.
Definition kHandshakeAuthFixedBytes : Z := kKeccak256Bytes + kHandshakeAuthSizeFieldCount * kHandshakeAuthSizeFieldBytes.
Definition kMessageAuthDataBytes : Z := kKeccak256Bytes.

Definition kFlagMessage : Z := 0.
Definition kFlagWhoareyou : Z := 1.
Definition kFlagHandshake : Z := 2.
Definition kMsgFindNode : byte := x03.
Definition kMsgNodes : byte := x04.
Definition kProtocolVersion : Z := 1.

(** [asio::ip::address]. *)
Inductive ip_address := AddressV4 (bytes : list byte) | AddressV6 (bytes : list byte).

#[global] Instance ip_address_eq_dec : EqDecision ip_address.
Proof. solve_decision. Defined.

(** The OpenSSL calls that can fail. *)
Inductive evp_call := EvpNew | EvpInit | EvpAad | EvpUpdate | EvpFinal | EvpTag.

Class Discv5Primitives `{EnrPrimitives} := {
  seckey_verify : list byte -> bool;
  pubkey_create : list byte -> option secp_pubkey;
  pubkey_tweak_mul : secp_pubkey -> list byte -> option secp_pubkey;
  pubkey_serialize_compressed : secp_pubkey -> list byte;
  sign_recoverable : list byte -> list byte -> option (list byte * Z);
  evp_ok : evp_call -> bool;
  (** AES-128-GCM: key, nonce, associated data, text; the tag follows the text. *)
  gcm_encrypt : list byte -> list byte -> list byte -> list byte -> list byte;
  gcm_decrypt : list byte -> list byte -> list byte -> list byte -> option (list byte);
  make_address : text -> option ip_address
}.

(** The same library, as [rlpx::crypto::Ecdh] calls it. *)
#[global] Instance discv5_curve `{Discv5Primitives} : Curve := {|
  point := secp_pubkey;
  RlpxCrypto.ec_seckey_verify := seckey_verify;
  RlpxCrypto.ec_pubkey_create := pubkey_create;
  RlpxCrypto.ec_pubkey_parse := Enr.ec_pubkey_parse;
  RlpxCrypto.ec_pubkey_serialize := Enr.ec_pubkey_serialize;
  RlpxCrypto.ec_pubkey_tweak_mul := pubkey_tweak_mul;
  RlpxCrypto.ecdsa_sign_recoverable := sign_recoverable
|}.

(** ** Bytes *)

(** [n] bytes at an offset of a buffer. *)
Definition bytes_at (l : list byte) (off n : Z) : outcome discv5Error (list byte) :=
  if Zlen l <? off + n then crash OutOfBounds else success (take (Z.to_nat n) (drop (Z.to_nat off) l)).

Definition read_u16_be (data : list byte) : outcome discv5Error Z :=
  b0 ← byte_at data 0;
  b1 ← byte_at data 1;
  success (u16 (Z.lor (Z.shiftl (u8 b0) 8) (u8 b1))).

Definition read_u64_be (data : list byte) : outcome discv5Error Z :=
  bytes ← bytes_at data 0 8;
  success (foldl (fun value b => u64 (Z.lor (Z.shiftl value 8) (u8 b))) 0 bytes).

Definition append_u16_be (out : list byte) (value : Z) : list byte :=
  out ++ [byte_of (Z.land (Z.shiftr value 8) 0xFF); byte_of (Z.land value 0xFF)].

Definition append_u64_be (out : list byte) (value : Z) : list byte :=
  foldl (fun out shift => out ++ [byte_of (Z.land (Z.shiftr value shift) 0xFF)]) out [56; 48; 40; 32; 24; 16; 8; 0].

(** [udp::endpoint]. *)
Record endpoint := mkEndpoint { ep_address : ip_address; ep_port : Z }.

Record PacketView := mkPacketView {
  flag : Z;
  nonce : list byte;
  auth_size : Z;
  header_data : list byte;
  auth_data : list byte;
  msg_data : list byte
}.

Record HandshakeAuthView := mkHandshakeAuthView {
  src_id : list byte;
  signature : list byte;
  pubkey : list byte;
  record : list byte
}.

(** ** Hashes and keys *)

Section crypto.
Context `{Discv5Primitives} `{Hashes}.

Definition derive_node_address (public_key : list byte) : list byte := keccak256 public_key.

(** [address().to_string()]. *)
Definition address_to_string (a : ip_address) : text :=
  match a with AddressV4 b => address_v4_to_string b | AddressV6 b => address_v6_to_string b end.

(** [endpoint_key(ip, port)] and [endpoint_key(endpoint)]. *)
Definition endpoint_key (ip : text) (port : Z) : text := ip ++ lit ":" ++ lit (pretty port).
Definition endpoint_key_of (e : endpoint) : text := endpoint_key (address_to_string (ep_address e)) (ep_port e).

Definition sha256_bytes (data : list byte) : list byte := sha256 data.
Definition hmac_sha256 (key data : list byte) : list byte := HMAC key data.

Definition hkdf_expand_32 (salt ikm info : list byte) : outcome discv5Error (list byte) :=
  let prk := hmac_sha256 salt ikm in
  let t1_input := info ++ [kHkdfFirstBlockCounter] in
  success (hmac_sha256 prk t1_input).

Definition compress_public_key (public_key : list byte) : outcome discv5Error (list byte) :=
  if negb context_created then failure kContextCreationFailed else
  match Enr.ec_pubkey_parse (kUncompressedPubKeyPrefix :: public_key) with
  | None => failure kEnrInvalidSecp256k1Key
  | Some pubkey => success (pubkey_serialize_compressed pubkey)
  end.

(** What both functions do with the parsed key. *)
Definition shared_secret_of (remote_pubkey private_key : list byte) : outcome discv5Error (list byte) :=
  match Enr.ec_pubkey_parse remote_pubkey with
  | None => failure kEnrInvalidSecp256k1Key
  | Some pubkey =>
      match pubkey_tweak_mul pubkey private_key with
      | None => failure kContextCreationFailed
      | Some shared => success (pubkey_serialize_compressed shared)
      end
  end.

Definition shared_secret_from_uncompressed_pubkey (remote_node_id private_key : list byte) : outcome discv5Error (list byte) :=
  if negb context_created then failure kContextCreationFailed
  else shared_secret_of (kUncompressedPubKeyPrefix :: remote_node_id) private_key.

Definition shared_secret_from_compressed_pubkey (remote_pubkey private_key : list byte) : outcome discv5Error (list byte) :=
  if negb (Zlen remote_pubkey =? kCompressedKeyBytes) then failure kEnrInvalidSecp256k1Key
  else if negb context_created then failure kContextCreationFailed
  else shared_secret_of remote_pubkey private_key.

(** What the identity proof signs. *)
Definition id_proof_digest (challenge_data eph_pubkey destination_node_addr : list byte) : list byte :=
  sha256_bytes (lit "discovery v5 identity proof" ++ challenge_data ++ eph_pubkey ++ destination_node_addr).

Definition make_id_signature (private_key challenge_data eph_pubkey destination_node_addr : list byte) : outcome discv5Error (list byte) :=
  let digest := id_proof_digest challenge_data eph_pubkey destination_node_addr in
  if negb context_created then failure kContextCreationFailed else
  match sign_recoverable digest private_key with
  | None => failure kContextCreationFailed
  | Some (compact, _) => success compact
  end.

Definition verify_id_signature (node_id signature challenge_data eph_pubkey destination_node_addr : list byte) : bool :=
  if negb (Zlen signature =? kEnrSigBytes) then false else
  let digest := id_proof_digest challenge_data eph_pubkey destination_node_addr in
  if negb context_created then false else
  match Enr.ec_pubkey_parse (kUncompressedPubKeyPrefix :: node_id) with
  | None => false
  | Some pubkey =>
      match signature_parse_compact signature with
      | None => false
      | Some sig => ecdsa_verify sig digest pubkey
      end
  end.

(** The write and the read key of the initiator. *)
Definition derive_session_keys (shared_secret challenge_data first_id second_id : list byte) :
    outcome discv5Error (list byte * list byte) :=
  let info := lit "discovery v5 key agreement" ++ first_id ++ second_id in
  okm ← hkdf_expand_32 challenge_data shared_secret info;
  write_key ← bytes_at okm 0 kAes128KeyBytes;
  read_key ← bytes_at okm kAes128KeyBytes kAes128KeyBytes;
  success (write_key, read_key).
End crypto.

(** ** Ciphers *)

(** The counter-mode keystream from an offset on. *)
Definition ctr_stream `{CtrCiphers} (key iv : list byte) (off : nat) (data : list byte) : list byte :=
  imap (fun i b => xor_byte b (aes_128_keystream key iv (off + i))) data.

Section packets.
Context `{Discv5Primitives} `{Hashes} `{CtrCiphers}.

(** [apply_aes128_ctr]: the output, or [false] when a call fails. *)
Definition apply_aes128_ctr (key iv input : list byte) : option (list byte) :=
  if evp_ok EvpNew && evp_ok EvpInit && evp_ok EvpUpdate then Some (ctr_stream key iv 0 input) else None.

Definition encrypt_gcm (key nonce plaintext auth_data : list byte) : outcome discv5Error (list byte) :=
  if negb (evp_ok EvpNew) then failure kContextCreationFailed
  else if negb (evp_ok EvpInit) then failure kContextCreationFailed
  else if negb (bool_decide (auth_data = [])) && negb (evp_ok EvpAad) then failure kContextCreationFailed
  else if negb (bool_decide (plaintext = [])) && negb (evp_ok EvpUpdate) then failure kContextCreationFailed
  else if negb (evp_ok EvpFinal) then failure kContextCreationFailed
  else if negb (evp_ok EvpTag) then failure kContextCreationFailed
  else success (gcm_encrypt key nonce auth_data plaintext).

Definition decrypt_gcm (key nonce ciphertext auth_data : list byte) : outcome discv5Error (list byte) :=
  if Zlen ciphertext <? kGcmTagBytes then failure kNetworkReceiveFailed
  else if negb (evp_ok EvpNew) then failure kContextCreationFailed
  else if negb (evp_ok EvpInit) then failure kContextCreationFailed
  else if negb (bool_decide (auth_data = [])) && negb (evp_ok EvpAad) then failure kContextCreationFailed
  else if (0 <? Zlen ciphertext - kGcmTagBytes) && negb (evp_ok EvpUpdate) then failure kNetworkReceiveFailed
  else if negb (evp_ok EvpTag) then failure kNetworkReceiveFailed
  else match gcm_decrypt key nonce auth_data ciphertext with
       | None => failure kNetworkReceiveFailed
       | Some plaintext => success plaintext
       end.

(** ** The packet *)

Definition decode_packet (data : list byte) (destination_node_addr : list byte) : outcome discv5Error PacketView :=
  let length := Zlen data in
  if length <? kStaticPacketBytes then failure kNetworkReceiveFailed else
  iv ← bytes_at data 0 kMaskingIvBytes;
  key ← bytes_at destination_node_addr 0 kMaskingIvBytes;
  if negb (evp_ok EvpNew) then failure kContextCreationFailed else
  if negb (evp_ok EvpInit) then failure kContextCreationFailed else
  masked ← bytes_at data kMaskingIvBytes kStaticHeaderBytes;
  if negb (evp_ok EvpUpdate) then failure kNetworkReceiveFailed else
  let static_header := ctr_stream key iv 0 masked in
  protocol_id ← bytes_at static_header 0 kProtocolIdBytes;
  if negb (bool_decide (protocol_id = kProtocolId)) then failure kNetworkReceiveFailed else
  version ← read_u16_be (drop (Z.to_nat kProtocolIdBytes) static_header);
  if version <? kProtocolVersion then failure kNetworkReceiveFailed else
  flag ← byte_at static_header kStaticHeaderFlagOffset;
  nonce ← bytes_at static_header kStaticHeaderNonceOffset kGcmNonceBytes;
  auth_size ← read_u16_be (drop (Z.to_nat kStaticHeaderAuthSizeOffset) static_header);
  let auth_end := kStaticPacketBytes + auth_size in
  if length <? auth_end then failure kNetworkReceiveFailed else
  masked_auth ← bytes_at data kStaticPacketBytes auth_size;
  if (0 <? auth_size) && negb (evp_ok EvpUpdate) then failure kNetworkReceiveFailed else
  let auth_data := ctr_stream key iv (Z.to_nat kStaticHeaderBytes) masked_auth in
  msg_data ← bytes_at data auth_end (length - auth_end);
  success (mkPacketView (u8 flag) nonce auth_size (iv ++ static_header ++ auth_data) auth_data msg_data).

(** [encode_packet] with what [random_bytes] drew for the masking IV; it returns the
    packet and what it stores through [unmasked_header_out]. *)
Definition encode_packet (drawn_iv : option (list byte)) (flag : Z) (nonce auth_data msg_data destination_node_addr : list byte) :
    outcome discv5Error (list byte * list byte) :=
  match drawn_iv with
  | None => failure kNetworkSendFailed
  | Some iv =>
      let header := append_u16_be kProtocolId kProtocolVersion ++ [byte_of flag] ++ nonce in
      let header := append_u16_be header (u16 (Zlen auth_data)) ++ auth_data in
      key ← bytes_at destination_node_addr 0 kAes128KeyBytes;
      match apply_aes128_ctr key iv header with
      | None => failure kNetworkSendFailed
      | Some masked => success (iv ++ masked ++ msg_data, iv ++ header)
      end
  end.

Definition make_message_auth_data (local_node_addr : list byte) : list byte := local_node_addr.

(** ** Records and messages *)

Definition encoded (m : Enc unit) (e : discv5Error) : outcome discv5Error (list byte) := or_error (finish_encoder m) e.

(** The pairs the record carries, after the sequence number. *)
Definition add_local_pairs (ip_bytes compressed : list byte) (tcp_port udp_port : Z) : Enc unit :=
  add_integral 8 kInitialEnrSeq ;;
  add_bytes kEnrKeyId ;; add_bytes kIdentitySchemeV4 ;;
  add_bytes kEnrKeyIp ;; add_bytes ip_bytes ;;
  add_bytes kEnrKeySecp256k1 ;; add_bytes compressed ;;
  add_bytes kEnrKeyTcp ;; add_integral 2 tcp_port ;;
  add_bytes kEnrKeyUdp ;; add_integral 2 udp_port.

(** [make_local_enr_record]; the fields of the configuration it reads are arguments. *)
Definition make_local_enr_record (public_key private_key : list byte) (bind_ip : text) (config_tcp_port udp_port : Z) :
    outcome discv5Error (list byte) :=
  compressed ← compress_public_key public_key;
  match make_address bind_ip with
  | None => failure kEnrInvalidIp
  | Some bind_addr =>
      let ip_bytes := match bind_addr with AddressV4 bytes => bytes | AddressV6 _ => zero_array kIPv4Bytes end in
      let tcp_port := if negb (config_tcp_port =? 0) then config_tcp_port else udp_port in
      content_bytes ← encoded (BeginList ;; add_local_pairs ip_bytes compressed tcp_port udp_port ;; EndList) kEnrRlpDecodeFailed;
      let content_hash := keccak256 content_bytes in
      if negb context_created then failure kContextCreationFailed else
      match sign_recoverable content_hash private_key with
      | None => failure kContextCreationFailed
      | Some (compact_sig, _) =>
          encoded (BeginList ;; (add_bytes compact_sig ;; add_local_pairs ip_bytes compressed tcp_port udp_port) ;; EndList)
            kEnrRlpDecodeFailed
      end
  end.

Definition make_findnode_plaintext (req_id : list byte) : outcome discv5Error (list byte) :=
  bytes ← encoded
    (BeginList ;; (add_bytes req_id ;; (BeginList ;; add_integral 4 kFindNodeDistanceAll ;; EndList)) ;; EndList)
    kNetworkSendFailed;
  success (kMsgFindNode :: bytes).

Definition make_nodes_plaintext (req_id enr_record : list byte) : outcome discv5Error (list byte) :=
  bytes ← encoded
    (BeginList ;;
     (add_bytes req_id ;; add_integral 1 kNodesResponseCountSingle ;; (BeginList ;; AddRaw enr_record ;; EndList)) ;;
     EndList)
    kNetworkSendFailed;
  success (kMsgNodes :: bytes).

Definition parse_findnode_req_id (body : list byte) : outcome discv5Error (list byte) :=
  run_decoder (or_fail ReadListHeaderBytes kNetworkReceiveFailed ;; or_fail read_bytes kNetworkReceiveFailed) body.

(** [decode_rlp], [verify_signature] and [to_validated_peer] on one record: [None] is
    [continue]. *)
Definition record_peer (raw_record : list byte) (now : Z) : outcome discv5Error (option ValidatedPeer) :=
  match decode_rlp raw_record with
  | crash f => crash f
  | failure _ => success None
  | success r =>
      match verify_signature r with
      | crash f => crash f
      | failure _ => success None
      | success r =>
          match to_validated_peer r now with
          | crash f => crash f
          | failure _ => success None
          | success peer => success (Some peer)
          end
      end
  end.

(** The loop over the records; every pass reads a byte at least. *)
Fixpoint nodes_loop (fuel : nat) (nodes_len nodes_start : Z) (now : Z) (peers : list ValidatedPeer) :
    M ByteView discv5Error (list ValidatedPeer) :=
  match fuel with
  | O => crash_with Diverge
  | S fuel' =>
      finished ← IsFinished (Er := discv5Error);
      if finished : bool then mret peers else
      remaining ← view (Er := discv5Error);
      let consumed := nodes_start - Zlen remaining in
      if nodes_len <=? consumed then mret peers else
      header ← attempt (E' := discv5Error) PeekHeader;
      match header with
      | None => mret peers
      | Some h =>
          let raw_len := u64 (header_size_bytes h + payload_size_bytes h) in
          raw_record ← lift (substr remaining 0 raw_len);
          skipped ← attempt (E' := discv5Error) SkipItem;
          match skipped with
          | None => mret peers
          | Some _ =>
              peer ← lift (record_peer raw_record now);
              nodes_loop fuel' nodes_len nodes_start now (match peer with Some p => peers ++ [p] | None => peers end)
          end
      end
  end.

Definition parse_nodes_body (now : Z) : M ByteView discv5Error (list byte * list ValidatedPeer) :=
  or_fail ReadListHeaderBytes kNetworkReceiveFailed ;;
  req_id ← or_fail read_bytes kNetworkReceiveFailed;
  or_fail (read_integral 1) kNetworkReceiveFailed ;;
  nodes_len ← or_fail ReadListHeaderBytes kNetworkReceiveFailed;
  nodes_start ← view (Er := discv5Error);
  peers ← nodes_loop (S (length nodes_start)) nodes_len (Zlen nodes_start) now [];
  mret (req_id, peers).

Definition parse_nodes_message (body : list byte) (now : Z) : outcome discv5Error (list byte * list ValidatedPeer) :=
  run_decoder (parse_nodes_body now) body.

Definition parse_handshake_auth (auth_data : list byte) : outcome discv5Error HandshakeAuthView :=
  if Zlen auth_data <? kHandshakeAuthFixedBytes then failure kNetworkReceiveFailed else
  src_id ← bytes_at auth_data 0 kKeccak256Bytes;
  sig_size ← byte_at auth_data kHandshakeAuthSigSizeOffset;
  pubkey_size ← byte_at auth_data kHandshakeAuthPubkeySizeOffset;
  let key_offset := kHandshakeAuthFixedBytes in
  let pubkey_offset := key_offset + u8 sig_size in
  let record_offset := pubkey_offset + u8 pubkey_size in
  if Zlen auth_data <? record_offset then failure kNetworkReceiveFailed else
  signature ← bytes_at auth_data key_offset (pubkey_offset - key_offset);
  pubkey ← bytes_at auth_data pubkey_offset (record_offset - pubkey_offset);
  record ← bytes_at auth_data record_offset (Zlen auth_data - record_offset);
  success (mkHandshakeAuthView src_id signature pubkey record).
End packets.

(** ** Laws of the libraries *)

Class Discv5Laws `{Discv5Primitives} : Prop := {
  discv5_curve_laws :: CurveLaws;
  length_keccak256 m : length (keccak256 m) = 32%nat;
  (** The compressed form: 0x02 or 0x03 and one coordinate. *)
  compressed_form p : exists pre x, pubkey_serialize_compressed p = pre :: x /\ pre <> x00 /\ length x = 32%nat;
  parse_compressed p : Enr.ec_pubkey_parse (pubkey_serialize_compressed p) = Some p;
  (** A signature by a key verifies under its public key. *)
  sign_verifies m k p sig recid :
    seckey_verify k = true -> pubkey_create k = Some p -> sign_recoverable m k = Some (sig, recid) ->
    exists s, signature_parse_compact sig = Some s /\ ecdsa_verify s m p = true;
  gcm_inverse key nonce aad text : gcm_decrypt key nonce aad (gcm_encrypt key nonce aad text) = Some text;
  length_gcm_encrypt key nonce aad text : Zlen (gcm_encrypt key nonce aad text) = Zlen text + kGcmTagBytes;
  length_gcm_decrypt key nonce aad text plain :
    gcm_decrypt key nonce aad text = Some plain -> Zlen text = Zlen plain + kGcmTagBytes;
  make_address_v4 b : length b = 4%nat -> make_address (address_v4_to_string b) = Some (AddressV4 b);
  address_v4_text b : address_v4_to_string b <> []
}.

(** No call into the libraries fails for lack of resources. *)
Definition library_ready `{Discv5Primitives} : Prop := context_created = true /\ forall call, evp_ok call = true.

(** ** Bytes *)

Lemma bytes_at_mid l a b c off n :
  l = a ++ b ++ c -> off = Zlen a -> n = Zlen b -> bytes_at l off n = success b.
Proof.
  intros -> -> ->. unfold bytes_at. rewrite (proj2 (Z.ltb_ge _ _)) by (rewrite !length_app; lia).
  by rewrite drop_app_Zlen, take_app_Zlen.
Qed.

Lemma bytes_at_ok l off n : 0 <= off -> 0 <= n -> off + n <= Zlen l ->
  bytes_at l off n = success (take (Z.to_nat n) (drop (Z.to_nat off) l)).
Proof. intros. unfold bytes_at. by rewrite (proj2 (Z.ltb_ge _ _)) by lia. Qed.

Lemma length_slice (l : list byte) off n : 0 <= off -> 0 <= n -> off + n <= Zlen l ->
  Zlen (take (Z.to_nat n) (drop (Z.to_nat off) l)) = n.
Proof. intros. rewrite length_take, length_drop. lia. Qed.

Lemma byte_at_ok (l : list byte) i : 0 <= i < Zlen l -> exists b, byte_at (Er := discv5Error) l i = success b.
Proof.
  intros Hi. destruct (lookup_lt_is_Some_2 l (Z.to_nat i)) as [b Hb]; [lia|]. exists b. unfold byte_at. by rewrite Hb.
Qed.

Lemma read_u16_ok l : 2 <= Zlen l -> exists v, read_u16_be l = success v /\ in_width 16 v.
Proof.
  intros Hl. unfold read_u16_be. destruct (byte_at_ok l 0 ltac:(lia)) as [b0 ->], (byte_at_ok l 1 ltac:(lia)) as [b1 ->].
  eexists. split; [done|]. unfold in_width, u16. by apply Z.mod_pos_bound.
Qed.

Lemma land_byte v : byte_of (Z.land v 0xFF) = byte_of v.
Proof. apply u8_inj. rewrite !u8_byte_of. change 0xFF with (Z.ones 8). rewrite Z.land_ones by lia. by rewrite Z.mod_mod. Qed.

Lemma read_u16_append v rest : in_width 16 v -> read_u16_be (append_u16_be [] v ++ rest) = success v.
Proof.
  intros Hv. unfold in_width in Hv.
  change (success (E := discv5Error) (u16 (Z.lor (Z.shiftl (u8 (byte_of (Z.land (Z.shiftr v 8) 0xFF))) 8) (u8 (byte_of (Z.land v 0xFF))))) = success v).
  rewrite !land_byte. f_equal. rewrite !u8_byte_of, Z.shiftr_div_pow2, Z.shiftl_mul_pow2 by lia.
  rewrite lor_add by (try apply Z.mod_pos_bound; lia). change (2 ^ 8) with 256.
  rewrite (Z.mod_small (v / 256)) by (split; [apply Z.div_pos|apply Z.div_lt_upper_bound]; lia).
  pose proof (Z.div_mod v 256). apply u16_small in Hv as E. rewrite <- E at 3. f_equal. lia.
Qed.

(** ** The keystream *)

Section ctr.
Context `{CtrCiphers} (key iv : list byte).

Lemma length_ctr_stream off data : length (ctr_stream key iv off data) = length data.
Proof. apply length_imap. Qed.

Lemma ctr_stream_app off a b : ctr_stream key iv off (a ++ b) = ctr_stream key iv off a ++ ctr_stream key iv (off + length a) b.
Proof.
  unfold ctr_stream. rewrite imap_app. f_equal. apply imap_ext. intros i x _. cbn. by rewrite Nat.add_assoc.
Qed.

Lemma ctr_stream_twice off data : ctr_stream key iv off (ctr_stream key iv off data) = data.
Proof.
  unfold ctr_stream. apply list_eq. intros i. rewrite !list_lookup_imap. destruct (data !! i); [|done]. cbn.
  by rewrite xor_byte_twice.
Qed.
End ctr.

(** ** Packets *)

(** The static header on the wire, before it is masked. *)
Definition static_header (flag : Z) (nonce : list byte) (auth_len : Z) : list byte :=
  kProtocolId ++ append_u16_be [] kProtocolVersion ++ [byte_of flag] ++ nonce ++ append_u16_be [] auth_len.

Lemma length_static_header flag nonce n : Zlen nonce = kGcmNonceBytes -> Zlen (static_header flag nonce n) = kStaticHeaderBytes.
Proof. intros Hn. unfold static_header. rewrite !length_app. cbn. unfold kGcmNonceBytes in Hn. change kStaticHeaderBytes with 23. lia. Qed.

Section packet_proofs.
Context `{Discv5Primitives} `{Hashes} `{CtrCiphers}.

(** A packet: IV, masked header and authentication data, message. *)
Definition packet_wire (iv : list byte) (flag : Z) (nonce auth msg dest : list byte) : list byte :=
  iv ++ ctr_stream (take 16 dest) iv 0 (static_header flag nonce (Zlen auth) ++ auth) ++ msg.

Lemma encode_packet_eq iv flag nonce auth msg dest :
  library_ready -> kMaskingIvBytes <= Zlen dest -> in_width 16 (Zlen auth) ->
  encode_packet (Some iv) flag nonce auth msg dest =
    success (packet_wire iv flag nonce auth msg dest, iv ++ static_header flag nonce (Zlen auth) ++ auth).
Proof.
  intros [_ Hevp] Hd Ha. unfold encode_packet. unfold kMaskingIvBytes in Hd.
  rewrite (bytes_at_ok dest 0) by (unfold kAes128KeyBytes; lia). change (drop (Z.to_nat 0) dest) with dest.
  cbn [mbind outcome_bind]. unfold apply_aes128_ctr. rewrite !Hevp. cbn [andb].
  unfold in_width in Ha. rewrite u16_small by done.
  change (append_u16_be (?x ++ [byte_of flag] ++ nonce) (Zlen auth)) with ((x ++ [byte_of flag] ++ nonce) ++ append_u16_be [] (Zlen auth)).
  change (append_u16_be kProtocolId kProtocolVersion) with (kProtocolId ++ append_u16_be [] kProtocolVersion).
  unfold packet_wire, static_header. by rewrite <- !app_assoc.
Qed.

Lemma decode_packet_wire iv flag nonce auth msg dest :
  library_ready -> kMaskingIvBytes <= Zlen dest -> Zlen iv = kMaskingIvBytes -> Zlen nonce = kGcmNonceBytes ->
  in_width 8 flag -> in_width 16 (Zlen auth) ->
  decode_packet (packet_wire iv flag nonce auth msg dest) dest =
    success (mkPacketView flag nonce (Zlen auth) (iv ++ static_header flag nonce (Zlen auth) ++ auth) auth msg).
Proof.
  intros [_ Hevp] Hd Hiv Hn Hf Ha. set (sh := static_header flag nonce (Zlen auth)).
  assert (Zlen sh = kStaticHeaderBytes) as Hsh by by apply length_static_header.
  unfold packet_wire. fold sh. set (key := take 16 dest).
  rewrite ctr_stream_app. set (m1 := ctr_stream key iv 0 sh). change (0 + length sh)%nat with (length sh).
  set (m2 := ctr_stream key iv (length sh) auth).
  assert (length m1 = length sh /\ length m2 = length auth) as [L1 L2] by (unfold m1, m2; by rewrite !length_ctr_stream).
  assert (length sh = Z.to_nat kStaticHeaderBytes) as Lsh by lia.
  unfold decode_packet. rewrite <- !app_assoc. set (data := iv ++ m1 ++ m2 ++ msg).
  assert (Zlen data = kStaticPacketBytes + Zlen auth + Zlen msg) as Hdata.
  { unfold data, kStaticPacketBytes. rewrite !length_app. lia. }
  rewrite (proj2 (Z.ltb_ge _ _)) by lia.
  rewrite (bytes_at_mid data [] iv (m1 ++ m2 ++ msg) 0 kMaskingIvBytes) by (done || lia). cbn [mbind outcome_bind].
  rewrite (bytes_at_ok dest 0) by (unfold kMaskingIvBytes in *; lia). change (take _ (drop (Z.to_nat 0) dest)) with key.
  cbn [mbind outcome_bind]. rewrite !Hevp. cbn [negb].
  rewrite (bytes_at_mid data iv m1 (m2 ++ msg) kMaskingIvBytes kStaticHeaderBytes) by (done || lia). cbn [mbind outcome_bind].
  replace (ctr_stream key iv 0 m1) with sh by (unfold m1; by rewrite ctr_stream_twice).
  rewrite (bytes_at_mid sh [] kProtocolId (drop 6 sh) 0 kProtocolIdBytes) by done. cbn [mbind outcome_bind].
  rewrite bool_decide_eq_true_2 by done. cbn [negb].
  change (drop (Z.to_nat kProtocolIdBytes) sh) with (append_u16_be [] kProtocolVersion ++ [byte_of flag] ++ nonce ++ append_u16_be [] (Zlen auth)).
  rewrite read_u16_append by done. cbn [mbind outcome_bind]. rewrite Z.ltb_irrefl.
  change (byte_at sh kStaticHeaderFlagOffset) with (success (E := discv5Error) (byte_of flag)). cbn [mbind outcome_bind].
  rewrite (bytes_at_mid sh (kProtocolId ++ append_u16_be [] kProtocolVersion ++ [byte_of flag]) nonce (append_u16_be [] (Zlen auth)) kStaticHeaderNonceOffset kGcmNonceBytes)
    by (try done; unfold sh, static_header; by rewrite <- ?app_assoc). cbn [mbind outcome_bind].
  replace (drop (Z.to_nat kStaticHeaderAuthSizeOffset) sh) with (append_u16_be [] (Zlen auth) ++ []).
  2: { unfold sh, static_header. rewrite app_nil_r, !app_assoc, drop_app_length'; [done|].
       rewrite !length_app. unfold kGcmNonceBytes in Hn. change (Z.to_nat kStaticHeaderAuthSizeOffset) with 21%nat. cbn. lia. }
  rewrite read_u16_append by done. cbn [mbind outcome_bind].
  rewrite (proj2 (Z.ltb_ge _ _)) by lia.
  rewrite (bytes_at_mid data (iv ++ m1) m2 msg kStaticPacketBytes (Zlen auth)) by (unfold data, kStaticPacketBytes; rewrite <- ?app_assoc, ?length_app; done || lia).
  cbn [mbind outcome_bind]. rewrite andb_false_r.
  rewrite <- Lsh. replace (ctr_stream key iv (length sh) m2) with auth by (unfold m2; by rewrite ctr_stream_twice).
  rewrite (bytes_at_mid data (iv ++ m1 ++ m2) msg [] (kStaticPacketBytes + Zlen auth) (Zlen data - (kStaticPacketBytes + Zlen auth))) by (unfold data, kStaticPacketBytes in *; rewrite ?app_nil_r, <- ?app_assoc, ?length_app in *; done || lia).
  cbn [mbind outcome_bind]. unfold in_width in Hf. by rewrite u8_byte_of_small.
Qed.

(** A view that [decode_packet] returns. *)
Record packet_ok (p : PacketView) : Prop := {
  po_flag : in_width 8 (flag p);
  po_nonce : Zlen (nonce p) = kGcmNonceBytes;
  po_size : in_width 16 (auth_size p);
  po_auth : Zlen (auth_data p) = auth_size p;
  po_header : Zlen (header_data p) = kStaticPacketBytes + auth_size p
}.

Lemma decode_packet_cases data dest : kMaskingIvBytes <= Zlen dest ->
  match decode_packet data dest with
  | success p => packet_ok p /\ Zlen (msg_data p) + Zlen (header_data p) = Zlen data
  | failure _ => True
  | crash _ => False
  end.
Proof.
  intros Hd. unfold decode_packet. change kStaticPacketBytes with 39 in *. change kMaskingIvBytes with 16 in *. change kStaticHeaderBytes with 23.
  destruct (Z.ltb_spec (Zlen data) 39); [done|].
  rewrite (bytes_at_ok data 0 16), (bytes_at_ok dest 0 16) by lia. cbn [mbind outcome_bind].
  destruct (evp_ok EvpNew); [|done]. destruct (evp_ok EvpInit); [|done]. cbn [negb].
  rewrite (bytes_at_ok data 16 23) by lia. cbn [mbind outcome_bind]. destruct (evp_ok EvpUpdate); [|done]. cbn [negb].
  set (key := take _ (drop _ dest)). set (iv := take _ (drop _ data)).
  assert (Zlen iv = 16) as Hiv by (apply length_slice; lia).
  set (sh := ctr_stream key iv 0 _).
  assert (Zlen sh = 23) as Hsh by (unfold sh; rewrite length_ctr_stream; apply length_slice; lia).
  rewrite (bytes_at_ok sh 0) by (change kProtocolIdBytes with 6; lia). cbn [mbind outcome_bind].
  destruct (negb _); [done|].
  destruct (read_u16_ok (drop (Z.to_nat kProtocolIdBytes) sh)) as (version & -> & _).
  { rewrite length_drop. change (Z.to_nat kProtocolIdBytes) with 6%nat. lia. }
  cbn [mbind outcome_bind]. destruct (version <? kProtocolVersion); [done|].
  destruct (byte_at_ok sh kStaticHeaderFlagOffset) as [f ->]; [change kStaticHeaderFlagOffset with 8; lia|]. cbn [mbind outcome_bind].
  rewrite (bytes_at_ok sh kStaticHeaderNonceOffset) by (change kStaticHeaderNonceOffset with 9; change kGcmNonceBytes with 12; lia).
  cbn [mbind outcome_bind].
  destruct (read_u16_ok (drop (Z.to_nat kStaticHeaderAuthSizeOffset) sh)) as (size & -> & Hs).
  { rewrite length_drop. change (Z.to_nat kStaticHeaderAuthSizeOffset) with 21%nat. lia. }
  cbn [mbind outcome_bind]. unfold in_width in Hs. destruct (Z.ltb_spec (Zlen data) (39 + size)); [done|].
  rewrite (bytes_at_ok data 39 size) by lia. cbn [mbind outcome_bind]. rewrite andb_false_r.
  rewrite (bytes_at_ok data (39 + size)) by lia. cbn [mbind outcome_bind].
  pose proof (length_slice data 39 size ltac:(lia) ltac:(lia) ltac:(lia)).
  pose proof (length_slice data (39 + size) (Zlen data - (39 + size)) ltac:(lia) ltac:(lia) ltac:(lia)).
  split; [split|]; cbn [flag nonce auth_size auth_data header_data msg_data]; rewrite ?length_app, ?length_ctr_stream;
    [apply u8_range|apply length_slice; change kStaticHeaderNonceOffset with 9; change kGcmNonceBytes with 12; lia|done|lia| |];
    change kStaticPacketBytes with 39; lia.
Qed.

(** ** The message cipher *)

Lemma encrypt_gcm_ok key nonce plaintext auth_data : library_ready ->
  encrypt_gcm key nonce plaintext auth_data = success (gcm_encrypt key nonce auth_data plaintext).
Proof. intros [_ Hevp]. unfold encrypt_gcm. by rewrite !Hevp, !andb_false_r. Qed.

Lemma decrypt_gcm_encrypted `{!Discv5Laws} key nonce plaintext auth_data : library_ready ->
  decrypt_gcm key nonce (gcm_encrypt key nonce auth_data plaintext) auth_data = success plaintext.
Proof.
  intros [_ Hevp]. unfold decrypt_gcm. rewrite (proj2 (Z.ltb_ge _ _)) by (rewrite length_gcm_encrypt; lia).
  by rewrite !Hevp, !andb_false_r, gcm_inverse.
Qed.

(** ** Key agreement *)

Lemma derive_session_keys_ok `{!HashesLaws} secret challenge id1 id2 :
  exists w r, derive_session_keys secret challenge id1 id2 = success (w, r) /\ length w = 16%nat /\ length r = 16%nat.
Proof.
  unfold derive_session_keys, hkdf_expand_32, hmac_sha256. cbn [mbind outcome_bind]. set (okm := HMAC _ _).
  assert (length okm = 32%nat) as Hl by apply length_HMAC. change kAes128KeyBytes with 16.
  rewrite !bytes_at_ok by lia. cbn [mbind outcome_bind]. eexists _, _. split; [done|].
  rewrite !length_take, !length_drop, Hl. done.
Qed.

Context `{!Discv5Laws}.

Lemma compress_public_key_ok pub priv : library_ready -> is_keypair pub priv ->
  exists p, pubkey_create priv = Some p /\ Enr.ec_pubkey_parse (kUncompressedPubKeyPrefix :: pub) = Some p /\
    Enr.ec_pubkey_serialize p = kUncompressedPubKeyPrefix :: pub /\ compress_public_key pub = success (pubkey_serialize_compressed p).
Proof.
  intros [Hctx _] (_ & p & Hc & Hs). exists p. cbn in Hc, Hs. pose proof (parse_serialize p) as Hp. cbn in Hp.
  rewrite Hs in Hp. split; [done|]. split; [done|]. split; [done|].
  unfold compress_public_key. by rewrite Hctx, Hp.
Qed.

Lemma length_compressed p : length (pubkey_serialize_compressed p) = 33%nat.
Proof. destruct (compressed_form p) as (pre & x & -> & _ & Hx). cbn. lia. Qed.

(** The initiator multiplies the responder's key by its ephemeral secret, the responder
    the ephemeral key by its own. *)
Lemma session_secret_agrees pub priv eph_pub eph_priv eph : library_ready ->
  is_keypair pub priv -> is_keypair eph_pub eph_priv -> compress_public_key eph_pub = success eph ->
  exists z, shared_secret_from_uncompressed_pubkey pub eph_priv = success z /\
    shared_secret_from_compressed_pubkey eph priv = success z.
Proof.
  intros Hlib Hk He Hc. pose proof (compress_public_key_ok _ _ Hlib Hk) as (p & Ec & Ep & _ & _).
  pose proof (compress_public_key_ok _ _ Hlib He) as (q & Eqc & _ & _ & Eq). rewrite Eq in Hc. injection Hc as <-.
  destruct (@tweak_mul_comm discv5_curve _ priv eph_priv p q (proj1 Hk) (proj1 He) Ec Eqc) as (z & Z1 & Z2). cbn in Z1, Z2.
  destruct Hlib as [Hctx _]. exists (pubkey_serialize_compressed z).
  unfold shared_secret_from_uncompressed_pubkey, shared_secret_from_compressed_pubkey, shared_secret_of.
  rewrite Hctx, Ep, Z1, length_compressed, parse_compressed, Z2. done.
Qed.

Lemma sign_ok m pub priv : is_keypair pub priv ->
  exists sig recid p s, sign_recoverable m priv = Some (sig, recid) /\ length sig = 64%nat /\
    pubkey_create priv = Some p /\ signature_parse_compact sig = Some s /\ ecdsa_verify s m p = true.
Proof.
  intros (Hv & p & Hc & _). destruct (sign_valid m priv Hv) as (sig & recid & Hs & Hl). cbn in Hv, Hc, Hs.
  destruct (sign_verifies _ _ _ _ _ Hv Hc Hs) as (s & ? & ?). by exists sig, recid, p, s.
Qed.

Lemma id_signature_ok pub priv challenge eph dest : library_ready -> is_keypair pub priv ->
  exists sig, make_id_signature priv challenge eph dest = success sig /\ length sig = 64%nat /\
    verify_id_signature pub sig challenge eph dest = true.
Proof.
  intros Hlib Hk. destruct (sign_ok (id_proof_digest challenge eph dest) pub priv Hk) as (sig & recid & p & s & Hs & Hl & Hp & Hps & Hv).
  destruct (compress_public_key_ok _ _ Hlib Hk) as (p' & Hp' & Hparse & _). rewrite Hp in Hp'. injection Hp' as <-.
  destruct Hlib as [Hctx _]. exists sig. unfold make_id_signature, verify_id_signature.
  by rewrite Hctx, Hs, Hl, Hparse, Hps.
Qed.

(** ** The local record *)

Definition local_pairs (ip_bytes compressed : list byte) (tcp udp : Z) : list (text * item) :=
  [(kEnrKeyId, Str kIdentitySchemeV4); (kEnrKeyIp, Str ip_bytes); (kEnrKeySecp256k1, Str compressed);
   (kEnrKeyTcp, Str (be_min tcp)); (kEnrKeyUdp, Str (be_min udp))].

Lemma emits_local_pairs ip_bytes compressed tcp udp : in_width 16 tcp -> in_width 16 udp ->
  emits (add_local_pairs ip_bytes compressed tcp udp) (content_payload kInitialEnrSeq (local_pairs ip_bytes compressed tcp udp)).
Proof.
  intros Ht Hu. unfold content_payload, pairs_wire, local_pairs, pair_wire. cbn [map concat fst snd rlp_encode].
  rewrite app_nil_r, <- !app_assoc. fold (rlp_uint tcp) (rlp_uint udp). unfold add_local_pairs.
  repeat (apply emits_seq; [first [apply emits_add_bytes|apply emits_add_integral; [unfold is_sizeof; lia|done]]|]).
  apply emits_add_integral; [unfold is_sizeof; lia|done].
Qed.

Lemma nbytes_u16 n : in_width 16 n -> (nbytes n <= 2)%nat.
Proof.
  intros Hn. unfold in_width in Hn. unfold nbytes. destruct (Z.eqb_spec n 0); [lia|].
  assert (Z.log2 n < 16) by (apply Z.log2_lt_pow2; lia).
  assert (Z.log2 n / 8 <= 1) by (apply Z.lt_succ_r, Z.div_lt_upper_bound; lia). lia.
Qed.

Lemma decode_port_fold l : foldl (fun port b => u16 (Z.lor (Z.shiftl port 8) (u8 b))) 0 l = u16 (be_val l).
Proof.
  induction l as [|b l IH] using rev_ind; [done|]. rewrite foldl_app, be_val_snoc. cbn [foldl]. rewrite IH.
  rewrite Z.shiftl_mul_pow2, lor_add by (try apply u8_range; lia). change (2 ^ 8) with 256. unfold u16.
  rewrite <- Z.add_mod_idemp_l, Z.mul_mod_idemp_l, Z.add_mod_idemp_l by lia. done.
Qed.

Lemma decode_port_be_min n : 1 <= n < 2 ^ 16 -> decode_port (be_min n) = success n.
Proof.
  intros Hn. unfold decode_port. rewrite decode_port_fold, be_val_be_min, u16_small by lia.
  rewrite bool_decide_eq_false_2 by (intros E%be_min_nil; lia). rewrite length_be_min.
  pose proof (nbytes_u16 n ltac:(unfold in_width; lia)). unfold kMaxPortBytes.
  rewrite (proj2 (Z.ltb_ge _ _)), (proj2 (Z.eqb_neq n 0)) by lia. done.
Qed.

(** A record that a peer accepts as the node [pub] at an endpoint. *)
Record accepted_record (raw pub : list byte) (ip : text) (udp tcp : Z) : Prop := {
  ar_item : exists i, raw = rlp_encode i;
  ar_size : Zlen raw <= kEnrMaxBytes;
  ar_decodes : exists r0 r, decode_rlp raw = success r0 /\ verify_signature r0 = success r /\ node_id r = pub /\
    forall now, to_validated_peer r now = success (mkValidatedPeer pub ip udp tcp now None)
}.

Lemma record_wire_item sig n l :
  record_wire sig n l = rlp_encode (Lst (Str sig :: Str (be_min n) :: flat_map (fun kv => [Str kv.1; kv.2]) l)).
Proof.
  unfold record_wire, content_payload, pairs_wire. cbn [rlp_encode map concat]. do 3 f_equal.
  induction l as [|kv l IH]; [done|]. cbn [map concat flat_map app]. unfold pair_wire at 1. by rewrite IH, <- app_assoc.
Qed.

(** The address in the record: the bound IPv4 address, or 0.0.0.0 for an IPv6 one. *)
Definition advertised_ip (a : ip_address) : list byte :=
  match a with AddressV4 bytes => bytes | AddressV6 _ => zero_array kIPv4Bytes end.

Lemma length_local_record sig ip_bytes compressed tcp udp :
  length sig = 64%nat -> Zlen ip_bytes = 4 -> length compressed = 33%nat -> in_width 16 tcp -> in_width 16 udp ->
  Zlen (record_wire sig kInitialEnrSeq (local_pairs ip_bytes compressed tcp udp)) <= kEnrMaxBytes.
Proof.
  intros Hs Hi Hc Ht Hu. unfold record_wire, content_payload, pairs_wire, local_pairs, pair_wire. cbn [map concat fst snd rlp_encode].
  rewrite app_nil_r, <- !app_assoc. pose proof (nbytes_u16 _ Ht). pose proof (nbytes_u16 _ Hu).
  pose proof (rlp_string_length_le sig ltac:(lia)). pose proof (rlp_string_length_le ip_bytes ltac:(lia)).
  pose proof (rlp_string_length_le compressed ltac:(lia)).
  pose proof (rlp_string_length_le (be_min tcp) ltac:(rewrite length_be_min; lia)).
  pose proof (rlp_string_length_le (be_min udp) ltac:(rewrite length_be_min; lia)). rewrite !length_be_min in *.
  set (p := _ ++ _). assert (length p <= 270)%nat as Hp.
  { unfold p. rewrite !length_app.
    change (length (rlp_uint kInitialEnrSeq)) with 1%nat. change (length (rlp_string kEnrKeyId)) with 3%nat.
    change (length (rlp_string kIdentitySchemeV4)) with 3%nat. change (length (rlp_string kEnrKeyIp)) with 3%nat.
    change (length (rlp_string kEnrKeySecp256k1)) with 10%nat. change (length (rlp_string kEnrKeyTcp)) with 4%nat.
    change (length (rlp_string kEnrKeyUdp)) with 4%nat. lia. }
  pose proof (rlp_list_length_le p ltac:(lia)). unfold kEnrMaxBytes. lia.
Qed.

Lemma node_id_of_serialized p pub : Enr.ec_pubkey_serialize p = kUncompressedPubKeyPrefix :: pub -> node_id_of p = pub.
Proof.
  intros Hs. destruct (@serialize_point discv5_curve _ p) as (xy & E & Hl). cbn in E. rewrite Hs in E. injection E as ->.
  unfold node_id_of. rewrite Hs. change (drop _ (_ :: xy)) with xy. by rewrite take_ge by (rewrite Hl; done).
Qed.

Lemma local_signed pub priv ip_bytes tcp udp : library_ready -> is_keypair pub priv ->
  exists compressed p, compress_public_key pub = success compressed /\ length compressed = 33%nat /\ node_id_of p = pub /\
    let l := local_pairs ip_bytes compressed tcp udp in
    exists sig recid, sign_recoverable (keccak256 (rlp_list (content_payload kInitialEnrSeq l))) priv = Some (sig, recid) /\
      length sig = 64%nat /\ pubkey_of l = compressed /\ signed_record sig kInitialEnrSeq l p.
Proof.
  intros Hlib Hk. destruct (compress_public_key_ok pub priv Hlib Hk) as (p & Hp & Hparse & Hs & Hc).
  exists (pubkey_serialize_compressed p), p. split; [done|]. split; [apply length_compressed|]. split; [by apply node_id_of_serialized|].
  intros l. destruct (sign_ok (keccak256 (rlp_list (content_payload kInitialEnrSeq l))) pub priv Hk) as (sig & recid & p' & s & Hsig & Hl & Hp' & Hps & Hv).
  rewrite Hp in Hp'. injection Hp' as <-. exists sig, recid. split; [done|]. split; [done|].
  assert (pubkey_of l = pubkey_serialize_compressed p) as Hkey.
  { unfold pubkey_of. change (values (lit "secp256k1") l) with [pubkey_serialize_compressed p]. unfold last_ok. cbn [foldl].
    unfold pubkey_field. by rewrite length_compressed. }
  split; [done|]. split; [by rewrite Hl|done|by repeat constructor| |].
  - rewrite Hkey. destruct (compressed_form p) as (pre & x & -> & Hpre & _). intros [=]. done.
  - rewrite Hkey. split; [apply Hlib|]. split; [apply parse_compressed|]. exists s.
    split; [|done]. by rewrite take_ge by (rewrite Hl; done).
Qed.

Lemma local_record_accepted pub priv bind_ip a config_tcp udp : library_ready ->
  is_keypair pub priv -> make_address bind_ip = Some a -> Zlen (advertised_ip a) = kIPv4Bytes ->
  1 <= udp < 2 ^ 16 -> in_width 16 config_tcp ->
  exists raw, make_local_enr_record pub priv bind_ip config_tcp udp = success raw /\
    accepted_record raw pub (address_v4_to_string (advertised_ip a)) udp (if config_tcp =? 0 then udp else config_tcp).
Proof.
  intros Hlib Hk Ha Hip Hu Ht. set (tcp := if config_tcp =? 0 then udp else config_tcp).
  assert (1 <= tcp < 2 ^ 16) as Htcp by (unfold tcp, in_width in *; destruct (Z.eqb_spec config_tcp 0); lia).
  destruct (local_signed pub priv (advertised_ip a) tcp udp Hlib Hk) as (c & p & Hc & Hlc & Hid & sig & recid & Hsig & Hls & Hpk & Hsr).
  set (l := local_pairs (advertised_ip a) c tcp udp) in *.
  pose proof (length_local_record sig (advertised_ip a) c tcp udp Hls Hip Hlc ltac:(unfold in_width; lia) ltac:(unfold in_width; lia)) as Hlen.
  fold l in Hlen. pose proof (emits_local_pairs (advertised_ip a) c tcp udp ltac:(unfold in_width; lia) ltac:(unfold in_width; lia)) as Hem. fold l in Hem.
  assert (Zlen (rlp_list (content_payload kInitialEnrSeq l)) < 2 ^ 64) as Hlc2.
  { unfold record_wire, rlp_list in *. rewrite !length_app in *. unfold kEnrMaxBytes in Hlen.
    pose proof (rlp_list_length_le (content_payload kInitialEnrSeq l) ltac:(lia)). unfold rlp_list in *. rewrite !length_app in *. lia. }
  exists (record_wire sig kInitialEnrSeq l). split.
  - unfold make_local_enr_record. rewrite Hc. cbn [mbind outcome_bind]. rewrite Ha. fold (advertised_ip a).
    replace (if negb (config_tcp =? 0) then config_tcp else udp) with tcp by (unfold tcp; by destruct (config_tcp =? 0)).
    unfold encoded. rewrite (finish_encoder_emits _ _ Hlc2 (emits_list_try _ _ Hem)). cbn [or_error mbind outcome_bind].
    rewrite (proj1 Hlib), Hsig. cbn [negb].
    rewrite (finish_encoder_emits _ (record_wire sig kInitialEnrSeq l)); [done|unfold kEnrMaxBytes in Hlen; lia|].
    apply emits_list_try, emits_seq; [apply emits_add_bytes|done].
  - split; [eexists; apply record_wire_item|done|].
    pose proof (decode_accepts sig kInitialEnrSeq l [] p Hsr) as Hd. unfold pairs_wire in Hd. cbn [map concat] in Hd. rewrite !app_nil_r in Hd.
    destruct Hd as (r0 & r & Ed & Ev & [_ _ E3 Hf]); [done|done|unfold fits, kEnrMaxBytes in *; lia|].
    exists r0, r. split; [done|]. split; [done|]. split; [by rewrite E3|]. intros now.
    assert (ip r = address_v4_to_string (advertised_ip a)) as Eip.
    { rewrite (of_ip _ _ _ Hf). change (values (lit "ip") l) with [advertised_ip a]. unfold last_ok. cbn [foldl]. unfold decode_ipv4. by rewrite Hip. }
    assert (tcp_port r = tcp) as Etcp.
    { rewrite (of_tcp _ _ _ Hf). change (values (lit "tcp") l) with [be_min tcp]. unfold last_ok. cbn [foldl]. by rewrite decode_port_be_min. }
    assert (udp_port r = udp) as Eudp.
    { rewrite (of_udp _ _ _ Hf). change (values (lit "udp") l) with [be_min udp]. unfold last_ok. cbn [foldl]. by rewrite decode_port_be_min. }
    assert (eth_fork_id r = None) as Efork by by rewrite (of_fork _ _ _ Hf).
    unfold to_validated_peer. rewrite Eip, Etcp, Eudp, Efork, E3, Hid.
    rewrite bool_decide_eq_false_2 by apply address_v4_text. cbn [andb negb].
    rewrite !(proj2 (Z.eqb_neq _ _)) by lia. done.
Qed.

(** ** Messages *)

Definition findnode_wire (req_id : list byte) : list byte :=
  rlp_list (rlp_string req_id ++ rlp_list (rlp_uint kFindNodeDistanceAll)).

(** A NODES body: the request id, the number of packets, the records. *)
Definition nodes_wire (req_id : list byte) (total : Z) (records : list item) : list byte :=
  rlp_list (rlp_string req_id ++ rlp_uint total ++ rlp_list (concat (map rlp_encode records))).

Lemma length_findnode_wire req_id : Zlen req_id < 2 ^ 32 -> Zlen (findnode_wire req_id) <= Zlen req_id + 22.
Proof.
  intros Hl. unfold findnode_wire. change (rlp_list (rlp_uint kFindNodeDistanceAll)) with [xc3; x82; x01; x00].
  pose proof (rlp_string_length_le req_id ltac:(lia)).
  pose proof (rlp_list_length_le (rlp_string req_id ++ [xc3; x82; x01; x00])) as Hr. rewrite length_app in Hr.
  specialize (Hr ltac:(cbn [length]; lia)). cbn [length] in Hr. lia.
Qed.

Lemma make_findnode_plaintext_eq req_id : Zlen req_id < 2 ^ 32 ->
  make_findnode_plaintext req_id = success (kMsgFindNode :: findnode_wire req_id).
Proof.
  intros Hl. pose proof (length_findnode_wire req_id Hl). unfold make_findnode_plaintext, encoded.
  rewrite (finish_encoder_emits _ (findnode_wire req_id)); [done|lia|].
  apply emits_list_try, emits_seq; [apply emits_add_bytes|]. apply emits_list_try, emits_add_integral; [unfold is_sizeof; lia|done].
Qed.

Lemma parse_findnode_wire req_id : Zlen req_id < 2 ^ 32 -> parse_findnode_req_id (findnode_wire req_id) = success req_id.
Proof.
  intros Hl. pose proof (length_findnode_wire req_id Hl). unfold parse_findnode_req_id, run_decoder, findnode_wire in *.
  set (p := rlp_string req_id ++ _) in *. assert (fits (rlp_list p)) as Hf by (unfold fits; lia).
  rewrite (bind_success _ _ _ _ _ (proj2 (or_fail_success _ _ _ _ _) (ReadListHeaderBytes_whole p Hf))).
  assert (fits p) as Hfp by by eapply fits_app_r. unfold p in *. unfold or_fail. by rewrite (consumes_read_bytes _ _ Hfp).
Qed.

Lemma length_nodes_wire req_id i : Zlen req_id < 2 ^ 32 -> Zlen (rlp_encode i) < 2 ^ 32 ->
  Zlen (nodes_wire req_id kNodesResponseCountSingle [i]) <= Zlen req_id + Zlen (rlp_encode i) + 28.
Proof.
  intros Hr Hi. unfold nodes_wire. cbn [map concat]. rewrite app_nil_r. change (rlp_uint kNodesResponseCountSingle) with [x01].
  pose proof (rlp_string_length_le req_id ltac:(lia)). pose proof (rlp_list_length_le (rlp_encode i) ltac:(lia)).
  set (p := rlp_string req_id ++ _). assert (length p <= length req_id + length (rlp_encode i) + 19)%nat as Hp.
  { unfold p. rewrite !length_app. cbn [length]. lia. }
  pose proof (rlp_list_length_le p ltac:(lia)). lia.
Qed.

Lemma make_nodes_plaintext_eq req_id i : Zlen req_id < 2 ^ 32 -> Zlen (rlp_encode i) < 2 ^ 32 ->
  make_nodes_plaintext req_id (rlp_encode i) = success (kMsgNodes :: nodes_wire req_id kNodesResponseCountSingle [i]).
Proof.
  intros Hr Hi. pose proof (length_nodes_wire req_id i Hr Hi). unfold make_nodes_plaintext, encoded.
  rewrite (finish_encoder_emits _ (nodes_wire req_id kNodesResponseCountSingle [i])); [done|lia|].
  unfold nodes_wire. cbn [map concat]. rewrite app_nil_r.
  apply emits_list_try, emits_seq; [apply emits_add_bytes|]. apply emits_seq; [apply emits_add_integral; [unfold is_sizeof; lia|done]|].
  apply emits_list_try, emits_AddRaw. intros E. pose proof (rlp_encode_pos i). rewrite E in *. cbn in *. lia.
Qed.

(** An item of any kind: its header, and the step over it. *)
Lemma item_at i rest : fits (rlp_encode i ++ rest) ->
  exists h, PeekHeader (rlp_encode i ++ rest) = (success h, rlp_encode i ++ rest) /\
    header_size_bytes h + payload_size_bytes h = Zlen (rlp_encode i).
Proof.
  intros Hf. destruct i as [bs|l]; cbn [rlp_encode] in *.
  - destruct (string_at_rlp_string bs rest) as [pre [_ Hr Ha]].
    { unfold fits in Hf. rewrite length_app in Hf. pose proof (rlp_string_length_ge bs). lia. }
    eexists. split; [by eapply PeekHeader_at|]. cbn [header_size_bytes payload_size_bytes]. rewrite <- Hr, length_app. lia.
  - pose proof (list_header_at _ _ Hf) as Ha. eexists. split; [by eapply PeekHeader_at|].
    cbn [header_size_bytes payload_size_bytes]. unfold rlp_list. rewrite length_app. lia.
Qed.

(** The records of a NODES body, each with what [record_peer] makes of it. *)
Lemma nodes_loop_eats records outs rest now : Forall2 (fun i o => record_peer (rlp_encode i) now = success o) records outs ->
  forall fuel nodes_len nodes_start peers,
  let view := concat (map rlp_encode records) ++ rest in
  (length records < fuel)%nat -> fits view -> nodes_len = nodes_start - Zlen rest ->
  nodes_loop fuel nodes_len nodes_start now peers view = (success (peers ++ omap id outs), rest).
Proof.
  induction 1 as [|i o records outs Hi Hrec IH]; intros fuel nodes_len nodes_start peers view Hfuel Hf Hlen;
    (destruct fuel as [|fuel]; [simpl in Hfuel; lia|]); cbn [nodes_loop].
  - unfold IsFinished. run. cbn. rewrite app_nil_r. destruct (bool_decide_reflect (rest = [])); [done|].
    unfold mret, M_ret. by rewrite (proj2 (Z.leb_le _ _)) by lia.
  - set (tl := concat (map rlp_encode records) ++ rest). unfold view in *. clear view. cbn [map concat] in *. rewrite <- app_assoc in *. fold tl in Hf |- *.
    pose proof (rlp_encode_pos i) as Hpos. unfold IsFinished. run.
    rewrite bool_decide_eq_false_2 by (destruct (rlp_encode i); simpl in *; [lia|done]).
    rewrite (proj2 (Z.leb_gt _ _)).
    2: { rewrite Hlen, length_app. unfold tl. rewrite length_app. lia. }
    destruct (item_at i tl Hf) as (h & Hp & Hsize). unfold attempt. rewrite Hp.
    assert (u64 (header_size_bytes h + payload_size_bytes h) = Zlen (rlp_encode i)) as ->.
    { rewrite Hsize. apply u64_small. unfold fits in Hf. rewrite length_app in Hf. lia. }
    unfold lift, substr. rewrite (proj2 (Z.ltb_ge _ _)) by lia. rewrite Z.min_l by (rewrite length_app; lia).
    change (drop (Z.to_nat 0) ?x) with x. rewrite take_app_Zlen, (consumes_SkipItem i tl Hf), Hi.
    unfold tl. rewrite IH; [|simpl in Hfuel; lia|by eapply fits_app_r|done].
    destruct o; [by rewrite <- app_assoc|done].
Qed.

Lemma parse_nodes_wire req_id total records outs rest now :
  in_width 8 total -> fits (nodes_wire req_id total records ++ rest) ->
  Forall2 (fun i o => record_peer (rlp_encode i) now = success o) records outs ->
  parse_nodes_message (nodes_wire req_id total records ++ rest) now = success (req_id, omap id outs).
Proof.
  intros Ht Hf Hrec. unfold parse_nodes_message, run_decoder, parse_nodes_body, nodes_wire in *.
  set (q := concat (map rlp_encode records)) in *.
  rewrite (bind_success _ _ _ _ _ (proj2 (or_fail_success _ _ _ _ _) (ReadListHeaderBytes_list _ _ Hf))).
  assert (fits (rlp_string req_id ++ rlp_uint total ++ rlp_list q ++ rest)) as Hf1.
  { revert Hf. unfold rlp_list at 1. rewrite <- !app_assoc. apply fits_app_r. }
  rewrite <- !app_assoc.
  rewrite (bind_success _ _ _ _ _ (proj2 (or_fail_success _ _ _ _ _) (consumes_read_bytes _ _ Hf1))). apply fits_app_r in Hf1.
  rewrite (bind_success _ _ _ _ _ (proj2 (or_fail_success _ _ _ _ _) (consumes_read_integral 1 total ltac:(unfold is_sizeof; lia) Ht _ Hf1))).
  apply fits_app_r in Hf1.
  rewrite (bind_success _ _ _ _ _ (proj2 (or_fail_success _ _ _ _ _) (ReadListHeaderBytes_list _ _ Hf1))).
  assert (fits (q ++ rest)) as Hf2 by (revert Hf1; unfold rlp_list; rewrite <- app_assoc; apply fits_app_r).
  rewrite view_then. assert (length records <= length q)%nat as Hrl.
  { apply concat_map_length_ge. intros i _ E. pose proof (rlp_encode_pos i). rewrite E in *. simpl in *. lia. }
  assert (length records < S (length (q ++ rest)))%nat as Hfuel by (rewrite length_app; lia).
  assert (Zlen q = Zlen (q ++ rest) - Zlen rest) as Hlen by (rewrite length_app; lia).
  by rewrite (bind_success _ _ _ _ _ (nodes_loop_eats records outs rest now Hrec _ _ _ [] Hfuel Hf2 Hlen)).
Qed.

(** ** The authentication data of a handshake *)

Definition handshake_auth (src sig pk rec : list byte) : list byte :=
  src ++ [byte_of (Zlen sig)] ++ [byte_of (Zlen pk)] ++ sig ++ pk ++ rec.

Lemma parse_handshake_auth_eq src sig pk rec :
  Zlen src = kKeccak256Bytes -> Zlen sig < 256 -> Zlen pk < 256 ->
  parse_handshake_auth (handshake_auth src sig pk rec) = success (mkHandshakeAuthView src sig pk rec).
Proof.
  intros Hs Hg Hp. unfold parse_handshake_auth. set (a := handshake_auth src sig pk rec).
  assert (Zlen a = kHandshakeAuthFixedBytes + Zlen sig + Zlen pk + Zlen rec) as Ha.
  { unfold a, handshake_auth. rewrite !length_app. change kHandshakeAuthFixedBytes with 34. unfold kKeccak256Bytes in Hs. cbn [length]. lia. }
  rewrite (proj2 (Z.ltb_ge _ _)) by lia.
  rewrite (bytes_at_mid a [] src (drop 32 a) 0 kKeccak256Bytes).
  2: { unfold a, handshake_auth. rewrite (drop_app_length' src) by (unfold kKeccak256Bytes in Hs; lia). done. }
  2-3: lia || done.
  cbn [mbind outcome_bind].
  assert (byte_at (Er := discv5Error) a kHandshakeAuthSigSizeOffset = success (byte_of (Zlen sig))) as ->.
  { unfold byte_at, a, handshake_auth. rewrite lookup_app_r by (change (Z.to_nat kHandshakeAuthSigSizeOffset) with 32%nat; unfold kKeccak256Bytes in Hs; lia).
    by replace (Z.to_nat kHandshakeAuthSigSizeOffset - length src)%nat with 0%nat by (change (Z.to_nat kHandshakeAuthSigSizeOffset) with 32%nat; unfold kKeccak256Bytes in Hs; lia). }
  cbn [mbind outcome_bind].
  assert (byte_at (Er := discv5Error) a kHandshakeAuthPubkeySizeOffset = success (byte_of (Zlen pk))) as ->.
  { unfold byte_at, a, handshake_auth. rewrite lookup_app_r by (change (Z.to_nat kHandshakeAuthPubkeySizeOffset) with 33%nat; unfold kKeccak256Bytes in Hs; lia).
    by replace (Z.to_nat kHandshakeAuthPubkeySizeOffset - length src)%nat with 1%nat by (change (Z.to_nat kHandshakeAuthPubkeySizeOffset) with 33%nat; unfold kKeccak256Bytes in Hs; lia). }
  cbn [mbind outcome_bind]. rewrite !u8_byte_of_small by lia. rewrite (proj2 (Z.ltb_ge _ _)) by lia.
  set (pre := src ++ [byte_of (Zlen sig)] ++ [byte_of (Zlen pk)]).
  assert (Zlen pre = kHandshakeAuthFixedBytes) as Hpre.
  { unfold pre. rewrite !length_app. unfold kKeccak256Bytes in Hs. change kHandshakeAuthFixedBytes with 34. cbn [length]. lia. }
  assert (a = pre ++ sig ++ pk ++ rec) as Ea by (unfold a, pre, handshake_auth; by rewrite <- !app_assoc).
  rewrite (bytes_at_mid a pre sig (pk ++ rec) kHandshakeAuthFixedBytes) by (done || lia). cbn [mbind outcome_bind].
  rewrite (bytes_at_mid a (pre ++ sig) pk rec (kHandshakeAuthFixedBytes + Zlen sig)) by (rewrite ?length_app, <- ?app_assoc; done || lia).
  cbn [mbind outcome_bind].
  rewrite (bytes_at_mid a (pre ++ sig ++ pk) rec [] (kHandshakeAuthFixedBytes + Zlen sig + Zlen pk)) by (rewrite ?app_nil_r, ?length_app, <- ?app_assoc; done || lia).
  done.
Qed.
End packet_proofs.

(** ** Every input *)

Section every_input.
Context `{Discv5Primitives} `{Hashes} `{CtrCiphers}.

Lemma parse_handshake_cases auth :
  match parse_handshake_auth auth with
  | success v => Zlen (src_id v) = kKeccak256Bytes /\ Zlen (record v) <= Zlen auth
  | failure _ => True
  | crash _ => False
  end.
Proof.
  unfold parse_handshake_auth. change kHandshakeAuthFixedBytes with 34. change kKeccak256Bytes with 32.
  change kHandshakeAuthSigSizeOffset with 32. change kHandshakeAuthPubkeySizeOffset with 33.
  destruct (Z.ltb_spec (Zlen auth) 34); [done|]. rewrite (bytes_at_ok auth 0 32) by lia. cbn [mbind outcome_bind].
  destruct (byte_at_ok auth 32 ltac:(lia)) as [x ->], (byte_at_ok auth 33 ltac:(lia)) as [y ->]. cbn [mbind outcome_bind].
  pose proof (u8_range x). pose proof (u8_range y).
  destruct (Z.ltb_spec (Zlen auth) (34 + u8 x + u8 y)); [done|].
  rewrite !bytes_at_ok by lia. cbn [mbind outcome_bind src_id record].
  rewrite !length_slice by lia. lia.
Qed.

Lemma parse_findnode_cases body f : fits body -> parse_findnode_req_id body <> crash f.
Proof.
  intros Hf E. assert (no_crash (parse_findnode_req_id body)) as Hs; [|by rewrite E in Hs].
  apply (run_decoder_safe 1 _ (fun _ => True)); [|done].
  eapply safe_bind_1; [apply safe_or_fail, safe_ReadListHeaderBytes|lia|]. intros _ _.
  eapply safe_weaken; [apply safe_or_fail, safe_read_bytes|lia|done].
Qed.

(** A peer with usable ports and an address. *)
Definition peer_ok (p : ValidatedPeer) : Prop :=
  1 <= peer_udp_port p < 2 ^ 16 /\ 1 <= peer_tcp_port p < 2 ^ 16 /\ peer_ip p <> [].

Lemma record_peer_cases raw now : fits raw ->
  match record_peer raw now with
  | success o => forall p, o = Some p -> peer_ok p
  | failure _ => False
  | crash f => f = OutOfBounds
  end.
Proof.
  intros Hf. unfold record_peer. pose proof (decode_rlp_cases raw Hf) as Hd.
  destruct (decode_rlp raw) as [r|e|f]; [|done|by destruct Hd]. pose proof (verify_signature_cases r Hd) as Hv.
  destruct (verify_signature r) as [r'|e|f]; [|done|by destruct Hv]. pose proof (validated_peer_exact r' now Hv) as Hp.
  destruct (to_validated_peer r' now) as [p|e|f]; [|done|done]. intros p' [= <-]. unfold peer_ok. intuition lia.
Qed.

Lemma nodes_loop_cases fuel nodes_len nodes_start now peers v :
  fits v -> (length v < fuel)%nat -> Forall peer_ok peers ->
  match (nodes_loop fuel nodes_len nodes_start now peers v).1 with
  | success ps => Forall peer_ok ps
  | failure _ => False
  | crash f => f = OutOfBounds
  end.
Proof.
  revert peers v. induction fuel as [|fuel IH]; intros peers v Hf Hfuel Hp; [lia|]. cbn [nodes_loop]. unfold IsFinished. run.
  destruct (bool_decide_reflect (v = [])); [done|]. destruct (nodes_len <=? _); [done|].
  pose proof (safe_PeekHeader v Hf) as Hph. unfold attempt at 1. destruct (PeekHeader v) as [[h|e|f] v'] eqn:Ep; [|done|done].
  assert (v' = v) as -> by (unfold PeekHeader in Ep; by injection Ep).
  unfold substr at 1. rewrite (proj2 (Z.ltb_ge _ _)) by lia. change (drop (Z.to_nat 0) v) with v.
  set (raw := take _ v). pose proof (safe_SkipItem v Hf) as Hs. unfold attempt. destruct (SkipItem v) as [[[]|e|f] w]; [|done|done].
  destruct Hs as (Hsuf & Hlen & _).
  assert (fits raw) as Hraw by (unfold fits, raw in *; rewrite length_take; lia).
  pose proof (record_peer_cases raw now Hraw) as Hr. destruct (record_peer raw now) as [o|e|f]; [|done|done].
  apply IH; [by eapply fits_suffix|lia|]. destruct o as [p|]; [|done]. apply Forall_app. split; [done|]. constructor; [by apply Hr|done].
Qed.

(** A NODES body yields usable peers, or faults in the record parser. *)
Lemma parse_nodes_cases body now : fits body ->
  match parse_nodes_message body now with
  | success r => Forall peer_ok r.2
  | failure _ => True
  | crash f => f = OutOfBounds
  end.
Proof.
  intros Hf. unfold parse_nodes_message, run_decoder, parse_nodes_body. rewrite or_fail_bind.
  pose proof (safe_ReadListHeaderBytes body Hf) as S1. destruct (ReadListHeaderBytes body) as [[n|e|f] v1]; [|done|done].
  destruct S1 as (V1 & _ & _). pose proof (fits_suffix _ _ V1 Hf) as F1. rewrite or_fail_bind.
  pose proof (safe_read_bytes v1 F1) as S2. destruct (read_bytes v1) as [[req|e|f] v2]; [|done|done].
  destruct S2 as (V2 & _ & _). pose proof (fits_suffix _ _ V2 F1) as F2. rewrite or_fail_bind.
  pose proof (safe_read_integral 1 ltac:(unfold is_sizeof; lia) v2 F2) as S3. destruct (read_integral 1 v2) as [[k|e|f] v3]; [|done|done].
  destruct S3 as (V3 & _ & _). pose proof (fits_suffix _ _ V3 F2) as F3. rewrite or_fail_bind.
  pose proof (safe_ReadListHeaderBytes v3 F3) as S4. destruct (ReadListHeaderBytes v3) as [[l|e|f] v4]; [|done|done].
  destruct S4 as (V4 & _ & _). pose proof (fits_suffix _ _ V4 F3) as F4. rewrite view_then.
  pose proof (nodes_loop_cases (S (length v4)) l (Zlen v4) now [] v4 F4 ltac:(lia) ltac:(done)) as Hn. unfold mbind, M_bind.
  destruct (nodes_loop _ _ _ _ _ v4) as [[ps|e|f] v5]; done.
Qed.
End every_input.

(** ** Claims *)

(** C37: a packet that one node encodes for another is taken apart by it into what was put in,
    for every flag, nonce, authentication data and message: the masked header is unmasked
    with the address of the receiver, and the header that authenticates the message is the
    same on both sides. *)
Theorem packet_roundtrip `{Discv5Primitives} `{Hashes} `{CtrCiphers} iv flag nonce auth msg dest :
  library_ready -> kMaskingIvBytes <= Zlen dest -> Zlen iv = kMaskingIvBytes -> Zlen nonce = kGcmNonceBytes ->
  in_width 8 flag -> in_width 16 (Zlen auth) ->
  exists packet header, encode_packet (Some iv) flag nonce auth msg dest = success (packet, header) /\
    Zlen packet = Zlen header + Zlen msg /\
    decode_packet packet dest = success (mkPacketView flag nonce (Zlen auth) header auth msg).
Proof.
  intros Hlib Hd Hi Hn Hf Ha. eexists _, _. split; [by apply encode_packet_eq|]. split; [|by apply decode_packet_wire].
  unfold packet_wire. rewrite !length_app, length_ctr_stream, length_app. lia.
Qed.

(** ** Concrete libraries, to evaluate the definitions *)

Module SampleDiscv5.
(** Keys are residues of secrets, a signature is the key and the digest, and a tag is made of
    the key, the nonce and the associated data. *)
#[export] Instance sample_enr : EnrPrimitives := {|
  keccak256 l := be_bytes 32 (be_val l);
  context_created := true;
  secp_pubkey := byte;
  secp_signature := list byte;
  Enr.ec_pubkey_parse bs :=
    match bs with pre :: b :: _ => if decide (pre = x04 \/ pre = x02) then Some b else None | _ => None end;
  signature_parse_compact s := Some s;
  ecdsa_verify s h p := bool_decide (s = replicate 32 p ++ resize 32 x00 h);
  Enr.ec_pubkey_serialize p := x04 :: replicate 64 p;
  address_v4_to_string b := "v"%byte :: b;
  address_v6_to_string b := "w"%byte :: b
|}.

Definition tag (key nonce aad : list byte) : list byte := be_bytes 16 (be_val (key ++ nonce ++ aad)).

Definition seal (key nonce aad text : list byte) : list byte := tag key nonce aad ++ text.
Definition unseal (key nonce aad text : list byte) : option (list byte) :=
  if (kGcmTagBytes <=? Zlen text) && bool_decide (take 16 text = tag key nonce aad) then Some (drop 16 text) else None.

Lemma length_tag key nonce aad : length (tag key nonce aad) = 16%nat.
Proof. apply length_be_bytes. Qed.

Lemma unseal_seal key nonce aad text : unseal key nonce aad (seal key nonce aad text) = Some text.
Proof.
  unfold unseal, seal. pose proof (length_tag key nonce aad). rewrite take_app_length', drop_app_length' by done.
  rewrite bool_decide_eq_true_2, length_app, length_tag by done. by rewrite (proj2 (Z.leb_le _ _)) by (unfold kGcmTagBytes; lia).
Qed.

#[export] Instance sample_discv5 : Discv5Primitives := {|
  seckey_verify k := Zlen k =? 32;
  pubkey_create k := Some (byte_of (be_val k));
  pubkey_tweak_mul p k := Some (byte_of (u8 p * be_val k));
  pubkey_serialize_compressed p := x02 :: replicate 32 p;
  sign_recoverable m k := Some (replicate 32 (byte_of (be_val k)) ++ resize 32 x00 m, 0);
  evp_ok _ := true;
  gcm_encrypt := seal;
  gcm_decrypt := unseal;
  make_address t :=
    match t with
    | "v"%byte :: b => if decide (length b = 4%nat) then Some (AddressV4 b) else None
    | _ => None
    end
|}.

#[export] Instance sample_laws : Discv5Laws.
Proof.
  split.
  - split.
    + intros p. by exists (replicate 64 p).
    + done.
    + by eexists.
    + intros a b pa pb _ _ [= <-] [= <-]. exists (byte_of (be_val a * be_val b)). cbn. split; f_equal; apply u8_inj; rewrite !u8_byte_of.
      * by rewrite Z.mul_mod_idemp_l.
      * by rewrite Z.mul_mod_idemp_l, Z.mul_comm.
    + intros m k _. eexists _, _. split; [done|]. by rewrite length_app, length_replicate, length_resize.
  - intros m. apply length_be_bytes.
  - intros p. by exists x02, (replicate 32 p).
  - done.
  - intros m k p sig recid _ [= <-] [= <- _]. eexists. split; [done|]. by apply bool_decide_eq_true_2.
  - apply unseal_seal.
  - intros key nonce aad text. change (Zlen (seal key nonce aad text) = Zlen text + kGcmTagBytes). unfold seal.
    rewrite length_app, length_tag. unfold kGcmTagBytes. lia.
  - intros key nonce aad text plain. change (unseal key nonce aad text = Some plain -> Zlen text = Zlen plain + kGcmTagBytes).
    unfold unseal, kGcmTagBytes. destruct (Z.leb_spec 16 (Zlen text)); [|done]. cbn [andb]. case_match; [|done]. intros [= <-]. rewrite length_drop. lia.
  - intros b Hb. cbn. by rewrite decide_True.
  - done.
Qed.

#[export] Existing Instance ToyCrypto.hashes.
#[export] Existing Instance ToyCrypto.hashes_laws.
#[export] Existing Instance ToyCrypto.ctr.

Lemma sample_ready : library_ready.
Proof. by split. Qed.
End SampleDiscv5.

Import SampleDiscv5.

Lemma packet_roundtrip_witness :
  exists packet header,
    encode_packet (Some (replicate 16 x01)) kFlagMessage (replicate 12 x02) (replicate 32 x03) [x04; x05] (replicate 32 x06) = success (packet, header) /\
    Zlen packet = Zlen header + 2 /\
    decode_packet packet (replicate 32 x06) = success (mkPacketView kFlagMessage (replicate 12 x02) 32 header (replicate 32 x03) [x04; x05]).
Proof.
  apply (packet_roundtrip (replicate 16 x01) kFlagMessage (replicate 12 x02) (replicate 32 x03) [x04; x05] (replicate 32 x06));
    [exact sample_ready|by vm_compute|done|done|by vm_compute|by vm_compute].
Defined.
