(* ===== verification/Discv5Client.v ===== *)
(** * The discv5 client

    [discv5_client] ([src/discv5/discv5_client.cpp],
    [include/discv5/discv5_client.hpp]): sessions, requests waiting for a challenge
    and challenges sent, all keyed by the text of a UDP endpoint; the handlers of
    the three kinds of packet; the coroutines that send; the receive and the
    crawler loop; start and stop.

    The class runs on one [io_context].  A member function is a computation on the
    client.  [asio::spawn] appends to [spawned_]; a coroutine that reached
    [async_send_to] waits in [sending_] for the result of the send; the loops wait
    in [receive_loops_] and [crawler_loops_].  An [event] resumes one of them, and a
    run is any sequence of events.  [RAND_bytes] reads the supply [random_]: [None]
    is a call that fails, and a draw is cut or padded to the size asked for. *)

From S2P Require Import Prelude RlpSpec RlpCommon RlpDecoder DecodeLogic ParseUtility Base64Url FrameCipher RlpxCrypto.
From S2P Require Import Enr Discv5Crawler Discv5Packets.

(** The fields of [discv5Config] that the client reads itself. *)
Record ClientConfig := mkClientConfig {
  crawler_config : discv5Config;
  bind_ip : text;
  bind_port : Z;
  config_tcp_port : Z;
  config_private_key : list byte;
  config_public_key : list byte;
  max_concurrent_queries : Z;
  query_interval_sec : Z
}.

Record SessionState := mkSession {
  write_key : list byte;
  read_key : list byte;
  session_node_addr : list byte;
  session_node_id : list byte;
  last_req_id : list byte
}.

Record PendingRequest := mkPending {
  pending_peer : ValidatedPeer;
  pending_req_id : list byte;
  pending_nonce : list byte;
  pending_challenge : list byte;
  pending_id_nonce : list byte;
  pending_record_seq : Z;
  have_challenge : bool
}.

Record ChallengeState := mkChallenge {
  challenge_node_addr : list byte;
  challenge_data : list byte;
  challenge_nonce : list byte;
  challenge_id_nonce : list byte;
  challenge_record_seq : Z
}.

(** The atomic counters. *)
Inductive client_counter :=
  | received_packets | dropped_undersized_packets | send_findnode_failures | whoareyou_packets | handshake_packets
  | outbound_handshake_attempts | outbound_handshake_failures | inbound_handshake_reject_auth
  | inbound_handshake_reject_challenge | inbound_handshake_reject_record | inbound_handshake_reject_crypto
  | inbound_handshake_reject_decrypt | inbound_handshake_seen | inbound_message_seen | inbound_message_decrypt_fail
  | nodes_packets.

#[global] Instance client_counter_eq_dec : EqDecision client_counter.
Proof. solve_decision. Defined.

(** The coroutine that calls [send_findnode]: of the crawler loop, or of a challenge. *)
Inductive query_origin := FromCrawler | FromChallenge.

(** What is handed to [asio::spawn]. *)
Inductive task :=
  | ReceiveLoopTask
  | CrawlerLoopTask
  | FindNodeTask (origin : query_origin) (peer : ValidatedPeer)
  | WhoareyouTask (sender : endpoint) (remote_node_addr nonce : list byte)
  | FindNodeRequestTask (req_id : list byte) (sender : endpoint).

(** A coroutine inside [async_send_to]. *)
Inductive awaiting :=
  | AwaitFindNode (origin : query_origin) (peer : ValidatedPeer) (handshake : bool)
  | AwaitReply.

Record discv5_client := mkClient {
  client_config_ : ClientConfig;
  (** The port the socket is bound to; [None] when it is closed. *)
  socket_ : option Z;
  crawler_ : discv5_crawler;
  sessions_ : gmap text SessionState;
  pending_requests_ : gmap text PendingRequest;
  sent_challenges_ : gmap text ChallengeState;
  client_running_ : bool;
  counter_ : client_counter -> Z;
  receive_loops_ : nat;
  crawler_loops_ : nat;
  spawned_ : list task;
  sending_ : list awaiting;
  sent_ : list (endpoint * list byte);
  random_ : list (option (list byte))
}.

Notation Client := (M discv5_client discv5Error).

Definition update (f : discv5_client -> discv5_client) : Client unit := fun c => (success tt, f c).

Definition with_config (v : ClientConfig) (c : discv5_client) : discv5_client :=
  mkClient v (socket_ c) (crawler_ c) (sessions_ c) (pending_requests_ c) (sent_challenges_ c) (client_running_ c) (counter_ c)
    (receive_loops_ c) (crawler_loops_ c) (spawned_ c) (sending_ c) (sent_ c) (random_ c).
Definition with_socket (v : option Z) (c : discv5_client) : discv5_client :=
  mkClient (client_config_ c) v (crawler_ c) (sessions_ c) (pending_requests_ c) (sent_challenges_ c) (client_running_ c) (counter_ c)
    (receive_loops_ c) (crawler_loops_ c) (spawned_ c) (sending_ c) (sent_ c) (random_ c).
Definition with_crawler (v : discv5_crawler) (c : discv5_client) : discv5_client :=
  mkClient (client_config_ c) (socket_ c) v (sessions_ c) (pending_requests_ c) (sent_challenges_ c) (client_running_ c) (counter_ c)
    (receive_loops_ c) (crawler_loops_ c) (spawned_ c) (sending_ c) (sent_ c) (random_ c).
Definition with_sessions (f : gmap text SessionState -> gmap text SessionState) (c : discv5_client) : discv5_client :=
  mkClient (client_config_ c) (socket_ c) (crawler_ c) (f (sessions_ c)) (pending_requests_ c) (sent_challenges_ c) (client_running_ c) (counter_ c)
    (receive_loops_ c) (crawler_loops_ c) (spawned_ c) (sending_ c) (sent_ c) (random_ c).
Definition with_pending (f : gmap text PendingRequest -> gmap text PendingRequest) (c : discv5_client) : discv5_client :=
  mkClient (client_config_ c) (socket_ c) (crawler_ c) (sessions_ c) (f (pending_requests_ c)) (sent_challenges_ c) (client_running_ c) (counter_ c)
    (receive_loops_ c) (crawler_loops_ c) (spawned_ c) (sending_ c) (sent_ c) (random_ c).
Definition with_challenges (f : gmap text ChallengeState -> gmap text ChallengeState) (c : discv5_client) : discv5_client :=
  mkClient (client_config_ c) (socket_ c) (crawler_ c) (sessions_ c) (pending_requests_ c) (f (sent_challenges_ c)) (client_running_ c) (counter_ c)
    (receive_loops_ c) (crawler_loops_ c) (spawned_ c) (sending_ c) (sent_ c) (random_ c).
Definition with_running (v : bool) (c : discv5_client) : discv5_client :=
  mkClient (client_config_ c) (socket_ c) (crawler_ c) (sessions_ c) (pending_requests_ c) (sent_challenges_ c) v (counter_ c)
    (receive_loops_ c) (crawler_loops_ c) (spawned_ c) (sending_ c) (sent_ c) (random_ c).
Definition with_counter (v : client_counter -> Z) (c : discv5_client) : discv5_client :=
  mkClient (client_config_ c) (socket_ c) (crawler_ c) (sessions_ c) (pending_requests_ c) (sent_challenges_ c) (client_running_ c) v
    (receive_loops_ c) (crawler_loops_ c) (spawned_ c) (sending_ c) (sent_ c) (random_ c).
Definition with_loops (receive crawl : nat) (c : discv5_client) : discv5_client :=
  mkClient (client_config_ c) (socket_ c) (crawler_ c) (sessions_ c) (pending_requests_ c) (sent_challenges_ c) (client_running_ c) (counter_ c)
    receive crawl (spawned_ c) (sending_ c) (sent_ c) (random_ c).
Definition with_spawned (v : list task) (c : discv5_client) : discv5_client :=
  mkClient (client_config_ c) (socket_ c) (crawler_ c) (sessions_ c) (pending_requests_ c) (sent_challenges_ c) (client_running_ c) (counter_ c)
    (receive_loops_ c) (crawler_loops_ c) v (sending_ c) (sent_ c) (random_ c).
Definition with_sending (v : list awaiting) (c : discv5_client) : discv5_client :=
  mkClient (client_config_ c) (socket_ c) (crawler_ c) (sessions_ c) (pending_requests_ c) (sent_challenges_ c) (client_running_ c) (counter_ c)
    (receive_loops_ c) (crawler_loops_ c) (spawned_ c) v (sent_ c) (random_ c).
Definition with_sent (v : list (endpoint * list byte)) (c : discv5_client) : discv5_client :=
  mkClient (client_config_ c) (socket_ c) (crawler_ c) (sessions_ c) (pending_requests_ c) (sent_challenges_ c) (client_running_ c) (counter_ c)
    (receive_loops_ c) (crawler_loops_ c) (spawned_ c) (sending_ c) v (random_ c).
Definition with_random (v : list (option (list byte))) (c : discv5_client) : discv5_client :=
  mkClient (client_config_ c) (socket_ c) (crawler_ c) (sessions_ c) (pending_requests_ c) (sent_challenges_ c) (client_running_ c) (counter_ c)
    (receive_loops_ c) (crawler_loops_ c) (spawned_ c) (sending_ c) (sent_ c) v.

(** [++counter_;]. *)
Definition count (k : client_counter) : Client unit := update (fun c =>
  with_counter (fun k' => if decide (k' = k) then u64 (counter_ c k + 1) else counter_ c k') c).

Definition spawn (t : task) : Client unit := update (fun c => with_spawned (spawned_ c ++ [t]) c).

(** A call of the crawler: its result, with the crawler it leaves. *)
Definition on_crawler {A} (m : Crawl A) : Client A := fun c => let '(r, crawler) := m (crawler_ c) in (r, with_crawler crawler c).

(** [if (!result) { onfail; return; } k(result.value());]. *)
Definition on_result {A} (r : outcome discv5Error A) (onfail : Client unit) (k : A -> Client unit) : Client unit :=
  match r with success a => k a | failure _ => onfail | crash f => crash_with f end.

(** One call of [RAND_bytes]; a supply that has run out never returns. *)
Definition draw (size : Z) : Client (option (list byte)) := fun c =>
  match random_ c with
  | [] => (crash Diverge, c)
  | d :: rest => (success (resize (Z.to_nat size) x00 <$> d), with_random rest c)
  end.

(** [random_bytes] where the caller returns [kNetworkSendFailed]. *)
Definition random_bytes (size : Z) : Client (list byte) :=
  d ← draw size;
  match d with Some bytes => mret bytes | None => fail kNetworkSendFailed end.

(** [socket_.async_send_to]: the packet leaves unless the socket is closed, and the
    coroutine waits. *)
Definition async_send_to (packet : list byte) (destination : endpoint) (resume : awaiting) : Client unit := update (fun c =>
  with_sending (sending_ c ++ [resume])
    (if socket_ c then with_sent (sent_ c ++ [(destination, packet)]) c else c)).

Section client.
Context `{Discv5Primitives} `{Hashes} `{CtrCiphers}.

(** The constructor binds the socket; [port] is what the system bound. *)
Definition discv5_client_new (config : ClientConfig) (port : Z) (supply : list (option (list byte))) : discv5_client :=
  mkClient config (Some port) (discv5_crawler_new (crawler_config config)) ∅ ∅ ∅ false (fun _ => 0) 0 0 [] [] [] supply.

Definition local_node_addr (c : discv5_client) : list byte := derive_node_address (config_public_key (client_config_ c)).

Definition encode (flag : Z) (nonce auth_data msg_data destination : list byte) : Client (list byte * list byte) :=
  iv ← draw kMaskingIvBytes;
  lift (encode_packet iv flag nonce auth_data msg_data destination).

(** ** Sending *)

Definition send_packet (packet : list byte) (peer : ValidatedPeer) (resume : awaiting) : Client unit :=
  match make_address (peer_ip peer) with
  | None => fail kNetworkSendFailed
  | Some address => async_send_to packet (mkEndpoint address (peer_udp_port peer)) resume
  end.

Definition build_local_enr : Client (list byte) :=
  c ← get_state;
  match socket_ c with
  | None => fail kNetworkSendFailed
  | Some port =>
      let config := client_config_ c in
      lift (make_local_enr_record (config_public_key config) (config_private_key config) (bind_ip config) (config_tcp_port config) port)
  end.

(** The request id: the two ports of the peer. *)
Definition make_req_id (peer : ValidatedPeer) : list byte :=
  [byte_of (Z.land (Z.shiftr (peer_udp_port peer) 8) 0xFF); byte_of (Z.land (peer_udp_port peer) 0xFF);
   byte_of (Z.land (Z.shiftr (peer_tcp_port peer) 8) 0xFF); byte_of (Z.land (peer_tcp_port peer) 0xFF)].

(** [Ecdh::generate_ephemeral_keypair] on the supply: the draws it makes are gone. *)
Fixpoint draws_used (draws : list (option (list byte))) : nat :=
  match draws with
  | [] => O
  | None :: _ => 1
  | Some k :: rest => if seckey_verify k then 1 else S (draws_used rest)
  end.

Definition ephemeral_keypair : Client KeyPair := fun c =>
  let draws := (fun d : option (list byte) => resize (Z.to_nat kPrivateKeyBytes) x00 <$> d) <$> random_ c in
  (or_error (generate_ephemeral_keypair draws) kContextCreationFailed, with_random (drop (draws_used draws) (random_ c)) c).

(** [send_findnode] with a session: an encrypted message to the peer. *)
Definition send_in_session (origin : query_origin) (peer : ValidatedPeer) (key : text) (session : SessionState) : Client unit :=
  c ← get_state;
  let req_id := make_req_id peer in
  plaintext ← lift (make_findnode_plaintext req_id);
  nonce ← random_bytes kGcmNonceBytes;
  p ← encode kFlagMessage nonce (make_message_auth_data (local_node_addr c)) [] (derive_node_address (peer_node_id peer));
  let '(packet, header_data) := p in
  encrypted_msg ← lift (encrypt_gcm (write_key session) nonce plaintext header_data);
  update (with_sessions <[key :=
    mkSession (write_key session) (read_key session) (session_node_addr session) (session_node_id session) req_id]>) ;;
  send_packet (packet ++ encrypted_msg) peer (AwaitFindNode origin peer false).

(** Without a session and without a challenge: a packet of random bytes that asks for one. *)
Definition send_random_packet (origin : query_origin) (peer : ValidatedPeer) (key : text) : Client unit :=
  c ← get_state;
  request_nonce ← random_bytes kGcmNonceBytes;
  update (with_pending <[key := mkPending peer (make_req_id peer) request_nonce [] (zero_array kWhoareyouIdNonceBytes) 0 false]>) ;;
  random_msg ← random_bytes kRandomMessageCiphertextBytes;
  iv ← draw kMaskingIvBytes;
  match encode_packet iv kFlagMessage request_nonce (make_message_auth_data (local_node_addr c)) random_msg
          (derive_node_address (peer_node_id peer)) with
  | failure e => update (with_pending (delete key)) ;; fail e
  | crash f => crash_with f
  | success (packet, _) => send_packet packet peer (AwaitFindNode origin peer false)
  end.

(** Every failing step of the handshake is counted. *)
Definition counting_failures {A} (m : Client A) : Client A := fun c =>
  match m c with
  | (failure e, c') => (failure e, (count outbound_handshake_failures c').2)
  | r => r
  end.

(** With a challenge: the handshake packet, and the session it opens. *)
Definition send_handshake (origin : query_origin) (peer : ValidatedPeer) (key : text) (pending : PendingRequest) : Client unit :=
  c ← get_state;
  let local := local_node_addr c in
  let remote_node_addr := derive_node_address (peer_node_id peer) in
  eph ← ephemeral_keypair;
  eph_compressed ← lift (compress_public_key (public_key eph));
  signature ← lift (make_id_signature (config_private_key (client_config_ c)) (pending_challenge pending) eph_compressed remote_node_addr);
  local_enr_record ← (if pending_record_seq pending <? kInitialEnrSeq then build_local_enr else mret []);
  shared ← lift (shared_secret_from_uncompressed_pubkey (peer_node_id (pending_peer pending)) (private_key eph));
  keys ← lift (derive_session_keys shared (pending_challenge pending) local remote_node_addr);
  let auth_data := local ++ [byte_of (Zlen signature)] ++ [byte_of (Zlen eph_compressed)] ++ signature ++ eph_compressed ++ local_enr_record in
  plaintext ← lift (make_findnode_plaintext (pending_req_id pending));
  nonce ← random_bytes kGcmNonceBytes;
  p ← encode kFlagHandshake nonce auth_data [] remote_node_addr;
  let '(packet, header_data) := p in
  encrypted ← lift (encrypt_gcm keys.1 nonce plaintext header_data);
  update (with_sessions <[key :=
    mkSession keys.1 keys.2 remote_node_addr (peer_node_id (pending_peer pending)) (pending_req_id pending)]>) ;;
  update (with_pending (delete key)) ;;
  send_packet (packet ++ encrypted) peer (AwaitFindNode origin peer true).

(** [send_findnode] up to its last [async_send_to]; [origin] is the coroutine it is
    called from. *)
Definition send_findnode (origin : query_origin) (peer : ValidatedPeer) : Client unit :=
  c ← get_state;
  let key := endpoint_key (peer_ip peer) (peer_udp_port peer) in
  match sessions_ c !! key with
  | Some session => send_in_session origin peer key session
  | None =>
      match pending_requests_ c !! key with
      | Some pending =>
          if have_challenge pending then
            count outbound_handshake_attempts ;; counting_failures (send_handshake origin peer key pending)
          else
            update (with_pending (delete key)) ;; send_random_packet origin peer key
      | None => send_random_packet origin peer key
      end
  end.

Definition send_whoareyou (sender : endpoint) (remote_node_addr request_nonce : list byte) : Client unit :=
  id_nonce ← random_bytes kWhoareyouIdNonceBytes;
  let auth_data := append_u64_be id_nonce 0 in
  p ← encode kFlagWhoareyou request_nonce auth_data [] remote_node_addr;
  let '(packet, challenge_data) := p in
  update (with_challenges <[endpoint_key_of sender := mkChallenge remote_node_addr challenge_data request_nonce id_nonce 0]>) ;;
  async_send_to packet sender AwaitReply.

Definition handle_findnode_request (req_id : list byte) (sender : endpoint) : Client unit :=
  c ← get_state;
  match sessions_ c !! endpoint_key_of sender with
  | None => fail kNetworkSendFailed
  | Some session =>
      enr ← build_local_enr;
      plaintext ← lift (make_nodes_plaintext req_id enr);
      nonce ← random_bytes kGcmNonceBytes;
      p ← encode kFlagMessage nonce (make_message_auth_data (local_node_addr c)) [] (session_node_addr session);
      let '(packet, header_data) := p in
      encrypted ← lift (encrypt_gcm (write_key session) nonce plaintext header_data);
      let peer := mkValidatedPeer (session_node_id session) (address_to_string (ep_address sender)) (ep_port sender) (ep_port sender) 0 None in
      send_packet (packet ++ encrypted) peer AwaitReply
  end.

(** ** Receiving *)

Definition handle_whoareyou (packet : PacketView) (key : text) : Client unit :=
  if negb (auth_size packet =? kWhoareyouAuthDataBytes) then mret tt else
  c ← get_state;
  match pending_requests_ c !! key with
  | None => mret tt
  | Some pending =>
      if negb (bool_decide (pending_nonce pending = nonce packet)) then mret tt else
      id_nonce ← lift (bytes_at (auth_data packet) 0 kWhoareyouIdNonceBytes);
      record_seq ← lift (read_u64_be (drop (Z.to_nat kWhoareyouIdNonceBytes) (auth_data packet)));
      update (with_pending <[key :=
        mkPending (pending_peer pending) (pending_req_id pending) (pending_nonce pending) (header_data packet) id_nonce record_seq true]>) ;;
      count whoareyou_packets ;;
      spawn (FindNodeTask FromChallenge (pending_peer pending))
  end.

(** The body of a decrypted message. *)
Definition handle_plaintext (plaintext : list byte) (session : SessionState) (sender : endpoint) (now : Z) : Client unit :=
  match plaintext with
  | [] => mret tt
  | msg_type :: body =>
      if decide (msg_type = kMsgNodes) then
        on_result (parse_nodes_message body now) (mret tt) (fun nodes =>
          if negb (bool_decide (last_req_id session = [])) && negb (bool_decide (nodes.1 = last_req_id session)) then mret tt
          else
            count nodes_packets ;;
            on_crawler (mark_measured (session_node_id session)) ;;
            on_crawler (ingest_discovered_peers nodes.2))
      else if decide (msg_type = kMsgFindNode) then
        on_result (parse_findnode_req_id body) (mret tt) (fun req_id => spawn (FindNodeRequestTask req_id sender))
      else mret tt
  end.

Definition handle_message (packet : PacketView) (sender : endpoint) (key : text) (now : Z) : Client unit :=
  count inbound_message_seen ;;
  if negb (auth_size packet =? kMessageAuthDataBytes) then mret tt else
  remote_node_addr ← lift (bytes_at (auth_data packet) 0 kKeccak256Bytes);
  c ← get_state;
  match sessions_ c !! key with
  | Some session =>
      if decide (session_node_addr session = remote_node_addr) then
        on_result (decrypt_gcm (read_key session) (nonce packet) (msg_data packet) (header_data packet))
          (count inbound_message_decrypt_fail ;; spawn (WhoareyouTask sender remote_node_addr (nonce packet)))
          (fun plaintext => handle_plaintext plaintext session sender now)
      else spawn (WhoareyouTask sender remote_node_addr (nonce packet))
  | None => spawn (WhoareyouTask sender remote_node_addr (nonce packet))
  end.

(** What follows once the session of a handshake is in place. *)
Definition handshake_message (packet : PacketView) (sender : endpoint) (key : text) (session : SessionState) : Client unit :=
  on_result (decrypt_gcm (read_key session) (nonce packet) (msg_data packet) (header_data packet))
    (update (with_sessions (delete key)) ;; count inbound_handshake_reject_decrypt)
    (fun plaintext =>
      count handshake_packets ;;
      update (with_challenges (delete key)) ;;
      match plaintext with
      | [] => mret tt
      | msg_type :: body =>
          if decide (msg_type = kMsgFindNode) then
            on_result (parse_findnode_req_id body) (mret tt) (fun req_id =>
              update (with_sessions <[key :=
                mkSession (write_key session) (read_key session) (session_node_addr session) (session_node_id session) req_id]>) ;;
              spawn (FindNodeRequestTask req_id sender))
          else mret tt
      end).

Definition handle_handshake (packet : PacketView) (sender : endpoint) (key : text) : Client unit :=
  count inbound_handshake_seen ;;
  on_result (parse_handshake_auth (auth_data packet)) (count inbound_handshake_reject_auth) (fun auth =>
  c ← get_state;
  match sent_challenges_ c !! key with
  | None => count inbound_handshake_reject_challenge
  | Some challenge =>
      if negb (bool_decide (src_id auth = challenge_node_addr challenge)) then count inbound_handshake_reject_challenge
      else if bool_decide (record auth = []) then count inbound_handshake_reject_record
      else
      on_result (decode_rlp (record auth)) (count inbound_handshake_reject_record) (fun r =>
      on_result (verify_signature r) (count inbound_handshake_reject_record) (fun r =>
      if negb (bool_decide (derive_node_address (node_id r) = src_id auth)) then count inbound_handshake_reject_record
      else
      let local_id := local_node_addr c in
      if negb (verify_id_signature (node_id r) (signature auth) (challenge_data challenge) (pubkey auth) local_id)
      then count inbound_handshake_reject_record
      else
      on_result (shared_secret_from_compressed_pubkey (pubkey auth) (config_private_key (client_config_ c)))
        (count inbound_handshake_reject_crypto) (fun shared =>
      on_result (derive_session_keys shared (challenge_data challenge) (src_id auth) local_id)
        (count inbound_handshake_reject_crypto) (fun keys =>
      let session := mkSession keys.2 keys.1 (src_id auth) (node_id r) [] in
      update (with_sessions <[key := session]>) ;;
      handshake_message packet sender key session))))
  end).

Definition handle_packet (data : list byte) (sender : endpoint) (now : Z) : Client unit :=
  c ← get_state;
  on_result (decode_packet data (local_node_addr c)) (mret tt) (fun packet =>
  let key := endpoint_key_of sender in
  if flag packet =? kFlagWhoareyou then handle_whoareyou packet key
  else if flag packet =? kFlagMessage then handle_message packet sender key now
  else if flag packet =? kFlagHandshake then handle_handshake packet sender key
  else mret tt).

(** ** Coroutines *)

(** [receive_loop] after a datagram: the buffer holds its first [kMaxPacketBytes] bytes. *)
Definition on_datagram (datagram : list byte) (sender : endpoint) (now : Z) : Client unit :=
  let received := take (Z.to_nat kMaxPacketBytes) datagram in
  if Zlen received <? kMinPacketBytes then count dropped_undersized_packets
  else count received_packets ;; handle_packet received sender now.

(** The loop of [crawler_loop] over [dequeue_next]; [n] is what is left of the limit. *)
Fixpoint issue_queries (n : nat) : Client unit :=
  match n with
  | O => mret tt
  | S n' =>
      next ← on_crawler dequeue_next;
      match next with
      | None => mret tt
      | Some peer => spawn (FindNodeTask FromCrawler peer) ;; issue_queries n'
      end
  end.

(** One pass of [crawler_loop], from its condition to the timer. *)
Definition crawler_pass : Client unit :=
  c ← get_state;
  if client_running_ c then
    issue_queries (Z.to_nat (max_concurrent_queries (client_config_ c))) ;;
    update (fun c => with_loops (receive_loops_ c) (S (crawler_loops_ c)) c)
  else mret tt.

(** The lambdas around [send_findnode] when it returns an error. *)
Definition findnode_failed (peer : ValidatedPeer) : Client unit :=
  count send_findnode_failures ;; on_crawler (mark_failed (peer_node_id peer)).

(** A coroutine that ignores the result of what it runs. *)
Definition ignoring (m : Client unit) : Client unit := fun c =>
  match m c with (failure _, c') => (success tt, c') | r => r end.

Definition run_task (t : task) : Client unit :=
  match t with
  | ReceiveLoopTask =>
      c ← get_state;
      if client_running_ c then update (fun c => with_loops (S (receive_loops_ c)) (crawler_loops_ c) c) else mret tt
  | CrawlerLoopTask => crawler_pass
  | FindNodeTask origin peer => fun c =>
      match send_findnode origin peer c with (failure _, c') => findnode_failed peer c' | r => r end
  | WhoareyouTask sender remote_node_addr nonce => ignoring (send_whoareyou sender remote_node_addr nonce)
  | FindNodeRequestTask req_id sender => ignoring (handle_findnode_request req_id sender)
  end.

(** A send completes; [ok] is [!ec]. *)
Definition send_done (w : awaiting) (ok : bool) : Client unit :=
  match w with
  | AwaitReply => mret tt
  | AwaitFindNode origin peer handshake =>
      if ok then
        match origin with FromCrawler => on_crawler (mark_measured (peer_node_id peer)) | FromChallenge => mret tt end
      else
        (if handshake then count outbound_handshake_failures else mret tt) ;; findnode_failed peer
  end.

(** ** The public interface *)

(** [add_bootnode] appends to the client's copy of the configuration. *)
Definition add_bootnode (enr_uri : text) : Client unit := update (fun c =>
  let config := client_config_ c in
  let base := crawler_config config in
  with_config
    (mkClientConfig (mkDiscv5Config (bootstrap_enrs base ++ [enr_uri]) (required_fork_id base)) (bind_ip config) (bind_port config)
       (config_tcp_port config) (config_private_key config) (config_public_key config) (max_concurrent_queries config)
       (query_interval_sec config)) c).

Definition client_set_peer_callback (callback : bool) : Client unit := on_crawler (set_peer_discovered_callback callback).
Definition client_set_error_callback (callback : bool) : Client unit := on_crawler (set_error_callback callback).

Definition client_start (now : Z) : Client unit :=
  c ← get_state;
  update (with_running true) ;;
  if client_running_ c then mret tt else
  spawn ReceiveLoopTask ;;
  spawn CrawlerLoopTask ;;
  ignoring (on_crawler (start now)).

Definition client_stop : Client unit :=
  c ← get_state;
  update (with_running false) ;;
  if negb (client_running_ c) then mret tt else
  update (with_socket None) ;;
  ignoring (on_crawler stop).

Definition client_stats (c : discv5_client) : CrawlerStats := stats (crawler_ c).
Definition local_node_id (c : discv5_client) : list byte := config_public_key (client_config_ c).
Definition client_is_running (c : discv5_client) : bool := client_running_ c.
Definition bound_port (c : discv5_client) : Z := default 0 (socket_ c).
Definition packet_count (k : client_counter) (c : discv5_client) : Z := counter_ c k.

(** ** Runs *)

Inductive event :=
  | EvStart (now : Z)
  | EvStop
  | EvAddBootnode (uri : text)
  | EvCallbacks (peer error : bool)
  | EvTask (i : nat)
  | EvDatagram (datagram : list byte) (sender : endpoint) (now : Z)
  | EvReceiveError
  | EvTimer
  | EvSent (i : nat) (ok : bool).

Definition run_event (e : event) : Client unit :=
  c ← get_state;
  match e with
  | EvStart now => client_start now
  | EvStop => client_stop
  | EvAddBootnode uri => add_bootnode uri
  | EvCallbacks peer error => client_set_peer_callback peer ;; client_set_error_callback error
  | EvTask i =>
      match spawned_ c !! i with
      | None => mret tt
      | Some t => update (fun c => with_spawned (delete i (spawned_ c)) c) ;; run_task t
      end
  | EvDatagram datagram sender now =>
      match receive_loops_ c, socket_ c with
      | S _, Some _ => on_datagram datagram sender now
      | _, _ => mret tt
      end
  | EvReceiveError =>
      match receive_loops_ c with
      | S n => if client_running_ c then mret tt else update (with_loops n (crawler_loops_ c))
      | O => mret tt
      end
  | EvTimer =>
      match crawler_loops_ c with
      | S n => update (with_loops (receive_loops_ c) n) ;; crawler_pass
      | O => mret tt
      end
  | EvSent i ok =>
      match sending_ c !! i with
      | None => mret tt
      | Some w => update (fun c => with_sending (delete i (sending_ c)) c) ;; send_done w ok
      end
  end.

(** A run ends early only when a step faults. *)
Definition run_client (events : list event) : Client unit := for_each run_event events.
End client.

(** ** Computing with the client *)

Lemma get_then {B} (k : discv5_client -> Client B) c : (get_state ≫= k) c = k c c.
Proof. done. Qed.

Lemma update_then {B} f (k : Client B) c : (update f ;; k) c = k (f c).
Proof. done. Qed.

Lemma lift_then {A B} (a : A) (k : A -> Client B) c : (lift (success a) ≫= k) c = k a c.
Proof. done. Qed.

Lemma assoc_then {A B C} (m : Client A) (f : A -> Client B) (k : B -> Client C) c : ((m ≫= f) ≫= k) c = (m ≫= (fun a => f a ≫= k)) c.
Proof. unfold mbind, M_bind. by destruct (m c) as [[]]. Qed.

(** What a call for [n] bytes makes of a draw. *)
Definition drawn (n : Z) (d : list byte) : list byte := resize (Z.to_nat n) x00 d.

Lemma length_drawn n d : 0 <= n -> Zlen (drawn n d) = n.
Proof. intros. unfold drawn. rewrite length_resize. lia. Qed.

Lemma draw_then {B} n d rest (k : option (list byte) -> Client B) c :
  random_ c = Some d :: rest -> (draw n ≫= k) c = k (Some (drawn n d)) (with_random rest c).
Proof. intros E. unfold draw, mbind, M_bind. by rewrite E. Qed.

Lemma random_then {B} n d rest (k : list byte -> Client B) c :
  random_ c = Some d :: rest -> (random_bytes n ≫= k) c = k (drawn n d) (with_random rest c).
Proof. intros E. unfold random_bytes. rewrite assoc_then. by rewrite (draw_then n d rest) by done. Qed.

Section exchange.
Context `{Discv5Primitives} `{Hashes} `{CtrCiphers}.

Lemma encode_then {B} flag nonce auth msg dest iv rest (k : list byte * list byte -> Client B) c :
  library_ready -> kMaskingIvBytes <= Zlen dest -> in_width 16 (Zlen auth) -> random_ c = Some iv :: rest ->
  let iv := drawn kMaskingIvBytes iv in
  (encode flag nonce auth msg dest ≫= k) c =
    k (packet_wire iv flag nonce auth msg dest, iv ++ static_header flag nonce (Zlen auth) ++ auth) (with_random rest c).
Proof.
  intros Hlib Hd Ha E iv0. unfold encode. rewrite assoc_then. rewrite (draw_then _ _ _ _ _ E).
  by rewrite (encode_packet_eq _ _ _ _ _ _ Hlib Hd Ha).
Qed.

Lemma packet_wire_app iv flag nonce auth dest msg :
  packet_wire iv flag nonce auth [] dest ++ msg = packet_wire iv flag nonce auth msg dest.
Proof. unfold packet_wire. by rewrite app_nil_r, <- !app_assoc. Qed.

Lemma length_packet_wire iv flag nonce auth msg dest : Zlen iv = kMaskingIvBytes -> Zlen nonce = kGcmNonceBytes ->
  Zlen (packet_wire iv flag nonce auth msg dest) = kStaticPacketBytes + Zlen auth + Zlen msg.
Proof.
  intros Hi Hn. unfold packet_wire. rewrite !length_app, length_ctr_stream, length_app. unfold kStaticPacketBytes.
  pose proof (length_static_header flag nonce (Zlen auth) Hn). lia.
Qed.

(** A client after a send of its own. *)
Definition sending (w : awaiting) (dest : endpoint) (packet : list byte) (c : discv5_client) : discv5_client :=
  with_sending (sending_ c ++ [w]) (with_sent (sent_ c ++ [(dest, packet)]) c).

Lemma async_send_open packet dest w c port : socket_ c = Some port -> async_send_to packet dest w c = (success tt, sending w dest packet c).
Proof. intros E. unfold async_send_to, update. by rewrite E. Qed.

Lemma send_packet_open packet peer w c port address :
  make_address (peer_ip peer) = Some address -> socket_ c = Some port ->
  send_packet packet peer w c = (success tt, sending w (mkEndpoint address (peer_udp_port peer)) packet c).
Proof. intros Ea Es. unfold send_packet. rewrite Ea. by eapply async_send_open. Qed.

Definition spawning (t : task) (c : discv5_client) : discv5_client := with_spawned (spawned_ c ++ [t]) c.
Definition counting (k : client_counter) (c : discv5_client) : discv5_client :=
  with_counter (fun k' => if decide (k' = k) then u64 (counter_ c k + 1) else counter_ c k') c.

Lemma count_then {B} k (m : Client B) c : (count k ;; m) c = m (counting k c).
Proof. done. Qed.

(** The handlers behind [decode_packet]. *)
Definition dispatch (packet : PacketView) (sender : endpoint) (now : Z) : Client unit :=
  let key := endpoint_key_of sender in
  if flag packet =? kFlagWhoareyou then handle_whoareyou packet key
  else if flag packet =? kFlagMessage then handle_message packet sender key now
  else if flag packet =? kFlagHandshake then handle_handshake packet sender key
  else mret tt.

Context `{!Discv5Laws} `{!HashesLaws}.

Lemma length_node_address pub : Zlen (derive_node_address pub) = 32.
Proof. unfold derive_node_address. by rewrite length_keccak256. Qed.

(** A well-formed packet for this node is taken apart and handled. *)
Lemma on_datagram_wire iv flag nonce auth msg sender now c :
  library_ready -> Zlen iv = kMaskingIvBytes -> Zlen nonce = kGcmNonceBytes -> in_width 8 flag -> in_width 16 (Zlen auth) ->
  kMinPacketBytes <= kStaticPacketBytes + Zlen auth + Zlen msg <= kMaxPacketBytes ->
  on_datagram (packet_wire iv flag nonce auth msg (local_node_addr c)) sender now c =
    dispatch (mkPacketView flag nonce (Zlen auth) (iv ++ static_header flag nonce (Zlen auth) ++ auth) auth msg) sender now (counting received_packets c).
Proof.
  intros Hlib Hi Hn Hf Ha Hs. unfold on_datagram. set (p := packet_wire _ _ _ _ _ _).
  assert (Zlen p = kStaticPacketBytes + Zlen auth + Zlen msg) as Hp by by apply length_packet_wire.
  rewrite take_ge by (unfold kMaxPacketBytes in *; lia). rewrite (proj2 (Z.ltb_ge _ _)) by lia.
  rewrite count_then. unfold handle_packet. rewrite get_then.
  change (local_node_addr (counting received_packets c)) with (local_node_addr c). unfold p.
  rewrite (decode_packet_wire _ _ _ _ _ _ Hlib) by (try done; unfold local_node_addr; rewrite length_node_address; unfold kMaskingIvBytes; lia).
  done.
Qed.

(** ** The packets of an exchange *)

Definition random_pending (peer : ValidatedPeer) (nonce : list byte) : PendingRequest :=
  mkPending peer (make_req_id peer) nonce [] (zero_array kWhoareyouIdNonceBytes) 0 false.

(** The request without a session. *)
Lemma random_packet_sent origin peer key c n m iv rest address port :
  library_ready -> random_ c = Some n :: Some m :: Some iv :: rest ->
  make_address (peer_ip peer) = Some address -> socket_ c = Some port ->
  let nonce := drawn kGcmNonceBytes n in
  send_random_packet origin peer key c =
    (success tt,
     sending (AwaitFindNode origin peer false) (mkEndpoint address (peer_udp_port peer))
       (packet_wire (drawn kMaskingIvBytes iv) kFlagMessage nonce (local_node_addr c) (drawn kRandomMessageCiphertextBytes m)
          (derive_node_address (peer_node_id peer)))
       (with_random rest (with_pending <[key := random_pending peer nonce]> c))).
Proof.
  intros Hlib E Ea Es nonce. unfold send_random_packet. rewrite get_then. rewrite (random_then _ _ _ _ _ E), update_then.
  rewrite (random_then _ m (Some iv :: rest)) by done. rewrite (draw_then _ iv rest) by done.
  rewrite encode_packet_eq; [|done| |]; unfold make_message_auth_data, local_node_addr.
  - by erewrite send_packet_open.
  - rewrite length_node_address. unfold kMaskingIvBytes. lia.
  - rewrite length_node_address. done.
Qed.

(** A message that no session reads is answered with a challenge. *)
Lemma unreadable_message_challenged packet sender key now c :
  auth_size packet = Zlen (auth_data packet) -> Zlen (auth_data packet) = kKeccak256Bytes ->
  (forall s, sessions_ c !! key = Some s -> session_node_addr s <> auth_data packet) ->
  handle_message packet sender key now c =
    (success tt, spawning (WhoareyouTask sender (auth_data packet) (nonce packet)) (counting inbound_message_seen c)).
Proof.
  intros Es Hl Hno. unfold handle_message. rewrite count_then, Es, Hl.
  change (kKeccak256Bytes =? kMessageAuthDataBytes) with true. cbn [negb].
  rewrite (bytes_at_mid (auth_data packet) [] (auth_data packet) []) by (rewrite ?app_nil_r; done).
  rewrite lift_then, get_then. change (sessions_ (counting inbound_message_seen c)) with (sessions_ c).
  destruct (sessions_ c !! key) as [s|] eqn:E; [|done]. rewrite decide_False by by apply Hno. done.
Qed.

Definition challenge_of (addr data nonce id_nonce : list byte) : ChallengeState := mkChallenge addr data nonce id_nonce 0.

Lemma whoareyou_sent sender addr nonce c idn iv rest port :
  library_ready -> Zlen addr = kKeccak256Bytes -> random_ c = Some idn :: Some iv :: rest -> socket_ c = Some port ->
  let id_nonce := drawn kWhoareyouIdNonceBytes idn in
  let auth := append_u64_be id_nonce 0 in
  let iv := drawn kMaskingIvBytes iv in
  let header := iv ++ static_header kFlagWhoareyou nonce (Zlen auth) ++ auth in
  send_whoareyou sender addr nonce c =
    (success tt,
     sending AwaitReply sender (packet_wire iv kFlagWhoareyou nonce auth [] addr)
       (with_challenges <[endpoint_key_of sender := challenge_of addr header nonce id_nonce]> (with_random rest c))).
Proof.
  intros Hlib Ha E Es id_nonce auth iv0 header. unfold send_whoareyou. rewrite (random_then _ _ _ _ _ E).
  fold id_nonce. fold auth. rewrite (encode_then _ _ _ _ _ iv rest); [|done|unfold kKeccak256Bytes, kMaskingIvBytes in *; lia| |done].
  - rewrite update_then. by eapply async_send_open.
  - unfold auth, append_u64_be. cbn [foldl]. rewrite !length_app. cbn [length]. unfold id_nonce, drawn. rewrite length_resize. done.
Qed.

Lemma append_u64_eq out v : append_u64_be out v = out ++ append_u64_be [] v.
Proof. unfold append_u64_be. cbn [foldl]. by rewrite <- !app_assoc. Qed.

Lemma length_whoareyou_auth id_nonce : Zlen id_nonce = kWhoareyouIdNonceBytes -> Zlen (append_u64_be id_nonce 0) = kWhoareyouAuthDataBytes.
Proof. intros Hi. rewrite append_u64_eq, length_app. unfold kWhoareyouAuthDataBytes. change (length (append_u64_be [] 0)) with 8%nat. lia. Qed.

(** The challenge to a request: it is kept, and the request is sent again. *)
Lemma challenge_taken packet key pending id_nonce c :
  pending_requests_ c !! key = Some pending -> pending_nonce pending = nonce packet ->
  Zlen id_nonce = kWhoareyouIdNonceBytes -> auth_data packet = append_u64_be id_nonce 0 -> auth_size packet = kWhoareyouAuthDataBytes ->
  handle_whoareyou packet key c =
    (success tt,
     spawning (FindNodeTask FromChallenge (pending_peer pending))
       (counting whoareyou_packets (with_pending <[key :=
          mkPending (pending_peer pending) (pending_req_id pending) (pending_nonce pending) (header_data packet) id_nonce 0 true]> c))).
Proof.
  intros Ep En Hi Ea Es. unfold handle_whoareyou. rewrite Es, Z.eqb_refl. cbn [negb]. rewrite get_then, Ep.
  rewrite bool_decide_eq_true_2 by done. cbn [negb]. rewrite Ea, append_u64_eq.
  rewrite (bytes_at_mid _ [] id_nonce (append_u64_be [] 0) 0 kWhoareyouIdNonceBytes), lift_then by done.
  rewrite drop_app_length' by (unfold kWhoareyouIdNonceBytes in *; lia).
  change (read_u64_be (append_u64_be [] 0)) with (success (E := discv5Error) 0). by rewrite lift_then, update_then.
Qed.

(** A node that can make its record. *)
Record node_ready (c : discv5_client) (port : Z) (address : ip_address) : Prop := {
  nr_keys : is_keypair (config_public_key (client_config_ c)) (config_private_key (client_config_ c));
  nr_socket : socket_ c = Some port;
  nr_port : 1 <= port < 2 ^ 16;
  nr_bind : make_address (bind_ip (client_config_ c)) = Some address;
  nr_ip : Zlen (advertised_ip address) = kIPv4Bytes;
  nr_tcp : in_width 16 (config_tcp_port (client_config_ c))
}.

Definition advertised_tcp (c : discv5_client) (port : Z) : Z :=
  if config_tcp_port (client_config_ c) =? 0 then port else config_tcp_port (client_config_ c).

Lemma local_enr_built c port address : library_ready -> node_ready c port address ->
  exists raw, build_local_enr c = (success raw, c) /\
    accepted_record raw (local_node_id c) (address_v4_to_string (advertised_ip address)) port (advertised_tcp c port).
Proof.
  intros Hlib [Hk Hs Hp Hb Hi Ht]. destruct (local_record_accepted _ _ _ _ _ _ Hlib Hk Hb Hi Hp Ht) as (raw & E & Ha).
  exists raw. split; [|done]. unfold build_local_enr. rewrite get_then, Hs, E. done.
Qed.

Lemma ephemeral_drawn c e rest : random_ c = Some e :: rest -> seckey_verify (drawn kPrivateKeyBytes e) = true ->
  exists kp, ephemeral_keypair c = (success kp, with_random rest c) /\ is_keypair (public_key kp) (private_key kp).
Proof.
  intros E Hv. unfold ephemeral_keypair. rewrite E. cbn [fmap list_fmap option_fmap option_map draws_used]. fold (drawn kPrivateKeyBytes e). rewrite Hv.
  set (draws := Some _ :: _). assert (exists kp, generate_ephemeral_keypair draws = success kp) as [kp Hkp].
  { unfold generate_ephemeral_keypair, draws. cbn [draw_private_key]. change (ec_seckey_verify ?k) with (seckey_verify k). rewrite Hv.
    cbn [mbind outcome_bind]. destruct (@create_valid discv5_curve _ _ Hv) as [p Hp]. rewrite Hp. by eexists. }
  exists kp. rewrite Hkp. split; [done|]. by apply (generate_keypair draws).
Qed.

(** What the responder, with its address and secret, needs of a handshake packet to open
    the same session. *)
Record handshake_facts (pub remote_addr remote_priv challenge sig eph w r : list byte) : Prop := {
  hf_sig : length sig = 64%nat;
  hf_eph : length eph = 33%nat;
  hf_verified : verify_id_signature pub sig challenge eph remote_addr = true;
  hf_keys : exists z, shared_secret_from_compressed_pubkey eph remote_priv = success z /\
    derive_session_keys z challenge (derive_node_address pub) remote_addr = success (w, r)
}.

(** The session of the initiator: the address is that of [peer], the identity and the
    request those of the pending request. *)
Definition opened_session (keys : list byte * list byte) (peer : ValidatedPeer) (pending : PendingRequest) : SessionState :=
  mkSession keys.1 keys.2 (derive_node_address (peer_node_id peer)) (peer_node_id (pending_peer pending)) (pending_req_id pending).

Lemma handshake_sent origin peer key pending c e n iv rest port address own remote_priv :
  library_ready -> node_ready c port own ->
  random_ c = Some e :: Some n :: Some iv :: rest -> seckey_verify (drawn kPrivateKeyBytes e) = true ->
  make_address (peer_ip peer) = Some address -> is_keypair (peer_node_id (pending_peer pending)) remote_priv ->
  pending_record_seq pending = 0 -> Zlen (pending_req_id pending) < 2 ^ 32 ->
  exists raw sig eph w r,
    accepted_record raw (local_node_id c) (address_v4_to_string (advertised_ip own)) port (advertised_tcp c port) /\
    handshake_facts (local_node_id c) (derive_node_address (peer_node_id peer)) remote_priv (pending_challenge pending) sig eph w r /\
    let nonce := drawn kGcmNonceBytes n in
    let iv := drawn kMaskingIvBytes iv in
    let auth := handshake_auth (local_node_addr c) sig eph raw in
    let header := iv ++ static_header kFlagHandshake nonce (Zlen auth) ++ auth in
    let body := gcm_encrypt w nonce header (kMsgFindNode :: findnode_wire (pending_req_id pending)) in
    send_handshake origin peer key pending c =
      (success tt,
       sending (AwaitFindNode origin peer true) (mkEndpoint address (peer_udp_port peer))
         (packet_wire iv kFlagHandshake nonce auth body (derive_node_address (peer_node_id peer)))
         (with_pending (delete key)
            (with_sessions <[key := opened_session (w, r) peer pending]> (with_random rest c)))).
Proof.
  intros Hlib Hready E Hv Ea Hk Eseq Hreq. pose proof (nr_keys _ _ _ Hready) as Hkc.
  destruct (ephemeral_drawn c e _ E Hv) as (kp & Ekp & Hkp).
  destruct (compress_public_key_ok _ _ Hlib Hkp) as (p & _ & _ & _ & Ecomp). set (eph := pubkey_serialize_compressed p) in *.
  set (remote := derive_node_address (peer_node_id peer)).
  destruct (id_signature_ok _ _ (pending_challenge pending) eph remote Hlib Hkc) as (sig & Esig & Lsig & Vsig).
  set (c1 := with_random (Some n :: Some iv :: rest) c).
  assert (node_ready c1 port own) as Hready1 by by destruct Hready.
  destruct (local_enr_built c1 port own Hlib Hready1) as (raw & Eraw & Hraw).
  destruct (session_secret_agrees _ _ _ _ _ Hlib Hk Hkp Ecomp) as (z & Z1 & Z2).
  destruct (derive_session_keys_ok z (pending_challenge pending) (local_node_addr c) remote) as (w & r & Ek & Lw & Lr).
  exists raw, sig, eph, w, r. split; [done|]. split; [split; [done|apply length_compressed|done|by exists z]|].
  intros nonce iv0 auth header body. unfold send_handshake. rewrite get_then. rewrite (bind_success _ _ _ _ _ Ekp). fold c1.
  rewrite Ecomp, lift_then. fold eph remote. rewrite Esig, lift_then, Eseq. change (0 <? kInitialEnrSeq) with true. cbn iota.
  rewrite (bind_success _ _ _ _ _ Eraw). rewrite Z1, lift_then, Ek, lift_then.
  rewrite make_findnode_plaintext_eq, lift_then by done. rewrite (random_then _ n (Some iv :: rest)) by done.
  change (local_node_addr c ++ _) with auth. fold nonce.
  rewrite (encode_then _ _ _ _ _ iv rest); [|done|unfold remote; rewrite length_node_address; unfold kMaskingIvBytes; lia| |done].
  2: { pose proof (ar_size _ _ _ _ _ Hraw). unfold kEnrMaxBytes in *. unfold auth, handshake_auth, in_width. rewrite !length_app, Lsig. unfold eph. rewrite length_compressed.
       pose proof (length_node_address (config_public_key (client_config_ c))). unfold local_node_addr. cbn [length]. lia. }
  fold iv0. fold header. rewrite encrypt_gcm_ok, lift_then by done. cbn [fst snd]. fold body. rewrite update_then, update_then, packet_wire_app.
  eapply send_packet_open; [done|]. apply (nr_socket _ _ _ Hready).
Qed.

Definition answering_session (w r addr id req_id : list byte) : SessionState := mkSession r w addr id req_id.

(** The handshake that answers a challenge opens the session. *)
Lemma handshake_taken packet sender key c challenge pub sig eph raw w r ip udp tcp req_id :
  library_ready -> sent_challenges_ c !! key = Some challenge -> challenge_node_addr challenge = derive_node_address pub ->
  handshake_facts pub (local_node_addr c) (config_private_key (client_config_ c)) (challenge_data challenge) sig eph w r ->
  accepted_record raw pub ip udp tcp -> Zlen req_id < 2 ^ 32 ->
  auth_data packet = handshake_auth (derive_node_address pub) sig eph raw ->
  msg_data packet = gcm_encrypt w (nonce packet) (header_data packet) (kMsgFindNode :: findnode_wire req_id) ->
  handle_handshake packet sender key c =
    (success tt,
     spawning (FindNodeRequestTask req_id sender)
       (with_sessions <[key := answering_session w r (derive_node_address pub) pub req_id]>
          (with_challenges (delete key)
             (counting handshake_packets
                (with_sessions <[key := answering_session w r (derive_node_address pub) pub []]> (counting inbound_handshake_seen c)))))).
Proof.
  intros Hlib Ec Eaddr [Lsig Leph Hver (z & Hz & Hkeys)] [(q & Eq) _ (r0 & rec & Ed & Ev & Eid & _)] Hreq Eauth Emsg.
  unfold handle_handshake. rewrite count_then, Eauth.
  rewrite parse_handshake_auth_eq by (rewrite ?length_node_address, ?Lsig, ?Leph; done). cbn [on_result].
  rewrite get_then. change (sent_challenges_ (counting _ c)) with (sent_challenges_ c). rewrite Ec. cbn [src_id record pubkey signature].
  rewrite bool_decide_eq_true_2 by done. cbn [negb].
  rewrite bool_decide_eq_false_2.
  2: { intros ->. pose proof (rlp_encode_pos q) as Hq. rewrite <- Eq in Hq. simpl in Hq. lia. }
  rewrite Ed. cbn [on_result]. rewrite Ev. cbn [on_result]. rewrite Eid, bool_decide_eq_true_2 by done. cbn [negb].
  change (local_node_addr (counting _ c)) with (local_node_addr c). rewrite Hver. cbn [negb].
  change (client_config_ (counting _ c)) with (client_config_ c). rewrite Hz. cbn [on_result]. rewrite Hkeys. cbn [on_result fst snd].
  rewrite update_then. unfold handshake_message. cbn [read_key]. rewrite Emsg, decrypt_gcm_encrypted by done. cbn [on_result].
  rewrite count_then, update_then. rewrite decide_True by done. rewrite parse_findnode_wire by done. cbn [on_result]. by rewrite update_then.
Qed.

(** The answer to FINDNODE: the local record. *)
Lemma nodes_sent req_id sender session c port own n iv rest :
  library_ready -> node_ready c port own -> sessions_ c !! endpoint_key_of sender = Some session ->
  Zlen (session_node_addr session) = kKeccak256Bytes -> Zlen req_id < 2 ^ 32 ->
  random_ c = Some n :: Some iv :: rest -> make_address (address_to_string (ep_address sender)) = Some (ep_address sender) ->
  exists raw i, raw = rlp_encode i /\
    accepted_record raw (local_node_id c) (address_v4_to_string (advertised_ip own)) port (advertised_tcp c port) /\
    let nonce := drawn kGcmNonceBytes n in
    let iv := drawn kMaskingIvBytes iv in
    let auth := local_node_addr c in
    let header := iv ++ static_header kFlagMessage nonce (Zlen auth) ++ auth in
    let body := gcm_encrypt (write_key session) nonce header (kMsgNodes :: nodes_wire req_id kNodesResponseCountSingle [i]) in
    handle_findnode_request req_id sender c =
      (success tt,
       sending AwaitReply sender (packet_wire iv kFlagMessage nonce auth body (session_node_addr session)) (with_random rest c)).
Proof.
  intros Hlib Hready Es Haddr Hreq E Ea. destruct (local_enr_built c port own Hlib Hready) as (raw & Eraw & Hraw).
  destruct (ar_item _ _ _ _ _ Hraw) as [i Ei]. exists raw, i. split; [done|]. split; [done|]. intros nonce iv0 auth header body.
  assert (Zlen auth = kKeccak256Bytes) as Hauth by apply length_node_address.
  unfold handle_findnode_request. rewrite get_then, Es. rewrite (bind_success _ _ _ _ _ Eraw).
  pose proof (ar_size _ _ _ _ _ Hraw) as Hsize. unfold kEnrMaxBytes in Hsize. rewrite Ei in Hsize |- *.
  rewrite make_nodes_plaintext_eq, lift_then by (done || lia). rewrite (random_then _ n (Some iv :: rest)) by done. fold nonce.
  rewrite (encode_then _ _ _ _ _ iv rest);
    [|done|unfold kKeccak256Bytes, kMaskingIvBytes in *; lia|unfold make_message_auth_data; fold auth; by rewrite Hauth|done].
  unfold make_message_auth_data. fold auth iv0. fold header. rewrite encrypt_gcm_ok, lift_then by done. fold body. rewrite packet_wire_app.
  rewrite (send_packet_open _ _ _ _ port (ep_address sender)); [|done|apply (nr_socket _ _ _ Hready)].
  by destruct sender.
Qed.

(** An answer in a session: the peers are handed to the crawler. *)
Lemma nodes_taken packet sender key session c i raw pub ip udp tcp now :
  library_ready -> sessions_ c !! key = Some session -> session_node_addr session = auth_data packet ->
  auth_size packet = kKeccak256Bytes -> Zlen (auth_data packet) = kKeccak256Bytes ->
  raw = rlp_encode i -> accepted_record raw pub ip udp tcp -> Zlen (last_req_id session) < 2 ^ 32 ->
  msg_data packet = gcm_encrypt (read_key session) (nonce packet) (header_data packet)
    (kMsgNodes :: nodes_wire (last_req_id session) kNodesResponseCountSingle [i]) ->
  handle_message packet sender key now c =
    (on_crawler (mark_measured (session_node_id session)) ;;
     on_crawler (ingest_discovered_peers [mkValidatedPeer pub ip udp tcp now None]))
      (counting nodes_packets (counting inbound_message_seen c)).
Proof.
  intros Hlib Es Ea Esize Hl -> [_ Hsize (r0 & rec & Ed & Ev & _ & Hp)] Hreq Emsg. unfold handle_message.
  rewrite count_then, Esize. change (kKeccak256Bytes =? kMessageAuthDataBytes) with true. cbn [negb].
  rewrite (bytes_at_mid (auth_data packet) [] (auth_data packet) []) by (rewrite ?app_nil_r; done).
  rewrite lift_then, get_then. change (sessions_ (counting _ c)) with (sessions_ c). rewrite Es, decide_True by done.
  rewrite Emsg, decrypt_gcm_encrypted by done. cbn [on_result handle_plaintext]. rewrite decide_True by done.
  unfold kEnrMaxBytes in Hsize. pose proof (length_nodes_wire (last_req_id session) i Hreq ltac:(lia)) as Hlen.
  pose proof (parse_nodes_wire (last_req_id session) kNodesResponseCountSingle [i]
    [Some (mkValidatedPeer pub ip udp tcp now None)] [] now ltac:(done)) as Hparse. rewrite app_nil_r in Hparse.
  rewrite Hparse; [|unfold fits; lia|].
  - cbn [on_result fst snd]. rewrite (bool_decide_eq_true_2 (_ = last_req_id session)) by done. by rewrite andb_false_r, count_then.
  - repeat constructor. unfold record_peer. by rewrite Ed, Ev, Hp.
Qed.
(** ** The exchange *)

Lemma task_event i t c : spawned_ c !! i = Some t ->
  run_event (EvTask i) c = run_task t (with_spawned (delete i (spawned_ c)) c).
Proof. intros E. unfold run_event. by rewrite get_then, E, update_then. Qed.

Lemma datagram_event datagram sender now c port : receive_loops_ c <> O -> socket_ c = Some port ->
  run_event (EvDatagram datagram sender now) c = on_datagram datagram sender now c.
Proof. intros Hr Hs. unfold run_event. rewrite get_then, Hs. by destruct (receive_loops_ c). Qed.

Lemma spawning_last t c : spawned_ (spawning t c) !! length (spawned_ c) = Some t.
Proof. unfold spawning. cbn [spawned_ with_spawned]. rewrite lookup_app_r by lia. by rewrite Nat.sub_diag. Qed.

(** An event that sends one packet, and one that spawns one coroutine. *)
Definition sends (e : event) (c : discv5_client) (dest : endpoint) (packet : list byte) (c' : discv5_client) : Prop :=
  run_event e c = (success tt, c') /\ sent_ c' = sent_ c ++ [(dest, packet)].
Definition spawns (e : event) (c c' : discv5_client) : Prop :=
  run_event e c = (success tt, c') /\ length (spawned_ c') = S (length (spawned_ c)) /\ sent_ c' = sent_ c.

(** Two nodes that do not know each other, and a peer entry for the second. *)
Record exchange_setup (a b : discv5_client) (ea eb : endpoint) (peer : ValidatedPeer)
    (port_a port_b : Z) (own_a own_b : ip_address) : Prop := {
  es_ready_a : node_ready a port_a own_a;
  es_ready_b : node_ready b port_b own_b;
  es_receiving : receive_loops_ a <> O /\ receive_loops_ b <> O;
  es_peer_id : peer_node_id peer = local_node_id b;
  es_peer_at : peer_ip peer = address_to_string (ep_address eb) /\ peer_udp_port peer = ep_port eb;
  es_addresses : make_address (address_to_string (ep_address ea)) = Some (ep_address ea) /\
    make_address (address_to_string (ep_address eb)) = Some (ep_address eb);
  es_no_session_a : sessions_ a !! endpoint_key_of eb = None;
  es_no_challenge : forall p, pending_requests_ a !! endpoint_key_of eb = Some p -> have_challenge p = false;
  es_no_session_b : forall s, sessions_ b !! endpoint_key_of ea = Some s -> session_node_addr s <> local_node_addr a
}.

(** What a step of the exchange leaves of a client. *)
Record same_node (c c' : discv5_client) : Prop := {
  sn_config : client_config_ c' = client_config_ c;
  sn_socket : socket_ c' = socket_ c;
  sn_loops : receive_loops_ c' = receive_loops_ c;
  sn_crawler : crawler_ c' = crawler_ c
}.

Lemma same_node_ready c c' port own : same_node c c' -> node_ready c port own -> node_ready c' port own.
Proof. intros [E1 E2 _ _] []. by split; rewrite ?E1, ?E2. Qed.

Lemma same_node_trans c1 c2 c3 : same_node c1 c2 -> same_node c2 c3 -> same_node c1 c3.
Proof. intros [] []. split; congruence. Qed.

Lemma local_addr_same c c' : same_node c c' -> local_node_addr c' = local_node_addr c.
Proof. intros [E _ _ _]. unfold local_node_addr. by rewrite E. Qed.

Lemma local_id_same c c' : same_node c c' -> local_node_id c' = local_node_id c.
Proof. intros [E _ _ _]. unfold local_node_id. by rewrite E. Qed.

Lemma advertised_tcp_same c c' port : same_node c c' -> advertised_tcp c' port = advertised_tcp c port.
Proof. intros [E _ _ _]. unfold advertised_tcp. by rewrite E. Qed.

(** The request leaves the initiator. *)
Lemma exchange_request a b ea eb peer port_a port_b own_a own_b i origin n m iv rest :
  library_ready -> exchange_setup a b ea eb peer port_a port_b own_a own_b ->
  spawned_ a !! i = Some (FindNodeTask origin peer) -> random_ a = Some n :: Some m :: Some iv :: rest ->
  let nonce := drawn kGcmNonceBytes n in
  exists a1, same_node a a1 /\ random_ a1 = rest /\ sessions_ a1 = sessions_ a /\
    pending_requests_ a1 !! endpoint_key_of eb = Some (random_pending peer nonce) /\
    sends (EvTask i) a eb
      (packet_wire (drawn kMaskingIvBytes iv) kFlagMessage nonce (local_node_addr a) (drawn kRandomMessageCiphertextBytes m) (local_node_addr b)) a1.
Proof.
  intros Hlib [Ha _ _ Hid [Hip Hudp] [_ Heb] Hns Hnc _] Ei Er nonce. set (c := with_spawned (delete i (spawned_ a)) a).
  assert (endpoint_key (peer_ip peer) (peer_udp_port peer) = endpoint_key_of eb) as Hkey by by rewrite Hip, Hudp.
  assert (mkEndpoint (ep_address eb) (peer_udp_port peer) = eb) as Hep by (rewrite Hudp; by destruct eb).
  assert (exists f, send_findnode origin peer c = send_random_packet origin peer (endpoint_key_of eb) (with_pending f c)) as [f Hf].
  { unfold send_findnode. rewrite get_then, Hkey. change (sessions_ c) with (sessions_ a). rewrite Hns. change (pending_requests_ c) with (pending_requests_ a).
    destruct (pending_requests_ a !! endpoint_key_of eb) as [p|] eqn:E; [|exists id; by destruct c]. rewrite (Hnc p eq_refl).
    exists (delete (endpoint_key_of eb)). by rewrite update_then. }
  pose proof (random_packet_sent origin peer (endpoint_key_of eb) (with_pending f c) n m iv rest (ep_address eb) port_a
    Hlib Er ltac:(by rewrite Hip) (nr_socket _ _ _ Ha)) as Hs. cbv zeta in Hs. rewrite Hep, Hid in Hs. match type of Hs with _ = (_, ?x) => exists x end. split; [done|]. split; [done|]. split; [done|].
  split; [cbn; by rewrite lookup_insert_eq|]. split; [|done].
  rewrite (task_event _ _ _ Ei). cbn [run_task]. fold c. by rewrite Hf, Hs.
Qed.

(** The responder does not know the sender and challenges it. *)
Lemma exchange_challenge b ea sender_addr msg nonce iv0 port own idn iv rest now :
  library_ready -> node_ready b port own -> receive_loops_ b <> O ->
  (forall s, sessions_ b !! endpoint_key_of ea = Some s -> session_node_addr s <> sender_addr) ->
  random_ b = Some idn :: Some iv :: rest -> Zlen sender_addr = kKeccak256Bytes -> Zlen nonce = kGcmNonceBytes -> Zlen iv0 = kMaskingIvBytes ->
  Zlen msg = kRandomMessageCiphertextBytes ->
  let id_nonce := drawn kWhoareyouIdNonceBytes idn in
  let auth := append_u64_be id_nonce 0 in
  let iv := drawn kMaskingIvBytes iv in
  let header := iv ++ static_header kFlagWhoareyou nonce (Zlen auth) ++ auth in
  exists b1 b2, same_node b b2 /\ random_ b2 = rest /\
    sent_challenges_ b2 !! endpoint_key_of ea = Some (challenge_of sender_addr header nonce id_nonce) /\
    spawns (EvDatagram (packet_wire iv0 kFlagMessage nonce sender_addr msg (local_node_addr b)) ea now) b b1 /\
    sends (EvTask (length (spawned_ b))) b1 ea (packet_wire iv kFlagWhoareyou nonce auth [] sender_addr) b2.
Proof.
  intros Hlib Hb Hrun Hno Er Ha Hn Hi Hm id_nonce auth iv1 header.
  set (b1 := spawning (WhoareyouTask ea sender_addr nonce) (counting inbound_message_seen (counting received_packets b))).
  pose proof (whoareyou_sent ea sender_addr nonce (with_spawned (delete (length (spawned_ b)) (spawned_ b1)) b1) idn iv rest port
    Hlib Ha Er (nr_socket _ _ _ Hb)) as Hs. cbv zeta in Hs. match type of Hs with _ = (_, ?x) => set (b2 := x) in Hs end.
  exists b1, b2. split; [done|]. split; [done|]. split; [unfold b2; cbn; by rewrite lookup_insert_eq|]. split.
  - split; [|split; [unfold b1; cbn; rewrite length_app; cbn; lia|done]].
    rewrite (datagram_event _ _ _ _ port Hrun (nr_socket _ _ _ Hb)).
    rewrite (on_datagram_wire _ _ _ _ _ _ _ _ Hlib Hi Hn) by (try done; rewrite ?Ha, ?Hm; done).
    unfold dispatch. cbn [flag Z.eqb kFlagMessage kFlagWhoareyou]. change (kFlagMessage =? kFlagWhoareyou) with false. change (kFlagMessage =? kFlagMessage) with true.
    cbn iota. by apply unreadable_message_challenged.
  - split; [|done]. assert (spawned_ b1 !! length (spawned_ b) = Some (WhoareyouTask ea sender_addr nonce)) as Ht
      by exact (spawning_last _ (counting inbound_message_seen (counting received_packets b))).
    rewrite (task_event _ _ _ Ht). cbn [run_task]. unfold ignoring. by rewrite Hs.
Qed.

(** The initiator answers the challenge with a handshake. *)
Lemma exchange_handshake a eb peer nonce0 port own address remote_priv id_nonce iv0 e n iv rest now :
  library_ready -> node_ready a port own -> receive_loops_ a <> O ->
  peer_ip peer = address_to_string (ep_address eb) -> peer_udp_port peer = ep_port eb ->
  make_address (peer_ip peer) = Some address -> is_keypair (peer_node_id peer) remote_priv ->
  sessions_ a !! endpoint_key_of eb = None ->
  pending_requests_ a !! endpoint_key_of eb = Some (random_pending peer nonce0) ->
  random_ a = Some e :: Some n :: Some iv :: rest -> seckey_verify (drawn kPrivateKeyBytes e) = true ->
  Zlen nonce0 = kGcmNonceBytes -> Zlen iv0 = kMaskingIvBytes -> Zlen id_nonce = kWhoareyouIdNonceBytes ->
  let auth0 := append_u64_be id_nonce 0 in
  let challenge := iv0 ++ static_header kFlagWhoareyou nonce0 (Zlen auth0) ++ auth0 in
  exists a1 a2 raw sig eph w r,
    same_node a a2 /\ random_ a2 = rest /\
    accepted_record raw (local_node_id a) (address_v4_to_string (advertised_ip own)) port (advertised_tcp a port) /\
    handshake_facts (local_node_id a) (derive_node_address (peer_node_id peer)) remote_priv challenge sig eph w r /\
    sessions_ a2 !! endpoint_key_of eb = Some (mkSession w r (derive_node_address (peer_node_id peer)) (peer_node_id peer) (make_req_id peer)) /\
    spawns (EvDatagram (packet_wire iv0 kFlagWhoareyou nonce0 auth0 [] (local_node_addr a)) eb now) a a1 /\
    let nonce := drawn kGcmNonceBytes n in
    let iv := drawn kMaskingIvBytes iv in
    let auth := handshake_auth (local_node_addr a) sig eph raw in
    let header := iv ++ static_header kFlagHandshake nonce (Zlen auth) ++ auth in
    sends (EvTask (length (spawned_ a))) a1 (mkEndpoint address (peer_udp_port peer))
      (packet_wire iv kFlagHandshake nonce auth (gcm_encrypt w nonce header (kMsgFindNode :: findnode_wire (make_req_id peer)))
         (derive_node_address (peer_node_id peer))) a2.
Proof.
  intros Hlib Ha Hrun Hip Hudp Hea Hk Hns Hp Er Hv Hn Hi Hid auth0 challenge.
  set (pending := mkPending peer (make_req_id peer) nonce0 challenge id_nonce 0 true).
  set (a1 := spawning (FindNodeTask FromChallenge peer) (counting whoareyou_packets (with_pending <[endpoint_key_of eb := pending]> (counting received_packets a)))).
  set (c := counting outbound_handshake_attempts (with_spawned (delete (length (spawned_ a)) (spawned_ a1)) a1)).
  destruct (handshake_sent FromChallenge peer (endpoint_key_of eb) pending c e n iv rest port address own remote_priv)
    as (raw & sig & eph & w & r & Hraw & Hfacts & Hs); try done; [by destruct Ha|].
  cbv zeta in Hs. match type of Hs with _ = (_, ?x) => set (a2 := x) in Hs end.
  exists a1, a2, raw, sig, eph, w, r. split; [done|]. split; [done|]. split; [done|]. split; [done|].
  split; [unfold a2; cbn; by rewrite lookup_insert_eq|]. split.
  - split; [|split; [unfold a1; cbn; rewrite length_app; cbn; lia|done]].
    pose proof (length_whoareyou_auth id_nonce Hid) as Hauth. fold auth0 in Hauth.
    rewrite (datagram_event _ _ _ _ port Hrun (nr_socket _ _ _ Ha)).
    rewrite (on_datagram_wire _ _ _ _ _ _ _ _ Hlib Hi Hn) by (try done; rewrite ?Hauth; done).
    unfold dispatch. cbn [flag]. change (kFlagWhoareyou =? kFlagWhoareyou) with true. cbn iota.
    by rewrite (challenge_taken _ _ (random_pending peer nonce0) id_nonce).
  - split; [|done]. assert (spawned_ a1 !! length (spawned_ a) = Some (FindNodeTask FromChallenge peer)) as Ht
      by exact (spawning_last _ (counting whoareyou_packets (with_pending <[endpoint_key_of eb := pending]> (counting received_packets a)))).
    rewrite (task_event _ _ _ Ht). cbn [run_task]. unfold send_findnode. rewrite get_then. rewrite Hip, Hudp. fold (endpoint_key_of eb).
    change (sessions_ (with_spawned _ a1)) with (sessions_ a). rewrite Hns.
    change (pending_requests_ (with_spawned _ a1)) with (<[endpoint_key_of eb := pending]> (pending_requests_ a)).
    rewrite lookup_insert_eq. cbn [have_challenge pending]. rewrite count_then. fold c. unfold counting_failures. by rewrite Hs.
Qed.

(** The responder opens the session and answers with its record. *)
Lemma exchange_reply b ea pub challenge sig eph w r raw ip udp tcp req_id nonce0 iv0 port own n iv rest now :
  library_ready -> node_ready b port own -> receive_loops_ b <> O ->
  sent_challenges_ b !! endpoint_key_of ea = Some challenge -> challenge_node_addr challenge = derive_node_address pub ->
  handshake_facts pub (local_node_addr b) (config_private_key (client_config_ b)) (challenge_data challenge) sig eph w r ->
  accepted_record raw pub ip udp tcp -> Zlen req_id = 4 ->
  make_address (address_to_string (ep_address ea)) = Some (ep_address ea) ->
  random_ b = Some n :: Some iv :: rest -> Zlen nonce0 = kGcmNonceBytes -> Zlen iv0 = kMaskingIvBytes ->
  let auth0 := handshake_auth (derive_node_address pub) sig eph raw in
  let header0 := iv0 ++ static_header kFlagHandshake nonce0 (Zlen auth0) ++ auth0 in
  exists b1 b2 i, same_node b b2 /\
    accepted_record (rlp_encode i) (local_node_id b) (address_v4_to_string (advertised_ip own)) port (advertised_tcp b port) /\
    sessions_ b2 !! endpoint_key_of ea = Some (answering_session w r (derive_node_address pub) pub req_id) /\
    sent_challenges_ b2 !! endpoint_key_of ea = None /\
    spawns (EvDatagram (packet_wire iv0 kFlagHandshake nonce0 auth0
      (gcm_encrypt w nonce0 header0 (kMsgFindNode :: findnode_wire req_id)) (local_node_addr b)) ea now) b b1 /\
    let nonce := drawn kGcmNonceBytes n in
    let iv := drawn kMaskingIvBytes iv in
    let auth := local_node_addr b in
    let header := iv ++ static_header kFlagMessage nonce (Zlen auth) ++ auth in
    sends (EvTask (length (spawned_ b))) b1 ea
      (packet_wire iv kFlagMessage nonce auth (gcm_encrypt r nonce header (kMsgNodes :: nodes_wire req_id kNodesResponseCountSingle [i]))
         (derive_node_address pub)) b2.
Proof.
  intros Hlib Hb Hrun Hc Hca Hfacts Hraw Hreq Hea Er Hn Hi auth0 header0.
  set (c1 := with_sessions <[endpoint_key_of ea := answering_session w r (derive_node_address pub) pub req_id]>
          (with_challenges (delete (endpoint_key_of ea))
             (counting handshake_packets
                (with_sessions <[endpoint_key_of ea := answering_session w r (derive_node_address pub) pub []]>
                   (counting inbound_handshake_seen (counting received_packets b)))))).
  set (b1 := spawning (FindNodeRequestTask req_id ea) c1).
  set (c := with_spawned (delete (length (spawned_ b)) (spawned_ b1)) b1).
  destruct (nodes_sent req_id ea (answering_session w r (derive_node_address pub) pub req_id) c port own n iv rest)
    as (raw' & i & -> & Hraw' & Hs); try done; [by destruct Hb|cbn; by rewrite lookup_insert_eq|apply length_node_address|lia|].
  cbv zeta in Hs. match type of Hs with _ = (_, ?x) => set (b2 := x) in Hs end.
  exists b1, b2, i. split; [done|]. split; [done|]. split; [unfold b2; cbn; by rewrite lookup_insert_eq|].
  split; [unfold b2; cbn; by rewrite lookup_delete_eq|]. split.
  - split; [|split; [unfold b1; cbn; rewrite length_app; cbn; lia|done]].
    pose proof (ar_size _ _ _ _ _ Hraw) as Hsize. unfold kEnrMaxBytes in Hsize.
    assert (34 <= Zlen auth0 <= 431) as Hauth.
    { unfold auth0, handshake_auth. rewrite !length_app. pose proof (length_node_address pub). cbn [length].
      rewrite (hf_sig _ _ _ _ _ _ _ _ Hfacts), (hf_eph _ _ _ _ _ _ _ _ Hfacts). lia. }
    pose proof (length_findnode_wire req_id ltac:(lia)) as Hfind.
    rewrite (datagram_event _ _ _ _ port Hrun (nr_socket _ _ _ Hb)).
    rewrite (on_datagram_wire _ _ _ _ _ _ _ _ Hlib Hi Hn); [|done|unfold in_width; lia|].
    2: { rewrite length_gcm_encrypt. change kStaticPacketBytes with 39. unfold kMinPacketBytes, kMaxPacketBytes, kGcmTagBytes. cbn [length]. lia. }
    unfold dispatch. cbn [flag]. change (kFlagHandshake =? kFlagWhoareyou) with false. change (kFlagHandshake =? kFlagMessage) with false.
    change (kFlagHandshake =? kFlagHandshake) with true. cbn iota.
    by rewrite (handshake_taken _ _ _ _ challenge pub sig eph raw w r ip udp tcp req_id) by (done || lia).
  - split; [|done]. assert (spawned_ b1 !! length (spawned_ b) = Some (FindNodeRequestTask req_id ea)) as Ht by exact (spawning_last _ c1).
    rewrite (task_event _ _ _ Ht). cbn [run_task]. unfold ignoring. fold c. by rewrite Hs.
Qed.

Lemma ingest_success peers c : exists c', ingest_discovered_peers peers c = (success tt, c').
Proof.
  revert c. induction peers as [|p peers IH]; intros c; [by eexists|]. unfold ingest_discovered_peers. cbn [for_each].
  assert (exists c', ingest_discovered_peer p c = (success tt, c')) as [c' E].
  { unfold ingest_discovered_peer, emit_peer, emit_unique, count_stat, call_peer, modify, mbind, M_bind, mret, M_ret, get_state.
    repeat (case_match; try done); simplify_eq; by eexists. }
  rewrite (bind_success _ _ _ _ _ E). apply IH.
Qed.

(** The crawler after an answer with one peer. *)
Definition crawled (id : list byte) (peer : ValidatedPeer) (c : discv5_crawler) : discv5_crawler :=
  run_crawl [OpMeasured id; OpIngest [peer]] c.

(** The answer reaches the crawler of the initiator. *)
Lemma exchange_answer a eb session i pub ip udp tcp nonce iv port own now :
  library_ready -> node_ready a port own -> receive_loops_ a <> O ->
  sessions_ a !! endpoint_key_of eb = Some session -> Zlen (session_node_addr session) = kKeccak256Bytes ->
  accepted_record (rlp_encode i) pub ip udp tcp -> Zlen (last_req_id session) = 4 ->
  Zlen nonce = kGcmNonceBytes -> Zlen iv = kMaskingIvBytes ->
  let auth := session_node_addr session in
  let header := iv ++ static_header kFlagMessage nonce (Zlen auth) ++ auth in
  exists a1, run_event (EvDatagram (packet_wire iv kFlagMessage nonce auth
      (gcm_encrypt (read_key session) nonce header (kMsgNodes :: nodes_wire (last_req_id session) kNodesResponseCountSingle [i]))
      (local_node_addr a)) eb now) a = (success tt, a1) /\
    sessions_ a1 = sessions_ a /\ client_config_ a1 = client_config_ a /\ counter_ a1 nodes_packets = u64 (counter_ a nodes_packets + 1) /\
    crawler_ a1 = crawled (session_node_id session) (mkValidatedPeer pub ip udp tcp now None) (crawler_ a).
Proof.
  intros Hlib Ha Hrun Es Hl Hraw Hreq Hn Hi auth header. pose proof (ar_size _ _ _ _ _ Hraw) as Hsize. unfold kEnrMaxBytes in Hsize.
  pose proof (length_nodes_wire (last_req_id session) i ltac:(lia) ltac:(lia)) as Hlen.
  rewrite (datagram_event _ _ _ _ port Hrun (nr_socket _ _ _ Ha)).
  rewrite (on_datagram_wire _ _ _ _ _ _ _ _ Hlib Hi Hn); [|done|unfold auth; by rewrite Hl|].
  2: { unfold auth. rewrite Hl, length_gcm_encrypt. change kStaticPacketBytes with 39.
       unfold kMinPacketBytes, kMaxPacketBytes, kGcmTagBytes, kKeccak256Bytes. cbn [length]. lia. }
  unfold dispatch. cbn [flag]. change (kFlagMessage =? kFlagWhoareyou) with false. change (kFlagMessage =? kFlagMessage) with true. cbn iota.
  rewrite (nodes_taken _ _ _ session _ i (rlp_encode i) pub ip udp tcp) by (try done; lia).
  unfold on_crawler. set (c := counting nodes_packets _). unfold mbind, M_bind.
  change (crawler_ c) with (crawler_ a). destruct (mark_measured (session_node_id session) (crawler_ a)) as [r1 c1] eqn:E1.
  injection E1 as <- E1. cbn [with_crawler crawler_].
  destruct (ingest_success [mkValidatedPeer pub ip udp tcp now None] c1) as [c2 E2]. rewrite E2. eexists. split; [done|]. split; [done|]. split; [done|].
  split; [done|]. cbn [crawler_ with_crawler]. unfold crawled, run_crawl. cbn [foldl run_crawl_op]. unfold mark_measured, modify. cbn [snd]. by rewrite E1, E2.
Qed.

(** Each client holds a session with the other, with the keys exchanged. *)
Definition mirrored (a b : discv5_client) (ea eb : endpoint) : Prop :=
  exists sa sb, sessions_ a !! endpoint_key_of eb = Some sa /\ sessions_ b !! endpoint_key_of ea = Some sb /\
    write_key sa = read_key sb /\ read_key sa = write_key sb /\
    session_node_id sa = local_node_id b /\ session_node_id sb = local_node_id a.

(** C15: two nodes that do not know each other run the whole exchange: a request of random
    bytes, the challenge, the handshake and the answer.  Every packet is accepted by the
    other side, both end with a session with mirrored keys and the other's identity, and
    the answer hands the responder's record, with the address it advertises, to the
    initiator's crawler. *)
Theorem findnode_exchange a b ea eb peer port_a port_b own_a own_b i origin now
    n1 m iv1 e n2 iv3 ra idn iv2 n3 iv4 rb :
  library_ready -> exchange_setup a b ea eb peer port_a port_b own_a own_b ->
  spawned_ a !! i = Some (FindNodeTask origin peer) ->
  random_ a = Some n1 :: Some m :: Some iv1 :: Some e :: Some n2 :: Some iv3 :: ra ->
  random_ b = Some idn :: Some iv2 :: Some n3 :: Some iv4 :: rb ->
  seckey_verify (drawn kPrivateKeyBytes e) = true ->
  exists p1 p2 p3 p4 a1 a2 a3 a4 b1 b2 b3 b4,
    sends (EvTask i) a eb p1 a1 /\
    spawns (EvDatagram p1 ea now) b b1 /\ sends (EvTask (length (spawned_ b))) b1 ea p2 b2 /\
    spawns (EvDatagram p2 eb now) a1 a2 /\ sends (EvTask (length (spawned_ a1))) a2 eb p3 a3 /\
    spawns (EvDatagram p3 ea now) b2 b3 /\ sends (EvTask (length (spawned_ b2))) b3 ea p4 b4 /\
    run_event (EvDatagram p4 eb now) a3 = (success tt, a4) /\
    mirrored a4 b4 ea eb /\ counter_ a4 nodes_packets = u64 (counter_ a3 nodes_packets + 1) /\
    crawler_ a4 = crawled (local_node_id b)
      (mkValidatedPeer (local_node_id b) (address_v4_to_string (advertised_ip own_b)) port_b (advertised_tcp b port_b) now None) (crawler_ a).
Proof.
  intros Hlib Hsetup Ei Era Erb Hv. destruct (Hsetup) as [Ha Hb [Hra Hrb] Hid [Hip Hudp] [Hea Heb] Hns _ Hnsb].
  destruct (exchange_request _ _ _ _ _ _ _ _ _ i origin n1 m iv1 _ Hlib Hsetup Ei Era) as (a1 & Sa1 & Ra1 & Ss1 & Hp1 & K1).
  set (nonce := drawn kGcmNonceBytes n1) in *. assert (Zlen nonce = kGcmNonceBytes) as Hn by by apply length_drawn.
  destruct (exchange_challenge b ea (local_node_addr a) (drawn kRandomMessageCiphertextBytes m) nonce (drawn kMaskingIvBytes iv1) port_b own_b
    idn iv2 (Some n3 :: Some iv4 :: rb) now Hlib Hb Hrb Hnsb Erb) as (b1 & b2 & Sb2 & Rb2 & Hc2 & K2 & K3);
    [apply length_node_address|done|by apply length_drawn|by apply length_drawn|].
  assert (is_keypair (peer_node_id peer) (config_private_key (client_config_ b))) as Hkb by (rewrite Hid; apply (nr_keys _ _ _ Hb)).
  destruct (exchange_handshake a1 eb peer nonce port_a own_a (ep_address eb) (config_private_key (client_config_ b))
    (drawn kWhoareyouIdNonceBytes idn) (drawn kMaskingIvBytes iv2) e n2 iv3 ra now)
    as (a2 & a3 & raw & sig & eph & w & r & Sa3 & _ & Hraw & Hfacts & Hs3 & K4 & K5);
    try done; [by eapply same_node_ready|by rewrite (sn_loops _ _ Sa1)|by rewrite Hip|by rewrite Ss1|by apply length_drawn|by apply length_drawn|].
  rewrite (local_id_same _ _ Sa1), Hid in Hfacts. rewrite (local_id_same _ _ Sa1) in Hraw.
  match type of Hc2 with _ = Some ?x => set (challenge := x) in * end.
  destruct (exchange_reply b2 ea (local_node_id a) challenge sig eph w r raw
    (address_v4_to_string (advertised_ip own_a)) port_a (advertised_tcp a1 port_a) (make_req_id peer)
    (drawn kGcmNonceBytes n2) (drawn kMaskingIvBytes iv3) port_b own_b n3 iv4 rb now Hlib) as (b3 & b4 & it & Sb4 & Hit & Hs4 & _ & K6 & K7);
    [by eapply same_node_ready|by rewrite (sn_loops _ _ Sb2)|exact Hc2|done|
     by rewrite (local_addr_same _ _ Sb2), (sn_config _ _ Sb2)|exact Hraw|done|done|done|by apply length_drawn|by apply length_drawn|].
  pose proof (same_node_trans _ _ _ Sa1 Sa3) as Sa.
  destruct (exchange_answer a3 eb (mkSession w r (derive_node_address (peer_node_id peer)) (peer_node_id peer) (make_req_id peer)) it (local_node_id b2)
    (address_v4_to_string (advertised_ip own_b)) port_b (advertised_tcp b2 port_b) (drawn kGcmNonceBytes n3) (drawn kMaskingIvBytes iv4) port_a own_a now Hlib
    (same_node_ready _ _ _ _ Sa Ha)) as (a4 & K8 & Ss4 & Ec4 & Hcount & Hcrawl);
    [by rewrite (sn_loops _ _ Sa)|exact Hs3|apply length_node_address|exact Hit|done|by apply length_drawn|by apply length_drawn|].
  cbv zeta in K5, K7, K8. rewrite (local_addr_same _ _ Sa1) in K4. rewrite (local_addr_same _ _ Sa1) in K5.
  assert (mkEndpoint (ep_address eb) (peer_udp_port peer) = eb) as Hep by (rewrite Hudp; by destruct eb).
  rewrite Hep, Hid in K5. rewrite (local_addr_same _ _ Sb2) in K6. rewrite (local_addr_same _ _ Sb2) in K7.
  rewrite (local_addr_same _ _ Sa) in K8. cbn [session_node_addr read_key last_req_id] in K8. rewrite Hid in K8.
  do 12 eexists. split; [exact K1|]. split; [exact K2|]. split; [exact K3|]. split; [exact K4|]. split; [exact K5|].
  split; [exact K6|]. split; [exact K7|]. split; [exact K8|]. split; [|split; [done|]].
  - exists (mkSession w r (derive_node_address (peer_node_id peer)) (peer_node_id peer) (make_req_id peer)), (answering_session w r (derive_node_address (local_node_id a)) (local_node_id a) (make_req_id peer)).
    rewrite Ss4. split; [done|]. split; [done|]. split; [done|]. split; [done|]. cbn [session_node_id answering_session].
    rewrite (local_id_same _ _ Sb4), (local_id_same _ _ Sb2). unfold local_node_id at 3. by rewrite Hid, Ec4, (sn_config _ _ Sa).
  - rewrite Hcrawl, (sn_crawler _ _ Sa), (local_id_same _ _ Sb2), (advertised_tcp_same _ _ _ Sb2). cbn [session_node_id]. by rewrite Hid.
Qed.
End exchange.

(** ** Two sample nodes *)

Import SampleDiscv5.

Module SampleClient.
Definition priv_of (b : byte) : list byte := replicate 31 x00 ++ [b].
Definition pub_of (b : byte) : list byte := replicate 64 b.
Definition own : ip_address := AddressV4 [x7f; x00; x00; x01].
Definition node_at (port : Z) : endpoint := mkEndpoint own port.
Definition config_of (b : byte) (port : Z) : ClientConfig :=
  mkClientConfig (mkDiscv5Config [] None) (address_to_string own) port 0 (priv_of b) (pub_of b) 8 30.
Definition draws (n : nat) : list (option (list byte)) := replicate n (Some (replicate 32 x07)).
Definition peer_of (b : byte) (port : Z) : ValidatedPeer := mkValidatedPeer (pub_of b) (address_to_string own) port port 0 None.

(** A client that has started to receive. *)
Definition client_of (b : byte) (port : Z) (tasks : list task) : discv5_client :=
  with_loops 1 1 (with_spawned tasks (discv5_client_new (config_of b port) port (draws 8))).

Definition alice : discv5_client := client_of x03 30000 [FindNodeTask FromCrawler (peer_of x05 30001)].
Definition bob : discv5_client := client_of x05 30001 [].

Lemma alice_ready : node_ready alice 30000 own.
Proof. split; [split; [done|by eexists]|done|lia|done|done|by vm_compute]. Qed.

Lemma bob_ready : node_ready bob 30001 own.
Proof. split; [split; [done|by eexists]|done|lia|done|done|by vm_compute]. Qed.

Lemma sample_setup : exchange_setup alice bob (node_at 30000) (node_at 30001) (peer_of x05 30001) 30000 30001 own own.
Proof. split; [exact alice_ready|exact bob_ready|done|done|done|done|done|done|done]. Qed.
End SampleClient.

Import SampleClient.

Lemma findnode_exchange_witness :
  exists p1 p2 p3 p4 a1 a2 a3 a4 b1 b2 b3 b4,
    sends (EvTask 0) alice (node_at 30001) p1 a1 /\
    spawns (EvDatagram p1 (node_at 30000) 0) bob b1 /\ sends (EvTask 0) b1 (node_at 30000) p2 b2 /\
    spawns (EvDatagram p2 (node_at 30001) 0) a1 a2 /\ sends (EvTask (length (spawned_ a1))) a2 (node_at 30001) p3 a3 /\
    spawns (EvDatagram p3 (node_at 30000) 0) b2 b3 /\ sends (EvTask (length (spawned_ b2))) b3 (node_at 30000) p4 b4 /\
    run_event (EvDatagram p4 (node_at 30001) 0) a3 = (success tt, a4) /\
    mirrored a4 b4 (node_at 30000) (node_at 30001) /\ counter_ a4 nodes_packets = u64 (counter_ a3 nodes_packets + 1) /\
    crawler_ a4 = crawled (pub_of x05) (mkValidatedPeer (pub_of x05) (address_to_string own) 30001 30001 0 None) (crawler_ alice).
Proof.
  exact (findnode_exchange alice bob (node_at 30000) (node_at 30001) (peer_of x05 30001) 30000 30001 own own 0 FromCrawler 0
    _ _ _ _ _ _ _ _ _ _ _ _ sample_ready sample_setup eq_refl eq_refl eq_refl eq_refl).
Defined.
