(* ===== verification/Discv5Sessions.v ===== *)
(** * What a discv5 client keeps, accepts and gets wrong

    Properties of the runs of [Discv5Client]: the invariant of the reachable states
    with the faults a run can end in, the accounting of handshakes, what a session
    that a packet opens rests on, and four defects: a session that is never
    renegotiated, an identity that does not belong to its session, an overrun that
    any sender reaches before a signature is checked, and a function without effect.

    [keeps] is a Hoare triple for client computations; its rules are in the hint
    database [keeps]. *)

From S2P Require Import Prelude RlpSpec RlpCommon RlpEncoder RlpDecoder DecodeLogic ParseUtility Base64Url FrameCipher RlpxCrypto.
From S2P Require Import Enr Discv5Crawler Discv5Packets Discv5Client.

(** ** A triple for client computations *)

(** The faults a run can end in: a record read past its end, and a random source that
    never delivers. *)
Definition known_fault (f : fault) : Prop := f = OutOfBounds \/ f = Diverge.

Definition no_other_fault {E A} (r : outcome E A) : Prop := match r with crash f => known_fault f | _ => True end.

Definition keeps {A} (P : discv5_client -> Prop) (m : Client A) (Q : A -> Prop) : Prop := forall c, P c ->
  match m c with
  | (success a, c') => P c' /\ Q a
  | (failure _, c') => P c'
  | (crash f, _) => known_fault f
  end.

Create HintDb keeps.

Section triple.
Context (P : discv5_client -> Prop).

Lemma keeps_return {A} (a : A) (Q : A -> Prop) : Q a -> keeps P (mret a) Q.
Proof. by intros Ha c Hc. Qed.

Lemma keeps_fail {A} e (Q : A -> Prop) : keeps P (fail e) Q.
Proof. by intros c Hc. Qed.

Lemma keeps_crash {A} f (Q : A -> Prop) : known_fault f -> keeps P (crash_with f) Q.
Proof. by intros Hf c Hc. Qed.

Lemma keeps_lift {A} (r : outcome discv5Error A) (Q : A -> Prop) :
  no_other_fault r -> (forall a, r = success a -> Q a) -> keeps P (lift r) Q.
Proof. intros Hr Hq c Hc. unfold lift. destruct r; [by split; [|apply Hq]|done|done]. Qed.

Lemma keeps_seq {A B} (m : Client A) (k : A -> Client B) Q1 Q2 :
  keeps P m Q1 -> (forall a, Q1 a -> keeps P (k a) Q2) -> keeps P (m ≫= k) Q2.
Proof.
  intros Hm Hk c Hc. specialize (Hm c Hc). unfold mbind, M_bind. destruct (m c) as [[a|e|f] c']; [|done|done].
  destruct Hm as [Hc' Ha]. by apply Hk.
Qed.

Lemma keeps_get {B} (k : discv5_client -> Client B) Q : (forall c, P c -> keeps P (k c) Q) -> keeps P (get_state ≫= k) Q.
Proof. intros Hk c Hc. by apply Hk. Qed.

Lemma keeps_update f (Q : unit -> Prop) : (forall c, P c -> P (f c)) -> Q tt -> keeps P (update f) Q.
Proof. intros Hf Hq c Hc. split; [by apply Hf|done]. Qed.

Lemma keeps_on_result {A} (r : outcome discv5Error A) onfail k Q :
  no_other_fault r -> keeps P onfail Q -> (forall a, r = success a -> keeps P (k a) Q) -> keeps P (on_result r onfail k) Q.
Proof. intros Hr Hf Hk. destruct r; [by apply Hk|done|by apply keeps_crash]. Qed.

Lemma keeps_ignoring (m : Client unit) : keeps P m (fun _ => True) -> keeps P (ignoring m) (fun _ => True).
Proof. intros Hm c Hc. specialize (Hm c Hc). unfold ignoring. by destruct (m c) as [[[]|e|f] c']. Qed.

Lemma keeps_for_each {A} (f : A -> Client unit) l : (forall x, keeps P (f x) (fun _ => True)) -> keeps P (for_each f l) (fun _ => True).
Proof. intros Hf. induction l; [by apply keeps_return|]. eapply keeps_seq; [apply Hf|]. by intros _ _. Qed.
End triple.

(** ** Results that cannot fault otherwise *)

Section faults.
Context `{Discv5Laws} `{HashesLaws} `{CtrCiphers}.

Lemma bytes_at_known l off n : no_other_fault (bytes_at l off n).
Proof. unfold bytes_at. case_match; [by left|done]. Qed.

Lemma encoded_known m e : enc_preserves m -> no_other_fault (encoded m e).
Proof.
  intros Hm. unfold encoded, finish_encoder. destruct (Hm RlpEncoder_init) as [Hc _]; [by split; constructor|].
  unfold mbind, M_bind. destruct (m RlpEncoder_init) as [[[]|er|f] e']; [|done|done]. unfold MoveBytes. by destruct (list_start_positions_ e').
Qed.

Lemma encode_packet_known iv flag nonce auth msg dest : no_other_fault (encode_packet iv flag nonce auth msg dest).
Proof.
  unfold encode_packet. destruct iv as [iv|]; [|done]. pose proof (bytes_at_known dest 0 kAes128KeyBytes) as Hb.
  destruct (bytes_at dest 0 kAes128KeyBytes); [|done|done]. cbn [mbind outcome_bind]. by destruct (apply_aes128_ctr _ _ _).
Qed.

Lemma encrypt_known key nonce text aad : no_other_fault (encrypt_gcm key nonce text aad).
Proof. unfold encrypt_gcm. by repeat case_match. Qed.

Lemma decrypt_known key nonce text aad : no_other_fault (decrypt_gcm key nonce text aad).
Proof. unfold decrypt_gcm. by repeat case_match. Qed.

Lemma compress_known pub : no_other_fault (compress_public_key pub).
Proof. unfold compress_public_key. by repeat case_match. Qed.

Lemma id_signature_known priv challenge eph dest : no_other_fault (make_id_signature priv challenge eph dest).
Proof. unfold make_id_signature. by repeat case_match. Qed.

Lemma secret_known pub priv : no_other_fault (shared_secret_from_uncompressed_pubkey pub priv).
Proof. unfold shared_secret_from_uncompressed_pubkey, shared_secret_of. by repeat case_match. Qed.

Lemma secret_compressed_known pub priv : no_other_fault (shared_secret_from_compressed_pubkey pub priv).
Proof. unfold shared_secret_from_compressed_pubkey, shared_secret_of. by repeat case_match. Qed.

Lemma session_keys_known secret challenge id1 id2 : no_other_fault (derive_session_keys secret challenge id1 id2).
Proof. destruct (derive_session_keys_ok secret challenge id1 id2) as (w & r & -> & _). done. Qed.

Lemma bind_known {A B} (r : outcome discv5Error A) (k : A -> outcome discv5Error B) :
  no_other_fault r -> (forall a, no_other_fault (k a)) -> no_other_fault (r ≫= k).
Proof. intros Hr Hk. destruct r; [apply Hk|done|done]. Qed.

#[local] Hint Extern 1 (enc_preserves (add_bytes ?b)) => exact (enc_preserves_op (OpBytes b)) : keeps.
#[local] Hint Extern 1 (enc_preserves (AddRaw ?b)) => exact (enc_preserves_op (OpRaw b)) : keeps.
#[local] Hint Extern 1 (enc_preserves (add_integral ?n ?v)) => exact (enc_preserves_op (OpIntegral n v)) : keeps.
#[local] Hint Extern 1 (enc_preserves BeginList) => exact (enc_preserves_op OpBegin) : keeps.
#[local] Hint Extern 1 (enc_preserves EndList) => exact (enc_preserves_op OpEnd) : keeps.
#[local] Hint Extern 2 (enc_preserves (_ ;; _)) => apply enc_preserves_seq : keeps.

Lemma findnode_known req_id : no_other_fault (make_findnode_plaintext req_id).
Proof. apply bind_known; [|done]. apply encoded_known. auto 20 with keeps. Qed.

Lemma nodes_known req_id raw : no_other_fault (make_nodes_plaintext req_id raw).
Proof. apply bind_known; [|done]. apply encoded_known. auto 20 with keeps. Qed.

Lemma local_pairs_preserve ip c tcp udp : enc_preserves (add_local_pairs ip c tcp udp).
Proof. unfold add_local_pairs. auto 30 with keeps. Qed.
#[local] Hint Resolve local_pairs_preserve : keeps.

Lemma local_record_known pub priv ip tcp udp : no_other_fault (make_local_enr_record pub priv ip tcp udp).
Proof.
  apply bind_known; [apply compress_known|]. intros c. destruct (make_address ip) as [a|]; [|done].
  apply bind_known; [apply encoded_known; auto 20 with keeps|]. intros content. destruct context_created; [|done]. cbn [negb].
  destruct (sign_recoverable _ _) as [[sig recid]|]; [|done]. apply encoded_known; auto 20 with keeps.
Qed.

Lemma keypair_known draws : no_other_fault (generate_ephemeral_keypair draws).
Proof.
  unfold generate_ephemeral_keypair. assert (no_other_fault (draw_private_key draws)) as Hd.
  { induction draws as [|[k|] draws IH]; cbn [draw_private_key]; [by right| |done]. by destruct (ec_seckey_verify k). }
  destruct (draw_private_key draws) as [k| |]; [|done|done]. cbn [mbind outcome_bind]. by destruct (ec_pubkey_create k).
Qed.

Lemma handshake_auth_known auth : no_other_fault (parse_handshake_auth auth).
Proof. pose proof (parse_handshake_cases auth). by destruct (parse_handshake_auth auth). Qed.

Lemma findnode_req_known body : fits body -> no_other_fault (parse_findnode_req_id body).
Proof. intros Hf. destruct (parse_findnode_req_id body) eqn:E; [done|done|]. by apply parse_findnode_cases in E. Qed.

Lemma nodes_message_known body now : fits body -> no_other_fault (parse_nodes_message body now).
Proof. intros Hf. pose proof (parse_nodes_cases body now Hf). destruct (parse_nodes_message body now); [done|done|by left]. Qed.

Lemma decode_rlp_known raw : fits raw -> no_other_fault (decode_rlp raw).
Proof. intros Hf. pose proof (decode_rlp_cases raw Hf) as Hd. destruct (decode_rlp raw); [done|done|]. left. apply Hd. Qed.
End faults.

#[export] Hint Resolve bytes_at_known encode_packet_known encrypt_known decrypt_known compress_known id_signature_known
  secret_known secret_compressed_known session_keys_known findnode_known nodes_known local_record_known keypair_known
  handshake_auth_known : keeps.

(** ** The invariant *)

Definition session_ok (s : SessionState) : Prop :=
  Zlen (write_key s) = kAes128KeyBytes /\ Zlen (read_key s) = kAes128KeyBytes /\ Zlen (session_node_addr s) = kKeccak256Bytes.

(** A header of a WHOAREYOU packet, which is the challenge. *)
Definition kChallengeBytes : Z := kStaticPacketBytes + kWhoareyouAuthDataBytes.

Record pending_ok (p : PendingRequest) : Prop := {
  pk_nonce : Zlen (pending_nonce p) = kGcmNonceBytes;
  pk_id_nonce : Zlen (pending_id_nonce p) = kWhoareyouIdNonceBytes;
  pk_req_id : Zlen (pending_req_id p) = 4;
  pk_seq : in_width 64 (pending_record_seq p);
  pk_challenge : Zlen (pending_challenge p) = if have_challenge p then kChallengeBytes else 0
}.

Record challenge_ok (ch : ChallengeState) : Prop := {
  ck_addr : Zlen (challenge_node_addr ch) = kKeccak256Bytes;
  ck_data : Zlen (challenge_data ch) = kChallengeBytes;
  ck_nonce : Zlen (challenge_nonce ch) = kGcmNonceBytes;
  ck_id_nonce : Zlen (challenge_id_nonce ch) = kWhoareyouIdNonceBytes
}.

Definition task_ok (t : task) : Prop :=
  match t with WhoareyouTask _ addr nonce => Zlen addr = kKeccak256Bytes /\ Zlen nonce = kGcmNonceBytes | _ => True end.

(** The sizes the C++ types fix and those the protocol does. *)
Record client_ok (c : discv5_client) : Prop := {
  ok_sessions : map_Forall (fun _ s => session_ok s) (sessions_ c);
  ok_pending : map_Forall (fun _ p => pending_ok p) (pending_requests_ c);
  ok_challenges : map_Forall (fun _ ch => challenge_ok ch) (sent_challenges_ c);
  ok_counters : forall k, in_width 64 (counter_ c k);
  ok_spawned : Forall task_ok (spawned_ c)
}.

Section invariant.
Context `{Discv5Laws} `{HashesLaws} `{CtrCiphers}.

Notation T := (fun _ => True).
Notation kept m := (keeps client_ok m T).

Lemma count_kept k : kept (count k).
Proof.
  apply keeps_update; [|done]. intros c []. split; try done. intros k'. cbn. case_match; [|apply ok_counters0].
  apply u64_range.
Qed.

Lemma spawn_kept t : task_ok t -> kept (spawn t).
Proof. intros Ht. apply keeps_update; [|done]. intros c []. split; try done. apply Forall_app. by repeat constructor. Qed.

Lemma sessions_insert_kept key s : session_ok s -> kept (update (with_sessions <[key := s]>)).
Proof. intros Hs. apply keeps_update; [|done]. intros c []. split; try done. by apply map_Forall_insert_2. Qed.

Lemma sessions_delete_kept key : kept (update (with_sessions (delete key))).
Proof. apply keeps_update; [|done]. intros c []. split; try done. by apply map_Forall_delete. Qed.

Lemma pending_insert_kept key p : pending_ok p -> kept (update (with_pending <[key := p]>)).
Proof. intros Hp. apply keeps_update; [|done]. intros c []. split; try done. by apply map_Forall_insert_2. Qed.

Lemma pending_delete_kept key : kept (update (with_pending (delete key))).
Proof. apply keeps_update; [|done]. intros c []. split; try done. by apply map_Forall_delete. Qed.

Lemma challenge_insert_kept key ch : challenge_ok ch -> kept (update (with_challenges <[key := ch]>)).
Proof. intros Hp. apply keeps_update; [|done]. intros c []. split; try done. by apply map_Forall_insert_2. Qed.

Lemma challenge_delete_kept key : kept (update (with_challenges (delete key))).
Proof. apply keeps_update; [|done]. intros c []. split; try done. by apply map_Forall_delete. Qed.

Lemma send_to_kept packet dest w : kept (async_send_to packet dest w).
Proof. apply keeps_update; [|done]. intros c []. by destruct (socket_ c); split. Qed.

Lemma draw_kept n : 0 <= n -> keeps client_ok (draw n) (fun d => forall bs, d = Some bs -> Zlen bs = n).
Proof.
  intros Hn c Hc. unfold draw. destruct (random_ c) as [|d rest]; [by right|]. split; [by destruct Hc|].
  intros bs Hd. destruct d as [d|]; [|done]. injection Hd as <-. by apply (length_drawn n d).
Qed.

Lemma random_kept n : 0 <= n -> keeps client_ok (random_bytes n) (fun bs => Zlen bs = n).
Proof.
  intros Hn. eapply keeps_seq; [by apply draw_kept|]. intros [d|] Hd; [|apply keeps_fail]. apply keeps_return. by apply Hd.
Qed.

(** A call of the crawler that faults only where a record is read. *)
Lemma crawler_kept {A} (m : Crawl A) : (forall c, no_other_fault (m c).1) -> kept (on_crawler m).
Proof.
  intros Hm c Hc. unfold on_crawler. specialize (Hm (crawler_ c)). destruct (m (crawler_ c)) as [[a|e|f] cr]; [|by destruct Hc|done].
  by destruct Hc.
Qed.

(** The packet and its header, which holds the authentication data. *)
Lemma encode_kept flag nonce auth msg dest : Zlen nonce = kGcmNonceBytes ->
  keeps client_ok (encode flag nonce auth msg dest) (fun p => Zlen p.2 = kStaticPacketBytes + Zlen auth).
Proof.
  intros Hn. eapply keeps_seq; [apply draw_kept; by vm_compute|]. intros iv Hiv. apply keeps_lift; [auto with keeps|].
  unfold encode_packet. intros [packet header]. destruct iv as [iv|]; [|done].
  destruct (bytes_at dest 0 kAes128KeyBytes); [|done|done]. cbn [mbind outcome_bind]. destruct (apply_aes128_ctr _ _ _); [|done].
  intros [= _ <-]. cbn [snd]. unfold append_u16_be, kGcmNonceBytes in *. rewrite !length_app. specialize (Hiv iv eq_refl).
  change (length kProtocolId) with 6%nat. change kStaticPacketBytes with 39. unfold kMaskingIvBytes in Hiv. cbn [length].
  rewrite !length_app. cbn [length]. lia.
Qed.

Lemma send_packet_kept packet peer w : kept (send_packet packet peer w).
Proof. unfold send_packet. destruct (make_address _); [apply send_to_kept|apply keeps_fail]. Qed.

Lemma build_local_enr_kept : kept build_local_enr.
Proof.
  apply keeps_get. intros c _. destruct (socket_ c); [|apply keeps_fail]. by apply keeps_lift; [auto with keeps|].
Qed.

Lemma keypair_kept : kept ephemeral_keypair.
Proof.
  intros c Hc. unfold ephemeral_keypair. set (draws := _ <$> random_ c). pose proof (keypair_known draws) as Hk.
  destruct (generate_ephemeral_keypair draws); cbn [or_error]; [by destruct Hc|by destruct Hc|done].
Qed.

#[local] Hint Resolve count_kept spawn_kept sessions_insert_kept sessions_delete_kept pending_insert_kept pending_delete_kept
  challenge_insert_kept challenge_delete_kept send_to_kept send_packet_kept build_local_enr_kept keypair_kept keeps_fail : keeps.

(** One bind of a kept computation; a result is only looked at where it matters. *)
Ltac kept_step :=
  lazymatch goal with
  | |- keeps _ (mbind _ get_state) _ => apply keeps_get; intros ? ?
  | |- keeps _ (mbind _ (lift (make_findnode_plaintext _))) _ => eapply keeps_seq; [apply (keeps_lift _ _ T); auto with keeps|intros ? _]
  | |- keeps _ (mbind _ (random_bytes _)) _ => eapply keeps_seq; [apply random_kept; by vm_compute|intros ? ?]
  | |- keeps _ (mbind _ (encode _ _ _ _ _)) _ => eapply keeps_seq; [by apply encode_kept|intros [? ?] ?]
  | |- keeps _ (mbind _ (lift _)) _ => eapply keeps_seq; [apply (keeps_lift _ _ T); by auto with keeps|intros ? _]
  | |- keeps _ (mbind _ _) _ => eapply keeps_seq; [by eauto with keeps|intros ? _]
  end.

Lemma send_in_session_kept origin peer key s : session_ok s -> kept (send_in_session origin peer key s).
Proof.
  intros (Hw & Hr & Ha). unfold send_in_session. repeat kept_step.
  eapply keeps_seq; [by apply sessions_insert_kept|]. intros _ _. apply send_packet_kept.
Qed.

Lemma random_packet_kept origin peer key : kept (send_random_packet origin peer key).
Proof.
  unfold send_random_packet. kept_step. kept_step. eapply keeps_seq; [apply pending_insert_kept; by split|]. intros _ _. kept_step.
  eapply keeps_seq; [apply draw_kept; by vm_compute|]. intros iv _. pose proof (encode_packet_known iv kFlagMessage a (make_message_auth_data (local_node_addr c)) a0 (derive_node_address (peer_node_id peer))) as Hk.
  destruct (encode_packet _ _ _ _ _ _) as [[packet header]|e|f]; [apply send_packet_kept| |by apply keeps_crash].
  eapply keeps_seq; [apply pending_delete_kept|]. intros _ _. apply keeps_fail.
Qed.

Lemma session_keys_length z challenge id1 id2 keys : derive_session_keys z challenge id1 id2 = success keys ->
  Zlen keys.1 = kAes128KeyBytes /\ Zlen keys.2 = kAes128KeyBytes.
Proof. destruct (derive_session_keys_ok z challenge id1 id2) as (w & r & -> & Hw & Hr). intros [= <-]. cbn. by rewrite Hw, Hr. Qed.

Lemma send_handshake_kept origin peer key p : kept (send_handshake origin peer key p).
Proof.
  unfold send_handshake. do 4 kept_step. eapply keeps_seq with (Q1 := T); [destruct (_ <? _); [apply build_local_enr_kept|by apply keeps_return]|].
  intros enr _. kept_step. eapply keeps_seq; [apply keeps_lift; [auto with keeps|apply session_keys_length]|]. intros keys [Hw Hr].
  do 4 kept_step. eapply keeps_seq; [apply sessions_insert_kept; split; [done|]; split; [done|]; apply length_node_address|].
  intros _ _. kept_step. apply send_packet_kept.
Qed.

Lemma counting_failures_kept {A} (m : Client A) : kept m -> kept (counting_failures m).
Proof.
  intros Hm c Hc. specialize (Hm c Hc). unfold counting_failures. destruct (m c) as [[a|e|f] c']; [done| |done].
  apply (count_kept outbound_handshake_failures c' Hm).
Qed.

Lemma send_findnode_kept origin peer : kept (send_findnode origin peer).
Proof.
  unfold send_findnode. kept_step. destruct (sessions_ c !! _) as [s|] eqn:Es.
  { apply send_in_session_kept. by eapply (ok_sessions c). }
  destruct (pending_requests_ c !! _) as [p|]; [|apply random_packet_kept].
  destruct (have_challenge p); kept_step; [apply counting_failures_kept, send_handshake_kept|apply random_packet_kept].
Qed.

Lemma send_whoareyou_kept sender addr nonce : Zlen addr = kKeccak256Bytes -> Zlen nonce = kGcmNonceBytes -> kept (send_whoareyou sender addr nonce).
Proof.
  intros Ha Hn. unfold send_whoareyou. do 2 kept_step.
  eapply keeps_seq; [apply challenge_insert_kept|intros _ _; apply send_to_kept].
  match goal with Hl : Zlen (_, _).2 = _ |- _ => rewrite append_u64_eq, length_app in Hl end.
  split; [done| |done|done]. cbn [challenge_data]. cbn [snd] in *. unfold kChallengeBytes, kWhoareyouAuthDataBytes.
  change (length (append_u64_be [] 0)) with 8%nat in *. lia.
Qed.

Lemma findnode_request_kept req_id sender : kept (handle_findnode_request req_id sender).
Proof.
  unfold handle_findnode_request. kept_step. destruct (sessions_ c !! _); [|apply keeps_fail]. do 5 kept_step. apply send_packet_kept.
Qed.

Lemma read_u64_width l v : read_u64_be l = success v -> in_width 64 v.
Proof.
  unfold read_u64_be, bytes_at. destruct (_ <? _); [done|]. cbn [mbind outcome_bind]. intros [= <-].
  set (bs := take _ _). destruct bs as [|b bs _] using rev_ind; [done|]. rewrite foldl_app. apply u64_range.
Qed.

Lemma read_u64_known l : no_other_fault (read_u64_be l).
Proof. apply bind_known; [apply bytes_at_known|done]. Qed.

Lemma bytes_at_length l off n bs : 0 <= off -> 0 <= n -> bytes_at l off n = success bs -> Zlen bs = n.
Proof.
  intros Ho Hn. unfold bytes_at. destruct (Z.ltb_spec (Zlen l) (off + n)); [done|]. intros [= <-]. apply length_slice; lia.
Qed.

Lemma whoareyou_kept packet key : packet_ok packet -> kept (handle_whoareyou packet key).
Proof.
  intros [_ Hn _ Ha Hh]. unfold handle_whoareyou. destruct (Z.eqb_spec (auth_size packet) kWhoareyouAuthDataBytes) as [E|]; [|by apply keeps_return].
  cbn [negb]. kept_step. destruct (pending_requests_ c !! key) as [p|] eqn:Ep; [|by apply keeps_return].
  destruct (ok_pending c ltac:(done) key p Ep) as [P1 P2 P3 P4 P5]. destruct (negb _); [by apply keeps_return|].
  eapply keeps_seq; [apply keeps_lift; [auto with keeps|intros ? E1; apply bytes_at_length in E1; [exact E1|by vm_compute|by vm_compute]]|]. intros idn Hidn.
  eapply keeps_seq; [apply keeps_lift; [apply read_u64_known|apply read_u64_width]|]. intros seq Hseq.
  eapply keeps_seq; [apply pending_insert_kept; split; try done; cbn [pending_challenge have_challenge]; rewrite Hh, E; done|]. intros _ _.
  kept_step. by apply spawn_kept.
Qed.

(** The plaintext is no longer than the message. *)
Lemma decrypt_fits key nonce text aad plain : fits text -> decrypt_gcm key nonce text aad = success plain -> fits plain.
Proof.
  intros Hf. unfold decrypt_gcm. repeat (destruct (_ : bool); [done|]). destruct (gcm_decrypt _ _ _ _) as [p|] eqn:E; [|done].
  intros [= <-]. apply length_gcm_decrypt in E. unfold fits, kGcmTagBytes in *. lia.
Qed.

Lemma fits_tail b (l : list byte) : fits (b :: l) -> fits l.
Proof. unfold fits. cbn [length]. lia. Qed.

Lemma ingest_known peers c : no_other_fault (ingest_discovered_peers peers c).1.
Proof. destruct (ingest_success peers c) as [c' ->]. done. Qed.

Lemma plaintext_kept plain s sender now : fits plain -> kept (handle_plaintext plain s sender now).
Proof.
  intros Hf. destruct plain as [|b body]; [by apply keeps_return|]. cbn [handle_plaintext]. apply fits_tail in Hf. destruct (decide _).
  - apply keeps_on_result; [by apply nodes_message_known|by apply keeps_return|]. intros nodes _. destruct (_ && _); [by apply keeps_return|].
    kept_step. eapply keeps_seq; [by apply crawler_kept|]. intros _ _. apply crawler_kept. intros cr. apply ingest_known.
  - destruct (decide _); [|by apply keeps_return]. apply keeps_on_result; [by apply findnode_req_known|by apply keeps_return|]. intros req _. by apply spawn_kept.
Qed.

Lemma message_kept packet sender key now : packet_ok packet -> fits (msg_data packet) -> kept (handle_message packet sender key now).
Proof.
  intros [_ Hn _ Ha Hh] Hf. unfold handle_message. kept_step. destruct (negb _); [by apply keeps_return|].
  eapply keeps_seq; [apply keeps_lift; [auto with keeps|intros ? E1; apply bytes_at_length in E1; [exact E1|by vm_compute|by vm_compute]]|]. intros addr Haddr. kept_step.
  assert (kept (spawn (WhoareyouTask sender addr (nonce packet)))) as Hw by by apply spawn_kept.
  destruct (sessions_ c !! key) as [s|] eqn:Es; [|done]. destruct (decide _); [|done].
  apply keeps_on_result; [auto with keeps| |].
  - kept_step. done.
  - intros plain E. apply plaintext_kept. by eapply decrypt_fits.
Qed.

Lemma handshake_message_kept packet sender key s : session_ok s -> fits (msg_data packet) -> kept (handshake_message packet sender key s).
Proof.
  intros Hs Hf. apply keeps_on_result; [auto with keeps|kept_step; apply count_kept|]. intros plain E. do 2 kept_step.
  assert (fits plain) as Hp by by eapply decrypt_fits. destruct plain as [|b body]; [by apply keeps_return|].
  destruct (decide _); [|by apply keeps_return]. apply keeps_on_result; [by eapply findnode_req_known, fits_tail|by apply keeps_return|].
  intros req _. eapply keeps_seq; [by apply sessions_insert_kept|]. intros _ _. by apply spawn_kept.
Qed.

Lemma handshake_kept packet sender key : fits (auth_data packet) -> fits (msg_data packet) -> kept (handle_handshake packet sender key).
Proof.
  intros Ha Hf. unfold handle_handshake. kept_step. apply keeps_on_result; [auto with keeps|apply count_kept|]. intros auth Eauth.
  pose proof (parse_handshake_cases (auth_data packet)) as Hauth. rewrite Eauth in Hauth. destruct Hauth as [Hsrc Hrec].
  kept_step. destruct (sent_challenges_ c !! key) as [ch|]; [|apply count_kept]. destruct (negb _); [apply count_kept|].
  destruct (bool_decide _); [apply count_kept|]. assert (fits (record auth)) as Hfr by (unfold fits in *; lia).
  apply keeps_on_result; [by apply decode_rlp_known|apply count_kept|]. intros r Er.
  pose proof (decode_rlp_cases _ Hfr) as Hok. rewrite Er in Hok. pose proof (verify_signature_cases r Hok) as Hv.
  apply keeps_on_result; [destruct (verify_signature r); [done|done|left; apply Hv]|apply count_kept|]. intros r' _.
  destruct (negb _); [apply count_kept|]. destruct (negb _); [apply count_kept|].
  apply keeps_on_result; [auto with keeps|apply count_kept|]. intros z _.
  apply keeps_on_result; [auto with keeps|apply count_kept|]. intros keys Ek. apply session_keys_length in Ek as [Hw Hr].
  assert (session_ok (mkSession keys.2 keys.1 (src_id auth) (node_id r') [])) as Hs by done.
  eapply keeps_seq; [by apply sessions_insert_kept|]. intros _ _. by apply handshake_message_kept.
Qed.

Lemma datagram_kept datagram sender now : kept (on_datagram datagram sender now).
Proof.
  unfold on_datagram. set (data := take _ datagram). destruct (_ <? _); [apply count_kept|]. kept_step. unfold handle_packet. kept_step.
  pose proof (decode_packet_cases data (local_node_addr c)) as Hd. unfold local_node_addr in *. rewrite length_node_address in Hd.
  specialize (Hd ltac:(by vm_compute)).
  apply keeps_on_result; [by destruct (decode_packet _ _)|by apply keeps_return|]. intros packet Ep. rewrite Ep in Hd. destruct Hd as [Hok Hlen].
  assert (Zlen data <= 1280) as Hdata by (unfold data, kMaxPacketBytes; rewrite length_take; lia).
  destruct (Hok) as [_ _ Hw Hsz Hh]. unfold in_width in Hw. change kStaticPacketBytes with 39 in *.
  assert (fits (auth_data packet) /\ fits (msg_data packet)) as [Hfa Hfm] by (unfold fits; lia).
  destruct (_ =? _); [by apply whoareyou_kept|]. destruct (_ =? _); [by apply message_kept|].
  destruct (_ =? _); [by apply handshake_kept|by apply keeps_return].
Qed.

(** ** The crawler's part *)

Definition crawl_known {A} (m : Crawl A) : Prop := forall c, no_other_fault (m c).1.

Lemma crawl_known_bind {A B} (m : Crawl A) (k : A -> Crawl B) : crawl_known m -> (forall a, crawl_known (k a)) -> crawl_known (m ≫= k).
Proof. intros Hm Hk c. specialize (Hm c). unfold mbind, M_bind. destruct (m c) as [[a|e|f] c']; [apply Hk|done|done]. Qed.

Lemma crawl_known_for_each {A} (f : A -> Crawl unit) l : (forall x, crawl_known (f x)) -> crawl_known (for_each f l).
Proof. intros Hf. induction l; [done|]. by apply crawl_known_bind. Qed.

Lemma found_known peers : crawl_known (process_found_peers peers).
Proof. apply crawl_known_for_each. intros p c. unfold process_found_peer, mbind, M_bind, get_state. by repeat case_match. Qed.

Lemma bootstrap_known now uri : crawl_known (enqueue_bootstrap now uri).
Proof.
  unfold enqueue_bootstrap. destruct (bool_decide _).
  - unfold enqueue_enr_uri. pose proof (enr_parse_faults uri) as Hp. destruct (parse uri) as [r|e|f].
    + destruct (to_validated_peer r now); [apply found_known|done|done].
    + done.
    + intros c. left. apply Hp.
  - destruct (bool_decide _); [|done]. unfold enqueue_enode_uri. destruct (parse_enode_uri uri now); [apply found_known|done].
Qed.

Lemma start_known now : crawl_known (start now).
Proof.
  intros c. unfold start. unfold mbind at 1, M_bind at 1, get_state. apply crawl_known_bind; [done|]. intros _.
  destruct (running_ c); [done|]. apply crawl_known_for_each. apply bootstrap_known.
Qed.

Lemma dequeue_known : crawl_known dequeue_next.
Proof. intros c. unfold dequeue_next, mbind, M_bind, get_state. by destruct (queued_peers_ c). Qed.

Lemma queries_kept n : kept (issue_queries n).
Proof.
  induction n as [|n IH]; [by apply keeps_return|]. cbn [issue_queries]. eapply keeps_seq; [apply crawler_kept, dequeue_known|].
  intros [p|] _; [|by apply keeps_return]. eapply keeps_seq; [by apply spawn_kept|]. by intros _ _.
Qed.

Lemma loops_kept f g : kept (update (fun c => with_loops (f c) (g c) c)).
Proof. by apply keeps_update; [|done]; intros c []. Qed.

Lemma crawler_pass_kept : kept crawler_pass.
Proof.
  unfold crawler_pass. kept_step. destruct (client_running_ c); [|by apply keeps_return].
  eapply keeps_seq; [apply queries_kept|]. intros _ _. apply loops_kept.
Qed.

Lemma findnode_failed_kept peer : kept (findnode_failed peer).
Proof. unfold findnode_failed. kept_step. by apply crawler_kept. Qed.

Lemma run_task_kept t : task_ok t -> kept (run_task t).
Proof.
  destruct t as [| |origin peer|sender addr nonce|req sender]; intros Ht; cbn [run_task].
  - kept_step. destruct (client_running_ c); [apply loops_kept|by apply keeps_return].
  - apply crawler_pass_kept.
  - intros c Hc. pose proof (send_findnode_kept origin peer c Hc) as Hs. destruct (send_findnode origin peer c) as [[[]|e|f] c']; [done| |done].
    apply (findnode_failed_kept peer c' Hs).
  - apply keeps_ignoring. by apply send_whoareyou_kept; destruct Ht.
  - apply keeps_ignoring, findnode_request_kept.
Qed.

Lemma send_done_kept w ok : kept (send_done w ok).
Proof.
  destruct w as [origin peer hs|]; [|by apply keeps_return]. cbn [send_done]. destruct ok.
  - destruct origin; [by apply crawler_kept|by apply keeps_return].
  - eapply keeps_seq with (Q1 := T); [destruct hs; [apply count_kept|by apply keeps_return]|]. intros _ _. apply findnode_failed_kept.
Qed.

Lemma start_kept now : kept (client_start now).
Proof.
  unfold client_start. kept_step. eapply keeps_seq with (Q1 := T); [by apply keeps_update; [|done]; intros ? []|]. intros _ _.
  destruct (client_running_ c); [by apply keeps_return|]. do 2 (eapply keeps_seq; [by apply spawn_kept|intros _ _]).
  apply keeps_ignoring, crawler_kept, start_known.
Qed.

Lemma stop_kept : kept client_stop.
Proof.
  unfold client_stop. kept_step. eapply keeps_seq with (Q1 := T); [by apply keeps_update; [|done]; intros ? []|]. intros _ _.
  destruct (negb _); [by apply keeps_return|]. eapply keeps_seq with (Q1 := T); [by apply keeps_update; [|done]; intros ? []|]. intros _ _.
  apply keeps_ignoring, crawler_kept. intros cr. unfold stop, mbind, M_bind, get_state. by destruct (running_ cr).
Qed.

Lemma run_event_kept e : kept (run_event e).
Proof.
  unfold run_event. kept_step. destruct e as [now| |uri|peer error|i|datagram sender now| | |i ok].
  - apply start_kept.
  - apply stop_kept.
  - by apply keeps_update; [|done]; intros ? [].
  - eapply keeps_seq; [by apply crawler_kept|]. intros _ _. by apply crawler_kept.
  - destruct (spawned_ c !! i) as [t|] eqn:Et; [|by apply keeps_return].
    eapply keeps_seq with (Q1 := T); [|intros _ _; apply run_task_kept; by eapply (Forall_lookup_1 _ _ _ _ (ok_spawned c ltac:(done)))].
    apply keeps_update; [|done]. intros c' []. split; try done. cbn. by apply Forall_delete.
  - destruct (receive_loops_ c), (socket_ c); try by apply keeps_return. apply datagram_kept.
  - destruct (receive_loops_ c); [by apply keeps_return|]. destruct (client_running_ c); [by apply keeps_return|]. by apply keeps_update; [|done]; intros ? [].
  - destruct (crawler_loops_ c); [by apply keeps_return|]. eapply keeps_seq with (Q1 := T); [by apply keeps_update; [|done]; intros ? []|].
    intros _ _. apply crawler_pass_kept.
  - destruct (sending_ c !! i) as [w|]; [|by apply keeps_return]. eapply keeps_seq with (Q1 := T); [by apply keeps_update; [|done]; intros ? []|].
    intros _ _. apply send_done_kept.
Qed.

Lemma client_new_ok config port supply : client_ok (discv5_client_new config port supply).
Proof. split; cbn; [apply map_Forall_empty|apply map_Forall_empty|apply map_Forall_empty|done|done]. Qed.

(** ** No event returns an error *)

Definition solid {A} (m : Client A) : Prop := forall c, match (m c).1 with failure _ => False | _ => True end.

Lemma solid_ret {A} (a : A) : solid (mret a).
Proof. done. Qed.
Lemma solid_update f : solid (update f).
Proof. done. Qed.
Lemma solid_bind {A B} (m : Client A) (k : A -> Client B) : solid m -> (forall a, solid (k a)) -> solid (m ≫= k).
Proof. intros Hm Hk c. specialize (Hm c). unfold mbind, M_bind. destruct (m c) as [[a|e|f] c']; [apply Hk|done|done]. Qed.
Lemma solid_get {B} (k : discv5_client -> Client B) : (forall c, solid (k c)) -> solid (get_state ≫= k).
Proof. intros Hk c. apply Hk. Qed.
Lemma solid_on_result {A} (r : outcome discv5Error A) onfail k : solid onfail -> (forall a, solid (k a)) -> solid (on_result r onfail k).
Proof. intros Hf Hk. by destruct r; [apply Hk|apply Hf|]. Qed.
Lemma solid_bytes_at l off n : solid (lift (bytes_at l off n)).
Proof. intros c. unfold lift, bytes_at. by destruct (_ <? _). Qed.
Lemma solid_read_u64 l : solid (lift (read_u64_be l)).
Proof. intros c. unfold lift, read_u64_be, bytes_at. by destruct (_ <? _). Qed.
Lemma solid_ignoring m : solid (ignoring m).
Proof. intros c. unfold ignoring. by destruct (m c) as [[]]. Qed.
Lemma solid_crawler {A} (m : Crawl A) : (forall c, exists a c', m c = (success a, c')) -> solid (on_crawler m).
Proof. intros Hm c. unfold on_crawler. by destruct (Hm (crawler_ c)) as (a & c' & ->). Qed.
Lemma solid_measured id : solid (on_crawler (mark_measured id)).
Proof. apply solid_crawler. intros c. by eexists _, _. Qed.
Lemma solid_failed id : solid (on_crawler (mark_failed id)).
Proof. apply solid_crawler. intros c. by eexists _, _. Qed.
Lemma solid_ingest peers : solid (on_crawler (ingest_discovered_peers peers)).
Proof. apply solid_crawler. intros c. destruct (ingest_success peers c) as [c' E]. eauto. Qed.

#[local] Hint Resolve solid_ret solid_update solid_bytes_at solid_read_u64 solid_ignoring solid_measured solid_failed solid_ingest : solid.

Ltac solid_step :=
  lazymatch goal with
  | |- forall _, _ => intros ?
  | |- solid (mbind _ get_state) => apply solid_get
  | |- solid (mbind _ _) => apply solid_bind
  | |- solid (on_result _ _ _) => apply solid_on_result
  | |- solid (match ?x with _ => _ end) => destruct x
  | |- solid (count _) => apply solid_update
  | |- solid (spawn _) => apply solid_update
  | |- solid _ => solve [auto with solid]
  end.
Ltac solid := repeat solid_step.

Lemma datagram_solid datagram sender now : solid (on_datagram datagram sender now).
Proof.
  unfold on_datagram, handle_packet, handle_whoareyou, handle_message, handle_handshake, handshake_message, handle_plaintext. cbv zeta. solid.
Qed.

Lemma queries_solid n : solid (issue_queries n).
Proof.
  induction n as [|n IH]; [done|]. cbn [issue_queries]. apply solid_bind; [|solid].
  apply solid_crawler. intros c. unfold dequeue_next, mbind, M_bind, get_state. destruct (queued_peers_ c); by eexists _, _.
Qed.
#[local] Hint Resolve queries_solid datagram_solid : solid.

Lemma crawler_pass_solid : solid crawler_pass.
Proof. unfold crawler_pass. solid. Qed.
#[local] Hint Resolve crawler_pass_solid : solid.

Lemma failed_solid peer : solid (findnode_failed peer).
Proof. unfold findnode_failed. solid. Qed.
#[local] Hint Resolve failed_solid : solid.

Lemma run_task_solid t : solid (run_task t).
Proof.
  destruct t; cbn [run_task]; solid. intros c. destruct (send_findnode origin peer c) as [[[]|e|f] c']; [done|apply failed_solid|done].
Qed.
#[local] Hint Resolve run_task_solid : solid.

Lemma peer_callback_solid b : solid (client_set_peer_callback b).
Proof. apply solid_crawler. intros c. by eexists _, _. Qed.
Lemma error_callback_solid b : solid (client_set_error_callback b).
Proof. apply solid_crawler. intros c. by eexists _, _. Qed.
#[local] Hint Resolve peer_callback_solid error_callback_solid : solid.

Lemma run_event_solid e : solid (run_event e).
Proof. unfold run_event, client_start, client_stop, add_bootnode, send_done. apply solid_get. intros c. destruct e; solid. Qed.

Lemma run_client_solid events : solid (run_client events).
Proof. unfold run_client. induction events; [done|]. cbn [for_each]. apply solid_bind; [apply run_event_solid|done]. Qed.

End invariant.

(** ** What a session rests on *)

(** A computation that leaves part of the client alone. *)
Definition frames {A B} (g : discv5_client -> B) (m : Client A) : Prop := forall c, g (m c).2 = g c.

Section frame_rules.
Context {B : Type} (g : discv5_client -> B).

Lemma frames_bind {A C} (m : Client A) (k : A -> Client C) : frames g m -> (forall a, frames g (k a)) -> frames g (m ≫= k).
Proof.
  intros Hm Hk c. specialize (Hm c). unfold mbind, M_bind. destruct (m c) as [[a|e|f] c']; [|done|done]. cbn in Hm. by rewrite Hk.
Qed.

Lemma frames_get {C} (k : discv5_client -> Client C) : (forall c, frames g (k c)) -> frames g (get_state ≫= k).
Proof. intros Hk c. apply Hk. Qed.

Lemma frames_on_result {A} (r : outcome discv5Error A) onfail k : frames g onfail -> (forall a, frames g (k a)) -> frames g (on_result r onfail k).
Proof. intros Hf Hk. destruct r; [apply Hk|apply Hf|done]. Qed.

Lemma frames_crawler {A} (m : Crawl A) : (forall cr c, g (with_crawler cr c) = g c) -> frames g (on_crawler m).
Proof. intros Hg c. unfold on_crawler. destruct (m (crawler_ c)) as [r cr]. apply Hg. Qed.
End frame_rules.

Ltac frames_step :=
  lazymatch goal with
  | |- forall _, _ => intros ?
  | |- frames _ (mbind _ get_state) => apply frames_get
  | |- frames _ (mbind _ _) => apply frames_bind
  | |- frames _ (on_result _ _ _) => apply frames_on_result
  | |- frames _ (match ?x with _ => _ end) => destruct x
  | |- frames _ (on_crawler _) => apply frames_crawler; done
  | |- frames _ _ => done
  end.
Ltac frames := repeat frames_step.

(** A part of the client that has nothing to do with sending and scheduling. *)
Record quiet {B} (g : discv5_client -> B) : Prop := {
  q_random v c : g (with_random v c) = g c;
  q_sending v c : g (with_sending v c) = g c;
  q_sent v c : g (with_sent v c) = g c;
  q_spawned v c : g (with_spawned v c) = g c;
  q_loops n m c : g (with_loops n m c) = g c;
  q_crawler v c : g (with_crawler v c) = g c;
  q_running v c : g (with_running v c) = g c;
  q_socket v c : g (with_socket v c) = g c
}.

Create HintDb frames.

Section quiet_rules.
Context `{Discv5Primitives} `{Hashes} `{CtrCiphers} {B : Type} (g : discv5_client -> B) (Hq : quiet g).

Lemma frames_draw n : frames g (draw n).
Proof. intros c. unfold draw. destruct (random_ c); [done|apply (q_random g Hq)]. Qed.

Lemma frames_random n : frames g (random_bytes n).
Proof. apply frames_bind; [apply frames_draw|]. by intros [d|]. Qed.

Lemma frames_encode flag nonce auth msg dest : frames g (encode flag nonce auth msg dest).
Proof. apply frames_bind; [apply frames_draw|done]. Qed.

Lemma frames_send_to packet dest w : frames g (async_send_to packet dest w).
Proof. intros c. unfold async_send_to, update. cbn [snd]. rewrite (q_sending g Hq). destruct (socket_ c); [apply (q_sent g Hq)|done]. Qed.

Lemma frames_send_packet packet peer w : frames g (send_packet packet peer w).
Proof. unfold send_packet. destruct (make_address _); [apply frames_send_to|done]. Qed.

Lemma frames_local_enr : frames g build_local_enr.
Proof. apply frames_get. intros c. by destruct (socket_ c). Qed.

Lemma frames_keypair : frames g ephemeral_keypair.
Proof. intros c. apply (q_random g Hq). Qed.

Lemma frames_spawn t : frames g (spawn t).
Proof. intros c. apply (q_spawned g Hq). Qed.

Lemma frames_crawl {A} (m : Crawl A) : frames g (on_crawler m).
Proof. apply frames_crawler. intros cr c. apply (q_crawler g Hq). Qed.

Lemma frames_ignoring m : frames g m -> frames g (ignoring m).
Proof. intros Hm c. specialize (Hm c). unfold ignoring. by destruct (m c) as [[]]. Qed.

Lemma frames_queries n : frames g (issue_queries n).
Proof.
  induction n as [|n IH]; [done|]. cbn [issue_queries]. apply frames_bind; [apply frames_crawl|].
  intros [p|]; [|done]. apply frames_bind; [apply frames_spawn|done].
Qed.

Lemma frames_pass : frames g crawler_pass.
Proof.
  unfold crawler_pass. apply frames_get. intros c. destruct (client_running_ c); [|done]. apply frames_bind; [apply frames_queries|].
  intros _ c'. apply (q_loops g Hq).
Qed.
End quiet_rules.

#[export] Hint Resolve frames_draw frames_random frames_encode frames_send_to frames_send_packet frames_local_enr frames_keypair
  frames_spawn frames_crawl frames_ignoring frames_pass : frames.

Ltac frames_with := repeat (first [solve [eauto with frames] | frames_step]).

Section authentication.
Context `{Discv5Primitives} `{Hashes} `{CtrCiphers}.

Lemma whoareyou_sessions packet key : frames sessions_ (handle_whoareyou packet key).
Proof. unfold handle_whoareyou. frames. Qed.

Lemma message_sessions packet sender key now : frames sessions_ (handle_message packet sender key now).
Proof. unfold handle_message, handle_plaintext. frames. Qed.

(** The evidence a responder has: its own challenge for that address, a record that
    verifies, whose key hashes to the address and signed the challenge, and a message under
    the keys that only the holder of the ephemeral secret can derive. *)
Record authenticated (c : discv5_client) (key : text) (packet : PacketView) (s : SessionState) : Prop := {
  au_flag : flag packet = kFlagHandshake;
  au_evidence : exists auth challenge r0 rec z plain,
    parse_handshake_auth (auth_data packet) = success auth /\
    sent_challenges_ c !! key = Some challenge /\
    challenge_node_addr challenge = session_node_addr s /\
    decode_rlp (record auth) = success r0 /\ verify_signature r0 = success rec /\ node_id rec = session_node_id s /\
    session_node_addr s = derive_node_address (session_node_id s) /\
    verify_id_signature (session_node_id s) (signature auth) (challenge_data challenge) (pubkey auth) (local_node_addr c) = true /\
    shared_secret_from_compressed_pubkey (pubkey auth) (config_private_key (client_config_ c)) = success z /\
    derive_session_keys z (challenge_data challenge) (session_node_addr s) (local_node_addr c) = success (read_key s, write_key s) /\
    decrypt_gcm (read_key s) (nonce packet) (msg_data packet) (header_data packet) = success plain
}.

Ltac rejected E Hs Hn := injection E as <-; exfalso; exact (Hn Hs).

(** The message of a handshake leaves the new session, with a request id, or removes it. *)
Lemma handshake_message_sessions packet sender key s0 c c' k s :
  handshake_message packet sender key s0 c = (success tt, c') -> sessions_ c !! key = Some s0 ->
  sessions_ c' !! k = Some s -> sessions_ c !! k = Some s \/
    (k = key /\ write_key s = write_key s0 /\ read_key s = read_key s0 /\ session_node_addr s = session_node_addr s0 /\ session_node_id s = session_node_id s0).
Proof.
  intros E Hold Hs. unfold handshake_message in E. destruct (decrypt_gcm _ _ _ _) as [plain|e|f]; cbn [on_result] in E; [| |done].
  - rewrite count_then, update_then in E. destruct plain as [|b body]; [injection E as <-; by left|].
    destruct (decide _) as [_|_]; [|injection E as <-; by left]. destruct (parse_findnode_req_id body) as [req|e|f]; cbn [on_result] in E; [|injection E as <-; by left|done].
    rewrite update_then in E. injection E as <-. cbn in Hs. destruct (decide (k = key)) as [->|Hk].
    + rewrite lookup_insert_eq in Hs. injection Hs as <-. by right.
    + rewrite lookup_insert_ne in Hs by done. by left.
  - rewrite update_then in E. injection E as <-. cbn in Hs. apply lookup_delete_Some in Hs as [_ Hs]. by left.
Qed.

Lemma handshake_sessions packet sender key c c' k s :
  handle_handshake packet sender key c = (success tt, c') -> flag packet = kFlagHandshake ->
  sessions_ c' !! k = Some s -> sessions_ c !! k <> Some s ->
  k = key /\ authenticated c key packet s /\ sent_challenges_ c' !! key = None.
Proof.
  intros E Hflag Hs Hn. unfold handle_handshake in E. rewrite count_then in E.
  destruct (parse_handshake_auth _) as [auth|e|f] eqn:Eauth; cbn [on_result] in E; [|rejected E Hs Hn|done]. rewrite get_then in E.
  change (sent_challenges_ (counting _ c)) with (sent_challenges_ c) in E. destruct (sent_challenges_ c !! key) as [ch|] eqn:Ech; [|rejected E Hs Hn].
  destruct (bool_decide_reflect (src_id auth = challenge_node_addr ch)) as [Esrc|]; cbn [negb] in E; [|rejected E Hs Hn].
  destruct (bool_decide _); [rejected E Hs Hn|].
  destruct (decode_rlp _) as [r0|e|f] eqn:Er0; cbn [on_result] in E; [|rejected E Hs Hn|done].
  destruct (verify_signature r0) as [rec|e|f] eqn:Erec; cbn [on_result] in E; [|rejected E Hs Hn|done].
  destruct (bool_decide_reflect (derive_node_address (node_id rec) = src_id auth)) as [Eid|]; cbn [negb] in E; [|rejected E Hs Hn].
  change (local_node_addr (counting _ c)) with (local_node_addr c) in E. change (client_config_ (counting _ c)) with (client_config_ c) in E.
  destruct (verify_id_signature _ _ _ _ _) eqn:Ever; cbn [negb] in E; [|rejected E Hs Hn].
  destruct (shared_secret_from_compressed_pubkey _ _) as [z|e|f] eqn:Ez; cbn [on_result] in E; [|rejected E Hs Hn|done].
  destruct (derive_session_keys _ _ _ _) as [[w r]|e|f] eqn:Ek; cbn [on_result] in E; [|rejected E Hs Hn|done].
  cbn [fst snd] in E. rewrite update_then in E. set (s0 := mkSession r w (src_id auth) (node_id rec) []) in *.
  set (c1 := with_sessions _ _) in E. assert (sessions_ c1 !! key = Some s0) as H0' by (cbn; by rewrite lookup_insert_eq).
  pose proof (handshake_message_sessions _ _ _ _ _ _ _ _ E H0' Hs) as Hcase.
  unfold handshake_message in E. destruct (decrypt_gcm _ _ _ _) as [plain|e|f] eqn:Ed; cbn [on_result] in E; [| |done].
  2: { exfalso. rewrite update_then in E. injection E as <-. cbn in Hs. apply lookup_delete_Some in Hs as [Hk Hs].
       rewrite lookup_insert_ne in Hs by done. done. }
  assert (sent_challenges_ c' !! key = None) as Hch.
  { rewrite count_then, update_then in E. change c' with ((success (E := discv5Error) tt, c').2). rewrite <- E.
    destruct plain as [|b body]; [apply lookup_delete_eq|]. destruct (decide _) as [_|_]; [|apply lookup_delete_eq].
    by destruct (parse_findnode_req_id body); apply lookup_delete_eq. }
  assert (k = key /\ write_key s = r /\ read_key s = w /\ session_node_addr s = src_id auth /\ session_node_id s = node_id rec) as (-> & Hw & Hr & Ha & Hi).
  { destruct Hcase as [Hc|(-> & ? & ? & ? & ?)]; [|done]. cbn in Hc. destruct (decide (k = key)) as [->|Hk].
    - rewrite lookup_insert_eq in Hc. by injection Hc as <-.
    - by rewrite lookup_insert_ne in Hc. }
  split; [done|]. split; [|done]. split; [done|]. exists auth, ch, r0, rec, z, plain. rewrite Hw, Hr, Ha, Hi, Eid, <- Esrc. by repeat split.
Qed.

(** C17: a packet creates or changes a session only for the endpoint it comes from, and only
    as a handshake that answers this client's own challenge to that endpoint: the record in
    it verifies, the key of the record hashes to the challenged address and signed the
    challenge, the session keys are derived from it, and the message decrypts under them.
    The challenge is then used up. *)
Theorem session_authenticated datagram sender now c c' key s :
  on_datagram datagram sender now c = (success tt, c') ->
  sessions_ c' !! key = Some s -> sessions_ c !! key <> Some s ->
  key = endpoint_key_of sender /\ sent_challenges_ c' !! key = None /\
  exists packet, decode_packet (take (Z.to_nat kMaxPacketBytes) datagram) (local_node_addr c) = success packet /\
    authenticated c key packet s.
Proof.
  intros E Hs Hn. unfold on_datagram in E. destruct (_ <? _); [rejected E Hs Hn|]. rewrite count_then in E. unfold handle_packet in E.
  rewrite get_then in E. change (local_node_addr (counting _ c)) with (local_node_addr c) in E.
  destruct (decode_packet _ _) as [packet|e|f] eqn:Ep; cbn [on_result] in E; [|rejected E Hs Hn|done].
  destruct (Z.eqb_spec (flag packet) kFlagWhoareyou).
  { change c' with ((success (E := discv5Error) tt, c').2) in Hs. rewrite <- E, whoareyou_sessions in Hs. done. }
  destruct (Z.eqb_spec (flag packet) kFlagMessage).
  { change c' with ((success (E := discv5Error) tt, c').2) in Hs. rewrite <- E, message_sessions in Hs. done. }
  destruct (Z.eqb_spec (flag packet) kFlagHandshake) as [Hf|]; [|rejected E Hs Hn].
  destruct (handshake_sessions _ _ _ _ _ _ _ E Hf Hs Hn) as (-> & Ha & Hc). split; [done|]. split; [done|]. exists packet. split; [done|].
  by destruct Ha.
Qed.
End authentication.

(** ** A session is never renegotiated *)

Definition stays {A} (P : discv5_client -> Prop) (m : Client A) : Prop := forall c, P c -> P (m c).2.

Section preserve_rules.
Context (P : discv5_client -> Prop).

Lemma stays_bind {A C} (m : Client A) (k : A -> Client C) : stays P m -> (forall a, stays P (k a)) -> stays P (m ≫= k).
Proof. intros Hm Hk c Hc. specialize (Hm c Hc). unfold mbind, M_bind. destruct (m c) as [[a|e|f] c']; [by apply Hk|done|done]. Qed.

Lemma stays_get {C} (k : discv5_client -> Client C) : (forall c, P c -> P (k c c).2) -> stays P (get_state ≫= k).
Proof. intros Hk c Hc. by apply Hk. Qed.

Lemma stays_then_get {C} (k : discv5_client -> Client C) : (forall c, P c -> stays P (k c)) -> stays P (get_state ≫= k).
Proof. intros Hk c Hc. by apply Hk. Qed.

Lemma stays_on_result {A} (r : outcome discv5Error A) onfail k :
  stays P onfail -> (forall a, r = success a -> stays P (k a)) -> stays P (on_result r onfail k).
Proof. intros Hf Hk. destruct r; [by apply Hk|apply Hf|by intros c Hc]. Qed.

Lemma stays_frame {A B} (g : discv5_client -> B) (m : Client A) :
  (forall c c', g c' = g c -> P c -> P c') -> frames g m -> stays P m.
Proof. intros Hg Hm c Hc. eapply Hg; [apply Hm|done]. Qed.
End preserve_rules.

Section stale.
Context `{Discv5Primitives} `{Hashes} `{CtrCiphers} (key wk rk local : list byte).

(** What the argument is about: the entries of one endpoint, and the local identity. *)
Definition at_key (c : discv5_client) : option SessionState * option PendingRequest * list byte :=
  (sessions_ c !! key, pending_requests_ c !! key, local_node_addr c).

(** A session with these keys, and no request in its place. *)
Definition settled (c : discv5_client) : Prop :=
  (exists s, sessions_ c !! key = Some s /\ write_key s = wk /\ read_key s = rk) /\ pending_requests_ c !! key = None /\ local_node_addr c = local.

Lemma settled_frame {A} (m : Client A) : frames at_key m -> stays settled m.
Proof. apply stays_frame. unfold at_key, settled. by intros c c' [= -> -> ->]. Qed.

Lemma at_key_quiet : quiet at_key.
Proof. by split. Qed.

Lemma frames_sessions k s : k <> key -> frames at_key (update (with_sessions <[k := s]>)).
Proof. intros Hk c. unfold at_key. cbn. by rewrite lookup_insert_ne. Qed.

Lemma frames_sessions_delete k : k <> key -> frames at_key (update (with_sessions (delete k))).
Proof. intros Hk c. unfold at_key. cbn. by rewrite lookup_delete_ne. Qed.

Lemma frames_pending k p : k <> key -> frames at_key (update (with_pending <[k := p]>)).
Proof. intros Hk c. unfold at_key. cbn. by rewrite lookup_insert_ne. Qed.

Lemma frames_pending_delete k : k <> key -> frames at_key (update (with_pending (delete k))).
Proof. intros Hk c. unfold at_key. cbn. by rewrite lookup_delete_ne. Qed.

#[local] Hint Resolve at_key_quiet frames_sessions frames_sessions_delete frames_pending frames_pending_delete : frames.

Ltac settled_step :=
  lazymatch goal with
  | |- stays _ (mbind _ get_state) => apply stays_then_get; intros ? ?
  | |- stays _ (mbind _ _) => apply stays_bind; [solve [apply settled_frame; frames_with]|intros ?]
  | |- stays _ (let '(_, _) := ?p in _) => destruct p
  | |- stays _ _ => solve [apply settled_frame; frames_with]
  end.

Lemma in_session_settled origin peer k s : (k = key -> write_key s = wk /\ read_key s = rk) -> stays settled (send_in_session origin peer k s).
Proof.
  intros Hk. unfold send_in_session. repeat settled_step. apply stays_bind; [|intros _; by settled_step].
  destruct (decide (k = key)) as [->|Hne]; [|apply settled_frame; by apply frames_sessions].
  intros c' [_ Hp]. split; [|done]. destruct (Hk eq_refl). eexists. cbn. by rewrite lookup_insert_eq.
Qed.

Lemma random_packet_settled origin peer k : k <> key -> stays settled (send_random_packet origin peer k).
Proof.
  intros Hk. unfold send_random_packet. repeat settled_step.
Qed.

Lemma handshake_settled origin peer k p : k <> key -> stays settled (counting_failures (send_handshake origin peer k p)).
Proof.
  intros Hk. apply settled_frame. assert (frames at_key (send_handshake origin peer k p)) as Hs by (unfold send_handshake; frames_with).
  intros c. specialize (Hs c). unfold counting_failures. by destruct (send_handshake origin peer k p c) as [[[]|e|f] c'].
Qed.

(** Whoever it is asked to query at that endpoint, the client uses the session it has. *)
Lemma send_findnode_settled origin peer : stays settled (send_findnode origin peer).
Proof.
  unfold send_findnode. apply stays_get. intros c Hc. set (k := endpoint_key _ _). destruct Hc as [(s & Es & Hw & Hr) Hrest].
  assert (settled c) as Hc by (split; [by exists s|done]).
  destruct (sessions_ c !! k) as [s'|] eqn:Es'.
  { apply in_session_settled; [|done]. intros Ek. rewrite Ek, Es in Es'. by injection Es' as <-. }
  assert (k <> key) as Hk by (intros Ek; rewrite Ek, Es in Es'; done).
  destruct (pending_requests_ c !! k) as [p|]; [|by apply random_packet_settled]. destruct (have_challenge p).
  - apply (stays_bind settled); [by apply settled_frame|intros _; by apply handshake_settled|done].
  - apply (stays_bind settled); [by apply settled_frame, frames_pending_delete|intros _; by apply random_packet_settled|done].
Qed.

Lemma whoareyou_settled packet k : stays settled (handle_whoareyou packet k).
Proof.
  unfold handle_whoareyou. destruct (negb _); [by intros c Hc|]. apply stays_get. intros c Hc. destruct (pending_requests_ c !! k) as [p|] eqn:Ep; [|done].
  assert (k <> key) as Hk by (intros ->; destruct Hc as (_ & Hp & _); by rewrite Hp in Ep).
  destruct (negb _); [done|]. revert c Hc Ep. intros c Hc _. revert c Hc. change (stays settled (id_nonce ← lift (bytes_at (auth_data packet) 0 kWhoareyouIdNonceBytes);
    record_seq ← lift (read_u64_be (drop (Z.to_nat kWhoareyouIdNonceBytes) (auth_data packet)));
    update (with_pending <[k := mkPending (pending_peer p) (pending_req_id p) (pending_nonce p) (header_data packet) id_nonce record_seq true]>) ;;
    count whoareyou_packets ;; spawn (FindNodeTask FromChallenge (pending_peer p)))).
  repeat settled_step.
Qed.

Lemma message_settled packet sender k now : stays settled (handle_message packet sender k now).
Proof. apply settled_frame. unfold handle_message, handle_plaintext. frames_with. Qed.

Lemma handle_handshake_settled packet sender k : k <> key -> stays settled (handle_handshake packet sender k).
Proof. intros Hk. apply settled_frame. unfold handle_handshake, handshake_message. cbv zeta. frames_with. Qed.

(** Not a handshake packet from the endpoint. *)
Definition no_handshake_from (e : event) : Prop :=
  match e with
  | EvDatagram datagram sender _ => endpoint_key_of sender = key ->
      forall packet, decode_packet (take (Z.to_nat kMaxPacketBytes) datagram) local = success packet -> flag packet <> kFlagHandshake
  | _ => True
  end.

Lemma datagram_settled datagram sender now : no_handshake_from (EvDatagram datagram sender now) -> stays settled (on_datagram datagram sender now).
Proof.
  intros Hno. unfold on_datagram. destruct (_ <? _); [by apply settled_frame|]. apply stays_bind; [by apply settled_frame|intros _].
  unfold handle_packet. apply stays_then_get. intros c (_ & _ & ->). apply stays_on_result; [by apply settled_frame|]. intros packet Ep. cbv zeta.
  destruct (_ =? _); [apply whoareyou_settled|]. destruct (_ =? _); [apply message_settled|].
  destruct (Z.eqb_spec (flag packet) kFlagHandshake) as [Ef|]; [|by apply settled_frame]. apply handle_handshake_settled. intros Ek. by apply (Hno Ek packet).
Qed.

Lemma frames_failed peer : frames at_key (findnode_failed peer).
Proof. unfold findnode_failed. frames_with. Qed.

Lemma frames_whoareyou sender addr nonce : frames at_key (send_whoareyou sender addr nonce).
Proof. unfold send_whoareyou. frames_with. Qed.

Lemma frames_request req_id sender : frames at_key (handle_findnode_request req_id sender).
Proof. unfold handle_findnode_request. frames_with. Qed.
#[local] Hint Resolve frames_failed frames_whoareyou frames_request : frames.

Lemma run_task_settled t : stays settled (run_task t).
Proof.
  destruct t as [| |origin peer|sender addr nonce|req sender]; cbn [run_task]; try (apply settled_frame; by frames_with).
  intros c Hc. pose proof (send_findnode_settled origin peer c Hc) as Hs.
  destruct (send_findnode origin peer c) as [[[]|e|f] c']; [done| |done]. exact (settled_frame _ (frames_failed peer) c' Hs).
Qed.

Lemma run_event_settled e : no_handshake_from e -> stays settled (run_event e).
Proof.
  intros He. unfold run_event. apply stays_get. intros c Hc. revert Hc.
  destruct e as [now| |uri|peer error|i|datagram sender now| | |i ok].
  - apply (settled_frame (client_start now)). unfold client_start. frames_with.
  - apply (settled_frame client_stop). unfold client_stop. frames_with.
  - by apply (settled_frame (add_bootnode uri)).
  - apply (settled_frame (client_set_peer_callback peer ;; client_set_error_callback error)). unfold client_set_peer_callback, client_set_error_callback. frames_with.
  - destruct (spawned_ c !! i) as [t|]; [|done]. apply (stays_bind settled (update _)); [by apply settled_frame|intros _; apply run_task_settled].
  - destruct (receive_loops_ c), (socket_ c); try done. by apply datagram_settled.
  - destruct (receive_loops_ c); [done|]. by destruct (client_running_ c).
  - destruct (crawler_loops_ c); [done|]. apply (stays_bind settled (update _)); [by apply settled_frame|intros _; apply settled_frame, frames_pass, at_key_quiet].
  - destruct (sending_ c !! i) as [w|]; [|done]. apply (stays_bind settled (update _)); [by apply settled_frame|intros _].
    apply settled_frame. unfold send_done. frames_with.
Qed.

(** C35: once an endpoint has a session and no request pending, nothing but a handshake packet
    from that endpoint changes its keys: whatever peers the client is asked to query there,
    whatever it receives and however its coroutines interleave, it goes on sending under them
    and never starts a handshake of its own, and a WHOAREYOU, the way a peer that has lost the
    session asks for a new one, has no effect but on a counter. *)
Theorem session_never_renegotiated `{!Discv5Laws} c events :
  settled c -> Forall no_handshake_from events ->
  settled (run_client events c).2 /\
  forall iv nonce auth sender now, library_ready -> endpoint_key_of sender = key ->
    Zlen iv = kMaskingIvBytes -> Zlen nonce = kGcmNonceBytes -> Zlen auth = kWhoareyouAuthDataBytes ->
    on_datagram (packet_wire iv kFlagWhoareyou nonce auth [] local) sender now c = (success tt, counting received_packets c).
Proof.
  intros Hc Hev. split.
  - revert c Hc. induction Hev as [|e events He Hev IH]; intros c Hc; [done|]. unfold run_client. cbn [for_each].
    refine (stays_bind settled (run_event e) _ _ _ c Hc); [by apply run_event_settled|]. intros _. exact IH.
  - intros iv nonce auth sender now Hlib Hk Hi Hn Ha. destruct Hc as (_ & Hp & <-).
    rewrite (on_datagram_wire _ _ _ _ _ _ _ _ Hlib Hi Hn) by (try done; rewrite ?Ha; done).
    unfold dispatch, handle_whoareyou. cbn [flag auth_size]. rewrite Ha. change (kFlagWhoareyou =? kFlagWhoareyou) with true.
    cbn iota. rewrite Z.eqb_refl. cbn [negb]. rewrite get_then, Hk. change (pending_requests_ (counting _ c)) with (pending_requests_ c). by rewrite Hp.
Qed.
End stale.

(** ** Every handshake is accounted for *)

(** The handshakes that were accepted, and those that were rejected for their authentication
    data, their challenge, their record, their keys or their message. *)
Definition handshake_outcomes (c : discv5_client) : Z :=
  counter_ c inbound_handshake_reject_auth + counter_ c inbound_handshake_reject_challenge + counter_ c inbound_handshake_reject_record +
  counter_ c inbound_handshake_reject_crypto + counter_ c inbound_handshake_reject_decrypt + counter_ c handshake_packets.

(** Handshake packets seen that no other counter has recorded yet. *)
Definition unaccounted (c : discv5_client) : Z := u64 (counter_ c inbound_handshake_seen - handshake_outcomes c).

(** A computation that moves the balance by [d], unless it faults. *)
Definition moves {A} (d : Z) (m : Client A) : Prop := forall c,
  match (m c).1 with crash _ => True | _ => unaccounted (m c).2 = u64 (unaccounted c + d) end.

Lemma unaccounted_u64 c : u64 (unaccounted c) = unaccounted c.
Proof. unfold unaccounted, handshake_outcomes, u64. apply Z.mod_mod. lia. Qed.

Lemma moves_frame {A} (m : Client A) : frames unaccounted m -> moves 0 m.
Proof. intros Hm c. specialize (Hm c). rewrite Z.add_0_r, unaccounted_u64. by destruct (m c).1. Qed.

Lemma moves_then {B} d1 d2 f (k : Client B) : moves d1 (update f) -> moves d2 k -> moves (d1 + d2) (update f ;; k).
Proof.
  intros H1 H2 c. rewrite update_then. specialize (H1 c). specialize (H2 (f c)). cbn in H1. destruct (k (f c)) as [[a|e|ft] c']; cbn in *; [| |done].
  all: rewrite H2, H1; unfold u64; rewrite Z.add_mod_idemp_l by lia; f_equal; lia.
Qed.

Lemma moves_on_result {A} d (r : outcome discv5Error A) onfail k :
  moves d onfail -> (forall a, moves d (k a)) -> moves d (on_result r onfail k).
Proof. intros Hf Hk. destruct r; [apply Hk|apply Hf|done]. Qed.

Lemma moves_get {B} d (k : discv5_client -> Client B) : (forall c, moves d (k c)) -> moves d (get_state ≫= k).
Proof. intros Hk c. apply Hk. Qed.

Lemma seen_moves : moves 1 (count inbound_handshake_seen).
Proof.
  intros c. cbn [fst snd count update]. unfold unaccounted, handshake_outcomes, u64. cbn [counter_ with_counter].
  repeat (case_decide; try done). unfold u64.
  rewrite Z.add_mod_idemp_l, Zminus_mod_idemp_l by lia. apply (f_equal (fun x => x mod 2 ^ 64)). lia.
Qed.

Lemma u64_less a b y : u64 (a - (b - y + u64 (y + 1))) = u64 (u64 (a - b) + -1).
Proof.
  unfold u64. rewrite Z.add_mod_idemp_l by lia. replace (a - (b - y + (y + 1) mod 2 ^ 64)) with ((a - b + y) - (y + 1) mod 2 ^ 64) by lia.
  rewrite Zminus_mod_idemp_r. apply (f_equal (fun x => x mod 2 ^ 64)). lia.
Qed.

(** One of the outcomes of a handshake. *)
Ltac counts k :=
  intros c; cbn [fst snd count update]; unfold unaccounted, handshake_outcomes; cbn [counter_ with_counter];
  repeat (case_decide; try done);
  match goal with |- u64 (?a - ?S) = u64 (u64 (?a - ?S0) + _) =>
    replace S with (S0 - counter_ c k + u64 (counter_ c k + 1)) by lia; apply u64_less end.

Lemma reject_auth_moves : moves (-1) (count inbound_handshake_reject_auth).
Proof. counts inbound_handshake_reject_auth. Qed.
Lemma reject_challenge_moves : moves (-1) (count inbound_handshake_reject_challenge).
Proof. counts inbound_handshake_reject_challenge. Qed.
Lemma reject_record_moves : moves (-1) (count inbound_handshake_reject_record).
Proof. counts inbound_handshake_reject_record. Qed.
Lemma reject_crypto_moves : moves (-1) (count inbound_handshake_reject_crypto).
Proof. counts inbound_handshake_reject_crypto. Qed.
Lemma reject_decrypt_moves : moves (-1) (count inbound_handshake_reject_decrypt).
Proof. counts inbound_handshake_reject_decrypt. Qed.
Lemma handshake_moves : moves (-1) (count handshake_packets).
Proof. counts handshake_packets. Qed.

Section accounting.
Context `{Discv5Primitives} `{Hashes} `{CtrCiphers}.

Ltac outcome :=
  first [apply reject_auth_moves|apply reject_challenge_moves|apply reject_record_moves|apply reject_crypto_moves].

Lemma handshake_message_moves packet sender key s : moves (-1) (handshake_message packet sender key s).
Proof.
  apply moves_on_result.
  - change (-1) with (0 + -1). apply moves_then; [by apply moves_frame|apply reject_decrypt_moves].
  - intros plain. change (-1) with (-1 + 0). apply (moves_then _ _ _ _ handshake_moves). apply moves_frame. frames.
Qed.

Lemma handle_handshake_moves packet sender key : moves 0 (handle_handshake packet sender key).
Proof.
  change 0 with (1 + -1). apply (moves_then _ _ _ _ seen_moves). apply moves_on_result; [outcome|]. intros auth. apply moves_get. intros c.
  destruct (sent_challenges_ c !! key) as [ch|]; [|outcome]. destruct (negb _); [outcome|]. destruct (bool_decide _); [outcome|].
  apply moves_on_result; [outcome|]. intros r0. apply moves_on_result; [outcome|]. intros rec. destruct (negb _); [outcome|]. cbv zeta.
  destruct (negb _); [outcome|]. apply moves_on_result; [outcome|]. intros z. apply moves_on_result; [outcome|]. intros keys.
  change (-1) with (0 + -1). apply moves_then; [by apply moves_frame|]. apply handshake_message_moves.
Qed.
Lemma unaccounted_quiet : quiet unaccounted.
Proof. by split. Qed.
#[local] Hint Resolve unaccounted_quiet : frames.

Lemma send_findnode_unaccounted origin peer : frames unaccounted (send_findnode origin peer).
Proof.
  unfold send_findnode. apply frames_get. intros c. destruct (sessions_ c !! _) as [s|]; [unfold send_in_session; frames_with|].
  assert (forall key, frames unaccounted (send_random_packet origin peer key)) as Hr by (intros key; unfold send_random_packet; frames_with).
  destruct (pending_requests_ c !! _) as [p|]; [|apply Hr]. destruct (have_challenge p); (apply frames_bind; [done|intros _]); [|apply Hr].
  assert (forall key, frames unaccounted (send_handshake origin peer key p)) as Hs by (intros key; unfold send_handshake; frames_with).
  intros c'. specialize (Hs (endpoint_key (peer_ip peer) (peer_udp_port peer)) c'). unfold counting_failures. by destruct (send_handshake _ _ _ _ c') as [[[]|e|f] c''].
Qed.

Lemma run_task_unaccounted t : frames unaccounted (run_task t).
Proof.
  destruct t as [| |origin peer|sender addr nonce|req sender]; cbn [run_task]; [frames_with|frames_with| | |].
  - intros c. pose proof (send_findnode_unaccounted origin peer c) as Hs. destruct (send_findnode origin peer c) as [[[]|e|f] c']; [done| |done].
    cbn [snd] in Hs. rewrite <- Hs. clear Hs. revert c'. change (frames unaccounted (findnode_failed peer)). unfold findnode_failed. frames_with.
  - apply frames_ignoring. unfold send_whoareyou. frames_with.
  - apply frames_ignoring. unfold handle_findnode_request. frames_with.
Qed.

Lemma datagram_moves datagram sender now : moves 0 (on_datagram datagram sender now).
Proof.
  unfold on_datagram. destruct (_ <? _); [by apply moves_frame|]. change 0 with (0 + 0). apply moves_then; [by apply moves_frame|].
  unfold handle_packet. apply moves_get. intros c. apply moves_on_result; [by apply moves_frame|]. intros packet. cbv zeta.
  destruct (_ =? _); [apply moves_frame; unfold handle_whoareyou; frames_with|].
  destruct (_ =? _); [apply moves_frame; unfold handle_message, handle_plaintext; frames_with|].
  destruct (_ =? _); [apply handle_handshake_moves|by apply moves_frame].
Qed.

Lemma run_event_moves e : moves 0 (run_event e).
Proof.
  unfold run_event. apply moves_get. intros c. destruct e as [now| |uri|peer error|i|datagram sender now| | |i ok];
    try (apply moves_frame; unfold client_start, client_stop, add_bootnode, client_set_peer_callback, client_set_error_callback; by frames_with).
  - apply moves_frame. destruct (spawned_ c !! i) as [t|]; [|done]. apply frames_bind; [done|intros _]. apply run_task_unaccounted.
  - destruct (receive_loops_ c), (socket_ c); try by apply moves_frame. apply datagram_moves.
  - apply moves_frame. destruct (sending_ c !! i) as [w|]; [|done]. apply frames_bind; [done|intros _]. unfold send_done, findnode_failed. frames_with.
Qed.

(** C36: in every run, whatever the packets and the interleaving, each handshake packet that was
    counted as seen is counted as exactly one outcome: accepted, or rejected for its
    authentication data, its challenge, its record, its keys or its message. *)
Theorem handshakes_accounted config port supply events c :
  run_client events (discv5_client_new config port supply) = (success tt, c) ->
  u64 (counter_ c inbound_handshake_seen) = u64 (handshake_outcomes c).
Proof.
  intros E. assert (unaccounted c = 0) as Hz.
  { assert (forall c0, unaccounted c0 = 0 -> run_client events c0 = (success tt, c) -> unaccounted c = 0) as Hrun; [|exact (Hrun (discv5_client_new config port supply) eq_refl E)].
    clear E. induction events as [|e events IH]; intros c0 Hc0 E; [by injection E as <-|]. unfold run_client in E. cbn [for_each] in E.
    pose proof (run_event_moves e c0) as Hm. unfold mbind, M_bind in E. destruct (run_event e c0) as [[[]|er|f] c1]; [|done|done].
    cbn [fst snd] in Hm. rewrite Hc0 in Hm. apply (IH c1 Hm E). }
  unfold unaccounted, handshake_outcomes, u64 in Hz. unfold u64. match type of Hz with (?a - ?b) mod _ = _ => replace a with (a - b + b) by lia end.
  by rewrite Z.add_mod, Hz, Z.add_0_l, Z.mod_mod by lia.
Qed.
End accounting.

(** ** Defects *)

Section defects.
Context `{Discv5Laws} `{HashesLaws} `{CtrCiphers}.

(** requests are kept by endpoint and not by node.  When a request to one node waits for its
    handshake and another node is queried at the same endpoint, the handshake is made with
    the first node's key and the second node's address: the session that is stored names one
    node and authenticates packets of the other, and the request of the first is gone. *)
Theorem session_of_two_nodes origin peer c pending e n iv rest port own address other_priv :
  let key := endpoint_key (peer_ip peer) (peer_udp_port peer) in
  library_ready -> node_ready c port own ->
  sessions_ c !! key = None -> pending_requests_ c !! key = Some pending -> have_challenge pending = true ->
  pending_record_seq pending = 0 -> Zlen (pending_req_id pending) = 4 ->
  is_keypair (peer_node_id (pending_peer pending)) other_priv -> make_address (peer_ip peer) = Some address ->
  derive_node_address (peer_node_id peer) <> derive_node_address (peer_node_id (pending_peer pending)) ->
  random_ c = Some e :: Some n :: Some iv :: rest -> seckey_verify (drawn kPrivateKeyBytes e) = true ->
  exists c' s, run_task (FindNodeTask origin peer) c = (success tt, c') /\
    sessions_ c' !! key = Some s /\ pending_requests_ c' !! key = None /\
    session_node_id s = peer_node_id (pending_peer pending) /\ session_node_addr s = derive_node_address (peer_node_id peer) /\
    session_node_addr s <> derive_node_address (session_node_id s).
Proof.
  intros key Hlib Hc Hs Hp Hch Hseq Hreq Hk Ha Hne Er Hv. set (c1 := counting outbound_handshake_attempts c).
  destruct (handshake_sent origin peer key pending c1 e n iv rest port address own other_priv) as (raw & sig & eph & w & r & _ & _ & E);
    try done; [by destruct Hc|lia|].
  cbv zeta in E. match type of E with _ = (_, ?x) => set (c' := x) in E end.
  exists c', (opened_session (w, r) peer pending). split.
  { cbn [run_task]. unfold send_findnode. rewrite get_then. fold key. rewrite Hs, Hp, Hch, count_then. fold c1. unfold counting_failures. by rewrite E. }
  unfold c'. cbn. rewrite lookup_insert_eq, lookup_delete_eq. done.
Qed.

(** A record that is no longer than its header and signature. *)
Definition short_record (sig : list byte) : list byte := rlp_header 192 0 ++ rlp_string sig ++ [].

(** A handshake for an outstanding challenge reaches the record parser before anything is
    verified. *)
Lemma handshake_overruns packet sender key c challenge sig pk esig :
  sent_challenges_ c !! key = Some challenge -> Zlen (challenge_node_addr challenge) = kKeccak256Bytes ->
  Zlen sig < 256 -> Zlen pk < 256 -> Zlen esig = kEnrSigBytes ->
  auth_data packet = handshake_auth (challenge_node_addr challenge) sig pk (short_record esig) ->
  (handle_handshake packet sender key c).1 = crash OutOfBounds.
Proof.
  intros Hch Haddr Hs Hp He Ea. unfold handle_handshake. rewrite count_then, Ea, parse_handshake_auth_eq by done. cbn [on_result].
  rewrite get_then. change (sent_challenges_ (counting _ c)) with (sent_challenges_ c). rewrite Hch. cbn [src_id record].
  rewrite bool_decide_eq_true_2 by done. cbn [negb]. rewrite bool_decide_eq_false_2 by done. unfold short_record.
  rewrite decode_rlp_short_list; [done|lia|done|cbn; lia|]. unfold fits. rewrite !length_app. pose proof (sig_item_length esig He).
  change (length (rlp_header 192 0)) with 1%nat. cbn [length]. lia.
Qed.


(** The crawler has its own copy of the configuration: [add_bootnode] changes the client's,
    which nothing reads. *)
Lemma bootnode_never_used uri now c :
  crawler_ ((add_bootnode uri ;; client_start now) c).2 = crawler_ (client_start now c).2.
Proof.
  rewrite (bind_success _ _ _ _ _ (eq_refl : add_bootnode uri c = (success tt, _))). unfold client_start. rewrite !get_then, !update_then. cbn [client_running_ with_config].
  destruct (client_running_ c); [done|]. unfold spawn. rewrite !update_then. unfold ignoring, on_crawler. cbn [crawler_ with_spawned with_running with_config].
  by destruct (start now (crawler_ c)) as [[]].
Qed.
End defects.

(** ** Sample runs *)

Import SampleDiscv5 SampleClient.


(** Bob with a challenge for Alice outstanding, and the packet she answers it with. *)
Module SampleHandshake5.
Definition alice_addr : list byte := local_node_addr alice.
Definition request : list byte :=
  packet_wire (replicate 16 x01) kFlagMessage (replicate 12 x02) alice_addr (replicate 20 x03) (local_node_addr bob).
Definition bob_asked : discv5_client := (run_client [EvDatagram request (node_at 30000) 0; EvTask 0] bob).2.
Definition challenge : list byte := default [] (snd <$> last (sent_ bob_asked)).

(** Alice with her request, with the challenge taken, and with the handshake sent. *)
Definition alice_asking : discv5_client :=
  with_pending <[endpoint_key_of (node_at 30001) := random_pending (peer_of x05 30001) (replicate 12 x02)]> (with_spawned [] alice).
Definition alice_challenged : discv5_client := (run_event (EvDatagram challenge (node_at 30001) 0) alice_asking).2.
Definition alice_sent : discv5_client := (run_event (EvTask 0) alice_challenged).2.
Definition handshake : list byte := default [] (snd <$> last (sent_ alice_sent)).
Definition bob_accepted : discv5_client := (on_datagram handshake (node_at 30000) 0 bob_asked).2.
Definition bob_session : SessionState :=
  default (mkSession [] [] [] [] []) (sessions_ bob_accepted !! endpoint_key_of (node_at 30000)).
Definition alice_session : SessionState :=
  default (mkSession [] [] [] [] []) (sessions_ alice_sent !! endpoint_key_of (node_at 30001)).
End SampleHandshake5.
Import SampleHandshake5.

Lemma session_authenticated_witness :
  session_node_id bob_session = pub_of x03 /\
  exists packet, decode_packet (take (Z.to_nat kMaxPacketBytes) handshake) (local_node_addr bob_asked) = success packet /\
    authenticated bob_asked (endpoint_key_of (node_at 30000)) packet bob_session.
Proof.
  split; [by vm_compute|].
  apply (session_authenticated handshake (node_at 30000) 0 bob_asked bob_accepted (endpoint_key_of (node_at 30000)) bob_session).
  - by vm_compute.
  - by vm_compute.
  - by vm_compute.
Defined.

Lemma session_never_renegotiated_witness :
  settled (endpoint_key_of (node_at 30001)) (write_key alice_session) (read_key alice_session) alice_addr
    (run_client [EvDatagram challenge (node_at 30001) 0; EvSent 0 true; EvTimer] alice_sent).2 /\
  on_datagram (packet_wire (replicate 16 x01) kFlagWhoareyou (replicate 12 x02) (replicate 24 x03) [] alice_addr) (node_at 30001) 0 alice_sent =
    (success tt, counting received_packets alice_sent).
Proof.
  assert (settled (endpoint_key_of (node_at 30001)) (write_key alice_session) (read_key alice_session) alice_addr alice_sent) as Hc.
  { split; [exists alice_session; by vm_compute|by vm_compute]. }
  destruct (session_never_renegotiated (endpoint_key_of (node_at 30001)) (write_key alice_session) (read_key alice_session) alice_addr alice_sent
    [EvDatagram challenge (node_at 30001) 0; EvSent 0 true; EvTimer] Hc) as [Hrun Hwho].
  - constructor; [|by repeat constructor]. intros _ packet E.
    assert (flag <$> (match decode_packet (take (Z.to_nat kMaxPacketBytes) challenge) alice_addr with success p => Some p | _ => None end) = Some kFlagWhoareyou)
      as Hf by by vm_compute.
    rewrite E in Hf. injection Hf as ->. done.
  - split; [exact Hrun|]. apply Hwho; [exact sample_ready|done|done|done|done].
Defined.

Definition sample_events : list event := [EvStart 0; EvTask 0; EvDatagram (replicate 70 x01) (node_at 30000) 0].
Definition sample_run : outcome discv5Error unit * discv5_client :=
  run_client sample_events (discv5_client_new (config_of x03 30000) 30000 (draws 8)).

Lemma handshakes_accounted_witness :
  counter_ sample_run.2 received_packets = 1 /\
  u64 (counter_ sample_run.2 inbound_handshake_seen) = u64 (handshake_outcomes sample_run.2).
Proof.
  split; [by vm_compute|]. apply (handshakes_accounted (config_of x03 30000) 30000 (draws 8) sample_events). by vm_compute.
Defined.

(** Another node at the endpoint of the one that was challenged. *)
Lemma session_of_two_nodes_witness :
  let c := with_spawned [] alice_challenged in
  exists c' s, run_task (FindNodeTask FromCrawler (peer_of x09 30001)) c = (success tt, c') /\
    sessions_ c' !! endpoint_key (address_to_string own) 30001 = Some s /\
    pending_requests_ c' !! endpoint_key (address_to_string own) 30001 = None /\
    session_node_id s = pub_of x05 /\ session_node_addr s = derive_node_address (pub_of x09) /\
    session_node_addr s <> derive_node_address (session_node_id s).
Proof.
  pose (p := mkPending (peer_of x05 30001) (make_req_id (peer_of x05 30001)) (replicate 12 x02) (take 63 (pending_challenge (default
    (random_pending (peer_of x05 30001) []) (pending_requests_ alice_challenged !! endpoint_key (address_to_string own) 30001))))
    (replicate 16 x07) 0 true).
  apply (session_of_two_nodes FromCrawler (peer_of x09 30001) (with_spawned [] alice_challenged) p
    (replicate 32 x07) (replicate 32 x07) (replicate 32 x07) (draws 5) 30000 own own (priv_of x05)).
  - exact sample_ready.
  - split; [split; [by vm_compute|exists x03; by vm_compute]|by vm_compute|lia|by vm_compute|by vm_compute|by vm_compute].
  - by vm_compute.
  - by vm_compute.
  - by vm_compute.
  - by vm_compute.
  - by vm_compute.
  - split; [by vm_compute|exists x05; by vm_compute].
  - by vm_compute.
  - by vm_compute.
  - by vm_compute.
  - by vm_compute.
Defined.

