(* ===== verification/RpcHttpTransport.v ===== *)
(** * JSON-RPC over HTTP

    [include/eth/rpc_http_transport.hpp] and [src/eth/rpc_http_transport.cpp]: the URL of an
    endpoint, and the call that posts a request to it, over TLS or not.

    The network is a parameter: [net] says whether an operation succeeds after the
    operations that came before it, [reply] what is read.  A call is a computation on the
    list of the operations it has asked for, and fails where the code returns no value.
    The options [timeout] and [verify_peer] reach the operations they are given to; that a
    blocking operation ends in time is not part of the model. *)

From S2P Require Import Prelude ParseUtility JsonUtility EventFilter JsonRpc ReceiptSource Discv5Crawler RpcManager.

(** ** The URL *)

Record RpcHttpTransportOptions := mkHttpOptions { http_timeout : Z; verify_peer : bool }.

Definition default_options : RpcHttpTransportOptions := mkHttpOptions 30 true.

Record RpcHttpTransport := mkHttpTransport { endpoint_url_ : text; options_ : RpcHttpTransportOptions }.

Record ParsedUrl := mkParsedUrl { pu_scheme : text; pu_host : text; pu_port : text; pu_target : text; pu_https : bool }.

Definition default_port (https : bool) : text := if https then lit "443" else lit "80".

Definition split_host_port (authority : text) (https : bool) : option (text * text) :=
  match rfind_char ":"%byte authority with
  | None => Some (authority, default_port https)
  | Some colon =>
      let host := take colon authority in
      let port := drop (colon + 1) authority in
      if decide (host = [] \/ port = []) then None else Some (host, port)
  end.

Definition parse_url (url : text) : option ParsedUrl :=
  scheme_end ← text_find (lit "://") url;
  let scheme := take scheme_end url in
  let https := bool_decide (scheme = lit "https") in
  if negb https && negb (bool_decide (scheme = lit "http")) then None else
  let rest := drop (scheme_end + 3) url in
  let path_begin := find_char "/"%byte rest in
  let authority := match path_begin with None => rest | Some i => take i rest end in
  if decide (authority = []) then None else
  '(host, port) ← split_host_port authority https;
  let target := match path_begin with None => lit "/" | Some i => drop i rest end in
  Some (mkParsedUrl scheme host port (if decide (target = []) then lit "/" else target) https).

(** ** The call *)

Record HttpRequest := mkHttpRequest {
  rq_target : text;
  rq_host : text;
  rq_user_agent : text;
  rq_content_type : text;
  rq_body : text
}.

Inductive net_op :=
  | Resolve (host port : text)
  | DefaultVerifyPaths
  | LoadVerifyFile (path : text)
  | SetServerName (host : text)
  | Connect (timeout : Z)
  (** with [rfc2818_verification] of the host, or without any verification *)
  | Handshake (verified_host : option text)
  | Send (encrypted : bool) (request : HttpRequest)
  | Receive (encrypted : bool)
  | Shutdown (encrypted : bool).

Definition kFallbackCaPaths : list text := map lit
  ["/etc/ssl/cert.pem"; "/opt/homebrew/etc/openssl@3/cert.pem"; "/opt/homebrew/etc/ca-certificates/cert.pem";
   "/usr/local/etc/openssl@3/cert.pem"; "/usr/local/etc/openssl/cert.pem"; "/etc/ssl/certs/ca-certificates.crt"].

Section http_call.
Context (json_serialize : json -> text) (user_agent : text) (ssl_cert_file : option text).
Context (net : list net_op -> net_op -> bool) (reply : list net_op -> Z * text).

Definition Call := M (list net_op) unit.

(** An operation whose error is ignored, and one whose error ends the call. *)
Definition ignored (op : net_op) : Call unit := fun ops => (success tt, ops ++ [op]).
Definition required (op : net_op) : Call unit := fun ops => (if net ops op then success tt else failure tt, ops ++ [op]).

Definition read_body_from_response (response : Z * text) : option text :=
  if (response.1 <? 200) || (300 <=? response.1) then None else Some response.2.

Definition read_response (encrypted : bool) : Call (Z * text) :=
  ops ← get_state; required (Receive encrypted) ;; mret (reply ops).

Definition make_request (url : ParsedUrl) (body : text) : HttpRequest :=
  mkHttpRequest (pu_target url) (pu_host url) user_agent (lit "application/json") body.

Definition exchange (encrypted : bool) (url : ParsedUrl) (body : text) : Call text :=
  required (Send encrypted (make_request url body)) ;;
  response ← read_response encrypted;
  match read_body_from_response response with
  | None => fail tt
  | Some response_body => ignored (Shutdown encrypted) ;; mret response_body
  end.

(** The certificates that are trusted besides the default ones; errors are ignored. *)
Definition load_certificates : Call unit :=
  ignored DefaultVerifyPaths ;;
  match ssl_cert_file with
  | Some file => if decide (file = []) then mret tt else ignored (LoadVerifyFile file)
  | None => mret tt
  end ;;
  for_each (fun path => ignored (LoadVerifyFile path)) kFallbackCaPaths.

Definition read_https_response (url : ParsedUrl) (body : text) (options : RpcHttpTransportOptions) : Call text :=
  required (Resolve (pu_host url) (pu_port url)) ;;
  load_certificates ;;
  required (SetServerName (pu_host url)) ;;
  required (Connect (http_timeout options)) ;;
  required (Handshake (if verify_peer options then Some (pu_host url) else None)) ;;
  exchange true url body.

Definition call (transport : RpcHttpTransport) (request : json) : Call text :=
  match parse_url (endpoint_url_ transport) with
  | None => fail tt
  | Some url =>
      let body := json_serialize request in
      if pu_https url then read_https_response url body (options_ transport)
      else
        required (Resolve (pu_host url) (pu_port url)) ;;
        required (Connect (http_timeout (options_ transport))) ;;
        exchange false url body
  end.

(** What a receipt source sees of it: every call has its own connection. *)
Definition http_transport (transport : RpcHttpTransport) (request : json) : option text :=
  match (call transport request []).1 with success body => Some body | _ => None end.
End http_call.

(** ** Which URLs are accepted *)

(** The authority part: a host with the port of the scheme, or host and port around the
    last colon. *)
Definition authority_of (https : bool) (host port authority : text) : Prop :=
  (":"%byte ∉ authority /\ host = authority /\ port = default_port https) \/
  (authority = host ++ ":"%byte :: port /\ ":"%byte ∉ port /\ host <> [] /\ port <> []).

Definition path_of (target path : text) : Prop :=
  (path = [] /\ target = lit "/") \/ (exists rest, path = "/"%byte :: rest /\ target = path).

Lemma split_host_port_exact authority https host port : authority <> [] ->
  split_host_port authority https = Some (host, port) <-> authority_of https host port authority.
Proof.
  intros Hne. unfold split_host_port, authority_of. pose proof (rfind_char_split ":"%byte authority) as Hr.
  split.
  - destruct (rfind_char _ _) as [i|]; [|intros [= <- <-]; by left].
    destruct Hr as (rest & E & -> & Hn). case_decide as Hd; [done|]. apply Decidable.not_or in Hd as [? ?]. intros [= <- <-]. by right.
  - intros [(Hn & -> & ->)|(-> & Hn & Hh & Hp)].
    + destruct (rfind_char _ _) as [i|]; [|done]. destruct Hr as (rest & E & _). exfalso. apply Hn. rewrite E. set_solver.
    + rewrite rfind_char_app by done. rewrite take_app_length, drop_past.
      rewrite decide_False by tauto. done.
Qed.

Lemma scheme_found (https : bool) rest :
  let scheme := if https then lit "https" else lit "http" in
  text_find (lit "://") (scheme ++ lit "://" ++ rest) = Some (length scheme) /\
  take (length scheme) (scheme ++ lit "://" ++ rest) = scheme /\ drop (length scheme + 3) (scheme ++ lit "://" ++ rest) = rest.
Proof. destruct https; repeat split. Qed.

(** Exactly the URLs [http://authority/path] and [https://authority/path] are accepted, with
    or without a path, the authority being a host or a host and a port around its last colon,
    and each part is what the URL says. *)
Theorem endpoint_url_exact url p :
  parse_url url = Some p <->
  exists authority path, url = pu_scheme p ++ lit "://" ++ authority ++ path /\
    pu_scheme p = (if pu_https p then lit "https" else lit "http") /\ "/"%byte ∉ authority /\ authority <> [] /\
    authority_of (pu_https p) (pu_host p) (pu_port p) authority /\ path_of (pu_target p) path.
Proof.
  split.
  - unfold parse_url. destruct (text_find _ url) as [e|] eqn:Ef; [|done]. cbn [mbind option_bind].
    destruct (text_find_bound _ _ _ Ef) as [[rest Hr] _]. set (scheme := take e url).
    assert (url = scheme ++ lit "://" ++ rest) as Hu by (rewrite <- Hr; symmetry; apply take_drop).
    assert (drop (e + 3) url = rest) as ->. { rewrite <- drop_drop, Hr. done. }
    destruct (negb _ && _) eqn:Es; [done|]. set (https := bool_decide _) in *.
    assert (scheme = if https then lit "https" else lit "http") as Hs.
    { unfold https in *. destruct (bool_decide_reflect (scheme = lit "https")); [done|].
      by destruct (bool_decide_reflect (scheme = lit "http")). }
    pose proof (find_char_split "/"%byte rest) as Hp. clear Es. case_decide as Ha; [done|].
    destruct (split_host_port _ https) as [[h pt]|] eqn:Esp; [|done]. cbn [mbind option_bind]. intros [= <-].
    cbn [pu_scheme pu_https pu_host pu_port pu_target]. apply split_host_port_exact in Esp; [|done].
    destruct (find_char "/"%byte rest) as [i|].
    + destruct Hp as (Hn & r & Hd). exists (take i rest), (drop i rest). rewrite take_drop. split_and!; try done.
      right. exists r. split; [done|]. by rewrite decide_False by by rewrite Hd.
    + exists rest, []. rewrite app_nil_r. split_and!; try done. by left.
  - intros (authority & path & -> & Hs & Hn & Hne & Ha & Hp). destruct p as [scheme h pt target https]. cbn [pu_scheme pu_https pu_host pu_port pu_target] in *.
    subst scheme. destruct (scheme_found https (authority ++ path)) as (E1 & E2 & E3). unfold parse_url. rewrite E1. cbn [mbind option_bind].
    rewrite E2, E3. replace (negb _ && _) with false by by destruct https. replace (bool_decide _) with https by by destruct https.
    assert (match find_char "/"%byte (authority ++ path) with None => authority ++ path | Some i => take i (authority ++ path) end = authority /\
            match find_char "/"%byte (authority ++ path) with None => lit "/" | Some i => drop i (authority ++ path) end = target) as [-> ->].
    { destruct Hp as [[-> ->]|(r & -> & ->)].
      - by rewrite app_nil_r, find_char_none.
      - by rewrite find_char_app, take_app_length, drop_app_length. }
    rewrite decide_False by done. rewrite (proj2 (split_host_port_exact _ _ _ _ Hne) Ha). cbn [mbind option_bind].
    rewrite decide_False; [done|]. by destruct Hp as [[-> ->]|(r & -> & ->)].
Qed.

(** ** What a call does *)

Section call_facts.
Context (json_serialize : json -> text) (user_agent : text) (ssl_cert_file : option text).
Context (net : list net_op -> net_op -> bool) (reply : list net_op -> Z * text).
Notation post := (call json_serialize user_agent ssl_cert_file net reply).
Notation request_of p request := (make_request user_agent p (json_serialize request)).

Definition certificate_ops : list net_op :=
  DefaultVerifyPaths :: match ssl_cert_file with Some ((_ :: _) as file) => [LoadVerifyFile file] | _ => [] end ++ map LoadVerifyFile kFallbackCaPaths.

Lemma load_files l : forall ops, for_each (fun path => ignored (LoadVerifyFile path)) l ops = (success tt, ops ++ map LoadVerifyFile l).
Proof.
  induction l as [|f l IH]; intros ops; [by rewrite app_nil_r|]. cbn [for_each map]. unfold mbind, M_bind, ignored at 1.
  by rewrite IH, <- app_assoc.
Qed.

Lemma load_certificates_eq ops : load_certificates ssl_cert_file ops = (success tt, ops ++ certificate_ops).
Proof.
  unfold load_certificates, certificate_ops. rewrite (bind_success _ _ _ tt (ops ++ [DefaultVerifyPaths])) by done.
  destruct ssl_cert_file as [[|c f]|]; (erewrite bind_success; [|reflexivity]); by rewrite load_files, <- !app_assoc.
Qed.

(** The operations before the request, and all those that can fail. *)
Definition prologue (p : ParsedUrl) (options : RpcHttpTransportOptions) : list net_op :=
  Resolve (pu_host p) (pu_port p) ::
  (if pu_https p then certificate_ops ++ [SetServerName (pu_host p)] else []) ++
  [Connect (http_timeout options)] ++
  (if pu_https p then [Handshake (if verify_peer options then Some (pu_host p) else None)] else []).

(** The operations whose failure ends the call. *)
Definition essential (op : net_op) : bool :=
  match op with DefaultVerifyPaths | LoadVerifyFile _ | Shutdown _ => false | _ => true end.

Definition step (op : net_op) : Call unit := if essential op then required net op else ignored op.

Definition steps : list net_op -> Call unit := for_each step.

(** After [before], the first [n] operations of a plan succeeded where they have to. *)
Definition passed (before plan : list net_op) (n : nat) : Prop :=
  forall j op, (j < n)%nat -> plan !! j = Some op -> essential op = true -> net (before ++ take j plan) op = true.

Lemma passed_cons before op plan n : (essential op = true -> net before op = true) ->
  passed (before ++ [op]) plan n -> passed before (op :: plan) (S n).
Proof.
  intros Hop Hp [|j] o Hj Ho He; cbn in Ho.
  - injection Ho as <-. rewrite take_0, app_nil_r. by apply Hop.
  - cbn [take]. rewrite (cons_middle op), app_assoc. apply (Hp j o); [lia|done|done].
Qed.

Lemma steps_spec plan : forall before,
  (steps plan before = (success tt, before ++ plan) /\ passed before plan (length plan)) \/
  exists j op, plan !! j = Some op /\ essential op = true /\ net (before ++ take j plan) op = false /\ passed before plan j /\
    steps plan before = (failure tt, before ++ take (S j) plan).
Proof.
  induction plan as [|op plan IH]; intros before.
  - left. rewrite app_nil_r. split; [done|]. by intros j o.
  - assert (step op before = (if essential op && negb (net before op) then failure tt else success tt, before ++ [op])) as Es.
    { unfold step, required, ignored. destruct (essential op); [by destruct (net before op)|done]. }
    change (steps (op :: plan)) with (step op ;; steps plan). destruct (essential op && negb (net before op)) eqn:Ef.
    + apply andb_prop in Ef as [He Hn]. apply negb_true_iff in Hn. right. exists 0%nat, op. rewrite app_nil_r. split_and!; try done.
      * intros j o Hj. lia.
      * cbn. unfold mbind, M_bind. by rewrite Es.
    + assert (essential op = true -> net before op = true) as Hok by (intros He; rewrite He in Ef; by destruct (net before op)).
      assert ((step op ;; steps plan) before = steps plan (before ++ [op])) as -> by (unfold mbind, M_bind; by rewrite Es).
      destruct (IH (before ++ [op])) as [[E Hp]|(j & o & Hj & He & Hn & Hp & E)]; rewrite E, <- app_assoc; cbn [app].
      * left. split; [done|]. by apply passed_cons.
      * right. exists (S j), o. rewrite <- app_assoc in Hn. split_and!; try done. by apply passed_cons.
Qed.

Lemma steps_app p q before : steps (p ++ q) before = (steps p ;; steps q) before.
Proof.
  revert before. induction p as [|op p IH]; intros before; [done|]. cbn [app steps for_each]. unfold mbind, M_bind in *.
  destruct (step op before) as [[[]|e|f] s]; [apply IH|done..].
Qed.

Definition plan (p : ParsedUrl) (options : RpcHttpTransportOptions) (request : json) : list net_op :=
  prologue p options ++ [Send (pu_https p) (request_of p request); Receive (pu_https p)].

Lemma steps_certificates : forall ops, steps certificate_ops ops = (success tt, ops ++ certificate_ops).
Proof.
  intros ops. destruct (steps_spec certificate_ops ops) as [[-> _]|(j & op & Hj & He & _)]; [done|].
  exfalso. apply list_elem_of_lookup_2 in Hj. unfold certificate_ops in Hj.
  rewrite elem_of_cons, elem_of_app, list_elem_of_fmap in Hj. destruct Hj as [->|[Hj|(f & -> & _)]]; try done.
  destruct ssl_cert_file as [[|c f]|]; cbn in Hj; try by apply elem_of_nil in Hj. by apply list_elem_of_singleton in Hj as ->.
Qed.

(** Reading the answer. *)
Definition answer_of (before : list net_op) : option text := read_body_from_response (reply before).

Lemma exchange_spec p request ops :
  exchange user_agent net reply (pu_https p) p (json_serialize request) ops =
  match steps [Send (pu_https p) (request_of p request); Receive (pu_https p)] ops with
  | (success _, ops') =>
      match answer_of (ops ++ [Send (pu_https p) (request_of p request)]) with
      | Some body => (success body, ops' ++ [Shutdown (pu_https p)])
      | None => (failure tt, ops')
      end
  | (failure e, ops') => (failure e, ops')
  | (crash f, ops') => (crash f, ops')
  end.
Proof.
  unfold exchange, read_response, steps, for_each, step, answer_of, required, ignored, get_state, fail, mbind, M_bind, mret, M_ret. cbn [essential].
  destruct (net ops _); [|done]. destruct (net (ops ++ _) _); [|done]. by destruct (read_body_from_response _).
Qed.

Lemma call_steps transport request p : parse_url (endpoint_url_ transport) = Some p ->
  post transport request [] =
  (steps (prologue p (options_ transport)) ;; exchange user_agent net reply (pu_https p) p (json_serialize request)) [].
Proof.
  intros Hp. unfold call, prologue. rewrite Hp. destruct (pu_https p).
  - unfold read_https_response, steps, for_each, mbind, M_bind. fold (for_each step). fold steps.
    unfold step at 1. cbn [essential]. destruct (required net (Resolve _ _) []) as [[[]|e|f] s]; [|done..].
    rewrite load_certificates_eq, <- app_assoc, steps_app. unfold mbind, M_bind. rewrite steps_certificates.
    unfold steps, for_each, step, mbind, M_bind. cbn [essential app].
    destruct (required net (SetServerName _) _) as [[[]|e|f] s1]; [|done..].
    destruct (required net (Connect _) _) as [[[]|e|f] s2]; [|done..].
    by destruct (required net (Handshake _) _) as [[[]|e|f] s3].
  - unfold steps, for_each, step, mbind, M_bind. cbn [essential app].
    destruct (required net (Resolve _ _) []) as [[[]|e|f] s]; [|done..]. by destruct (required net (Connect _) _) as [[[]|e|f] s2].
Qed.

(** A call performs the operations of its plan in order, up to the first that fails: it
    returns a body exactly when all of them succeed and the status is a success. *)
Lemma call_exact transport request p r ops : parse_url (endpoint_url_ transport) = Some p -> post transport request [] = (r, ops) ->
  let all := plan p (options_ transport) request in
  let sent := prologue p (options_ transport) ++ [Send (pu_https p) (request_of p request)] in
  exists n, ops = take n (all ++ [Shutdown (pu_https p)]) /\ passed [] all (pred n) /\
    match r with
    | success body => n = S (length all) /\ answer_of sent = Some body
    | failure _ => (n <= length all)%nat /\
        (answer_of sent = None \/ exists op, all !! pred n = Some op /\ essential op = true /\ net (take (pred n) all) op = false)
    | crash _ => False
    end.
Proof.
  intros Hp. cbn zeta. rewrite (call_steps _ _ _ Hp). set (all := plan _ _ _). pose proof (steps_spec all []) as Hs.
  unfold all, plan in Hs. rewrite steps_app in Hs. fold (plan p (options_ transport) request) in Hs. fold all in Hs. clearbody all. unfold mbind, M_bind in *.
  destruct (steps (prologue _ _) []) as [r0 s0] eqn:E0.
  assert (r0 = success tt -> s0 = prologue p (options_ transport)) as Hpro.
  { intros ->. by destruct (steps_spec (prologue p (options_ transport)) []) as [[E _]|(j & op & _ & _ & _ & _ & E)]; rewrite E0 in E; injection E. }
  cbn [app] in Hs. assert (forall j op, all !! j = Some op -> take (S j) all = take (S j) (all ++ [Shutdown (pu_https p)])) as Htake.
  { intros j op Hj%lookup_lt_Some. rewrite take_app_le by lia. done. }
  destruct r0 as [[]|[]|f].
  - rewrite exchange_spec, (Hpro eq_refl). rewrite (Hpro eq_refl) in Hs.
    destruct Hs as [[-> Hall]|(j & op & Hj & He & Hn & Hb & ->)]; cbn [fst snd].
    + destruct (answer_of _) as [body|] eqn:Ea; intros [= <- <-].
      * exists (S (length all)). rewrite take_ge by (rewrite length_app; cbn; lia). done.
      * exists (length all). rewrite take_app_length. split; [done|]. split; [|by split; [|left]]. intros j op Hj. apply Hall. lia.
    + intros [= <- <-]. exists (S j). cbn [pred]. pose proof (lookup_lt_Some _ _ _ Hj). rewrite (Htake j op Hj).
      split_and!; [done..|lia|]. right. by exists op.
  - intros [= <- <-]. destruct Hs as [[? _]|(j & op & Hj & He & Hn & Hb & Hx)]; [done|]. injection Hx as ->.
    exists (S j). cbn [pred]. pose proof (lookup_lt_Some _ _ _ Hj). rewrite (Htake j op Hj).
    split_and!; [done..|lia|]. right. by exists op.
  - by destruct Hs as [[? _]|(j & op & _ & _ & _ & _ & Hx)].
Qed.

(** The plan of an authenticated call. *)
Lemma authenticated_plan p options : pu_https p = true -> verify_peer options = true ->
  exists pre, prologue p options = pre ++ [Handshake (Some (pu_host p))] /\ Forall (fun op => forall e q, op <> Send e q) pre.
Proof.
  intros Hs Hv. unfold prologue. rewrite Hs, Hv.
  exists (Resolve (pu_host p) (pu_port p) :: (certificate_ops ++ [SetServerName (pu_host p)]) ++ [Connect (http_timeout options)]).
  cbn [app]. rewrite <- !app_assoc. split; [done|]. constructor; [done|]. unfold certificate_ops. cbn [app]. constructor; [done|].
  rewrite !Forall_app. split_and!; try (by repeat constructor). destruct ssl_cert_file as [[|c f]|]; by repeat constructor.
Qed.

(** C30: Over HTTPS with verification, the request goes out only encrypted and only after a
    handshake that verified the certificate against the host of the URL; a call never
    faults, and a body it returns is that of an answer with a success status which was
    read after this request was sent. *)
Theorem https_call_authenticated transport request p r ops :
  parse_url (endpoint_url_ transport) = Some p -> pu_https p = true -> verify_peer (options_ transport) = true ->
  post transport request [] = (r, ops) ->
  (forall encrypted rq, Send encrypted rq ∈ ops ->
     encrypted = true /\ rq = request_of p request /\
     exists before, before ++ [Handshake (Some (pu_host p))] `prefix_of` ops /\ net before (Handshake (Some (pu_host p))) = true) /\
  match r with
  | success body => exists before status, before ++ [Send true (request_of p request); Receive true] `prefix_of` ops /\
      reply (before ++ [Send true (request_of p request)]) = (status, body) /\ 200 <= status < 300
  | failure _ => True
  | crash _ => False
  end.
Proof.
  intros Hp Hs Hv Hc. destruct (call_exact _ _ _ _ _ Hp Hc) as (n & -> & Hpass & Hr).
  destruct (authenticated_plan p (options_ transport) Hs Hv) as (pre & Epro & Hpre).
  unfold plan in *. rewrite Epro, Hs in *. set (h := Handshake (Some (pu_host p))) in *. set (rq := request_of p request) in *. split.
  - intros e q (i & Hi)%list_elem_of_lookup. apply lookup_take_Some in Hi as [Hi Hlt]. rewrite <- !app_assoc in Hi. cbn [app] in Hi.
    apply lookup_app_Some in Hi as [Hi|[Hge Hi]]; [rewrite Forall_lookup in Hpre; by destruct (Hpre _ _ Hi e q)|].
    destruct (i - length pre)%nat as [|[|[|[|k]]]] eqn:Ek; try done. cbn in Hi. injection Hi as <- <-. split_and!; [done..|].
    exists pre. split.
    + rewrite <- app_assoc, take_app_ge by (rewrite length_app; cbn; lia). apply prefix_app_r. done.
    + specialize (Hpass (length pre) h ltac:(lia)). cbn [app] in Hpass. rewrite <- app_assoc, lookup_app_r, Nat.sub_diag in Hpass by lia.
      rewrite take_app_length in Hpass. by apply Hpass.
  - destruct r as [body|[]|f]; [|done..]. destruct Hr as [-> Ha]. exists (pre ++ [h]). unfold answer_of, read_body_from_response in Ha.
    destruct (reply _) as [status b] eqn:Er. cbn [fst snd] in Ha. destruct (_ || _) eqn:Es; [done|]. injection Ha as <-. exists status.
    rewrite take_ge by (rewrite !length_app; cbn; lia). split; [by eexists|]. split; [done|]. apply orb_false_elim in Es as [E1 E2]. lia.
Qed.

(** The network works, and whoever is at the other end answers every request. *)
Definition serves (server : HttpRequest -> text) : Prop :=
  (forall ops op, net ops op = true) /\
  forall ops encrypted rq, exists status, reply (ops ++ [Send encrypted rq]) = (status, server rq) /\ 200 <= status < 300.

Lemma http_transport_serves transport p server request :
  parse_url (endpoint_url_ transport) = Some p -> serves server ->
  http_transport json_serialize user_agent ssl_cert_file net reply transport request = Some (server (request_of p request)).
Proof.
  intros Hp [Hnet Hsrv]. unfold http_transport. destruct (post transport request []) as [r ops] eqn:Ec.
  destruct (call_exact _ _ _ _ _ Hp Ec) as (n & _ & _ & Hr).
  destruct (Hsrv (prologue p (options_ transport)) (pu_https p) (request_of p request)) as (status & Er & Hst).
  assert (answer_of (prologue p (options_ transport) ++ [Send (pu_https p) (request_of p request)]) = Some (server (request_of p request))) as Ha.
  { unfold answer_of, read_body_from_response. rewrite Er. cbn [fst snd].
    rewrite (proj2 (Z.ltb_ge _ _)), (proj2 (Z.leb_gt _ _)) by lia. done. }
  cbn [fst]. destruct r as [body|e|f]; [|exfalso|done].
  - destruct Hr as [_ Hr]. rewrite Ha in Hr. by injection Hr as <-.
  - destruct Hr as [_ [Hr|(op & _ & _ & Hr)]]; [by rewrite Ha in Hr|by rewrite Hnet in Hr].
Qed.

(** A receipt source that calls a node over HTTP meets the node it is promised: when the
    server answers the posted requests as an honest node, the transport is that of an
    honest node, so that the theorems on the source hold through it. *)
Theorem http_node_honest transport p server json_parse all_logs tx_status :
  parse_url (endpoint_url_ transport) = Some p -> serves server ->
  honest_node json_parse (fun request => Some (server (request_of p request))) all_logs tx_status ->
  honest_node json_parse (http_transport json_serialize user_agent ssl_cert_file net reply transport) all_logs tx_status.
Proof.
  intros Hp Hs [Hwf Hst Hlogs Hrec]. split; [done|done| |].
  - intros f a b id Ha Hb. rewrite (http_transport_serves _ _ _ _ Hp Hs). by apply Hlogs.
  - intros l id Hl. rewrite (http_transport_serves _ _ _ _ Hp Hs). by apply Hrec.
Qed.
End call_facts.

(** An IPv6 address without a port is cut at its last colon: what follows is taken for the
    port. *)
Theorem ipv6_host_cut (a b : text) : ":"%byte ∉ b -> "/"%byte ∉ a ++ b ->
  parse_url (lit "http://[" ++ a ++ ":"%byte :: b ++ lit "]") =
  Some (mkParsedUrl (lit "http") (lit "[" ++ a) (b ++ lit "]") (lit "/") false).
Proof.
  change (lit "]") with ["]"%byte]. rewrite elem_of_app. intros Hb Hs. apply endpoint_url_exact. exists ("["%byte :: a ++ ":"%byte :: b ++ ["]"%byte]), [].
  cbn [pu_scheme pu_https pu_host pu_port pu_target]. rewrite app_nil_r. split_and!; try done.
  - rewrite elem_of_cons, elem_of_app, elem_of_cons, elem_of_app, list_elem_of_singleton. naive_solver.
  - right. split_and!; try done; [|by destruct b]. rewrite elem_of_app, list_elem_of_singleton. naive_solver.
  - by left.
Qed.

(** ** Samples *)

Module SampleHttp.
Definition transport : RpcHttpTransport := mkHttpTransport (lit "https://node.example:8545/v1") default_options.
Definition url : ParsedUrl := mkParsedUrl (lit "https") (lit "node.example") (lit "8545") (lit "/v1") true.
(** The text of a request names the answer the node gives to it. *)
Definition serialize (request : json) : text := default [] (SampleNode.transport request).
Definition works (ops : list net_op) (op : net_op) : bool := true.
Definition echo (ops : list net_op) : Z * text :=
  match last ops with Some (Send _ rq) => (200, rq_body rq) | _ => (500, []) end.
Definition post : json -> list net_op -> outcome unit text * list net_op := call serialize (lit "test") None works echo transport.

Lemma echo_serves : serves works echo rq_body.
Proof. split; [done|]. intros ops e rq. exists 200. unfold echo. by rewrite last_snoc. Qed.
End SampleHttp.

Lemma https_call_authenticated_witness : exists ops,
  SampleHttp.post JNull [] = (success [x02], ops) /\
  exists before status, before ++ [Send true (make_request (lit "test") SampleHttp.url [x02]); Receive true] `prefix_of` ops /\
    SampleHttp.echo (before ++ [Send true (make_request (lit "test") SampleHttp.url [x02])]) = (status, [x02]) /\ 200 <= status < 300.
Proof.
  exists (SampleHttp.post JNull []).2. split; [by vm_compute|].
  destruct (https_call_authenticated SampleHttp.serialize (lit "test") None SampleHttp.works SampleHttp.echo
    SampleHttp.transport JNull SampleHttp.url (success [x02]) (SampleHttp.post JNull []).2) as [_ H]; [by vm_compute|done|done|by vm_compute|exact H].
Defined.

Lemma http_node_honest_witness :
  honest_node SampleNode.parse (http_transport SampleHttp.serialize (lit "test") None SampleHttp.works SampleHttp.echo SampleHttp.transport)
    [SampleRpc.log] (fun _ => 1).
Proof.
  apply (http_node_honest SampleHttp.serialize (lit "test") None SampleHttp.works SampleHttp.echo SampleHttp.transport SampleHttp.url rq_body);
    [by vm_compute|apply SampleHttp.echo_serves|].
  destruct SampleNode.honest as [H1 H2 H3 H4]. split; [done|done| |].
  - intros f a b id Ha Hb. destruct (H3 f a b id Ha Hb) as (t & js & E & H). exists t, js.
    cbn [make_request rq_body]. unfold SampleHttp.serialize. by rewrite E.
  - intros l id Hl. destruct (H4 l id Hl) as (t & j & E & H). exists t, j. cbn [make_request rq_body]. unfold SampleHttp.serialize. by rewrite E.
Defined.
