(* ===== verification/ChainConfig.v ===== *)
(** * Finding and loading the configuration of a chain

    The search for the cache file along the paths of an installation
    ([find_chain_peer_cache_json_path] of [src/discv4/chain_peers.cpp]), the names
    [src/discv4/bootstrap_peers.cpp] gives to the functions of the cache, and
    [examples/chain_config.hpp], with which the programs load a chain at start: refresh the
    cache, find it, read the chain, and apply the discovery settings of
    [chains_config.json].

    Paths are texts with the operations of [std::filesystem::path] on POSIX that the code
    uses; files are the map of [ChainPeers], and a regular file is a path in it. *)

From S2P Require Import Prelude ParseUtility Base64Url Enr Discv5Crawler BridgeEvent EthStatus JsonUtility DialScheduler ChainPeers.

(** ** Paths *)

Definition filename (p : text) : text := match rfind_char "/"%byte p with None => p | Some i => drop (i + 1) p end.

Fixpoint skip_slashes (s : text) : text :=
  match s with [] => [] | c :: s' => if decide (c = "/"%byte) then skip_slashes s' else s end.

(** What precedes the last component, without the separators between them; a path that is
    only a root is its own parent. *)
Definition parent_path (p : text) : text :=
  match rfind_char "/"%byte p with
  | None => []
  | Some i =>
      match reverse (skip_slashes (reverse (take i p))) with
      | [] => if decide (filename p = []) then p else lit "/"
      | parent => parent
      end
  end.

(** [operator/] *)
Definition path_append (p q : text) : text :=
  if starts_with (lit "/") q then q else if decide (filename p = []) then p ++ q else p ++ lit "/" ++ q.

(** The components: separators that follow each other count once, and one at the end is
    followed by an empty component. *)
Fixpoint components (current : text) (s : text) : list text :=
  match s with
  | [] => [current]
  | c :: s' => if decide (c = "/"%byte) then current :: components [] s' else components (current ++ [c]) s'
  end.

Definition path_elements (p : text) : list text :=
  let names := base.filter (fun name => name <> []) (components [] p) in
  if decide (names = [] \/ filename p <> []) then names else names ++ [[]].

(** [operator==] *)
Definition same_path (p q : text) : bool :=
  Bool.eqb (starts_with (lit "/") p) (starts_with (lit "/") q) && bool_decide (path_elements p = path_elements q).

(** ** The cache file *)

Definition kChainPeerCacheJsonFilename : text := lit "chain_enodes.json".
Definition kChainPeerCacheJsonGzipFilename : text := lit "chain_enodes.json.gz".

Definition is_regular_file (files : gmap text text) (p : text) : bool := bool_decide (is_Some (files !! p)).

Definition find_existing_chain_peer_cache_json_path (files : gmap text text) (directory : text) : option text :=
  let json_file := path_append directory kChainPeerCacheJsonFilename in
  if is_regular_file files json_file then Some json_file else
  let gzip_file := path_append directory kChainPeerCacheJsonGzipFilename in
  if is_regular_file files gzip_file then Some gzip_file else None.

Definition chain_peer_cache_json_path (argv0 : text) : text := path_append (parent_path argv0) kChainPeerCacheJsonFilename.

Definition is_bundle (bin_dir : text) : bool :=
  bool_decide (filename bin_dir = lit "MacOS") && bool_decide (filename (parent_path bin_dir) = lit "Contents").

Definition find_chain_peer_cache_json_path (files : gmap text text) (cwd argv0 override_path : text) : option text :=
  if decide (override_path <> []) then (if is_regular_file files override_path then Some override_path else None) else
  let bin_dir := parent_path argv0 in
  match find_existing_chain_peer_cache_json_path files bin_dir with
  | Some local_file => Some local_file
  | None =>
      match (if negb (same_path cwd bin_dir) then find_existing_chain_peer_cache_json_path files cwd else None) with
      | Some cwd_file => Some cwd_file
      | None =>
          if is_bundle bin_dir then find_existing_chain_peer_cache_json_path files (path_append (parent_path bin_dir) (lit "Resources")) else None
      end
  end.

(** ** chain_config.hpp *)

Definition parse_chain_discovery_default (value : text) : option ChainDiscoveryDefault :=
  if decide (value = lit "auto") then Some kAuto
  else if decide (value = lit "discv4") then Some kDiscv4
  else if decide (value = lit "cache-enr-discv5") then Some kCacheEnrDiscv5
  else if decide (value = lit "enr-tree") then Some kEnrTree else None.

Definition parse_discovery_fork_filter (value : text) : option DiscoveryForkFilter :=
  if decide (value = lit "require") then Some kRequire
  else if decide (value = lit "disabled") then Some kDisabled else None.

Definition if_string (j : json) : option text := match j with JString s => Some s | _ => None end.
Definition if_array (j : json) : option (list json) := match j with JArray l => Some l | _ => None end.
Definition if_object (j : json) : option (list (text * json)) := match j with JObject fields => Some fields | _ => None end.

(** A string that is not empty. *)
Definition some_text (j : json) : option text := s ← if_string j; if decide (s = []) then None else Some s.

Definition texts_of (items : list json) : list text := omap some_text items.

Definition set_discovery_default (d : ChainDiscoveryDefault) (c : ChainPeerConfig) : ChainPeerConfig :=
  mkChain (canonical_name c) (cc_network_id c) (cc_genesis_hash c) (cc_nodes c) (cc_bootnodes c) (cc_discv5_bootnodes c) (cc_enr_trees c)
    d (cc_discovery_fork_filter c) (cc_fork_id c) (cc_eth_message_schemas c) (cc_signature c) (cc_signer_address c).
Definition set_enr_trees (trees : list text) (c : ChainPeerConfig) : ChainPeerConfig :=
  mkChain (canonical_name c) (cc_network_id c) (cc_genesis_hash c) (cc_nodes c) (cc_bootnodes c) (cc_discv5_bootnodes c) trees
    (cc_discovery_default c) (cc_discovery_fork_filter c) (cc_fork_id c) (cc_eth_message_schemas c) (cc_signature c) (cc_signer_address c).
Definition set_fork_filter (f : DiscoveryForkFilter) (c : ChainPeerConfig) : ChainPeerConfig :=
  mkChain (canonical_name c) (cc_network_id c) (cc_genesis_hash c) (cc_nodes c) (cc_bootnodes c) (cc_discv5_bootnodes c) (cc_enr_trees c)
    (cc_discovery_default c) f (cc_fork_id c) (cc_eth_message_schemas c) (cc_signature c) (cc_signer_address c).

(** Assign when there is a value. *)
Definition assign {A} (set : A -> ChainPeerConfig -> ChainPeerConfig) (value : option A) (c : ChainPeerConfig) : ChainPeerConfig :=
  match value with Some a => set a c | None => c end.

Definition not_empty (l : list text) : option (list text) := if decide (l = []) then None else Some l.

Definition apply_entry (entry : list (text * json)) (c : ChainPeerConfig) : ChainPeerConfig :=
  let c := assign set_discovery_default (v ← if_contains entry (lit "discoveryDefault"); s ← if_string v; parse_chain_discovery_default s) c in
  let c := assign set_enr_trees (v ← if_contains entry (lit "enrTree"); s ← some_text v; Some [s]) c in
  let c := assign set_enr_trees (v ← if_contains entry (lit "enrTrees"); items ← if_array v; not_empty (texts_of items)) c in
  assign set_fork_filter (v ← if_contains entry (lit "discoveryForkFilter"); s ← if_string v; parse_discovery_fork_filter s) c.

Section loaders.
Context `{EnrPrimitives, Secp256k1} (keccak sha256 : list byte -> list byte).
Context (json_parse : text -> option json) (json_serialize : json -> text) (inflate : text -> option text) (now : Z).
Context (http_get : HttpUrlParts -> option (Z * text)).
Notation Files := (gmap text text).
Notation load_file := (load_chain_peer_config_from_json keccak sha256 json_parse json_serialize inflate now).
Notation refresh := (refresh_chain_peer_cache_json keccak sha256 json_parse json_serialize inflate http_get).

(** *** chains_config.json *)

Definition config_candidates (argv0 : text) : list text := [path_append (parent_path argv0) (lit "chains_config.json"); lit "chains_config.json"].

Definition load_chain_config_root (files : Files) (argv0 : text) : option (list (text * json)) :=
  head (omap (fun candidate => content ← files !! candidate; parsed ← json_parse content; if_object parsed) (config_candidates argv0)).

Definition load_chain_config_entry (files : Files) (chain argv0 : text) : option (list (text * json)) :=
  root ← load_chain_config_root files argv0; entry ← if_contains root chain; if_object entry.

Definition load_default_all_chains (files : Files) (argv0 : text) : list text :=
  default [] (root ← load_chain_config_root files argv0; value ← if_contains root (lit "_defaultAllChains");
              items ← if_array value; Some (texts_of items)).

Definition load_enr_tree_url (files : Files) (chain argv0 : text) : option text :=
  entry ← load_chain_config_entry files chain argv0; value ← if_contains entry (lit "enrTree"); some_text value.

Definition apply_chain_discovery_config (files : Files) (argv0 : text) (c : ChainPeerConfig) : ChainPeerConfig :=
  match load_chain_config_entry files (canonical_name c) argv0 with
  | None => c
  | Some entry => apply_entry entry c
  end.

(** *** The cache *)

Definition fork_candidates (argv0 : text) : list text :=
  [path_append (parent_path argv0) (lit "chain_enodes.json"); path_append (parent_path argv0) (lit "chain_enodes.json.gz");
   lit "chain_enodes.json"; lit "chain_enodes.json.gz"].

Fixpoint fork_hash_of (files : Files) (chain : text) (candidates : list text) : outcome Empty_set (option (list byte)) :=
  match candidates with
  | [] => success None
  | candidate :: candidates' =>
      if negb (is_regular_file files candidate) then fork_hash_of files chain candidates' else
      config ← load_file chain candidate files;
      match config ≫= cc_fork_id with
      | Some fork_id => success (Some (fork_hash fork_id))
      | None => fork_hash_of files chain candidates'
      end
  end.

Definition load_fork_hash (files : Files) (chain argv0 : text) : outcome Empty_set (option (list byte)) :=
  fork_hash_of files chain (fork_candidates argv0).

Definition load_chain_peer_config (disk : option (nat * bool)) (cwd chain_name argv0 chain_peers_json_path chain_peers_url : text)
    (chain_peers_url_enabled : bool) (files : Files) : outcome Empty_set (option ChainPeerConfig) * Files :=
  let '(refreshed, files') :=
    if bool_decide (chain_peers_json_path = []) && chain_peers_url_enabled
    then refresh disk (chain_peer_cache_json_path argv0) chain_peers_url files
    else (success None, files) in
  (refresh_result ← refreshed;
   match find_chain_peer_cache_json_path files' cwd argv0 chain_peers_json_path with
   | Some chain_peers_json_file => load_file chain_name chain_peers_json_file files'
   | None =>
       match refresh_result with
       | Some r => if cache_available r then load_file chain_name (cache_path r) files' else success None
       | None => success None
       end
   end, files').

(** ** bootstrap_peers.cpp *)

Definition bootstrap_cache_json_path (argv0 : text) : text := chain_peer_cache_json_path argv0.

Definition find_bootstrap_peers_json_path (files : Files) (cwd argv0 override_path : text) : option text :=
  find_chain_peer_cache_json_path files cwd argv0 override_path.

Definition download_bootstrap_json (url : text) : option text := download_chain_peer_cache_json inflate http_get url.

Definition write_bootstrap_cache_json_if_changed (disk : option (nat * bool)) (json_path json_text : text) (files : Files) : bool * Files :=
  write_chain_peer_cache_json_if_changed disk json_path json_text files.

Definition refresh_bootstrap_cache_json (disk : option (nat * bool)) (json_path url : text) (files : Files) :
    outcome Empty_set (option ChainPeerCacheRefreshResult) * Files := refresh disk json_path url files.

(** The bootnodes of a configuration, or none. *)
Definition bootnodes_of (config : option ChainPeerConfig) : list ValidatedPeer :=
  match config with Some c => cc_bootnodes c | None => [] end.

Definition load_bootstrap_peers_from_json_text (chain_name json_text : text) : outcome Empty_set (list ValidatedPeer) :=
  config ← load_chain_peer_config_from_json_text keccak sha256 json_parse json_serialize now chain_name json_text; success (bootnodes_of config).

Definition load_bootstrap_peers_from_json (chain_name json_path : text) (files : Files) : outcome Empty_set (list ValidatedPeer) :=
  config ← load_file chain_name json_path files; success (bootnodes_of config).

Definition load_bootstrap_fork_id_hash_from_json_text (chain_name json_text : text) : option (list byte) :=
  load_chain_fork_id_hash_from_json_text json_parse chain_name json_text.

Definition load_bootstrap_fork_id_hash_from_json (chain_name json_path : text) (files : Files) : option (list byte) :=
  load_chain_fork_id_hash_from_json json_parse inflate chain_name json_path files.

Definition load_bootstrap_chain_config_from_json_text (chain_name json_text : text) : outcome Empty_set (option ChainPeerConfig) :=
  load_chain_peer_config_from_json_text keccak sha256 json_parse json_serialize now chain_name json_text.

Definition load_bootstrap_chain_config_from_json (chain_name json_path : text) (files : Files) : outcome Empty_set (option ChainPeerConfig) :=
  load_file chain_name json_path files.

Definition verify_bootstrap_json_signature (json_text expected_signer_address : text) :
    outcome Empty_set ChainPeerCacheSignatureVerificationResult :=
  verify_chain_peer_cache_json_signature keccak sha256 json_parse json_serialize json_text expected_signer_address.
End loaders.

(** ** The order of the search *)

Definition cache_names (directory : text) : list text :=
  [path_append directory kChainPeerCacheJsonFilename; path_append directory kChainPeerCacheJsonGzipFilename].

(** The files that are looked for, in their order. *)
Definition search_candidates (cwd argv0 override_path : text) : list text :=
  if decide (override_path <> []) then [override_path] else
  let bin_dir := parent_path argv0 in
  cache_names bin_dir ++ (if negb (same_path cwd bin_dir) then cache_names cwd else []) ++
  (if is_bundle bin_dir then cache_names (path_append (parent_path bin_dir) (lit "Resources")) else []).

Definition first_file (files : gmap text text) (candidates : list text) : option text :=
  head (base.filter (fun p => is_regular_file files p = true) candidates).

Lemma first_file_app files l1 l2 :
  first_file files (l1 ++ l2) = match first_file files l1 with Some p => Some p | None => first_file files l2 end.
Proof. unfold first_file. rewrite filter_app. by destruct (base.filter _ l1). Qed.

Lemma find_existing_first files dir : find_existing_chain_peer_cache_json_path files dir = first_file files (cache_names dir).
Proof.
  unfold find_existing_chain_peer_cache_json_path, first_file, cache_names. rewrite !filter_cons, filter_nil.
  by destruct (is_regular_file files (path_append dir kChainPeerCacheJsonFilename)), (is_regular_file files (path_append dir kChainPeerCacheJsonGzipFilename)).
Qed.

(** The cache that is found is the first regular file of a fixed list: the configured path
    alone, or the two names beside the program, in the working directory and in the
    resources of an application bundle. *)
Theorem cache_search_exact files cwd argv0 override_path :
  find_chain_peer_cache_json_path files cwd argv0 override_path = first_file files (search_candidates cwd argv0 override_path).
Proof.
  unfold find_chain_peer_cache_json_path, search_candidates. case_decide.
  - unfold first_file. rewrite filter_cons, filter_nil. by destruct (is_regular_file files override_path).
  - cbn zeta. rewrite !first_file_app, <- find_existing_first. destruct (find_existing_chain_peer_cache_json_path _ (parent_path argv0)); [done|].
    destruct (same_path cwd (parent_path argv0)), (is_bundle (parent_path argv0)); cbn [negb]; by rewrite <- ?find_existing_first.
Qed.

(** ** Loading a chain at start *)

Section start.
Context `{EnrPrimitives, Secp256k1} (keccak sha256 : list byte -> list byte).
Context (json_parse : text -> option json) (json_serialize : json -> text) (inflate : text -> option text) (now : Z).
Context (http_get : HttpUrlParts -> option (Z * text)).
Notation load_file := (load_chain_peer_config_from_json keccak sha256 json_parse json_serialize inflate now).
Notation load_text := (load_chain_peer_config_from_json_text keccak sha256 json_parse json_serialize now).
Notation refresh := (refresh_chain_peer_cache_json keccak sha256 json_parse json_serialize inflate http_get).
Notation load_chain := (load_chain_peer_config keccak sha256 json_parse json_serialize inflate now http_get).

Lemma own_cache_found files cwd argv0 : is_Some (files !! chain_peer_cache_json_path argv0) ->
  find_chain_peer_cache_json_path files cwd argv0 [] = Some (chain_peer_cache_json_path argv0).
Proof.
  intros Hf. unfold find_chain_peer_cache_json_path, find_existing_chain_peer_cache_json_path, is_regular_file. cbn [decide].
  rewrite decide_False by tauto. unfold chain_peer_cache_json_path in *. by rewrite bool_decide_true.
Qed.

Lemma refresh_available disk path url files r files' :
  refresh disk path url files = (success (Some r), files') -> cache_available r = true -> is_Some (files' !! path).
Proof.
  unfold refresh_chain_peer_cache_json, write_chain_peer_cache_json_if_changed. destruct (download_chain_peer_cache_json _ _ _) as [t|]; [|done].
  destruct (verify_chain_peer_cache_json_signature _ _ _ _ _ _) as [v|[]|f]; [|done]. destruct (_ || _); [done|].
  case_decide as Hd; [intros [= <- <-] _; by rewrite Hd|].
  destruct disk as [[n good]|]; intros [= <- <-]; cbn [cache_available]; [intros _; rewrite lookup_insert_eq; by eexists|].
  intros Ha. by apply bool_decide_eq_true in Ha.
Qed.

(** A chain is read from the first file of the search after the refresh; the path the
    refresh reports is never needed, and with a configured path nothing is downloaded or
    written. *)
Lemma load_chain_exact disk cwd chain argv0 path url enabled files :
  load_chain disk cwd chain argv0 path url enabled files =
  let '(refreshed, files') := if bool_decide (path = []) && enabled then refresh disk (chain_peer_cache_json_path argv0) url files else (success None, files) in
  (_ ← refreshed; match find_chain_peer_cache_json_path files' cwd argv0 path with Some f => load_file chain f files' | None => success None end, files').
Proof.
  unfold load_chain_peer_config. destruct (bool_decide_reflect (path = [])) as [->|]; [|done]. destruct enabled; [|done]. cbn [andb].
  destruct (refresh _ _ _ _) as [[[r|]|[]|f] files'] eqn:Er; cbn [mbind outcome_bind]; try done.
  destruct (cache_available r) eqn:Ea; [|done]. pose proof (refresh_available _ _ _ _ _ _ Er Ea) as Hf. by rewrite (own_cache_found _ _ _ Hf).
Qed.

(** C33: From the download to the configuration: when the program starts with a download that
    carries a valid signature of the trusted signer, and the disk takes it or holds it
    already, the chain is read from this document and from no other file, and the cache
    beside the program holds it. *)
Theorem signed_download_loaded disk cwd chain argv0 url files json_text v :
  let path := chain_peer_cache_json_path argv0 in
  download_chain_peer_cache_json inflate http_get url = Some json_text ->
  verify_chain_peer_cache_json_signature keccak sha256 json_parse json_serialize json_text kTrustedChainPeerCacheSignerAddress = success v ->
  has_signature v = true -> signature_valid v = true ->
  (files !! path = Some json_text \/ exists n, disk = Some (n, true) /\ (length json_text <= n)%nat) ->
  decode_chain_peer_cache_body inflate json_text = Some json_text ->
  load_chain disk cwd chain argv0 [] url true files = (load_text chain json_text, <[path := json_text]> files) /\
  exists root, json_parse json_text = Some (JObject root) /\ signed_by keccak sha256 json_serialize kTrustedChainPeerCacheSignerAddress root.
Proof.
  intros path Hd Hv H1 H2 Hdisk Hb. split.
  - rewrite load_chain_exact, bool_decide_true by done. cbn [andb]. unfold refresh_chain_peer_cache_json. fold path. rewrite Hd, Hv, H1, H2. cbn [negb orb].
    assert (exists u, write_chain_peer_cache_json_if_changed disk path json_text files = (u, <[path := json_text]> files)) as [u ->].
    { unfold write_chain_peer_cache_json_if_changed. case_decide as Hc; [exists false; by rewrite insert_id|].
      destruct Hdisk as [?|(n & -> & Hn)]; [done|]. exists true. by rewrite take_ge. }
    cbn [mbind outcome_bind]. rewrite own_cache_found by (fold path; rewrite lookup_insert_eq; by eexists). fold path. f_equal.
    unfold load_chain_peer_config_from_json. rewrite lookup_insert_eq. cbn [mbind option_bind]. rewrite Hb.
    unfold load_chain_peer_config_from_json_text. by destruct (decide (chain = [])).
  - unfold verify_chain_peer_cache_json_signature in Hv. destruct (json_parse json_text) as [parsed|]; [|by injection Hv as <-].
    destruct (verify_chain_peer_cache_json_signature_impl _ _ _ parsed _) as [[v'|]|[]|f] eqn:Ei; [|by injection Hv as <-|done]. injection Hv as <-.
    destruct (verification_sound _ _ _ _ _ _ Ei H2) as (root & -> & Hs). by exists root.
Qed.

(** The signature protects a start only while the download works: when it does not, or is
    not signed, the first file of the search is read, and its signature fields may simply
    be missing, whatever they were. *)
Theorem unsigned_cache_loaded disk cwd chain argv0 url files json_text root :
  let path := chain_peer_cache_json_path argv0 in
  download_chain_peer_cache_json inflate http_get url = None ->
  files !! path = Some json_text -> decode_chain_peer_cache_body inflate json_text = Some json_text ->
  json_parse json_text = Some (JObject (make_unsigned_chain_peer_cache_object root)) ->
  chain <> [] -> is_signature_field chain = false ->
  load_chain disk cwd chain argv0 [] url true files = (chain_config_of now (JObject root) chain, files).
Proof.
  intros path Hd Hf Hb Hp Hne Hn. rewrite load_chain_exact, bool_decide_true by done. cbn [andb]. unfold refresh_chain_peer_cache_json. rewrite Hd.
  cbn [mbind outcome_bind]. rewrite own_cache_found by (fold path; rewrite Hf; by eexists). fold path. f_equal.
  unfold load_chain_peer_config_from_json. rewrite decide_False, Hf by done. cbn [mbind option_bind]. rewrite Hb.
  unfold load_chain_peer_config_from_json_text. rewrite decide_False, Hp by done. by apply stripped_signature_accepted.
Qed.
End start.

(** ** The discovery settings *)

Definition discovery_name (d : ChainDiscoveryDefault) : text :=
  match d with kAuto => lit "auto" | kDiscv4 => lit "discv4" | kCacheEnrDiscv5 => lit "cache-enr-discv5" | kEnrTree => lit "enr-tree" end.
Definition filter_name (f : DiscoveryForkFilter) : text := match f with kRequire => lit "require" | kDisabled => lit "disabled" end.

(** The settings of a chain in [chains_config.json]. *)
Record settings_document (d : ChainDiscoveryDefault) (f : DiscoveryForkFilter) (trees : list text) (entry : list (text * json)) : Prop := {
  sd_default : if_contains entry (lit "discoveryDefault") = Some (JString (discovery_name d));
  sd_filter : if_contains entry (lit "discoveryForkFilter") = Some (JString (filter_name f));
  sd_trees : if_contains entry (lit "enrTrees") = Some (JArray (map JString trees))
}.

Lemma texts_of_strings trees : Forall (fun t => t <> []) trees -> texts_of (map JString trees) = trees.
Proof. unfold texts_of. induction 1 as [|t trees Ht _ IH]; [done|]. cbn. rewrite decide_False by done. by rewrite IH. Qed.

(** The settings of a chain are read back from the first of the two configuration files
    that parses to an object, a list of trees taking precedence over a single one; all
    other fields stay, and applying the settings again changes nothing. *)
Theorem discovery_settings_roundtrip json_parse files argv0 c root entry d f trees :
  load_chain_config_root json_parse files argv0 = Some root ->
  if_contains root (canonical_name c) = Some (JObject entry) -> settings_document d f trees entry ->
  trees <> [] -> Forall (fun t => t <> []) trees ->
  let c' := apply_chain_discovery_config json_parse files argv0 c in
  c' = set_fork_filter f (set_enr_trees trees (set_discovery_default d c)) /\
  apply_chain_discovery_config json_parse files argv0 c' = c'.
Proof.
  intros Hr He [Hd Hf Ht] Hne Hall.
  assert (forall c0, canonical_name c0 = canonical_name c ->
    apply_chain_discovery_config json_parse files argv0 c0 = set_fork_filter f (set_enr_trees trees (set_discovery_default d c0))) as Ha.
  { intros c0 Hc. unfold apply_chain_discovery_config, load_chain_config_entry. rewrite Hr. cbn [mbind option_bind]. rewrite Hc, He. cbn [mbind option_bind if_object].
    unfold apply_entry. rewrite Hd, Hf, Ht. cbn [mbind option_bind if_string if_array]. rewrite texts_of_strings by done. unfold not_empty. rewrite decide_False by done.
    assert (parse_chain_discovery_default (discovery_name d) = Some d) as -> by by destruct d.
    assert (parse_discovery_fork_filter (filter_name f) = Some f) as -> by by destruct f. cbn [assign].
    by destruct (if_contains entry (lit "enrTree")) as [j|]; [cbn [mbind option_bind]; destruct (some_text j)|]. }
  cbn zeta. rewrite (Ha c eq_refl). split; [done|]. by rewrite Ha.
Qed.

(** ** Samples *)

Module SampleStart.
Import SampleCache.
#[local] Existing Instance toy_secp.
Definition no_inflate (t : text) : option text := None.
Definition argv0 : text := lit "/opt/relay//bin/eth_watch".
Definition settings : list (text * json) :=
  [(lit "discoveryDefault", JString (lit "enr-tree")); (lit "enrTree", JString (lit "enrtree://old"));
   (lit "enrTrees", JArray [JString (lit "enrtree://new")]); (lit "discoveryForkFilter", JString (lit "disabled"))].
Definition parse_settings (t : text) : option json :=
  if decide (t = lit "settings") then Some (JObject [(lit "mainnet", JObject settings)]) else None.
Definition load := load_chain_peer_config keccak sha256 parse serialize no_inflate 9 get.
End SampleStart.

#[local] Existing Instance toy_secp.

Example sample_paths : map parent_path (map lit ["a"; "/a"; "/"; "a//b"; "/a/b/"; "//a"]) = map lit [""; "/"; "/"; "a"; "/a/b"; "/"] /\
  same_path (lit "/a//b") (lit "/a/b") = true /\ same_path (lit "/a/b/") (lit "/a/b") = false /\
  chain_peer_cache_json_path SampleStart.argv0 = lit "/opt/relay//bin/chain_enodes.json".
Proof. by vm_compute. Qed.

Lemma signed_download_loaded_witness :
  exists c, SampleStart.load (Some (6%nat, true)) (lit "/") (lit "mainnet") SampleStart.argv0 [] (lit "http://host/signed") true
      {[lit "/chain_enodes.json" := lit "plain"]} = (success (Some c),
    <[lit "/opt/relay//bin/chain_enodes.json" := lit "signed"]> {[lit "/chain_enodes.json" := lit "plain"]}) /\ cc_network_id c = 1.
Proof.
  destruct (signed_download_loaded SampleCache.keccak SampleCache.sha256 SampleCache.parse SampleCache.serialize SampleStart.no_inflate 9 SampleCache.get
    (Some (6%nat, true)) (lit "/") (lit "mainnet") SampleStart.argv0 (lit "http://host/signed") {[lit "/chain_enodes.json" := lit "plain"]} (lit "signed")
    (mkVerification true true kTrustedChainPeerCacheSignerAddress)) as [E _].
  - by vm_compute.
  - by vm_compute.
  - done.
  - done.
  - right. exists 6%nat. split; [done|]. apply Nat.leb_le. by vm_compute.
  - done.
  - unfold SampleStart.load. rewrite E. eexists. split; [f_equal; by vm_compute|done].
Defined.

Lemma unsigned_cache_loaded_witness :
  SampleStart.load None (lit "/") (lit "mainnet") SampleStart.argv0 [] (lit "ftp://host/signed") true
    {[lit "/opt/relay//bin/chain_enodes.json" := lit "plain"]} =
  (success (Some SampleCache.config), {[lit "/opt/relay//bin/chain_enodes.json" := lit "plain"]}).
Proof.
  unfold SampleStart.load. rewrite (unsigned_cache_loaded SampleCache.keccak SampleCache.sha256 SampleCache.parse SampleCache.serialize SampleStart.no_inflate 9
    SampleCache.get None (lit "/") (lit "mainnet") SampleStart.argv0 (lit "ftp://host/signed") _ (lit "plain") (SampleCache.root xff)) by by vm_compute.
  reflexivity.
Defined.

Lemma discovery_settings_roundtrip_witness :
  cc_enr_trees (apply_chain_discovery_config SampleStart.parse_settings {[lit "chains_config.json" := lit "settings"]} SampleStart.argv0 SampleCache.config) =
    [lit "enrtree://new"].
Proof.
  destruct (discovery_settings_roundtrip SampleStart.parse_settings {[lit "chains_config.json" := lit "settings"]} SampleStart.argv0 SampleCache.config
    [(lit "mainnet", JObject SampleStart.settings)] SampleStart.settings kEnrTree kDisabled [lit "enrtree://new"]) as [-> _];
    [by vm_compute|by vm_compute|split; by vm_compute|done|by repeat constructor|reflexivity].
Defined.
