(* ===== verification/SocketTransport.v ===== *)
(** * Connecting a socket

    [src/rlpx/socket/socket_transport.cpp]: [connect_with_timeout] and the queries of a
    [SocketTransport].  Reading, writing and closing are with the message stream that uses
    them, in [FrameCipher].

    The coroutine is cut where it waits, for the resolver and for the connection, and runs
    together with the timer.  As documented, [async_connect] tries one endpoint after the
    other, [socket.cancel] fails the attempt that is under way, and [timer.cancel] does not
    stop a handler that is already queued. *)

From S2P Require Import Prelude ParseUtility RlpxMessages FrameCipher.

Section connect.
Context {endpoint : Type}.

(** The wait of the timer: pending, expired with its handler queued, or over. *)
Inductive timer_state := Armed | Queued | Over.

Inductive connect_phase :=
  | Resolving
  | Attempting (current : endpoint) (rest : list endpoint)
  (** returned; the socket is connected, or destroyed with the coroutine's frame *)
  | Returned (result : outcome SessionError.t endpoint).

Record Connecting := mkConnecting { phase : connect_phase; timer : timer_state }.

(** The frame of [connect_with_timeout] after it has armed the timer. *)
Definition connect_with_timeout : Connecting := mkConnecting Resolving Armed.

Definition cancel_timer (t : timer_state) : timer_state := match t with Armed => Over | t => t end.

Definition connect_failed (c : Connecting) : Connecting := mkConnecting (Returned (failure SessionError.kConnectionFailed)) (cancel_timer (timer c)).

(** [async_connect] with the endpoints that are left. *)
Definition attempt_next (endpoints : list endpoint) (c : Connecting) : Connecting :=
  match endpoints with
  | [] => connect_failed c
  | e :: rest => mkConnecting (Attempting e rest) (timer c)
  end.

Inductive connect_event :=
  | TimerExpires
  | TimerHandler
  | ResolveDone (endpoints : option (list endpoint))
  | AttemptDone (connected : bool).

(** The handler of the timer: [socket] is a reference into the frame. *)
Definition timer_handler (c : Connecting) : outcome Empty_set Connecting :=
  match phase c with
  | Returned _ => crash Dangling
  | Attempting _ rest => success (attempt_next rest (mkConnecting (phase c) Over))
  | Resolving => success (mkConnecting Resolving Over)
  end.

(** An event that cannot happen in a state leaves it as it is. *)
Definition connect_step (ev : connect_event) (c : Connecting) : outcome Empty_set Connecting :=
  match ev, phase c, timer c with
  | TimerExpires, _, Armed => success (mkConnecting (phase c) Queued)
  | TimerHandler, _, Queued => timer_handler c
  | ResolveDone None, Resolving, _ => success (connect_failed c)
  | ResolveDone (Some endpoints), Resolving, _ => success (attempt_next endpoints c)
  | AttemptDone true, Attempting e _, t => success (mkConnecting (Returned (success e)) (cancel_timer t))
  | AttemptDone false, Attempting _ rest, _ => success (attempt_next rest c)
  | _, _, _ => success c
  end.

Fixpoint run_connect (events : list connect_event) (c : Connecting) : outcome Empty_set Connecting :=
  match events with
  | [] => success c
  | ev :: events' => c' ← connect_step ev c; run_connect events' c'
  end.
End connect.
Arguments Connecting : clear implicits.
Arguments connect_event : clear implicits.

(** ** The queries of a transport *)

Section queries.
(** What the socket reports of its two ends while it is open: an address as text and a
    port, or an error. *)
Context (remote_endpoint local_endpoint : option (text * Z)).

Definition is_open (t : Transport) : bool := socket_open t.
Definition remote_address (t : Transport) : text :=
  if socket_open t then match remote_endpoint with Some e => e.1 | None => [] end else [].
Definition remote_port (t : Transport) : Z :=
  if socket_open t then match remote_endpoint with Some e => e.2 | None => 0 end else 0.
Definition local_address (t : Transport) : text :=
  if socket_open t then match local_endpoint with Some e => e.1 | None => [] end else [].
Definition local_port (t : Transport) : Z :=
  if socket_open t then match local_endpoint with Some e => e.2 | None => 0 end else 0.
End queries.

(** ** What a connect returns *)

Section connect_facts.
Context {endpoint : Type}.
Implicit Types (c : Connecting endpoint) (events : list (connect_event endpoint)).

(** Where a connect stands after the events that have happened. *)
Definition accounted_for events c : Prop :=
  match phase c with
  | Attempting e rest => exists eps, ResolveDone (Some eps) ∈ events /\ e :: rest `suffix_of` eps
  | Returned (success e) => AttemptDone true ∈ events /\ exists eps, ResolveDone (Some eps) ∈ events /\ e ∈ eps
  | _ => True
  end.

Lemma attempt_next_accounted events c eps rest : ResolveDone (Some eps) ∈ events -> rest `suffix_of` eps -> accounted_for events (attempt_next rest c).
Proof. intros Hr Hs. destruct rest as [|e rest]; [done|]. by exists eps. Qed.

Lemma step_accounted events ev c c' : connect_step ev c = success c' -> accounted_for events c -> accounted_for (events ++ [ev]) c'.
Proof.
  intros Hs Ha.
  assert (accounted_for (events ++ [ev]) c) as Hk.
  { unfold accounted_for in *. destruct (phase c) as [|e rest|[e|e|f]]; set_solver. }
  assert (forall e rest, phase c = Attempting e rest -> forall c0, accounted_for (events ++ [ev]) (attempt_next rest c0)) as Hn.
  { intros e rest Hp c0. unfold accounted_for in Hk. rewrite Hp in Hk. destruct Hk as (eps & Hr & Hsuf).
    eapply attempt_next_accounted; [done|]. trans (e :: rest); [by apply suffix_cons_r|done]. }
  unfold connect_step, timer_handler in Hs. destruct c as [ph t]. cbn [phase timer] in *.
  destruct ev as [| |[eps|]|[|]], ph as [|e rest|r], t; simplify_eq; try done; try (by eapply Hn).
  all: try (eapply attempt_next_accounted; [|done]; set_solver).
  all: destruct Hk as (eps & Hr & [pre ->]); split; [set_solver|]; eexists; split; [done|]; set_solver.
Qed.

Lemma run_accounted : forall events before c c', run_connect events c = success c' -> accounted_for before c -> accounted_for (before ++ events) c'.
Proof.
  induction events as [|ev events IH]; intros before c c' Hr Ha; [injection Hr as <-; by rewrite app_nil_r|].
  cbn [run_connect] in Hr. destruct (connect_step ev c) as [c1|[]|f] eqn:Es; [|done]. cbn [mbind outcome_bind] in Hr.
  rewrite (cons_middle ev), app_assoc. eapply IH; [done|]. by eapply step_accounted.
Qed.

(** A connect that succeeds has reached one of the endpoints the host resolved to. *)
Theorem connect_sound events c e : run_connect events connect_with_timeout = success c -> phase c = Returned (success e) ->
  AttemptDone true ∈ events /\ exists eps, ResolveDone (Some eps) ∈ events /\ e ∈ eps.
Proof. intros Hr Hp. pose proof (run_accounted _ [] _ _ Hr I) as Ha. unfold accounted_for in Ha. by rewrite Hp in Ha. Qed.

(** The attempts that are left. *)
Definition left c : nat := match phase c with Attempting _ rest => S (length rest) | _ => O end.

Definition is_attempt (ev : connect_event endpoint) : bool := match ev with AttemptDone _ => true | _ => false end.

Definition attempts events : nat := length (base.filter (fun ev => is_attempt ev = true) events).

Lemma attempt_next_left rest c : phase (attempt_next rest c) <> Resolving /\ left (attempt_next rest c) = length rest.
Proof. by destruct rest. Qed.

Lemma step_left ev c : phase c <> Resolving ->
  match connect_step ev c with
  | success c' => phase c' <> Resolving /\ (left c' <= left c - if is_attempt ev then 1 else 0)%nat
  | failure _ => False
  | crash f => f = Dangling
  end.
Proof.
  intros Hp. destruct c as [ph t]. unfold connect_step, timer_handler. cbn [phase timer] in *.
  destruct ev as [| |[eps|]|[|]], ph as [|e rest|r], t; try done; cbn [is_attempt left phase]; try (split; [done|cbn; lia]).
  all: destruct (attempt_next_left rest (mkConnecting (Attempting e rest) Over)), (attempt_next_left rest (mkConnecting (Attempting e rest) Armed)),
    (attempt_next_left rest (mkConnecting (Attempting e rest) Queued)); split; [done|lia].
Qed.

Lemma attempts_return : forall events c, phase c <> Resolving -> (left c <= attempts events)%nat ->
  match run_connect events c with
  | success c' => exists r, phase c' = Returned r
  | failure _ => False
  | crash f => f = Dangling
  end.
Proof.
  induction events as [|ev events IH]; intros c Hp Hl; cbn [run_connect].
  - unfold left in Hl. destruct (phase c); [done|cbn in Hl; lia|by eexists].
  - pose proof (step_left ev c Hp) as Hs. destruct (connect_step ev c) as [c'|[]|f]; [|done..]. destruct Hs as [Hp' Hs]. cbn [mbind outcome_bind].
    apply IH; [done|]. unfold attempts in *. rewrite filter_cons in Hl. destruct (is_attempt ev) eqn:E; [rewrite decide_True in Hl by done|rewrite decide_False in Hl by done];
      cbn [length] in Hl; lia.
Qed.

(** A connect returns once every endpoint it tries has answered or refused, however the
    timer interleaves; the only fault is the timer's handler that comes too late. *)
Theorem connect_returns endpoints events : (length endpoints <= attempts events)%nat ->
  match run_connect (ResolveDone (Some endpoints) :: events) connect_with_timeout with
  | success c => exists r, phase c = Returned r
  | failure _ => False
  | crash f => f = Dangling
  end.
Proof.
  intros Hl. cbn [run_connect connect_step connect_with_timeout phase timer mbind outcome_bind].
  destruct (attempt_next_left endpoints connect_with_timeout) as [H1 H2]. apply attempts_return; [done|]. unfold connect_with_timeout in *. lia.
Qed.

(** ** What the timer does *)

(** When the wait expires before the coroutine is resumed with the result that ends it,
    the handler runs after the return and cancels a socket that no longer exists. *)
Theorem late_timer_uses_dead_socket c c' ev r :
  timer c = Armed -> (forall r', phase c <> Returned r') -> connect_step ev c = success c' -> phase c' = Returned r ->
  run_connect [TimerExpires; ev; TimerHandler] c = crash Dangling.
Proof.
  destruct c as [ph t]. cbn [phase timer]. intros -> Hp Hs Hr.
  destruct ev as [| |[[|e eps]|]|[|]], ph as [|e0 [|e1 rest]|r0]; cbn in Hs; simplify_eq; try done; by exfalso; eapply Hp.
Qed.

(** The timeout bounds a single attempt: it has no effect on the resolver and none on the
    connect that follows it, and during an attempt it only goes on to the next endpoint;
    no further expiry of the timer ends the wait. *)
Theorem timeout_spent events e e' rest :
  Forall (fun ev => ev = TimerExpires \/ ev = TimerHandler) events ->
  run_connect ([TimerExpires; TimerHandler; ResolveDone (Some (e :: rest))] ++ events) connect_with_timeout = success (mkConnecting (Attempting e rest) Over) /\
  run_connect ([ResolveDone (Some (e :: e' :: rest)); TimerExpires; TimerHandler] ++ events) connect_with_timeout = success (mkConnecting (Attempting e' rest) Over).
Proof.
  intros Hall. assert (forall ph, run_connect events (mkConnecting ph Over) = success (mkConnecting ph Over)) as Hk.
  { intros ph. induction Hall as [|ev events [-> | ->] _ IH]; [done| |]; cbn [run_connect connect_step phase timer mbind outcome_bind]; by destruct ph. }
  by split; cbn [app run_connect connect_step connect_with_timeout timer_handler attempt_next phase timer mbind outcome_bind]; rewrite Hk.
Qed.
End connect_facts.

(** ** Samples *)

Lemma connect_returns_witness : exists c : Connecting nat,
  run_connect [ResolveDone (Some [1; 2]%nat); AttemptDone false; AttemptDone true] connect_with_timeout = success c /\ exists r, phase c = Returned r.
Proof.
  pose proof (connect_returns [1; 2]%nat [AttemptDone false; AttemptDone true] ltac:(by apply Nat.leb_le)) as H. eexists. split; [reflexivity|exact H].
Defined.

Lemma late_timer_uses_dead_socket_witness :
  run_connect [TimerExpires; AttemptDone true; TimerHandler] (mkConnecting (Attempting 1%nat []) Armed) = crash Dangling.
Proof. by apply (late_timer_uses_dead_socket (mkConnecting (Attempting 1%nat []) Armed) (mkConnecting (Returned (success 1%nat)) Over) (AttemptDone true) (success 1%nat)). Defined.
