(* ===== verification/Discv4Factory.v ===== *)
(** * Sending a PING by hand

    [SendPingAndWait] and [SendPacket] of [src/discv4/packet_factory.cpp], and the functions of
    [include/discv4/discovery.hpp], an older client of which only a test is left.  The class
    [discv4Discovery] of that file has nothing but private members that nothing calls and is
    left out.

    Sockets are parameters: what opening and binding, sending and receiving give.  An
    exception that reaches the caller is the error [Thrown]. *)

From S2P Require Import Prelude RlpSpec RlpCommon RlpEncoder RlpDecoder DecodeLogic BridgeEvent Discv4Packets.

(** ** packet_factory.cpp *)

Inductive send_error := PacketFailed (e : PacketError) | Thrown.

(** The blocking UDP socket: the port it is bound to, whether a datagram is sent, and the
    datagram that is received with its sender. *)
Record UdpSocket := mkUdpSocket { udp_bound : option Z; udp_sends : bool; udp_received : option (list byte * (list byte * Z)) }.

(** What a call leaves behind: the port given back, the datagrams sent, and the calls of
    the callback. *)
Record PingTrace := mkPingTrace { bound_port : option Z; pings_sent : list (list byte * (list byte * Z)); callback_calls : list (list byte * (list byte * Z)) }.

Section factory.
Context (keccak256 : list byte -> list byte) `{Secp256k1} (make_address_v4 : string -> option (list byte)) (udp : UdpSocket) (now : Z).

Definition SendPacket (msg : list byte) (target : list byte * Z) : M PingTrace send_error unit := fun t =>
  if udp_sends udp then (success tt, mkPingTrace (bound_port t) (pings_sent t ++ [(msg, target)]) (callback_calls t)) else (failure Thrown, t).

Definition give_port (port : Z) : M PingTrace send_error unit := fun t =>
  (success tt, mkPingTrace (Some port) (pings_sent t) (callback_calls t)).
Definition call_back (data : list byte) (sender : list byte * Z) : M PingTrace send_error unit := fun t =>
  (success tt, mkPingTrace (bound_port t) (pings_sent t) (callback_calls t ++ [(data, sender)])).

Definition SendPingAndWait (from_ip : string) (from_udp from_tcp : Z) (to_ip : string) (to_udp to_tcp : Z) (private_key : list byte) :
    M PingTrace send_error unit :=
  match udp_bound udp with
  | None => fail Thrown
  | Some local_port =>
      give_port local_port ;;
      let payload := ping_payload (Endpoint_new make_address_v4 from_ip from_udp from_tcp) (Endpoint_new make_address_v4 to_ip to_udp to_tcp) now in
      match SignAndBuildPacket keccak256 (Some payload) private_key [] with
      | failure e => fail (PacketFailed e)
      | crash f => crash_with f
      | success msg =>
          match make_address_v4 to_ip with
          | None => fail Thrown
          | Some address =>
              SendPacket msg (address, to_udp) ;;
              match udp_received udp with
              | Some (data, sender) => call_back data sender
              | None => mret tt
              end
          end
      end
  end.
End factory.

(** ** discovery.hpp *)

(** FNV-1a, in 64 bits. *)
Definition NodeIDHash (id : list byte) : Z :=
  foldl (fun hash b => u64 (Z.lxor hash (u8 b) * 0x100000001b3)) 0xcbf29ce484222325 id.

Definition xor_distance (node_id other : list byte) : Z :=
  foldl (fun dist p => Z.lxor dist (Z.lxor (u8 p.1) (u8 p.2))) 0 (zip node_id other).

Definition EncodeEndpoint (ip : list byte) (udp_port tcp_port : Z) : outcome EncodingError (list byte) :=
  finish_encoder (BeginList ;; (add_bytes ip ;; add_integral 2 udp_port ;; add_integral 2 tcp_port) ;; EndList).

Definition default_port : Z := 30303.

(** The two addresses are literals, which parse. *)
Definition EncodePing (now : Z) : outcome EncodingError (list byte) :=
  endpoint_from ← EncodeEndpoint [x0a; x00; x02; x0f] default_port default_port;
  endpoint_to ← EncodeEndpoint [x92; xbe; x0d; x80] default_port default_port;
  ping_msg ← finish_encoder
    (BeginList ;;
     (add_integral 1 4 ;; AddRaw endpoint_from ;; AddRaw endpoint_to ;; add_integral 4 (u32 (u32 now + kPacketExpirySeconds))) ;;
     EndList);
  success (x01 :: ping_msg).

Definition test_seckey : list byte :=
  [xe6; xb1; x81; x2f; x04; xe3; x45; x19; x00; x43; x4f; x5a; xbd; x33; x03; xb5;
   x3d; x28; x4b; xd4; x2f; x42; x5c; x07; x61; x0a; x82; xc4; x2b; x8d; x29; x77].

(** The message of [test_ping], up to the socket; [None] where it returns 1.  [sig64] is an
    array of 64 bytes, of which [kWireSigSize] are copied. *)
Definition test_ping_message (keccak256 : list byte -> list byte) (context_created : bool) `{Secp256k1} (now : Z) : outcome Empty_set (option (list byte)) :=
  match EncodePing now with
  | failure _ => success None
  | crash f => crash f
  | success packet =>
      if negb context_created then success None else
      if negb (seckey_verify test_seckey) then success None else
      match sign_recoverable (keccak256 packet) test_seckey with
      | None => success None
      | Some sig =>
          let '(sig64, recid) := serialize_compact sig in
          if (recid <? 0) || (3 <? recid) then success None else
          if Zlen sig64 <? kWireSigSize then crash OutOfBounds else
          let body := take (Z.to_nat kWireSigSize) sig64 ++ [byte_of recid] ++ packet in
          success (Some (keccak256 body ++ body))
      end
  end.

(** ** What is sent *)

Definition legacy_from : Endpoint := mkEndpoint [x0a; x00; x02; x0f] default_port default_port.
Definition legacy_to : Endpoint := mkEndpoint [x92; xbe; x0d; x80] default_port default_port.

(** The older encoder makes the same PING as [discv4_ping]. *)
Theorem legacy_ping_same now : EncodePing now = success (ping_payload legacy_from legacy_to now).
Proof.
  assert (ping_payload legacy_from legacy_to now = ping_wire legacy_from legacy_to now) as Hw.
  { apply ping_payload_wire; repeat split; vm_compute; congruence. }
  revert Hw. unfold ping_payload, typed_payload, EncodePing, EncodeEndpoint, encode_endpoint, add_endpoint, legacy_from, legacy_to, expiry, ping_wire.
  cbn [ep_ip ep_udp ep_tcp]. change kDiscProtocolVersion with 4.
  destruct (finish_encoder _) as [a|e|f]; [|done..]. cbn [mbind outcome_bind].
  destruct (finish_encoder _) as [b|e|f]; [|done..]. cbn [mbind outcome_bind].
  by destruct (finish_encoder _) as [m|e|f].
Qed.

Section sent.
Context (keccak256 : list byte -> list byte) `{Secp256k1Laws} (make_address_v4 : string -> option (list byte)) (now : Z).
Hypothesis keccak256_length : forall b, Zlen (keccak256 b) = kWireHashSize.

(** A PING that is sent is a packet of the private key's node to the given address, which
    [verify_packet] accepts; the callback gets what is received, and the call succeeds
    also when nothing is. *)
Theorem ping_sent_verifies port received from_ip from_udp from_tcp to_ip to_udp to_tcp address key sig pub id :
  make_address_v4 to_ip = Some address ->
  sign_recoverable (keccak256 (ping_payload (Endpoint_new make_address_v4 from_ip from_udp from_tcp) (Endpoint_new make_address_v4 to_ip to_udp to_tcp) now)) key = Some sig ->
  pubkey_create key = Some pub -> pubkey_serialize pub = Some (x04 :: id) -> Zlen id = kNodeIdSize ->
  wf_endpoint (Endpoint_new make_address_v4 from_ip from_udp from_tcp) -> wf_endpoint (Endpoint_new make_address_v4 to_ip to_udp to_tcp) ->
  exists packet,
    SendPingAndWait keccak256 make_address_v4 (mkUdpSocket (Some port) true received) now from_ip from_udp from_tcp to_ip to_udp to_tcp key (mkPingTrace None [] []) =
      (success tt, mkPingTrace (Some port) [(packet, (address, to_udp))] (option_list received)) /\
    verify_packet keccak256 true packet = success id.
Proof.
  intros Ha Hsig Hk Hser Hid Hf Ht. set (payload := ping_payload _ _ now) in *.
  assert (payload <> []) as Hne by (unfold payload; rewrite ping_payload_wire by done; done).
  assert (exists packet, sign_packet keccak256 true key payload = success packet) as [packet Hs].
  { unfold sign_packet. rewrite Hsig. cbn [negb]. by destruct (serialize_compact sig); eexists. }
  destruct (packet_authentic keccak256 true keccak256_length key payload packet pub id Hs Hne Hk Hser Hid) as [Hv Hb].
  exists packet. split; [|done]. unfold SendPingAndWait. cbn [udp_bound]. fold payload. rewrite Hb, Ha. by destruct received as [[data sender]|].
Qed.

(** The test client reads one byte beyond the 64 bytes of the signature whenever it gets
    to sign its PING. *)
Theorem test_ping_overruns sig :
  seckey_verify test_seckey = true -> sign_recoverable (keccak256 (ping_payload legacy_from legacy_to now)) test_seckey = Some sig ->
  test_ping_message keccak256 true now = crash OutOfBounds.
Proof.
  intros Hk Hs. unfold test_ping_message. rewrite legacy_ping_same, Hk, Hs. cbn [negb]. destruct (sign_compact _ _ _ Hs) as (Hl & Hr & _).
  destruct (serialize_compact sig) as [sig64 recid]. cbn [fst snd] in *. rewrite (proj2 (Z.ltb_ge _ _)), (proj2 (Z.ltb_ge _ _)) by lia. cbn [orb].
  by rewrite (proj2 (Z.ltb_lt _ _)) by (unfold kWireSigSize; lia).
Qed.
End sent.

(** [xor_distance] folds the bytes into one and is no distance between identifiers: any two
    that differ in the order of two bytes are at distance 0. *)
Theorem xor_distance_collides x y rest : xor_distance (x :: y :: rest) (y :: x :: rest) = 0.
Proof.
  unfold xor_distance. cbn [zip zip_with foldl fst snd]. rewrite Z.lxor_0_l, (Z.lxor_comm (u8 y)), Z.lxor_nilpotent.
  induction rest as [|z rest IH]; [done|]. cbn [zip zip_with foldl fst snd]. by rewrite Z.lxor_nilpotent.
Qed.

Example fnv_vector : NodeIDHash [x61] = 0xaf63dc4c8601ec8c.
Proof. reflexivity. Qed.

#[local] Existing Instance toy_secp.
#[local] Existing Instance toy_laws.

Lemma ping_sent_verifies_witness : exists packet trace,
  SendPingAndWait (fun _ => replicate 32 x07) (fun _ => Some [x0a; x00; x00; x01]) (mkUdpSocket (Some 4000) true None) 9
    "10.0.0.1" 30303 30303 "10.0.0.1" 30303 30303 (replicate 32 x01) (mkPingTrace None [] []) = (success tt, trace) /\
  verify_packet (fun _ => replicate 32 x07) true packet = success (replicate 64 x01).
Proof.
  destruct (ping_sent_verifies (fun _ => replicate 32 x07) (fun _ => Some [x0a; x00; x00; x01]) 9 ltac:(done) 4000 None "10.0.0.1" 30303 30303 "10.0.0.1" 30303 30303
    [x0a; x00; x00; x01] (replicate 32 x01) (replicate 32 x01 ++ replicate 32 x07) (replicate 32 x01) (replicate 64 x01)) as (packet & E & Hv).
  - done.
  - by vm_compute.
  - done.
  - done.
  - done.
  - repeat split; vm_compute; congruence.
  - repeat split; vm_compute; congruence.
  - exists packet. eexists. split; [exact E|exact Hv].
Defined.

Lemma test_ping_overruns_witness : test_ping_message (fun _ => replicate 32 x07) true 9 = crash OutOfBounds.
Proof. eapply (test_ping_overruns (fun _ => replicate 32 x07) 9); [by vm_compute|vm_compute; reflexivity]. Defined.
