(* ===== verification/WatchCli.v ===== *)
(** * The watches of the command line

    [include/eth/eth_watch_cli.hpp]: the registry of known events with the parameters their
    logs are decoded with, and the watches and the service configuration that are built from
    the command line.  The registry is one object of the process; it is passed as a map. *)

From S2P Require Import Prelude ParseUtility RlpSpec EthObjects AbiDecoder EventFilter WatchService ChainPeers WatchDialer WatchOrchestrator.

Record WatchSpec := mkWatchSpec { contract_hex : text; spec_event_signature : string }.

Definition parse_address (hex : text) : option (list byte) := hex_array 20 hex.

(** ** The registry *)

Notation EventRegistry := (gmap string (list AbiParam)).

Definition register_event (sig : string) (params : list AbiParam) (reg : EventRegistry) : EventRegistry := <[sig := params]> reg.

Definition registry_lookup (reg : EventRegistry) (sig : string) : option (list AbiParam) := reg !! sig.

Definition params_for (reg : EventRegistry) (sig : string) : list AbiParam :=
  match registry_lookup reg sig with Some p => p | None => [] end.

(** The key under which the ERC-721 event is registered. *)
Definition kErc721Transfer : string := "Transfer(address,address,uint256 indexed)".
Definition kTransfer : string := "Transfer(address,address,uint256)".
Definition kTransferBatch : string := "TransferBatch(address,address,address,uint256[],uint256[])".
Definition kBridgeSourceBurned : string := "BridgeSourceBurned(address,uint256,uint256,uint256,uint256)".

Definition known_events : list (string * list AbiParam) :=
  [(kTransfer, [mkParam kAddress true "from"; mkParam kAddress true "to"; mkParam kUint false "value"]);
   ("Approval(address,address,uint256)"%string,
     [mkParam kAddress true "owner"; mkParam kAddress true "spender"; mkParam kUint false "value"]);
   (kErc721Transfer, [mkParam kAddress true "from"; mkParam kAddress true "to"; mkParam kUint true "tokenId"]);
   ("ApprovalForAll(address,address,bool)"%string,
     [mkParam kAddress true "owner"; mkParam kAddress true "operator"; mkParam kBool false "approved"]);
   ("TransferSingle(address,address,address,uint256,uint256)"%string,
     [mkParam kAddress true "operator"; mkParam kAddress true "from"; mkParam kAddress true "to"; mkParam kUint false "id"; mkParam kUint false "value"]);
   (kTransferBatch,
     [mkParam kAddress true "operator"; mkParam kAddress true "from"; mkParam kAddress true "to"; mkParam kBytes32 false "ids"; mkParam kBytes32 false "values"]);
   (kBridgeSourceBurned,
     [mkParam kAddress true "sender"; mkParam kUint false "id"; mkParam kUint false "amount"; mkParam kUint false "srcChainID"; mkParam kUint false "destChainID"])].

(** The registry after its initialisation. *)
Definition event_registry : EventRegistry := foldl (fun reg e => register_event e.1 e.2 reg) ∅ known_events.

Definition infer_params (reg : EventRegistry) (sig : string) : list AbiParam := params_for reg sig.

(** ** The configuration *)

(** One turn of the loop: [watch] starts as an [EthWatchEventSpec] without any value. *)
Definition watch_of_spec (reg : EventRegistry) (spec : WatchSpec) : option EthWatchEventSpec :=
  contract_address ← (if decide (contract_hex spec <> []) then parse_address (contract_hex spec) else Some (replicate 20 x00));
  Some (mkEventSpec contract_address (spec_event_signature spec) (infer_params reg (spec_event_signature spec)) None None).

Fixpoint build_service_watch_specs (reg : EventRegistry) (watch_specs : list WatchSpec) : option (list EthWatchEventSpec) :=
  match watch_specs with
  | [] => Some []
  | spec :: watch_specs' =>
      watch ← watch_of_spec reg spec;
      service_watches ← build_service_watch_specs reg watch_specs';
      Some (watch :: service_watches)
  end.

Definition build_service_config (connection : EthWatchConnectionConfig) (watches : list EthWatchEventSpec) (chains : list ChainPeerConfig)
    (discovery_mode : EthWatchDiscoveryMode) : EthWatchServiceConfig :=
  let c := default_service_config in
  mkServiceConfig connection (wc_peer_queue c) chains watches discovery_mode (wc_enable_discv4_fallback c) (wc_enable_enr_tree_discovery c)
    (wc_attach_peer_dialer c) (wc_discovery c) (wc_discv5_discovery c) (wc_dial_fn_factory c) (wc_enr_tree_resolver c)
    (wc_discv4_fallback_starter c) (wc_discv5_enr_tree_starter c).

(** ** From the command line to decoded events *)

(** A list of watches is built exactly when every contract that is named is an address, one
    watch per specification, in their order. *)
Theorem watch_specs_exact reg specs watches :
  build_service_watch_specs reg specs = Some watches <-> Forall2 (fun spec w => watch_of_spec reg spec = Some w) specs watches.
Proof.
  revert watches. induction specs as [|spec specs IH]; intros watches; cbn [build_service_watch_specs].
  - split; [intros [= <-]; constructor|by intros ->%Forall2_nil_inv_l].
  - split.
    + destruct (watch_of_spec reg spec) as [w|] eqn:E; [|done]. cbn [mbind option_bind].
      destruct (build_service_watch_specs reg specs) as [ws|]; [|done]. intros [= <-]. constructor; [done|]. by apply IH.
    + intros (w & ws & E & Hs & ->)%Forall2_cons_inv_l. rewrite E. cbn [mbind option_bind]. by rewrite (proj2 (IH ws) Hs).
Qed.


(** ** The registered events *)

Fixpoint comma_split (current s : text) : list text :=
  match s with
  | [] => [current]
  | c :: s' => if decide (c = ","%byte) then current :: comma_split [] s' else if decide (c = ")"%byte) then [current] else comma_split (current ++ [c]) s'
  end.

Fixpoint after_parenthesis (s : text) : text :=
  match s with [] => [] | c :: s' => if decide (c = "("%byte) then s' else after_parenthesis s' end.

(** The types a signature lists. *)
Definition signature_types (sig : string) : list text := comma_split [] (after_parenthesis (lit sig)).

Definition kind_of_type (t : text) : option AbiParamKind :=
  if decide (t = lit "address") then Some kAddress
  else if decide (t = lit "uint256") then Some kUint
  else if decide (t = lit "bool") then Some kBool else None.

(** The parameters of the registry are of the types their signature lists, except for the
    two events whose entries cannot work. *)
Theorem registry_consistent sig params :
  registry_lookup event_registry sig = Some params -> sig <> kErc721Transfer -> sig <> kTransferBatch ->
  map (fun p => Some (param_kind p)) params = map kind_of_type (signature_types sig).
Proof.
  unfold registry_lookup, event_registry, register_event, known_events. cbn [foldl fst snd]. rewrite !lookup_insert_Some, lookup_empty.
  intros Hl H1 H2. repeat (destruct Hl as [[<- <-]|[_ Hl]]; [first [by destruct H1 | by destruct H2 | by vm_compute]|]). done.
Qed.

(** The entry for ERC-721 is never used for an ERC-721 log: its key is also what is hashed,
    and the log carries the hash of the signature without the word [indexed]. *)
Theorem erc721_entry_misses keccak256 log rest contract from to block :
  keccak256 (lit kErc721Transfer) <> keccak256 (lit kTransfer) -> le_topics log = event_signature_hash keccak256 kTransfer :: rest ->
  matches (make_event_filter keccak256 contract kErc721Transfer from to) log block = false.
Proof.
  intros Hk Ht. apply not_true_is_false. rewrite matches_iff. intros [_ _ _ Htop]. unfold make_event_filter in Htop. cbn in Htop.
  specialize (Htop 0%nat _ eq_refl). rewrite Ht in Htop. by injection Htop as E.
Qed.

(** The entry for [TransferBatch] hides the arrays: whatever they hold, the values that are
    decoded are the two offsets at which they start. *)
Theorem transfer_batch_hidden keccak256 address operator from to off_ids off_values arrays :
  Zlen operator = 20 -> Zlen from = 20 -> Zlen to = 20 -> Zlen arrays < 2 ^ 63 ->
  decode_log keccak256
    (mkLogEntry address (event_signature_hash keccak256 kTransferBatch :: map abi_static [AbiAddress operator; AbiAddress from; AbiAddress to])
      (be_bytes 32 off_ids ++ be_bytes 32 off_values ++ arrays))
    kTransferBatch (infer_params event_registry kTransferBatch) =
  success [AbiAddress operator; AbiAddress from; AbiAddress to; AbiBytes32 (be_bytes 32 off_ids); AbiBytes32 (be_bytes 32 off_values)].
Proof.
  intros H1 H2 H3 Hl.
  assert (Zlen (be_bytes 32 off_ids) = 32 /\ Zlen (be_bytes 32 off_values) = 32) as [L1 L2] by (rewrite !length_be_bytes; lia).
  assert (forall a b, abi_encode [AbiBytes32 a; AbiBytes32 b] = a ++ b) as E by (intros a b; unfold abi_encode; cbn; by rewrite !app_nil_r).
  rewrite app_assoc, <- (E (be_bytes 32 off_ids) (be_bytes 32 off_values)).
  apply (abi_log_roundtrip keccak256 address arrays kTransferBatch (infer_params event_registry kTransferBatch)
    [AbiAddress operator; AbiAddress from; AbiAddress to] [AbiBytes32 (be_bytes 32 off_ids); AbiBytes32 (be_bytes 32 off_values)]).
  - by repeat constructor.
  - by repeat constructor.
  - by repeat constructor.
  - rewrite E, !length_app. lia.
Qed.

(** ** Samples *)


Lemma transfer_batch_hidden_witness :
  decode_log (fun _ => sample_hash)
    (mkLogEntry sample_address (sample_hash :: map abi_static [AbiAddress sample_address; AbiAddress sample_address; AbiAddress sample_address])
      (be_bytes 32 64 ++ be_bytes 32 128 ++ be_bytes 32 1 ++ be_bytes 32 7 ++ be_bytes 32 1 ++ be_bytes 32 9))
    kTransferBatch (infer_params event_registry kTransferBatch) =
  success [AbiAddress sample_address; AbiAddress sample_address; AbiAddress sample_address; AbiBytes32 (be_bytes 32 64); AbiBytes32 (be_bytes 32 128)].
Proof. by apply (transfer_batch_hidden (fun _ => sample_hash) sample_address sample_address sample_address sample_address 64 128). Defined.
